(* ===== verification/_CoqProject ===== *)
-Q . S2P
Prelude.v
Varint.v
BaseUint.v
Double.v
Serializer.v
MerkleNode.v
Database.v
MerkleTree.v
MerkleInv.v
MerkleLoad.v
MerkleMap.v
MerkleAdd.v
MerkleInsert.v
MerkleOps.v
MerkleCheck.v
Instances.v
MerkleSpec.v
MerkleAbort.v
MerkleBackup.v
CodedStream.v
WireFormat.v
WireLemmas.v
PbMessage.v
PbRound.v
TransactionPb.v
TransactionPbLaws.v
BubiPb.v
BubiPbLaws.v
Entries.v
Ledger.v
LedgerInv.v
LedgerOps.v
Interface.v
Node.v
LedgerSpec.v
Coding.v
CrcTables.v
Crc32c.v
Env.v
WriteBatch.v
WriteBatchSpec.v
Log.v
LogLaws.v
LogSpec.v
SkipList.v
SkipListLaws.v
SkipListSpec.v
DbFormat.v
DbFormatLaws.v
MemTable.v
MemTableSpec.v
DbImpl.v
DbWrite.v
DbQueue.v
DbRecover.v
DbSpec.v
DbInstance.v
XxHash.v
Iterator.v
Block.v
BlockSpec.v
TwoLevel.v
TableFormat.v
Table.v
TableSpec.v
TableRead.v
TableGet.v
Iostream.v
NetBase.v
Net.v
NetConns.v
NetInv.v
NetRun.v
NetSpec.v
LedgerSaved.v
Server.v
ServerLaws.v
SqlTable.v
ServerSpec.v
