(* ===== verification/Prelude.v ===== *)
(** * The Bubi ledger: verification library

    The program is a node of a payment ledger.  A node keeps accounts and transactions in
    two radix Merkle trees, stores the nodes of the trees in RocksDB and the headers of
    its ledgers in SQLite, talks to other nodes over sockets in protocol buffers, and
    answers the JSON requests of clients.  This library models its sources, the parts of
    protobuf and RocksDB the data goes through included, and proves what they do.
    Paths are relative to the root of the repository, [src/src/...] or [src/Test/...].

    ** How the code is represented

    A C++ function is a Rocq function of the same name.  Code that may stop returns an
    [outcome]: [Ok] of a value, or [Err] of a [fault].  A failed [assert] is a fault; so
    is every point where the behaviour of C++ is undefined, a null pointer that is used, a
    read beyond an object, a value that was never returned.  A theorem that says a call
    returns [Ok] therefore says that none of this happens.  A method that changes state is
    a [prog St A], a function from a state to an outcome of a result and a new state.
    Objects that are shared by pointers are records in a heap, a finite map from locations:
    the nodes of the trees, the nodes of a skip list, the connections of a node.  Integers
    are in [Z] with the reduction to their width written out; a [double] is its 64 bits.
    Code that is not in the repository, and library code that is used only through its
    documented behaviour, is a class of operations, with a second class for its laws:
    [SHA512], [Indeterminate] (what uninitialised memory holds), [NaNs], [platform] (the
    CRC instruction and addresses of buffers), [Sqlite], [System] (system calls), [Json],
    [SequentialFile], [WritableFile], [RandomAccessFile] and [compression_library] (the
    functions of [util/compression.h]).  [RocksDB] is the interface of the node store to
    its database; here the laws are not only assumed, [DbInstance] proves them of the model
    of the database.  Every class has an instance, on which the theorems are evaluated
    ([Instances], and the last section of each file of properties).

    ** The parts

    Ledger ([src/src/base], [src/src/ledger], [src/src/database]).
    - [BaseUint], [Serializer], [Double]: [base_uint.{h,cpp}], [serializer.{h,cpp}], and
      the arithmetic of doubles.
    - [MerkleNode], [Database], [MerkleTree]: [radix_merkle_tree_leaf], [..._node],
      [radix_merkle_tree.{h,cpp}], [encode_node], [rocksdb_imp].  [MerkleInv] to
      [MerkleOps] prove the operations against [tree_inv], the invariant of a tree that is
      partly in memory and partly in the database, and against the finite map it stands for.
      [MerkleCheck] decides the invariant; [MerkleSpec], [MerkleAbort] and [MerkleBackup]
      have the properties.
    - [Entries], [Ledger]: [account], [transaction], [sqlite_imp], [ledger.{h,cpp}].  [LedgerInv] and [LedgerOps] relate a
      ledger to a [bank], a map of accounts and a map of transactions.
    - [Interface], [Node], [LedgerSpec]: [p2p/interface.cpp], runs of requests
      from the empty ledger, the sum of the balances, and the properties.
    - [LedgerSaved], [Server] to [ServerSpec]: [src/Test/bubi_server.cpp], how a process
      finds the ledger of the last one again; [SqlTable] is a database with the laws that
      this needs.

    Messages ([src/src/protobuf], the generated [*.pb.{h,cc}]).
    - [Varint], [CodedStream], [WireFormat], [WireLemmas]: coded streams over
      arrays and the wire format.
    - [PbMessage], [PbRound], [TransactionPb], [TransactionPbLaws], [BubiPb],
      [BubiPbLaws]: the four generated messages.

    Network ([src/src/p2p]).
    - [Iostream], [NetBase], [Net]: numbers as text, [netbase.{h,cpp}] and
      [net.{h,cpp}].  A turn of the loop of a thread is one command; [net_step] interleaves
      the turns.  [NetConns] to [NetRun] prove its invariant, [NetSpec] has the properties.

    RocksDB ([src/src/rocksdb]).
    - [Coding], [CrcTables], [Crc32c], [Env]: [util/coding], [util/crc32c], statuses, files.
    - [WriteBatch], [WriteBatchSpec]: [db/write_batch.cc].
    - [Log], [LogLaws], [LogSpec]: [db/log_writer], [db/log_reader].
    - [SkipList], [SkipListLaws], [SkipListSpec]: [db/skiplist.h].
    - [DbFormat], [DbFormatLaws]: [db/dbformat], [util/comparator.cc].
    - [MemTable], [MemTableSpec]: [db/memtable.cc], [util/skiplistrep.cc].
    - [DbImpl], [DbWrite], [DbQueue], [DbRecover], [DbSpec]: [Write], [Put], [Delete],
      [GetImpl] and [RecoverLogFiles] of [db/db_impl.cc], the queue of [db/write_thread.cc],
      and the handler that applies a batch to memtables.
    - [DbInstance]: the database as an implementation of the interface of the node store.
    - [XxHash]: [util/xxhash.cc].
    - [Iterator], [TwoLevel]: [include/rocksdb/iterator.h] as the class [IteratorOps], with
      the contract of a cursor in a list, and [table/two_level_iterator.cc], which keeps it
      if the iterators it is made of do.
    - [Block], [BlockSpec]: [table/block_builder.cc], [table/block.cc].
    - [TableFormat], [Table]: [table/format.cc], [table/block_based_table_builder.cc],
      [..._reader.cc], [meta_blocks.cc], [get_context.cc].  [TableSpec] follows the builder
      ([adding]: the blocks in the file, their index and the entries not yet written),
      [TableRead] the end of the file, opening and the iterator, [TableGet] lookups.

    ** What is proved

    - Trees: adding, updating and looking up implement a finite map and keep every hash up
      to date; an operation fails exactly when its key is taken or absent or a digest
      coincides; a tree that is written and opened again is the same map.
    - Ledger: every run of requests follows an abstract bank; whole nonnegative payments
      between different accounts conserve the money; the history of an account ends and is
      complete; a ledger survives its process.
    - Messages: what is written is read back; parsing any bytes returns.
    - Network: no descriptor leaks, limits hold, sockets fit into their sets; messages are
      sent whole and in order; a transaction that reaches another node is applied there.
    - RocksDB: checksums, batches and the log are correct for all inputs; the skip list is a
      sorted list, a memtable a history of versions, the database the history of its writes
      in the order of arrival, whatever the interleaving of its writers; nobody waits for
      ever; reads are isolated; after a crash the log gives back a state that contains every
      finished write and no write in part.
    - Table files: the iterator over a block is a cursor in the entries of its builder; a table
      file opens and its iterator is a cursor in all entries that were added; a lookup in it
      finds what a memtable with the same versions finds; the digest of a stream is that of
      the whole buffer.
    - Together: nodes stored through batch, log and memtable are read back by the tree.
    Where the code does not do what it should, the theorem says what it does:
    [self_payment_mints], [unchecked_amounts], [SocketSendData_fails],
    [trailer_error_ignored], [init_value_missing], [grouped_option_ignored],
    [failed_write_recovered], [sequence_reused], [reverse_successor_before],
    [long_entry_read_out_of_bounds], [short_block_asserts], [many_restarts_read_out_of_bounds],
    [map_find_None], [failed_metaindex_asserts], [index_size_counts_twice],
    [operands_without_operator].

    ** Fuel

    Loops that do not follow the structure of their data have fuel, and the theorems about
    them show that the fuel given is enough, so that [OutOfFuel] does not stand for a result;
    in [SocketSendData_fails] it is reached with every amount of fuel, because the loop of the
    source does not end.  A descent of a tree gets 65, one more than a key has half-bytes; the
    queues of [backup_to_database] and [fetch_from_db] get the number of nodes; the history of
    an account gets the number of its transactions; sending gets one turn per message, and
    skipping unknown fields one per byte.  A search in a skip list gets the number of nodes and
    of levels, each iteration moving on by one or down by one; a lookup in a memtable gets the
    number of entries.  A log reader takes at most one turn per byte of the file and a few
    more; recovery reads at most one record per byte.  A binary search in a block takes at most
    33 turns, its number of restart points being below [2 ^ 32]; the other loops over a block,
    the lookups in a table and the loop over the properties get one turn per byte, since an
    entry has at least three.  The two-level iterator skips empty blocks; a finished table has
    none, so two turns are enough.

    ** Not modelled

    - Time, printing, logging and statistics; the console programs [src/src/main.cpp],
      [src/src/test.cpp], [src/Test/main.cpp].
    - Threads within a turn: a turn of a thread, or of a writer in the queue of RocksDB, is
      one step.  Data races in it, which the sources have where the ledger is used from
      several threads without a lock, are outside the model, as are memory orders.
    - RocksDB below the memtable, apart from table files: when a flush is due, versions,
      compaction, iterators over the database, opening.  What these contribute to a read is the parameter [older]
      of [GetImpl]; the theorems about writing hold while no flush is due.  Options that
      the program leaves at their defaults: updates in place, filtered deletions, a limit of
      successive merges, bloom filters, time limits of writes.
    - Of table files: block caches, filter blocks, prefix extractors and the hash index; plain
      and cuckoo tables; the compression libraries, of which only is assumed that they give
      back what they were given.
    - Of protobuf: streams, descriptors, reflection, arenas.  SQLite beyond what its four
      statements do; the JSON library; OpenSSL; the operating system. *)

From stdpp Require Export base numbers list gmap strings.
From Stdlib Require Export ZArith Lia.
From Stdlib Require Export Strings.Byte.
From coqutil Require Export Byte.
From coqutil Require Export Word.LittleEndianList.

#[export] Set Warnings "-clear-no-such-hyp".

(** ** Bytes *)

Abbreviation byte := Init.Byte.byte.
Abbreviation bytes := (list byte).

#[export] Instance byte_eq_dec : EqDecision byte := Byte.byte_eq_dec.
#[export] Instance byte_inhabited : Inhabited byte := populate Byte.x00.
#[export] Instance byte_countable : Countable byte.
Proof.
  refine (inj_countable' Byte.to_N (λ n, default Byte.x00 (Byte.of_N n)) _).
  intros b. by rewrite Byte.of_to_N.
Defined.

(** The bytes of a string literal of the source. *)
Definition str (s : string) : bytes := String.list_byte_of_string s.

(** The range of an unsigned integer of 32 and of 64 bits. *)
Abbreviation is_u32 v := (0 ≤ v < 2 ^ 32)%Z.
Abbreviation is_u64 v := (0 ≤ v < 2 ^ 64)%Z.

(** Conversion to these types. *)
Abbreviation u32 z := (z mod 2 ^ 32)%Z.
Abbreviation u64 z := (z mod 2 ^ 64)%Z.

(** The conversion of a [uint32] to [int]. *)
Definition to_int32 (z : Z) : Z := if Z.ltb z (2 ^ 31) then z else (z - 2 ^ 32)%Z.

Lemma to_int32_small z : (z < 2 ^ 31)%Z → to_int32 z = z.
Proof. intros Hz. unfold to_int32. by destruct (Z.ltb_spec z (2 ^ 31)); [|lia]. Qed.

(** ** Outcomes

    Source code that can stop abnormally returns an [outcome].  A failed
    [assert] aborts the process; the other faults are the points at which the
    behaviour of the C++ program is undefined. *)

Inductive fault :=
| AssertFailed   (** [assert] on a false condition *)
| NullDeref      (** a null pointer is dereferenced *)
| OutOfBounds    (** a read past the end of an object *)
| NoReturnValue  (** the value of a call that ended without [return] is used *)
| Terminate      (** an exception that nobody catches *)
| OutOfFuel.     (** a bounded loop of the model ran out of iterations *)

#[export] Instance fault_eq_dec : EqDecision fault.
Proof. solve_decision. Defined.

Inductive outcome (A : Type) : Type :=
| Ok (a : A)
| Err (e : fault).
Arguments Ok {A} a.
Arguments Err {A} e.

#[export] Instance outcome_ret : MRet outcome := λ A a, Ok a.
#[export] Instance outcome_bind : MBind outcome := λ A B f c,
  match c with Ok a => f a | Err e => Err e end.

Arguments outcome_ret {A} a /.
Arguments outcome_bind {A B} f !c /.

Definition of_option {A} (e : fault) (o : option A) : outcome A :=
  match o with Some a => Ok a | None => Err e end.

(** [prog St A]: code that runs on a state [St], may fault, and returns an [A]. *)
Definition prog (St A : Type) : Type := St → outcome (A * St).

#[export] Instance prog_ret St : MRet (prog St) := λ A a s, Ok (a, s).
#[export] Instance prog_bind St : MBind (prog St) := λ A B f c s,
  match c s with Ok (a, s') => f a s' | Err e => Err e end.

Arguments prog_ret {St A} a s /.

(** Reduce binds whose first computation is known. *)
Ltac mred := unfold mret; cbn [mbind outcome_bind outcome_ret of_option prog_ret].

Section prog_ops.
Context {St : Type}.

Definition fail {A} (e : fault) : prog St A := λ _, Err e.
Definition lift {A} (o : outcome A) : prog St A :=
  λ s, match o with Ok a => Ok (a, s) | Err e => Err e end.
Definition assert (b : bool) : prog St unit :=
  λ s, if b then Ok (tt, s) else Err AssertFailed.
Definition gets {A} (f : St → A) : prog St A := λ s, Ok (f s, s).
Definition modify (f : St → St) : prog St unit := λ s, Ok (tt, f s).
End prog_ops.

Section prog_lemmas.
Context {St : Type}.

Lemma bind_Ok {A B} (c : prog St A) (k : A → prog St B) s a s' :
  c s = Ok (a, s') → (c ≫= k) s = k a s'.
Proof. intros H. unfold mbind, prog_bind. by rewrite H. Qed.

Lemma bind_Err {A B} (c : prog St A) (k : A → prog St B) s e :
  c s = Err e → (c ≫= k) s = Err e.
Proof. intros H. unfold mbind, prog_bind. by rewrite H. Qed.

Lemma bind_inv {A B} (c : prog St A) (k : A → prog St B) s b s' :
  (c ≫= k) s = Ok (b, s') → ∃ a s1, c s = Ok (a, s1) ∧ k a s1 = Ok (b, s').
Proof.
  unfold mbind, prog_bind. destruct (c s) as [[a s1]|e] eqn:E; [|done]. eauto.
Qed.

Lemma bind_assoc {A B C} (c : prog St A) (f : A → prog St B) (g : B → prog St C) s :
  ((c ≫= f) ≫= g) s = (c ≫= λ a, f a ≫= g) s.
Proof. unfold mbind, prog_bind. by destruct (c s) as [[??]|]. Qed.

Lemma bind_seq {A B C E} (a : prog St A) (b : prog St B) (c : prog St C) (k : C → prog St E) s :
  (a;; b;; c ≫= k) s = ((a;; b;; c) ≫= k) s.
Proof.
  unfold mbind, prog_bind. destruct (a s) as [[??]|]; [|done]. by destruct (b _) as [[??]|].
Qed.

Lemma lift_Ok {A} (o : outcome A) s a : o = Ok a → lift (St := St) o s = Ok (a, s).
Proof. by intros ->. Qed.

Lemma assert_true (b : bool) s : b = true → assert (St := St) b s = Ok (tt, s).
Proof. by intros ->. Qed.

Lemma assert_inv (b : bool) s u s' :
  assert (St := St) b s = Ok (u, s') → b = true ∧ s' = s.
Proof. unfold assert. destruct b; naive_solver. Qed.
End prog_lemmas.

(** Running the first computation of a sequence, given what it returns. *)
Tactic Notation "step" uconstr(E) := rewrite (bind_Ok _ _ _ _ _ E); cbn beta iota zeta.

(** Decomposing a successful run. *)
Ltac inv_step :=
  match goal with
  | H : (_ ≫= _) _ = Ok _ |- _ =>
      let a := fresh "a" in let s := fresh "s" in let E := fresh "E" in
      apply bind_inv in H as (a & s & E & H)
  | H : assert _ _ = Ok _ |- _ =>
      let Hb := fresh "Hb" in apply assert_inv in H as [Hb ->]
  | H : mret _ _ = Ok _ |- _ => unfold mret, prog_ret in H
  | H : gets _ _ = Ok _ |- _ => unfold gets in H
  | H : modify _ _ = Ok _ |- _ => unfold modify in H
  | H : Ok _ = Ok _ |- _ => injection H as H; try subst
  | H : (_, _) = (_, _) |- _ => injection H as H; try subst
  | H : Err _ = Ok _ |- _ => discriminate H
  | H : fail _ _ = Ok _ |- _ => discriminate H
  end.
Ltac invs := repeat inv_step.

(** Proves an equation between closed terms by evaluating the equality test. *)
Lemma equal_by {A} `{EqDecision A} (x y : A) : bool_decide (x = y) = true → x = y.
Proof. apply bool_decide_eq_true_1. Qed.
Ltac by_evaluation :=
  match goal with |- ?x = ?y => refine (equal_by x y _); vm_compute; reflexivity end.

Create HintDb bubi discriminated.

(** ** Lists *)

Section list_lemmas.
Context {A B : Type}.

Lemma mapM_cons (f : A → outcome B) x l :
  mapM f (x :: l) = match f x with
                    | Ok y => match mapM f l with Ok k => Ok (y :: k) | Err e => Err e end
                    | Err e => Err e
                    end.
Proof. done. Qed.

Lemma mapM_Ok (f : A → outcome B) (g : A → B) (l : list A) :
  (∀ x, x ∈ l → f x = Ok (g x)) → mapM f l = Ok (g <$> l).
Proof.
  induction l as [|x l IH]; intros H; [done|].
  cbn. rewrite (H x) by set_solver. cbn. rewrite IH by set_solver. done.
Qed.

Lemma mapM_Ok_inv (f : A → outcome B) (l : list A) (k : list B) :
  mapM f l = Ok k → Forall2 (λ x y, f x = Ok y) l k.
Proof.
  revert k; induction l as [|x l IH]; intros k; cbn; [by intros [= <-]|].
  destruct (f x) as [y|] eqn:E; cbn; [|done].
  destruct (mapM f l) as [k'|] eqn:E'; cbn; [|done].
  intros [= <-]. constructor; auto.
Qed.

Lemma mapM_Ok_ex (f : A → outcome B) (l : list A) :
  (∀ x, x ∈ l → ∃ y, f x = Ok y) → ∃ k, mapM f l = Ok k.
Proof.
  induction l as [|x l IH]; intros H; cbn; [eauto|].
  destruct (H x) as [y ->]; [set_solver|]. cbn.
  destruct IH as [k ->]; [set_solver|]. cbn. eauto.
Qed.

Lemma fmap_seq_lookup `{!Inhabited A} (g : A → B) (l : list A) n :
  length l = n → (λ i, g (l !!! i)) <$> seq 0 n = g <$> l.
Proof.
  intros <-. apply list_eq. intros i. rewrite !list_lookup_fmap.
  destruct (decide (i < length l)).
  - rewrite lookup_seq_lt by done. cbn.
    rewrite (list_lookup_lookup_total_lt l i) by done. done.
  - by rewrite !lookup_ge_None_2 by (rewrite ?length_seq; lia).
Qed.

(** Concatenation of blocks of equal length. *)
Lemma lookup_mjoin_blocks (f : A → list B) w (l : list A) i j x :
  (∀ x, length (f x) = w) → j < w → l !! i = Some x →
  mjoin (f <$> l) !! (w * i + j) = f x !! j.
Proof.
  intros Hw Hj. revert i. induction l as [|y l IH]; intros [|i] Hi; [done..| |].
  - injection Hi as ->. csimpl. rewrite Nat.mul_0_r. apply lookup_app_l. rewrite Hw. lia.
  - csimpl. rewrite lookup_app_r by (rewrite Hw; lia). rewrite Hw.
    rewrite <-(IH i) by done. f_equal. lia.
Qed.

Lemma length_mjoin_blocks (f : A → list B) w (l : list A) :
  (∀ x, length (f x) = w) → length (mjoin (f <$> l)) = w * length l.
Proof.
  intros Hw. induction l as [|y l IH]; csimpl; [lia|]. rewrite length_app, Hw, IH. lia.
Qed.

Lemma omap_fmap_list {C} (g : A → B) (f : B → option C) (l : list A) :
  omap f (g <$> l) = omap (λ x, f (g x)) l.
Proof. induction l as [|x l IH]; [done|]. csimpl. by rewrite IH. Qed.
End list_lemmas.

(** ** Filters *)

Lemma filter_all {A} (P : A → Prop) `{∀ x, Decision (P x)} (l : list A) : Forall P l → filter P l = l.
Proof. induction 1 as [|x l Hx _ IH]; [done|]. by rewrite filter_cons_True, IH. Qed.

Lemma filter_none {A} (P : A → Prop) `{∀ x, Decision (P x)} (l : list A) : (∀ x, x ∈ l → ¬ P x) → filter P l = [].
Proof.
  intros Hn. destruct (filter P l) as [|x k] eqn:E; [done|].
  destruct (proj1 (list_elem_of_filter P l x)) as [? ?]; [rewrite E; left|]. by destruct (Hn x).
Qed.
