(* ===== verification/Varint.v ===== *)
(** * Bytes of a variable-length integer

    The base 128 encoding is written and read by protobuf and by RocksDB: seven
    bits per byte, the lowest first, the top bit set on all bytes but the last.
    This file has the arithmetic both use. *)

From S2P Require Import Prelude.

(** The byte has its continuation bit clear. *)
Definition last_byte (b : Z) : bool := Z.eqb (Z.land b 0x80) 0.

Lemma unsigned_of_Z z : byte.unsigned (byte.of_Z z) = (z mod 256)%Z.
Proof. rewrite byte.unsigned_of_Z. reflexivity. Qed.

Lemma lor_128 z : (Z.lor z 128 mod 256 = z mod 128 + 128)%Z.
Proof.
  change 256%Z with (2 ^ 8)%Z. rewrite <-Z.land_ones, Z.land_lor_distr_l, Z.land_ones by lia.
  change (Z.land 128 (Z.ones 8)) with 128%Z. change (2 ^ 8)%Z with 256%Z.
  assert (z mod 128 = (z mod 256) mod 128)%Z as ->.
  { rewrite <-(Z.mod_mod_divide z 256 128); [done|by exists 2%Z]. }
  assert (∀ x, (0 ≤ x < 256 → Z.lor x 128 = x mod 128 + 128)%Z) as Hall.
  { assert (forallb (λ n, Z.eqb (Z.lor (Z.of_nat n) 128) (Z.of_nat n mod 128 + 128)) (seq 0 256) = true)
      as Hc by (vm_compute; reflexivity).
    intros x Hx. rewrite forallb_forall in Hc. specialize (Hc (Z.to_nat x)).
    rewrite Z2Nat.id in Hc by lia. apply Z.eqb_eq, Hc, in_seq. lia. }
  apply Hall. by apply Z.mod_pos_bound.
Qed.

Lemma varint_byte_cont v : byte.unsigned (byte.of_Z (Z.lor v 128)) = (v mod 128 + 128)%Z.
Proof. by rewrite unsigned_of_Z, lor_128. Qed.

Lemma varint_byte_last v : (0 ≤ v < 128)%Z → byte.unsigned (byte.of_Z v) = v.
Proof. intros Hv. rewrite unsigned_of_Z. apply Z.mod_small. lia. Qed.

Lemma shiftr_7 v : Z.shiftr v 7 = (v / 128)%Z.
Proof. by rewrite Z.shiftr_div_pow2. Qed.

Lemma varint_bound k v : (0 ≤ v < 2 ^ (7 * Z.of_nat (S k)))%Z → (0 ≤ v / 128 < 2 ^ (7 * Z.of_nat k))%Z.
Proof.
  intros Hv. split; [apply Z.div_pos; lia|]. apply Z.div_lt_upper_bound; [lia|].
  replace (128 * 2 ^ (7 * Z.of_nat k))%Z with (2 ^ (7 * Z.of_nat (S k)))%Z; [lia|].
  change 128%Z with (2 ^ 7)%Z. rewrite <-Z.pow_add_r by lia. f_equal. lia.
Qed.

Lemma pow_7_S i : (2 ^ (7 * Z.of_nat (S i)) = 128 * 2 ^ (7 * Z.of_nat i))%Z.
Proof. change 128%Z with (2 ^ 7)%Z. rewrite <-Z.pow_add_r by lia. f_equal. lia. Qed.

Lemma split_128 v i : (v * 2 ^ (7 * Z.of_nat i) =
  (v mod 128) * 2 ^ (7 * Z.of_nat i) + v / 128 * 2 ^ (7 * Z.of_nat (S i)))%Z.
Proof. rewrite pow_7_S. rewrite (Z.div_mod v 128) at 1 by lia. ring. Qed.

Lemma lor_shifted a b n :
  (0 ≤ n)%Z → (0 ≤ a < 2 ^ n)%Z → (0 ≤ b)%Z → Z.lor a (b * 2 ^ n) = (a + b * 2 ^ n)%Z.
Proof.
  intros Hn Ha Hb. assert (Z.land a (b * 2 ^ n) = 0)%Z as Hz.
  { apply Z.bits_inj'. intros j Hj. rewrite Z.land_spec, Z.bits_0.
    destruct (Z.ltb_spec j n).
    - rewrite Z.mul_pow2_bits_low by done. by rewrite andb_false_r.
    - rewrite <-(Z.mod_small a (2 ^ n)) by lia.
      by rewrite Z.mod_pow2_bits_high by lia. }
  rewrite <-Z.lxor_lor by done. by rewrite Z.add_nocarry_lxor.
Qed.

Lemma land_127 z : Z.land z 127 = (z mod 128)%Z.
Proof. change 127%Z with (Z.ones 7). by rewrite Z.land_ones. Qed.

Lemma land_128 z : (0 ≤ z < 256)%Z → last_byte z = Z.ltb z 128.
Proof.
  assert (forallb (λ n, Bool.eqb (last_byte (Z.of_nat n)) (Z.ltb (Z.of_nat n) 128)) (seq 0 256) = true)
    as Hc by (vm_compute; reflexivity).
  intros Hz. rewrite forallb_forall in Hc. specialize (Hc (Z.to_nat z)).
  rewrite Z2Nat.id in Hc by lia. apply Bool.eqb_prop, Hc, in_seq. lia.
Qed.

Lemma last_byte_cont v : last_byte (v mod 128 + 128) = false.
Proof.
  pose proof (Z.mod_pos_bound v 128). rewrite land_128 by lia. apply Z.ltb_ge. lia.
Qed.

Lemma last_byte_last v : (0 ≤ v < 128)%Z → last_byte v = true.
Proof. intros Hv. rewrite land_128 by lia. apply Z.ltb_lt. lia. Qed.
