(* ===== verification/BaseUint.v ===== *)
(** * base_uint: fixed-width byte strings and their hexadecimal form

    Models [src/src/base/base_uint.h] and [src/src/base/base_uint.cpp].  A
    [base_uint<bits>] is its array [data] of [WIDTH = bits / 8] characters; a
    [char*] argument is the list of the characters readable through it. *)

From S2P Require Import Prelude.

(** The value of a (signed) [char]. *)
Definition schar (a : byte) : Z :=
  let z := byte.unsigned a in (if z <? 128 then z else z - 256)%Z.

(** [ch[i]]: a read beyond what the pointer gives access to is a fault. *)
Definition read (ch : bytes) (i : nat) : outcome byte := of_option OutOfBounds (ch !! i).

(** [std::string::c_str ()]: the characters and the terminating NUL. *)
Definition c_str (s : bytes) : bytes := s ++ [Byte.x00].

Definition hex_to_decimal (a : byte) : outcome Z :=
  let a := schar a in
  (if (a <=? 57) && (a >=? 48) then Ok (a - 48)
   else if (a <=? 102) && (a >=? 97) then Ok (a - 97 + 10)
   else if (a <=? 70) && (a >=? 65) then Ok (a - 65 + 10)
   else Err NoReturnValue)%Z.

(** The two characters [sprintf (_, "%02x", v)] writes for [0 <= v < 256]. *)
Definition hex_digit (v : Z) : byte :=
  byte.of_Z (if v <? 10 then 48 + v else 97 + (v - 10))%Z.
Definition sprintf_02x (v : Z) : bytes := [hex_digit (v / 16)%Z; hex_digit (v mod 16)%Z].

Section base_uint.
Context (bits : nat).

Definition WIDTH : nat := bits / 8.

Definition get_bytes (u : bytes) : nat := WIDTH.

Definition zero : bytes := replicate WIDTH Byte.x00.

Definition init (ch : bytes) : outcome bytes := mapM (read ch) (seq 0 WIDTH).

Definition binary_init (ch : bytes) : outcome bytes :=
  mapM (λ i, ca ← read ch (2 * i); a ← hex_to_decimal ca;
             cb ← read ch (2 * i + 1); b ← hex_to_decimal cb;
             mret (byte.of_Z (Z.shiftl a 4 + b)%Z)) (seq 0 WIDTH).

Definition to_string (u : bytes) : bytes :=
  mjoin ((λ i, sprintf_02x (byte.unsigned (u !!! i))) <$> seq 0 WIDTH).

(** [operator ==] and [operator !=]: the loop stops at the first difference. *)
Fixpoint eq_loop (a b : bytes) (i : nat) (n : nat) : bool :=
  match n with
  | O => true
  | S n => if decide (a !!! i ≠ b !!! i) then false else eq_loop a b (S i) n
  end.
Definition base_uint_eqb (a b : bytes) : bool :=
  if decide (get_bytes a ≠ get_bytes b) then false else eq_loop a b 0 (get_bytes a).
Definition base_uint_neqb (a b : bytes) : bool := negb (base_uint_eqb a b).
End base_uint.
Arguments WIDTH : simpl never.

(** [typedef base_uint<256> uint256] *)
Abbreviation uint256 := (list Init.Byte.byte).
Definition uint256_bits : nat := 256.
Definition wf256 (u : uint256) : Prop := length u = WIDTH uint256_bits.
#[export] Instance wf256_dec u : Decision (wf256 u) := decide (length u = _).

(** ** Hexadecimal digits *)

Definition is_hex (a : byte) : bool :=
  match hex_to_decimal a with Ok _ => true | Err _ => false end.

(** The lower-case form of a hexadecimal character. *)
Definition lower_hex (a : byte) : byte :=
  match hex_to_decimal a with Ok v => hex_digit v | Err _ => a end.

Ltac all_bytes b := destruct b; vm_compute.

Lemma hex_to_decimal_range a v : hex_to_decimal a = Ok v → (0 ≤ v < 16)%Z.
Proof.
  unfold hex_to_decimal. intros H.
  repeat case_match; simplify_eq;
    rewrite ?andb_true_iff, ?Z.leb_le, ?Z.geb_le in *; lia.
Qed.

Lemma hex_digit_to_decimal v : (0 ≤ v < 16)%Z → hex_to_decimal (hex_digit v) = Ok v.
Proof.
  intros H. assert (v ∈ Z.of_nat <$> seq 0 16) as Hin.
  { apply list_elem_of_fmap. exists (Z.to_nat v). rewrite elem_of_seq. lia. }
  cbn in Hin. repeat (apply elem_of_cons in Hin as [->|Hin]; [done|]). set_solver.
Qed.

Lemma lower_hex_digit a v : hex_to_decimal a = Ok v → lower_hex a = hex_digit v.
Proof. unfold lower_hex. by intros ->. Qed.

Lemma byte_of_hex b :
  byte.of_Z (Z.shiftl (byte.unsigned b / 16) 4 + byte.unsigned b mod 16)%Z = b.
Proof. destruct b; reflexivity. Qed.

Lemma hex_of_byte a b :
  (0 ≤ a < 16 → 0 ≤ b < 16 →
   byte.unsigned (byte.of_Z (Z.shiftl a 4 + b)) / 16 = a ∧
   byte.unsigned (byte.of_Z (Z.shiftl a 4 + b)) mod 16 = b)%Z.
Proof.
  intros. rewrite byte.unsigned_of_Z. unfold byte.wrap.
  rewrite Z.shiftl_mul_pow2 by lia. change (2 ^ 4)%Z with 16%Z. change (2 ^ 8)%Z with 256%Z.
  rewrite Z.mod_small by lia. split.
  - rewrite Z.div_add_l by lia. rewrite Z.div_small by lia. lia.
  - rewrite Z.add_comm, Z.mod_add by lia. by apply Z.mod_small.
Qed.

Lemma length_sprintf_02x v : length (sprintf_02x v) = 2.
Proof. done. Qed.

Section base_uint_lemmas.
Context (bits : nat).

Lemma to_string_fmap u :
  length u = WIDTH bits →
  to_string bits u = mjoin ((λ b, sprintf_02x (byte.unsigned b)) <$> u).
Proof. intros H. unfold to_string.
  by rewrite (fmap_seq_lookup (λ b, sprintf_02x (byte.unsigned b)) u). Qed.

Lemma length_to_string u : length (to_string bits u) = 2 * WIDTH bits.
Proof.
  unfold to_string. rewrite (length_mjoin_blocks _ 2) by done. by rewrite length_seq.
Qed.

Lemma to_string_lookup u i j b :
  length u = WIDTH bits → u !! i = Some b → j < 2 →
  to_string bits u !! (2 * i + j) = sprintf_02x (byte.unsigned b) !! j.
Proof.
  intros Hu Hb Hj. rewrite to_string_fmap by done.
  apply (lookup_mjoin_blocks (λ b, sprintf_02x (byte.unsigned b))); done.
Qed.

Lemma read_app_l ch ch' i c : ch !! i = Some c → read (ch ++ ch') i = Ok c.
Proof. intros H. unfold read. by rewrite (lookup_app_l_Some _ _ _ _ H). Qed.

Lemma unsigned_hex_range b :
  (0 ≤ byte.unsigned b / 16 < 16 ∧ 0 ≤ byte.unsigned b mod 16 < 16)%Z.
Proof.
  pose proof (byte.unsigned_range b). change (2 ^ 8)%Z with 256%Z in *.
  split; [|apply Z.mod_pos_bound; lia].
  split; [apply Z.div_pos; lia|apply Z.div_lt_upper_bound; lia].
Qed.

Lemma binary_init_to_string_tail u tl :
  length u = WIDTH bits → binary_init bits (to_string bits u ++ tl) = Ok u.
Proof.
  intros Hu. unfold binary_init.
  rewrite (mapM_Ok _ (λ i, id (u !!! i))).
  { rewrite (fmap_seq_lookup id u) by done. by rewrite list_fmap_id. }
  intros i Hi%elem_of_seq.
  destruct (lookup_lt_is_Some_2 u i) as [b Hb]; [lia|].
  rewrite (list_lookup_total_correct _ _ _ Hb).
  destruct (unsigned_hex_range b).
  rewrite (read_app_l _ _ (2 * i) (hex_digit (byte.unsigned b / 16))).
  2:{ rewrite <-(Nat.add_0_r (2 * i)). by rewrite (to_string_lookup _ _ _ b) by (done || lia). }
  rewrite (read_app_l _ _ (2 * i + 1) (hex_digit (byte.unsigned b mod 16))).
  2:{ by rewrite (to_string_lookup _ _ _ b) by (done || lia). }
  cbn -[hex_digit hex_to_decimal]. rewrite !hex_digit_to_decimal by done.
  cbn -[Z.shiftl]. unfold id. by rewrite byte_of_hex.
Qed.

Lemma to_string_inj u v :
  length u = WIDTH bits → length v = WIDTH bits →
  to_string bits u = to_string bits v → u = v.
Proof.
  intros Hu Hv E. pose proof (binary_init_to_string_tail u [] Hu) as H1.
  rewrite E, (binary_init_to_string_tail v [] Hv) in H1. congruence.
Qed.
End base_uint_lemmas.

(** ** The comparison operators *)

Section base_uint_eq.
Context (bits : nat).

Lemma eq_loop_spec a b i n :
  eq_loop a b i n = true ↔ ∀ j, i ≤ j < i + n → a !!! j = b !!! j.
Proof.
  revert i; induction n as [|n IH]; intros i; cbn [eq_loop].
  { split; [lia|done]. }
  case_decide as E.
  - split; [done|]. intros H. exfalso. apply E, H. lia.
  - rewrite IH. split; intros H j Hj.
    + destruct (decide (j = i)) as [->|]; [done|]. apply H. lia.
    + apply H. lia.
Qed.

Lemma base_uint_eqb_true a b :
  length a = WIDTH bits → length b = WIDTH bits →
  base_uint_eqb bits a b = true ↔ a = b.
Proof.
  intros Ha Hb. unfold base_uint_eqb, get_bytes. rewrite decide_False by auto.
  rewrite eq_loop_spec. split; [|by intros ->].
  intros H. apply list_eq_same_length with (n := WIDTH bits); [done|done|].
  intros i x y Hi Hx Hy. specialize (H i ltac:(lia)).
  by rewrite (list_lookup_total_correct _ _ _ Hx), (list_lookup_total_correct _ _ _ Hy) in H.
Qed.

Lemma base_uint_eqb_decide a b :
  length a = WIDTH bits → length b = WIDTH bits →
  base_uint_eqb bits a b = bool_decide (a = b).
Proof.
  intros Ha Hb. apply eq_bool_prop_intro. rewrite bool_decide_spec.
  rewrite <-base_uint_eqb_true by done. apply Is_true_true.
Qed.
End base_uint_eq.

(** ** Parsing *)

Section binary_init_lemmas.
Context (bits : nat).

Lemma read_Ok ch i c : read ch i = Ok c ↔ ch !! i = Some c.
Proof. unfold read. destruct (ch !! i); naive_solver. Qed.

Lemma is_hex_true a : is_hex a = true ↔ ∃ v, hex_to_decimal a = Ok v.
Proof. unfold is_hex. destruct (hex_to_decimal a); split; try done; [eauto|by intros [? [=]]]. Qed.

Lemma binary_init_Ok_inv ch u :
  binary_init bits ch = Ok u →
  length u = WIDTH bits ∧
  ∀ i, i < WIDTH bits → ∃ ca cb a b,
    ch !! (2 * i) = Some ca ∧ hex_to_decimal ca = Ok a ∧
    ch !! (2 * i + 1) = Some cb ∧ hex_to_decimal cb = Ok b ∧
    u !! i = Some (byte.of_Z (Z.shiftl a 4 + b)%Z).
Proof.
  intros H%mapM_Ok_inv. split.
  { apply Forall2_length in H. by rewrite length_seq in H. }
  intros i Hi. destruct (Forall2_lookup_l _ _ _ i (0 + i) H) as (x & Hx & Hi'); [by apply lookup_seq_lt|].
  cbn [Nat.add] in Hi'. unfold mbind, outcome_bind, mret, outcome_ret in Hi'.
  destruct (read ch (2 * i)) as [ca|] eqn:Ea; [|done].
  destruct (hex_to_decimal ca) as [a|] eqn:Ha; [|done].
  destruct (read ch (2 * i + 1)) as [cb|] eqn:Eb; [|done].
  destruct (hex_to_decimal cb) as [b|] eqn:Hb; [|done].
  apply read_Ok in Ea, Eb. injection Hi' as <-. eauto 10.
Qed.

(** Position [k] of the text is digit [k mod 2] of byte [k / 2]. *)
Lemma binary_init_Ok_char ch u k :
  binary_init bits ch = Ok u → k < 2 * WIDTH bits →
  ∃ c, ch !! k = Some c ∧ is_hex c = true ∧ to_string bits u !! k = Some (lower_hex c).
Proof.
  intros [Hlen H]%binary_init_Ok_inv Hk.
  assert (k = 2 * (k / 2) + k mod 2) as Ek by (apply Nat.div_mod_eq).
  assert (k mod 2 < 2) as Hm by (apply Nat.mod_upper_bound; lia).
  destruct (H (k / 2)) as (ca & cb & a & b & Hca & Ha & Hcb & Hb & Hu); [lia|].
  pose proof (hex_to_decimal_range _ _ Ha). pose proof (hex_to_decimal_range _ _ Hb).
  destruct (hex_of_byte a b ltac:(done) ltac:(done)) as [E1 E2].
  rewrite Ek, (to_string_lookup _ _ _ _ _ Hlen Hu Hm). unfold sprintf_02x. rewrite E1, E2.
  destruct (k mod 2) as [|[|]]; [| |lia].
  - rewrite Nat.add_0_r. exists ca. rewrite (lower_hex_digit _ _ Ha), is_hex_true. eauto.
  - exists cb. rewrite (lower_hex_digit _ _ Hb), is_hex_true. eauto.
Qed.

Lemma binary_init_complete ch :
  2 * WIDTH bits ≤ length ch → Forall (λ c, is_hex c = true) (take (2 * WIDTH bits) ch) →
  ∃ u, binary_init bits ch = Ok u.
Proof.
  intros Hl H. apply mapM_Ok_ex. intros i Hi%elem_of_seq.
  assert (∀ k, k < 2 * WIDTH bits → ∃ c v, read ch k = Ok c ∧ hex_to_decimal c = Ok v) as Hr.
  { intros k Hk. destruct (lookup_lt_is_Some_2 ch k) as [c Hc]; [lia|].
    rewrite Forall_lookup in H.
    specialize (H k c). rewrite lookup_take_lt in H by lia.
    destruct (proj1 (is_hex_true c) (H Hc)) as [v Hv].
    exists c, v. split; [by apply read_Ok|done]. }
  destruct (Hr (2 * i)) as (ca & a & Ea & Ha); [lia|].
  destruct (Hr (2 * i + 1)) as (cb & b & Eb & Hb); [lia|].
  unfold mbind, outcome_bind. rewrite Ea, Ha, Eb, Hb. eauto.
Qed.
End binary_init_lemmas.

(** ** Properties *)

(** [binary_init] reads back exactly the value that [to_string] printed. *)
Theorem binary_init_to_string bits u :
  length u = WIDTH bits → binary_init bits (c_str (to_string bits u)) = Ok u.
Proof. apply binary_init_to_string_tail. Qed.

Lemma binary_init_to_string_witness :
  binary_init 32 (c_str (to_string 32 [x01; xab; x7f; xff])) = Ok [x01; xab; x7f; xff].
Proof. apply (binary_init_to_string 32). reflexivity. Defined.

(** [binary_init] returns a value precisely on inputs whose first [2 * WIDTH]
    characters exist and are hexadecimal digits (of either case); printing that
    value gives back those characters in lower case. *)
Theorem binary_init_accepts bits ch :
  (∃ u, binary_init bits ch = Ok u ∧ length u = WIDTH bits ∧
        to_string bits u = lower_hex <$> take (2 * WIDTH bits) ch) ↔
  2 * WIDTH bits ≤ length ch ∧ Forall (λ c, is_hex c = true) (take (2 * WIDTH bits) ch).
Proof.
  split.
  - intros (u & H & Hlen & _). assert (2 * WIDTH bits ≤ length ch) as Hl.
    { destruct (decide (WIDTH bits = 0)) as [E|]; [rewrite E; lia|].
      destruct (binary_init_Ok_char bits ch u (2 * WIDTH bits - 1) H) as (c & Hc & _); [lia|].
      apply lookup_lt_Some in Hc. lia. }
    split; [done|]. apply Forall_lookup. intros k c.
    rewrite lookup_take_Some. intros [Hc Hk].
    destruct (binary_init_Ok_char bits ch u k H Hk) as (c' & ? & ? & _). naive_solver.
  - intros [Hl H]. destruct (binary_init_complete bits ch Hl H) as [u Hu].
    exists u. split_and!; [done|by apply binary_init_Ok_inv in Hu as [? _]|].
    apply list_eq_same_length with (n := 2 * WIDTH bits).
    + by rewrite length_fmap, length_take_le.
    + apply length_to_string.
    + intros k x y Hk Hx Hy.
      destruct (binary_init_Ok_char bits ch u k Hu Hk) as (c & Hc & _ & Hs).
      rewrite list_lookup_fmap, lookup_take_lt, Hc in Hy by done. cbn in Hy. congruence.
Qed.

(** [operator ==] on two values of the same width decides their equality, and
    [operator !=] is its negation. *)
Theorem base_uint_eqb_spec bits a b :
  length a = WIDTH bits → length b = WIDTH bits →
  (base_uint_eqb bits a b = true ↔ a = b) ∧ (base_uint_neqb bits a b = true ↔ a ≠ b).
Proof.
  intros Ha Hb. unfold base_uint_neqb. rewrite base_uint_eqb_decide by done.
  rewrite negb_true_iff, bool_decide_eq_true, bool_decide_eq_false. done.
Qed.

Lemma base_uint_eqb_spec_witness :
  (base_uint_eqb 16 [x01; x02] [x01; x03] = true ↔ [x01; x02] = [x01; x03]) ∧
  (base_uint_neqb 16 [x01; x02] [x01; x03] = true ↔ [x01; x02] ≠ [x01; x03]).
Proof. apply (base_uint_eqb_spec 16); reflexivity. Defined.
