(* ===== verification/Double.v ===== *)
(** * Doubles

    The [double] of the ledger sources is IEEE 754 binary64.  A value is kept as its
    64 bits, the form in which it is stored and sent; arithmetic goes through the
    floats of the Standard Library's [SpecFloat], with rounding to nearest even.
    Which NaN an addition returns is up to the processor and is a parameter. *)

From S2P Require Import Prelude.
From Stdlib Require Import SpecFloat.

Abbreviation double := Z.
Abbreviation prec := 53%Z.
Abbreviation emax := 1024%Z.

(** ** Bits and values *)

Definition sign_bit (x : double) : bool := Z.testbit x 63.
Definition exponent_bits (x : double) : Z := Z.land (Z.shiftr x 52) 0x7ff.
Definition fraction_bits (x : double) : Z := Z.land x 0xfffffffffffff.

Definition spec_of (x : double) : spec_float :=
  let s := sign_bit x in
  let e := exponent_bits x in
  let f := fraction_bits x in
  if Z.eqb e 0x7ff then (if Z.eqb f 0 then S754_infinity s else S754_nan)
  else if Z.eqb e 0 then
    match f with Zpos m => S754_finite s m (-1074) | _ => S754_zero s end
  else
    match (f + 2 ^ 52)%Z with Zpos m => S754_finite s m (e - 1075) | _ => S754_nan end.

(** The bits of sign [s], exponent field [e] and fraction [f]. *)
Definition pack (s : bool) (e f : Z) : double := ((if s then 2 ^ 63 else 0) + e * 2 ^ 52 + f)%Z.

(** The NaN that adding [x] and [y] returns when the sum is not a number. *)
Class NaNs := {
  nan_of : double → double → double;
  nan_of_nan x y : is_u64 (nan_of x y) ∧ spec_of (nan_of x y) = S754_nan;
}.

Definition bits_of (nan : double) (f : spec_float) : double :=
  match f with
  | S754_zero s => pack s 0 0
  | S754_infinity s => pack s 0x7ff 0
  | S754_nan => nan
  | S754_finite s m e =>
      if Z.ltb (Zpos m) (2 ^ 52) then pack s 0 (Zpos m) else pack s (e + 1075) (Zpos m - 2 ^ 52)
  end.

(** ** Operations of the source *)

Section operations.
Context `{NaNs}.

(** [x + y] *)
Definition dadd (x y : double) : double :=
  bits_of (nan_of x y) (SFadd prec emax (spec_of x) (spec_of y)).
(** [-x]: the sign bit is flipped, also of a NaN. *)
Definition dopp (x : double) : double := Z.lxor x (2 ^ 63).
(** [x < y] *)
Definition dltb (x y : double) : bool := SFltb (spec_of x) (spec_of y).
End operations.

(** The literal of an integer. *)
Definition double_zero : double := 0.

(** ** Rounding *)

Lemma digits2_log2 m : Zpos (digits2_pos m) = (Z.log2 (Zpos m) + 1)%Z.
Proof.
  induction m as [m IH|m IH|]; cbn [digits2_pos]; [| |done].
  - rewrite Pos2Z.inj_succ, IH, (Pos2Z.inj_xI m), Z.log2_succ_double by lia. lia.
  - rewrite Pos2Z.inj_succ, IH, (Pos2Z.inj_xO m), Z.log2_double by lia. lia.
Qed.

Lemma shift_left_xO m d : Zpos (Pos.iter xO m d) = (Zpos m * 2 ^ Zpos d)%Z.
Proof.
  induction d as [|d IH] using Pos.peano_ind; [cbn; lia|].
  rewrite Pos.iter_succ, Pos2Z.inj_xO, IH, Pos2Z.inj_succ, Z.pow_succ_r by lia. lia.
Qed.

Lemma iter_pos_iter {A} (f : A → A) p x : iter_pos f p x = Pos.iter f x p.
Proof.
  revert x. induction p as [p IH|p IH|]; intros x; cbn [iter_pos]; [| |done]; rewrite !IH.
  - cbn [Pos.iter]. by rewrite <-!Pos.iter_swap.
  - done.
Qed.

Definition shr_pos (p : positive) (r : shr_record) : shr_record := iter_pos shr_1 p r.

Lemma shr_pos_succ p r : shr_pos (Pos.succ p) r = shr_1 (shr_pos p r).
Proof. unfold shr_pos. by rewrite !iter_pos_iter, Pos.iter_succ. Qed.

Lemma shr_1_m m r s : (0 ≤ m)%Z → shr_m (shr_1 (Build_shr_record m r s)) = (m / 2)%Z.
Proof. intros Hm. rewrite <-Z.div2_div. by destruct m as [|[p|p|]|]. Qed.

Lemma shr_pos_m p m r s :
  (0 ≤ m)%Z → shr_m (shr_pos p (Build_shr_record m r s)) = (m / 2 ^ Zpos p)%Z.
Proof.
  intros Hm. induction p as [|p IH] using Pos.peano_ind; [by apply shr_1_m|].
  rewrite shr_pos_succ. destruct (shr_pos p _) as [m' r' s']. cbn [shr_m] in IH. subst m'.
  rewrite shr_1_m by (apply Z.div_pos; lia).
  rewrite Pos2Z.inj_succ, Z.pow_succ_r, Z.mul_comm, Z.div_div by lia. done.
Qed.

Lemma shr_1_double m :
  (0 ≤ m)%Z → shr_1 (Build_shr_record (m * 2) false false) = Build_shr_record m false false.
Proof. intros Hm. rewrite Z.mul_comm. by destruct m. Qed.

Lemma shr_pos_exact p m :
  (0 ≤ m)%Z →
  shr_pos p (Build_shr_record (m * 2 ^ Zpos p) false false) = Build_shr_record m false false.
Proof.
  revert m. induction p as [|p IH] using Pos.peano_ind; intros m Hm; [by apply shr_1_double|].
  rewrite shr_pos_succ, Pos2Z.inj_succ, Z.pow_succ_r by lia.
  rewrite Z.mul_assoc, IH by lia. by apply shr_1_double.
Qed.

(** Shifting the mantissa right by [k] places, from an exact value. *)
Lemma shr_m_div m e k :
  (0 ≤ m)%Z → (0 ≤ k)%Z →
  (shr_m (shr (Build_shr_record m false false) e k).1 = m / 2 ^ k ∧
   (shr (Build_shr_record m false false) e k).2 = e + k)%Z.
Proof.
  intros Hm Hk. destruct k as [|p|p]; cbn [shr fst snd]; [|split; [by apply shr_pos_m|done]|lia].
  by rewrite Z.div_1_r, Z.add_0_r.
Qed.

Lemma shr_exact m e k :
  (0 ≤ m)%Z → (0 ≤ k)%Z →
  shr (Build_shr_record (m * 2 ^ k) false false) e k = (Build_shr_record m false false, e + k)%Z.
Proof.
  intros Hm Hk. destruct k as [|p|p]; cbn [shr]; [|by rewrite <-(shr_pos_exact p m)|lia].
  by rewrite Z.mul_1_r, Z.add_0_r.
Qed.

(** [(m, e)] and [(m', e')] are the same number. *)
Definition same_value (m e m' e' : Z) : Prop :=
  ∃ k, (0 ≤ k)%Z ∧ (m = m' * 2 ^ k ∧ e' = e + k ∨ m' = m * 2 ^ k ∧ e = e' + k)%Z.

Lemma same_value_digits m e m' e' :
  same_value (Zpos m) e (Zpos m') e' →
  (Zpos (digits2_pos m) + e = Zpos (digits2_pos m') + e')%Z.
Proof.
  intros (k & Hk & [[E ->]|[E ->]]); rewrite !digits2_log2, E, Z.log2_mul_pow2; lia.
Qed.

(** Rounding a number that is representable returns its canonical form. *)
Lemma binary_round_exact s m e M E :
  bounded prec emax M E = true → same_value (Zpos m) e (Zpos M) E →
  binary_round prec emax s m e = S754_finite s M E.
Proof.
  intros [Hc Hb]%andb_true_iff Hv. pose proof (same_value_digits _ _ _ _ Hv) as Hd.
  apply Z.eqb_eq in Hc. unfold binary_round. rewrite Hd, Hc.
  assert (∃ k, (0 ≤ k)%Z ∧ shl_align m e E = (Z.to_pos (Zpos M * 2 ^ k), E - k)%Z) as (k & Hk & ->).
  { destruct Hv as (k & Hk & [[Em ->]|[EM ->]]).
    - exists k. split; [done|]. unfold shl_align. replace (e + k - e)%Z with k by lia. rewrite <-Em.
      replace (e + k - k)%Z with e by lia. by destruct k.
    - exists 0%Z. split; [done|]. unfold shl_align. replace (E - (E + k))%Z with (- k)%Z by lia.
      rewrite EM, Z.mul_1_r, Z.sub_0_r. destruct k as [|k|k]; cbn [Z.opp]; [|f_equal|lia].
      + by rewrite Z.mul_1_r, Z.add_0_r.
      + apply Pos2Z.inj. rewrite Z2Pos.id by lia. apply shift_left_xO. }
  unfold binary_round_aux, shr_fexp.
  assert (Zpos (Z.to_pos (Zpos M * 2 ^ k)) = (Zpos M * 2 ^ k)%Z) as Em by (apply Z2Pos.id; lia).
  assert (Zdigits2 (Zpos (Z.to_pos (Zpos M * 2 ^ k))) + (E - k) = Zpos (digits2_pos M) + E)%Z as ->.
  { cbn [Zdigits2]. rewrite !digits2_log2, Em, Z.log2_mul_pow2; lia. }
  rewrite Hc, Em. replace (E - (E - k))%Z with k by lia. cbn [shr_record_of_loc].
  rewrite shr_exact by lia. cbn [shr_m loc_of_shr_record round_nearest_even].
  replace (E - k + k)%Z with E by lia. cbn [Zdigits2]. rewrite Hc, Z.sub_diag.
  cbn [shr shr_record_of_loc shr_m]. by rewrite Hb.
Qed.

Lemma fexp_cases d : (fexp prec emax d = d - 53 ∧ -1074 ≤ d - 53 ∨ fexp prec emax d = -1074 ∧ d - 53 ≤ -1074)%Z.
Proof. unfold fexp, emin. lia. Qed.

Lemma log2_bounds m a b : (0 < m → 2 ^ a ≤ m < 2 ^ b → 0 ≤ a → a ≤ Z.log2 m < b)%Z.
Proof.
  intros Hm [Ha Hb] H0. split; [by apply Z.log2_le_pow2|by apply Z.log2_lt_pow2].
Qed.

(** The end of rounding: a mantissa of at most 53 bits, or [2 ^ 53]. *)
Definition round_end (s : bool) (m e : Z) : spec_float :=
  let '(r, e') := shr_fexp prec emax m e loc_Exact in
  match shr_m r with
  | Z0 => S754_zero s
  | Zpos m => if Z.leb e' (emax - prec) then S754_finite s m e' else S754_infinity s
  | _ => S754_nan
  end.

Lemma round_end_max s e : (-1074 ≤ e)%Z → valid_binary prec emax (round_end s (2 ^ 53) e) = true.
Proof.
  intros He. unfold round_end, shr_fexp. cbn [shr_record_of_loc].
  replace (fexp _ _ _ - e)%Z with 1%Z
    by (unfold fexp, emin; change (Zdigits2 (2 ^ 53)) with 54%Z; lia).
  change (2 ^ 53)%Z with (2 ^ 52 * 2 ^ 1)%Z. rewrite shr_exact by lia. cbn [shr_m].
  change (2 ^ 52)%Z with 4503599627370496%Z. cbv iota beta.
  destruct (e + 1 <=? _)%Z eqn:Hle; [|done].
  cbn [valid_binary]. unfold bounded. rewrite Hle, andb_true_r. apply Z.eqb_eq.
  change (Zpos (digits2_pos _)) with 53%Z. unfold fexp, emin. lia.
Qed.

Lemma round_end_valid s m e :
  (0 ≤ m ≤ 2 ^ 53 → -1074 ≤ e → e = -1074 ∨ 2 ^ 52 ≤ m →
   valid_binary prec emax (round_end s m e) = true)%Z.
Proof.
  intros Hm He Hn. destruct (decide (m = 2 ^ 53)%Z) as [->|Hne]; [by apply round_end_max|].
  unfold round_end, shr_fexp. cbn [shr_record_of_loc]. destruct m as [|m|m]; [| |lia].
  - destruct (_ - e)%Z as [|p|p]; cbn [shr]; [done| |done].
    pose proof (shr_pos_m p 0 false false ltac:(lia)) as Hz. unfold shr_pos in Hz. by rewrite Hz.
  - assert (fexp prec emax (Zpos (digits2_pos m) + e) = e) as Hf.
    { rewrite digits2_log2. pose proof (proj1 (Z.log2_lt_pow2 (Zpos m) 53 ltac:(lia)) ltac:(lia)).
      unfold fexp, emin. destruct Hn as [->|Hn]; [lia|].
      apply Z.log2_le_pow2 in Hn; lia. }
    cbn [Zdigits2]. rewrite Hf, Z.sub_diag. cbn [shr shr_m]. case_match eqn:Hle; [|done].
    cbn [valid_binary]. unfold bounded, canonical_mantissa. by rewrite Hf, Z.eqb_refl, Hle.
Qed.

Lemma round_nearest_even_near m l : (m ≤ round_nearest_even m l ≤ m + 1)%Z.
Proof. destruct l as [|[]]; cbn; [lia|case_match; lia|lia..]. Qed.

(** Rounding returns a number of the format. *)
Lemma binary_round_valid s m e : valid_binary prec emax (binary_round prec emax s m e) = true.
Proof.
  unfold binary_round. set (E := fexp prec emax (Zpos (digits2_pos m) + e)).
  assert (∃ mz ez, shl_align m e E = (mz, ez) ∧ (ez ≤ E)%Z ∧
            (Z.log2 (Zpos mz) + ez = Z.log2 (Zpos m) + e)%Z) as (mz & ez & -> & Hle & Hlog).
  { unfold shl_align. destruct (E - e)%Z as [|k|k] eqn:Ek.
    - exists m, e. split_and!; [done|lia..].
    - exists m, e. split_and!; [done|lia..].
    - eexists _, _. split; [done|]. rewrite shift_left_xO, Z.log2_mul_pow2 by lia. lia. }
  unfold E in *. rewrite digits2_log2 in *. clear E.
  unfold binary_round_aux, shr_fexp at 1. cbn [Zdigits2 shr_record_of_loc]. rewrite digits2_log2.
  replace (Z.log2 (Zpos mz) + 1 + ez)%Z with (Z.log2 (Zpos m) + 1 + e)%Z by lia.
  set (E := fexp _ _ _) in *. destruct (shr_m_div (Zpos mz) ez (E - ez)) as [Hm He]; [lia..|].
  destruct (shr _ _ _) as [r e']. cbn [fst snd] in Hm, He. rewrite Hm.
  assert (Zpos mz / 2 ^ (E - ez) < 2 ^ 53)%Z as Hq.
  { apply Z.div_lt_upper_bound; [lia|]. rewrite <-Z.pow_add_r by lia. apply Z.log2_lt_pow2; [lia|].
    destruct (fexp_cases (Z.log2 (Zpos m) + 1 + e)); lia. }
  replace e' with E by lia. apply round_end_valid.
  - pose proof (round_nearest_even_near (Zpos mz / 2 ^ (E - ez)) (loc_of_shr_record r)).
    pose proof (Z.div_pos (Zpos mz) (2 ^ (E - ez)) ltac:(lia) ltac:(lia)). lia.
  - destruct (fexp_cases (Z.log2 (Zpos m) + 1 + e)); subst E; lia.
  - destruct (fexp_cases (Z.log2 (Zpos m) + 1 + e)) as [[Ef ?]|[Ef _]]; [right|by left].
    pose proof (round_nearest_even_near (Zpos mz / 2 ^ (E - ez)) (loc_of_shr_record r)).
    enough (2 ^ 52 ≤ Zpos mz / 2 ^ (E - ez))%Z by lia. apply Z.div_le_lower_bound; [lia|].
    rewrite <-Z.pow_add_r by lia. apply Z.log2_le_pow2; lia.
Qed.

(** ** Bits *)

Section pack.
Context (s : bool) (e f : Z) (He : (0 ≤ e < 2048)%Z) (Hf : (0 ≤ f < 2 ^ 52)%Z).

Lemma pack_u64 : is_u64 (pack s e f).
Proof. unfold pack. destruct s; lia. Qed.

Lemma pack_fraction : fraction_bits (pack s e f) = f.
Proof.
  unfold fraction_bits. change 0xfffffffffffff%Z with (Z.ones 52). rewrite Z.land_ones by lia.
  unfold pack. symmetry. apply (Z.mod_unique_pos _ _ ((if s then 2 ^ 11 else 0) + e)); destruct s; lia.
Qed.

Lemma pack_shift : (pack s e f / 2 ^ 52 = (if s then 2 ^ 11 else 0) + e)%Z.
Proof. unfold pack. symmetry. apply (Z.div_unique_pos _ _ _ f); destruct s; lia. Qed.

Lemma pack_exponent : exponent_bits (pack s e f) = e.
Proof.
  unfold exponent_bits. change 0x7ff%Z with (Z.ones 11).
  rewrite Z.land_ones, Z.shiftr_div_pow2, pack_shift by lia.
  symmetry. apply (Z.mod_unique_pos _ _ (if s then 1 else 0)); destruct s; lia.
Qed.

Lemma pack_sign : sign_bit (pack s e f) = s.
Proof.
  unfold sign_bit. rewrite Z.testbit_odd, Z.shiftr_div_pow2 by lia.
  replace (pack s e f / 2 ^ 63)%Z with (if s then 1%Z else 0%Z); [by destruct s|].
  unfold pack. apply (Z.div_unique_pos _ _ _ (e * 2 ^ 52 + f)); destruct s; lia.
Qed.
End pack.

Lemma unpack x : is_u64 x → x = pack (sign_bit x) (exponent_bits x) (fraction_bits x).
Proof.
  unfold pack, sign_bit, exponent_bits, fraction_bits. intros Hx.
  change 0x7ff%Z with (Z.ones 11). change 0xfffffffffffff%Z with (Z.ones 52).
  rewrite !Z.land_ones, Z.testbit_odd, !Z.shiftr_div_pow2 by lia.
  replace (x / 2 ^ 63)%Z with (x / 2 ^ 52 / 2 ^ 11)%Z by (rewrite Z.div_div by lia; done).
  pose proof (Z.div_mod x (2 ^ 52) ltac:(lia)). pose proof (Z.div_mod (x / 2 ^ 52) (2 ^ 11) ltac:(lia)).
  assert (0 ≤ x / 2 ^ 52 / 2 ^ 11 < 2)%Z.
  { rewrite Z.div_div by lia. split; [apply Z.div_pos; lia|apply Z.div_lt_upper_bound; lia]. }
  set (t := (x / 2 ^ 52 / 2 ^ 11)%Z) in *. assert (t = 0 ∨ t = 1)%Z as [-> | ->] by lia; cbn [Z.odd]; lia.
Qed.

Lemma fields_range x : (0 ≤ exponent_bits x < 2048 ∧ 0 ≤ fraction_bits x < 2 ^ 52)%Z.
Proof.
  unfold exponent_bits, fraction_bits.
  change 0x7ff%Z with (Z.ones 11). change 0xfffffffffffff%Z with (Z.ones 52).
  rewrite !Z.land_ones by lia. split; apply Z.mod_pos_bound; lia.
Qed.

(** What the bits of a float with a mantissa of 53 bits are made of. *)
Lemma spec_of_pack s e f :
  (0 ≤ e < 2047 → 0 ≤ f < 2 ^ 52 →
   spec_of (pack s e f) =
     if Z.eqb e 0 then match f with Zpos m => S754_finite s m (-1074) | _ => S754_zero s end
     else S754_finite s (Z.to_pos (f + 2 ^ 52)) (e - 1075))%Z.
Proof.
  intros He Hf. unfold spec_of. rewrite pack_sign, pack_exponent, pack_fraction by lia.
  rewrite (proj2 (Z.eqb_neq e _)) by lia. destruct (Z.eqb_spec e 0) as [->|]; [done|].
  destruct (f + 2 ^ 52)%Z eqn:E; [lia|done|lia].
Qed.

Lemma spec_of_bits_of nan f :
  valid_binary prec emax f = true → spec_of nan = S754_nan → spec_of (bits_of nan f) = f.
Proof.
  intros Hv Hnan. destruct f as [s|s| |s m e]; cbn [bits_of]; [..|done|].
  - by rewrite spec_of_pack.
  - by destruct s.
  - apply andb_true_iff in Hv as [Hc%Z.eqb_eq Hb%Z.leb_le]. rewrite digits2_log2 in Hc.
    unfold fexp, emin in Hc. destruct (Z.ltb_spec (Zpos m) (2 ^ 52)) as [Hlt|Hge].
    + rewrite spec_of_pack by lia. cbn [Z.eqb].
      apply (Z.log2_lt_pow2 _ 52) in Hlt; [|lia]. f_equal. lia.
    + apply (Z.log2_le_pow2 _ 52) in Hge as Hl; [|lia].
      assert (Zpos m < 2 ^ 53)%Z by (apply Z.log2_lt_pow2; lia).
      rewrite spec_of_pack by lia. rewrite (proj2 (Z.eqb_neq _ _)) by lia.
      f_equal; [|lia]. apply Pos2Z.inj. rewrite Z2Pos.id; lia.
Qed.

Lemma bits_of_u64 nan f : valid_binary prec emax f = true → is_u64 nan → is_u64 (bits_of nan f).
Proof.
  intros Hv Hnan. destruct f as [s|s| |s m e]; cbn [bits_of]; [by apply pack_u64..|done|].
  apply andb_true_iff in Hv as [Hc%Z.eqb_eq Hb%Z.leb_le]. rewrite digits2_log2 in Hc.
  unfold fexp, emin in Hc. destruct (Z.ltb_spec (Zpos m) (2 ^ 52)) as [Hlt|Hge].
  - apply pack_u64; lia.
  - assert (Zpos m < 2 ^ 53)%Z by (apply Z.log2_lt_pow2; lia).
    apply (Z.log2_le_pow2 _ 52) in Hge as ?; [|lia]. apply pack_u64; lia.
Qed.

Lemma bounded_53 m e :
  (2 ^ 52 ≤ Zpos m < 2 ^ 53 → -1074 ≤ e ≤ 971 → bounded prec emax m e = true)%Z.
Proof.
  intros Hm He. apply andb_true_iff. split; [|apply Z.leb_le; lia]. apply Z.eqb_eq.
  destruct (log2_bounds (Zpos m) 52 53) as [? ?]; [lia..|]. rewrite digits2_log2.
  unfold fexp, emin. lia.
Qed.

Lemma spec_of_valid x : valid_binary prec emax (spec_of x) = true.
Proof.
  destruct (fields_range x) as [He Hf]. unfold spec_of.
  destruct (Z.eqb_spec (exponent_bits x) 0x7ff); [by case_match|].
  destruct (Z.eqb_spec (exponent_bits x) 0).
  - destruct (fraction_bits x) as [|m|m]; [done| |done]. apply andb_true_iff. split; [|done].
    apply Z.eqb_eq. rewrite digits2_log2.
    assert (Z.log2 (Zpos m) < 52)%Z by (apply Z.log2_lt_pow2; lia). unfold fexp, emin. lia.
  - destruct (fraction_bits x + 2 ^ 52)%Z as [|m|m] eqn:E; [done| |done]. apply bounded_53; lia.
Qed.

(** The bits of a number are determined by its value. *)
Lemma bits_of_spec_of nan x : is_u64 x → spec_of x ≠ S754_nan → bits_of nan (spec_of x) = x.
Proof.
  intros Hx Hn. destruct (fields_range x) as [He Hf]. rewrite (unpack x Hx) at 2. revert Hn.
  unfold spec_of. destruct (Z.eqb_spec (exponent_bits x) 0x7ff) as [->|].
  { destruct (Z.eqb_spec (fraction_bits x) 0) as [->|]; done. }
  destruct (Z.eqb_spec (exponent_bits x) 0) as [->|].
  { intros _. destruct (fraction_bits x) as [|m|m]; [done| |lia]. cbn [bits_of].
    by rewrite (proj2 (Z.ltb_lt _ _)) by lia. }
  destruct (fraction_bits x + 2 ^ 52)%Z as [|m|m] eqn:E; [done| |done]. intros _. cbn [bits_of].
  rewrite (proj2 (Z.ltb_ge _ _)) by lia. f_equal; lia.
Qed.

Lemma SFadd_valid x y :
  valid_binary prec emax x = true → valid_binary prec emax y = true →
  valid_binary prec emax (SFadd prec emax x y) = true.
Proof.
  intros Hx Hy. destruct x as [[]|[]| |sx mx ex], y as [[]|[]| |sy my ey]; try done.
  unfold SFadd, binary_normalize. case_match; [done|apply binary_round_valid..].
Qed.

Section operation_lemmas.
Context `{NaNs}.
Implicit Types x y : double.

Lemma spec_of_dadd x y : spec_of (dadd x y) = SFadd prec emax (spec_of x) (spec_of y).
Proof.
  apply spec_of_bits_of; [|apply nan_of_nan]. apply SFadd_valid; apply spec_of_valid.
Qed.

Lemma dadd_u64 x y : is_u64 (dadd x y).
Proof. apply bits_of_u64; [|apply nan_of_nan]. apply SFadd_valid; apply spec_of_valid. Qed.

Lemma dopp_pack x :
  is_u64 x → dopp x = pack (negb (sign_bit x)) (exponent_bits x) (fraction_bits x).
Proof.
  intros Hx. destruct (fields_range x) as [He Hf]. rewrite (unpack x Hx) at 1. unfold dopp, pack.
  set (r := (exponent_bits x * 2 ^ 52 + fraction_bits x)%Z).
  assert (0 ≤ r < 2 ^ 63)%Z as Hr by (unfold r; lia).
  assert (Z.land r (2 ^ 63) = 0)%Z as Hl.
  { apply Z.bits_inj'. intros i Hi. rewrite Z.land_spec, Z.bits_0, Z.pow2_bits_eqb by lia.
    destruct (Z.eqb_spec 63 i) as [<-|]; [|apply andb_false_r]. rewrite andb_true_r.
    destruct (decide (r = 0)%Z) as [->|]; [done|]. apply Z.bits_above_log2; [lia|].
    apply Z.log2_lt_pow2; lia. }
  assert (2 ^ 63 + r = Z.lxor (2 ^ 63) r)%Z as Ex by (apply Z.add_nocarry_lxor; by rewrite Z.land_comm).
  destruct (sign_bit x); cbn [negb]; rewrite <-!Z.add_assoc; fold r.
  - rewrite Ex, (Z.lxor_comm (2 ^ 63)), Z.lxor_assoc, Z.lxor_nilpotent, Z.lxor_0_r. done.
  - rewrite Ex. rewrite Z.lxor_comm. done.
Qed.

Lemma dopp_u64 x : is_u64 x → is_u64 (dopp x).
Proof. intros Hx. rewrite dopp_pack by done. by apply pack_u64; apply fields_range. Qed.

Lemma spec_of_dopp x : is_u64 x → spec_of (dopp x) = SFopp (spec_of x).
Proof.
  intros Hx. destruct (fields_range x) as [He Hf]. rewrite dopp_pack by done. unfold spec_of.
  rewrite pack_sign, pack_exponent, pack_fraction by done. by repeat case_match.
Qed.
End operation_lemmas.

(** ** Integers

    The integers below [2 ^ 53] are doubles, and their sums are exact. *)

Definition small (n : Z) : Prop := (Z.abs n < 2 ^ 53)%Z.

Definition int_mantissa (p : positive) : positive := Z.to_pos (Zpos p * 2 ^ (52 - Z.log2 (Zpos p))).
Definition int_exponent (p : positive) : Z := (Z.log2 (Zpos p) - 52)%Z.
Definition int_float (n : Z) : spec_float :=
  match n with
  | Z0 => S754_zero false
  | Zpos p => S754_finite false (int_mantissa p) (int_exponent p)
  | Zneg p => S754_finite true (int_mantissa p) (int_exponent p)
  end.

(** [x] is the integer [n]; zero has two forms. *)
Definition represents (x : double) (n : Z) : Prop :=
  is_u64 x ∧ (spec_of x = int_float n ∨ n = 0%Z ∧ spec_of x = S754_zero true).

Lemma small_log2 p : small (Zpos p) → (0 ≤ Z.log2 (Zpos p) ≤ 52)%Z.
Proof.
  unfold small. intros Hs. pose proof (Z.log2_nonneg (Zpos p)).
  assert (Z.log2 (Zpos p) < 53)%Z by (apply Z.log2_lt_pow2; lia). lia.
Qed.

Lemma int_mantissa_value p :
  small (Zpos p) → (Zpos (int_mantissa p) = Zpos p * 2 ^ (- int_exponent p) ∧ int_exponent p ≤ 0)%Z.
Proof.
  intros Hs%small_log2. unfold int_mantissa, int_exponent. rewrite Z2Pos.id by lia.
  split; [|lia]. do 2 f_equal. lia.
Qed.

Lemma int_bounded p : small (Zpos p) → bounded prec emax (int_mantissa p) (int_exponent p) = true.
Proof.
  intros Hs. destruct (int_mantissa_value p Hs) as [Hm He]. pose proof (small_log2 p Hs) as Hl.
  destruct (Z.log2_spec (Zpos p)) as [H1 H2]; [lia|].
  apply bounded_53; unfold int_exponent in *; [|lia]. rewrite Hm.
  replace (- (Z.log2 (Zpos p) - 52))%Z with (52 - Z.log2 (Zpos p))%Z by lia.
  assert (2 ^ 52 = 2 ^ Z.log2 (Zpos p) * 2 ^ (52 - Z.log2 (Zpos p)))%Z as E1.
  { rewrite <-Z.pow_add_r by lia. f_equal. lia. }
  assert (2 ^ 53 = 2 ^ Z.succ (Z.log2 (Zpos p)) * 2 ^ (52 - Z.log2 (Zpos p)))%Z as E2.
  { rewrite <-Z.pow_add_r by lia. f_equal. lia. }
  rewrite E1, E2. split; [apply Z.mul_le_mono_nonneg_r; lia|apply Z.mul_lt_mono_pos_r; lia].
Qed.

(** An integer scaled by a power of two rounds to the integer. *)
Lemma binary_normalize_int n k :
  small n → (0 ≤ k)%Z → binary_normalize prec emax (n * 2 ^ k) (- k) false = int_float n.
Proof.
  intros Hs Hk.
  assert (∀ s p, small (Zpos p) → binary_round prec emax s (Z.to_pos (Zpos p * 2 ^ k)) (- k) =
            S754_finite s (int_mantissa p) (int_exponent p)) as Hr.
  { intros s p Hp. destruct (int_mantissa_value p Hp) as [Hm He].
    apply binary_round_exact; [by apply int_bounded|]. rewrite Z2Pos.id, Hm by lia.
    destruct (decide (- k ≤ int_exponent p)%Z).
    - exists (k + int_exponent p)%Z. split; [lia|]. left. split; [|lia].
      rewrite <-Z.mul_assoc, <-Z.pow_add_r by lia. do 2 f_equal. lia.
    - exists (- int_exponent p - k)%Z. split; [lia|]. right. split; [|lia].
      rewrite <-Z.mul_assoc, <-Z.pow_add_r by lia. do 2 f_equal. lia. }
  destruct n as [|p|p]; [done|..].
  - cbn [int_float]. rewrite <-(Hr false p Hs). unfold binary_normalize.
    destruct (Zpos p * 2 ^ k)%Z eqn:E; [lia|done|lia].
  - cbn [int_float]. rewrite <-(Hr true p Hs). unfold binary_normalize.
    replace (Zneg p * 2 ^ k)%Z with (- (Zpos p * 2 ^ k))%Z by lia.
    destruct (Zpos p * 2 ^ k)%Z eqn:E; [lia|done|lia].
Qed.

Lemma aligned p e :
  small (Zpos p) → (e ≤ int_exponent p)%Z →
  Zpos (shl_align (int_mantissa p) (int_exponent p) e).1 = (Zpos p * 2 ^ (- e))%Z.
Proof.
  intros Hs Hle. destruct (int_mantissa_value p Hs) as [Hm He]. unfold shl_align.
  destruct (e - int_exponent p)%Z as [|d|d] eqn:Ed; cbn [fst]; [|lia|].
  - rewrite Hm. do 2 f_equal. lia.
  - rewrite shift_left_xO, Hm, <-Z.mul_assoc, <-Z.pow_add_r by lia. do 2 f_equal. lia.
Qed.

Lemma SFadd_int a b :
  small a → small b → small (a + b) → a ≠ 0%Z → b ≠ 0%Z →
  SFadd prec emax (int_float a) (int_float b) = int_float (a + b).
Proof.
  intros Ha Hb Hs Ha0 Hb0.
  assert (∀ n, small n → n ≠ 0%Z → ∃ s p, int_float n = S754_finite s (int_mantissa p) (int_exponent p) ∧
            n = cond_Zopp s (Zpos p) ∧ small (Zpos p)) as Hf.
  { intros [|p|p] Hn ?; [done|..]; [exists false, p|exists true, p]; done. }
  destruct (Hf a Ha Ha0) as (sa & pa & -> & Ea & Hpa). destruct (Hf b Hb Hb0) as (sb & pb & -> & Eb & Hpb).
  cbn [SFadd]. set (ez := Z.min _ _). rewrite !aligned by (done || unfold ez; lia).
  rewrite <-(binary_normalize_int (a + b) (- ez)); [|done|].
  - f_equal; [|lia]. rewrite Ea, Eb, Z.mul_add_distr_r. destruct sa, sb; cbn [cond_Zopp]; lia.
  - destruct (int_mantissa_value pa Hpa). unfold ez. lia.
Qed.

Lemma represents_zero x n :
  represents x n → n = 0%Z ∧ (∃ s, spec_of x = S754_zero s) ∨ n ≠ 0%Z ∧ spec_of x = int_float n.
Proof.
  intros [_ [E|[-> E]]]; [|left; eauto].
  destruct (decide (n = 0)%Z) as [->|]; [left; cbn in E; eauto|by right].
Qed.

(** A nonzero integer is a finite number. *)
Lemma int_float_finite n : n ≠ 0%Z → ∃ s m e, int_float n = S754_finite s m e ∧ s = Z.ltb n 0.
Proof. destruct n; [done|..]; cbn; eauto. Qed.

Section integer_operations.
Context `{NaNs}.
Implicit Types x y : double.

Lemma represents_dadd x y a b :
  represents x a → represents y b → small a → small b → small (a + b) →
  represents (dadd x y) (a + b).
Proof.
  intros Hx Hy Ha Hb Hs. split; [apply dadd_u64|]. rewrite spec_of_dadd.
  destruct (represents_zero _ _ Hx) as [[-> [s ->]]|[Ha0 ->]], (represents_zero _ _ Hy) as [[-> [s' ->]]|[Hb0 ->]].
  - destruct s, s'; cbn; auto.
  - left. rewrite Z.add_0_l. destruct (int_float_finite b Hb0) as (? & ? & ? & -> & _). done.
  - left. rewrite Z.add_0_r. destruct (int_float_finite a Ha0) as (? & ? & ? & -> & _). done.
  - left. by apply SFadd_int.
Qed.

Lemma represents_dopp x n : represents x n → represents (dopp x) (- n).
Proof.
  intros Hx. pose proof Hx as [Hu _]. split; [by apply dopp_u64|]. rewrite spec_of_dopp by done.
  destruct (represents_zero _ _ Hx) as [[-> [s ->]]|[Hn0 ->]]; [destruct s; cbn; auto|].
  left. by destruct n.
Qed.

(** The test [x < 0]. *)
Lemma represents_negative x n : represents x n → dltb x double_zero = Z.ltb n 0.
Proof.
  intros Hx. unfold dltb, SFltb. change (spec_of double_zero) with (S754_zero false).
  destruct (represents_zero _ _ Hx) as [[-> [s ->]]|[Hn0 ->]]; [done|].
  destruct (int_float_finite n Hn0) as (s & m & e & -> & ->).
  by destruct (Z.ltb n 0).
Qed.
End integer_operations.

(** The double of an integer. *)
Definition double_of_int (n : Z) : double := bits_of 0 (int_float n).

Lemma int_float_valid n : small n → valid_binary prec emax (int_float n) = true.
Proof. destruct n; [done|apply int_bounded..]. Qed.

Lemma double_of_int_represents n : small n → represents (double_of_int n) n.
Proof.
  intros Hs%int_float_valid. unfold double_of_int.
  assert (∀ nan, n ≠ 0%Z → bits_of nan (int_float n) = bits_of 0 (int_float n)) as Hi.
  { intros nan Hn. by destruct (int_float_finite n Hn) as (? & ? & ? & -> & _). }
  split; [by apply bits_of_u64|]. left. destruct (decide (n = 0)%Z) as [->|Hn]; [done|].
  rewrite <-(Hi 0x7ff8000000000000%Z Hn). by apply spec_of_bits_of.
Qed.

Lemma represents_inj x a b : represents x a → represents x b → small a → small b → a = b.
Proof.
  intros Ha Hb Sa Sb.
  destruct (represents_zero _ _ Ha) as [[-> [s E]]|[Ha0 E]],
    (represents_zero _ _ Hb) as [[-> [s' E']]|[Hb0 E']]; rewrite E in E'.
  - done.
  - by destruct (int_float_finite b Hb0) as (? & ? & ? & Eb & _); rewrite Eb in E'.
  - by destruct (int_float_finite a Ha0) as (? & ? & ? & Ea & _); rewrite Ea in E'.
  - destruct a as [|p|p], b as [|q|q]; try done; cbn in E'; injection E' as Em Ee;
      destruct (int_mantissa_value p Sa) as [Vp _], (int_mantissa_value q Sb) as [Vq _];
      rewrite Em, Vq, Ee in Vp; apply Z.mul_reg_r in Vp; unfold int_exponent in *; lia.
Qed.
