(* ===== verification/Serializer.v ===== *)
(** * Serializer: byte buffers and the SHA-512 half digest

    Models [src/src/base/serializer.h] and [src/src/base/serializer.cpp].
    OpenSSL's SHA-512 is a parameter: a function from messages to 64-byte
    digests. *)

From S2P Require Import Prelude BaseUint.

(** The contract of OpenSSL's [SHA512] that the code relies on. *)
Class SHA512 := {
  sha512 : bytes → bytes;
  sha512_length m : length (sha512 m) = 64;
}.

Record Serializer := mkSerializer { data_ : bytes }.

#[export] Instance Serializer_eq_dec : EqDecision Serializer.
Proof. solve_decision. Defined.

Definition Serializer_empty : Serializer := mkSerializer [].

(** [Serializer (std::string str)] *)
Definition Serializer_of_string (str : bytes) : Serializer :=
  mkSerializer (foldl (λ acc i, acc ++ [str !!! i]) [] (seq 0 (length str))).

Definition peek_data (s : Serializer) : bytes := data_ s.
Definition peek_data_size (s : Serializer) : nat := length (data_ s).

(** [add_raw (ch, len)]: [len] is an [int]; the loop does nothing when it is negative. *)
Fixpoint add_raw_loop (ch : bytes) (i n : nat) (s : Serializer) : outcome Serializer :=
  match n with
  | O => Ok s
  | S n => c ← read ch i; add_raw_loop ch (S i) n (mkSerializer (data_ s ++ [c]))
  end.
Definition add_raw (ch : bytes) (len : Z) (s : Serializer) : outcome Serializer :=
  add_raw_loop ch 0 (Z.to_nat len) s.

(** [add256]: [data_.insert (data_.end (), hash.begin (), hash.end ())] *)
Definition add256 (hash : uint256) (s : Serializer) : Serializer :=
  mkSerializer (data_ s ++ hash).

Definition add_serializer (t : Serializer) (s : Serializer) : outcome Serializer :=
  let vt := peek_data t in add_raw vt (Z.of_nat (length vt)) s.

Section digest.
Context `{SHA512}.

(** [uint256 j[2]] receives the 64 bytes of the digest; [j[0]] is returned. *)
Definition get_sha512_half (s : Serializer) : uint256 :=
  take (WIDTH uint256_bits) (sha512 (data_ s)).

(** [get_prefix_hash (ch, len)]: Init, one Update with [len] bytes, Final. *)
Definition get_prefix_hash (ch : bytes) (len : nat) : outcome uint256 :=
  if decide (len ≤ length ch) then Ok (take (WIDTH uint256_bits) (sha512 (take len ch)))
  else Err OutOfBounds.
End digest.

(** ** Lemmas *)

Lemma add_raw_loop_app ch1 ch2 ch3 s :
  add_raw_loop (ch1 ++ ch2 ++ ch3) (length ch1) (length ch2) s = Ok (mkSerializer (data_ s ++ ch2)).
Proof.
  revert ch1 s. induction ch2 as [|c ch2 IH]; intros ch1 s; cbn [length add_raw_loop].
  { rewrite app_nil_r. by destruct s. }
  unfold mbind, outcome_bind, read.
  rewrite (list_lookup_middle ch1 (ch2 ++ ch3) c) by done. cbn [of_option].
  specialize (IH (ch1 ++ [c]) (mkSerializer (data_ s ++ [c]))). cbn [data_] in IH.
  rewrite <-!app_assoc in IH. cbn in IH. rewrite length_app in IH. cbn in IH.
  rewrite Nat.add_1_r in IH. exact IH.
Qed.

Lemma add_raw_prefix ch tl len s :
  len = Z.of_nat (length ch) → add_raw (ch ++ tl) len s = Ok (mkSerializer (data_ s ++ ch)).
Proof. intros ->. unfold add_raw. rewrite Nat2Z.id. apply (add_raw_loop_app [] ch tl). Qed.

Lemma add_raw_full ch len s :
  len = Z.of_nat (length ch) → add_raw ch len s = Ok (mkSerializer (data_ s ++ ch)).
Proof. intros. rewrite <-(app_nil_r ch) at 1. by apply add_raw_prefix. Qed.

Lemma add_serializer_Ok t s : add_serializer t s = Ok (mkSerializer (data_ s ++ data_ t)).
Proof. by apply add_raw_full. Qed.

Lemma Serializer_of_string_data s : Serializer_of_string s = mkSerializer s.
Proof.
  unfold Serializer_of_string. f_equal.
  enough (∀ l acc, foldl (λ acc i, acc ++ [s !!! i]) acc l = acc ++ ((λ i, s !!! i) <$> l)) as ->.
  { etrans; [apply (fmap_seq_lookup id s); done|apply list_fmap_id]. }
  induction l as [|i l IH]; intros acc; cbn; [by rewrite app_nil_r|].
  rewrite IH, <-app_assoc. done.
Qed.

Section digest_lemmas.
Context `{SHA512}.

Lemma length_sha512_half s : wf256 (get_sha512_half s).
Proof.
  unfold wf256, get_sha512_half. rewrite length_take, sha512_length. reflexivity.
Qed.
End digest_lemmas.
#[export] Hint Resolve length_sha512_half : bubi.
