(* ===== verification/MerkleNode.v ===== *)
(** * RadixMerkleTreeLeaf and RadixMerkleTreeNode

    Models [src/src/ledger/radix_merkle_tree_leaf.{h,cpp}] and
    [src/src/ledger/radix_merkle_tree_node.{h,cpp}].  A node is a record with the
    members of the class; [children_] holds locations in the heap of the tree
    (see [MerkleTree]), [None] being the null pointer.  A leaf item is never
    modified once built, so a [RadixMerkleTreeLeaf::pointer] is [option] of its
    value.  A method is a function of the node it is called on, returning the
    changed node. *)

From S2P Require Import Prelude BaseUint Serializer.

(** ** Leaves *)

Record RadixMerkleTreeLeaf := mkLeaf { index_ : uint256; leaf_data_ : Serializer }.

#[export] Instance RadixMerkleTreeLeaf_eq_dec : EqDecision RadixMerkleTreeLeaf.
Proof. solve_decision. Defined.

Definition get_index (l : RadixMerkleTreeLeaf) : uint256 := index_ l.
Definition peek_serializer (l : RadixMerkleTreeLeaf) : Serializer := leaf_data_ l.
Definition leaf_peek_data (l : RadixMerkleTreeLeaf) : bytes := peek_data (leaf_data_ l).
Definition peek_string (l : RadixMerkleTreeLeaf) : bytes :=
  let ret := leaf_peek_data l in
  foldl (λ acc i, acc ++ [ret !!! i]) [] (seq 0 (length ret)).

(** What [data_to_string] prints on one line. *)
Definition data_to_string (l : RadixMerkleTreeLeaf) : bytes :=
  mjoin ((λ b, sprintf_02x (byte.unsigned b) ++ str " ") <$> leaf_peek_data l) ++ [Byte.x0a].

(** ** Nodes *)

Inductive TreeNodeType :=
| TREE_NODE_TYPE_ERROR
| TREE_NODE_TYPE_INNER_NODE
| TREE_NODE_TYPE_TRANSACTION_LEAF
| TREE_NODE_TYPE_ACCOUNT_LEAF.

#[export] Instance TreeNodeType_eq_dec : EqDecision TreeNodeType.
Proof. solve_decision. Defined.

(** The enumerators' values, and the enumerator of a value read from memory. *)
Definition TreeNodeType_value (t : TreeNodeType) : Z :=
  match t with
  | TREE_NODE_TYPE_ERROR => 0
  | TREE_NODE_TYPE_INNER_NODE => 1
  | TREE_NODE_TYPE_TRANSACTION_LEAF => 2
  | TREE_NODE_TYPE_ACCOUNT_LEAF => 3
  end.
Definition TreeNodeType_of_value (z : Z) : option TreeNodeType :=
  match z with
  | 0 => Some TREE_NODE_TYPE_ERROR
  | 1 => Some TREE_NODE_TYPE_INNER_NODE
  | 2 => Some TREE_NODE_TYPE_TRANSACTION_LEAF
  | 3 => Some TREE_NODE_TYPE_ACCOUNT_LEAF
  | _ => None
  end%Z.

Abbreviation loc := positive.

Record RadixMerkleTreeNode := mkNode {
  hash_ : uint256;
  children_hash_ : list uint256;
  children_ : list (option loc);
  item_ : option RadixMerkleTreeLeaf;
  is_transaction_tree_ : bool;
  type_ : TreeNodeType;
  branch_mask_ : Z;
}.

(** The contents of a [base_uint] that has not been assigned: [base_uint] has no
    constructor, so a fresh [hash_] and the [children_hash_] of a node built from
    an item are indeterminate.  Nothing is assumed of the values but their size. *)
Class Indeterminate := {
  indet_hash : uint256;
  indet_hashes : list uint256;
  indet_hash_wf : wf256 indet_hash;
  indet_hashes_wf : length indet_hashes = 16 ∧ Forall wf256 indet_hashes;
}.

Definition uint256_zero : uint256 := zero uint256_bits.

Section node_methods.
Context `{SHA512} `{Indeterminate}.
Implicit Types n : RadixMerkleTreeNode.

Definition get_hash n : uint256 := hash_ n.
Definition set_hash (hash : uint256) n : RadixMerkleTreeNode :=
  mkNode hash (children_hash_ n) (children_ n) (item_ n) (is_transaction_tree_ n)
    (type_ n) (branch_mask_ n).
Definition is_inner n : bool := bool_decide (type_ n = TREE_NODE_TYPE_INNER_NODE).
Definition is_empty_branch n (branch : nat) : bool :=
  Z.eqb (Z.land (branch_mask_ n) (Z.shiftl 1 (Z.of_nat branch))) 0.
Definition peek_leaf n : option RadixMerkleTreeLeaf := item_ n.

(** The object representations of [is_transaction_tree_], [type_], [branch_mask_]
    (little endian). *)
Definition bool_raw (b : bool) : bytes := [if b then Byte.x01 else Byte.x00].
Definition type_raw (t : TreeNodeType) : bytes := le_split 4 (TreeNodeType_value t).
Definition mask_raw (m : Z) : bytes := le_split 4 m.

Definition add256_all (hs : list uint256) (s : Serializer) : Serializer :=
  foldl (λ s h, add256 h s) s hs.

Definition update_hash n : outcome (bool * RadixMerkleTreeNode) :=
  s ← add_raw (bool_raw (is_transaction_tree_ n)) 1 Serializer_empty;
  s ← add_raw (type_raw (type_ n)) 4 s;
  s ← add_raw (mask_raw (branch_mask_ n)) 4 s;
  nh ← match type_ n with
       | TREE_NODE_TYPE_INNER_NODE =>
           s ← add_raw (str "_node_") 6 s;
           mret (get_sha512_half (add256_all (children_hash_ n) s))
       | TREE_NODE_TYPE_TRANSACTION_LEAF =>
           s ← add_raw (str "txleaf") 6 s;
           item ← of_option NullDeref (item_ n);
           let data := leaf_peek_data item in
           s ← add_raw data (Z.of_nat (length data)) s;
           mret (get_sha512_half s)
       | TREE_NODE_TYPE_ACCOUNT_LEAF =>
           s ← add_raw (str "acleaf") 6 s;
           item ← of_option NullDeref (item_ n);
           let data := leaf_peek_data item in
           s ← add_raw data (Z.of_nat (length data)) s;
           mret (get_sha512_half (add256 (get_index item) s))
       | TREE_NODE_TYPE_ERROR => Err AssertFailed
       end;
  if base_uint_eqb uint256_bits (hash_ n) nh then mret (false, n)
  else mret (true, set_hash nh n).

(** [RadixMerkleTreeNode (bool is_transaction_tree = false)] *)
Definition mk_inner_node (is_transaction_tree : bool) : outcome RadixMerkleTreeNode :=
  r ← update_hash (mkNode indet_hash (replicate 16 uint256_zero) (replicate 16 None) None
                     is_transaction_tree TREE_NODE_TYPE_INNER_NODE 0);
  mret r.2.

(** [RadixMerkleTreeNode (item, node_type)]: the hash of a new leaf node is
    overwritten with the item's index. *)
Definition mk_leaf_node (item : option RadixMerkleTreeLeaf) (node_type : TreeNodeType)
    : outcome RadixMerkleTreeNode :=
  r ← update_hash (mkNode indet_hash indet_hashes (replicate 16 None) item
                     (bool_decide (node_type = TREE_NODE_TYPE_TRANSACTION_LEAF)) node_type 0);
  item ← of_option NullDeref (item_ r.2);
  mret (set_hash (get_index item) r.2).

Definition get_child (branch : nat) n : outcome (option loc) :=
  if decide (branch < 16) then
    if is_inner n then of_option OutOfBounds (children_ n !! branch) else Err AssertFailed
  else Err AssertFailed.

Definition get_child_hash (branch : nat) n : outcome uint256 :=
  if decide (branch < 16) then of_option OutOfBounds (children_hash_ n !! branch)
  else Err AssertFailed.

Definition canonicalize (branch : nat) (node : option loc) n : outcome RadixMerkleTreeNode :=
  if decide (branch < 16) then
    if is_inner n then
      match node with
      | Some _ =>
          Ok (mkNode (hash_ n) (children_hash_ n) (<[branch := node]> (children_ n)) (item_ n)
                (is_transaction_tree_ n) (type_ n) (branch_mask_ n))
      | None => Err AssertFailed
      end
    else Err AssertFailed
  else Err AssertFailed.

(** No bounds check here: [branch] outside the arrays is undefined. *)
Definition set_child (new_node : option loc) (hash : uint256) (branch : nat) n
    : outcome (bool * RadixMerkleTreeNode) :=
  if decide (branch < 16) then
    update_hash (mkNode (hash_ n) (<[branch := hash]> (children_hash_ n))
                   (<[branch := new_node]> (children_ n)) (item_ n) (is_transaction_tree_ n)
                   (type_ n) (Z.lor (branch_mask_ n) (Z.shiftl 1 (Z.of_nat branch))))
  else Err OutOfBounds.

Definition make_inner n : RadixMerkleTreeNode :=
  mkNode uint256_zero (replicate 16 uint256_zero) (replicate 16 None) None
    (is_transaction_tree_ n) TREE_NODE_TYPE_INNER_NODE 0.

Definition set_item (item : option RadixMerkleTreeLeaf) (node_type : TreeNodeType) n
    : outcome (bool * RadixMerkleTreeNode) :=
  update_hash (mkNode (hash_ n) (children_hash_ n) (children_ n) item (is_transaction_tree_ n)
                 node_type (branch_mask_ n)).
End node_methods.

(** ** The stored form of a node *)

Section node_codec.
Context `{SHA512} `{Indeterminate}.

Definition encode (n : RadixMerkleTreeNode) (s : Serializer) : outcome Serializer :=
  s ← add_raw (bool_raw (is_transaction_tree_ n)) 1 s;
  s ← add_raw (type_raw (type_ n)) 4 s;
  s ← add_raw (mask_raw (branch_mask_ n)) 4 s;
  match type_ n with
  | TREE_NODE_TYPE_INNER_NODE => mret (add256_all (children_hash_ n) s)
  | TREE_NODE_TYPE_TRANSACTION_LEAF | TREE_NODE_TYPE_ACCOUNT_LEAF =>
      item ← of_option NullDeref (item_ n);
      add_serializer (peek_serializer item) (add256 (get_index item) s)
  | TREE_NODE_TYPE_ERROR => Err AssertFailed
  end.

(** A four-byte read at an offset of a buffer. *)
Definition read_u32 (buf : bytes) (off : nat) : outcome Z :=
  bs ← mapM (read buf) (seq off 4); mret (le_combine bs).

(** The conversion of a [size_t] to the [int] parameter of [add_raw]. *)
Definition int_of_size (z : Z) : Z := ((z + 2 ^ 31) mod 2 ^ 32 - 2 ^ 31)%Z.
Definition size_sub (a b : Z) : Z := ((a - b) mod 2 ^ 64)%Z.

Definition decode (value_string : bytes) (n : RadixMerkleTreeNode)
    : outcome RadixMerkleTreeNode :=
  let value_ptr := c_str value_string in
  b ← read value_ptr 0;
  let is_tx := bool_decide (b ≠ Byte.x00) in
  ty ← read_u32 value_ptr 1;
  mask ← read_u32 value_ptr 5;
  let value_ptr := drop 9 value_ptr in
  match TreeNodeType_of_value ty with
  | Some TREE_NODE_TYPE_INNER_NODE =>
      hs ← mapM (λ i, init uint256_bits (drop (32 * i) value_ptr)) (seq 0 16);
      mret (mkNode (hash_ n) hs (replicate 16 None) (item_ n) is_tx
              TREE_NODE_TYPE_INNER_NODE mask)
  | Some ((TREE_NODE_TYPE_TRANSACTION_LEAF | TREE_NODE_TYPE_ACCOUNT_LEAF) as ty) =>
      index ← init uint256_bits value_ptr;
      let len := size_sub (Z.of_nat (length value_string)) 9 in
      s ← add_raw (drop 32 value_ptr) (int_of_size (size_sub len 32)) Serializer_empty;
      mret (mkNode (hash_ n) (children_hash_ n) (children_ n) (Some (mkLeaf index s)) is_tx
              ty mask)
  | _ => Err AssertFailed
  end.
End node_codec.

(** ** The preimages that are hashed *)

Definition leaf_tag (t : TreeNodeType) : bytes :=
  match t with
  | TREE_NODE_TYPE_TRANSACTION_LEAF => str "txleaf"
  | TREE_NODE_TYPE_ACCOUNT_LEAF => str "acleaf"
  | _ => str "_node_"
  end.

(** What [update_hash] feeds to SHA-512, as one byte string. *)
Definition preimage (n : RadixMerkleTreeNode) : bytes :=
  bool_raw (is_transaction_tree_ n) ++ type_raw (type_ n) ++ mask_raw (branch_mask_ n) ++
  leaf_tag (type_ n) ++
  match type_ n, item_ n with
  | TREE_NODE_TYPE_INNER_NODE, _ => mjoin (children_hash_ n)
  | TREE_NODE_TYPE_TRANSACTION_LEAF, Some item => leaf_peek_data item
  | TREE_NODE_TYPE_ACCOUNT_LEAF, Some item => leaf_peek_data item ++ get_index item
  | _, _ => []
  end.

(** A node whose type and item fit together: inner, or a leaf with an item. *)
Definition typed_node (n : RadixMerkleTreeNode) : Prop :=
  match type_ n with
  | TREE_NODE_TYPE_INNER_NODE => True
  | TREE_NODE_TYPE_TRANSACTION_LEAF | TREE_NODE_TYPE_ACCOUNT_LEAF => is_Some (item_ n)
  | TREE_NODE_TYPE_ERROR => False
  end.

Lemma add256_all_data hs s : add256_all hs s = mkSerializer (data_ s ++ mjoin hs).
Proof.
  revert s. induction hs as [|h hs IH]; intros s; cbn.
  - rewrite app_nil_r. by destruct s.
  - unfold add256_all in IH. rewrite IH. cbn. by rewrite app_assoc.
Qed.

Lemma add_raw_bool b s : add_raw (bool_raw b) 1 s = Ok (mkSerializer (data_ s ++ bool_raw b)).
Proof. by apply add_raw_full. Qed.
Lemma add_raw_type t s : add_raw (type_raw t) 4 s = Ok (mkSerializer (data_ s ++ type_raw t)).
Proof. apply add_raw_full. unfold type_raw. by rewrite length_le_split. Qed.
Lemma add_raw_mask m s : add_raw (mask_raw m) 4 s = Ok (mkSerializer (data_ s ++ mask_raw m)).
Proof. apply add_raw_full. unfold mask_raw. by rewrite length_le_split. Qed.
Lemma add_raw_tag t s : add_raw (leaf_tag t) 6 s = Ok (mkSerializer (data_ s ++ leaf_tag t)).
Proof. apply add_raw_full. by destruct t. Qed.
Lemma add_raw_data d s :
  add_raw d (Z.of_nat (length d)) s = Ok (mkSerializer (data_ s ++ d)).
Proof. by apply add_raw_full. Qed.
Create Rewrite HintDb ser.
#[export] Hint Rewrite add_raw_bool add_raw_type add_raw_mask add_raw_data
  add_serializer_Ok add256_all_data : ser.

Section update_hash_lemmas.
Context `{SHA512}.
Implicit Types n : RadixMerkleTreeNode.

(** The digest of a node's preimage. *)
Definition node_digest n : uint256 := get_sha512_half (mkSerializer (preimage n)).

Lemma node_digest_wf n : wf256 (node_digest n).
Proof. apply length_sha512_half. Qed.

Lemma update_hash_spec n :
  typed_node n →
  update_hash n =
    Ok (if base_uint_eqb uint256_bits (hash_ n) (node_digest n) then (false, n)
        else (true, set_hash (node_digest n) n)).
Proof.
  intros Ht. unfold update_hash, mbind, outcome_bind, mret, outcome_ret.
  rewrite add_raw_bool, add_raw_type, add_raw_mask.
  change (str "_node_") with (leaf_tag TREE_NODE_TYPE_INNER_NODE).
  change (str "txleaf") with (leaf_tag TREE_NODE_TYPE_TRANSACTION_LEAF).
  change (str "acleaf") with (leaf_tag TREE_NODE_TYPE_ACCOUNT_LEAF).
  rewrite !add_raw_tag. unfold node_digest, preimage, typed_node in *.
  destruct (type_ n) eqn:Ety; [done|..];
    [|destruct Ht as [? ->]; cbn [of_option]; rewrite add_raw_data..];
    rewrite ?add256_all_data; unfold add256; cbn [data_ app Serializer_empty];
    rewrite <-?app_assoc; by case_match.
Qed.

Lemma update_hash_true n :
  typed_node n → wf256 (hash_ n) → hash_ n ≠ node_digest n →
  update_hash n = Ok (true, set_hash (node_digest n) n).
Proof.
  intros Ht Hw Hne. rewrite update_hash_spec by done.
  rewrite base_uint_eqb_decide by (done || apply node_digest_wf).
  by rewrite bool_decide_eq_false_2.
Qed.

Lemma update_hash_false n :
  typed_node n → hash_ n = node_digest n → update_hash n = Ok (false, n).
Proof.
  intros Ht E. rewrite update_hash_spec by done. rewrite E.
  rewrite base_uint_eqb_decide by apply node_digest_wf. by rewrite bool_decide_eq_true_2.
Qed.
End update_hash_lemmas.

(** ** Encoding and decoding *)

(** The bytes of a node's stored form. *)
Definition stored (n : RadixMerkleTreeNode) : bytes :=
  bool_raw (is_transaction_tree_ n) ++ type_raw (type_ n) ++ mask_raw (branch_mask_ n) ++
  match type_ n, item_ n with
  | TREE_NODE_TYPE_INNER_NODE, _ => mjoin (children_hash_ n)
  | (TREE_NODE_TYPE_TRANSACTION_LEAF | TREE_NODE_TYPE_ACCOUNT_LEAF), Some item =>
      get_index item ++ leaf_peek_data item
  | _, _ => []
  end.

Lemma encode_spec n s :
  typed_node n → encode n s = Ok (mkSerializer (data_ s ++ stored n)).
Proof.
  intros Ht. unfold encode, mbind, outcome_bind, mret, outcome_ret.
  rewrite add_raw_bool, add_raw_type, add_raw_mask. unfold stored, typed_node in *.
  destruct (type_ n) eqn:Ety; [done|..];
    rewrite ?add256_all_data; cbn [data_];
    [|destruct Ht as [item ->]; cbn [of_option]; rewrite add_serializer_Ok..];
    unfold add256; cbn [data_]; by rewrite <-?app_assoc.
Qed.

Lemma read_seq_app (b1 b2 b3 : bytes) :
  mapM (read (b1 ++ b2 ++ b3)) (seq (length b1) (length b2)) = Ok b2.
Proof.
  revert b1. induction b2 as [|c b2 IH]; intros b1; [done|].
  cbn [length seq]. rewrite <-app_comm_cons, mapM_cons. unfold read at 1.
  rewrite (list_lookup_middle b1) by done. cbn [of_option].
  specialize (IH (b1 ++ [c])). rewrite <-app_assoc in IH. cbn in IH.
  rewrite length_app in IH. cbn in IH. rewrite Nat.add_1_r in IH. by rewrite IH.
Qed.

Lemma read_u32_app b1 b2 b3 off :
  length b1 = off → length b2 = 4 → read_u32 (b1 ++ b2 ++ b3) off = Ok (le_combine b2).
Proof.
  intros <- H. unfold read_u32. rewrite <-H. rewrite read_seq_app. done.
Qed.

Lemma init_app bits u tl : length u = WIDTH bits → init bits (u ++ tl) = Ok u.
Proof. intros H. unfold init. rewrite <-H. apply (read_seq_app [] u tl). Qed.

Lemma init_blocks bits (hs : list uint256) tl :
  Forall (λ h, length h = WIDTH bits) hs →
  mapM (λ i, init bits (drop (WIDTH bits * i) (mjoin hs ++ tl))) (seq 0 (length hs)) = Ok hs.
Proof.
  intros Hw.
  rewrite (mapM_Ok _ (λ i, id (hs !!! i))).
  { f_equal. etrans; [apply (fmap_seq_lookup id hs); done|apply list_fmap_id]. }
  intros i Hi%elem_of_seq. destruct (lookup_lt_is_Some_2 hs i) as [h Hh]; [lia|].
  rewrite (list_lookup_total_correct _ _ _ Hh). unfold id.
  rewrite <-(take_drop_middle hs i h Hh). rewrite join_app. cbn. rewrite <-!app_assoc.
  rewrite drop_app_length'.
  2:{ pose proof (Forall_take (λ h, length h = WIDTH bits) i hs Hw) as Ht.
      assert (length (take i hs) = i) as El by (rewrite length_take; lia).
      revert El Ht. generalize (take i hs). clear. intros l. revert i.
      induction l as [|x l IH]; intros i <- Ht; csimpl; [lia|].
      inversion Ht; subst. rewrite length_app, <-(IH (length l)) by done. lia. }
  apply init_app. by eapply Forall_lookup_1 in Hw.
Qed.

(** Well-formed nodes: sizes of the arrays and of the stored values. *)
Record node_wf (n : RadixMerkleTreeNode) : Prop := {
  nwf_typed : typed_node n;
  nwf_hash : wf256 (hash_ n);
  nwf_hashes : length (children_hash_ n) = 16 ∧ Forall wf256 (children_hash_ n);
  nwf_children : length (children_ n) = 16;
  nwf_mask : (0 ≤ branch_mask_ n < 2 ^ 16)%Z;
  nwf_item : ∀ item, item_ n = Some item → wf256 (index_ item);
}.

(** [decode] leaves the members a stored leaf does not carry as they were. *)
Definition decoded (n m : RadixMerkleTreeNode) : RadixMerkleTreeNode :=
  if is_inner n then
    mkNode (hash_ m) (children_hash_ n) (replicate 16 None) (item_ m)
      (is_transaction_tree_ n) (type_ n) (branch_mask_ n)
  else
    mkNode (hash_ m) (children_hash_ m) (children_ m) (item_ n)
      (is_transaction_tree_ n) (type_ n) (branch_mask_ n).

(** The item fits the [int] that [decode] passes to [add_raw]. *)
Definition item_fits (n : RadixMerkleTreeNode) : Prop :=
  is_inner n = false → ∀ item, item_ n = Some item →
  (Z.of_nat (length (leaf_peek_data item)) < 2 ^ 31)%Z.

Lemma type_raw_inv t : TreeNodeType_of_value (le_combine (type_raw t)) = Some t.
Proof. by destruct t. Qed.

Lemma mask_raw_inv m : (0 ≤ m < 2 ^ 32)%Z → le_combine (mask_raw m) = m.
Proof.
  intros. unfold mask_raw. rewrite le_combine_split. by apply Z.mod_small.
Qed.

Lemma decode_header b (t : TreeNodeType) m rest :
  (0 ≤ m < 2 ^ 32)%Z →
  let value_ptr := c_str (bool_raw b ++ type_raw t ++ mask_raw m ++ rest) in
  read value_ptr 0 = Ok (if b then Byte.x01 else Byte.x00) ∧
  read_u32 value_ptr 1 = Ok (TreeNodeType_value t) ∧
  read_u32 value_ptr 5 = Ok m ∧
  drop 9 value_ptr = c_str rest.
Proof.
  intros Hm value_ptr.
  assert (length (type_raw t) = 4) as Lt by apply length_le_split.
  assert (length (mask_raw m) = 4) as Lm by apply length_le_split.
  subst value_ptr. unfold c_str. rewrite <-!app_assoc. split_and!; [by destruct b|..].
  - rewrite (read_u32_app (bool_raw b) (type_raw t)) by done. by destruct t.
  - rewrite (app_assoc (bool_raw b)), (read_u32_app _ (mask_raw m)); [|by rewrite length_app, Lt|done].
    by rewrite mask_raw_inv.
  - rewrite !(app_assoc (bool_raw b)), (app_assoc (_ ++ _)). apply drop_app_length'.
    rewrite !length_app, Lt, Lm. done.
Qed.

Lemma int_of_size_small z : (0 ≤ z < 2 ^ 31)%Z → int_of_size z = z.
Proof. intros. unfold int_of_size. rewrite Z.mod_small by lia. lia. Qed.

(** The leaf part of [decode]. *)
Lemma decode_item index data total :
  total = 41 + length data → wf256 index → (Z.of_nat (length data) < 2 ^ 31)%Z →
  init uint256_bits (c_str (index ++ data)) = Ok index ∧
  add_raw (drop 32 (c_str (index ++ data)))
    (int_of_size (size_sub (size_sub (Z.of_nat total) 9) 32))
    Serializer_empty = Ok (mkSerializer data).
Proof.
  intros -> Hw Hd. unfold c_str. rewrite <-app_assoc. split; [by apply init_app|].
  rewrite drop_app_length' by (by rewrite Hw). unfold size_sub.
  rewrite (Z.mod_small (_ - 9)) by lia. rewrite Z.mod_small by lia.
  rewrite int_of_size_small by lia. rewrite add_raw_prefix by lia. done.
Qed.

Lemma length_stored_leaf b t m index data :
  wf256 index →
  length (bool_raw b ++ type_raw t ++ mask_raw m ++ index ++ data) = 41 + length data.
Proof.
  intros Hw. unfold type_raw, mask_raw. rewrite !length_app, !length_le_split, Hw. done.
Qed.

Lemma decode_leaf_tail item total {A} (k : uint256 → Serializer → outcome A) :
  total = 41 + length (leaf_peek_data item) → wf256 (get_index item) →
  (Z.of_nat (length (leaf_peek_data item)) < 2 ^ 31)%Z →
  (index ← init uint256_bits (c_str (get_index item ++ leaf_peek_data item));
   s ← add_raw (drop 32 (c_str (get_index item ++ leaf_peek_data item)))
         (int_of_size (size_sub (size_sub (Z.of_nat total) 9) 32)) Serializer_empty;
   k index s) = k (get_index item) (leaf_data_ item).
Proof.
  intros Ht Hw Hd. destruct (decode_item _ _ _ Ht Hw Hd) as [-> E]. mred.
  rewrite E. by destruct item as [? []].
Qed.

Lemma decode_stored n m :
  node_wf n → item_fits n → decode (stored n) m = Ok (decoded n m).
Proof.
  intros Hwf Hfit. destruct Hwf as [Ht _ [Hl Hw] _ Hm Hi].
  unfold decode, stored.
  match goal with |- context [c_str (_ ++ _ ++ _ ++ ?rest)] =>
    destruct (decode_header (is_transaction_tree_ n) (type_ n) (branch_mask_ n) rest)
      as (E1 & E2 & E3 & E4); [lia|] end.
  rewrite E1; mred. rewrite E2; mred. rewrite E3; mred. rewrite E4.
  assert (bool_decide ((if is_transaction_tree_ n then Byte.x01 else Byte.x00) ≠ Byte.x00)
          = is_transaction_tree_ n) as -> by (by destruct (is_transaction_tree_ n)).
  unfold decoded, item_fits, is_inner, typed_node in *. clear E1 E2 E3 E4.
  destruct (type_ n) eqn:Ety; [done|..]; cbn [TreeNodeType_value TreeNodeType_of_value].
  - unfold c_str. pose proof (init_blocks uint256_bits (children_hash_ n) [Byte.x00] Hw) as E.
    rewrite Hl in E. change (WIDTH uint256_bits) with 32 in E. rewrite E. done.
  - destruct Ht as [item E]. rewrite E.
    rewrite decode_leaf_tail by eauto using length_stored_leaf. by destruct item.
  - destruct Ht as [item E]. rewrite E.
    rewrite decode_leaf_tail by eauto using length_stored_leaf. by destruct item.
Qed.
