(* ===== verification/Database.v ===== *)
(** * The node database

    Models [src/src/database/encode_node.{h,cpp}], [database.h] and
    [rocksdb_imp.{h,cpp}].  RocksDB itself is used through an interface, a class
    of the operations the code calls with the laws of a key-value store. *)

From S2P Require Import Prelude BaseUint Serializer MerkleNode.

(** ** The RocksDB interface

    [None] from [DB_Open] and [DB_Write] is a status that is not [ok].  The status of
    [Delete] is ignored by the code, so nothing is known of the deleted key. *)

Class RocksDB (D : Type) := {
  DB_Open : bytes → option D;
  DB_Get : D → bytes → option bytes;
  DB_Write : D → list (bytes * bytes) → option D;
  DB_Delete : D → bytes → D;
}.

(** The value a batch of puts leaves at [k], starting from [o]: the last put wins. *)
Definition batch_get (b : list (bytes * bytes)) (k : bytes) (o : option bytes) : option bytes :=
  foldl (λ r kv, if decide (kv.1 = k) then Some kv.2 else r) o b.

Class RocksDBLaws (D : Type) `{RocksDB D} := {
  Get_Write d b d' k : DB_Write d b = Some d' → DB_Get d' k = batch_get b k (DB_Get d k);
  Get_Delete d k k' : k ≠ k' → DB_Get (DB_Delete d k) k' = DB_Get d k';
}.

(** A finite map is such a store. *)
#[export] Instance gmap_RocksDB : RocksDB (gmap bytes bytes) := {|
  DB_Open _ := Some ∅;
  DB_Get d k := d !! k;
  DB_Write d b := Some (foldl (λ d kv, <[kv.1 := kv.2]> d) d b);
  DB_Delete d k := delete k d;
|}.

#[export] Instance gmap_RocksDBLaws : RocksDBLaws (gmap bytes bytes).
Proof.
  constructor.
  - intros d b d' k [= <-]. unfold batch_get; cbn. revert d.
    induction b as [|[k' v] b IH]; intros d; cbn; [done|].
    rewrite IH. f_equal. by rewrite lookup_insert.
  - intros d k k' Hk. cbn. by rewrite lookup_delete_ne.
Qed.

(** ** EncodeNode *)

Record EncodeNode := mkEncodeNode {
  key_size : nat; value_size : nat; key_ptr : bytes; value_ptr : bytes;
}.
(** A new [EncodeNode]: the two sizes are not initialised, the strings are empty. *)
Definition EncodeNode_new (ks vs : nat) : EncodeNode := mkEncodeNode ks vs [] [].

Definition do_encode (node : RadixMerkleTreeNode) (e : EncodeNode) : outcome EncodeNode :=
  let key := to_string uint256_bits (get_hash node) in
  s ← encode node Serializer_empty;
  let vet := peek_data s in
  mret (mkEncodeNode (length key) (length vet) key
          (foldl (λ acc i, acc ++ [vet !!! i]) (value_ptr e) (seq 0 (length vet)))).

(** ** RocksdbImp *)

Section RocksdbImp.
Context `{SHA512} `{Indeterminate} {D : Type} `{RocksDB D}.

(** The constructor: opening must succeed. *)
Definition RocksdbImp_new (name : bytes) : outcome D := of_option AssertFailed (DB_Open name).

(** The destructor writes one debugging entry. *)
Definition RocksdbImp_dtor (db : D) : outcome D :=
  of_option AssertFailed (DB_Write db [(str "asdaf", str "sdfsafdsaf")]).

(** A node that is read is removed from the store. *)
Definition fetch (hash : uint256) (db : D) : outcome (RadixMerkleTreeNode * D) :=
  let key_ptr := to_string uint256_bits hash in
  match DB_Get db key_ptr with
  | Some value_string =>
      let db := DB_Delete db key_ptr in
      read_node ← mk_inner_node false;
      node ← decode value_string (set_hash hash read_node);
      mret (node, db)
  | None => Err AssertFailed
  end.

Definition encode_entry (node : RadixMerkleTreeNode) : outcome (bytes * bytes) :=
  e ← do_encode node (EncodeNode_new 0 0); mret (key_ptr e, value_ptr e).

Definition store_batch (batch : list RadixMerkleTreeNode) (db : D) : outcome D :=
  wbatch ← mapM encode_entry batch;
  of_option AssertFailed (DB_Write db wbatch).

Definition store (node : RadixMerkleTreeNode) (db : D) : outcome D := store_batch [node] db.
End RocksdbImp.

(** ** RocksdbInstance: the process-wide handle *)

Section RocksdbInstance.
Context {D : Type} `{RocksDB D}.

Record RocksdbInstance := mkRocksdbInstance { db_name_ : bytes; rocksdb_ptr_ : option D }.

Definition RocksdbInstance_init : RocksdbInstance := mkRocksdbInstance [] None.
Definition set_db_name (name : bytes) (i : RocksdbInstance) : RocksdbInstance :=
  mkRocksdbInstance name (rocksdb_ptr_ i).
Definition instance (i : RocksdbInstance) : outcome (D * RocksdbInstance) :=
  match rocksdb_ptr_ i with
  | Some p => Ok (p, i)
  | None => p ← RocksdbImp_new (db_name_ i); mret (p, mkRocksdbInstance (db_name_ i) (Some p))
  end.
End RocksdbInstance.
Arguments RocksdbInstance : clear implicits.

(** ** Lemmas *)

(** The node that a load under [h] rebuilds from the stored form of [n]. *)
Definition loaded (h : uint256) (n : RadixMerkleTreeNode) : RadixMerkleTreeNode :=
  mkNode h (if is_inner n then children_hash_ n else replicate 16 uint256_zero)
    (replicate 16 None) (if is_inner n then None else item_ n)
    (is_transaction_tree_ n) (type_ n) (branch_mask_ n).

Section Database_lemmas.
Context `{SHA512} `{Indeterminate}.
Implicit Types n : RadixMerkleTreeNode.

Definition inner_shell (b : bool) (h : uint256) : RadixMerkleTreeNode :=
  mkNode h (replicate 16 uint256_zero) (replicate 16 None) None b
    TREE_NODE_TYPE_INNER_NODE 0.

Lemma node_digest_set_hash h n : node_digest (set_hash h n) = node_digest n.
Proof. done. Qed.

Lemma mk_inner_node_spec b :
  mk_inner_node b = Ok (inner_shell b (node_digest (inner_shell b []))).
Proof.
  unfold mk_inner_node. rewrite update_hash_spec by done.
  rewrite base_uint_eqb_decide; [|apply indet_hash_wf|apply node_digest_wf].
  case_bool_decide as E; mred; [|done]. unfold inner_shell. rewrite E at 1. done.
Qed.

Lemma mk_leaf_node_spec item ty :
  ty = TREE_NODE_TYPE_TRANSACTION_LEAF ∨ ty = TREE_NODE_TYPE_ACCOUNT_LEAF →
  mk_leaf_node (Some item) ty =
    Ok (mkNode (index_ item) indet_hashes (replicate 16 None) (Some item)
          (bool_decide (ty = TREE_NODE_TYPE_TRANSACTION_LEAF)) ty 0).
Proof.
  intros Hty. unfold mk_leaf_node.
  rewrite update_hash_spec by (destruct Hty as [-> | ->]; cbn; eauto).
  mred. by case_match.
Qed.

Lemma encode_entry_spec n :
  typed_node n → encode_entry n = Ok (to_string uint256_bits (hash_ n), stored n).
Proof.
  intros Ht. unfold encode_entry, do_encode. rewrite encode_spec by done. mred.
  do 2 f_equal. cbn [value_ptr EncodeNode_new Serializer_empty data_ app peek_data].
  pose proof (Serializer_of_string_data (stored n)) as E. unfold Serializer_of_string in E.
  by injection E.
Qed.

Lemma decode_shell n h b h0 :
  node_wf n → item_fits n →
  decode (stored n) (set_hash h (inner_shell b h0)) = Ok (loaded h n).
Proof.
  intros Hwf Hfit. rewrite decode_stored by done. unfold decoded, loaded.
  by destruct (is_inner n).
Qed.

Context {D : Type} `{RocksDBLaws D}.

Lemma fetch_stored h (d : D) n :
  DB_Get d (to_string uint256_bits h) = Some (stored n) → node_wf n → item_fits n →
  fetch h d = Ok (loaded h n, DB_Delete d (to_string uint256_bits h)).
Proof.
  intros Hg Hwf Hfit. unfold fetch. rewrite Hg, mk_inner_node_spec. mred.
  by rewrite decode_shell.
Qed.

Lemma fetch_inv h (d d' : D) n :
  fetch h d = Ok (n, d') → d' = DB_Delete d (to_string uint256_bits h).
Proof.
  unfold fetch. destruct (DB_Get d _); [|done]. rewrite mk_inner_node_spec. mred.
  destruct (decode _ _); mred; congruence.
Qed.

(** The node that [fetch] would return. *)
Definition fetched h (d : D) : option RadixMerkleTreeNode :=
  match fetch h d with Ok (n, _) => Some n | Err _ => None end.

Lemma fetched_Get h (d d' : D) :
  DB_Get d (to_string uint256_bits h) = DB_Get d' (to_string uint256_bits h) →
  fetched h d = fetched h d'.
Proof.
  intros E. unfold fetched, fetch. rewrite E. destruct (DB_Get d' _); [|done].
  rewrite mk_inner_node_spec. mred. by destruct (decode _ _).
Qed.

(** Reading one node leaves every other stored node readable. *)
Lemma fetched_frame h h' (d : D) :
  wf256 h → wf256 h' → h ≠ h' →
  fetched h (DB_Delete d (to_string uint256_bits h')) = fetched h d.
Proof.
  intros Hw Hw' Hne. apply fetched_Get. rewrite Get_Delete; [done|].
  by intros E%to_string_inj.
Qed.

Lemma store_batch_spec batch (d : D) :
  Forall typed_node batch →
  store_batch batch d =
    of_option AssertFailed
      (DB_Write d ((λ n, (to_string uint256_bits (hash_ n), stored n)) <$> batch)).
Proof.
  intros Ht. unfold store_batch.
  rewrite (mapM_Ok _ (λ n, (to_string uint256_bits (hash_ n), stored n))); [done|].
  intros n Hn. apply encode_entry_spec. by eapply Forall_forall in Hn.
Qed.

Lemma batch_get_app b1 b2 k o : batch_get (b1 ++ b2) k o = batch_get b2 k (batch_get b1 k o).
Proof. apply foldl_app. Qed.

Lemma batch_get_notin b k o : (∀ kv, kv ∈ b → kv.1 ≠ k) → batch_get b k o = o.
Proof.
  revert o. induction b as [|kv b IH]; intros o Hn; [done|].
  cbn. rewrite decide_False by (apply Hn; set_solver). apply IH. set_solver.
Qed.

Lemma batch_get_in b k v o :
  (k, v) ∈ b → (∀ v', (k, v') ∈ b → v' = v) → batch_get b k o = Some v.
Proof.
  induction b as [|[k' v'] b IH] using rev_ind; intros Hin Hu; [by apply not_elem_of_nil in Hin|].
  setoid_rewrite elem_of_app in Hu. setoid_rewrite list_elem_of_singleton in Hu.
  rewrite batch_get_app. cbn. case_decide as E.
  - subst k'. f_equal. apply Hu. by right.
  - apply elem_of_app in Hin as [Hin|[= -> ->]%list_elem_of_singleton]; [|done].
    apply IH; [done|]. intros v'' ?. apply Hu. by left.
Qed.
End Database_lemmas.
