(* ===== verification/MerkleTree.v ===== *)
(** * RadixMerkleTree

    Models [src/src/ledger/radix_merkle_tree.{h,cpp}].  The nodes of all trees
    live in one heap, shared through their locations as the code shares them
    through [std::shared_ptr]; the database is the process-wide RocksDB handle.
    A method of the tree is a program on that store.  The [child_lock_] mutex is
    not represented: the methods run one at a time. *)

From S2P Require Import Prelude BaseUint Serializer MerkleNode Database.

Inductive RadixMerkleTreeState := STATE_VALID.
Inductive RadixMerkleTreeType :=
| TYPE_TRANSACTION_TREE
| TYPE_ACCOUNT_TREE
| TYPE_UNKNOWN_TREE.

(** The tree object; [radix_merkle_tree_db_] always is the process-wide handle. *)
Record RadixMerkleTree := mkTree {
  root_ : loc;
  tree_ledger_sequence_ : Z;
  state_ : RadixMerkleTreeState;
  tree_type_ : RadixMerkleTreeType;
}.

Record store_t (D : Type) := mkStore {
  heap : gmap loc RadixMerkleTreeNode;
  next_loc : loc;
  rocks : D;
}.
Arguments mkStore {D} heap next_loc rocks.
Arguments heap {D} s.
Arguments next_loc {D} s.
Arguments rocks {D} s.

(** A [std::stack] of (node, depth); the top is the head. *)
Abbreviation LeafStack := (list (loc * nat)).

Section RadixMerkleTree.
Context `{SHA512} `{Indeterminate} {D : Type} `{RocksDB D}.
Abbreviation cmd := (prog (store_t D)).

(** ** Objects in the heap *)

Definition load (l : loc) : cmd RadixMerkleTreeNode :=
  λ s, match heap s !! l with Some n => Ok (n, s) | None => Err NullDeref end.
Definition write (l : loc) (n : RadixMerkleTreeNode) : cmd unit :=
  modify (λ s, mkStore (<[l := n]> (heap s)) (next_loc s) (rocks s)).
Definition make_shared (n : RadixMerkleTreeNode) : cmd loc :=
  λ s, Ok (next_loc s,
           mkStore (<[next_loc s := n]> (heap s)) (Pos.succ (next_loc s)) (rocks s)).

(** A call of a method that changes the object. *)
Definition call {A} (l : loc) (m : RadixMerkleTreeNode → outcome (A * RadixMerkleTreeNode))
    : cmd A :=
  n ← load l; r ← lift (m n); write l r.2;; mret r.1.
(** A call of a method that only reads it. *)
Definition view {A} (l : loc) (m : RadixMerkleTreeNode → A) : cmd A := n ← load l; mret (m n).

(** ** The database *)

Definition fetch_node_from_db (hash : uint256) : cmd loc :=
  s ← gets rocks;
  r ← lift (fetch hash s);
  modify (λ s, mkStore (heap s) (next_loc s) r.2);;
  make_shared r.1.

Definition store_node (node : loc) : cmd unit :=
  n ← load node;
  s ← gets rocks;
  d ← lift (store n s);
  modify (λ s, mkStore (heap s) (next_loc s) d).

(** ** Descending *)

Definition select_branch (hash : uint256) (tree_depth : nat) : outcome nat :=
  byte_branch ← read hash (Nat.div2 tree_depth);
  if Nat.odd tree_depth then mret (Z.to_nat (Z.land (byte.unsigned byte_branch) 15))
  else mret (Z.to_nat (Z.shiftr (byte.unsigned byte_branch) 4)).

Definition descend (parent : loc) (branch : nat) : cmd loc :=
  c ← view parent (get_child branch);
  c ← lift c;
  match c with
  | Some node => mret node
  | None =>
      h ← view parent (get_child_hash branch);
      h ← lift h;
      node ← fetch_node_from_db h;
      call parent (λ n, n' ← canonicalize branch (Some node) n; mret (tt, n'));;
      mret node
  end.

(** The number of iterations of the descending loops: [select_branch] reads past
    the 32 bytes of the key at depth 64, so no run goes further. *)
Definition depth_fuel : nat := 65.

Fixpoint get_stack_loop (fuel : nat) (hash : uint256) (node : loc) (tree_depth : nat)
    (stack : LeafStack) : cmd LeafStack :=
  match fuel with
  | O => fail OutOfFuel
  | S fuel =>
      b ← view node is_inner;
      if b : bool then
        let stack := (node, tree_depth) :: stack in
        branch ← lift (select_branch hash tree_depth);
        assert (bool_decide (branch < 16));;
        e ← view node (λ n, is_empty_branch n branch);
        if e : bool then mret stack
        else
          node ← descend node branch;
          get_stack_loop fuel hash node (S tree_depth) stack
      else mret ((node, tree_depth) :: stack)
  end.
Definition get_stack (t : RadixMerkleTree) (hash : uint256) : cmd LeafStack :=
  get_stack_loop depth_fuel hash (root_ t) 0 [].

(** The descent of [walk_to_leaf], [get_account_entry] and [get_transaction_entry]:
    the leaf node it ends at, or [None] at an empty branch. *)
Fixpoint walk_loop (fuel : nat) (hash : uint256) (now : loc) (depth : nat)
    : cmd (option loc) :=
  match fuel with
  | O => fail OutOfFuel
  | S fuel =>
      b ← view now is_inner;
      if b : bool then
        branch ← lift (select_branch hash depth);
        e ← view now (λ n, is_empty_branch n branch);
        if e : bool then mret None
        else
          now ← descend now branch;
          walk_loop fuel hash now (S depth)
      else mret (Some now)
  end.

(** [now->peek_leaf ()->get_index ()] *)
Definition leaf_of (now : loc) : cmd RadixMerkleTreeLeaf :=
  i ← view now peek_leaf; lift (of_option NullDeref i).

Definition walk_to_leaf (t : RadixMerkleTree) (hash : uint256) : cmd (option loc) :=
  r ← walk_loop depth_fuel hash (root_ t) 0;
  match r with
  | None => mret None
  | Some now =>
      item ← leaf_of now;
      mret (if base_uint_eqb uint256_bits (get_index item) hash then Some now else None)
  end.

Definition has_item (t : RadixMerkleTree) (hash : uint256) : cmd bool :=
  leaf ← walk_to_leaf t hash; mret (bool_decide (leaf ≠ None)).

Definition peek_item (t : RadixMerkleTree) (hash : uint256)
    : cmd (option RadixMerkleTreeLeaf) :=
  leaf ← walk_to_leaf t hash;
  match leaf with
  | None => mret None
  | Some l => view l peek_leaf
  end.

(** ** Changing the tree *)

Fixpoint dirty_up (stack : LeafStack) (index : uint256) (child : loc) : cmd unit :=
  match stack with
  | [] => mret tt
  | (node, tree_depth) :: stack =>
      b ← view node is_inner;
      assert b;;
      branch ← lift (select_branch index tree_depth);
      h ← view child get_hash;
      ok ← call node (set_child (Some child) h branch);
      assert ok;;
      dirty_up stack index node
  end.

Definition leaf_type (is_transaction : bool) : TreeNodeType :=
  if is_transaction then TREE_NODE_TYPE_TRANSACTION_LEAF else TREE_NODE_TYPE_ACCOUNT_LEAF.

(** [std::make_shared <RadixMerkleTreeNode> (item, node_type)] and the [set_child]
    that hangs the new node under [node]. *)
Definition add_leaf_child (node : loc) (item : RadixMerkleTreeLeaf) (node_type : TreeNodeType)
    (branch : nat) : cmd unit :=
  n ← lift (mk_leaf_node (Some item) node_type);
  new_node ← make_shared n;
  h ← view new_node get_hash;
  ok ← call node (set_child (Some new_node) h branch);
  assert ok.

(** The loop that pushes inner nodes while the two keys agree. *)
Fixpoint split_loop (fuel : nat) (index other_index : uint256) (node : loc)
    (tree_depth : nat) (stack : LeafStack) : cmd (loc * LeafStack * nat * nat) :=
  match fuel with
  | O => fail OutOfFuel
  | S fuel =>
      b1 ← lift (select_branch index tree_depth);
      b2 ← lift (select_branch other_index tree_depth);
      if decide (b1 = b2) then
        let stack := (node, tree_depth) :: stack in
        n ← lift (mk_inner_node false);
        node ← make_shared n;
        call node (λ n, Ok (tt, make_inner n));;
        split_loop fuel index other_index node (S tree_depth) stack
      else mret (node, stack, b1, b2)
  end.

Definition add_given_item (t : RadixMerkleTree) (item : RadixMerkleTreeLeaf)
    (is_transaction : bool) : cmd bool :=
  let index := get_index item in
  stack ← get_stack t index;
  let node_type := leaf_type is_transaction in
  match stack with
  | [] => fail AssertFailed
  | (node, tree_depth) :: stack =>
      b ← view node is_inner;
      if b : bool then
        branch ← lift (select_branch index tree_depth);
        e ← view node (λ n, is_empty_branch n branch);
        assert e;;
        add_leaf_child node item node_type branch;;
        dirty_up stack index node;;
        mret true
      else
        other ← view node peek_leaf;
        match other with
        | None => fail AssertFailed
        | Some other_item =>
            assert (base_uint_neqb uint256_bits index (get_index other_item));;
            let other_index := get_index other_item in
            call node (λ n, Ok (tt, make_inner n));;
            r ← split_loop depth_fuel index other_index node tree_depth stack;
            let '(node, stack, b1, b2) := r in
            b ← view node is_inner;
            assert b;;
            add_leaf_child node item node_type b1;;
            add_leaf_child node other_item node_type b2;;
            dirty_up stack index node;;
            mret true
        end
  end.

Definition add_item (t : RadixMerkleTree) (item : RadixMerkleTreeLeaf)
    (is_transaction : bool) : cmd bool := add_given_item t item is_transaction.

Definition update_given_item (t : RadixMerkleTree) (item : RadixMerkleTreeLeaf)
    (is_transaction : bool) : cmd bool :=
  let index := get_index item in
  stack ← get_stack t index;
  let node_type := leaf_type is_transaction in
  match stack with
  | [] => fail AssertFailed
  | (node, _) :: stack =>
      b ← view node is_inner;
      assert (negb b);;
      other ← leaf_of node;
      assert (base_uint_eqb uint256_bits (get_index other) index);;
      changed ← call node (set_item (Some item) node_type);
      if changed : bool then dirty_up stack index node;; mret true
      else mret true
  end.

Definition tree_get_hash (t : RadixMerkleTree) : cmd uint256 := view (root_ t) get_hash.

(** ** Construction, and writing back to the database *)

Definition RadixMerkleTree_new (is_transaction_tree : bool) (seq : Z) : cmd RadixMerkleTree :=
  n ← lift (mk_inner_node is_transaction_tree);
  root ← make_shared n;
  mret (mkTree root seq STATE_VALID
          (if is_transaction_tree then TYPE_TRANSACTION_TREE else TYPE_ACCOUNT_TREE)).

Definition RadixMerkleTree_load (hash : uint256) (ledger_seq : Z) (is_transaction_tree : bool)
    : cmd RadixMerkleTree :=
  root ← fetch_node_from_db hash;
  mret (mkTree root ledger_seq STATE_VALID
          (if is_transaction_tree then TYPE_TRANSACTION_TREE else TYPE_ACCOUNT_TREE)).

(** The breadth-first traversal of the nodes in memory; [que] and [batch] are the
    [std::queue] and the [Batch] of the source. *)
Definition children_in_memory (now : loc) : cmd (list loc) :=
  n ← load now;
  if is_inner n then
    cs ← lift (mapM (λ i, get_child i n) (seq 0 16)); mret (omap id cs)
  else mret [].
Fixpoint backup_loop (fuel : nat) (que batch : list loc) : cmd (list loc) :=
  match que with
  | [] => mret batch
  | now :: que =>
      match fuel with
      | O => fail OutOfFuel
      | S fuel =>
          cs ← children_in_memory now;
          backup_loop fuel (que ++ cs) (batch ++ cs)
      end
  end.
Fixpoint load_all (ls : list loc) : cmd (list RadixMerkleTreeNode) :=
  match ls with
  | [] => mret []
  | l :: ls => n ← load l; ns ← load_all ls; mret (n :: ns)
  end.
Definition backup_to_database (t : RadixMerkleTree) : cmd unit :=
  fuel ← gets (λ s, S (size (heap s)));
  batch ← backup_loop fuel [root_ t] [root_ t];
  nodes ← load_all batch;
  d ← gets rocks;
  d' ← lift (store_batch nodes d);
  modify (λ s, mkStore (heap s) (next_loc s) d').

(** The destructor. *)
Definition RadixMerkleTree_dtor (t : RadixMerkleTree) : cmd unit := backup_to_database t.
End RadixMerkleTree.
