(* ===== verification/MerkleInv.v ===== *)
(** * The invariant of a radix Merkle tree in the store

    The branch taken at each depth of the tree is one half-byte of the key;
    [nibbles k] is the whole path of the key [k].

    The shape of a tree is described by a ghost map [G] from paths to places: a
    node is in memory at a location, or only in the database under its hash.
    [tree_inv] relates a store, a root and [G]; it is indexed by a key path [k]
    and a depth [m]: while an operation is rehashing the path of [k], the links
    into the nodes at depths [1..m] of that path are stale.  A tree at rest has
    [m = 0].

    Each elementary change of a tree (rehashing one link, loading a node from the
    database, hanging a new leaf, splitting a leaf) preserves [tree_inv]. *)

From S2P Require Import Prelude BaseUint Serializer MerkleNode Database MerkleTree.

Abbreviation path := (list nat).

Definition nibbles (k : uint256) : path :=
  mjoin ((λ b, [Z.to_nat (Z.shiftr (byte.unsigned b) 4);
                Z.to_nat (Z.land (byte.unsigned b) 15)]) <$> k).

Lemma length_nibbles k : length (nibbles k) = 2 * length k.
Proof. unfold nibbles. by apply length_mjoin_blocks. Qed.

Lemma length_nibbles_wf k : wf256 k → length (nibbles k) = 64.
Proof. intros H. rewrite length_nibbles, H. done. Qed.

Lemma nibbles_lookup k i b :
  k !! i = Some b →
  nibbles k !! (2 * i) = Some (Z.to_nat (Z.shiftr (byte.unsigned b) 4)) ∧
  nibbles k !! (2 * i + 1) = Some (Z.to_nat (Z.land (byte.unsigned b) 15)).
Proof.
  intros Hb. unfold nibbles. split.
  - rewrite <-(Nat.add_0_r (2 * i)). erewrite lookup_mjoin_blocks; [|done|lia|done]. done.
  - erewrite lookup_mjoin_blocks; [|done|lia|done]. done.
Qed.

(** [select_branch] reads the path of the key; it faults past its end. *)
Lemma select_branch_nibbles k d : select_branch k d = of_option OutOfBounds (nibbles k !! d).
Proof.
  unfold select_branch, read.
  assert (d = 2 * Nat.div2 d + (if Nat.odd d then 1 else 0)) as Ed.
  { rewrite (Nat.div2_odd d) at 1. by destruct (Nat.odd d). }
  destruct (k !! Nat.div2 d) as [b|] eqn:Hb; cbn [of_option]; mred.
  - destruct (nibbles_lookup _ _ _ Hb) as [E0 E1].
    destruct (Nat.odd d); rewrite Ed.
    + by rewrite E1.
    + rewrite Nat.add_0_r. by rewrite E0.
  - apply lookup_ge_None in Hb.
    rewrite (proj2 (lookup_ge_None (nibbles k) d)); [done|]. rewrite length_nibbles.
    destruct (Nat.odd d); lia.
Qed.

Lemma select_branch_Ok k d b : nibbles k !! d = Some b → select_branch k d = Ok b.
Proof. intros Hb. by rewrite select_branch_nibbles, Hb. Qed.

Lemma nibble_lt k d b : nibbles k !! d = Some b → b < 16.
Proof.
  intros Hb. apply list_elem_of_lookup_2 in Hb. unfold nibbles in Hb.
  apply list_elem_of_join in Hb as (l & Hl & (c & -> & _)%list_elem_of_fmap).
  pose proof (byte.unsigned_range c). change (2 ^ 8)%Z with 256%Z in *.
  apply elem_of_cons in Hl as [->|Hl%list_elem_of_singleton]; [|subst b].
  - rewrite Z.shiftr_div_pow2 by lia. change (2 ^ 4)%Z with 16%Z.
    assert (byte.unsigned c / 16 < 16)%Z by (apply Z.div_lt_upper_bound; lia). lia.
  - change 15%Z with (Z.ones 4). rewrite Z.land_ones by lia. change (2 ^ 4)%Z with 16%Z.
    pose proof (Z.mod_pos_bound (byte.unsigned c) 16). lia.
Qed.

Lemma nibbles_byte_inj b c :
  Z.to_nat (Z.shiftr (byte.unsigned b) 4) = Z.to_nat (Z.shiftr (byte.unsigned c) 4) →
  Z.to_nat (Z.land (byte.unsigned b) 15) = Z.to_nat (Z.land (byte.unsigned c) 15) → b = c.
Proof.
  intros H1 H2. apply byte.unsigned_inj.
  pose proof (byte.unsigned_range b). pose proof (byte.unsigned_range c).
  rewrite !Z.shiftr_div_pow2 in H1 by lia.
  change 15%Z with (Z.ones 4) in H2. rewrite !Z.land_ones in H2 by lia.
  change (2 ^ 4)%Z with 16%Z in *. apply Z2Nat.inj in H1, H2; Z.to_euclidean_division_equations; lia.
Qed.

Lemma nibbles_inj k k' : nibbles k = nibbles k' → k = k'.
Proof.
  revert k'. induction k as [|b k IH]; intros [|c k']; [done|done|done|].
  unfold nibbles in *. csimpl. intros [= H1 H2 H3]. f_equal; [by apply nibbles_byte_inj|by apply IH].
Qed.

(** The first depth at which two different keys part. *)
Lemma nibbles_diverge k k' d :
  wf256 k → wf256 k' → k ≠ k' → take d (nibbles k) = take d (nibbles k') → d ≤ 64 →
  ∃ e, d ≤ e < 64 ∧ take e (nibbles k) = take e (nibbles k') ∧ nibbles k !!! e ≠ nibbles k' !!! e.
Proof.
  intros Hk Hk' Hne Hd Hle.
  apply length_nibbles_wf in Hk as Lk. apply length_nibbles_wf in Hk' as Lk'.
  remember (64 - d) as m eqn:Em. revert d Hd Hle Em. induction m as [|m IH]; intros d Hd Hle Em.
  - exfalso. apply Hne, nibbles_inj. rewrite !take_ge in Hd by lia. done.
  - destruct (decide (nibbles k !!! d = nibbles k' !!! d)) as [E|E].
    + destruct (IH (S d)) as (e & ? & ? & ?); [|lia..|exists e; split_and!; (lia || done)].
      rewrite (take_S_r _ _ (nibbles k !!! d)), (take_S_r _ _ (nibbles k' !!! d));
        [by rewrite Hd, E|apply list_lookup_lookup_total_lt; lia..].
    + exists d. split_and!; (lia || done).
Qed.

(** * The invariant *)

(** ** Branch masks *)

Lemma is_empty_branch_testbit n i :
  is_empty_branch n i = negb (Z.testbit (branch_mask_ n) (Z.of_nat i)).
Proof.
  unfold is_empty_branch. destruct (Z.testbit (branch_mask_ n) (Z.of_nat i)) eqn:E; cbn.
  - apply Z.eqb_neq. intros H0.
    assert (Z.testbit (Z.land (branch_mask_ n) (Z.shiftl 1 (Z.of_nat i))) (Z.of_nat i) = true) as Ht.
    { rewrite Z.land_spec, E, Z.shiftl_spec by lia. rewrite Z.sub_diag. done. }
    by rewrite H0, Z.bits_0 in Ht.
  - apply Z.eqb_eq. apply Z.bits_inj'. intros j Hj.
    rewrite Z.land_spec, Z.bits_0, Z.shiftl_spec by lia.
    destruct (decide (j = Z.of_nat i)) as [->|Hne]; [by rewrite E|].
    replace (Z.testbit 1 (j - Z.of_nat i)) with false; [by rewrite andb_false_r|].
    destruct (decide (j < Z.of_nat i)%Z); [by rewrite Z.testbit_neg_r by lia|].
    symmetry. apply (Z.bits_above_log2 1); [lia|]. cbn. lia.
Qed.

(** A node with branch [i] set to [c] with hash [h], before rehashing. *)
Definition with_child (n : RadixMerkleTreeNode) (i : nat) (c : option loc) (h : uint256)
    : RadixMerkleTreeNode :=
  mkNode (hash_ n) (<[i := h]> (children_hash_ n)) (<[i := c]> (children_ n)) (item_ n)
    (is_transaction_tree_ n) (type_ n)
    (Z.lor (branch_mask_ n) (Z.shiftl 1 (Z.of_nat i))).

Lemma is_empty_branch_with_child n i c h j :
  is_empty_branch (with_child n i c h) j = if decide (i = j) then false else is_empty_branch n j.
Proof.
  rewrite !is_empty_branch_testbit. cbn [branch_mask_ with_child].
  rewrite Z.lor_spec, Z.shiftl_spec by lia. case_decide as E.
  - subst. rewrite Z.sub_diag. cbn. by rewrite orb_true_r.
  - replace (Z.testbit 1 (Z.of_nat j - Z.of_nat i)) with false; [by rewrite orb_false_r|].
    destruct (decide (j < i)); [by rewrite Z.testbit_neg_r by lia|].
    symmetry. apply (Z.bits_above_log2 1); [lia|]. cbn. lia.
Qed.

Lemma mask_with_child m (i : nat) :
  (0 ≤ m < 2 ^ 16)%Z → i < 16 →
  (0 ≤ Z.lor m (Z.shiftl 1 (Z.of_nat i)) < 2 ^ 16)%Z.
Proof.
  intros Hm Hi. assert (0 ≤ Z.shiftl 1 (Z.of_nat i))%Z as Hs.
  { apply Z.shiftl_nonneg. lia. }
  split; [apply Z.lor_nonneg; lia|].
  destruct (decide (Z.lor m (Z.shiftl 1 (Z.of_nat i)) = 0)%Z) as [->|]; [lia|].
  apply Z.log2_lt_pow2; [pose proof (Z.lor_nonneg m (Z.shiftl 1 (Z.of_nat i))); lia|].
  rewrite Z.log2_lor by lia. apply Z.max_lub_lt.
  - destruct (decide (m = 0)%Z) as [->|]; [done|]. apply Z.log2_lt_pow2; lia.
  - rewrite Z.log2_shiftl by lia. cbn. lia.
Qed.

Section node_facts.
Context `{SHA512}.
Implicit Types n : RadixMerkleTreeNode.

Lemma node_wf_with_child n i c h :
  node_wf n → i < 16 → wf256 h → node_wf (with_child n i c h).
Proof.
  intros [Ht Hh [Hl Hw] Hc Hm Hi] Hlt Hwf. constructor; cbn.
  - exact Ht.
  - done.
  - rewrite length_insert. split; [done|]. by apply Forall_insert.
  - by rewrite length_insert.
  - by apply mask_with_child.
  - done.
Qed.

Lemma node_wf_set_hash n h : node_wf n → wf256 h → node_wf (set_hash h n).
Proof. intros [] ?. by constructor. Qed.

Lemma set_child_with_child c h i n :
  i < 16 → set_child c h i n = update_hash (with_child n i c h).
Proof. intros. unfold set_child. by rewrite decide_True. Qed.

Lemma is_inner_type n : is_inner n = true ↔ type_ n = TREE_NODE_TYPE_INNER_NODE.
Proof. unfold is_inner. by rewrite bool_decide_eq_true. Qed.
End node_facts.

(** ** Places and ghost shapes *)

Inductive place := Mem (l : loc) | Disk (h : uint256).
#[export] Instance place_eq_dec : EqDecision place.
Proof. solve_decision. Defined.

(** Where the child with pointer [c] and hash [h] is. *)
Definition child_place (c : option loc) (h : uint256) : place :=
  match c with Some l => Mem l | None => Disk h end.

(** A node up to its child pointers. *)
Definition erase (n : RadixMerkleTreeNode) : RadixMerkleTreeNode :=
  mkNode (hash_ n) (children_hash_ n) [] (item_ n) (is_transaction_tree_ n) (type_ n)
    (branch_mask_ n).

Lemma erase_eq n n' :
  erase n = erase n' →
  hash_ n = hash_ n' ∧ children_hash_ n = children_hash_ n' ∧ item_ n = item_ n' ∧
  is_transaction_tree_ n = is_transaction_tree_ n' ∧ type_ n = type_ n' ∧
  branch_mask_ n = branch_mask_ n'.
Proof.
  intros E. split_and!.
  - exact (f_equal hash_ E).
  - exact (f_equal children_hash_ E).
  - exact (f_equal item_ E).
  - exact (f_equal is_transaction_tree_ E).
  - exact (f_equal type_ E).
  - exact (f_equal branch_mask_ E).
Qed.

Section invariant.
Context `{SHA512} `{Indeterminate} {D : Type} `{RocksDBLaws D}.
Implicit Types (s : store_t D) (G : gmap path place) (k p q : path) (n : RadixMerkleTreeNode).

Definition node_at s (pl : place) : option RadixMerkleTreeNode :=
  match pl with
  | Mem l => heap s !! l
  | Disk h => fetched h (rocks s)
  end.

(** The node of the tree at path [p]. *)
Definition nd s G p : option RadixMerkleTreeNode := pl ← G !! p; node_at s pl.

(** What holds of the node at path [p] on its own. *)
Definition node_inv p n : Prop :=
  node_wf n ∧
  if is_inner n then length p < 64
  else ∃ item, item_ n = Some item ∧ p `prefix_of` nibbles (index_ item) ∧
               (hash_ n = index_ item ∨ hash_ n = node_digest n) ∧ branch_mask_ n = 0%Z.

(** The link into the node at path [p] may be stale. *)
Definition stale k (m : nat) p : Prop := 0 < length p ≤ m ∧ p = take (length p) k.
#[global] Instance stale_dec k m p : Decision (stale k m p).
Proof. unfold stale. apply _. Defined.

Record tree_inv (root : loc) k (m : nat) G s : Prop := {
  ti_root : G !! [] = Some (Mem root);
  ti_fresh l : is_Some (heap s !! l) → (l < next_loc s)%positive;
  ti_inj p q pl : G !! p = Some pl → G !! q = Some pl → p = q;
  ti_total p pl : G !! p = Some pl → is_Some (node_at s pl);
  ti_node p n : nd s G p = Some n → node_inv p n;
  ti_digest p n : nd s G p = Some n → is_inner n = true →
    (∀ i, ¬ stale k m (p ++ [i])) → hash_ n = node_digest n;
  ti_empty p n i : nd s G p = Some n → is_inner n = true → i < 16 →
    ¬ stale k m (p ++ [i]) → is_empty_branch n i = true →
    G !! (p ++ [i]) = None ∧ children_ n !! i = Some None;
  ti_child p n i : nd s G p = Some n → is_inner n = true → i < 16 →
    ¬ stale k m (p ++ [i]) → is_empty_branch n i = false →
    ∃ c h, children_ n !! i = Some c ∧ children_hash_ n !! i = Some h ∧
           G !! (p ++ [i]) = Some (child_place c h) ∧
           (∀ n', nd s G (p ++ [i]) = Some n' → hash_ n' = h);
  ti_parent p i : is_Some (G !! (p ++ [i])) →
    ∃ n, nd s G p = Some n ∧ is_inner n = true ∧ i < 16;
}.

Abbreviation tree_ok root := (tree_inv root [] 0).

(** ** Reading the ghost shape *)

Lemma nd_Some s G p n :
  nd s G p = Some n ↔ ∃ pl, G !! p = Some pl ∧ node_at s pl = Some n.
Proof. unfold nd. rewrite bind_Some. done. Qed.

Lemma nd_Mem s G p l : G !! p = Some (Mem l) → nd s G p = heap s !! l.
Proof. unfold nd. by intros ->. Qed.

Lemma app_singleton_ne p i : p ++ [i] ≠ p.
Proof. intros E%(f_equal length). rewrite length_app in E. cbn in E. lia. Qed.

Lemma take_S_path k j b : k !! j = Some b → take (S j) k = take j k ++ [b].
Proof. apply take_S_r. Qed.

Lemma length_take_path k j b : k !! j = Some b → length (take j k) = j.
Proof. intros Hb%lookup_lt_Some. rewrite length_take. lia. Qed.

(** The one link that is stale at depth [S j] and not at depth [j]. *)
Lemma stale_S k j b q i :
  k !! j = Some b → stale k (S j) (q ++ [i]) → ¬ stale k j (q ++ [i]) → q = take j k ∧ i = b.
Proof.
  intros Hb [Hl E] Hn. rewrite length_app in *. cbn in *.
  assert (length q = j) as Lq.
  { destruct (decide (length q + 1 ≤ j)); [|lia]. exfalso. apply Hn.
    split; rewrite length_app; cbn; [lia|done]. }
  rewrite Lq, Nat.add_1_r, (take_S_path _ _ _ Hb) in E. by apply app_inj_tail in E.
Qed.

Lemma stale_mono k j j' q : j ≤ j' → stale k j q → stale k j' q.
Proof. unfold stale. intros ? [[??]?]. split; [lia|done]. Qed.

Lemma stale_take k j b : k !! j = Some b → 0 < j → stale k j (take j k).
Proof. intros Hb Hj. unfold stale. rewrite (length_take_path _ _ _ Hb). done. Qed.

Lemma stale_take' k j b : k !! j = Some b → stale k (S j) (take (S j) k).
Proof.
  intros Hb%lookup_lt_Some. unfold stale. rewrite length_take, Nat.min_l by lia.
  split; [lia|done].
Qed.

Lemma not_stale_sibling k j b i :
  k !! j = Some b → i ≠ b → ¬ stale k (S j) (take j k ++ [i]).
Proof.
  intros Hb Hi [_ E]. rewrite length_app, (length_take_path _ _ _ Hb) in E. cbn in E.
  rewrite Nat.add_1_r, (take_S_path _ _ _ Hb) in E. apply app_inj_tail in E as [_ ?]. done.
Qed.

Definition write_at s (l : loc) n : store_t D :=
  mkStore (<[l := n]> (heap s)) (next_loc s) (rocks s).

Lemma nd_write s G p l n q :
  (∀ p q pl, G !! p = Some pl → G !! q = Some pl → p = q) → G !! p = Some (Mem l) →
  nd (write_at s l n) G q = if decide (q = p) then Some n else nd s G q.
Proof.
  intros Hinj Hp. unfold nd. case_decide as E.
  - subst q. rewrite Hp. cbn. apply lookup_insert_eq.
  - destruct (G !! q) as [[l'|h]|] eqn:Hq; cbn; [|done..].
    apply lookup_insert_ne. intros ->. eauto.
Qed.
End invariant.

(** * Steps of the tree operations *)

Section steps.
Context `{SHA512} `{Indeterminate} {D : Type} `{RocksDBLaws D}.
Implicit Types (s : store_t D) (G : gmap path place) (k p q : path) (n : RadixMerkleTreeNode).

Lemma tree_inv_weaken root k k' m G s :
  tree_inv root k 0 G s → tree_inv root k' m G s.
Proof.
  assert (∀ p, ¬ stale k 0 p) as Hns by (unfold stale; lia).
  intros [? ? ? ? ? Hd He Hc ?]. constructor; eauto.
Qed.

(** The node after [set_child] and the rehashing. *)
Definition relinked n (b : nat) (lc : loc) (h : uint256) : RadixMerkleTreeNode :=
  set_hash (node_digest (with_child n b (Some lc) h)) (with_child n b (Some lc) h).

Lemma relinked_digest n b lc h : hash_ (relinked n b lc h) = node_digest (relinked n b lc h).
Proof. done. Qed.

Lemma is_inner_relinked n b lc h : is_inner (relinked n b lc h) = is_inner n.
Proof. done. Qed.

Lemma node_inv_relinked p n b lc h :
  is_inner n = true → b < 16 → wf256 h → node_inv p n → node_inv p (relinked n b lc h).
Proof.
  intros Hi Hb Hh [Hw Hrest]. split.
  - apply node_wf_set_hash; [by apply node_wf_with_child|apply node_digest_wf].
  - rewrite is_inner_relinked, Hi in *. done.
Qed.

Section relink.
Context root k j b G s l lc n nc
  (Hinv : tree_inv root k (S j) G s)
  (Hb : k !! j = Some b) (Hb16 : b < 16)
  (Hl : G !! take j k = Some (Mem l)) (Hn : nd s G (take j k) = Some n)
  (Hinner : is_inner n = true)
  (Hlc : G !! take (S j) k = Some (Mem lc)) (Hnc : nd s G (take (S j) k) = Some nc).

Let n' := relinked n b lc (hash_ nc).
Let s' := write_at s l n'.

Lemma nd_relink q : nd s' G q = if decide (q = take j k) then Some n' else nd s G q.
Proof. apply nd_write; [apply Hinv|done]. Qed.

Lemma nd_relink_child : nd s' G (take j k ++ [b]) = Some nc.
Proof.
  rewrite nd_relink, decide_False by apply app_singleton_ne.
  by rewrite <-(take_S_path _ _ _ Hb).
Qed.

Lemma relink_step : tree_inv root k j G s'.
Proof.
  destruct Hinv as [Hroot Hfresh Hinj Htot Hnode Hdig Hempty Hchild Hparent].
  assert (wf256 (hash_ nc)) as Hwf by (by destruct (Hnode _ _ Hnc) as [[] _]).
  pose proof (Hnode _ _ Hn) as Hni.
  pose proof (length_take_path _ _ _ Hb) as Lp.
  assert (children_hash_ n' !! b = Some (hash_ nc) ∧ children_ n' !! b = Some (Some lc)) as [Eh Ec].
  { destruct Hni as [[? ? [Hlen _] Hlc' ? ?] _]. cbn.
    split; apply list_lookup_insert_eq; lia. }
  constructor; try done.
  - intros l'. cbn. destruct (decide (l = l')) as [->|?].
    + intros _. apply Hfresh. rewrite <-(nd_Mem s G _ _ Hl), Hn. eauto.
    + rewrite lookup_insert_ne by done. apply Hfresh.
  - intros p pl Hp. destruct (Htot _ _ Hp) as [x Hx]. destruct pl as [l'|h]; cbn in *; [|eauto].
    destruct (decide (l = l')) as [->|?]; [rewrite lookup_insert_eq|rewrite lookup_insert_ne by done];
      eauto.
  - intros p x. rewrite nd_relink. case_decide; [|apply Hnode].
    intros [= <-]. subst p. by apply node_inv_relinked.
  - intros p x. rewrite nd_relink. case_decide as E; [by intros [= <-]|].
    intros Hx Hi Hs. apply (Hdig p); [done..|]. intros i Hst.
    destruct (stale_S _ _ _ _ _ Hb Hst (Hs i)). done.
  - intros p x i. rewrite nd_relink. case_decide as E; intros Hx Hi Hlt Hs He.
    + injection Hx as <-. subst p. destruct (decide (i = b)) as [->|Hib].
      * unfold n', relinked in He. cbn in He.
        change (is_empty_branch (with_child n b (Some lc) (hash_ nc)) b = true) in He.
        rewrite is_empty_branch_with_child, decide_True in He; done.
      * unfold n', relinked in He.
        change (is_empty_branch (with_child n b (Some lc) (hash_ nc)) i = true) in He.
        rewrite is_empty_branch_with_child, decide_False in He by done.
        destruct (Hempty _ _ i Hn Hinner Hlt) as [? Hc]; [by eapply not_stale_sibling|done|].
        split; [done|]. cbn. by rewrite list_lookup_insert_ne.
    + apply (Hempty p); try done. intros Hst.
      destruct (stale_S _ _ _ _ _ Hb Hst Hs). done.
  - intros p x i. rewrite nd_relink. case_decide as E; intros Hx Hi Hlt Hs He.
    + injection Hx as <-. subst p. destruct (decide (i = b)) as [->|Hib].
      * exists (Some lc), (hash_ nc). split_and!; [done..|by rewrite <-(take_S_path _ _ _ Hb)|].
        rewrite nd_relink_child. by intros ? [= <-].
      * change (is_empty_branch (with_child n b (Some lc) (hash_ nc)) i = false) in He.
        rewrite is_empty_branch_with_child, decide_False in He by done.
        destruct (Hchild _ _ i Hn Hinner Hlt) as (c & h & Hc & Hh & Hg & Hlink);
          [by eapply not_stale_sibling|done|].
        exists c, h. cbn. rewrite !list_lookup_insert_ne by done. split_and!; [done..|].
        intros n''. rewrite nd_relink, decide_False by apply app_singleton_ne. apply Hlink.
    + destruct (Hchild p _ i Hx Hi Hlt) as (c & h & Hc & Hh & Hg & Hlink); [|done|].
      { intros Hst. destruct (stale_S _ _ _ _ _ Hb Hst Hs). done. }
      exists c, h. split_and!; [done..|]. intros n''. rewrite nd_relink.
      case_decide as E'; [|apply Hlink]. exfalso. apply Hs. rewrite E'.
      eapply stale_take; [done|]. rewrite <-Lp, <-E', length_app. cbn. lia.
  - intros p i Hp. destruct (Hparent _ _ Hp) as (x & Hx & Hi & Hlt).
    destruct (decide (p = take j k)) as [->|E].
    + exists n'. by rewrite nd_relink, decide_True.
    + exists x. by rewrite nd_relink, decide_False.
Qed.
End relink.

(** ** Rehashing a path *)

(** [rehash v k d h]: replacing the hash of the node at depth [d] of path [k] by
    [h] changes the hash of every node above it, as [dirty_up] asserts. *)
Fixpoint rehash (v : path → option RadixMerkleTreeNode) k (d : nat) (h : uint256) : bool :=
  match d with
  | O => true
  | S j =>
      match v (take j k), k !! j with
      | Some n, Some b =>
          let h' := node_digest (with_child n b None h) in
          bool_decide (h' ≠ hash_ n) && rehash v k j h'
      | _, _ => false
      end
  end.

Lemma rehash_ext v v' k d h :
  (∀ j, j < d → erase <$> v (take j k) = erase <$> v' (take j k)) →
  rehash v k d h = rehash v' k d h.
Proof.
  revert h. induction d as [|j IH]; intros h Hv; [done|]. cbn.
  pose proof (Hv j ltac:(lia)) as Hj.
  destruct (v (take j k)) as [n|], (v' (take j k)) as [n'|]; cbn in Hj; [|done..].
  destruct (k !! j); [|done].
  destruct n, n'; unfold erase in Hj; cbn in Hj. injection Hj as -> -> -> -> -> ->.
  f_equal. apply IH. intros. apply Hv. lia.
Qed.

(** The stack [get_stack] builds: the in-memory nodes at depths [d-1..0] of [k]. *)
Fixpoint stack_ok G k (d : nat) (stack : LeafStack) : Prop :=
  match d, stack with
  | O, [] => True
  | S j, (l, j') :: stack => j' = j ∧ G !! take j k = Some (Mem l) ∧ stack_ok G k j stack
  | _, _ => False
  end.

Lemma path_inner root k m G s d p :
  tree_inv root k m G s → is_Some (G !! take d p) →
  ∀ j, j < d → j < length p → ∃ n, nd s G (take j p) = Some n ∧ is_inner n = true.
Proof.
  intros Hinv. revert p. induction d as [|d IH]; intros p Hd j Hj Hlen; [lia|].
  destruct (decide (d < length p)) as [Hdl|].
  - destruct (lookup_lt_is_Some_2 p d Hdl) as [b Hb]. rewrite (take_S_path _ _ _ Hb) in Hd.
    apply (ti_parent _ _ _ _ _ Hinv) in Hd as (n & Hn & Hi & _).
    destruct (decide (j = d)) as [->|]; [eauto|]. apply IH; [|lia|done].
    apply nd_Some in Hn as (pl & -> & _). eauto.
  - apply IH; [|lia|done]. rewrite (take_ge p d), <-(take_ge p (S d)) by lia. done.
Qed.

Lemma run_set_child s l n b lc h :
  heap s !! l = Some n → is_inner n = true → node_wf n → b < 16 → wf256 h →
  call (D := D) l (set_child (Some lc) h b) s =
    if decide (node_digest (with_child n b (Some lc) h) = hash_ n)
    then Ok (false, write_at s l (with_child n b (Some lc) h))
    else Ok (true, write_at s l (relinked n b lc h)).
Proof.
  intros Hl Hi Hw Hb Hh. unfold call, load, mbind, prog_bind. rewrite Hl.
  rewrite set_child_with_child by done.
  assert (typed_node (with_child n b (Some lc) h)) as Ht by (by destruct Hw).
  case_decide as E.
  - by rewrite update_hash_false.
  - rewrite update_hash_true; [done|done|by destruct Hw|]. intros E'. by apply E.
Qed.

Lemma run_view {A} s l n (f : RadixMerkleTreeNode → A) :
  heap s !! l = Some n → view (D := D) l f s = Ok (f n, s).
Proof. intros Hl. unfold view, load, mbind, prog_bind. by rewrite Hl. Qed.

(** What a change of the tree leaves alone. *)
Record same_off_path k (d : nat) G s s' : Prop := {
  sop_rocks : rocks s' = rocks s;
  sop_next : next_loc s' = next_loc s;
  sop_nd q : (∀ j, j < d → q ≠ take j k) → nd s' G q = nd s G q;
  sop_heap l : (∀ p, G !! p ≠ Some (Mem l)) → heap s' !! l = heap s !! l;
}.

Lemma dirty_up_spec root key G d :
  wf256 key → d ≤ 64 → ∀ s stack child nc,
  tree_inv root (nibbles key) d G s → stack_ok G (nibbles key) d stack →
  G !! take d (nibbles key) = Some (Mem child) → heap s !! child = Some nc →
  rehash (nd s G) (nibbles key) d (hash_ nc) = true →
  ∃ s', dirty_up stack key child s = Ok (tt, s') ∧ tree_inv root (nibbles key) 0 G s' ∧
        same_off_path (nibbles key) d G s s'.
Proof.
  intros Hkey. induction d as [|j IH]; intros Hd s stack child nc Hinv Hst Hc Hnc Hre.
  { destruct stack; [|done]. exists s. split; [done|]. split; [done|]. by constructor. }
  destruct stack as [|[l j'] stack]; [done|]. destruct Hst as (-> & Hl & Hst).
  apply length_nibbles_wf in Hkey as Lk.
  destruct (lookup_lt_is_Some_2 (nibbles key) j) as [b Hb]; [lia|].
  pose proof (nibble_lt _ _ _ Hb) as Hb16.
  destruct (path_inner _ _ _ _ _ (S j) _ Hinv ltac:(eauto) j) as (n & Hn & Hi); [lia..|].
  cbn [rehash] in Hre. rewrite Hn, Hb in Hre. apply andb_true_iff in Hre as [Hne Hre].
  apply bool_decide_eq_true in Hne.
  pose proof (ti_node _ _ _ _ _ Hinv _ _ Hn) as [Hw _].
  assert (nd s G (take (S j) (nibbles key)) = Some nc) as Hncd by (by rewrite (nd_Mem _ _ _ _ Hc)).
  pose proof (ti_node _ _ _ _ _ Hinv _ _ Hncd) as [Hwc _].
  assert (heap s !! l = Some n) as Hn' by (by rewrite <-(nd_Mem _ _ _ _ Hl)).
  pose proof (relink_step _ _ _ _ _ _ _ _ _ _ Hinv Hb Hb16 Hl Hn Hi Hc Hncd) as Hinv'.
  pose proof (nd_relink root (nibbles key) j b G s l child n nc Hinv Hl) as Hnd.
  set (s1 := write_at s l (relinked n b child (hash_ nc))) in *.
  destruct (IH ltac:(lia) s1 stack l (relinked n b child (hash_ nc)))
    as (s' & Hrun & Hinv0 & Hsame); [done|done|done|apply lookup_insert_eq|..].
  { erewrite rehash_ext; [exact Hre|]. intros i Hij. f_equal. rewrite Hnd.
    apply decide_False. intros E%(f_equal length). rewrite !length_take in E. lia. }
  exists s'. split; [|split; [done|]].
  - cbn [dirty_up]. step (run_view _ _ _ _ Hn'). step (assert_true _ s Hi).
    step (lift_Ok _ s _ (select_branch_Ok _ _ _ Hb)). step (run_view _ _ _ _ Hnc).
    rewrite (bind_Ok _ _ _ true s1); [exact Hrun|].
    rewrite (run_set_child _ _ n) by (done || by destruct Hwc). by rewrite decide_False.
  - destruct Hsame as [Hr Hnx Hq Hh]. constructor; [done|done|..].
    + intros q Hqj. rewrite Hq by (intros; apply Hqj; lia). rewrite Hnd.
      apply decide_False. apply Hqj. lia.
    + intros l' Hl'. rewrite Hh by done. cbn. apply lookup_insert_ne. intros ->.
      by eapply Hl'.
Qed.
End steps.
