(* ===== verification/MerkleLoad.v ===== *)
(** * Descending a tree

    Loading a node from the database keeps the invariant and the contents of the
    tree; [get_stack] and the lookup loops follow the path of their key. *)

From S2P Require Import Prelude BaseUint Serializer MerkleNode Database MerkleTree MerkleInv.

Section load.
Context `{SHA512} `{Indeterminate} {D : Type} `{RocksDBLaws D}.
Implicit Types (s : store_t D) (G : gmap path place) (k p q : path) (n : RadixMerkleTreeNode).

(** [children_[i] = l] *)
Definition with_pointer n (i : nat) (l : loc) : RadixMerkleTreeNode :=
  mkNode (hash_ n) (children_hash_ n) (<[i := Some l]> (children_ n)) (item_ n)
    (is_transaction_tree_ n) (type_ n) (branch_mask_ n).

(** The store after loading [nc], stored under [h], below the node [n] at [l]. *)
Definition loaded_store s (l : loc) n (i : nat) (h : uint256) nc : store_t D :=
  mkStore (<[l := with_pointer n i (next_loc s)]> (<[next_loc s := nc]> (heap s)))
    (Pos.succ (next_loc s)) (DB_Delete (rocks s) (to_string uint256_bits h)).

(** The two ghost shapes describe the same nodes, up to where they are. *)
Definition same_view s G s' G' : Prop := ∀ q, erase <$> nd s' G' q = erase <$> nd s G q.

Lemma disk_wf root k G s q h :
  tree_inv root k 0 G s → G !! q = Some (Disk h) → wf256 h.
Proof.
  intros Hinv Hq. destruct q as [|i q _] using rev_ind.
  { by rewrite (ti_root _ _ _ _ _ Hinv) in Hq. }
  destruct (ti_parent _ _ _ _ _ Hinv q i) as (n & Hn & Hi & Hlt); [eauto|].
  assert (¬ stale k 0 (q ++ [i])) as Hs by (unfold stale; lia).
  destruct (is_empty_branch n i) eqn:He.
  { destruct (ti_empty _ _ _ _ _ Hinv _ _ _ Hn Hi Hlt Hs He). congruence. }
  destruct (ti_child _ _ _ _ _ Hinv _ _ _ Hn Hi Hlt Hs He) as (c & h' & _ & Hh & Hg & _).
  rewrite Hq in Hg. destruct c; [done|]. injection Hg as ->.
  destruct (ti_node _ _ _ _ _ Hinv _ _ Hn) as [[_ _ [_ Hf] _ _ _] _].
  by eapply Forall_lookup_1 in Hf.
Qed.

Section load_step.
Context root k G s p l n i h nc d'
  (Hinv : tree_inv root k 0 G s)
  (Hl : G !! p = Some (Mem l)) (Hn : heap s !! l = Some n) (Hinner : is_inner n = true)
  (Hi : i < 16) (Hg : G !! (p ++ [i]) = Some (Disk h)) (He : is_empty_branch n i = false)
  (Hh : children_hash_ n !! i = Some h) (Hf : fetch h (rocks s) = Ok (nc, d')).

Let s' := loaded_store s l n i h nc.
Let G' := <[p ++ [i] := Mem (next_loc s)]> G.

Lemma next_fresh : heap s !! next_loc s = None.
Proof.
  apply eq_None_not_Some. intros Hs%(ti_fresh _ _ _ _ _ Hinv). lia.
Qed.

Lemma not_next q l' : G !! q = Some (Mem l') → l' ≠ next_loc s.
Proof.
  intros Hq ->. destruct (ti_total _ _ _ _ _ Hinv _ _ Hq) as [x Hx]. cbn in Hx.
  by rewrite next_fresh in Hx.
Qed.

Lemma nd_load q :
  nd s' G' q = if decide (q = p) then Some (with_pointer n i (next_loc s)) else nd s G q.
Proof.
  unfold nd, G'. case_decide as E.
  - subst q. rewrite lookup_insert_ne by apply app_singleton_ne. rewrite Hl. cbn.
    apply lookup_insert_eq.
  - destruct (decide (q = p ++ [i])) as [->|Hne].
    + rewrite lookup_insert_eq, Hg. cbn. rewrite lookup_insert_ne.
      * rewrite lookup_insert_eq. unfold fetched. by rewrite Hf.
      * by eapply not_next.
    + rewrite lookup_insert_ne by done. destruct (G !! q) as [[l'|h']|] eqn:Hq; cbn; [..|done].
      * rewrite lookup_insert_ne by (intros ->; by apply E, (ti_inj _ _ _ _ _ Hinv _ _ _ Hq)).
        rewrite lookup_insert_ne by (apply not_eq_sym; by eapply not_next). done.
      * apply fetched_frame; [by eapply disk_wf..|].
        intros ->. by apply Hne, (ti_inj _ _ _ _ _ Hinv _ _ _ Hq).
Qed.

Lemma load_same_view : same_view s G s' G'.
Proof.
  intros q. rewrite nd_load. case_decide as E; [|done]. subst q.
  by rewrite (nd_Mem _ _ _ _ Hl), Hn.
Qed.

Lemma ghost_load q i' : q ++ [i'] ≠ p ++ [i] → G' !! (q ++ [i']) = G !! (q ++ [i']).
Proof. intros E. by apply lookup_insert_ne. Qed.

Lemma node_inv_with_pointer : node_inv p (with_pointer n i (next_loc s)).
Proof.
  assert (nd s G p = Some n) as Hnp by (by rewrite (nd_Mem _ _ _ _ Hl)).
  destruct (ti_node _ _ _ _ _ Hinv _ _ Hnp) as [[] Hp]. split; [|done].
  constructor; try done. cbn. by rewrite length_insert.
Qed.

Lemma load_inj q1 q2 pl : G' !! q1 = Some pl → G' !! q2 = Some pl → q1 = q2.
Proof.
  unfold G'. rewrite !lookup_insert. intros H1' H2'.
  repeat case_decide; subst; [done|..|by eapply (ti_inj _ _ _ _ _ Hinv)];
    simplify_eq; exfalso; by eapply not_next.
Qed.

Lemma load_total q pl : G' !! q = Some pl → is_Some (node_at s' pl).
Proof.
  intros Hq. enough (is_Some (nd s' G' q)) as Hs by (unfold nd in Hs; by rewrite Hq in Hs).
  rewrite nd_load. case_decide; [eauto|].
  apply lookup_insert_Some in Hq as [[<- _]|[_ Hq]].
  - destruct (ti_total _ _ _ _ _ Hinv _ _ Hg) as [x Hx]. exists x. apply nd_Some. eauto.
  - destruct (ti_total _ _ _ _ _ Hinv _ _ Hq) as [x Hx]. exists x. apply nd_Some. eauto.
Qed.

Lemma nd_loaded_inv q x :
  nd s' G' q = Some x →
  ∃ x0, nd s G q = Some x0 ∧ is_inner x = is_inner x0 ∧ hash_ x = hash_ x0 ∧
        children_hash_ x = children_hash_ x0 ∧ node_digest x = node_digest x0 ∧
        (∀ j, is_empty_branch x j = is_empty_branch x0 j) ∧
        (∀ j, q ++ [j] ≠ p ++ [i] → children_ x !! j = children_ x0 !! j).
Proof.
  rewrite nd_load. case_decide as E.
  - intros [= <-]. subst q. exists n. rewrite (nd_Mem _ _ _ _ Hl). split_and!; try done.
    intros j Hj. cbn. apply list_lookup_insert_ne. congruence.
  - intros Hx. exists x. split_and!; done.
Qed.

Lemma load_step : tree_inv root k 0 G' s'.
Proof.
  assert (∀ q, ¬ stale k 0 q) as Hns by (unfold stale; lia).
  constructor.
  - unfold G'. rewrite lookup_insert_ne; [apply Hinv|]. by destruct p.
  - intros l'. cbn. rewrite !lookup_insert. pose proof (ti_fresh _ _ _ _ _ Hinv l') as Hfr.
    repeat case_decide; subst; [|lia|]; intros Hs; (enough (l' < next_loc s)%positive by lia);
      apply Hfr; eauto.
  - apply load_inj.
  - apply load_total.
  - intros q x. rewrite nd_load. case_decide as E; [|apply Hinv].
    intros [= <-]. subst q. apply node_inv_with_pointer.
  - intros q x (x0 & Hx & Ei & Eh & _ & -> & _)%nd_loaded_inv Hin _.
    rewrite Eh. apply (ti_digest _ _ _ _ _ Hinv q); [done|congruence|done].
  - intros q x j (x0 & Hx & Ei & Eh & _ & _ & Ee & Ec)%nd_loaded_inv Hin Hj _ Hem.
    rewrite Ei in Hin. rewrite Ee in Hem.
    destruct (ti_empty _ _ _ _ _ Hinv q x0 j) as [Hnone Hptr]; [done..|].
    assert (q ++ [j] ≠ p ++ [i]) by congruence. rewrite ghost_load, Ec by done. done.
  - intros q x j Hx' Hin Hj _ Hem.
    destruct (nd_loaded_inv _ _ Hx') as (x0 & Hx & Ei & Eh & Ech & _ & Ee & Ec).
    rewrite Ei in Hin. rewrite Ee in Hem. rewrite Ech.
    destruct (ti_child _ _ _ _ _ Hinv q x0 j) as (c & h' & Hc & Hh' & Hg' & Hlk); [done..|].
    destruct (decide (q ++ [j] = p ++ [i])) as [E|E].
    + apply app_inj_tail in E as E'. destruct E' as [-> ->].
      rewrite (nd_Mem _ _ _ _ Hl) in Hx.
      exists (Some (next_loc s)), h'. split_and!; [|done|by unfold G'; rewrite lookup_insert_eq|].
      * rewrite nd_load, decide_True in Hx' by done. injection Hx' as <-. cbn.
        apply list_lookup_insert_eq. destruct (ti_node _ _ _ _ _ Hinv p n) as [[] _]; [|lia].
        by rewrite (nd_Mem _ _ _ _ Hl).
      * intros n'. rewrite nd_load, decide_False by apply app_singleton_ne. apply Hlk.
    + exists c, h'. rewrite ghost_load, Ec by done. split_and!; [done..|].
      intros n' (n0 & Hn0 & _ & -> & _)%nd_loaded_inv. by apply Hlk.
  - intros q j Hq. assert (is_Some (G !! (q ++ [j]))) as Hq0.
    { unfold G' in Hq. rewrite lookup_insert in Hq. case_decide as E; [|done].
      rewrite <-E, Hg. eauto. }
    destruct (ti_parent _ _ _ _ _ Hinv _ _ Hq0) as (x & Hx & Hin & Hj).
    rewrite nd_load. case_decide; [|eauto]. subst q. exists (with_pointer n i (next_loc s)).
    rewrite (nd_Mem _ _ _ _ Hl) in Hx. split_and!; [done| |done]. by simplify_eq.
Qed.
End load_step.

(** ** Frames: what an operation on the tree of [G] leaves alone *)

Record step_frame G G' s s' : Prop := {
  sf_heap l : (∀ p, G !! p ≠ Some (Mem l)) → (l < next_loc s)%positive →
    heap s' !! l = heap s !! l;
  sf_disk h : wf256 h → (∀ p, G !! p ≠ Some (Disk h)) →
    node_at s' (Disk h) = node_at s (Disk h);
  sf_next : (next_loc s ≤ next_loc s')%positive;
  sf_ghost p pl : G' !! p = Some pl →
    (∃ q, G !! q = Some pl) ∨ ∃ l, pl = Mem l ∧ (next_loc s ≤ l)%positive;
}.

Lemma step_frame_refl G s : step_frame G G s s.
Proof. constructor; naive_solver lia. Qed.

Lemma step_frame_trans G1 G2 G3 s1 s2 s3 :
  step_frame G1 G2 s1 s2 → step_frame G2 G3 s2 s3 → step_frame G1 G3 s1 s3.
Proof.
  intros [Hh Hd Hn Hg] [Hh' Hd' Hn' Hg']. constructor.
  - intros l Hl Hlt. rewrite <-Hh by done. apply Hh'; [|lia].
    intros p Hp. destruct (Hg _ _ Hp) as [[q Hq]|(l' & [= <-] & ?)]; [by eapply Hl|lia].
  - intros h Hw Hl. rewrite <-Hd by done. apply Hd'; [done|].
    intros p Hp. destruct (Hg _ _ Hp) as [[q Hq]|(l' & [=] & ?)]. by eapply Hl.
  - lia.
  - intros p pl Hp. destruct (Hg' _ _ Hp) as [[q Hq]|(l & -> & ?)].
    + by eapply Hg.
    + right. exists l. split; [done|lia].
Qed.

Lemma same_view_refl s G : same_view s G s G.
Proof. done. Qed.
Lemma same_view_trans s1 G1 s2 G2 s3 G3 :
  same_view s1 G1 s2 G2 → same_view s2 G2 s3 G3 → same_view s1 G1 s3 G3.
Proof. intros Ha Hb q. by rewrite Hb. Qed.

Lemma same_view_Some s G s' G' q n :
  same_view s G s' G' → nd s G q = Some n →
  ∃ n', nd s' G' q = Some n' ∧ erase n' = erase n.
Proof.
  intros Hv Hn. specialize (Hv q). rewrite Hn in Hv. cbn in Hv.
  by apply fmap_Some in Hv as (n' & ? & ?); eauto.
Qed.

(** ** [descend] *)

Lemma descend_spec root k G s p l n i :
  tree_inv root k 0 G s → G !! p = Some (Mem l) → heap s !! l = Some n →
  is_inner n = true → i < 16 → is_empty_branch n i = false →
  ∃ lc s' G', descend l i s = Ok (lc, s') ∧ tree_inv root k 0 G' s' ∧ same_view s G s' G' ∧
    step_frame G G' s s' ∧ G' !! (p ++ [i]) = Some (Mem lc) ∧
    (∀ q l', G !! q = Some (Mem l') → G' !! q = Some (Mem l')).
Proof.
  intros Hinv Hl Hn Hinner Hi He.
  assert (nd s G p = Some n) as Hnp by (by rewrite (nd_Mem _ _ _ _ Hl)).
  assert (¬ stale k 0 (p ++ [i])) as Hns by (unfold stale; lia).
  destruct (ti_child _ _ _ _ _ Hinv _ _ _ Hnp Hinner Hi Hns He) as (c & h & Hc & Hh & Hg & Hlk).
  assert (get_child i n = Ok c) as Egc.
  { unfold get_child. rewrite decide_True, Hinner, Hc by done. done. }
  unfold descend. step (run_view s l n (get_child i) Hn). step (lift_Ok _ s _ Egc).
  destruct c as [lc|].
  { exists lc, s, G. split_and!; eauto using same_view_refl, step_frame_refl. }
  assert (get_child_hash i n = Ok h) as Egh.
  { unfold get_child_hash. rewrite decide_True, Hh by done. done. }
  destruct (ti_total _ _ _ _ _ Hinv _ _ Hg) as [nc Hnc]. cbn in Hnc. unfold fetched in Hnc.
  destruct (fetch h (rocks s)) as [[nc' d']|] eqn:Hf; [|done]. injection Hnc as ->.
  pose proof (fetch_inv _ _ _ _ Hf) as Ed'.
  assert (l ≠ next_loc s) as Hll by (by eapply not_next).
  step (run_view s l n (get_child_hash i) Hn). step (lift_Ok _ s _ Egh).
  exists (next_loc s), (loaded_store s l n i h nc), (<[p ++ [i] := Mem (next_loc s)]> G).
  split_and!.
  - unfold fetch_node_from_db, call, load, canonicalize, mbind, prog_bind, gets, lift.
    rewrite Hf. cbn. rewrite lookup_insert_ne, Hn by done. rewrite decide_True, Hinner by done.
    cbn. by rewrite Ed'.
  - by eapply load_step.
  - by eapply load_same_view.
  - constructor.
    + intros l' Hl' Hlt. cbn. rewrite !lookup_insert_ne; [done|lia|]. intros ->. by eapply Hl'.
    + intros h' Hw Hh'. apply fetched_frame; [done|by eapply disk_wf|].
      intros ->. by eapply Hh'.
    + cbn. lia.
    + intros q pl. rewrite lookup_insert. case_decide; [|eauto]. intros [= <-]. right.
      eexists. split; [done|lia].
  - apply lookup_insert_eq.
  - intros q l' Hq. rewrite lookup_insert_ne; [done|]. intros <-. by rewrite Hg in Hq.
Qed.

(** ** The descending loops *)

(** The descent along [key] stops at the node [n], at depth [e]: a leaf, or an
    inner node whose branch for [key] is empty. *)
Record stops_at s G (key : uint256) (e : nat) (l : loc) n : Prop := {
  st_depth : e ≤ 64;
  st_place : G !! take e (nibbles key) = Some (Mem l);
  st_node : heap s !! l = Some n;
  st_why : is_inner n = false ∨
    is_inner n = true ∧ ∃ b, nibbles key !! e = Some b ∧ is_empty_branch n b = true;
}.

(** A run that may have loaded nodes but has not changed the tree. *)
Record reads root G s G' s' : Prop := {
  rd_inv : tree_inv root [] 0 G' s';
  rd_view : same_view s G s' G';
  rd_frame : step_frame G G' s s';
  rd_mem q l : G !! q = Some (Mem l) → G' !! q = Some (Mem l);
}.

Lemma reads_refl root G s : tree_inv root [] 0 G s → reads root G s G s.
Proof. constructor; eauto using same_view_refl, step_frame_refl. Qed.

Lemma reads_trans root G1 s1 G2 s2 G3 s3 :
  reads root G1 s1 G2 s2 → reads root G2 s2 G3 s3 → reads root G1 s1 G3 s3.
Proof.
  intros [] []. constructor; eauto using same_view_trans, step_frame_trans.
Qed.

Lemma inner_depth root k m G s key d l n :
  wf256 key → tree_inv root k m G s → G !! take d (nibbles key) = Some (Mem l) →
  heap s !! l = Some n → is_inner n = true → d ≤ 64 →
  d < 64 ∧ ∃ b, nibbles key !! d = Some b ∧ b < 16.
Proof.
  intros Hk%length_nibbles_wf Hinv Hl Hn Hi Hd.
  destruct (ti_node _ _ _ _ _ Hinv (take d (nibbles key)) n) as [_ Hlen];
    [by rewrite (nd_Mem _ _ _ _ Hl)|].
  rewrite Hi, length_take, Hk in Hlen. assert (d < 64) by lia. split; [done|].
  destruct (lookup_lt_is_Some_2 (nibbles key) d) as [b Hb]; [lia|].
  eauto using nibble_lt.
Qed.

Lemma stack_ok_mono G G' k d stack :
  (∀ q l, G !! q = Some (Mem l) → G' !! q = Some (Mem l)) →
  stack_ok G k d stack → stack_ok G' k d stack.
Proof.
  intros Hmem. revert stack. induction d as [|d IH]; intros [|[l j] stack]; cbn; naive_solver.
Qed.

Lemma get_stack_loop_spec root key fuel :
  wf256 key → ∀ G s d l stack,
  fuel + d = 65 → d ≤ 64 → tree_inv root [] 0 G s →
  G !! take d (nibbles key) = Some (Mem l) → stack_ok G (nibbles key) d stack →
  ∃ e l' n' stack' s' G',
    get_stack_loop fuel key l d stack s = Ok ((l', e) :: stack', s') ∧
    reads root G s G' s' ∧ stack_ok G' (nibbles key) e stack' ∧ stops_at s' G' key e l' n'.
Proof.
  intros Hkey. induction fuel as [|fuel IH]; intros G s d l stack Hf Hd Hinv Hl Hst; [lia|].
  destruct (ti_total _ _ _ _ _ Hinv _ _ Hl) as [n Hn]. cbn in Hn. cbn [get_stack_loop].
  step (run_view s l n is_inner Hn).
  destruct (is_inner n) eqn:Hi.
  2:{ exists d, l, n, stack, s, G. split_and!; [done|by apply reads_refl|done|].
      constructor; auto. }
  destruct (inner_depth _ _ _ _ _ _ _ _ _ Hkey Hinv Hl Hn Hi Hd) as (Hd64 & b & Hb & Hb16).
  step (lift_Ok _ s _ (select_branch_Ok _ _ _ Hb)).
  step (assert_true (bool_decide (b < 16)) s (bool_decide_eq_true_2 _ Hb16)).
  step (run_view s l n (λ n, is_empty_branch n b) Hn).
  destruct (is_empty_branch n b) eqn:He.
  { exists d, l, n, stack, s, G. split_and!; [done|by apply reads_refl|done|].
    constructor; eauto. }
  destruct (descend_spec _ _ _ _ _ _ _ _ Hinv Hl Hn Hi Hb16 He)
    as (lc & s1 & G1 & Hrun & Hinv1 & Hv & Hfr & Hlc & Hmem).
  step Hrun. rewrite <-(take_S_path _ _ _ Hb) in Hlc.
  destruct (IH G1 s1 (S d) lc ((l, d) :: stack))
    as (e & l' & n' & stack' & s' & G' & Hrun' & Hrd & Hst' & Hstop);
    [lia|lia|done|done|cbn; split_and!; eauto using stack_ok_mono|].
  exists e, l', n', stack', s', G'. split_and!; [done| |done|done].
  eapply reads_trans; [|exact Hrd]. by constructor.
Qed.

Lemma get_stack_spec t key G s :
  wf256 key → tree_inv (root_ t) [] 0 G s →
  ∃ e l n stack s' G',
    get_stack t key s = Ok ((l, e) :: stack, s') ∧
    reads (root_ t) G s G' s' ∧ stack_ok G' (nibbles key) e stack ∧ stops_at s' G' key e l n.
Proof.
  intros Hkey Hinv. eapply get_stack_loop_spec; [done|done|lia|done|apply Hinv|done].
Qed.

Lemma walk_loop_spec root key fuel :
  wf256 key → ∀ G s d l,
  fuel + d = 65 → d ≤ 64 → tree_inv root [] 0 G s →
  G !! take d (nibbles key) = Some (Mem l) →
  ∃ e l' n' s' G',
    walk_loop fuel key l d s = Ok (if is_inner n' then None else Some l', s') ∧
    reads root G s G' s' ∧ stops_at s' G' key e l' n'.
Proof.
  intros Hkey. induction fuel as [|fuel IH]; intros G s d l Hf Hd Hinv Hl; [lia|].
  destruct (ti_total _ _ _ _ _ Hinv _ _ Hl) as [n Hn]. cbn in Hn. cbn [walk_loop].
  step (run_view s l n is_inner Hn).
  destruct (is_inner n) eqn:Hi.
  2:{ exists d, l, n, s, G. rewrite Hi. split_and!; [done|by apply reads_refl|].
      constructor; auto. }
  destruct (inner_depth _ _ _ _ _ _ _ _ _ Hkey Hinv Hl Hn Hi Hd) as (Hd64 & b & Hb & Hb16).
  step (lift_Ok _ s _ (select_branch_Ok _ _ _ Hb)).
  step (run_view s l n (λ n, is_empty_branch n b) Hn).
  destruct (is_empty_branch n b) eqn:He.
  { exists d, l, n, s, G. rewrite Hi. split_and!; [done|by apply reads_refl|].
    constructor; eauto. }
  destruct (descend_spec _ _ _ _ _ _ _ _ Hinv Hl Hn Hi Hb16 He)
    as (lc & s1 & G1 & Hrun & Hinv1 & Hv & Hfr & Hlc & Hmem).
  step Hrun. rewrite <-(take_S_path _ _ _ Hb) in Hlc.
  destruct (IH G1 s1 (S d) lc) as (e & l' & n' & s' & G' & Hrun' & Hrd & Hstop);
    [lia|lia|done|done|].
  exists e, l', n', s', G'. split_and!; [done| |done].
  eapply reads_trans; [|exact Hrd]. by constructor.
Qed.
End load.
