(* ===== verification/MerkleMap.v ===== *)
(** * A radix Merkle tree as a finite map

    The abstract value of a tree is the finite map from keys to leaf items;
    lookups and updates of the tree implement those of the map. *)

From S2P Require Import Prelude BaseUint Serializer MerkleNode Database MerkleTree MerkleInv.
From S2P Require Import MerkleLoad.

Section contents.
Context `{SHA512} `{Indeterminate} {D : Type} `{RocksDBLaws D}.
Implicit Types (s : store_t D) (G : gmap path place) (p q : path) (n : RadixMerkleTreeNode).
Implicit Types (key : uint256) (item : RadixMerkleTreeLeaf).
Implicit Types (m : gmap uint256 RadixMerkleTreeLeaf).

(** The tree has a leaf for [key], carrying [item]. *)
Definition holds s G key item : Prop :=
  ∃ p n, nd s G p = Some n ∧ is_inner n = false ∧ item_ n = Some item ∧ index_ item = key.

(** The tree implements the map [m]. *)
Definition abs s G m : Prop := ∀ key item, m !! key = Some item ↔ holds s G key item.

Lemma holds_view s G s' G' key item : same_view s G s' G' → holds s G key item ↔ holds s' G' key item.
Proof.
  intros Hv. assert (∀ s G s' G', same_view s G s' G' → holds s G key item → holds s' G' key item) as Hx.
  { clear. intros s G s' G' Hv (p & n & Hn & Hi & Hit & Hk).
    destruct (same_view_Some _ _ _ _ _ _ Hv Hn) as (n' & Hn' & E).
    exists p, n'. unfold is_inner in *. apply erase_eq in E as (? & ? & ? & ? & E4 & ?).
    split_and!; [done|by rewrite E4|congruence|done]. }
  split; apply Hx; [done|]. intros q. by rewrite Hv.
Qed.

Lemma abs_view s G s' G' m : same_view s G s' G' → abs s G m → abs s' G' m.
Proof. intros Hv Ha key item. rewrite (Ha key item). by apply holds_view. Qed.

(** Every leaf of the tree lies on the path of its key. *)
Lemma leaf_prefix root k mm G s p n item :
  tree_inv root k mm G s → nd s G p = Some n → is_inner n = false → item_ n = Some item →
  p = take (length p) (nibbles (index_ item)) ∧ length p ≤ 64 ∧ wf256 (index_ item).
Proof.
  intros Hinv Hn Hi Hit. destruct (ti_node _ _ _ _ _ Hinv _ _ Hn) as [Hw Hl].
  rewrite Hi in Hl. destruct Hl as (item' & Hit' & [r Hr] & _). simplify_eq.
  pose proof (nwf_item _ Hw _ Hit) as Hwf. pose proof (length_nibbles_wf _ Hwf) as L.
  rewrite Hr. split; [by rewrite take_app_length|]. split; [|done].
  rewrite Hr, length_app in L. lia.
Qed.

(** A leaf of [key] can only be where the descent along [key] stops. *)
Lemma stops_unique root G s key e l n p n' item :
  tree_inv root [] 0 G s → stops_at s G key e l n →
  nd s G p = Some n' → is_inner n' = false → item_ n' = Some item → index_ item = key →
  p = take e (nibbles key).
Proof.
  intros Hinv [He Hl Hn Hwhy] Hn' Hi' Hit Hk.
  assert (nd s G (take e (nibbles key)) = Some n) as Hnd by (by rewrite (nd_Mem _ _ _ _ Hl)).
  destruct (leaf_prefix _ _ _ _ _ _ _ _ Hinv Hn' Hi' Hit) as (Ep & Lp & Hwf).
  rewrite Hk in Ep, Hwf. apply length_nibbles_wf in Hwf as Lk.
  destruct (Nat.lt_trichotomy (length p) e) as [Hlt|[Heq|Hgt]].
  - destruct (path_inner _ _ _ _ _ e _ Hinv ltac:(eauto) (length p)) as (x & Hx & Hxi); [lia..|].
    rewrite <-Ep in Hx. congruence.
  - by rewrite Heq in Ep.
  - assert (is_Some (G !! take (length p) (nibbles key))) as Hp.
    { rewrite <-Ep. apply nd_Some in Hn' as (? & -> & _). eauto. }
    destruct (path_inner _ _ _ _ _ _ _ Hinv Hp e) as (x & Hx & Hxi); [lia..|].
    simplify_eq. destruct Hwhy as [|(_ & b & Hb & Hempty)]; [congruence|]. exfalso.
    pose proof (nibble_lt _ _ _ Hb).
    destruct (ti_empty _ _ _ _ _ Hinv _ _ b Hnd Hxi) as [Hnone _];
      [done|unfold stale; lia|done|]. rewrite <-(take_S_path _ _ _ Hb) in Hnone.
    destruct (decide (length p = S e)) as [Es|].
    + rewrite Es in Hp. destruct Hp. congruence.
    + destruct (path_inner _ _ _ _ _ _ _ Hinv Hp (S e)) as (y & Hy & _); [lia..|].
      apply nd_Some in Hy as (? & ? & _). congruence.
Qed.

(** The leaf of [key], if there is one, is where the descent along [key] stops. *)
Lemma holds_stops root G s key e l n item :
  tree_inv root [] 0 G s → stops_at s G key e l n →
  holds s G key item ↔ is_inner n = false ∧ item_ n = Some item ∧ index_ item = key.
Proof.
  intros Hinv Hstop. pose proof Hstop as [_ Hl Hn _].
  assert (nd s G (take e (nibbles key)) = Some n) as Hnd by (by rewrite (nd_Mem _ _ _ _ Hl)).
  split; [|by intros (?&?&?); exists (take e (nibbles key)), n].
  intros (p & n' & Hn' & Hi' & Hit & Hk).
  rewrite (stops_unique _ _ _ _ _ _ _ _ _ _ Hinv Hstop Hn' Hi' Hit Hk), Hnd in Hn'.
  by simplify_eq.
Qed.

(** ** Lookups *)

Lemma run_leaf_of s l n item :
  heap s !! l = Some n → item_ n = Some item → leaf_of l s = Ok (item, s).
Proof.
  intros Hn Hit. unfold leaf_of. step (run_view s l n peek_leaf Hn).
  unfold peek_leaf. by rewrite Hit.
Qed.

Lemma stop_leaf root k mm G s key e l n :
  tree_inv root k mm G s → stops_at s G key e l n → is_inner n = false →
  ∃ item, item_ n = Some item ∧ wf256 (index_ item).
Proof.
  intros Hinv [_ Hl Hn _] Hi.
  destruct (ti_node _ _ _ _ _ Hinv (take e (nibbles key)) n) as [Hw Hlf];
    [by rewrite (nd_Mem _ _ _ _ Hl)|].
  rewrite Hi in Hlf. destruct Hlf as (item & Hit & _). exists item. split; [done|].
  by apply Hw.
Qed.

(** The descent of the lookups ends at an empty branch, or at a leaf that is the one
    of the key or shows that the key is absent. *)
Lemma walk_find t key G s m :
  wf256 key → tree_inv (root_ t) [] 0 G s → abs s G m →
  ∃ r s' G', walk_loop depth_fuel key (root_ t) 0 s = Ok (r, s') ∧
    reads (root_ t) G s G' s' ∧ abs s' G' m ∧
    match r with
    | None => m !! key = None
    | Some l => ∃ n item, heap s' !! l = Some n ∧ item_ n = Some item ∧ wf256 (index_ item) ∧
        m !! key = if decide (index_ item = key) then Some item else None
    end.
Proof.
  intros Hkey Hinv Habs.
  destruct (walk_loop_spec (root_ t) key depth_fuel Hkey G s 0 (root_ t))
    as (e & l & n & s' & G' & Hrun & Hrd & Hstop); [done|lia|done|apply Hinv|].
  pose proof (rd_inv _ _ _ _ _ Hrd) as Hinv'.
  pose proof (abs_view _ _ _ _ _ (rd_view _ _ _ _ _ Hrd) Habs) as Habs'.
  assert (∀ item, m !! key = Some item ↔
            is_inner n = false ∧ item_ n = Some item ∧ index_ item = key) as Hm.
  { intros item. rewrite (Habs' key item). by eapply holds_stops. }
  eexists _, s', G'. split_and!; [exact Hrun|done..|]. destruct (is_inner n) eqn:Hi.
  - apply eq_None_not_Some. intros [item (? & _)%Hm]. done.
  - destruct (stop_leaf _ _ _ _ _ _ _ _ _ Hinv' Hstop Hi) as (item & Hit & Hw).
    exists n, item. split_and!; [by destruct Hstop|done..|]. case_decide as E; [by apply Hm|].
    apply eq_None_not_Some. intros [item' (_ & ? & ?)%Hm]. congruence.
Qed.

(** [walk_to_leaf] finds the leaf of the key exactly when the map has one. *)
Lemma walk_to_leaf_spec t key G s m :
  wf256 key → tree_inv (root_ t) [] 0 G s → abs s G m →
  ∃ r s' G', walk_to_leaf t key s = Ok (r, s') ∧ reads (root_ t) G s G' s' ∧ abs s' G' m ∧
    match r with
    | None => m !! key = None
    | Some l => ∃ n item, heap s' !! l = Some n ∧ item_ n = Some item ∧ m !! key = Some item
    end.
Proof.
  intros Hkey Hinv Habs.
  destruct (walk_find t key G s m Hkey Hinv Habs) as (r & s' & G' & Hrun & Hrd & Habs' & Hr).
  unfold walk_to_leaf. step Hrun. destruct r as [l|]; [|by exists None, s', G'].
  destruct Hr as (n & item & Hn & Hit & Hw & Hm). step (run_leaf_of s' l n item Hn Hit).
  unfold get_index. rewrite base_uint_eqb_decide by done.
  exists (if bool_decide (index_ item = key) then Some l else None), s', G'.
  split_and!; [done..|]. case_bool_decide; case_decide; try done. eauto.
Qed.
End contents.
