(* ===== verification/MerkleAdd.v ===== *)
(** * Adding an item

    The steps of [add_given_item]: hanging a new node on the path of a key, turning a
    leaf into an inner node, and the chain of inner nodes down to the depth where the
    two keys part. *)

From S2P Require Import Prelude BaseUint Serializer MerkleNode Database MerkleTree MerkleInv.
From S2P Require Import MerkleLoad MerkleMap.

Section add.
Context `{SHA512} `{Indeterminate} {D : Type} `{RocksDBLaws D}.
Implicit Types (s : store_t D) (G : gmap path place) (k p q : path) (n : RadixMerkleTreeNode).

Lemma tree_inv_mono root k j j' G s :
  j ≤ j' → tree_inv root k j G s → tree_inv root k j' G s.
Proof.
  intros Hj [? ? ? ? ? Hd He Hc ?].
  assert (∀ q, ¬ stale k j' q → ¬ stale k j q) as Hs by eauto using stale_mono.
  constructor; eauto.
Qed.

Lemma tree_inv_path root k k' j G s :
  take j k = take j k' → tree_inv root k j G s → tree_inv root k' j G s.
Proof.
  intros Ej [? ? ? ? ? Hd He Hc ?].
  assert (∀ q, stale k j q ↔ stale k' j q) as Hs.
  { intros q. unfold stale. assert (length q ≤ j → take (length q) k = take (length q) k') as E.
    { intros Hl. rewrite <-(Nat.min_l (length q) j), <-!take_take by done. by rewrite Ej. }
    split; intros [? E']; (split; [done|]); rewrite E' at 1; [|symmetry]; apply E; lia. }
  constructor; eauto.
  - intros p n Hn Hi Hst. eapply Hd; [done..|]. intros i ?%Hs. by eapply Hst.
  - intros p n i Hn Hi Hlt Hst. apply (He p); [done..|]. by rewrite Hs.
  - intros p n i Hn Hi Hlt Hst. apply (Hc p); [done..|]. by rewrite Hs.
Qed.

Definition alloc_at s n : store_t D :=
  mkStore (<[next_loc s := n]> (heap s)) (Pos.succ (next_loc s)) (rocks s).

(** A node without children. *)
Definition childless n : Prop :=
  branch_mask_ n = 0%Z ∧ children_ n = replicate 16 None.

Lemma childless_empty n i : childless n → is_empty_branch n i = true.
Proof. intros [Hm _]. by rewrite is_empty_branch_testbit, Hm, Z.bits_0. Qed.

Lemma ghost_closed root k m G s p i :
  tree_inv root k m G s → (∀ n, nd s G p = Some n → is_inner n = false) → G !! (p ++ [i]) = None.
Proof.
  intros Hinv Hp. apply eq_None_not_Some. intros (n & Hn & Hi & _)%(ti_parent _ _ _ _ _ Hinv).
  apply Hp in Hn. congruence.
Qed.

Section alloc_step.
Context root k e b G s n x
  (Hinv : tree_inv root k (S e) G s)
  (Hb : k !! e = Some b) (Hb16 : b < 16)
  (Hn : nd s G (take e k) = Some n) (Hinner : is_inner n = true)
  (Hnone : G !! take (S e) k = None)
  (Hx : node_inv (take (S e) k) x) (Hcl : childless x).

Let s' := alloc_at s x.
Let G' := <[take (S e) k := Mem (next_loc s)]> G.

Lemma alloc_fresh q l : G !! q = Some (Mem l) → l ≠ next_loc s.
Proof.
  intros Hq ->. destruct (ti_total _ _ _ _ _ Hinv _ _ Hq) as [y Hy]. cbn in Hy.
  apply (Pos.lt_irrefl (next_loc s)), (ti_fresh _ _ _ _ _ Hinv). eauto.
Qed.

Lemma nd_alloc q : nd s' G' q = if decide (q = take (S e) k) then Some x else nd s G q.
Proof.
  unfold nd, G'. case_decide as E.
  - subst q. rewrite lookup_insert_eq. cbn. apply lookup_insert_eq.
  - rewrite lookup_insert_ne by done. destruct (G !! q) as [[l|h]|] eqn:Hq; cbn; [|done..].
    apply lookup_insert_ne. apply not_eq_sym. by eapply alloc_fresh.
Qed.

Lemma ghost_alloc q : q ≠ take (S e) k → G' !! q = G !! q.
Proof. intros. by apply lookup_insert_ne. Qed.

Lemma stale_new m : S e ≤ m → stale k m (take (S e) k).
Proof.
  intros Hm. unfold stale. pose proof (lookup_lt_Some _ _ _ Hb).
  rewrite length_take, Nat.min_l by lia. split; [lia|done].
Qed.

Lemma alloc_inj q1 q2 pl : G' !! q1 = Some pl → G' !! q2 = Some pl → q1 = q2.
Proof.
  unfold G'. rewrite !lookup_insert. intros H1' H2'.
  repeat case_decide; subst; [done|..|by eapply (ti_inj _ _ _ _ _ Hinv)];
    simplify_eq; exfalso; by eapply alloc_fresh.
Qed.

Lemma alloc_total q pl : G' !! q = Some pl → is_Some (node_at s' pl).
Proof.
  intros Hq. enough (is_Some (nd s' G' q)) as Hs by (unfold nd in Hs; by rewrite Hq in Hs).
  rewrite nd_alloc. case_decide; [eauto|]. rewrite ghost_alloc in Hq by done.
  destruct (ti_total _ _ _ _ _ Hinv _ _ Hq) as [y Hy]. exists y. apply nd_Some. eauto.
Qed.

Lemma alloc_step m :
  S e ≤ m → (is_inner x = true → m = S (S e) ∧ is_Some (k !! S e)) →
  tree_inv root k m G' s'.
Proof.
  intros Hm Hxi.
  assert (∀ q, ¬ stale k m q → ¬ stale k (S e) q) as Hs by eauto using stale_mono.
  assert (∀ q, ¬ stale k m q → q ≠ take (S e) k) as Hne.
  { intros q Hq ->. by apply Hq, stale_new. }
  constructor.
  - rewrite ghost_alloc; [apply Hinv|]. intros E%(f_equal length). cbn in E.
    rewrite length_take in E. pose proof (lookup_lt_Some _ _ _ Hb). lia.
  - intros l. cbn. rewrite lookup_insert. case_decide; [lia|].
    intros ?%(ti_fresh _ _ _ _ _ Hinv). lia.
  - apply alloc_inj.
  - apply alloc_total.
  - intros q y. rewrite nd_alloc. case_decide; [|apply Hinv]. intros [= <-]. by subst q.
  - intros q y. rewrite nd_alloc. case_decide as E; intros Hy Hi Hst.
    + injection Hy as <-. subst q. destruct (Hxi Hi) as [-> [b' Hb']]. exfalso.
      apply (Hst b'). rewrite <-(take_S_path _ _ _ Hb'). by eapply stale_take'.
    + eapply (ti_digest _ _ _ _ _ Hinv); [done..|]. intros i. apply Hs, Hst.
  - intros q y i. rewrite nd_alloc. case_decide as E; intros Hy Hi Hlt Hst He.
    + injection Hy as <-. subst q. rewrite ghost_alloc by apply app_singleton_ne. split.
      * eapply ghost_closed; [done|]. intros z (? & ? & _)%nd_Some. congruence.
      * destruct Hcl as [_ ->]. by apply lookup_replicate_2.
    + rewrite ghost_alloc by (by apply Hne). eapply (ti_empty _ _ _ _ _ Hinv); eauto.
  - intros q y i. rewrite nd_alloc. case_decide as E; intros Hy Hi Hlt Hst He.
    + injection Hy as <-. by rewrite childless_empty in He.
    + destruct (ti_child _ _ _ _ _ Hinv _ _ _ Hy Hi Hlt (Hs _ Hst) He) as (c & h & ? & ? & ? & Hlk).
      exists c, h. rewrite ghost_alloc by (by apply Hne). split_and!; [done..|].
      intros n'. rewrite nd_alloc, decide_False by (by apply Hne). apply Hlk.
  - intros q i. destruct (decide (q ++ [i] = take (S e) k)) as [E|E].
    + intros _. rewrite (take_S_path _ _ _ Hb) in E. apply app_inj_tail in E as [-> ->].
      exists n. rewrite nd_alloc, decide_False; [done|].
      rewrite (take_S_path _ _ _ Hb). apply not_eq_sym, app_singleton_ne.
    + rewrite ghost_alloc by done. intros (y & Hy & Hi & Hlt)%(ti_parent _ _ _ _ _ Hinv).
      exists y. rewrite nd_alloc. rewrite decide_False; [done|]. intros ->.
      apply nd_Some in Hy as (? & ? & _). congruence.
Qed.
End alloc_step.

(** ** Turning a leaf into an inner node *)

Lemma make_inner_shell n : make_inner n = inner_shell (is_transaction_tree_ n) uint256_zero.
Proof. done. Qed.

Lemma wf256_zero : wf256 uint256_zero.
Proof. reflexivity. Qed.

Lemma shell_childless b h : childless (inner_shell b h).
Proof. done. Qed.

Lemma shell_node_inv b h p : wf256 h → length p < 64 → node_inv p (inner_shell b h).
Proof.
  intros Hh Hp. split; [|done]. constructor; try done.
  split; [done|]. apply Forall_replicate, wf256_zero.
Qed.

Section convert_step.
Context root k d b G s l n (t : bool)
  (Hinv : tree_inv root k 0 G s) (Hb : k !! d = Some b) (Hd : d < 64)
  (Hl : G !! take d k = Some (Mem l)) (Hn : heap s !! l = Some n) (Hleaf : is_inner n = false).

Let x := inner_shell t uint256_zero.
Let s' := write_at s l x.

Lemma nd_convert q : nd s' G q = if decide (q = take d k) then Some x else nd s G q.
Proof. apply nd_write; [apply Hinv|done]. Qed.

Lemma leaf_no_child i : G !! (take d k ++ [i]) = None.
Proof.
  eapply ghost_closed; [done|]. intros y. rewrite (nd_Mem _ _ _ _ Hl). congruence.
Qed.

Lemma convert_step : tree_inv root k (S d) G s'.
Proof.
  pose proof (length_take_path _ _ _ Hb) as Lp.
  assert (∀ q, ¬ stale k 0 q) as Hns by (unfold stale; lia).
  constructor.
  - apply Hinv.
  - intros l'. cbn. rewrite lookup_insert. case_decide; [subst l'|apply Hinv].
    intros _. apply (ti_fresh _ _ _ _ _ Hinv). eauto.
  - apply Hinv.
  - intros q pl Hq. enough (is_Some (nd s' G q)) as Hs by (unfold nd in Hs; by rewrite Hq in Hs).
    rewrite nd_convert. case_decide; [eauto|].
    destruct (ti_total _ _ _ _ _ Hinv _ _ Hq) as [y Hy]. exists y. apply nd_Some. eauto.
  - intros q y. rewrite nd_convert. case_decide; [|apply Hinv]. intros [= <-]. subst q.
    apply shell_node_inv; [apply wf256_zero|lia].
  - intros q y. rewrite nd_convert. case_decide as E; intros Hy Hi Hst.
    + exfalso. subst q. apply (Hst b). rewrite <-(take_S_path _ _ _ Hb). by eapply stale_take'.
    + eapply (ti_digest _ _ _ _ _ Hinv); eauto.
  - intros q y i. rewrite nd_convert. case_decide as E; intros Hy Hi Hlt Hst He.
    + injection Hy as <-. subst q. split; [apply leaf_no_child|by apply lookup_replicate_2].
    + eapply (ti_empty _ _ _ _ _ Hinv); eauto.
  - intros q y i. rewrite nd_convert. case_decide as E; intros Hy Hi Hlt Hst He.
    + injection Hy as <-. by rewrite (childless_empty x) in He.
    + destruct (ti_child _ _ _ _ _ Hinv _ _ _ Hy Hi Hlt (Hns _) He) as (c & h & ? & ? & ? & Hlk).
      exists c, h. split_and!; [done..|]. intros n'. rewrite nd_convert.
      case_decide as E'; [|apply Hlk]. exfalso. apply Hst. rewrite E'.
      eapply (stale_mono _ d); [lia|]. eapply stale_take; [done|].
      rewrite <-Lp, <-E', length_app. cbn. lia.
  - intros q i (y & Hy & Hi & Hlt)%(ti_parent _ _ _ _ _ Hinv). exists y.
    rewrite nd_convert. rewrite decide_False; [done|]. intros ->.
    rewrite (nd_Mem _ _ _ _ Hl) in Hy. congruence.
Qed.
End convert_step.

(** ** Frames of the elementary steps *)

Lemma frame_write G s p l n :
  G !! p = Some (Mem l) → step_frame G G s (write_at s l n).
Proof.
  intros Hl. constructor.
  - intros l' Hl' _. cbn. apply lookup_insert_ne. intros ->. by eapply Hl'.
  - done.
  - cbn. lia.
  - eauto.
Qed.

Lemma frame_alloc G s p n :
  step_frame G (<[p := Mem (next_loc s)]> G) s (alloc_at s n).
Proof.
  constructor.
  - intros l' _ Hlt. cbn. apply lookup_insert_ne. lia.
  - done.
  - cbn. lia.
  - intros q pl. rewrite lookup_insert. case_decide; [|eauto]. intros [= <-].
    right. eexists. split; [done|lia].
Qed.

(** ** [add_leaf_child] *)

(** The new leaf node of an item. *)
Definition new_leaf item ty : RadixMerkleTreeNode :=
  mkNode (index_ item) indet_hashes (replicate 16 None) (Some item)
    (bool_decide (ty = TREE_NODE_TYPE_TRANSACTION_LEAF)) ty 0.

Definition leaf_ty (ty : TreeNodeType) : Prop :=
  ty = TREE_NODE_TYPE_TRANSACTION_LEAF ∨ ty = TREE_NODE_TYPE_ACCOUNT_LEAF.

Lemma leaf_type_ty b : leaf_ty (leaf_type b).
Proof. destruct b; [by left|by right]. Qed.

Lemma is_inner_new_leaf item ty : leaf_ty ty → is_inner (new_leaf item ty) = false.
Proof. by intros [-> | ->]. Qed.

Lemma new_leaf_inv item ty p :
  leaf_ty ty → wf256 (index_ item) → p `prefix_of` nibbles (index_ item) →
  node_inv p (new_leaf item ty).
Proof.
  intros Hty Hw Hp. split.
  - constructor; cbn; try done.
    + destruct Hty as [-> | ->]; cbn; eauto.
    + apply indet_hashes_wf.
    + by intros ? [= <-].
  - rewrite is_inner_new_leaf by done. exists item. eauto.
Qed.

Lemma add_leaf_child_spec root key e b G s l n item ty :
  wf256 key → tree_inv root (nibbles key) (S e) G s → nibbles key !! e = Some b →
  G !! take e (nibbles key) = Some (Mem l) → heap s !! l = Some n → is_inner n = true →
  G !! take (S e) (nibbles key) = None →
  index_ item = key → leaf_ty ty →
  node_digest (with_child n b None key) ≠ hash_ n →
  let lc := next_loc s in
  let G' := <[take (S e) (nibbles key) := Mem lc]> G in
  let s' := write_at (alloc_at s (new_leaf item ty)) l (relinked n b lc key) in
  add_leaf_child l item ty b s = Ok (tt, s') ∧
  tree_inv root (nibbles key) e G' s' ∧ step_frame G G' s s' ∧
  (∀ q, nd s' G' q = if decide (q = take e (nibbles key)) then Some (relinked n b lc key)
                     else if decide (q = take (S e) (nibbles key)) then Some (new_leaf item ty)
                     else nd s G q).
Proof.
  intros Hkey Hinv Hb Hl Hn Hi Hnone Hix Hty Hne lc G' s'.
  pose proof (nibble_lt _ _ _ Hb) as Hb16.
  assert (nd s G (take e (nibbles key)) = Some n) as Hnd by (by rewrite (nd_Mem _ _ _ _ Hl)).
  assert (node_inv (take (S e) (nibbles key)) (new_leaf item ty)) as Hleaf.
  { apply new_leaf_inv; [done|by rewrite Hix|]. rewrite Hix. by eexists; rewrite take_drop. }
  assert (childless (new_leaf item ty)) as Hcl by done.
  pose proof (alloc_step _ _ _ _ _ _ _ _ Hinv Hb Hb16 Hnd Hi Hnone Hleaf Hcl (S e)) as Hinv1.
  specialize (Hinv1 ltac:(lia)). rewrite is_inner_new_leaf in Hinv1 by done.
  specialize (Hinv1 ltac:(done)).
  pose proof (nd_alloc _ _ _ _ _ (new_leaf item ty) Hinv) as Hnd1.
  set (s1 := alloc_at s (new_leaf item ty)) in *. fold lc G' in Hinv1, Hnd1.
  assert (l ≠ lc) as Hll by (eapply (alloc_fresh _ _ _ _ _ Hinv); done).
  assert (heap s1 !! l = Some n) as Hn1 by (cbn; by rewrite lookup_insert_ne).
  assert (heap s1 !! lc = Some (new_leaf item ty)) as Hlc1 by (cbn; by rewrite lookup_insert_eq).
  assert (take e (nibbles key) ≠ take (S e) (nibbles key)) as Hpne.
  { rewrite (take_S_path _ _ _ Hb). apply not_eq_sym, app_singleton_ne. }
  assert (G' !! take e (nibbles key) = Some (Mem l)) as Hl1 by (by unfold G'; rewrite lookup_insert_ne).
  assert (G' !! take (S e) (nibbles key) = Some (Mem lc)) as Hlcg by apply lookup_insert_eq.
  assert (hash_ (new_leaf item ty) = key) as Eh by done.
  pose proof (relink_step _ _ _ _ _ _ _ _ n (new_leaf item ty) Hinv1 Hb Hb16 Hl1
    ltac:(by rewrite (nd_Mem _ _ _ _ Hl1)) Hi Hlcg ltac:(by rewrite (nd_Mem _ _ _ _ Hlcg))) as Hinv2.
  pose proof (nd_relink root (nibbles key) e b G' s1 l lc n (new_leaf item ty) Hinv1 Hl1) as Hnd2.
  rewrite Eh in Hinv2, Hnd2. split_and!.
  - unfold add_leaf_child. step (lift_Ok _ s _ (mk_leaf_node_spec item ty Hty)).
    rewrite (bind_Ok _ _ _ lc s1) by done.
    step (run_view s1 lc _ get_hash Hlc1). unfold get_hash. rewrite Eh.
    rewrite (bind_Ok _ _ _ true s'); [done|].
    rewrite (run_set_child _ _ n); [|done|done| |done|done].
    + by rewrite decide_False.
    + by destruct (ti_node _ _ _ _ _ Hinv _ _ Hnd).
  - done.
  - eapply step_frame_trans; [apply frame_alloc|]. by eapply frame_write.
  - intros q. rewrite Hnd2. case_decide; [done|]. apply Hnd1.
Qed.
End add.

(** * Splitting a leaf *)

(** The first depth from [d] at which two paths differ. *)
Fixpoint first_diff (k k' : path) (fuel d : nat) : nat :=
  match fuel with
  | O => d
  | S fuel => if decide (k !! d = k' !! d) then first_diff k k' fuel (S d) else d
  end.

Section split.
Context `{SHA512} `{Indeterminate} {D : Type} `{RocksDBLaws D}.
Implicit Types (s : store_t D) (G : gmap path place) (k p q : path) (n : RadixMerkleTreeNode).

(** The new inner node at depth [j], when the leaf was at depth [d] of a tree
    whose nodes carry the flag [t]. *)
Definition split_shell (t : bool) (d j : nat) : RadixMerkleTreeNode :=
  inner_shell (bool_decide (j = d) && t) uint256_zero.

(** [v] with new inner nodes at the depths [d..e] of [k]. *)
Definition split_view (v : path → option RadixMerkleTreeNode) k (t : bool) (d e : nat)
    : path → option RadixMerkleTreeNode :=
  λ q, if decide (d ≤ length q ≤ e ∧ q = take (length q) k)
       then Some (split_shell t d (length q)) else v q.

Lemma split_shell_above t d j : d < j → split_shell t d j = inner_shell false uint256_zero.
Proof. intros. unfold split_shell. by rewrite bool_decide_false by lia. Qed.

Lemma split_view_on v k t d e j :
  d ≤ j ≤ e → j ≤ length k → split_view v k t d e (take j k) = Some (split_shell t d j).
Proof.
  intros Hj Hk. unfold split_view. rewrite length_take, Nat.min_l by lia.
  by rewrite decide_True.
Qed.

Lemma split_view_off v k t d e q :
  (∀ j, d ≤ j ≤ e → q ≠ take j k) → split_view v k t d e q = v q.
Proof.
  intros Hq. unfold split_view. apply decide_False. intros [Hl E]. by apply (Hq (length q)).
Qed.

Lemma split_view_S v k t d e q :
  d ≤ e → S e ≤ length k →
  split_view v k t d (S e) q =
    if decide (q = take (S e) k) then Some (inner_shell false uint256_zero)
    else split_view v k t d e q.
Proof.
  intros Hde Hk. case_decide as E.
  - subst q. rewrite split_view_on by lia. by rewrite split_shell_above by lia.
  - unfold split_view. destruct (decide (d ≤ length q ≤ e ∧ q = take (length q) k)) as [[??]|Hn].
    + by rewrite decide_True by (split; [lia|done]).
    + rewrite decide_False; [done|]. intros [Hl E']. apply Hn. split; [|done].
      destruct (decide (length q = S e)) as [El|]; [|lia]. by rewrite El in E'.
Qed.

(** The new inner node of one iteration. *)
Lemma run_new_inner {B} s (K : loc → prog (store_t D) B) :
  (n ← lift (mk_inner_node false);
   node ← make_shared n;
   call node (λ n, Ok (tt, make_inner n));; K node) s =
  K (next_loc s) (alloc_at s (inner_shell false uint256_zero)).
Proof.
  step (lift_Ok _ s _ (mk_inner_node_spec false)).
  unfold make_shared, call, load, mbind, prog_bind. cbn [heap]. rewrite lookup_insert_eq. cbn.
  by rewrite insert_insert_eq.
Qed.

(** What holds at each iteration: the last inner node, at depth [j], is the
    location [l], it has no children yet, and everything above is on the stack. *)
Record splitting root k (t : bool) (d j : nat) G s l (stack : LeafStack) : Prop := {
  sp_inv : tree_inv root k (S j) G s;
  sp_place : G !! take j k = Some (Mem l);
  sp_node : heap s !! l = Some (split_shell t d j);
  sp_leaf i : G !! (take j k ++ [i]) = None;
  sp_stack : stack_ok G k j stack;
}.

Lemma splitting_step root k t d j b G s l stack :
  d ≤ j → k !! j = Some b → b < 16 → S j < length k → length k = 64 →
  splitting root k t d j G s l stack →
  splitting root k t d (S j) (<[take (S j) k := Mem (next_loc s)]> G)
    (alloc_at s (inner_shell false uint256_zero)) (next_loc s) ((l, j) :: stack).
Proof.
  intros Hdj Hb Hb16 Hj Lk [Hinv Hl Hn Hlf Hst].
  destruct (lookup_lt_is_Some_2 k (S j)) as [b' Hb']; [lia|].
  assert (G !! take (S j) k = None) as Hnone by (by rewrite (take_S_path _ _ _ Hb)).
  assert (∀ q l', G !! q = Some (Mem l') →
            <[take (S j) k := Mem (next_loc s)]> G !! q = Some (Mem l')) as Hmem.
  { intros q l' Hq. rewrite lookup_insert_ne; [done|]. intros <-. congruence. }
  constructor.
  - eapply (alloc_step root k j b G s (split_shell t d j)); eauto.
    + by rewrite (nd_Mem _ _ _ _ Hl).
    + apply shell_node_inv; [apply wf256_zero|]. rewrite (length_take_path _ _ _ Hb'). lia.
    + apply shell_childless.
  - apply lookup_insert_eq.
  - cbn. rewrite lookup_insert_eq. by rewrite split_shell_above by lia.
  - intros i. rewrite lookup_insert_ne by apply not_eq_sym, app_singleton_ne.
    eapply ghost_closed; [done|]. intros y (? & ? & _)%nd_Some. congruence.
  - cbn. split_and!; eauto using stack_ok_mono.
Qed.

Lemma splitting_nd root k t d j b G s l stack v :
  d ≤ j → k !! j = Some b → S j < length k →
  splitting root k t d j G s l stack →
  (∀ q, nd s G q = split_view v k t d j q) →
  ∀ q, nd (alloc_at s (inner_shell false uint256_zero))
         (<[take (S j) k := Mem (next_loc s)]> G) q = split_view v k t d (S j) q.
Proof.
  intros Hdj Hb Hj [Hinv _ _ _ _] Hv q. rewrite split_view_S by lia.
  rewrite (nd_alloc _ _ _ _ _ _ Hinv). case_decide; [done|]. apply Hv.
Qed.

(** The loop ends at the depth where the keys part. *)
Lemma split_loop_spec root key okey t d v fuel :
  wf256 key → wf256 okey → key ≠ okey → ∀ j G s l stack,
  65 ≤ fuel + j → d ≤ j ≤ 64 → take j (nibbles key) = take j (nibbles okey) →
  splitting root (nibbles key) t d j G s l stack →
  (∀ q, nd s G q = split_view v (nibbles key) t d j q) →
  let e := first_diff (nibbles key) (nibbles okey) fuel j in
  ∃ b1 b2 l' stack' G' s',
    split_loop fuel key okey l j stack s = Ok ((l', stack', b1, b2), s') ∧
    j ≤ e < 64 ∧ take e (nibbles key) = take e (nibbles okey) ∧
    nibbles key !! e = Some b1 ∧ nibbles okey !! e = Some b2 ∧ b1 ≠ b2 ∧
    splitting root (nibbles key) t d e G' s' l' stack' ∧
    (∀ q, nd s' G' q = split_view v (nibbles key) t d e q) ∧ step_frame G G' s s'.
Proof.
  intros Hk Hk' Hne. pose proof (length_nibbles_wf _ Hk) as Lk.
  pose proof (length_nibbles_wf _ Hk') as Lk'.
  assert (∀ j, take j (nibbles key) = take j (nibbles okey) → j < 64) as Hlt.
  { intros j Ej. apply Nat.nle_gt. intros Hj. rewrite !take_ge in Ej by lia.
    by apply Hne, nibbles_inj. }
  induction fuel as [|fuel IH]; intros j G s l stack Hf Hj Htk Hsp Hv; [apply Hlt in Htk; lia|].
  pose proof (Hlt _ Htk) as Hj64. cbn [split_loop first_diff].
  destruct (lookup_lt_is_Some_2 (nibbles key) j) as [b1 Hb1]; [lia|].
  destruct (lookup_lt_is_Some_2 (nibbles okey) j) as [b2 Hb2]; [lia|].
  step (lift_Ok _ s _ (select_branch_Ok _ _ _ Hb1)).
  step (lift_Ok _ s _ (select_branch_Ok _ _ _ Hb2)).
  rewrite Hb1, Hb2. destruct (decide (b1 = b2)) as [->|Hbne].
  2:{ rewrite decide_False by congruence. exists b1, b2, l, stack, G, s.
      split_and!; try (done || lia). apply step_frame_refl. }
  rewrite decide_True by done. rewrite run_new_inner.
  assert (take (S j) (nibbles key) = take (S j) (nibbles okey)) as HtkS.
  { by rewrite (take_S_path _ _ _ Hb1), (take_S_path _ _ _ Hb2), Htk. }
  pose proof (Hlt _ HtkS). pose proof (nibble_lt _ _ _ Hb1).
  pose proof (splitting_step _ (nibbles key) _ d j _ _ _ _ _ ltac:(lia) Hb1 ltac:(done) ltac:(lia) Lk Hsp) as Hsp1.
  pose proof (splitting_nd _ (nibbles key) _ d j _ _ _ _ _ v ltac:(lia) Hb1 ltac:(lia) Hsp Hv) as Hv1.
  destruct (IH (S j) _ _ _ _ ltac:(lia) ltac:(lia) HtkS Hsp1 Hv1)
    as (c1 & c2 & l' & stack' & G' & s' & Hrun & He & ? & ? & ? & ? & ? & ? & Hfr).
  exists c1, c2, l', stack', G', s'. split_and!; try (done || lia).
  eapply step_frame_trans; [apply frame_alloc|exact Hfr].
Qed.
End split.
