(* ===== verification/MerkleInsert.v ===== *)
(** * [add_given_item] implements insertion of a new key

    The two cases of the operation, the condition under which every rehashing on
    the path changes the hash, and the effect on the finite map. *)

From S2P Require Import Prelude BaseUint Serializer MerkleNode Database MerkleTree MerkleInv.
From S2P Require Import MerkleLoad MerkleMap MerkleAdd.

Section insert.
Context `{SHA512} `{Indeterminate} {D : Type} `{RocksDBLaws D}.
Implicit Types (s : store_t D) (G : gmap path place) (k p q : path) (n : RadixMerkleTreeNode).
Implicit Types (key : uint256) (item it : RadixMerkleTreeLeaf).
Implicit Types (m : gmap uint256 RadixMerkleTreeLeaf) (v : path → option RadixMerkleTreeNode).

(** ** Leaves *)

Definition leaf_at s G q it : Prop :=
  ∃ n, nd s G q = Some n ∧ is_inner n = false ∧ item_ n = Some it.

Lemma holds_leaf_at s G key it : holds s G key it ↔ (∃ q, leaf_at s G q it) ∧ index_ it = key.
Proof.
  split; [intros (q & n & ? & ? & ? & ?)|intros [(q & n & ? & ? & ?) ?]].
  - split; [by exists q, n|done].
  - by exists q, n.
Qed.

Lemma inner_not_leaf s G q it n : nd s G q = Some n → is_inner n = true → ¬ leaf_at s G q it.
Proof. intros Hn Hi (n' & Hn' & Hi' & _). congruence. Qed.

Lemma leaf_at_nd s G s' G' q it : nd s' G' q = nd s G q → leaf_at s' G' q it ↔ leaf_at s G q it.
Proof. unfold leaf_at. by intros ->. Qed.

(** Rehashing a path moves no leaf. *)
Lemma leaf_at_off_path root k (m1 m2 : nat) d G s s' q it :
  tree_inv root k m1 G s → tree_inv root k m2 G s' → d ≤ length k → is_Some (G !! take d k) →
  same_off_path k d G s s' → leaf_at s' G q it ↔ leaf_at s G q it.
Proof.
  intros Hinv Hinv' Hd Hs [_ _ Hq _].
  destruct (decide (length q < d ∧ q = take (length q) k)) as [[Hl Eq]|Hn].
  - destruct (path_inner _ _ _ _ _ d k Hinv Hs (length q)) as (x & Hx & Hxi); [lia..|].
    destruct (path_inner _ _ _ _ _ d k Hinv' Hs (length q)) as (y & Hy & Hyi); [lia..|].
    rewrite <-Eq in Hx, Hy. split; intros Hlf; exfalso; by eapply inner_not_leaf in Hlf.
  - apply leaf_at_nd, Hq. intros j Hj ->. apply Hn. rewrite length_take, Nat.min_l by lia. done.
Qed.

Lemma same_off_path_frame k d G s s' : same_off_path k d G s s' → step_frame G G s s'.
Proof.
  intros [Hr Hn _ Hh]. constructor; [eauto| |by rewrite Hn|eauto].
  intros h _ _. cbn. by rewrite Hr.
Qed.

Lemma abs_insert s G s' G' m item :
  abs s G m → m !! index_ item = None →
  (∀ it, (∃ q, leaf_at s' G' q it) ↔ (∃ q, leaf_at s G q it) ∨ it = item) →
  abs s' G' (<[index_ item := item]> m).
Proof.
  intros Ha Hm Hl key it. rewrite holds_leaf_at, Hl.
  specialize (Ha key it). rewrite holds_leaf_at in Ha.
  destruct (decide (key = index_ item)) as [->|Hne].
  - rewrite lookup_insert_eq. split; [naive_solver|].
    intros [[Hq| ->] E]; [|done]. rewrite (proj2 Ha) in Hm; naive_solver.
  - rewrite lookup_insert_ne, Ha by done. naive_solver.
Qed.

(** What hanging a new leaf at [pc] under the inner node at [p] does to the leaves. *)
Lemma leaf_at_added s G s1 G1 p pc n n1 item ty q it :
  nd s G p = Some n → is_inner n = true → is_inner n1 = true → G !! pc = None → pc ≠ p →
  leaf_ty ty →
  (∀ q, nd s1 G1 q = if decide (q = p) then Some n1
                     else if decide (q = pc) then Some (new_leaf item ty) else nd s G q) →
  leaf_at s1 G1 q it ↔ leaf_at s G q it ∨ q = pc ∧ it = item.
Proof.
  intros Hn Hi Hi1 Hnone Hne Hty%(is_inner_new_leaf item) Hnd.
  unfold leaf_at at 1. rewrite Hnd. case_decide as E1; [subst q|case_decide as E2; [subst q|]].
  - split; [intros (? & [= <-] & Hx & _); congruence|].
    intros [?%(inner_not_leaf _ _ _ _ _ Hn)|[? _]]; done.
  - assert (¬ leaf_at s G pc it) as Hnl by (intros (x & (? & ? & _)%nd_Some & _); congruence).
    naive_solver.
  - unfold leaf_at. naive_solver.
Qed.

Lemma ghost_keeps G p pl q l :
  G !! p = None → G !! q = Some (Mem l) → <[p := pl]> G !! q = Some (Mem l).
Proof. intros Hp Hq. rewrite lookup_insert_ne; [done|]. intros <-. congruence. Qed.

(** ** Hanging the item under the inner node the descent stops at *)

Lemma with_child_digest n b c h : node_digest (with_child n b c h) = node_digest (with_child n b None h).
Proof. done. Qed.

Lemma take_ne_take k j e : j ≠ e → j ≤ length k → e ≤ length k → take j k ≠ take e k.
Proof. intros ? ? ? E%(f_equal length). rewrite !length_take in E. lia. Qed.

Lemma add_at_inner root key e b G s l n stack item ty :
  wf256 key → tree_inv root [] 0 G s → stack_ok G (nibbles key) e stack →
  e < 64 → G !! take e (nibbles key) = Some (Mem l) → heap s !! l = Some n →
  is_inner n = true → nibbles key !! e = Some b → is_empty_branch n b = true →
  rehash (nd s G) (nibbles key) (S e) key = true → index_ item = key → leaf_ty ty →
  ∃ s' G',
    (add_leaf_child l item ty b;; dirty_up stack key l;; mret true) s = Ok (true, s') ∧
    tree_inv root (nibbles key) 0 G' s' ∧ step_frame G G' s s' ∧
    (∀ q it, leaf_at s' G' q it ↔ leaf_at s G q it ∨ q = take (S e) (nibbles key) ∧ it = item).
Proof.
  intros Hkey Hinv Hst He Hl Hn Hi Hb Hemp Hre Hix Hty.
  pose proof (length_nibbles_wf _ Hkey) as Lk. pose proof (nibble_lt _ _ _ Hb) as Hb16.
  assert (nd s G (take e (nibbles key)) = Some n) as Hnd by (by rewrite (nd_Mem _ _ _ _ Hl)).
  cbn [rehash] in Hre. rewrite Hnd, Hb in Hre. apply andb_true_iff in Hre as [Hne Hre].
  apply bool_decide_eq_true in Hne.
  assert (G !! take (S e) (nibbles key) = None) as Hnone.
  { rewrite (take_S_path _ _ _ Hb). by eapply (ti_empty _ _ _ _ _ Hinv); [..|unfold stale; lia|]. }
  apply (tree_inv_weaken _ _ (nibbles key) (S e)) in Hinv.
  destruct (add_leaf_child_spec _ _ _ _ _ _ _ _ item ty Hkey Hinv Hb Hl Hn Hi Hnone Hix Hty Hne)
    as (Hrun & Hinv1 & Hfr1 & Hnd1).
  set (lc := next_loc s) in *. set (n1 := relinked n b lc key) in *.
  set (s1 := write_at _ l n1) in *. set (G1 := <[_ := Mem lc]> G) in *.
  assert (take (S e) (nibbles key) ≠ take e (nibbles key)) as Hpne by (apply take_ne_take; lia).
  assert (G1 !! take e (nibbles key) = Some (Mem l)) as Hl1 by (unfold G1; by rewrite lookup_insert_ne).
  assert (∀ q l', G !! q = Some (Mem l') → G1 !! q = Some (Mem l')) as Hmem.
  { intros q l'. by apply ghost_keeps. }
  destruct (dirty_up_spec root key G1 e Hkey ltac:(lia) s1 stack l n1)
    as (s' & Hrun' & Hinv' & Hsame);
    [done|by eapply stack_ok_mono|done|apply lookup_insert_eq|..].
  { rewrite <-Hre. apply rehash_ext. intros j Hj. rewrite Hnd1.
    rewrite !decide_False by (apply take_ne_take; lia). done. }
  exists s', G1. split_and!; [by step Hrun; step Hrun'|done|..].
  { eapply step_frame_trans; [done|by eapply same_off_path_frame]. }
  intros q it. rewrite (leaf_at_off_path root _ _ _ e _ _ _ q it Hinv1 Hinv' ltac:(lia) ltac:(eauto) Hsame).
  by apply (leaf_at_added s G s1 G1 _ _ n n1 item ty q it Hnd).
Qed.

(** ** Splitting the leaf the descent stops at *)

(** Hanging the two items under the new inner node [sh] at depth [e] and rehashing
    the path changes every hash on the way. *)
Definition split_rehash v k (e : nat) sh (b1 b2 : nat) key okey : bool :=
  let n1 := with_child sh b1 None key in
  let n2 := with_child n1 b2 None okey in
  bool_decide (node_digest n1 ≠ hash_ sh) &&
  bool_decide (node_digest n2 ≠ node_digest n1) && rehash v k e (node_digest n2).

Section add_two.
Context root key okey t d e b1 b2 G s l stack item other ty
  (Hkey : wf256 key) (Hokey : wf256 okey) (He : d ≤ e < 64)
  (Etk : take e (nibbles key) = take e (nibbles okey))
  (Hb1 : nibbles key !! e = Some b1) (Hb2 : nibbles okey !! e = Some b2) (Hbne : b1 ≠ b2)
  (Hsp : splitting root (nibbles key) t d e G s l stack)
  (Hix : index_ item = key) (Hox : index_ other = okey) (Hty : leaf_ty ty).

Let n1 := with_child (split_shell t d e) b1 None key.
Let n2 := with_child n1 b2 None okey.

Lemma add_two_leaves :
  node_digest n1 ≠ hash_ (split_shell t d e) → node_digest n2 ≠ node_digest n1 →
  ∃ s2 G2 n2',
    (add_leaf_child l item ty b1;; add_leaf_child l other ty b2) s = Ok (tt, s2) ∧
    tree_inv root (nibbles key) e G2 s2 ∧ step_frame G G2 s s2 ∧
    (∀ q l', G !! q = Some (Mem l') → G2 !! q = Some (Mem l')) ∧
    heap s2 !! l = Some n2' ∧ hash_ n2' = node_digest n2 ∧
    (∀ q, length q < e → nd s2 G2 q = nd s G q) ∧
    (∀ q it, leaf_at s2 G2 q it ↔
       leaf_at s G q it ∨ q = take (S e) (nibbles key) ∧ it = item ∨
       q = take (S e) (nibbles okey) ∧ it = other).
Proof.
  destruct Hsp as [Hinv Hl Hn Hlf Hst]. intros Hne1 Hne2.
  pose proof (length_nibbles_wf _ Hkey) as Lk. pose proof (length_nibbles_wf _ Hokey) as Lk'.
  assert (nd s G (take e (nibbles key)) = Some (split_shell t d e)) as Hnd
    by (by rewrite (nd_Mem _ _ _ _ Hl)).
  assert (G !! take (S e) (nibbles key) = None) as Hnone by (by rewrite (take_S_path _ _ _ Hb1)).
  destruct (add_leaf_child_spec _ _ _ _ _ _ _ _ item ty Hkey Hinv Hb1 Hl Hn eq_refl Hnone Hix Hty Hne1)
    as (Hrun1 & Hinv1 & Hfr1 & Hnd1).
  set (m1 := relinked _ b1 _ key) in *. set (s1 := write_at _ l m1) in *.
  set (G1 := <[_ := Mem (next_loc s)]> G) in *.
  assert (∀ q l', G !! q = Some (Mem l') → G1 !! q = Some (Mem l')) as Hmem1
    by (intros q l'; by apply ghost_keeps).
  apply (tree_inv_path _ _ (nibbles okey)) in Hinv1; [|done].
  apply (tree_inv_mono _ _ _ (S e)) in Hinv1; [|lia].
  assert (G1 !! take (S e) (nibbles okey) = None) as Hnone1.
  { unfold G1. rewrite (take_S_path _ _ _ Hb1), (take_S_path _ _ _ Hb2), <-Etk.
    rewrite lookup_insert_ne; [done|]. by intros [_ ?]%app_inj_tail. }
  assert (G1 !! take e (nibbles okey) = Some (Mem l)) as Hl1 by (rewrite <-Etk; by apply Hmem1).
  assert (nd s1 G1 (take e (nibbles okey)) = Some m1) as Hnd1'.
  { rewrite (nd_Mem _ _ _ _ Hl1). apply lookup_insert_eq. }
  destruct (add_leaf_child_spec _ okey e b2 G1 s1 l m1 other ty Hokey Hinv1 Hb2 Hl1
    (lookup_insert_eq _ _ _) eq_refl Hnone1 Hox Hty Hne2) as (Hrun2 & Hinv2 & Hfr2 & Hnd2).
  set (m2 := relinked m1 b2 _ okey) in *. set (s2 := write_at _ l m2) in *.
  set (G2 := <[_ := Mem (next_loc s1)]> G1) in *.
  exists s2, G2, m2. split_and!.
  - by step Hrun1.
  - by apply (tree_inv_path _ (nibbles okey)).
  - by eapply step_frame_trans.
  - intros q l' Hq. by apply ghost_keeps, Hmem1.
  - apply lookup_insert_eq.
  - done.
  - intros q Hq. rewrite Hnd2, Hnd1. rewrite !decide_False; [done|..];
      intros ->; rewrite length_take in Hq; lia.
  - intros q it.
    rewrite (leaf_at_added s1 G1 s2 G2 _ _ m1 m2 other ty q it Hnd1' eq_refl eq_refl Hnone1);
      [|apply take_ne_take; lia|done|done].
    rewrite (leaf_at_added s G s1 G1 _ _ _ m1 item ty q it Hnd eq_refl eq_refl Hnone);
      [tauto|apply take_ne_take; lia|done|done].
Qed.

Lemma add_two :
  split_rehash (nd s G) (nibbles key) e (split_shell t d e) b1 b2 key okey = true →
  ∃ s' G',
    (add_leaf_child l item ty b1;; add_leaf_child l other ty b2;;
     dirty_up stack key l;; mret true) s = Ok (true, s') ∧
    tree_inv root (nibbles key) 0 G' s' ∧ step_frame G G' s s' ∧
    (∀ q it, leaf_at s' G' q it ↔
       leaf_at s G q it ∨ q = take (S e) (nibbles key) ∧ it = item ∨
       q = take (S e) (nibbles okey) ∧ it = other).
Proof.
  intros [[Hne1 Hne2]%andb_true_iff Hre]%andb_true_iff.
  apply bool_decide_eq_true in Hne1, Hne2.
  pose proof (length_nibbles_wf _ Hkey) as Lk.
  destruct (add_two_leaves Hne1 Hne2)
    as (s2 & G2 & n2' & Hrun & Hinv2 & Hfr2 & Hmem & Hn2 & Hh2 & Hnd2 & Hlf).
  pose proof (Hmem _ _ (sp_place _ _ _ _ _ _ _ _ _ Hsp)) as Hl2.
  destruct (dirty_up_spec root key G2 e Hkey ltac:(lia) s2 stack l n2')
    as (s' & Hrun' & Hinv' & Hsame);
    [done|eapply stack_ok_mono, sp_stack; done|done|done|..].
  { rewrite Hh2, <-Hre. apply rehash_ext. intros j Hj. f_equal. apply Hnd2.
    rewrite length_take. lia. }
  exists s', G2. split_and!; [|done|..].
  - apply bind_inv in Hrun as ([] & s1 & Hr1 & Hr2). step Hr1. step Hr2. by step Hrun'.
  - eapply step_frame_trans; [done|by eapply same_off_path_frame].
  - intros q it. rewrite <-Hlf.
    exact (leaf_at_off_path root _ _ _ e _ _ _ q it Hinv2 Hinv' ltac:(lia) ltac:(eauto) Hsame).
Qed.
End add_two.
End insert.
