(* ===== verification/MerkleOps.v ===== *)
(** * The operations of the tree as operations on a finite map

    Lookup, insertion, update and construction, each with its error case, proved
    against the abstract value of the tree. *)

From S2P Require Import Prelude BaseUint Serializer MerkleNode Database MerkleTree MerkleInv.
From S2P Require Import MerkleLoad MerkleMap MerkleAdd MerkleInsert.

(** ** Views up to child pointers *)

Definition view_eq : relation (path → option RadixMerkleTreeNode) :=
  pointwise_relation path (λ x y, erase <$> x = erase <$> y).

#[export] Instance view_eq_equiv : Equivalence view_eq.
Proof.
  split; [by intros v q|by intros v w E q; symmetry; apply E|].
  intros u v w E1 E2 q. etrans; [apply E1|apply E2].
Qed.

(** A function of a node that does not look at the child pointers. *)
Lemma erase_invariant {A} (f : RadixMerkleTreeNode → A) n n' :
  (∀ n, f n = f (erase n)) → erase n = erase n' → f n = f n'.
Proof. intros Hf E. by rewrite Hf, E, <-Hf. Qed.

Section rehashing.
Context `{SHA512} `{Indeterminate}.
Implicit Types (v : path → option RadixMerkleTreeNode) (k : path) (key : uint256).

(** The node at which the descent along [k] stops, and its depth. *)
Fixpoint stop_from v k (fuel d : nat) : option (nat * RadixMerkleTreeNode) :=
  match fuel with
  | O => None
  | S fuel =>
      n ← v (take d k);
      if is_inner n then
        b ← k !! d;
        if is_empty_branch n b then Some (d, n) else stop_from v k fuel (S d)
      else Some (d, n)
  end.

(** Every rehashing of [add_given_item] for [key] changes the hash it replaces. *)
Definition add_rehash v key : bool :=
  let k := nibbles key in
  match stop_from v k depth_fuel 0 with
  | None => false
  | Some (d, n) =>
      if is_inner n then rehash v k (S d) key
      else match item_ n with
           | None => false
           | Some other =>
               let okey := index_ other in
               let e := first_diff k (nibbles okey) depth_fuel d in
               let t := is_transaction_tree_ n in
               match k !! e, nibbles okey !! e with
               | Some b1, Some b2 =>
                   split_rehash (split_view v k t d e) k e (split_shell t d e) b1 b2 key okey
               | _, _ => false
               end
           end
  end.

Lemma view_eq_Some v v' p n :
  view_eq v v' → v p = Some n → ∃ n', v' p = Some n' ∧ erase n = erase n'.
Proof.
  intros Hv Hn. specialize (Hv p). cbn in Hv. rewrite Hn in Hv.
  destruct (v' p) as [n'|]; [|done]. injection Hv as ?. exists n'.
  split; [done|]. unfold erase. by f_equal.
Qed.

Lemma view_eq_None v v' p : view_eq v v' → v p = None → v' p = None.
Proof. intros Hv Hn. specialize (Hv p). cbn in Hv. rewrite Hn in Hv. by destruct (v' p). Qed.

#[export] Instance rehash_proper :
  Proper (view_eq ==> eq ==> eq ==> eq ==> eq) rehash.
Proof. intros v v' Hv k ? <- d ? <- h ? <-. apply rehash_ext. intros. apply Hv. Qed.

#[export] Instance split_view_proper :
  Proper (view_eq ==> eq ==> eq ==> eq ==> eq ==> view_eq) split_view.
Proof.
  intros v v' Hv k ? <- t ? <- d ? <- e ? <- q. unfold split_view. case_decide; [done|apply Hv].
Qed.

#[export] Instance split_rehash_proper :
  Proper (view_eq ==> eq ==> eq ==> eq ==> eq ==> eq ==> eq ==> eq ==> eq) split_rehash.
Proof.
  intros v v' Hv k ? <- e ? <- sh ? <- b1 ? <- b2 ? <- key ? <- okey ? <-.
  unfold split_rehash. by rewrite Hv.
Qed.

Lemma stop_from_ext v v' k fuel d :
  view_eq v v' → prod_map id erase <$> stop_from v k fuel d = prod_map id erase <$> stop_from v' k fuel d.
Proof.
  intros Hv. revert d. induction fuel as [|fuel IH]; intros d; [done|]. cbn [stop_from].
  destruct (v (take d k)) as [n|] eqn:Hn.
  - destruct (view_eq_Some _ _ _ _ Hv Hn) as (n' & -> & E). cbn [mbind option_bind].
    rewrite (erase_invariant is_inner n n') by done. destruct (is_inner n').
    + destruct (k !! d) as [b|]; [|done]. cbn [mbind option_bind].
      rewrite (erase_invariant (λ n, is_empty_branch n b) n n') by done.
      destruct (is_empty_branch n' b); [cbn; by rewrite E|apply IH].
    + cbn. by rewrite E.
  - by rewrite (view_eq_None _ _ _ Hv Hn).
Qed.


#[export] Instance add_rehash_proper : Proper (view_eq ==> eq ==> eq) add_rehash.
Proof.
  intros v v' Hv key ? <-. unfold add_rehash.
  pose proof (stop_from_ext v v' (nibbles key) depth_fuel 0 Hv) as E.
  destruct (stop_from v _ _ _) as [[d n]|], (stop_from v' _ _ _) as [[d' n']|]; [|done..].
  cbn in E. injection E as <- E1 E2 E3 E4 E5 E6. unfold is_inner. rewrite E5, E3, E4.
  case_bool_decide; [by rewrite Hv|]. destruct (item_ n'); [|done].
  do 2 (destruct (_ !! _); [|done]). by rewrite Hv.
Qed.
End rehashing.

Section operations.
Context `{SHA512} `{Indeterminate} {D : Type} `{RocksDBLaws D}.
Implicit Types (s : store_t D) (G : gmap path place) (k p q : path) (n : RadixMerkleTreeNode).
Implicit Types (key : uint256) (item it : RadixMerkleTreeLeaf).
Implicit Types (m : gmap uint256 RadixMerkleTreeLeaf).

Lemma path_present root k mm G s p e j :
  tree_inv root k mm G s → is_Some (G !! take e p) → j ≤ e → e ≤ length p → is_Some (G !! take j p).
Proof.
  intros Hinv He Hj Hp. destruct (decide (j = e)) as [->|]; [done|].
  destruct (path_inner _ _ _ _ _ e p Hinv He j) as (x & Hx & _); [lia..|].
  apply nd_Some in Hx as (pl & -> & _). eauto.
Qed.

Lemma stop_from_stops root G s key e l n :
  wf256 key → tree_inv root [] 0 G s → stops_at s G key e l n →
  stop_from (nd s G) (nibbles key) depth_fuel 0 = Some (e, n).
Proof.
  intros Hkey Hinv [He Hl Hn Hwhy]. pose proof (length_nibbles_wf _ Hkey) as Lk.
  enough (∀ fuel j, j ≤ e → 65 ≤ fuel + j → stop_from (nd s G) (nibbles key) fuel j = Some (e, n))
    as Hx by (apply Hx; unfold depth_fuel; lia).
  induction fuel as [|fuel IH]; intros j Hj Hf; [lia|]. cbn [stop_from].
  destruct (decide (j = e)) as [->|Hne].
  - rewrite (nd_Mem _ _ _ _ Hl), Hn. cbn [mbind option_bind].
    destruct Hwhy as [-> | (-> & b & -> & Hb)]; [done|]. cbn. by rewrite Hb.
  - destruct (path_inner _ _ _ _ _ e (nibbles key) Hinv ltac:(eauto) j) as (x & Hx & Hxi); [lia..|].
    destruct (lookup_lt_is_Some_2 (nibbles key) j) as [b Hb]; [lia|].
    rewrite Hx, Hb. cbn [mbind option_bind]. rewrite Hxi.
    destruct (is_empty_branch x b) eqn:Hemp; [|apply IH; lia]. exfalso.
    pose proof (nibble_lt _ _ _ Hb).
    destruct (ti_empty _ _ _ _ _ Hinv _ _ b Hx Hxi) as [Hnone _]; [done|unfold stale; lia|done|].
    rewrite <-(take_S_path _ _ _ Hb) in Hnone.
    destruct (path_present _ _ _ _ _ (nibbles key) e (S j) Hinv ltac:(eauto)); [lia..|congruence].
Qed.

(** ** Insertion *)

(** Replacing the leaf at depth [d] by a chain of inner nodes removes that leaf only. *)
Lemma split_leaves root k t d e G s s1 G1 n other q it :
  tree_inv root k 0 G s → d ≤ e ≤ length k → nd s G (take d k) = Some n → is_inner n = false →
  item_ n = Some other → (∀ q, nd s1 G1 q = split_view (nd s G) k t d e q) →
  leaf_at s G q it ↔ leaf_at s1 G1 q it ∨ q = take d k ∧ it = other.
Proof.
  intros Hinv He Hn Hi Hit Hv. unfold leaf_at at 2. rewrite Hv. unfold split_view.
  case_decide as E.
  - destruct E as [Hl Eq].
    assert (leaf_at s G q it → q = take d k) as Hq.
    { intros (x & (pl & Hg & _)%nd_Some & _ & _). rewrite Eq in Hg. apply dec_stable. intros Hne.
      assert (d ≠ length q) by congruence.
      destruct (path_inner _ _ _ _ _ (length q) k Hinv ltac:(eauto) d) as (y & Hy & Hyi); [lia..|].
      congruence. }
    split.
    + intros Hlf. right. pose proof (Hq Hlf) as ->. split; [done|].
      destruct Hlf as (x & Hx & _ & Hxt). congruence.
    + intros [(x & [= <-] & [=] & _)|[-> ->]]. by exists n.
  - split; [by left|]. intros [?|[-> ->]]; [done|]. by exists n.
Qed.

(** The state after [make_inner] on the leaf. *)
Lemma split_start root key d G s l n stack t :
  wf256 key → tree_inv root (nibbles key) 0 G s → stack_ok G (nibbles key) d stack → d < 64 →
  G !! take d (nibbles key) = Some (Mem l) → heap s !! l = Some n → is_inner n = false →
  let s0 := write_at s l (inner_shell t uint256_zero) in
  splitting root (nibbles key) t d d G s0 l stack ∧
  ∀ q, nd s0 G q = split_view (nd s G) (nibbles key) t d d q.
Proof.
  intros Hkey Hinv Hst Hd Hl Hn Hi s0. apply length_nibbles_wf in Hkey as Lk.
  destruct (lookup_lt_is_Some_2 (nibbles key) d) as [b Hb]; [lia|].
  assert (split_shell t d d = inner_shell t uint256_zero) as Esh
    by (unfold split_shell; by rewrite bool_decide_true).
  split.
  - constructor; [by eapply convert_step|done| |by eapply leaf_no_child|done].
    rewrite Esh. apply lookup_insert_eq.
  - intros q. unfold s0. rewrite (nd_convert root (nibbles key) d G s l t Hinv Hl).
    case_decide as E.
    + subst q. rewrite split_view_on by lia. by rewrite Esh.
    + rewrite split_view_off; [done|]. intros j Hj. by replace j with d by lia.
Qed.

(** From the leaf the descent stops at to the inner node where the keys part. *)
Lemma split_reach root key d G s l n stack other :
  wf256 key → tree_inv root [] 0 G s → stack_ok G (nibbles key) d stack →
  stops_at s G key d l n → is_inner n = false → item_ n = Some other → index_ other ≠ key →
  let okey := index_ other in
  let t := is_transaction_tree_ n in
  let e := first_diff (nibbles key) (nibbles okey) depth_fuel d in
  ∃ b1 b2 l1 stack1 G1 s1,
    (∀ B (K : loc * LeafStack * nat * nat → prog (store_t D) B),
       (call l (λ n, Ok (tt, make_inner n));;
        r ← split_loop depth_fuel key okey l d stack; K r) s = K (l1, stack1, b1, b2) s1) ∧
    wf256 okey ∧ d ≤ e < 64 ∧ take e (nibbles key) = take e (nibbles okey) ∧
    nibbles key !! e = Some b1 ∧ nibbles okey !! e = Some b2 ∧ b1 ≠ b2 ∧
    splitting root (nibbles key) t d e G1 s1 l1 stack1 ∧ step_frame G G1 s s1 ∧
    nd s G (take d (nibbles key)) = Some n ∧
    (∀ q, nd s1 G1 q = split_view (nd s G) (nibbles key) t d e q) ∧
    add_rehash (nd s G) key =
      split_rehash (nd s1 G1) (nibbles key) e (split_shell t d e) b1 b2 key okey.
Proof.
  intros Hkey Hinv Hst Hstop Hi Hit Hne okey t e. pose proof (length_nibbles_wf _ Hkey) as Lk.
  pose proof (stop_from_stops _ _ _ _ _ _ _ Hkey Hinv Hstop) as Hsf. destruct Hstop as [Hd Hl Hn _].
  assert (nd s G (take d (nibbles key)) = Some n) as Hnd by (by rewrite (nd_Mem _ _ _ _ Hl)).
  destruct (leaf_prefix _ _ _ _ _ _ _ _ Hinv Hnd Hi Hit) as (Ep & _ & Hok).
  rewrite length_take, Nat.min_l in Ep by lia.
  assert (d < 64) as Hd64.
  { apply Nat.nle_gt. intros ?. apply length_nibbles_wf in Hok as Lo.
    rewrite !take_ge in Ep by lia. by apply Hne, nibbles_inj. }
  apply (tree_inv_weaken _ _ (nibbles key) 0) in Hinv.
  destruct (split_start _ _ _ _ _ _ _ _ t Hkey Hinv Hst Hd64 Hl Hn Hi) as [Hsp0 Hv0].
  set (s0 := write_at s l _) in *.
  destruct (split_loop_spec root key okey t d (nd s G) depth_fuel Hkey Hok (not_eq_sym Hne)
    d G s0 l stack ltac:(unfold depth_fuel; lia) ltac:(lia) Ep Hsp0 Hv0)
    as (b1 & b2 & l1 & stack1 & G1 & s1 & Hrun & He & Etk & Hb1 & Hb2 & Hbne & Hsp1 & Hv1 & Hfr1).
  exists b1, b2, l1, stack1, G1, s1. fold e in Hb1, Hb2. split_and!; try (done || lia).
  - intros B K. rewrite (bind_Ok _ _ _ tt s0); [by step Hrun|].
    unfold call, load, mbind, prog_bind. by rewrite Hn.
  - eapply step_frame_trans; [by eapply frame_write|done].
  - unfold add_rehash. rewrite Hsf. cbn zeta. rewrite Hi, Hit. fold okey e t. rewrite Hb1, Hb2.
    apply split_rehash_proper; [|done..]. intros q. cbn. by rewrite Hv1.
Qed.

(** The split case, from the leaf the descent stops at. *)
Lemma add_at_leaf root key d G s l n stack item other ty :
  wf256 key → tree_inv root [] 0 G s → stack_ok G (nibbles key) d stack →
  stops_at s G key d l n → is_inner n = false → item_ n = Some other → index_ other ≠ key →
  add_rehash (nd s G) key = true → index_ item = key → leaf_ty ty →
  ∃ s' G',
    (call l (λ n, Ok (tt, make_inner n));;
     r ← split_loop depth_fuel key (index_ other) l d stack;
     let '(node, stack, b1, b2) := r in
     b ← view node is_inner;
     assert b;;
     add_leaf_child node item ty b1;; add_leaf_child node other ty b2;;
     dirty_up stack key node;; mret true) s = Ok (true, s') ∧
    tree_inv root (nibbles key) 0 G' s' ∧ step_frame G G' s s' ∧
    (∀ it, (∃ q, leaf_at s' G' q it) ↔ (∃ q, leaf_at s G q it) ∨ it = item).
Proof.
  intros Hkey Hinv Hst Hstop Hi Hit Hne Hre Hix Hty. pose proof (length_nibbles_wf _ Hkey) as Lk.
  destruct (split_reach _ _ _ _ _ _ _ _ _ Hkey Hinv Hst Hstop Hi Hit Hne)
    as (b1 & b2 & l1 & stack1 & G1 & s1 & Hrun & Hok & He & Etk & Hb1 & Hb2 & Hbne & Hsp1 & Hfr1 & Hnd & Hv1 & Er).
  set (e := first_diff _ _ _ d) in *. set (t := is_transaction_tree_ n) in *. rewrite Er in Hre.
  apply (tree_inv_weaken _ _ (nibbles key) 0) in Hinv.
  destruct (add_two root key (index_ other) t d e b1 b2 G1 s1 l1 stack1 item other ty Hkey Hok
    ltac:(lia) Etk Hb1 Hb2 Hbne Hsp1 Hix eq_refl Hty Hre) as (s' & G' & Hrun' & Hinv' & Hfr' & Hlf).
  exists s', G'. split_and!; [|done|by eapply step_frame_trans|].
  - rewrite Hrun. cbn beta iota. step (run_view s1 l1 _ is_inner (sp_node _ _ _ _ _ _ _ _ _ Hsp1)). exact Hrun'.
  - intros it. setoid_rewrite Hlf.
    setoid_rewrite (λ q, split_leaves _ _ t d e G s s1 G1 n other q it Hinv ltac:(lia) Hnd Hi Hit Hv1).
    split; [intros (q & [?|[[_ ->]|[_ ->]]])|intros [(q & [?|[_ ->]])| ->]]; eauto 10.
Qed.
End operations.

(** * [update_given_item] implements update of a present key *)

Section update.
Context `{SHA512} `{Indeterminate} {D : Type} `{RocksDBLaws D}.
Implicit Types (s : store_t D) (G : gmap path place) (k p q : path) (n x : RadixMerkleTreeNode).
Implicit Types (key : uint256) (item it : RadixMerkleTreeLeaf).
Implicit Types (m : gmap uint256 RadixMerkleTreeLeaf) (v : path → option RadixMerkleTreeNode).

(** ** Replacing a leaf by a leaf *)

Section leaf_step.
Context root k (e mm : nat) G s l n x
  (Hinv : tree_inv root k 0 G s) (He : e ≤ length k)
  (Hl : G !! take e k = Some (Mem l)) (Hn : heap s !! l = Some n)
  (Hleaf : is_inner n = false) (Hxleaf : is_inner x = false)
  (Hx : node_inv (take e k) x) (Hhash : hash_ x = hash_ n ∨ mm = e).

Let s' := write_at s l x.

Lemma nd_leaf q : nd s' G q = if decide (q = take e k) then Some x else nd s G q.
Proof. apply nd_write; [apply Hinv|done]. Qed.

(** An inner node of the new tree is a node of the old one. *)
Lemma nd_leaf_inner q y : nd s' G q = Some y → is_inner y = true → nd s G q = Some y.
Proof. rewrite nd_leaf. case_decide; [|done]. intros [= <-] ?. congruence. Qed.

Lemma leaf_link q i n' h :
  ¬ stale k mm (q ++ [i]) → (∀ n', nd s G (q ++ [i]) = Some n' → hash_ n' = h) →
  nd s' G (q ++ [i]) = Some n' → hash_ n' = h.
Proof.
  intros Hst Hlk. rewrite nd_leaf. case_decide as E; [|apply Hlk]. intros [= <-].
  destruct Hhash as [-> | ->].
  - apply Hlk. by rewrite E, (nd_Mem _ _ _ _ Hl).
  - exfalso. apply Hst. unfold stale. apply (f_equal length) in E as El.
    rewrite length_app, length_take in *. cbn in *.
    rewrite Nat.min_l in El by lia. rewrite El. split; [lia|done].
Qed.

Lemma leaf_step : tree_inv root k mm G s'.
Proof.
  assert (∀ q, ¬ stale k 0 q) as Hns by (unfold stale; lia). constructor.
  - apply Hinv.
  - intros l'. cbn. rewrite lookup_insert. case_decide; [subst l'|apply Hinv].
    intros _. apply (ti_fresh _ _ _ _ _ Hinv). eauto.
  - apply Hinv.
  - intros q pl Hq. enough (is_Some (nd s' G q)) as Hs by (unfold nd in Hs; by rewrite Hq in Hs).
    rewrite nd_leaf. case_decide; [eauto|].
    destruct (ti_total _ _ _ _ _ Hinv _ _ Hq) as [y Hy]. exists y. apply nd_Some. eauto.
  - intros q y. rewrite nd_leaf. case_decide; [|apply Hinv]. intros [= <-]. by subst q.
  - intros q y Hy Hi Hst. eapply (ti_digest _ _ _ _ _ Hinv); [by apply nd_leaf_inner|done|].
    intros i. apply Hns.
  - intros q y i Hy Hi Hlt Hst Hemp.
    eapply (ti_empty _ _ _ _ _ Hinv); eauto using nd_leaf_inner.
  - intros q y i Hy Hi Hlt Hst Hemp.
    destruct (ti_child _ _ _ _ _ Hinv q y i) as (c & h & ? & ? & ? & Hlk);
      eauto using nd_leaf_inner.
    exists c, h. split_and!; [done..|]. intros n'. by apply leaf_link.
  - intros q i (y & Hy & Hi & Hlt)%(ti_parent _ _ _ _ _ Hinv). exists y.
    rewrite nd_leaf, decide_False; [done|]. intros ->.
    rewrite (nd_Mem _ _ _ _ Hl) in Hy. congruence.
Qed.

Lemma leaf_step_leaves item q it :
  item_ x = Some item →
  leaf_at s' G q it ↔ leaf_at s G q it ∧ q ≠ take e k ∨ q = take e k ∧ it = item.
Proof.
  intros Hxi. unfold leaf_at at 1. rewrite nd_leaf. case_decide as E; [subst q|].
  - split; [intros (y & [= <-] & _ & Hy); right; split; congruence|].
    intros [[_ ?]|[_ ->]]; [done|]. by exists x.
  - split; [by left|]. by intros [[? _]|[? _]].
Qed.
End leaf_step.

(** ** The operation *)

(** [n] with the item replaced, before rehashing. *)
Definition with_item n item (ty : TreeNodeType) : RadixMerkleTreeNode :=
  mkNode (hash_ n) (children_hash_ n) (children_ n) (Some item) (is_transaction_tree_ n) ty
    (branch_mask_ n).

(** Every rehashing of [update_given_item] above the leaf changes the hash it
    replaces, unless the leaf keeps its hash. *)
Definition update_rehash v item (is_transaction : bool) : bool :=
  let k := nibbles (index_ item) in
  match stop_from v k depth_fuel 0 with
  | None => false
  | Some (d, n) =>
      let h := node_digest (with_item n item (leaf_type is_transaction)) in
      bool_decide (hash_ n = h) || rehash v k d h
  end.

#[export] Instance update_rehash_proper : Proper (view_eq ==> eq ==> eq ==> eq) update_rehash.
Proof.
  intros v v' Hv item ? <- tx ? <-. unfold update_rehash.
  pose proof (stop_from_ext v v' (nibbles (index_ item)) depth_fuel 0 Hv) as E.
  destruct (stop_from v _ _ _) as [[d n]|], (stop_from v' _ _ _) as [[d' n']|]; [|done..].
  cbn in E. injection E as <- E1 E2 E3 E4 E5 E6.
  unfold node_digest, preimage, with_item. cbn [hash_ children_hash_ item_ type_ branch_mask_
    is_transaction_tree_]. rewrite E1, E2, E4, E6. by rewrite Hv.
Qed.

Lemma is_inner_leaf_type n item b : is_inner (with_item n item (leaf_type b)) = false.
Proof. by destruct b. Qed.

Lemma run_set_item s l n item b :
  heap s !! l = Some n → wf256 (hash_ n) →
  call l (set_item (Some item) (leaf_type b)) s =
    Ok (negb (bool_decide (hash_ n = node_digest (with_item n item (leaf_type b)))),
        write_at s l (set_hash (node_digest (with_item n item (leaf_type b)))
                        (with_item n item (leaf_type b)))).
Proof.
  intros Hl Hw. unfold call, load, mbind, prog_bind. rewrite Hl. unfold set_item.
  change (mkNode _ _ _ _ _ _ _) with (with_item n item (leaf_type b)).
  rewrite update_hash_spec by (destruct b; cbn; eauto).
  rewrite base_uint_eqb_decide; [|done|apply node_digest_wf]. cbn [hash_ with_item].
  case_bool_decide as E; cbn; [|done]. unfold write_at. do 3 f_equal.
  unfold set_hash. cbn. by rewrite <-E.
Qed.

Lemma updated_inv p n item b :
  node_inv p n → is_inner n = false → wf256 (index_ item) → p `prefix_of` nibbles (index_ item) →
  let n' := with_item n item (leaf_type b) in
  node_inv p (set_hash (node_digest n') n').
Proof.
  intros [[? ? ? ? ? ?] Hl] Hi Hw Hp n'. rewrite Hi in Hl. destruct Hl as (_ & _ & _ & _ & Hm). split.
  - constructor; cbn; try done.
    + destruct b; cbn; eauto.
    + apply node_digest_wf.
    + by intros ? [= <-].
  - change (is_inner (set_hash (node_digest n') n')) with (is_inner n').
    unfold n'. rewrite is_inner_leaf_type. exists item. by eauto.
Qed.

Lemma update_at root e G s l n stack item b :
  let key := index_ item in
  wf256 key → tree_inv root [] 0 G s → stack_ok G (nibbles key) e stack →
  stops_at s G key e l n → is_inner n = false →
  update_rehash (nd s G) item b = true →
  ∃ s',
    (changed ← call l (set_item (Some item) (leaf_type b));
     if changed : bool then dirty_up stack key l;; mret true else mret true) s = Ok (true, s') ∧
    tree_inv root (nibbles key) 0 G s' ∧ step_frame G G s s' ∧
    (∀ q it, leaf_at s' G q it ↔
       leaf_at s G q it ∧ q ≠ take e (nibbles key) ∨ q = take e (nibbles key) ∧ it = item).
Proof.
  intros key Hkey Hinv Hst Hstop Hi Hre. pose proof (length_nibbles_wf _ Hkey) as Lk.
  unfold update_rehash in Hre. fold key in Hre. cbn zeta in Hre.
  rewrite (stop_from_stops _ _ _ _ _ _ _ Hkey Hinv Hstop) in Hre.
  destruct Hstop as [He Hl Hn _]. apply (tree_inv_weaken _ _ (nibbles key) 0) in Hinv.
  assert (nd s G (take e (nibbles key)) = Some n) as Hnd by (by rewrite (nd_Mem _ _ _ _ Hl)).
  pose proof (ti_node _ _ _ _ _ Hinv _ _ Hnd) as Hni.
  assert (take e (nibbles key) `prefix_of` nibbles key) as Hpre by (eexists; symmetry; apply take_drop).
  pose proof (updated_inv _ _ item b Hni Hi Hkey Hpre) as Hxi.
  cbn zeta in Hxi. set (x := set_hash _ _) in Hxi.
  assert (is_inner x = false) as Hx by apply (is_inner_leaf_type n item b).
  rewrite (bind_Ok _ _ _ _ _ (run_set_item s l n item b Hn ltac:(by destruct Hni as [[]]))).
  fold x. set (s1 := write_at s l x).
  assert (step_frame G G s s1) as Hfr by (by eapply frame_write).
  assert (∀ q it, leaf_at s1 G q it ↔
    leaf_at s G q it ∧ q ≠ take e (nibbles key) ∨ q = take e (nibbles key) ∧ it = item) as Hlf.
  { intros q it. by apply (leaf_step_leaves root). }
  case_bool_decide as E; cbn [negb].
  - exists s1. split_and!; [done| |done|done]. apply (leaf_step root _ e 0 G s l n x); try done; [lia|].
    left. by rewrite E.
  - assert (tree_inv root (nibbles key) e G s1) as Hinv1 
      by (apply (leaf_step root _ e e G s l n x); try done; [lia|by right]).
    cbn [orb] in Hre.
    destruct (dirty_up_spec root key G e Hkey He s1 stack l x) as (s' & Hrun & Hinv' & Hsame);
      [done|done|done|apply lookup_insert_eq|..].
    { rewrite <-Hre. apply rehash_ext. intros j Hj. f_equal. unfold s1.
      rewrite (nd_leaf root (nibbles key) e G s l x Hinv Hl). rewrite decide_False; [done|].
      apply take_ne_take; lia. }
    exists s'. split_and!; [by step Hrun|done|..].
    + eapply step_frame_trans; [done|by eapply same_off_path_frame].
    + intros q it. rewrite <-Hlf.
      exact (leaf_at_off_path root _ _ _ e _ _ _ q it Hinv1 Hinv' ltac:(lia) ltac:(eauto) Hsame).
Qed.
End update.
