(* ===== verification/MerkleCheck.v ===== *)
(** * Deciding the tree invariant

    For a concrete store the invariant of a tree at rest is decidable, and the
    finite map a tree implements can be computed from its leaves. *)

From S2P Require Import Prelude BaseUint Serializer MerkleNode Database MerkleTree MerkleInv.
From S2P Require Import MerkleLoad MerkleMap MerkleInsert.

#[export] Instance typed_node_dec n : Decision (typed_node n).
Proof. unfold typed_node. destruct (type_ n); apply _. Defined.

#[export] Instance node_wf_dec n : Decision (node_wf n).
Proof.
  destruct (decide (
    (typed_node n ∧ wf256 (hash_ n)) ∧
    (length (children_hash_ n) = 16 ∧ Forall wf256 (children_hash_ n)) ∧
    length (children_ n) = 16 ∧ (0 ≤ branch_mask_ n < 2 ^ 16)%Z ∧
    Forall (λ item, wf256 (index_ item)) (option_list (item_ n)))) as [a|a].
  - left. abstract (destruct a as ((? & ?) & (? & ?) & ? & ? & Hi); constructor; try done;
      intros item E; rewrite E in Hi; by inversion Hi).
  - right. abstract (intros [? ? [? ?] ? ? Hi]; apply a; split_and!; try done; try lia;
      destruct (item_ n); [|by constructor]; apply Forall_singleton; by apply Hi).
Defined.

Section check.
Context `{SHA512} `{Indeterminate} {D : Type} `{RocksDBLaws D}.
Implicit Types (s : store_t D) (G : gmap path place) (p q : path) (n : RadixMerkleTreeNode).

#[export] Instance node_inv_dec p n : Decision (node_inv p n).
Proof.
  unfold node_inv. apply and_dec; [apply _|]. destruct (is_inner n); [apply _|].
  destruct (item_ n) as [item|].
  - destruct (decide (p `prefix_of` nibbles (index_ item) ∧
                      (hash_ n = index_ item ∨ hash_ n = node_digest n) ∧
                      branch_mask_ n = 0%Z)) as [a|a].
    + left. abstract (destruct a; eauto).
    + right. abstract (intros (it & [= <-] & ? & ?); auto).
  - right. abstract (by intros (it & [=] & _)).
Defined.

Definition branch_check s G p n (i : nat) : bool :=
  if is_empty_branch n i then
    bool_decide (G !! (p ++ [i]) = None) && bool_decide (children_ n !! i = Some None)
  else
    match children_ n !! i, children_hash_ n !! i, nd s G (p ++ [i]) with
    | Some c, Some h, Some n' =>
        bool_decide (G !! (p ++ [i]) = Some (child_place c h)) && bool_decide (hash_ n' = h)
    | _, _, _ => false
    end.

Definition parent_check s G p : bool :=
  match reverse p with
  | [] => true
  | i :: q =>
      match nd s G (reverse q) with
      | Some n => is_inner n && bool_decide (i < 16)
      | None => false
      end
  end.

Definition place_check s G p (pl : place) : bool :=
  match node_at s pl with
  | None => false
  | Some n =>
      bool_decide (node_inv p n) && parent_check s G p &&
      (negb (is_inner n) ||
       bool_decide (hash_ n = node_digest n) && forallb (branch_check s G p n) (seq 0 16))
  end.

Definition tree_check (root : loc) G s : bool :=
  bool_decide (G !! [] = Some (Mem root)) &&
  forallb (λ l, bool_decide (l < next_loc s)%positive) (map_to_list (heap s)).*1 &&
  bool_decide (NoDup (map_to_list G).*2) &&
  forallb (λ pp, place_check s G pp.1 pp.2) (map_to_list G).

Lemma place_check_sound s G p pl n :
  place_check s G p pl = true → node_at s pl = Some n →
  node_inv p n ∧ parent_check s G p = true ∧
  (is_inner n = true → hash_ n = node_digest n ∧ ∀ i, i < 16 → branch_check s G p n i = true).
Proof.
  unfold place_check. intros Hc E. rewrite E in Hc.
  apply andb_true_iff in Hc as [[H1'%bool_decide_eq_true H2']%andb_true_iff Hc].
  split_and!; [done..|]. intros Hi. rewrite Hi in Hc. cbn [negb orb] in Hc.
  apply andb_true_iff in Hc as [?%bool_decide_eq_true Hc]. split; [done|].
  intros i Hlt. rewrite forallb_forall in Hc. apply Hc, in_seq. lia.
Qed.

Lemma nodup_places G :
  NoDup (map_to_list G).*2 → ∀ p q pl, G !! p = Some pl → G !! q = Some pl → p = q.
Proof.
  intros Hnd p q pl Hp%elem_of_map_to_list Hq%elem_of_map_to_list.
  apply list_elem_of_lookup in Hp as [i Hi], Hq as [j Hj].
  assert (i = j) as ->.
  { eapply (NoDup_lookup _ i j pl Hnd); by rewrite list_lookup_fmap, ?Hi, ?Hj. }
  congruence.
Qed.

Lemma tree_check_sound root G s : tree_check root G s = true → tree_inv root [] 0 G s.
Proof.
  unfold tree_check. rewrite !andb_true_iff, !forallb_forall, !bool_decide_eq_true.
  intros [[[Hroot Hfresh] Hinj] Hall].
  assert (∀ p pl, G !! p = Some pl → place_check s G p pl = true) as Hpl.
  { intros p pl Hp. apply (Hall (p, pl)). by apply list_elem_of_In, elem_of_map_to_list. }
  assert (∀ p n, nd s G p = Some n → node_inv p n ∧ parent_check s G p = true ∧
    (is_inner n = true → hash_ n = node_digest n ∧
       ∀ i, i < 16 → branch_check s G p n i = true)) as Hn.
  { intros p n (pl & Hp & Hpn)%nd_Some. eapply place_check_sound; eauto. }
  constructor; [done|..].
  - intros l [n Hl]. apply (bool_decide_eq_true (l < next_loc s)%positive), Hfresh.
    apply list_elem_of_In, list_elem_of_fmap. exists (l, n).
    split; [done|]. by apply elem_of_map_to_list.
  - by apply nodup_places.
  - intros p pl Hp%Hpl. unfold place_check in Hp. destruct (node_at s pl); [eauto|done].
  - intros p n Hp. by destruct (Hn _ _ Hp).
  - intros p n Hp Hi _. by apply (proj2 (proj2 (Hn p n Hp))) in Hi as [? _].
  - intros p n i Hp Hi Hlt _ He. destruct (Hn _ _ Hp) as (_ & _ & Hb). apply Hb in Hi as [_ Hb']. clear Hb; rename Hb' into Hb.
    specialize (Hb i Hlt). unfold branch_check in Hb. rewrite He in Hb.
    by apply andb_true_iff in Hb as [?%bool_decide_eq_true ?%bool_decide_eq_true].
  - intros p n i Hp Hi Hlt _ He. destruct (Hn _ _ Hp) as (_ & _ & Hb). apply Hb in Hi as [_ Hb']. clear Hb; rename Hb' into Hb.
    specialize (Hb i Hlt). unfold branch_check in Hb. rewrite He in Hb.
    destruct (children_ n !! i) as [c|], (children_hash_ n !! i) as [h|],
      (nd s G (p ++ [i])) as [n'|]; try done.
    apply andb_true_iff in Hb as [?%bool_decide_eq_true ?%bool_decide_eq_true].
    exists c, h. split_and!; [done..|]. by intros ? [= <-].
  - intros p i [pl Hp]. assert (parent_check s G (p ++ [i]) = true) as Hpc.
    { pose proof (Hpl _ _ Hp) as Hc. unfold place_check in Hc.
      destruct (node_at s pl) eqn:E; [|done].
      by apply andb_true_iff in Hc as [[_ ?]%andb_true_iff _]. }
    unfold parent_check in Hpc. rewrite reverse_snoc in Hpc.
    rewrite reverse_involutive in Hpc. destruct (nd s G p) as [n|]; [|done].
    apply andb_true_iff in Hpc as [? ?%bool_decide_eq_true]. eauto.
Qed.

(** ** The finite map of a tree *)

Definition leaf_entry s (pp : path * place) : option (uint256 * RadixMerkleTreeLeaf) :=
  n ← node_at s pp.2;
  if is_inner n then None else it ← item_ n; Some (index_ it, it).

Definition contents s G : gmap uint256 RadixMerkleTreeLeaf :=
  list_to_map (omap (leaf_entry s) (map_to_list G)).

Lemma leaf_entry_holds s G key it :
  (key, it) ∈ omap (leaf_entry s) (map_to_list G) ↔ holds s G key it.
Proof.
  rewrite list_elem_of_omap. unfold leaf_entry, holds. split.
  - intros ([p pl] & Hp%elem_of_map_to_list & E). cbn in E. exists p.
    destruct (node_at s pl) as [n|] eqn:En; [|done]. cbn in E. exists n.
    destruct (is_inner n); [done|]. destruct (item_ n); [|done]. cbn in E. simplify_eq.
    split_and!; [|done..]. apply nd_Some. eauto.
  - intros (p & n & (pl & Hp & En)%nd_Some & Hi & Hit & <-). exists (p, pl). cbn.
    rewrite En. cbn. rewrite Hi, Hit. split; [by apply elem_of_map_to_list|done].
Qed.

(** A key has at most one leaf. *)
Lemma holds_unique root G s key it it' :
  tree_inv root [] 0 G s → holds s G key it → holds s G key it' → it = it'.
Proof.
  intros Hinv. assert (∀ it it' p n p' n',
    nd s G p = Some n → is_inner n = false → item_ n = Some it → index_ it = key →
    nd s G p' = Some n' → is_inner n' = false → item_ n' = Some it' → index_ it' = key →
    length p ≤ length p' → it = it') as Hx.
  { clear it it'. intros it it' p n p' n' Hn Hi Hit Hk Hn' Hi' Hit' Hk' Hle.
    destruct (leaf_prefix _ _ _ _ _ _ _ _ Hinv Hn Hi Hit) as (Ep & Lp & Hw).
    destruct (leaf_prefix _ _ _ _ _ _ _ _ Hinv Hn' Hi' Hit') as (Ep' & Lp' & _).
    apply length_nibbles_wf in Hw. rewrite Hk, Hk' in *.
    destruct (decide (length p = length p')) as [E|].
    { rewrite Ep, E, <-Ep' in Hn. congruence. }
    destruct (path_inner _ _ _ _ _ (length p') (nibbles key) Hinv) with (length p)
      as (x & Hx & Hxi); [|lia..|].
    - rewrite <-Ep'. apply nd_Some in Hn' as (? & -> & _). eauto.
    - rewrite <-Ep in Hx. congruence. }
  intros (p & n & ? & ? & ? & ?) (p' & n' & ? & ? & ? & ?).
  destruct (decide (length p ≤ length p')).
  - by eapply (Hx it it' p n p' n').
  - symmetry. eapply (Hx it' it p' n' p n); (done || lia).
Qed.

(** Every tree that satisfies the invariant implements a finite map. *)
Lemma abs_contents root G s : tree_inv root [] 0 G s → abs s G (contents s G).
Proof.
  intros Hinv key it. rewrite <-leaf_entry_holds. unfold contents.
  split; [apply elem_of_list_to_map_2|]. intros Hin.
  apply elem_of_list_to_map_1'; [|done]. intros it' Hin'.
  rewrite leaf_entry_holds in Hin, Hin'. by eapply holds_unique.
Qed.
End check.
