(* ===== verification/Instances.v ===== *)
(** * Concrete parameters

    Instances of the parameters of the development, on which its theorems are
    evaluated: a digest function with 64-byte results, contents for uninitialised
    hashes, and the finite-map database of [Database].  Nothing outside concrete
    evaluations depends on them. *)

From S2P Require Import Prelude BaseUint Serializer MerkleNode Database MerkleTree MerkleInv.
From S2P Require Import MerkleLoad MerkleMap MerkleAdd.
From S2P Require Import MerkleInsert MerkleOps MerkleCheck.

(** A polynomial digest of the message and its length. *)
Definition poly_digest (m : bytes) : bytes :=
  le_split 64 (foldl (λ a b, Z.land (a * 1000003 + byte.unsigned b + 1) 0xffffffffffffffff)%Z
                 (Z.of_nat (length m)) m).

#[local] Instance poly_SHA512 : SHA512 := {|
  sha512 := poly_digest;
  sha512_length m := length_le_split 64 _;
|}.

#[local] Instance zero_Indeterminate : Indeterminate.
Proof.
  refine {| indet_hash := uint256_zero; indet_hashes := replicate 16 uint256_zero |}.
  - reflexivity.
  - split; [done|]. by apply Forall_replicate.
Defined.

(** A process that has just started, on an empty database. *)
Definition empty_store : store_t (gmap bytes bytes) := mkStore ∅ 1%positive ∅.

(** The key whose first byte is [a] and second byte is [b], and an item of data [d]. *)
Definition ex_key (a b : byte) : uint256 := a :: b :: replicate 30 Byte.x07.
Definition ex_item (a b : byte) (d : string) : RadixMerkleTreeLeaf :=
  mkLeaf (ex_key a b) (mkSerializer (str d)).

(** The result of a run that succeeds, and its final store. *)
Definition run_store {A} (c : prog (store_t (gmap bytes bytes)) A)
    (s : store_t (gmap bytes bytes)) : store_t (gmap bytes bytes) :=
  match c s with Ok (_, s') => s' | Err _ => s end.

(** A tree with one item. *)
Definition ex_tree : RadixMerkleTree := mkTree 1%positive 0 STATE_VALID TYPE_ACCOUNT_TREE.
Definition ex_store0 := run_store (RadixMerkleTree_new false 0) empty_store.
Definition ex_ghost0 : gmap path place := {[ [] := Mem 1%positive ]}.
Definition ex_store1 := run_store (add_item ex_tree (ex_item Byte.x12 Byte.x34 "abc") false) ex_store0.
Definition ex_ghost1 : gmap path place := {[ [] := Mem 1%positive; [1] := Mem 2%positive ]}.

Lemma ex_tree0_ok : tree_inv 1%positive [] 0 ex_ghost0 ex_store0.
Proof. apply tree_check_sound. vm_compute. reflexivity. Qed.

Lemma ex_tree1_ok : tree_inv 1%positive [] 0 ex_ghost1 ex_store1.
Proof. apply tree_check_sound. vm_compute. reflexivity. Qed.
