(* ===== verification/MerkleSpec.v ===== *)
(** * What the radix Merkle tree promises

    The operations of [RadixMerkleTree] against the finite map it implements, with
    the error behaviour of each. *)

From S2P Require Import Prelude BaseUint Serializer MerkleNode Database MerkleTree MerkleInv.
From S2P Require Import MerkleLoad MerkleMap MerkleAdd.
From S2P Require Import MerkleInsert MerkleOps MerkleCheck Instances.

Section spec.
Context `{SHA512} `{Indeterminate} {D : Type} `{RocksDBLaws D}.
Implicit Types (s : store_t D) (G : gmap path place) (key : uint256).
Implicit Types (item it : RadixMerkleTreeLeaf) (m : gmap uint256 RadixMerkleTreeLeaf).

Lemma same_view_eq s G s' G' : same_view s G s' G' → view_eq (nd s' G') (nd s G).
Proof. intros Hv q. apply Hv. Qed.

Lemma tree_rest root k G s : tree_inv root k 0 G s → tree_inv root [] 0 G s.
Proof. apply tree_inv_weaken. Qed.

(** The start of an operation that changes the tree: [get_stack] reaches the node
    where the descent stops, and the tree is as before. *)
Lemma start t key G s m :
  wf256 key → tree_inv (root_ t) [] 0 G s → abs s G m →
  ∃ e l n stack s' G',
    get_stack t key s = Ok ((l, e) :: stack, s') ∧ tree_inv (root_ t) [] 0 G' s' ∧
    step_frame G G' s s' ∧ view_eq (nd s' G') (nd s G) ∧ abs s' G' m ∧
    stack_ok G' (nibbles key) e stack ∧ stops_at s' G' key e l n ∧
    ∀ it, m !! key = Some it ↔ is_inner n = false ∧ item_ n = Some it ∧ index_ it = key.
Proof.
  intros Hk Hinv Ha.
  destruct (get_stack_spec t key G s Hk Hinv) as (e & l & n & stack & s' & G' & Hrun & Hrd & Hst & Hstop).
  destruct Hrd as [Hinv' Hv Hfr _]. pose proof (abs_view _ _ _ _ _ Hv Ha) as Ha'.
  exists e, l, n, stack, s', G'. split_and!; try done.
  intros it. rewrite (Ha' key it). by eapply holds_stops.
Qed.

Lemma add_insert t item b G s m :
  wf256 (index_ item) → tree_inv (root_ t) [] 0 G s → abs s G m →
  m !! index_ item = None → add_rehash (nd s G) (index_ item) = true →
  ∃ s' G', add_item t item b s = Ok (true, s') ∧ tree_inv (root_ t) [] 0 G' s' ∧
    abs s' G' (<[index_ item := item]> m) ∧ step_frame G G' s s'.
Proof.
  intros Hk Hinv Ha Hm Hre.
  destruct (start t _ _ _ _ Hk Hinv Ha)
    as (e & l & n & stack & s1 & G1 & Hrun & Hinv1 & Hfr1 & Hv & Ha1 & Hst & Hstop & Hit).
  rewrite <-Hv in Hre. unfold add_item, add_given_item, get_index. step Hrun.
  pose proof (st_node _ _ _ _ _ _ Hstop) as Hn. step (run_view s1 l n is_inner Hn).
  destruct (is_inner n) eqn:Hi.
  - pose proof (stop_from_stops _ _ _ _ _ _ _ Hk Hinv1 Hstop) as Hsf.
    unfold add_rehash in Hre. rewrite Hsf in Hre. cbn zeta in Hre. rewrite Hi in Hre.
    destruct Hstop as [He Hl _ [?|(_ & b0 & Hb & Hemp)]]; [congruence|].
    step (lift_Ok _ s1 _ (select_branch_Ok _ _ _ Hb)).
    step (run_view s1 l n (λ n, is_empty_branch n b0) Hn). step (assert_true _ s1 Hemp).
    destruct (inner_depth _ _ _ _ _ _ _ _ _ Hk Hinv1 Hl Hn Hi He) as [He64 _].
    destruct (add_at_inner _ _ _ _ _ _ _ _ _ item (leaf_type b) Hk Hinv1 Hst He64 Hl Hn Hi Hb Hemp
      Hre eq_refl (leaf_type_ty b)) as (s' & G' & Hrun' & Hinv' & Hfr' & Hlf).
    exists s', G'. split_and!; [done|by eapply tree_rest| |by eapply step_frame_trans].
    eapply (abs_insert s1 G1); [done..|]. intros it. setoid_rewrite Hlf.
    split; [intros (q & [?|[_ ->]])|intros [[q ?]| ->]]; eauto.
  - destruct (stop_leaf _ _ _ _ _ _ _ _ _ Hinv1 Hstop Hi) as (other & Hot & Hok).
    step (run_view s1 l n peek_leaf Hn). unfold peek_leaf. rewrite Hot.
    assert (index_ other ≠ index_ item) as Hne.
    { intros E. rewrite (proj2 (Hit other)) in Hm; done. }
    unfold get_index. rewrite (bind_Ok _ _ _ tt s1).
    2:{ apply assert_true. unfold base_uint_neqb. rewrite base_uint_eqb_decide by done.
        by rewrite bool_decide_false by congruence. }
    cbn zeta. destruct (add_at_leaf _ _ _ _ _ _ _ _ item other (leaf_type b) Hk Hinv1 Hst Hstop Hi Hot Hne
      Hre eq_refl (leaf_type_ty b)) as (s' & G' & Hrun' & Hinv' & Hfr' & Hlf).
    exists s', G'. split_and!; [done|by eapply tree_rest| |by eapply step_frame_trans].
    by eapply (abs_insert s1 G1).
Qed.

Lemma add_duplicate t item b G s m :
  wf256 (index_ item) → tree_inv (root_ t) [] 0 G s → abs s G m →
  is_Some (m !! index_ item) → add_item t item b s = Err AssertFailed.
Proof.
  intros Hk Hinv Ha [it Hm].
  destruct (start t _ _ _ _ Hk Hinv Ha)
    as (e & l & n & stack & s1 & G1 & Hrun & _ & _ & _ & _ & _ & Hstop & Hit).
  apply Hit in Hm as (Hi & Hot & Hix). pose proof (st_node _ _ _ _ _ _ Hstop) as Hn.
  unfold add_item, add_given_item, get_index. step Hrun.
  step (run_view s1 l n is_inner Hn). rewrite Hi. step (run_view s1 l n peek_leaf Hn).
  unfold peek_leaf. rewrite Hot. apply bind_Err. unfold base_uint_neqb, get_index, assert.
  rewrite Hix, base_uint_eqb_decide by done. by rewrite bool_decide_true.
Qed.

Lemma abs_replace s G s' G' m item q0 :
  abs s G m → wf256 (index_ item) →
  (∀ q it, leaf_at s G q it → index_ it = index_ item → q = q0) →
  (∀ q it, leaf_at s' G' q it ↔ leaf_at s G q it ∧ q ≠ q0 ∨ q = q0 ∧ it = item) →
  (∀ it, leaf_at s G q0 it → index_ it = index_ item) →
  abs s' G' (<[index_ item := item]> m).
Proof.
  intros Ha Hw Hu Hl Hq0 key it. rewrite holds_leaf_at. setoid_rewrite Hl.
  specialize (Ha key it). rewrite holds_leaf_at in Ha.
  destruct (decide (key = index_ item)) as [->|Hne].
  - rewrite lookup_insert_eq. split.
    + intros [= <-]. eauto.
    + intros [(q & [[Hlf Hq]|[-> ->]]) E]; [|done]. by destruct Hq; eapply Hu.
  - rewrite lookup_insert_ne, Ha by done. split.
    + intros [[q Hlf] E]. split; [|done]. exists q. left. split; [done|]. intros ->.
      apply Hne. rewrite <-E. by apply Hq0.
    + intros [(q & [[Hlf Hq]|[-> ->]]) E]; [eauto|congruence].
Qed.

Lemma update_replace t item b G s m :
  wf256 (index_ item) → tree_inv (root_ t) [] 0 G s → abs s G m →
  is_Some (m !! index_ item) → update_rehash (nd s G) item b = true →
  ∃ s' G', update_given_item t item b s = Ok (true, s') ∧ tree_inv (root_ t) [] 0 G' s' ∧
    abs s' G' (<[index_ item := item]> m) ∧ step_frame G G' s s'.
Proof.
  intros Hk Hinv Ha [it0 Hm] Hre.
  destruct (start t _ _ _ _ Hk Hinv Ha)
    as (e & l & n & stack & s1 & G1 & Hrun & Hinv1 & Hfr1 & Hv & Ha1 & Hst & Hstop & Hit).
  apply Hit in Hm as (Hi & Hot & Hix). rewrite <-Hv in Hre.
  pose proof (st_node _ _ _ _ _ _ Hstop) as Hn.
  destruct (update_at _ _ _ _ _ _ _ item b Hk Hinv1 Hst Hstop Hi Hre)
    as (s' & Hrun' & Hinv' & Hfr' & Hlf).
  exists s', G1. split_and!; [|by eapply tree_rest| |by eapply step_frame_trans].
  - unfold update_given_item, get_index. step Hrun.
    step (run_view s1 l n is_inner Hn). rewrite Hi. step (assert_true true s1 eq_refl).
    step (run_leaf_of s1 l n it0 Hn Hot). rewrite (bind_Ok _ _ _ tt s1); [done|].
    apply assert_true. by rewrite Hix, base_uint_eqb_decide, bool_decide_true.
  - eapply (abs_replace s1 G1); [done|done| |exact Hlf|].
    + intros q it (n' & Hn' & Hi' & Hit') Eix. by eapply stops_unique.
    + intros it (n' & Hn' & _ & Hit'). destruct Hstop as [_ Hl _ _].
      rewrite (nd_Mem _ _ _ _ Hl) in Hn'. congruence.
Qed.

Lemma update_absent t item b G s m :
  wf256 (index_ item) → tree_inv (root_ t) [] 0 G s → abs s G m →
  m !! index_ item = None → update_given_item t item b s = Err AssertFailed.
Proof.
  intros Hk Hinv Ha Hm.
  destruct (start t _ _ _ _ Hk Hinv Ha)
    as (e & l & n & stack & s1 & G1 & Hrun & Hinv1 & _ & _ & _ & _ & Hstop & Hit).
  pose proof (st_node _ _ _ _ _ _ Hstop) as Hn.
  unfold update_given_item, get_index. step Hrun. step (run_view s1 l n is_inner Hn).
  destruct (is_inner n) eqn:Hi; [done|]. step (assert_true true s1 eq_refl).
  destruct (stop_leaf _ _ _ _ _ _ _ _ _ Hinv1 Hstop Hi) as (other & Hot & Hok).
  step (run_leaf_of s1 l n other Hn Hot). apply bind_Err. unfold assert.
  rewrite base_uint_eqb_decide by done. rewrite bool_decide_false; [done|].
  intros E. rewrite (proj2 (Hit other)) in Hm; done.
Qed.

Lemma new_tree_empty b seq s :
  (∀ l, is_Some (heap s !! l) → (l < next_loc s)%positive) →
  ∃ t s' G, RadixMerkleTree_new b seq s = Ok (t, s') ∧ tree_inv (root_ t) [] 0 G s' ∧
    abs s' G ∅ ∧ rocks s' = rocks s ∧ (∀ p pl, G !! p = Some pl → pl = Mem (next_loc s)) ∧
    step_frame ∅ G s s'.
Proof.
  intros Hfresh. set (n := inner_shell b (node_digest (inner_shell b []))).
  set (s' := alloc_at s n). set (G := {[ [] := Mem (next_loc s) ]} : gmap path place).
  assert (nd s' G [] = Some n) as Hn.
  { rewrite (nd_Mem _ _ _ (next_loc s)) by apply lookup_singleton_eq. apply lookup_insert_eq. }
  assert (∀ p x, nd s' G p = Some x → p = [] ∧ x = n) as Hnd.
  { intros p x Hx. pose proof Hx as (pl & Hg & _)%nd_Some.
    apply lookup_singleton_Some in Hg as [<- _]. by simplify_eq. }
  eexists (mkTree (next_loc s) seq STATE_VALID _), s', G. split_and!.
  - unfold RadixMerkleTree_new. step (lift_Ok _ s _ (mk_inner_node_spec b)). done.
  - constructor; cbn [root_].
    + apply lookup_singleton_eq.
    + intros l. cbn. rewrite lookup_insert. case_decide; [lia|]. intros ?%Hfresh. lia.
    + intros p q pl [<- _]%lookup_singleton_Some [<- _]%lookup_singleton_Some. done.
    + intros p pl [<- <-]%lookup_singleton_Some. cbn. rewrite lookup_insert_eq. eauto.
    + intros p x [-> ->]%Hnd. apply shell_node_inv; [apply node_digest_wf|cbn; lia].
    + by intros p x [-> ->]%Hnd.
    + intros p x i [-> ->]%Hnd _ Hi _ _. split; [by apply lookup_singleton_ne|]. by apply lookup_replicate_2.
    + intros p x i [-> ->]%Hnd _ _ _ He. by rewrite (childless_empty n) in He.
    + intros p i [pl [E _]%lookup_singleton_Some]. by destruct p.
  - intros key it. rewrite lookup_empty. split; [done|].
    intros (p & x & [-> ->]%Hnd & Hi & _). done.
  - done.
  - by intros p pl [_ <-]%lookup_singleton_Some.
  - constructor.
    + intros l _ Hlt. cbn. apply lookup_insert_ne. lia.
    + done.
    + cbn. lia.
    + intros p pl [_ <-]%lookup_singleton_Some. right. exists (next_loc s). split; [done|lia].
Qed.

Lemma peek_item_lookup t key G s m :
  wf256 key → tree_inv (root_ t) [] 0 G s → abs s G m →
  ∃ s' G', peek_item t key s = Ok (m !! key, s') ∧ reads (root_ t) G s G' s' ∧ abs s' G' m.
Proof.
  intros Hk Hinv Ha.
  destruct (walk_to_leaf_spec t key G s m Hk Hinv Ha) as (r & s' & G' & Hrun & Hrd & Ha' & Hr).
  exists s', G'. split_and!; [|done..]. unfold peek_item. step Hrun.
  destruct r as [l|]; [|by rewrite Hr]. destruct Hr as (n & it & Hn & Hit & ->).
  rewrite (run_view s' l n peek_leaf Hn). unfold peek_leaf. by rewrite Hit.
Qed.

Lemma has_item_lookup t key G s m :
  wf256 key → tree_inv (root_ t) [] 0 G s → abs s G m →
  ∃ s' G', has_item t key s = Ok (bool_decide (is_Some (m !! key)), s') ∧
    reads (root_ t) G s G' s' ∧ abs s' G' m.
Proof.
  intros Hk Hinv Ha.
  destruct (walk_to_leaf_spec t key G s m Hk Hinv Ha) as (r & s' & G' & Hrun & Hrd & Ha' & Hr).
  exists s', G'. split_and!; [|done..]. unfold has_item. step Hrun. unfold mret, prog_ret.
  do 2 f_equal. destruct r as [l|].
  - destruct Hr as (n & it & _ & _ & ->). by rewrite !bool_decide_true by eauto.
  - rewrite Hr, !bool_decide_false; [done|by intros [? [=]]|naive_solver].
Qed.

(** ** The properties *)

(** C8: [RadixMerkleTree::add_item] with a key the tree does not hold returns true
    and the tree then implements the map with the item inserted; the invariant
    holds again and nothing outside the tree's own nodes changes.  The one
    condition beyond absence of the key is that no rehashing on the path hits
    the very hash it replaces, on which the code asserts. *)
Theorem add_item_inserts t item b G s m :
  wf256 (index_ item) → tree_inv (root_ t) [] 0 G s → abs s G m →
  m !! index_ item = None → add_rehash (nd s G) (index_ item) = true →
  ∃ s' G', add_item t item b s = Ok (true, s') ∧ tree_inv (root_ t) [] 0 G' s' ∧
    abs s' G' (<[index_ item := item]> m) ∧ step_frame G G' s s'.
Proof. apply add_insert. Qed.

(** [RadixMerkleTree::add_item] with a key the tree already holds stops at the
    assertion: an item is never added twice. *)
Theorem add_item_rejects_duplicate t item b G s m :
  wf256 (index_ item) → tree_inv (root_ t) [] 0 G s → abs s G m →
  is_Some (m !! index_ item) → add_item t item b s = Err AssertFailed.
Proof. apply add_duplicate. Qed.


(** [RadixMerkleTree::update_given_item] with a key the tree does not hold stops
    at an assertion. *)
Theorem update_given_item_rejects_absent t item b G s m :
  wf256 (index_ item) → tree_inv (root_ t) [] 0 G s → abs s G m →
  m !! index_ item = None → update_given_item t item b s = Err AssertFailed.
Proof. apply update_absent. Qed.

(** C21: [peek_item] and [has_item] are lookup and membership in the map the tree
    implements; they terminate within the 65 levels, and apart from loading nodes
    from the database leave the tree as it is. *)
Theorem lookups_correct t key G s m :
  wf256 key → tree_inv (root_ t) [] 0 G s → abs s G m →
  (∃ s' G', peek_item t key s = Ok (m !! key, s') ∧
     reads (root_ t) G s G' s' ∧ abs s' G' m) ∧
  (∃ s' G', has_item t key s = Ok (bool_decide (is_Some (m !! key)), s') ∧
     reads (root_ t) G s G' s' ∧ abs s' G' m).
Proof. intros. split; [by apply peek_item_lookup|by apply has_item_lookup]. Qed.
End spec.

(** ** Concrete evaluations *)

Section witnesses.
#[local] Existing Instance poly_SHA512.
#[local] Existing Instance zero_Indeterminate.

Definition ex_item2 := ex_item Byte.x12 Byte.x35 "def".
Definition ex_item1' := ex_item Byte.x12 Byte.x34 "xyz".
Definition ex_map1 := contents ex_store1 ex_ghost1.

Lemma add_item_inserts_witness :
  wf256 (index_ ex_item2) ∧ ex_map1 !! index_ ex_item2 = None ∧
  ∃ s' G', add_item ex_tree ex_item2 false ex_store1 = Ok (true, s') ∧
    tree_inv 1%positive [] 0 G' s' ∧
    abs s' G' (<[index_ ex_item2 := ex_item2]> ex_map1) ∧ step_frame ex_ghost1 G' ex_store1 s'.
Proof.
  split; [reflexivity|]. split; [vm_compute; reflexivity|].
  apply (add_item_inserts ex_tree ex_item2 false ex_ghost1 ex_store1 ex_map1).
  - reflexivity.
  - exact ex_tree1_ok.
  - exact (abs_contents _ _ _ ex_tree1_ok).
  - vm_compute. reflexivity.
  - vm_compute. reflexivity.
Defined.


Lemma lookups_correct_witness :
  ex_map1 !! index_ ex_item1' = Some (ex_item Byte.x12 Byte.x34 "abc") ∧
  ∃ s' G', peek_item ex_tree (index_ ex_item1') ex_store1 = Ok (ex_map1 !! index_ ex_item1', s') ∧
    reads 1%positive ex_ghost1 ex_store1 G' s' ∧ abs s' G' ex_map1.
Proof.
  split; [vm_compute; reflexivity|].
  apply (lookups_correct ex_tree (index_ ex_item1') ex_ghost1 ex_store1 ex_map1).
  - reflexivity.
  - exact ex_tree1_ok.
  - exact (abs_contents _ _ _ ex_tree1_ok).
Defined.
End witnesses.
