(* ===== verification/MerkleAbort.v ===== *)
(** * When the assertions on rehashing fail

    [set_child] and [dirty_up] assert that every rehashing changes the hash it
    replaces.  When one does not, the operation stops at the assertion, so that the
    conditions [add_rehash] and [update_rehash] are exact. *)

From S2P Require Import Prelude BaseUint Serializer MerkleNode Database MerkleTree MerkleInv.
From S2P Require Import MerkleLoad MerkleMap MerkleAdd.
From S2P Require Import MerkleInsert MerkleOps MerkleCheck Instances MerkleSpec.

Section abort.
Context `{SHA512} `{Indeterminate} {D : Type} `{RocksDBLaws D}.
Implicit Types (s : store_t D) (G : gmap path place) (k p q : path) (n : RadixMerkleTreeNode).
Implicit Types (key : uint256) (item it : RadixMerkleTreeLeaf).
Implicit Types (m : gmap uint256 RadixMerkleTreeLeaf).

Lemma assert_false s : assert (St := store_t D) false s = Err AssertFailed.
Proof. done. Qed.

Lemma dirty_up_aborts root key G d :
  wf256 key → d ≤ 64 → ∀ s stack child nc,
  tree_inv root (nibbles key) d G s → stack_ok G (nibbles key) d stack →
  G !! take d (nibbles key) = Some (Mem child) → heap s !! child = Some nc →
  rehash (nd s G) (nibbles key) d (hash_ nc) = false →
  dirty_up stack key child s = Err AssertFailed.
Proof.
  intros Hkey. induction d as [|j IH]; intros Hd s stack child nc Hinv Hst Hc Hnc Hre; [done|].
  destruct stack as [|[l j'] stack]; [done|]. destruct Hst as (-> & Hl & Hst).
  apply length_nibbles_wf in Hkey as Lk.
  destruct (lookup_lt_is_Some_2 (nibbles key) j) as [b Hb]; [lia|].
  pose proof (nibble_lt _ _ _ Hb) as Hb16.
  destruct (path_inner _ _ _ _ _ (S j) _ Hinv ltac:(eauto) j) as (n & Hn & Hi); [lia..|].
  pose proof (ti_node _ _ _ _ _ Hinv _ _ Hn) as [Hw _].
  assert (nd s G (take (S j) (nibbles key)) = Some nc) as Hncd by (by rewrite (nd_Mem _ _ _ _ Hc)).
  pose proof (ti_node _ _ _ _ _ Hinv _ _ Hncd) as [Hwc _].
  assert (heap s !! l = Some n) as Hn' by (by rewrite <-(nd_Mem _ _ _ _ Hl)).
  cbn [dirty_up]. step (run_view _ _ _ _ Hn'). step (assert_true _ s Hi).
  step (lift_Ok _ s _ (select_branch_Ok _ _ _ Hb)). step (run_view _ _ _ _ Hnc).
  pose proof (run_set_child s l n b child (hash_ nc) Hn' Hi Hw Hb16 ltac:(by destruct Hwc)) as Hset.
  cbn [rehash] in Hre. rewrite Hn, Hb in Hre. destruct (decide _) as [E|E].
  { rewrite (bind_Ok _ _ _ _ _ Hset). done. }
  rewrite (bind_Ok _ _ _ _ _ Hset). step (assert_true true (write_at s l (relinked n b child (hash_ nc))) eq_refl).
  rewrite bool_decide_true in Hre by done. cbn [andb] in Hre.
  eapply IH; [lia|by eapply relink_step|done|done|apply lookup_insert_eq|].
  erewrite rehash_ext; [exact Hre|]. intros i Hij. f_equal.
  rewrite (nd_relink root (nibbles key) j b G s l child n nc Hinv Hl).
  apply decide_False. apply take_ne_take; lia.
Qed.

Lemma add_leaf_child_aborts s l n b item ty :
  heap s !! l = Some n → (∀ l, is_Some (heap s !! l) → (l < next_loc s)%positive) →
  is_inner n = true → node_wf n → b < 16 → wf256 (index_ item) → leaf_ty ty →
  node_digest (with_child n b None (index_ item)) = hash_ n →
  add_leaf_child l item ty b s = Err AssertFailed.
Proof.
  intros Hl Hfresh Hi Hw Hb Hk Hty E. unfold add_leaf_child.
  step (lift_Ok _ s _ (mk_leaf_node_spec item ty Hty)).
  set (s1 := alloc_at s (new_leaf item ty)). rewrite (bind_Ok _ _ _ (next_loc s) s1) by done.
  step (run_view s1 (next_loc s) (new_leaf item ty) get_hash (lookup_insert_eq _ _ _)).
  assert (heap s1 !! l = Some n) as Hl1.
  { cbn. rewrite lookup_insert_ne; [done|]. specialize (Hfresh l ltac:(eauto)). lia. }
  pose proof (run_set_child s1 l n b (next_loc s) (index_ item) Hl1 Hi Hw Hb Hk) as Hset.
  rewrite decide_True in Hset by done. change (get_hash (new_leaf item ty)) with (index_ item).
  by rewrite (bind_Ok _ _ _ _ _ Hset).
Qed.

Lemma add_at_inner_aborts root key e b G s l n stack item ty :
  wf256 key → tree_inv root [] 0 G s → stack_ok G (nibbles key) e stack →
  e < 64 → G !! take e (nibbles key) = Some (Mem l) → heap s !! l = Some n →
  is_inner n = true → nibbles key !! e = Some b → is_empty_branch n b = true →
  rehash (nd s G) (nibbles key) (S e) key = false → index_ item = key → leaf_ty ty →
  (add_leaf_child l item ty b;; dirty_up stack key l;; mret true) s = Err AssertFailed.
Proof.
  intros Hkey Hinv Hst He Hl Hn Hi Hb Hemp Hre Hix Hty.
  pose proof (length_nibbles_wf _ Hkey) as Lk. pose proof (nibble_lt _ _ _ Hb) as Hb16.
  assert (nd s G (take e (nibbles key)) = Some n) as Hnd by (by rewrite (nd_Mem _ _ _ _ Hl)).
  pose proof (ti_node _ _ _ _ _ Hinv _ _ Hnd) as [Hw _].
  cbn [rehash] in Hre. rewrite Hnd, Hb in Hre.
  destruct (decide (node_digest (with_child n b None key) = hash_ n)) as [E|Hne].
  { apply bind_Err. eapply add_leaf_child_aborts; [done|apply Hinv|done..|by rewrite Hix|done|by rewrite Hix]. }
  rewrite bool_decide_true in Hre by done. cbn [andb] in Hre.
  assert (G !! take (S e) (nibbles key) = None) as Hnone.
  { rewrite (take_S_path _ _ _ Hb). by eapply (ti_empty _ _ _ _ _ Hinv); [..|unfold stale; lia|]. }
  apply (tree_inv_weaken _ _ (nibbles key) (S e)) in Hinv.
  destruct (add_leaf_child_spec _ _ _ _ _ _ _ _ item ty Hkey Hinv Hb Hl Hn Hi Hnone Hix Hty Hne)
    as (Hrun & Hinv1 & _ & Hnd1).
  rewrite (bind_Ok _ _ _ _ _ Hrun). apply bind_Err. eapply dirty_up_aborts; [done| |done| | |apply lookup_insert_eq|].
  - lia.
  - eapply stack_ok_mono; [|done]. intros q l'. by apply ghost_keeps.
  - rewrite lookup_insert_ne; [done|]. apply take_ne_take; lia.
  - rewrite <-Hre. apply rehash_ext. intros j Hj. rewrite Hnd1.
    rewrite !decide_False by (apply take_ne_take; lia). done.
Qed.

Lemma add_two_aborts root key okey t d e b1 b2 G s l stack item other ty :
  wf256 key → wf256 okey → d ≤ e < 64 → take e (nibbles key) = take e (nibbles okey) →
  nibbles key !! e = Some b1 → nibbles okey !! e = Some b2 → b1 ≠ b2 →
  splitting root (nibbles key) t d e G s l stack → index_ item = key → index_ other = okey → leaf_ty ty →
  split_rehash (nd s G) (nibbles key) e (split_shell t d e) b1 b2 key okey = false →
  (add_leaf_child l item ty b1;; add_leaf_child l other ty b2;;
   dirty_up stack key l;; mret true) s = Err AssertFailed.
Proof.
  intros Hkey Hokey He Etk Hb1 Hb2 Hbne Hsp Hix Hox Hty Hre.
  pose proof Hsp as [Hinv Hl Hn Hlf Hst]. unfold split_rehash in Hre.
  assert (nd s G (take e (nibbles key)) = Some (split_shell t d e)) as Hnd
    by (by rewrite (nd_Mem _ _ _ _ Hl)).
  pose proof (ti_node _ _ _ _ _ Hinv _ _ Hnd) as [Hw _].
  pose proof (nibble_lt _ _ _ Hb1). pose proof (nibble_lt _ _ _ Hb2).
  destruct (decide (node_digest (with_child (split_shell t d e) b1 None key) = hash_ (split_shell t d e)))
    as [E1|Hne1].
  { apply bind_Err. eapply add_leaf_child_aborts; [done|apply Hinv|done..|by rewrite Hix|done|by rewrite Hix]. }
  rewrite bool_decide_true in Hre by done. cbn [andb] in Hre.
  destruct (decide (node_digest (with_child (with_child (split_shell t d e) b1 None key) b2 None okey) =
    node_digest (with_child (split_shell t d e) b1 None key))) as [E2|Hne2].
  - assert (G !! take (S e) (nibbles key) = None) as Hnone by (by rewrite (take_S_path _ _ _ Hb1)).
    destruct (add_leaf_child_spec _ _ _ _ _ _ _ _ item ty Hkey Hinv Hb1 Hl Hn eq_refl Hnone Hix Hty Hne1)
      as (Hrun & Hinv1 & _ & _). rewrite (bind_Ok _ _ _ _ _ Hrun). apply bind_Err.
    eapply add_leaf_child_aborts; [apply lookup_insert_eq|apply Hinv1|done| |done|by rewrite Hox|done|].
    + apply node_wf_set_hash; [|apply node_digest_wf]. by apply node_wf_with_child.
    + rewrite Hox. exact E2.
  - rewrite bool_decide_true in Hre by done. cbn [andb] in Hre.
    destruct (add_two_leaves root key okey t d e b1 b2 G s l stack item other ty Hkey Hokey He Etk Hb1 Hb2
      Hbne Hsp Hix Hox Hty Hne1 Hne2) as (s2 & G2 & n2 & Hrun & Hinv2 & _ & Hmem & Hn2 & Hh2 & Hnd2 & _).
    apply bind_inv in Hrun as ([] & s1 & Hr1 & Hr2). rewrite (bind_Ok _ _ _ _ _ Hr1), (bind_Ok _ _ _ _ _ Hr2).
    apply bind_Err. eapply dirty_up_aborts; [done| |done|by eapply stack_ok_mono|by apply Hmem|done|]; [lia|].
    rewrite Hh2, <-Hre. apply rehash_ext. intros j Hj. f_equal. apply Hnd2. rewrite length_take. lia.
Qed.

(** ** The operations *)

Lemma add_aborts t item b G s m :
  wf256 (index_ item) → tree_inv (root_ t) [] 0 G s → abs s G m →
  m !! index_ item = None → add_rehash (nd s G) (index_ item) = false →
  add_item t item b s = Err AssertFailed.
Proof.
  intros Hk Hinv Ha Hm Hre.
  destruct (start t _ _ _ _ Hk Hinv Ha)
    as (e & l & n & stack & s1 & G1 & Hrun & Hinv1 & Hfr1 & Hv & Ha1 & Hst & Hstop & Hit).
  rewrite <-Hv in Hre. unfold add_item, add_given_item, get_index. step Hrun.
  pose proof (st_node _ _ _ _ _ _ Hstop) as Hn. step (run_view s1 l n is_inner Hn).
  destruct (is_inner n) eqn:Hi.
  - unfold add_rehash in Hre. rewrite (stop_from_stops _ _ _ _ _ _ _ Hk Hinv1 Hstop) in Hre.
    cbn zeta in Hre. rewrite Hi in Hre.
    destruct Hstop as [He Hl _ [?|(_ & b0 & Hb & Hemp)]]; [congruence|].
    step (lift_Ok _ s1 _ (select_branch_Ok _ _ _ Hb)).
    step (run_view s1 l n (λ n, is_empty_branch n b0) Hn). step (assert_true _ s1 Hemp).
    destruct (inner_depth _ _ _ _ _ _ _ _ _ Hk Hinv1 Hl Hn Hi He) as [He64 _].
    by eapply add_at_inner_aborts; [..|apply leaf_type_ty].
  - destruct (stop_leaf _ _ _ _ _ _ _ _ _ Hinv1 Hstop Hi) as (other & Hot & Hok).
    step (run_view s1 l n peek_leaf Hn). unfold peek_leaf. rewrite Hot.
    assert (index_ other ≠ index_ item) as Hne.
    { intros E. rewrite (proj2 (Hit other)) in Hm; done. }
    unfold get_index. rewrite (bind_Ok _ _ _ tt s1).
    2:{ apply assert_true. unfold base_uint_neqb. rewrite base_uint_eqb_decide by done.
        by rewrite bool_decide_false by congruence. }
    cbn zeta. destruct (split_reach _ _ _ _ _ _ _ _ _ Hk Hinv1 Hst Hstop Hi Hot Hne)
      as (b1 & b2 & l1 & stack1 & G2 & s2 & Hrun2 & _ & He & Etk & Hb1 & Hb2 & Hbne & Hsp & _ & _ & _ & Er).
    rewrite Er in Hre. rewrite Hrun2. cbn beta iota.
    step (run_view s2 l1 _ is_inner (sp_node _ _ _ _ _ _ _ _ _ Hsp)).
    step (assert_true true s2 eq_refl). by eapply add_two_aborts; [..|apply leaf_type_ty|].
Qed.

Lemma update_aborts t item b G s m :
  wf256 (index_ item) → tree_inv (root_ t) [] 0 G s → abs s G m →
  is_Some (m !! index_ item) → update_rehash (nd s G) item b = false →
  update_given_item t item b s = Err AssertFailed.
Proof.
  intros Hk Hinv Ha [it0 Hm] Hre.
  destruct (start t _ _ _ _ Hk Hinv Ha)
    as (e & l & n & stack & s1 & G1 & Hrun & Hinv1 & Hfr1 & Hv & Ha1 & Hst & Hstop & Hit).
  apply Hit in Hm as (Hi & Hot & Hix). rewrite <-Hv in Hre. pose proof Hstop as [He Hl Hn _].
  unfold update_given_item, get_index. step Hrun.
  step (run_view s1 l n is_inner Hn). rewrite Hi. step (assert_true true s1 eq_refl).
  step (run_leaf_of s1 l n it0 Hn Hot). rewrite (bind_Ok _ _ _ tt s1).
  2:{ apply assert_true. by rewrite Hix, base_uint_eqb_decide, bool_decide_true. }
  unfold update_rehash in Hre. rewrite (stop_from_stops _ _ _ _ _ _ _ Hk Hinv1 Hstop) in Hre.
  cbn zeta in Hre. apply orb_false_iff in Hre as [Hne Hre]. pose proof (length_nibbles_wf _ Hk) as Lk.
  apply (tree_inv_weaken _ _ (nibbles (index_ item)) 0) in Hinv1.
  assert (nd s1 G1 (take e (nibbles (index_ item))) = Some n) as Hnd by (by rewrite (nd_Mem _ _ _ _ Hl)).
  pose proof (ti_node _ _ _ _ _ Hinv1 _ _ Hnd) as Hni.
  rewrite (bind_Ok _ _ _ _ _ (run_set_item s1 l n item b Hn ltac:(by destruct Hni as [[]]))), Hne.
  cbn [negb]. apply bind_Err. set (x := set_hash _ _).
  eapply (dirty_up_aborts (root_ t) (index_ item) G1 e Hk He _ _ _ x); [|done|done|apply lookup_insert_eq|].
  - apply (leaf_step (root_ t) _ e e G1 s1 l n x); try done; [lia|apply (is_inner_leaf_type n item b)| |by right].
    apply updated_inv; [done..|]. eexists. symmetry. apply take_drop.
  - rewrite <-Hre. apply rehash_ext. intros j Hj. f_equal.
    rewrite (nd_leaf (root_ t) (nibbles (index_ item)) e G1 s1 l x Hinv1 Hl). rewrite decide_False; [done|].
    apply take_ne_take; lia.
Qed.
End abort.

Section exact.
Context `{SHA512} `{Indeterminate} {D : Type} `{RocksDBLaws D}.
Implicit Types (s : store_t D) (G : gmap path place).
Implicit Types (item : RadixMerkleTreeLeaf) (m : gmap uint256 RadixMerkleTreeLeaf).

(** An operation that changes the tree succeeds with its effect on the map, or stops
    at an assertion for one of the two reasons. *)
Lemma add_cases t item b G s m :
  wf256 (index_ item) → tree_inv (root_ t) [] 0 G s → abs s G m →
  add_item t item b s = Err AssertFailed ∧
    (is_Some (m !! index_ item) ∨ add_rehash (nd s G) (index_ item) = false) ∨
  m !! index_ item = None ∧
  ∃ s' G', add_item t item b s = Ok (true, s') ∧ tree_inv (root_ t) [] 0 G' s' ∧
    abs s' G' (<[index_ item := item]> m) ∧ step_frame G G' s s'.
Proof.
  intros Hk Hinv Ha. destruct (m !! index_ item) eqn:Hm; [left; split; [eapply add_duplicate|]; eauto|].
  destruct (add_rehash (nd s G) (index_ item)) eqn:Hre; [|left; split; [by eapply add_aborts|by right]].
  right. split; [done|]. by apply add_insert.
Qed.

Lemma update_cases t item b G s m :
  wf256 (index_ item) → tree_inv (root_ t) [] 0 G s → abs s G m →
  update_given_item t item b s = Err AssertFailed ∧
    (m !! index_ item = None ∨ update_rehash (nd s G) item b = false) ∨
  is_Some (m !! index_ item) ∧
  ∃ s' G', update_given_item t item b s = Ok (true, s') ∧ tree_inv (root_ t) [] 0 G' s' ∧
    abs s' G' (<[index_ item := item]> m) ∧ step_frame G G' s s'.
Proof.
  intros Hk Hinv Ha. destruct (m !! index_ item) eqn:Hm; [|left; split; [by eapply update_absent|by left]].
  destruct (update_rehash (nd s G) item b) eqn:Hre; [|left; split; [eapply update_aborts|right]; eauto].
  right. split; [eauto|]. apply update_replace; eauto.
Qed.

End exact.

Section exact_witness.
#[local] Existing Instance poly_SHA512.
#[local] Existing Instance zero_Indeterminate.

End exact_witness.
