(* ===== verification/MerkleBackup.v ===== *)
(** * Writing a tree to the database

    [backup_to_database] visits every node in memory and writes it under its hash;
    a tree opened from the database afterwards implements the same map. *)

From S2P Require Import Prelude BaseUint Serializer MerkleNode Database MerkleTree MerkleInv.
From S2P Require Import MerkleLoad MerkleMap MerkleAdd MerkleInsert.
From S2P Require Import MerkleCheck Instances.

Section backup.
Context `{SHA512} `{Indeterminate} {D : Type} `{RocksDBLaws D}.
Implicit Types (s : store_t D) (G : gmap path place) (p q : path) (n : RadixMerkleTreeNode).

(** ** Nodes in memory *)

Definition mem_at G p : option loc :=
  match G !! p with Some (Mem l) => Some l | _ => None end.

Lemma mem_at_Some G p l : mem_at G p = Some l ↔ G !! p = Some (Mem l).
Proof. unfold mem_at. destruct (G !! p) as [[l'|h]|]; naive_solver. Qed.

Lemma fetched_fields h (d : D) n :
  fetched h d = Some n → hash_ n = h ∧ children_ n = replicate 16 None.
Proof.
  unfold fetched, fetch. destruct (DB_Get d _) as [v|]; [|done]. rewrite mk_inner_node_spec. mred.
  destruct (decode v _) as [n'|] eqn:E; mred; [|done]. intros [= <-]. revert E. unfold decode.
  destruct (read _ 0); mred; [|done]. destruct (read_u32 _ 1); mred; [|done].
  destruct (read_u32 _ 5); mred; [|done].
  destruct (TreeNodeType_of_value _) as [[]|]; [done|..|done].
  - destruct (mapM _ _); mred; [|done]. by intros [= <-].
  - destruct (init _ _); mred; [|done]. destruct (add_raw _ _ _); mred; [|done]. by intros [= <-].
  - destruct (init _ _); mred; [|done]. destruct (add_raw _ _ _); mred; [|done]. by intros [= <-].
Qed.

(** The child pointers of a node are the locations of its children in memory. *)
Lemma children_mem root k G s p n :
  tree_inv root k 0 G s → nd s G p = Some n → is_inner n = true →
  children_ n = (λ i, mem_at G (p ++ [i])) <$> seq 0 16.
Proof.
  intros Hinv Hn Hi. destruct (ti_node _ _ _ _ _ Hinv _ _ Hn) as [Hw _].
  apply list_eq. intros i. rewrite list_lookup_fmap.
  destruct (decide (i < 16)) as [Hlt|].
  2:{ rewrite !lookup_ge_None_2; [done|rewrite length_seq|rewrite (nwf_children _ Hw)]; lia. }
  rewrite lookup_seq_lt by done. cbn. unfold mem_at.
  assert (¬ stale k 0 (p ++ [i])) as Hs by (unfold stale; lia).
  destruct (is_empty_branch n i) eqn:He.
  - by destruct (ti_empty _ _ _ _ _ Hinv _ _ _ Hn Hi Hlt Hs He) as [-> ->].
  - destruct (ti_child _ _ _ _ _ Hinv _ _ _ Hn Hi Hlt Hs He) as ([l|] & h & -> & _ & -> & _); done.
Qed.

(** A node in memory hangs under a node in memory. *)
Lemma parent_mem root k G s p i l :
  tree_inv root k 0 G s → mem_at G (p ++ [i]) = Some l → is_Some (mem_at G p) ∧ i < 16.
Proof.
  intros Hinv Hl. apply mem_at_Some in Hl as Hg.
  destruct (ti_parent _ _ _ _ _ Hinv p i) as (n & Hn & Hi & Hlt); [eauto|]. split; [|done].
  unfold mem_at. pose proof Hn as (pl & Hp & Hpn)%nd_Some. rewrite Hp.
  destruct pl as [lp|h]; [eauto|]. exfalso. cbn in Hpn.
  apply fetched_fields in Hpn as [_ Hc].
  pose proof (children_mem _ _ _ _ _ _ Hinv Hn Hi) as E. rewrite Hc in E.
  apply (f_equal (.!! i)) in E. rewrite list_lookup_fmap, lookup_seq_lt, lookup_replicate_2 in E by done.
  cbn in E. congruence.
Qed.

(** The paths of the children in memory, in the order of the branches. *)
Definition kids G p : list path :=
  filter (λ q, is_Some (mem_at G q)) ((λ i, p ++ [i]) <$> seq 0 16).

Abbreviation locs G := (omap (mem_at G)).

Lemma locs_filter G (ps : list path) : locs G (filter (λ q, is_Some (mem_at G q)) ps) = locs G ps.
Proof.
  induction ps as [|q ps IH]; [done|]. rewrite filter_cons. case_decide as E; csimpl.
  - by rewrite IH.
  - rewrite IH. destruct (mem_at G q); [|done]. exfalso. apply E. eauto.
Qed.

Lemma elem_of_kids G p q : q ∈ kids G p ↔ ∃ i, i < 16 ∧ q = p ++ [i] ∧ is_Some (mem_at G q).
Proof.
  unfold kids. rewrite list_elem_of_filter, list_elem_of_fmap. split.
  - intros [Hm (i & -> & Hi%elem_of_seq)]. exists i. split_and!; [lia|done|done].
  - intros (i & Hi & -> & Hm). split; [done|]. exists i. split; [done|]. apply elem_of_seq. lia.
Qed.

Lemma NoDup_kids G p : NoDup (kids G p).
Proof.
  apply NoDup_filter, NoDup_fmap_2; [|apply NoDup_seq].
  intros i j E. by apply app_inj_tail in E as [_ ?].
Qed.

Lemma run_children_in_memory root k G s p l :
  tree_inv root k 0 G s → mem_at G p = Some l →
  children_in_memory l s = Ok (locs G (kids G p), s).
Proof.
  intros Hinv Hl. apply mem_at_Some in Hl.
  destruct (ti_total _ _ _ _ _ Hinv _ _ Hl) as [n Hn]. cbn in Hn.
  assert (nd s G p = Some n) as Hnd by (by rewrite (nd_Mem _ _ _ _ Hl)).
  unfold children_in_memory. rewrite (bind_Ok _ _ _ n s); [|unfold load; by rewrite Hn].
  unfold kids. rewrite locs_filter. destruct (is_inner n) eqn:Hi.
  - rewrite (bind_Ok _ _ _ (children_ n) s).
    + rewrite (children_mem _ _ _ _ _ _ Hinv Hnd Hi). unfold mret, prog_ret.
      by rewrite !omap_fmap_list.
    + apply lift_Ok. destruct (ti_node _ _ _ _ _ Hinv _ _ Hnd) as [Hw _].
      rewrite (mapM_Ok _ (λ i, children_ n !!! i)).
      * f_equal. etrans; [apply (fmap_seq_lookup id), Hw|apply list_fmap_id].
      * intros i Hlt%elem_of_seq. unfold get_child. rewrite decide_True, Hi by lia.
        rewrite list_lookup_lookup_total_lt; [done|]. rewrite (nwf_children _ Hw). lia.
  - unfold mret, prog_ret. do 2 f_equal. rewrite omap_fmap_list.
    induction (seq 0 16) as [|i r IH]; [done|]. csimpl. rewrite <-IH. unfold mem_at.
    rewrite (ghost_closed _ _ _ _ _ _ _ Hinv); [done|]. intros x Hx. congruence.
Qed.

(** ** The traversal *)

(** The state of the traversal: [P] are the paths popped, [Q] those queued. *)
Record visiting G (P Q : list path) : Prop := {
  vi_nodup : NoDup (P ++ Q);
  vi_mem q : q ∈ P ++ Q → is_Some (mem_at G q);
  vi_root : [] ∈ P ++ Q;
  vi_closed p q : p ∈ P → q ∈ kids G p → q ∈ P ++ Q;
  vi_parent p i : p ++ [i] ∈ P ++ Q → p ∈ P;
}.

Lemma visiting_start G l : mem_at G [] = Some l → visiting G [] [[]].
Proof.
  intros Hr. constructor; cbn [app].
  - apply NoDup_singleton.
  - intros q ->%list_elem_of_singleton. eauto.
  - by left.
  - intros p q Hp. by apply not_elem_of_nil in Hp.
  - intros p i E%list_elem_of_singleton. by destruct p.
Qed.

Lemma visiting_step G P p Q : visiting G P (p :: Q) → visiting G (P ++ [p]) (Q ++ kids G p).
Proof.
  intros [Hnd Hm Hr Hc Hp].
  assert ((P ++ [p]) ++ Q ++ kids G p = (P ++ p :: Q) ++ kids G p) as E
    by (by rewrite <-!app_assoc).
  assert (p ∉ P) as HpP.
  { intros Hin. apply NoDup_app in Hnd as (_ & Hd & _). by eapply Hd; [|left]. }
  constructor; rewrite ?E.
  - apply NoDup_app. split_and!; [done| |apply NoDup_kids].
    intros q Hq (i & _ & -> & _)%elem_of_kids. by apply HpP, (Hp _ i).
  - intros q [?|(i & _ & _ & ?)%elem_of_kids]%elem_of_app; eauto.
  - apply elem_of_app. by left.
  - intros p' q [?| ->%list_elem_of_singleton]%elem_of_app Hq; apply elem_of_app; eauto.
  - intros p' i [?|(j & _ & E' & _)%elem_of_kids]%elem_of_app; apply elem_of_app; [eauto|].
    apply app_inj_tail in E' as [-> _]. right. by left.
Qed.

Lemma NoDup_locs root k mm G s (ps : list path) : tree_inv root k mm G s → NoDup ps → NoDup (locs G ps).
Proof.
  intros Hinv. induction 1 as [|p ps Hp _ IH]; csimpl; [constructor|].
  destruct (mem_at G p) as [l|] eqn:El; [|done]. constructor; [|done].
  intros (q & Hq & El')%list_elem_of_omap. apply mem_at_Some in El, El'.
  rewrite (ti_inj _ _ _ _ _ Hinv _ _ _ El El') in Hp. done.
Qed.

Lemma length_locs G (ps : list path) :
  (∀ q, q ∈ ps → is_Some (mem_at G q)) → length (locs G ps) = length ps.
Proof.
  induction ps as [|p ps IH]; intros Hm; [done|]. csimpl.
  destruct (Hm p) as [l ->]; [by left|]. cbn. f_equal. apply IH. intros. apply Hm. by right.
Qed.

(** There are no more nodes on the way than objects in the heap. *)
Lemma visiting_bound root k mm G s P Q :
  tree_inv root k mm G s → visiting G P Q → length P + length Q ≤ size (heap s).
Proof.
  intros Hinv [Hnd Hm _ _ _]. rewrite <-length_app, <-(length_locs G) by done.
  pose proof (NoDup_locs _ _ _ _ _ _ Hinv Hnd) as Hnl.
  rewrite <-(size_list_to_set (C := gset loc)), <-size_dom by done.
  apply subseteq_size. intros l (q & Hq & Hl)%elem_of_list_to_set%list_elem_of_omap.
  apply mem_at_Some in Hl. apply elem_of_dom. exact (ti_total _ _ _ _ _ Hinv _ _ Hl).
Qed.

Lemma backup_loop_spec root k G s fuel :
  tree_inv root k 0 G s → ∀ P Q,
  visiting G P Q → size (heap s) ≤ fuel + length P →
  ∃ P', backup_loop fuel (locs G Q) (locs G (P ++ Q)) s = Ok (locs G P', s) ∧ visiting G P' [].
Proof.
  intros Hinv. induction fuel as [|fuel IH]; intros P [|p Q] Hv Hf.
  1,3: exists P; rewrite app_nil_r; done.
  { pose proof (visiting_bound _ _ _ _ _ _ _ Hinv Hv) as Hb. cbn in Hb, Hf. lia. }
  destruct (vi_mem _ _ _ Hv p) as [l Hl]; [apply elem_of_app; right; by left|].
  destruct (IH (P ++ [p]) (Q ++ kids G p)) as (P' & Hrun & Hv').
  { by apply visiting_step. }
  { rewrite length_app. cbn. lia. }
  exists P'. split; [|done]. rewrite <-Hrun. rewrite !omap_app. csimpl. rewrite Hl. cbn [omap].
  cbn [backup_loop]. step (run_children_in_memory _ _ _ _ _ _ Hinv Hl).
  by rewrite <-!app_assoc.
Qed.

(** Every node in memory is visited. *)
Lemma visited_all root k G s P p :
  tree_inv root k 0 G s → visiting G P [] → is_Some (mem_at G p) → p ∈ P.
Proof.
  intros Hinv [_ _ Hr Hc _]. rewrite app_nil_r in *.
  induction p as [|i p IH] using rev_ind; intros Hp; [done|]. destruct Hp as [l Hl].
  destruct (parent_mem _ _ _ _ _ _ _ Hinv Hl) as [Hpar Hi].
  eapply Hc; [by apply IH|]. apply elem_of_kids. eauto.
Qed.

(** ** What is written *)

Definition entry n : bytes * bytes := (to_string uint256_bits (hash_ n), stored n).

Lemma load_all_spec root k mm G s (ps : list path) :
  tree_inv root k mm G s → (∀ q, q ∈ ps → is_Some (mem_at G q)) →
  load_all (locs G ps) s = Ok (omap (nd s G) ps, s).
Proof.
  intros Hinv. induction ps as [|p ps IH]; intros Hm; [done|]. csimpl.
  destruct (Hm p) as [l Hl]; [by left|]. rewrite Hl. apply mem_at_Some in Hl.
  destruct (ti_total _ _ _ _ _ Hinv _ _ Hl) as [n Hn]. cbn in Hn. cbn [load_all].
  rewrite (bind_Ok _ _ _ n s); [|unfold load; by rewrite Hn].
  rewrite (nd_Mem _ _ _ _ Hl), Hn. step (IH ltac:(intros; apply Hm; by right)). done.
Qed.

Lemma backup_spec t k G s :
  tree_inv (root_ t) k 0 G s →
  ∃ P, visiting G P [] ∧
    backup_to_database t s =
      match DB_Write (rocks s) (entry <$> omap (nd s G) P) with
      | Some d' => Ok (tt, mkStore (heap s) (next_loc s) d')
      | None => Err AssertFailed
      end.
Proof.
  intros Hinv. assert (mem_at G [] = Some (root_ t)) as Hr by (apply mem_at_Some, Hinv).
  pose proof (visiting_start G _ Hr) as Hv0.
  destruct (backup_loop_spec _ _ _ _ (S (size (heap s))) Hinv _ _ Hv0) as (P & Hrun & Hv); [cbn; lia|].
  exists P. split; [done|]. unfold backup_to_database.
  rewrite (bind_Ok _ _ _ (S (size (heap s))) s) by done.
  cbn [app] in Hrun. csimpl in Hrun. rewrite Hr in Hrun. step Hrun.
  pose proof (vi_mem _ _ _ Hv) as Hm. rewrite app_nil_r in Hm.
  step (load_all_spec _ _ _ _ _ P Hinv Hm). rewrite (bind_Ok _ _ _ (rocks s) s) by done.
  rewrite store_batch_spec.
  - fold entry. change (λ n, (to_string uint256_bits (hash_ n), stored n)) with entry.
    by destruct (DB_Write _ _).
  - apply Forall_forall. intros n (q & _ & Hn)%list_elem_of_omap.
    by destruct (ti_node _ _ _ _ _ Hinv _ _ Hn) as [[] _].
Qed.

(** ** The tree in the database *)

(** The hashes of the nodes of a tree. *)
Definition node_hashes s G : list uint256 :=
  omap (λ pp, hash_ <$> node_at s pp.2) (map_to_list G).

(** No two nodes have the same hash. *)
Definition unique_hashes s G : Prop :=
  ∀ p q n n', nd s G p = Some n → nd s G q = Some n' → hash_ n = hash_ n' → p = q.

Lemma node_hashes_unique s G : NoDup (node_hashes s G) → unique_hashes s G.
Proof.
  intros Hnd p q n n' (pl & Hp & Hn)%nd_Some (pl' & Hq & Hn')%nd_Some E. unfold node_hashes in Hnd.
  apply elem_of_map_to_list in Hp, Hq. revert Hnd Hp Hq.
  induction (map_to_list G) as [|[r pr] ps IH]; [by intros _ ?%not_elem_of_nil|]. csimpl.
  assert (∀ q pl' n', (q, pl') ∈ ps → node_at s pl' = Some n' →
    hash_ n' ∈ omap (λ pp : path * place, hash_ <$> node_at s pp.2) ps) as Hin.
  { intros q' pl'' x Hq' Hx. apply list_elem_of_omap. exists (q', pl''). split; [done|].
    cbn. by rewrite Hx. }
  intros Hnd Hp Hq. apply elem_of_cons in Hp as [[= <- <-]|Hp], Hq as [[= <- <-]|Hq].
  - done.
  - rewrite Hn in Hnd. cbn in Hnd. apply NoDup_cons in Hnd as [Hnin _]. destruct Hnin.
    rewrite E. eauto.
  - rewrite Hn' in Hnd. cbn in Hnd. apply NoDup_cons in Hnd as [Hnin _]. destruct Hnin.
    rewrite <-E. eauto.
  - apply IH; [|done..]. destruct (node_at s pr); [|done]. cbn in Hnd. by apply NoDup_cons in Hnd as [_ ?].
Qed.

(** The database holds the whole tree: the node of each path under its hash. *)
Definition saved s G (d : D) : Prop :=
  ∀ p n, nd s G p = Some n →
    ∃ n', fetched (hash_ n) d = Some n' ∧ (n' = n ∨ n' = loaded (hash_ n) n).

Lemma disk_hash s G p h n : G !! p = Some (Disk h) → nd s G p = Some n → hash_ n = h.
Proof. unfold nd. intros ->. cbn. by intros [? _]%fetched_fields. Qed.

Lemma batch_entry s G P p n o :
  unique_hashes s G → (∀ q x, nd s G q = Some x → node_wf x) → nd s G p = Some n →
  batch_get (entry <$> omap (nd s G) P) (to_string uint256_bits (hash_ n)) o =
    if decide (p ∈ P) then Some (stored n) else o.
Proof.
  intros Hnd Hwf Hn.
  assert (∀ v, (to_string uint256_bits (hash_ n), v) ∈ entry <$> omap (nd s G) P → p ∈ P ∧ v = stored n) as Hu.
  { intros v (x & Ex & (q & Hq & Hx)%list_elem_of_omap)%list_elem_of_fmap.
    apply pair_equal_spec in Ex as [E ->]. apply to_string_inj in E; [|by eapply nwf_hash, Hwf..].
    pose proof (Hnd _ _ _ _ Hn Hx E) as ->.
    rewrite Hn in Hx. injection Hx as <-. done. }
  case_decide as Hin.
  - apply batch_get_in; [|intros v Hv; by apply Hu in Hv as [_ ?]].
    apply list_elem_of_fmap. exists n. split; [done|]. apply list_elem_of_omap. eauto.
  - apply batch_get_notin. intros [k v] Hkv E. cbn in E. subst k. by apply Hu in Hkv as [? _].
Qed.

Lemma backup_saved root G s P (d' : D) :
  tree_inv root [] 0 G s → visiting G P [] → unique_hashes s G →
  (∀ p n, nd s G p = Some n → item_fits n) →
  DB_Write (rocks s) (entry <$> omap (nd s G) P) = Some d' → saved s G d'.
Proof.
  intros Hinv Hv Hnd Hfit Hw p n Hn.
  assert (∀ q x, nd s G q = Some x → node_wf x) as Hwf.
  { intros q x Hx. by destruct (ti_node _ _ _ _ _ Hinv _ _ Hx). }
  pose proof (batch_entry s G P p n (DB_Get (rocks s) (to_string uint256_bits (hash_ n))) Hnd Hwf Hn) as E.
  rewrite <-(Get_Write _ _ _ _ Hw) in E. case_decide as Hin.
  - exists (loaded (hash_ n) n). split; [|by right].
    unfold fetched. by rewrite (fetch_stored _ _ n) by eauto.
  - exists n. split; [|by left]. rewrite (fetched_Get _ _ _ E).
    pose proof Hn as (pl & Hp & Hpn)%nd_Some. destruct pl as [l|h].
    + destruct Hin. eapply visited_all; [done..|]. unfold mem_at. rewrite Hp. eauto.
    + by rewrite (disk_hash _ _ _ _ _ Hp Hn).
Qed.

(** ** Opening the tree again *)

(** [n'] is [n] as read back from the database. *)
Record resembles n n' : Prop := {
  rs_hash : hash_ n' = hash_ n;
  rs_type : type_ n' = type_ n;
  rs_tx : is_transaction_tree_ n' = is_transaction_tree_ n;
  rs_mask : branch_mask_ n' = branch_mask_ n;
  rs_hashes : is_inner n = true → children_hash_ n' = children_hash_ n;
  rs_item : is_inner n = false → item_ n' = item_ n;
  rs_wf : node_wf n';
  rs_children : children_ n' = replicate 16 None;
}.

Lemma loaded_wf n : node_wf n → node_wf (loaded (hash_ n) n).
Proof.
  intros [Ht Hh [Hl Hw] Hc Hm Hi]. unfold loaded. constructor; cbn; try done.
  - unfold typed_node, is_inner in *. cbn. by destruct (type_ n).
  - destruct (is_inner n); [done|]. split; [done|].
    by apply (Forall_replicate wf256 16).
  - intros item. destruct (is_inner n); [done|apply Hi].
Qed.

Lemma saved_resembles s G (d : D) p n :
  saved s G d → node_wf n → nd s G p = Some n →
  ∃ n', fetched (hash_ n) d = Some n' ∧ resembles n n'.
Proof.
  intros Hs Hw Hn. destruct (Hs _ _ Hn) as (n' & Hf & Hn'). exists n'. split; [done|].
  destruct (fetched_fields _ _ _ Hf) as [Hh Hc]. destruct Hn' as [-> | ->]; [by constructor|].
  constructor; try done; [by intros E; cbn; rewrite E..|by apply loaded_wf].
Qed.

Section resembles.
Context n n' (Hr : resembles n n').

Lemma rs_inner : is_inner n' = is_inner n.
Proof. unfold is_inner. by rewrite (rs_type _ _ Hr). Qed.

Lemma rs_empty i : is_empty_branch n' i = is_empty_branch n i.
Proof. unfold is_empty_branch. by rewrite (rs_mask _ _ Hr). Qed.

Lemma rs_digest : node_digest n' = node_digest n.
Proof.
  destruct Hr as [_ Ht Htx Hm Hh Hi _ _]. unfold node_digest, preimage, is_inner in *.
  rewrite Ht, Htx, Hm. destruct (type_ n); [done|by rewrite Hh|by rewrite Hi..].
Qed.

Lemma rs_node_inv p : node_inv p n → node_inv p n'.
Proof.
  intros [_ Hp]. split; [apply Hr|]. rewrite rs_inner. destruct (is_inner n) eqn:E; [done|].
  destruct Hp as (item & Hi & Hpre & Hh & Hm). exists item.
  rewrite (rs_item _ _ Hr E), (rs_hash _ _ Hr), (rs_mask _ _ Hr), rs_digest. done.
Qed.
End resembles.

Section reload.
Context root G s s0 r n0
  (Hinv : tree_inv root [] 0 G s) (Hnd : unique_hashes s G)
  (Hsaved : saved s G (rocks s0)) (Hroot : nd s G [] = Some r)
  (Hfetch : fetched (hash_ r) (rocks s0) = Some n0) (Hn0 : resembles r n0)
  (Hfresh : ∀ l, is_Some (heap s0 !! l) → (l < next_loc s0)%positive).

Definition reload_ghost : gmap path place :=
  map_imap (λ p pl, n ← node_at s pl;
    Some (if decide (p = []) then Mem (next_loc s0) else Disk (hash_ n))) G.
Definition reload_store : store_t D :=
  mkStore (<[next_loc s0 := n0]> (heap s0)) (Pos.succ (next_loc s0))
    (DB_Delete (rocks s0) (to_string uint256_bits (hash_ r))).

Lemma reload_lookup p :
  reload_ghost !! p =
    n ← nd s G p; Some (if decide (p = []) then Mem (next_loc s0) else Disk (hash_ n)).
Proof.
  unfold reload_ghost, nd. rewrite map_lookup_imap. destruct (G !! p); done.
Qed.

Lemma reload_nd p :
  nd s G p = None ∧ nd reload_store reload_ghost p = None ∨
  ∃ n n', nd s G p = Some n ∧ nd reload_store reload_ghost p = Some n' ∧ resembles n n'.
Proof.
  unfold nd at 2 4. rewrite reload_lookup. destruct (nd s G p) as [n|] eqn:Hn; [right|by left].
  assert (∀ q x, nd s G q = Some x → node_wf x) as Hwf.
  { intros q x Hx. by destruct (ti_node _ _ _ _ _ Hinv _ _ Hx). }
  exists n. cbn. case_decide as E.
  - subst p. exists n0. rewrite Hroot in Hn. injection Hn as <-. split_and!; [done| |done].
    apply lookup_insert_eq.
  - destruct (saved_resembles _ _ _ _ _ Hsaved (Hwf _ _ Hn) Hn) as (n' & Hf & Hr).
    exists n'. split_and!; [done| |done]. rewrite <-Hf. cbn. apply fetched_frame.
    + by eapply nwf_hash, Hwf.
    + by eapply nwf_hash, Hwf.
    + intros Eh. apply E. by eapply Hnd.
Qed.

Lemma reload_nd_inv p n' :
  nd reload_store reload_ghost p = Some n' → ∃ n, nd s G p = Some n ∧ resembles n n'.
Proof. intros Hn'. destruct (reload_nd p) as [[_ ?]|(n & ? & ? & ? & ?)]; naive_solver. Qed.

Lemma reload_inj p q pl : reload_ghost !! p = Some pl → reload_ghost !! q = Some pl → p = q.
Proof.
  rewrite !reload_lookup. destruct (nd s G p) as [n|] eqn:Hp, (nd s G q) as [n'|] eqn:Hq; cbn; try done.
  repeat case_decide; intros; simplify_eq; [done|]. by eapply Hnd.
Qed.

Lemma reload_child p n n' i :
  nd s G p = Some n → resembles n n' → is_inner n = true → i < 16 → is_empty_branch n i = false →
  ∃ h, children_ n' !! i = Some None ∧ children_hash_ n' !! i = Some h ∧
    reload_ghost !! (p ++ [i]) = Some (Disk h) ∧
    (∀ n'', nd reload_store reload_ghost (p ++ [i]) = Some n'' → hash_ n'' = h).
Proof.
  intros Hn Hr Hi Hlt He.
  destruct (ti_child _ _ _ _ _ Hinv _ _ i Hn Hi Hlt) as (c & h & _ & Hh & Hg & Hlk);
    [unfold stale; lia|done|].
  destruct (ti_total _ _ _ _ _ Hinv _ _ Hg) as [nc Hnc].
  assert (nd s G (p ++ [i]) = Some nc) as Hndc by (apply nd_Some; eauto).
  exists h. split_and!.
  - rewrite (rs_children _ _ Hr). by apply lookup_replicate_2.
  - by rewrite (rs_hashes _ _ Hr Hi).
  - rewrite reload_lookup, Hndc. cbn. rewrite decide_False by (by destruct p).
    by rewrite (Hlk _ Hndc).
  - intros n'' (x & Hx & Hrx)%reload_nd_inv. rewrite (rs_hash _ _ Hrx). by apply Hlk.
Qed.

Lemma reload_inv : tree_inv (next_loc s0) [] 0 reload_ghost reload_store.
Proof.
  constructor.
  - by rewrite reload_lookup, Hroot.
  - intros l. cbn. rewrite lookup_insert. case_decide; [lia|]. intros ?%Hfresh. lia.
  - apply reload_inj.
  - intros p pl Hp. destruct (reload_nd p) as [[E _]|(n & n' & _ & E & _)].
    + by rewrite reload_lookup, E in Hp.
    + unfold nd in E. rewrite Hp in E. cbn in E. eauto.
  - intros p n' (n & Hn & Hr)%reload_nd_inv. eapply rs_node_inv; [done|by apply Hinv].
  - intros p n' (n & Hn & Hr)%reload_nd_inv. rewrite (rs_inner _ _ Hr), (rs_hash _ _ Hr).
    rewrite (rs_digest _ _ Hr). intros Hi _. eapply (ti_digest _ _ _ _ _ Hinv); [done..|].
    unfold stale; lia.
  - intros p n' i (n & Hn & Hr)%reload_nd_inv. rewrite (rs_inner _ _ Hr), (rs_empty _ _ Hr).
    intros Hi Hlt Hs He. rewrite (rs_children _ _ Hr).
    split; [|by apply lookup_replicate_2].
    destruct (ti_empty _ _ _ _ _ Hinv _ _ i Hn Hi Hlt Hs He) as [Hg _].
    rewrite reload_lookup. unfold nd. by rewrite Hg.
  - intros p n' i (n & Hn & Hr)%reload_nd_inv. rewrite (rs_inner _ _ Hr), (rs_empty _ _ Hr).
    intros Hi Hlt _ He. destruct (reload_child _ _ _ _ Hn Hr Hi Hlt He) as (h & ? & ? & ? & ?).
    by exists None, h.
  - intros p i [pl Hp]. rewrite reload_lookup in Hp.
    destruct (nd s G (p ++ [i])) as [x|] eqn:Hx; [|done]. apply nd_Some in Hx as (? & Hg & _).
    destruct (ti_parent _ _ _ _ _ Hinv p i) as (n & Hn & Hi & Hlt); [eauto|].
    destruct (reload_nd p) as [[E _]|(n1 & n' & Hn1 & Hn' & Hr)]; [congruence|].
    exists n'. split_and!; [done| |done]. rewrite (rs_inner _ _ Hr). congruence.
Qed.

Lemma reload_abs m : abs s G m → abs reload_store reload_ghost m.
Proof.
  intros Ha key it. rewrite (Ha key it). unfold holds. split.
  - intros (p & n & Hn & Hi & Hit & Hk).
    destruct (reload_nd p) as [[E _]|(n1 & n' & Hn1 & Hn' & Hr)]; [congruence|].
    rewrite Hn in Hn1. injection Hn1 as <-. exists p, n'.
    split_and!; [done|by rewrite (rs_inner _ _ Hr)|by rewrite (rs_item _ _ Hr Hi)|done].
  - intros (p & n' & (n & Hn & Hr)%reload_nd_inv & Hi & Hit & Hk). exists p, n.
    rewrite (rs_inner _ _ Hr) in Hi. rewrite (rs_item _ _ Hr Hi) in Hit. done.
Qed.
End reload.

Lemma run_fetch_node h s n :
  fetched h (rocks s) = Some n →
  fetch_node_from_db h s =
    Ok (next_loc s, mkStore (<[next_loc s := n]> (heap s)) (Pos.succ (next_loc s))
                      (DB_Delete (rocks s) (to_string uint256_bits h))).
Proof.
  unfold fetched. destruct (fetch h (rocks s)) as [[n' d']|] eqn:Hf; [|done]. intros [= ->].
  unfold fetch_node_from_db, mbind, prog_bind, gets, lift. rewrite Hf. cbn.
  by rewrite (fetch_inv _ _ _ _ Hf).
Qed.

(** The shape of a tree that is in the database only. *)
Definition disk_ghost s G : gmap path place :=
  map_imap (λ _ pl, n ← node_at s pl; Some (Disk (hash_ n))) G.

Lemma disk_ghost_Some s G p pl :
  disk_ghost s G !! p = Some pl ↔ ∃ n, nd s G p = Some n ∧ pl = Disk (hash_ n).
Proof.
  unfold disk_ghost, nd. rewrite map_lookup_imap. destruct (G !! p) as [x|]; cbn; [|naive_solver].
  destruct (node_at s x); cbn; naive_solver.
Qed.

(** Opening a tree reads its root only. *)
Lemma reload_frame root G s s0 r n0 :
  tree_inv root [] 0 G s → nd s G [] = Some r →
  step_frame (disk_ghost s G) (reload_ghost G s s0) s0 (reload_store s0 r n0).
Proof.
  intros Hinv Hr. assert (wf256 (hash_ r)) as Hw by apply (ti_node _ _ _ _ _ Hinv _ _ Hr).
  constructor; cbn [reload_store heap next_loc].
  - intros l _ Hlt. apply lookup_insert_ne. lia.
  - intros h Hh Hn. apply fetched_frame; [done..|]. intros ->. apply (Hn []), disk_ghost_Some. eauto.
  - lia.
  - intros p pl. rewrite reload_lookup. destruct (nd s G p) as [n|] eqn:Hp; cbn; [|done].
    case_decide; intros [= <-]; [right; eexists; split; [done|lia]|].
    left. exists p. apply disk_ghost_Some. eauto.
Qed.

Lemma load_saved root G s s0 r m b seq :
  tree_inv root [] 0 G s → abs s G m → unique_hashes s G → saved s G (rocks s0) →
  nd s G [] = Some r → (∀ l, is_Some (heap s0 !! l) → (l < next_loc s0)%positive) →
  let G' := reload_ghost G s s0 in
  ∃ t' s', RadixMerkleTree_load (hash_ r) seq b s0 = Ok (t', s') ∧
    tree_inv (root_ t') [] 0 G' s' ∧ abs s' G' m ∧ tree_get_hash t' s' = Ok (hash_ r, s') ∧
    step_frame (disk_ghost s G) G' s0 s'.
Proof.
  intros Hinv Ha Hnd Hs Hr Hfresh.
  destruct (ti_node _ _ _ _ _ Hinv _ _ Hr) as [Hw _].
  destruct (saved_resembles _ _ _ _ _ Hs Hw Hr) as (n0 & Hf & Hn0).
  eexists (mkTree (next_loc s0) seq STATE_VALID _), (reload_store s0 r n0).
  split_and!.
  - unfold RadixMerkleTree_load. by step (run_fetch_node _ _ _ Hf).
  - by eapply reload_inv.
  - by eapply reload_abs.
  - rewrite <-(rs_hash _ _ Hn0). unfold tree_get_hash.
    apply (run_view _ _ n0 get_hash), lookup_insert_eq.
  - by eapply reload_frame.
Qed.

(** C10: what the destructor of a tree writes is enough to open it again: a new
    process that starts with the database and the root hash gets a tree with the
    same root hash that implements the same map.  The traversal of
    [backup_to_database] ends within one step per object of the heap.  Assumed are
    that the database accepts the batch, that no two nodes of the tree have the
    same hash and that every item fits the [int] length of [decode]. *)
Theorem backup_then_load t b seq G s m :
  tree_inv (root_ t) [] 0 G s → abs s G m → NoDup (node_hashes s G) →
  (∀ key it, m !! key = Some it → (Z.of_nat (length (leaf_peek_data it)) < 2 ^ 31)%Z) →
  (∀ batch, is_Some (DB_Write (rocks s) batch)) →
  ∃ d' h, RadixMerkleTree_dtor t s = Ok (tt, mkStore (heap s) (next_loc s) d') ∧
    tree_get_hash t s = Ok (h, s) ∧
    ∃ t' s' G', RadixMerkleTree_load h seq b (mkStore ∅ 1%positive d') = Ok (t', s') ∧
      tree_inv (root_ t') [] 0 G' s' ∧ abs s' G' m ∧ tree_get_hash t' s' = Ok (h, s').
Proof.
  intros Hinv Ha Hnd%node_hashes_unique Hfit Hdb. destruct (backup_spec t [] G s Hinv) as (P & Hv & Hrun).
  destruct (Hdb (entry <$> omap (nd s G) P)) as [d' Hw]. rewrite Hw in Hrun.
  destruct (ti_total _ _ _ _ _ Hinv _ _ (ti_root _ _ _ _ _ Hinv)) as [r Hr]. cbn in Hr.
  assert (nd s G [] = Some r) as Hnr by (rewrite (nd_Mem _ _ _ (root_ t)); [done|apply Hinv]).
  exists d', (hash_ r). split_and!; [done|by apply (run_view s _ r get_hash)|].
  assert (saved s G d') as Hs.
  { eapply backup_saved; [done..| |exact Hw].
    intros p n Hn Hi item Hit. eapply (Hfit (index_ item)). apply Ha. by exists p, n. }
  destruct (load_saved (root_ t) G s (mkStore ∅ 1%positive d') r m b seq)
    as (t' & s' & ? & ? & ? & ? & _); [done..|by intros l [? ?]|]. eauto 10.
Qed.
End backup.

Section witness.
#[local] Existing Instance poly_SHA512.
#[local] Existing Instance zero_Indeterminate.

Lemma backup_then_load_witness :
  ∃ d' h, RadixMerkleTree_dtor ex_tree ex_store1 =
            Ok (tt, mkStore (heap ex_store1) (next_loc ex_store1) d') ∧
    tree_get_hash ex_tree ex_store1 = Ok (h, ex_store1) ∧
    ∃ t' s' G', RadixMerkleTree_load h 0 false (mkStore ∅ 1%positive d') = Ok (t', s') ∧
      tree_inv (root_ t') [] 0 G' s' ∧ abs s' G' (contents ex_store1 ex_ghost1) ∧
      tree_get_hash t' s' = Ok (h, s').
Proof.
  apply (backup_then_load ex_tree false 0 ex_ghost1 ex_store1 (contents ex_store1 ex_ghost1)).
  - exact ex_tree1_ok.
  - exact (abs_contents _ _ _ ex_tree1_ok).
  - apply (bool_decide_unpack _). vm_compute. exact I.
  - change (map_Forall (λ _ it, (Z.of_nat (length (leaf_peek_data it)) < 2 ^ 31)%Z)
              (contents ex_store1 ex_ghost1)).
    apply (bool_decide_unpack _). vm_compute. exact I.
  - intros batch. eexists. reflexivity.
Defined.
End witness.
