(* ===== verification/CodedStream.v ===== *)
(** * Protocol buffers: coded streams

    Models the parts of [src/src/protobuf/src/google/protobuf/io/coded_stream.{h,cc}]
    and [coded_stream_inl.h] that parsing from and serializing to a string use: an
    input stream over one array ([input_ == NULL]), and writing to an array.  A
    pointer into the array is the list of the bytes from there on; a read past the
    end of the array is a fault.  Every read operation of such a stream returns, whatever
    the bytes are: no read leaves the array, and what is left of it never grows. *)

From S2P Require Import Prelude Varint BaseUint.

Definition kMaxVarintBytes : nat := 10.
Definition kMaxVarint32Bytes : nat := 5.
Definition kDefaultTotalBytesLimit : Z := Z.shiftl 64 20.
Definition default_recursion_limit_ : Z := 100.

(** ** Input *)

(** [buffer_] is the bytes up to [buffer_end_], [after_limit_] the
    [buffer_size_after_limit_] bytes of the array after it. *)
Record CodedInputStream := mkInput {
  buffer_ : bytes;
  after_limit_ : bytes;
  total_bytes_read_ : Z;
  current_limit_ : Z;
  last_tag_ : Z;
  legitimate_message_end_ : bool;
  recursion_budget_ : Z;
}.

(** [CodedInputStream (const uint8* buffer, int size)] *)
Definition CodedInputStream_new (data : bytes) : CodedInputStream :=
  let size := Z.of_nat (length data) in
  mkInput data [] size size 0 false default_recursion_limit_.

Abbreviation input := (prog CodedInputStream).

Definition set_buffer (b : bytes) (s : CodedInputStream) : CodedInputStream :=
  mkInput b (after_limit_ s) (total_bytes_read_ s) (current_limit_ s) (last_tag_ s) (legitimate_message_end_ s)
    (recursion_budget_ s).
Definition set_last_tag (t : Z) (s : CodedInputStream) : CodedInputStream :=
  mkInput (buffer_ s) (after_limit_ s) (total_bytes_read_ s) (current_limit_ s) t (legitimate_message_end_ s)
    (recursion_budget_ s).
Definition set_message_end (b : bool) (s : CodedInputStream) : CodedInputStream :=
  mkInput (buffer_ s) (after_limit_ s) (total_bytes_read_ s) (current_limit_ s) (last_tag_ s) b
    (recursion_budget_ s).
Definition set_recursion_budget (r : Z) (s : CodedInputStream) : CodedInputStream :=
  mkInput (buffer_ s) (after_limit_ s) (total_bytes_read_ s) (current_limit_ s) (last_tag_ s)
    (legitimate_message_end_ s) r.

(** The split of the array at a limit. *)
Definition set_window (b a : bytes) (limit : Z) (s : CodedInputStream) : CodedInputStream :=
  mkInput b a (total_bytes_read_ s) limit (last_tag_ s) (legitimate_message_end_ s)
    (recursion_budget_ s).

Definition BufferSize (s : CodedInputStream) : nat := length (buffer_ s).
Definition Advance (amount : nat) : input unit := modify (λ s, set_buffer (drop amount (buffer_ s)) s).

Definition buffer_size_after_limit_ (s : CodedInputStream) : Z := Z.of_nat (length (after_limit_ s)).

(** [buffer_size_after_limit_ > 0 || total_bytes_read_ == current_limit_] *)
Definition at_limit (s : CodedInputStream) : bool :=
  Z.ltb 0 (buffer_size_after_limit_ s) || Z.eqb (total_bytes_read_ s) (current_limit_ s).
(** [total_bytes_read_ - buffer_size_after_limit_] *)
Definition limit_position (s : CodedInputStream) : Z :=
  (total_bytes_read_ s - buffer_size_after_limit_ s)%Z.

(** There is nothing to refresh from: [input_] is null. *)
Definition Refresh : input bool :=
  at_limit ← gets at_limit;
  if at_limit : bool then mret false else fail NullDeref.

(** [BufferSize () >= kMaxVarintBytes || (buffer_end_ > buffer_ && !(buffer_end_[-1] & 0x80))] *)
Definition varint_in_buffer (s : CodedInputStream) : bool :=
  bool_decide (kMaxVarintBytes ≤ BufferSize s) ||
  match last (buffer_ s) with Some b => last_byte (byte.unsigned b) | None => false end.

(** [buffer_ < buffer_end_ && *buffer_ < 0x80], with the byte. *)
Definition one_byte (s : CodedInputStream) : option Z :=
  b ← head (buffer_ s);
  if Z.ltb (byte.unsigned b) 0x80 then Some (byte.unsigned b) else None.

(** *** Varints of 32 bits *)

(** The bytes after the fifth are read and discarded. *)
Fixpoint varint32_discard (n : nat) (ptr : bytes) (result : Z) : outcome (option (Z * bytes)) :=
  match n with
  | O => Ok None
  | S n =>
      b ← read ptr 0;
      if last_byte (byte.unsigned b) then Ok (Some (result, drop 1 ptr))
      else varint32_discard n (drop 1 ptr) result
  end.
(** Byte [i] of the [n] bytes left of the first five; [result -= 0x80 << 28] is zero. *)
Fixpoint varint32_bytes (n i : nat) (ptr : bytes) (result : Z) : outcome (option (Z * bytes)) :=
  match n with
  | O => varint32_discard (kMaxVarintBytes - kMaxVarint32Bytes) ptr result
  | S n =>
      b ← read ptr 0;
      let result := u32 (result + u32 (Z.shiftl (byte.unsigned b) (7 * Z.of_nat i))) in
      if last_byte (byte.unsigned b) then Ok (Some (result, drop 1 ptr))
      else varint32_bytes n (S i) (drop 1 ptr) (u32 (result - u32 (Z.shiftl 0x80 (7 * Z.of_nat i))))
  end.
Definition ReadVarint32FromArray (buffer : bytes) : outcome (option (Z * bytes)) :=
  varint32_bytes kMaxVarint32Bytes 0 buffer 0.

(** *** Varints of 64 bits *)

(** The three pieces, of 28, 28 and 8 bits; byte [i] goes into piece [i / 4]. *)
Definition add_part (i : nat) (x : Z) (p : Z * Z * Z) : Z * Z * Z :=
  let '(part0, part1, part2) := p in
  if decide (i < 4) then (u32 (part0 + x), part1, part2)
  else if decide (i < 8) then (part0, u32 (part1 + x), part2)
  else (part0, part1, u32 (part2 + x)).
Definition join_parts (p : Z * Z * Z) : Z :=
  let '(part0, part1, part2) := p in
  Z.lor (Z.lor part0 (u64 (Z.shiftl part1 28))) (u64 (Z.shiftl part2 56)).
Fixpoint varint64_bytes (n i : nat) (ptr : bytes) (p : Z * Z * Z) : outcome (option (Z * bytes)) :=
  match n with
  | O => Ok None
  | S n =>
      b ← read ptr 0;
      let sh := (7 * Z.of_nat (i mod 4))%Z in
      let p := add_part i (u32 (Z.shiftl (byte.unsigned b) sh)) p in
      if last_byte (byte.unsigned b) then Ok (Some (join_parts p, drop 1 ptr))
      else varint64_bytes n (S i) (drop 1 ptr) (add_part i (- u32 (Z.shiftl 0x80 sh)) p)
  end.

(** One byte at a time, with [count] of them read. *)
Fixpoint ReadVarint64Slow_loop (n count : nat) (result : Z) : input (option Z) :=
  match n with
  | O => mret None
  | S n =>
      b ← gets (λ s, head (buffer_ s));
      match b with
      | None => Refresh;; mret None
      | Some b =>
          let b := byte.unsigned b in
          let result := Z.lor result (u64 (Z.shiftl (Z.land b 0x7F) (7 * Z.of_nat count))) in
          Advance 1;;
          if last_byte b then mret (Some result) else ReadVarint64Slow_loop n (S count) result
      end
  end.
Definition ReadVarint64Slow : input (option Z) := ReadVarint64Slow_loop kMaxVarintBytes 0 0.

Definition ReadVarint64Fallback : input (option Z) :=
  fast ← gets varint_in_buffer;
  if fast : bool then
    r ← gets (λ s, varint64_bytes kMaxVarintBytes 0 (buffer_ s) (0, 0, 0)%Z);
    r ← lift r;
    match r with
    | None => mret None
    | Some (value, ptr) => modify (set_buffer ptr);; mret (Some value)
    end
  else ReadVarint64Slow.

Definition ReadVarint64 : input (option Z) :=
  b ← gets one_byte;
  match b with
  | Some b => Advance 1;; mret (Some b)
  | None => ReadVarint64Fallback
  end.

Definition ReadVarint32Slow : input (option Z) :=
  r ← ReadVarint64Fallback; mret ((λ result, u32 result) <$> r).

Definition ReadVarint32Fallback : input (option Z) :=
  fast ← gets varint_in_buffer;
  if fast : bool then
    r ← gets (λ s, ReadVarint32FromArray (buffer_ s));
    r ← lift r;
    match r with
    | None => mret None
    | Some (value, ptr) => modify (set_buffer ptr);; mret (Some value)
    end
  else ReadVarint32Slow.

Definition ReadVarint32 : input (option Z) :=
  b ← gets one_byte;
  match b with
  | Some b => Advance 1;; mret (Some b)
  | None => ReadVarint32Fallback
  end.

(** *** Fixed-width integers and strings *)

(** The copy loop: what there is is consumed before the refresh fails. *)
Definition ReadRaw (size : nat) : input (option bytes) :=
  have ← gets buffer_;
  if decide (length have < size) then
    Advance (length have);; r ← Refresh; if r : bool then fail NullDeref else mret None
  else Advance size;; mret (Some (take size have)).

Definition ReadLittleEndian (width : nat) : input (option Z) :=
  r ← ReadRaw width; mret (le_combine <$> r).
Definition ReadLittleEndian32 : input (option Z) := ReadLittleEndian 4.
Definition ReadLittleEndian64 : input (option Z) := ReadLittleEndian 8.

(** The string read, also when there are too few bytes. *)
Definition ReadStringFallback (size : nat) : input (bool * bytes) :=
  have ← gets buffer_;
  if decide (length have < size) then
    Advance (length have);; r ← Refresh; if r : bool then fail NullDeref else mret (false, have)
  else Advance size;; mret (true, take size have).
Definition InternalReadStringInline (old : bytes) (size : Z) : input (bool * bytes) :=
  if Z.ltb size 0 then mret (false, old)
  else
    have ← gets buffer_;
    if decide (Z.to_nat size ≤ length have) then
      Advance (Z.to_nat size);; mret (true, take (Z.to_nat size) have)
    else ReadStringFallback (Z.to_nat size).

(** *** Tags *)

Definition ReadTagSlow : input Z :=
  empty ← gets (λ s, bool_decide (buffer_ s = []));
  if empty : bool then
    r ← Refresh;
    if r : bool then fail NullDeref
    else
      modify (λ s, set_message_end
        (if Z.leb kDefaultTotalBytesLimit (limit_position s)
         then Z.eqb (current_limit_ s) kDefaultTotalBytesLimit else true) s);;
      mret 0%Z
  else
    r ← ReadVarint64;
    match r with None => mret 0%Z | Some result => mret (u32 result) end.

Definition ReadTagFallback : input Z :=
  fast ← gets varint_in_buffer;
  if fast : bool then
    r ← gets (λ s, ReadVarint32FromArray (buffer_ s));
    r ← lift r;
    match r with
    | None => mret 0%Z
    | Some (tag, ptr) => modify (set_buffer ptr);; mret tag
    end
  else
    at_end ← gets (λ s, bool_decide (buffer_ s = []) && at_limit s &&
                        Z.ltb (limit_position s) kDefaultTotalBytesLimit);
    if at_end : bool then modify (set_message_end true);; mret 0%Z
    else ReadTagSlow.

Definition ReadTag : input Z :=
  b ← gets one_byte;
  match b with
  | Some b => modify (set_last_tag b);; Advance 1;; mret b
  | None => t ← ReadTagFallback; modify (set_last_tag t);; mret t
  end.

(** The calls have a [cutoff] of 127, so the two-byte case of the source is not taken. *)
Definition ReadTagWithCutoff127 : input (Z * bool) :=
  b ← gets (λ s, head (buffer_ s));
  match b with
  | Some b =>
      if Z.ltb 0 (schar b) then
        let tag := byte.unsigned b in
        modify (set_last_tag tag);; Advance 1;; mret (tag, true)
      else t ← ReadTagFallback; modify (set_last_tag t);; mret (t, Z.ltb (u32 (t - 1)) 127)
  | None => t ← ReadTagFallback; modify (set_last_tag t);; mret (t, Z.ltb (u32 (t - 1)) 127)
  end.

(** [ExpectTag] for a tag below 128. *)
Definition ExpectTag (expected : Z) : input bool :=
  hit ← gets (λ s, match head (buffer_ s) with
                   | Some b => Z.eqb (byte.unsigned b) expected
                   | None => false
                   end);
  if hit : bool then Advance 1;; mret true else mret false.

Definition ExpectAtEnd : input bool :=
  at_end ← gets (λ s, bool_decide (buffer_ s = []) && at_limit s);
  if at_end : bool then modify (set_last_tag 0);; modify (set_message_end true);; mret true
  else mret false.

Definition LastTagWas (expected : Z) : input bool := gets (λ s, Z.eqb (last_tag_ s) expected).
Definition ConsumedEntireMessage : input bool := gets legitimate_message_end_.

Definition IncrementRecursionDepth : input bool :=
  modify (λ s, set_recursion_budget (recursion_budget_ s - 1) s);;
  gets (λ s, Z.leb 0 (recursion_budget_ s)).
Definition DecrementRecursionDepth : input unit :=
  modify (λ s, if Z.ltb (recursion_budget_ s) default_recursion_limit_
               then set_recursion_budget (recursion_budget_ s + 1) s else s).

(** *** Limits *)

Definition INT_MAX : Z := 2 ^ 31 - 1.
Definition CurrentPosition (s : CodedInputStream) : Z :=
  (total_bytes_read_ s - (Z.of_nat (BufferSize s) + buffer_size_after_limit_ s))%Z.

(** The bytes of the array from [buffer_] on are split at the closest limit; a limit
    before [buffer_] would leave [buffer_end_] in front of it. *)
Definition RecomputeBufferLimits (current_limit : Z) : input unit :=
  s ← gets id;
  let rest := buffer_ s ++ after_limit_ s in
  let after := (total_bytes_read_ s - Z.min current_limit kDefaultTotalBytesLimit)%Z in
  if Z.ltb 0 after then
    if Z.leb after (Z.of_nat (length rest)) then
      modify (set_window (take (length rest - Z.to_nat after) rest)
                (drop (length rest - Z.to_nat after) rest) current_limit)
    else fail OutOfBounds
  else modify (set_window rest [] current_limit).

(** The old limit is returned. *)
Definition PushLimit (byte_limit : Z) : input Z :=
  current_position ← gets CurrentPosition;
  old_limit ← gets current_limit_;
  let current_limit :=
    if Z.leb 0 byte_limit && Z.leb byte_limit (INT_MAX - current_position)
    then (current_position + byte_limit)%Z else INT_MAX in
  RecomputeBufferLimits (Z.min current_limit old_limit);;
  mret old_limit.
Definition PopLimit (limit : Z) : input unit :=
  RecomputeBufferLimits limit;; modify (set_message_end false).

Definition IncrementRecursionDepthAndPushLimit (byte_limit : Z) : input (Z * Z) :=
  limit ← PushLimit byte_limit;
  modify (λ s, set_recursion_budget (recursion_budget_ s - 1) s);;
  budget ← gets recursion_budget_;
  mret (limit, budget).
Definition DecrementRecursionDepthAndPopLimit (limit : Z) : input bool :=
  result ← ConsumedEntireMessage;
  PopLimit limit;;
  modify (λ s, set_recursion_budget (recursion_budget_ s + 1) s);;
  mret result.

(** ** Output

    The bytes appended at [target]. *)

(** [while (value >= 0x80)]: a [uint32] has at most five groups of seven bits. *)
Fixpoint WriteVarint_loop (n : nat) (value : Z) : bytes :=
  match n with
  | O => [byte.of_Z value]
  | S n =>
      if Z.leb 0x80 value
      then byte.of_Z (Z.lor value 0x80) :: WriteVarint_loop n (Z.shiftr value 7)
      else [byte.of_Z value]
  end.
Definition WriteVarint32ToArray (value : Z) : bytes := WriteVarint_loop 5 value.
Definition WriteLittleEndian32ToArray (value : Z) : bytes := le_split 4 value.
Definition WriteLittleEndian64ToArray (value : Z) : bytes := le_split 8 value.

(** [WriteVarint64ToArrayInline]: the size from the pieces, then the bytes. *)
Definition varint64_size (part0 part1 part2 : Z) : nat :=
  if Z.eqb part2 0 then
    if Z.eqb part1 0 then
      if Z.ltb part0 (2 ^ 14) then if Z.ltb part0 (2 ^ 7) then 1 else 2
      else if Z.ltb part0 (2 ^ 21) then 3 else 4
    else
      if Z.ltb part1 (2 ^ 14) then if Z.ltb part1 (2 ^ 7) then 5 else 6
      else if Z.ltb part1 (2 ^ 21) then 7 else 8
  else if Z.ltb part2 (2 ^ 7) then 9 else 10.
Definition WriteVarint64ToArray (value : Z) : bytes :=
  let part0 := u32 value in
  let part1 := u32 (Z.shiftr value 28) in
  let part2 := u32 (Z.shiftr value 56) in
  let size := varint64_size part0 part1 part2 in
  let target := (λ x, byte.of_Z (Z.lor x 0x80)) <$>
    [part0; Z.shiftr part0 7; Z.shiftr part0 14; Z.shiftr part0 21;
     part1; Z.shiftr part1 7; Z.shiftr part1 14; Z.shiftr part1 21;
     part2; Z.shiftr part2 7] in
  alter (λ b, byte.of_Z (Z.land (byte.unsigned b) 0x7F)) (size - 1) (take size target).

Definition VarintSize32 (value : Z) : nat :=
  if Z.ltb value (2 ^ 7) then 1
  else if Z.ltb value (2 ^ 14) then 2
  else if Z.ltb value (2 ^ 21) then 3
  else if Z.ltb value (2 ^ 28) then 4 else 5.
Definition VarintSize64 (value : Z) : nat :=
  if Z.ltb value (2 ^ 35) then
    if Z.ltb value (2 ^ 7) then 1
    else if Z.ltb value (2 ^ 14) then 2
    else if Z.ltb value (2 ^ 21) then 3
    else if Z.ltb value (2 ^ 28) then 4 else 5
  else
    if Z.ltb value (2 ^ 42) then 6
    else if Z.ltb value (2 ^ 49) then 7
    else if Z.ltb value (2 ^ 56) then 8
    else if Z.ltb value (2 ^ 63) then 9 else 10.

Definition WriteStringWithSizeToArray (s : bytes) : bytes :=
  WriteVarint32ToArray (u32 (Z.of_nat (length s))) ++ s.

(** * Memory safety *)

Create HintDb frames.

(** The stream is over an array, all of it read in, and its buffer ends at the limit. *)
Definition flat (s : CodedInputStream) : Prop := limit_position s = current_limit_ s.

Lemma flat_new data : flat (CodedInputStream_new data).
Proof. unfold flat, limit_position, buffer_size_after_limit_. cbn. lia. Qed.

Lemma flat_at_limit s : flat s → at_limit s = true.
Proof.
  unfold flat, limit_position, at_limit. intros Hs. apply orb_true_iff.
  destruct (Z.ltb_spec 0 (buffer_size_after_limit_ s)); [by left|right]. apply Z.eqb_eq.
  unfold buffer_size_after_limit_ in *. lia.
Qed.

(** The computation returns, and consumes at least [n] bytes of the array when
    its result satisfies [P]. *)
Definition consumes {A} (P : A → Prop) (n : nat) (c : input A) : Prop :=
  ∀ s, flat s → ∃ a s', c s = Ok (a, s') ∧ flat s' ∧ BufferSize s' ≤ BufferSize s ∧
    (P a → BufferSize s' + n ≤ BufferSize s).
Abbreviation safe c := (consumes (λ _, False) 0 c).

Lemma consumes_safe {A} (P : A → Prop) n (c : input A) : consumes P n c → safe c.
Proof. intros Hc s Hs. destruct (Hc s Hs) as (a & s' & ? & ? & ? & _). by exists a, s'. Qed.

Lemma safe_ret {A} (a : A) : safe (mret a).
Proof. intros s Hs. exists a, s. split_and!; [done..|lia|done]. Qed.

Lemma consumes_bind {A B} (P : A → Prop) (Q : B → Prop) n (c : input A) (k : A → input B) :
  safe c → (∀ a, consumes Q n (k a)) → consumes Q n (c ≫= k).
Proof.
  intros Hc Hk s Hs. destruct (Hc s Hs) as (a & s1 & E1 & Hs1 & Hl1 & _).
  destruct (Hk a s1 Hs1) as (b & s2 & E2 & Hs2 & Hl2 & Hn). exists b, s2. rewrite (bind_Ok _ _ _ _ _ E1).
  split_and!; [done..|lia|]. intros HQ. specialize (Hn HQ). lia.
Qed.

Lemma safe_bind {A B} (c : input A) (k : A → input B) : safe c → (∀ a, safe (k a)) → safe (c ≫= k).
Proof. intros Hc Hk. apply (consumes_bind (λ _, False)); done. Qed.

Lemma safe_gets_bind {A B} (f : CodedInputStream → A) (P : B → Prop) n (k : A → input B) :
  (∀ s, flat s → ∃ b s', k (f s) s = Ok (b, s') ∧ flat s' ∧ BufferSize s' ≤ BufferSize s ∧
     (P b → BufferSize s' + n ≤ BufferSize s)) →
  consumes P n (gets f ≫= k).
Proof. intros Hk s Hs. apply Hk. done. Qed.

Lemma safe_modify f : (∀ s, flat s → flat (f s) ∧ BufferSize (f s) ≤ BufferSize s) → safe (modify f).
Proof. intros Hf s Hs. destruct (Hf s Hs). exists tt, (f s). split_and!; done. Qed.

Lemma safe_gets {A} (f : CodedInputStream → A) : safe (gets f).
Proof. intros s Hs. exists (f s), s. split_and!; [done..|lia|done]. Qed.

Lemma safe_Advance n : safe (Advance n).
Proof.
  apply safe_modify. intros s Hs. split; [done|]. unfold BufferSize. cbn. rewrite length_drop. lia.
Qed.

Lemma run_Refresh s : flat s → Refresh s = Ok (false, s).
Proof. intros Hs. unfold Refresh. rewrite (bind_Ok _ _ _ true s); [done|]. unfold gets. by rewrite flat_at_limit. Qed.

Lemma safe_Refresh : safe Refresh.
Proof. intros s Hs. exists false, s. rewrite run_Refresh by done. split_and!; [done..|lia|done]. Qed.

Lemma safe_set_last_tag t : safe (modify (set_last_tag t)).
Proof. by apply safe_modify. Qed.
Lemma safe_set_message_end b : safe (modify (set_message_end b)).
Proof. by apply safe_modify. Qed.

#[export] Hint Resolve safe_ret safe_gets safe_Advance safe_Refresh safe_set_last_tag
  safe_set_message_end : bubi.

(** ** The fast paths *)

(** [k] more bytes can be read from [ptr] without leaving it, or a varint ends before. *)
Definition readable (k : nat) (ptr : bytes) : Prop :=
  k ≤ length ptr ∨ ∃ b, last ptr = Some b ∧ last_byte (byte.unsigned b) = true.

Lemma readable_read k ptr : readable (S k) ptr → ∃ b rest, ptr = b :: rest.
Proof.
  intros Hr. destruct ptr as [|b ptr]; [|by exists b, ptr]. exfalso.
  destruct Hr as [Hr|(b & Hb & _)]; [cbn in Hr; lia|done].
Qed.

Lemma readable_drop k b ptr :
  readable (S k) (b :: ptr) → last_byte (byte.unsigned b) = false → readable k ptr.
Proof.
  intros [Hl|(c & Hc & Hlast)] Hb; [left; cbn in Hl; lia|]. right.
  destruct ptr as [|b' ptr]; [|by exists c]. cbn in Hc. congruence.
Qed.

Lemma varint_in_buffer_readable s :
  varint_in_buffer s = true → readable kMaxVarintBytes (buffer_ s) ∧ buffer_ s ≠ [].
Proof.
  unfold varint_in_buffer, readable, kMaxVarintBytes, BufferSize. intros [H|H]%orb_true_iff.
  - apply bool_decide_eq_true in H. split; [by left|]. intros E. rewrite E in H. cbn in H. lia.
  - destruct (last (buffer_ s)) as [b|] eqn:E; [|done]. split; [right; eauto|].
    intros E'. by rewrite E' in E.
Qed.

Lemma varint32_discard_safe n ptr result :
  readable n ptr →
  ∃ r, varint32_discard n ptr result = Ok r ∧
    match r with Some (_, p) => length p < length ptr | None => True end.
Proof.
  revert ptr. induction n as [|n IH]; intros ptr Hr; cbn [varint32_discard]; [by exists None|].
  destruct (readable_read _ _ Hr) as (b & rest & ->).
  change (read (b :: rest) 0) with (Ok b). mred.
  change (drop 1 (b :: rest)) with rest.
  destruct (last_byte (byte.unsigned b)) eqn:Eb.
  - eexists. split; [done|]. cbn. lia.
  - destruct (IH _ (readable_drop _ _ _ Hr Eb)) as (r & -> & Hl).
    exists r. split; [done|]. destruct r as [[? p]|]; [|done]. cbn. lia.
Qed.

Lemma varint32_bytes_safe n i ptr result :
  readable (n + 5) ptr →
  ∃ r, varint32_bytes n i ptr result = Ok r ∧
    match r with Some (_, p) => length p < length ptr | None => True end.
Proof.
  revert i ptr result. induction n as [|n IH]; intros i ptr result Hr; cbn [varint32_bytes].
  - by apply varint32_discard_safe.
  - destruct (readable_read _ _ Hr) as (b & rest & ->).
  change (read (b :: rest) 0) with (Ok b). mred.
  change (drop 1 (b :: rest)) with rest.
    destruct (last_byte (byte.unsigned b)) eqn:Eb.
    + eexists. split; [done|]. cbn. lia.
    + destruct (IH (S i) _ (u32 (u32 (result + u32 (Z.shiftl (byte.unsigned b) (7 * Z.of_nat i)))
        - u32 (Z.shiftl 0x80 (7 * Z.of_nat i)))) (readable_drop _ _ _ Hr Eb)) as (r & -> & Hl).
      exists r. split; [done|]. destruct r as [[? p]|]; [|done]. cbn. lia.
Qed.

Lemma varint64_bytes_safe n i ptr p :
  readable n ptr →
  ∃ r, varint64_bytes n i ptr p = Ok r ∧
    match r with Some (_, p) => length p < length ptr | None => True end.
Proof.
  revert i ptr p. induction n as [|n IH]; intros i ptr p Hr; cbn [varint64_bytes]; [by exists None|].
  destruct (readable_read _ _ Hr) as (b & rest & ->).
  change (read (b :: rest) 0) with (Ok b). mred.
  change (drop 1 (b :: rest)) with rest.
  destruct (last_byte (byte.unsigned b)) eqn:Eb.
  - eexists. split; [done|]. cbn. lia.
  - set (p' := add_part i (- _) _).
    destruct (IH (S i) _ p' (readable_drop _ _ _ Hr Eb)) as (r & -> & Hl).
    exists r. split; [done|]. destruct r as [[? q]|]; [|done]. cbn. lia.
Qed.

(** ** The operations *)

Definition is_some {A} (o : option A) : Prop := is_Some o.
Definition nonzero (t : Z) : Prop := t ≠ 0%Z.

Lemma consumes_mono {A} (P Q : A → Prop) n m (c : input A) :
  (∀ a, Q a → P a) → m ≤ n → consumes P n c → consumes Q m c.
Proof.
  intros HPQ Hmn Hc s Hs. destruct (Hc s Hs) as (a & s' & ? & ? & ? & Hn). exists a, s'.
  split_and!; [done..|]. intros HQ. specialize (Hn (HPQ _ HQ)). lia.
Qed.

(** A bind after a computation that consumes. *)
Lemma consumes_then {A B} (P : A → Prop) (Q : B → Prop) n (c : input A) (k : A → input B) :
  consumes P n c → (∀ a, P a → safe (k a)) → (∀ a, ¬ P a → consumes Q n (k a)) → (∀ a, P a ∨ ¬ P a) →
  consumes Q n (c ≫= k).
Proof.
  intros Hc Hk1 Hk2 Hdec s Hs. destruct (Hc s Hs) as (a & s1 & E1 & Hs1 & Hl1 & Hn1).
  rewrite (bind_Ok _ _ _ _ _ E1). destruct (Hdec a) as [HP|HP].
  - destruct (Hk1 a HP s1 Hs1) as (b & s2 & E2 & Hs2 & Hl2 & _). exists b, s2.
    specialize (Hn1 HP). split_and!; [done..|lia|lia].
  - destruct (Hk2 a HP s1 Hs1) as (b & s2 & E2 & Hs2 & Hl2 & Hn2). exists b, s2.
    split_and!; [done..|lia|]. intros HQ. specialize (Hn2 HQ). lia.
Qed.

(** The fast path reads from the buffer, the other one byte at a time. *)
Lemma consumes_fast {B} (P : B → Prop) (F : bytes → outcome (option (Z * bytes)))
    (none : B) (some : Z → B) (slow : input B) :
  (∀ s, varint_in_buffer s = true → ∃ r, F (buffer_ s) = Ok r ∧
     match r with Some (_, p) => length p < length (buffer_ s) | None => True end) →
  ¬ P none → consumes P 1 slow →
  consumes P 1
    (fast ← gets varint_in_buffer;
     if fast : bool then
       r ← gets (λ s, F (buffer_ s));
       r ← lift r;
       match r with
       | None => mret none
       | Some (value, ptr) => modify (set_buffer ptr);; mret (some value)
       end
     else slow).
Proof.
  intros HF Hnone Hslow. apply safe_gets_bind. intros s Hs.
  destruct (varint_in_buffer s) eqn:Hv; [|by apply Hslow].
  destruct (HF s Hv) as (r & Hr & Hp). rewrite (bind_Ok _ _ _ (F (buffer_ s)) s) by done.
  rewrite (bind_Ok _ _ _ r s) by (by apply lift_Ok). destruct r as [[v ptr]|].
  - exists (some v), (set_buffer ptr s). unfold BufferSize. split_and!; [done..|cbn; lia|cbn; lia].
  - exists none, s. split_and!; [done..|lia|done].
Qed.

Lemma ReadVarint64Slow_loop_safe n count result :
  consumes is_some 1 (ReadVarint64Slow_loop n count result).
Proof.
  revert count result. induction n as [|n IH]; intros count result; cbn [ReadVarint64Slow_loop].
  { intros s Hs. exists None, s. split_and!; [done..|lia|by intros [? ?]]. }
  apply safe_gets_bind. intros s Hs. destruct (buffer_ s) as [|b rest] eqn:Eb; cbn [head].
  - rewrite (bind_Ok _ _ _ _ _ (run_Refresh s Hs)). exists None, s. split_and!; [done..|lia|by intros [? ?]].
  - rewrite (bind_Ok _ _ _ tt (set_buffer rest s)).
    2:{ unfold Advance, modify. by rewrite Eb. }
    assert (BufferSize s = S (length rest)) as El by (unfold BufferSize; by rewrite Eb).
    destruct (last_byte (byte.unsigned b)).
    + eexists _, (set_buffer rest s). split_and!; [done..|rewrite El|rewrite El]; unfold BufferSize; cbn; lia.
    + destruct (IH (S count) (Z.lor result (u64 (Z.shiftl (Z.land (byte.unsigned b) 127) (7 * Z.of_nat count))))
        (set_buffer rest s) Hs) as (a & s' & E & Hs' & Hl & _).
      exists a, s'. rewrite El. unfold BufferSize in *. cbn in Hl. split_and!; [done..|lia|lia].
Qed.

Lemma ReadVarint64Fallback_safe : consumes is_some 1 ReadVarint64Fallback.
Proof.
  apply (consumes_fast _ (λ b, varint64_bytes kMaxVarintBytes 0 b (0, 0, 0)%Z)).
  - intros s Hv. by apply varint64_bytes_safe, varint_in_buffer_readable.
  - by intros [? ?].
  - apply ReadVarint64Slow_loop_safe.
Qed.

Lemma ReadVarint32FromArray_safe s :
  varint_in_buffer s = true → ∃ r, ReadVarint32FromArray (buffer_ s) = Ok r ∧
    match r with Some (_, p) => length p < length (buffer_ s) | None => True end.
Proof. intros Hv. by apply varint32_bytes_safe, varint_in_buffer_readable. Qed.

(** The common start: a varint of one byte is taken at once. *)
Lemma consumes_one_byte {B} (P : B → Prop) (k : Z → input B) (slow : input B) :
  (∀ b, safe (k b)) → consumes P 1 slow →
  consumes P 1 (b ← gets one_byte; match b with Some b => Advance 1;; k b | None => slow end).
Proof.
  intros Hk Hslow. apply safe_gets_bind. intros s Hs.
  destruct (one_byte s) as [b|] eqn:Eb; [|by apply Hslow].
  unfold one_byte in Eb. destruct (buffer_ s) as [|c rest] eqn:Eb'; [done|].
  destruct (Hk b (set_buffer rest s) Hs) as (a & s' & E & Hs' & Hl & _).
  exists a, s'. rewrite (bind_Ok _ _ _ tt (set_buffer rest s)) by (unfold Advance, modify; by rewrite Eb').
  unfold BufferSize in *. rewrite Eb'. cbn in *. split_and!; [done..|lia|lia].
Qed.

Lemma ReadVarint64_safe : consumes is_some 1 ReadVarint64.
Proof. apply consumes_one_byte; [intros; apply safe_ret|apply ReadVarint64Fallback_safe]. Qed.

Lemma ReadVarint32_safe : consumes is_some 1 ReadVarint32.
Proof.
  apply consumes_one_byte; [intros; apply safe_ret|].
  apply consumes_fast; [apply ReadVarint32FromArray_safe|by intros [? ?]|].
  apply (consumes_then is_some); [apply ReadVarint64Fallback_safe| | |].
  - intros; apply safe_ret.
  - intros [v|] Hn; [by destruct Hn; exists v|]. intros s Hs. exists None, s.
    split_and!; [done..|lia|by intros [? ?]].
  - intros [v|]; [left; by exists v|right; by intros [? ?]].
Qed.

Lemma ReadTagSlow_safe : consumes nonzero 1 ReadTagSlow.
Proof.
  unfold ReadTagSlow. apply safe_gets_bind. intros s Hs.
  destruct (bool_decide (buffer_ s = [])).
  - rewrite (bind_Ok _ _ _ _ _ (run_Refresh s Hs)). eexists 0%Z, _.
    split_and!; [done|done|done|by intros []].
  - destruct (ReadVarint64_safe s Hs) as (o & s' & E & Hs' & Hl & Hn).
    rewrite (bind_Ok _ _ _ _ _ E). destruct o as [v|].
    + exists (u32 v), s'. split_and!; [done..|]. intros _. apply Hn. by exists v.
    + exists 0%Z, s'. split_and!; [done..|by intros []].
Qed.

Lemma ReadTagFallback_safe : consumes nonzero 1 ReadTagFallback.
Proof.
  apply consumes_fast; [apply ReadVarint32FromArray_safe|by intros []|].
  apply safe_gets_bind. intros s Hs. destruct (_ && _ && _); [|by apply ReadTagSlow_safe].
  eexists 0%Z, _. split_and!; [done|done|done|by intros []].
Qed.

Lemma consumes_then_tag {B} (P : B → Prop) (f : Z → B) :
  (∀ t, P (f t) → nonzero t) →
  consumes P 1 (t ← ReadTagFallback; modify (set_last_tag t);; mret (f t)).
Proof.
  intros Hf s Hs. destruct (ReadTagFallback_safe s Hs) as (t & s1 & E & Hs1 & Hl & Hn).
  exists (f t), (set_last_tag t s1). rewrite (bind_Ok _ _ _ _ _ E). split_and!; [done..|].
  intros HP. apply Hn. by apply Hf.
Qed.

Lemma ReadTag_safe : consumes nonzero 1 ReadTag.
Proof.
  apply safe_gets_bind. intros s Hs. destruct (one_byte s) as [b|] eqn:Eb.
  - unfold one_byte in Eb. destruct (buffer_ s) as [|c rest] eqn:Eb'; [done|].
    exists b, (set_buffer rest (set_last_tag b s)).
    rewrite (bind_Ok _ _ _ tt (set_last_tag b s)) by done.
    rewrite (bind_Ok _ _ _ tt (set_buffer rest (set_last_tag b s)))
      by (unfold Advance, modify; cbn; by rewrite Eb').
    unfold BufferSize. rewrite Eb'. cbn. split_and!; [done..|lia|lia].
  - apply (consumes_then_tag nonzero id); done.
Qed.

Lemma ReadTagWithCutoff127_safe : consumes (λ p, nonzero p.1) 1 ReadTagWithCutoff127.
Proof.
  apply safe_gets_bind. intros s Hs. destruct (buffer_ s) as [|b rest] eqn:Eb; cbn [head].
  { by apply (consumes_then_tag (λ p, nonzero p.1) (λ t, (t, Z.ltb (u32 (t - 1)) 127))). }
  destruct (Z.ltb 0 (schar b)).
  - exists (byte.unsigned b, true), (set_buffer rest (set_last_tag (byte.unsigned b) s)).
    rewrite (bind_Ok _ _ _ tt (set_last_tag (byte.unsigned b) s)) by done.
    rewrite (bind_Ok _ _ _ tt (set_buffer rest (set_last_tag (byte.unsigned b) s)))
      by (unfold Advance, modify; cbn; by rewrite Eb).
    unfold BufferSize. rewrite Eb. cbn. split_and!; [done..|lia|lia].
  - by apply (consumes_then_tag (λ p, nonzero p.1) (λ t, (t, Z.ltb (u32 (t - 1)) 127))).
Qed.

Lemma ReadRaw_safe n : safe (ReadRaw n).
Proof.
  apply safe_gets_bind. intros s Hs. case_decide as E.
  - exists None, (set_buffer (drop (length (buffer_ s)) (buffer_ s)) s).
    rewrite (bind_Ok _ _ _ tt (set_buffer (drop (length (buffer_ s)) (buffer_ s)) s)) by done.
    step (run_Refresh (set_buffer (drop (length (buffer_ s)) (buffer_ s)) s) Hs).
    unfold BufferSize. cbn. rewrite length_drop. split_and!; [done..|lia|done].
  - exists (Some (take n (buffer_ s))), (set_buffer (drop n (buffer_ s)) s).
    unfold BufferSize. cbn. rewrite length_drop. split_and!; [done..|lia|done].
Qed.

Lemma ReadLittleEndian_safe w : safe (ReadLittleEndian w).
Proof. apply safe_bind; [apply ReadRaw_safe|intros; apply safe_ret]. Qed.

Lemma ReadStringFallback_safe n : safe (ReadStringFallback n).
Proof.
  apply safe_gets_bind. intros s Hs. case_decide as E.
  - exists (false, buffer_ s), (set_buffer (drop (length (buffer_ s)) (buffer_ s)) s).
    rewrite (bind_Ok _ _ _ tt (set_buffer (drop (length (buffer_ s)) (buffer_ s)) s)) by done.
    step (run_Refresh (set_buffer (drop (length (buffer_ s)) (buffer_ s)) s) Hs).
    unfold BufferSize. cbn. rewrite length_drop. split_and!; [done..|lia|done].
  - exists (true, take n (buffer_ s)), (set_buffer (drop n (buffer_ s)) s).
    unfold BufferSize. cbn. rewrite length_drop. split_and!; [done..|lia|done].
Qed.

Lemma InternalReadStringInline_safe old z : safe (InternalReadStringInline old z).
Proof.
  unfold InternalReadStringInline. destruct (Z.ltb z 0); [apply safe_ret|].
  apply safe_bind; [apply safe_gets|]. intros have. case_decide.
  - apply safe_bind; [apply safe_Advance|intros; apply safe_ret].
  - apply ReadStringFallback_safe.
Qed.

Lemma ExpectTag_safe t : safe (ExpectTag t).
Proof.
  apply safe_bind; [apply safe_gets|]. intros []; [|apply safe_ret].
  apply safe_bind; [apply safe_Advance|intros; apply safe_ret].
Qed.

Lemma ExpectAtEnd_safe : safe ExpectAtEnd.
Proof.
  apply safe_bind; [apply safe_gets|]. intros []; [|apply safe_ret].
  apply safe_bind; [apply safe_set_last_tag|intros _].
  apply safe_bind; [apply safe_set_message_end|intros _; apply safe_ret].
Qed.

Lemma IncrementRecursionDepth_safe : safe IncrementRecursionDepth.
Proof. apply safe_bind; [by apply safe_modify|intros; apply safe_gets]. Qed.

Lemma DecrementRecursionDepth_safe : safe DecrementRecursionDepth.
Proof. apply safe_modify. intros s Hs. destruct (Z.ltb _ _); done. Qed.

#[export] Hint Resolve ReadLittleEndian_safe InternalReadStringInline_safe ExpectTag_safe
  ExpectAtEnd_safe IncrementRecursionDepth_safe DecrementRecursionDepth_safe : bubi.

(** ** The limits stay

    Apart from [PushLimit] and [PopLimit], the operations only move [buffer_]
    within the limits of the stream. *)

Definition window (s : CodedInputStream) : bytes * Z * Z :=
  (after_limit_ s, total_bytes_read_ s, current_limit_ s).
Definition frames {A} (c : input A) : Prop := ∀ s a s', c s = Ok (a, s') → window s' = window s.

Lemma window_flat s s' : window s' = window s → flat s → flat s'.
Proof. unfold window, flat, limit_position, buffer_size_after_limit_. intros [= -> -> ->]. done. Qed.

Lemma frames_ret {A} (a : A) : frames (mret a).
Proof. by intros s a' s' [= <- <-]. Qed.
Lemma frames_gets {A} (f : CodedInputStream → A) : frames (gets f).
Proof. by intros s a' s' [= <- <-]. Qed.
Lemma frames_modify f : (∀ s, window (f s) = window s) → frames (modify f).
Proof. by intros Hf s [] s' [= <-]. Qed.
Lemma frames_fail {A} e : frames (fail e : input A).
Proof. by intros s a s' [=]. Qed.
Lemma frames_lift {A} (o : outcome A) : frames (lift o).
Proof. intros s a s'. destruct o; [|done]. by intros [= -> ->]. Qed.
Lemma frames_bind {A B} (c : input A) (k : A → input B) :
  frames c → (∀ a, frames (k a)) → frames (c ≫= k).
Proof.
  intros Hc Hk s b s' E. apply bind_inv in E as (a & s1 & E1 & E2).
  rewrite (Hk _ _ _ _ E2). by eapply Hc.
Qed.

#[export] Hint Resolve frames_ret frames_gets frames_fail frames_lift : frames.

(** Go through the code of a program. *)
Ltac frames :=
  repeat first
    [ solve [eauto with frames]
    | apply frames_bind; [|intros ?]
    | apply frames_modify; intros ?
    | progress case_match
    | reflexivity ].

Lemma frames_Refresh : frames Refresh.
Proof. unfold Refresh. frames. Qed.
Lemma frames_Advance n : frames (Advance n).
Proof. unfold Advance. frames. Qed.
#[export] Hint Resolve frames_Refresh frames_Advance : frames.

Lemma frames_ReadVarint64Slow_loop n count result : frames (ReadVarint64Slow_loop n count result).
Proof. revert count result. induction n; intros; cbn [ReadVarint64Slow_loop]; frames. Qed.
#[export] Hint Resolve frames_ReadVarint64Slow_loop : frames.
Lemma frames_ReadVarint64Fallback : frames ReadVarint64Fallback.
Proof. unfold ReadVarint64Fallback, ReadVarint64Slow. frames. Qed.
#[export] Hint Resolve frames_ReadVarint64Fallback : frames.
Lemma frames_ReadVarint64 : frames ReadVarint64.
Proof. unfold ReadVarint64. frames. Qed.
Lemma frames_ReadVarint32 : frames ReadVarint32.
Proof. unfold ReadVarint32, ReadVarint32Fallback, ReadVarint32Slow. frames. Qed.
#[export] Hint Resolve frames_ReadVarint64 frames_ReadVarint32 : frames.
Lemma frames_ReadLittleEndian w : frames (ReadLittleEndian w).
Proof. unfold ReadLittleEndian, ReadRaw. frames. Qed.
Lemma frames_InternalReadStringInline old z : frames (InternalReadStringInline old z).
Proof. unfold InternalReadStringInline, ReadStringFallback. frames. Qed.
Lemma frames_ReadTagFallback : frames ReadTagFallback.
Proof. unfold ReadTagFallback, ReadTagSlow. frames. Qed.
#[export] Hint Resolve frames_ReadLittleEndian frames_InternalReadStringInline frames_ReadTagFallback : frames.
Lemma frames_ReadTag : frames ReadTag.
Proof. unfold ReadTag. frames. Qed.
Lemma frames_ReadTagWithCutoff127 : frames ReadTagWithCutoff127.
Proof. unfold ReadTagWithCutoff127. frames. Qed.
Lemma frames_ExpectTag t : frames (ExpectTag t).
Proof. unfold ExpectTag. frames. Qed.
Lemma frames_ExpectAtEnd : frames ExpectAtEnd.
Proof. unfold ExpectAtEnd. frames. Qed.
Lemma frames_IncrementRecursionDepth : frames IncrementRecursionDepth.
Proof. unfold IncrementRecursionDepth. frames. Qed.
Lemma frames_DecrementRecursionDepth : frames DecrementRecursionDepth.
Proof. unfold DecrementRecursionDepth. frames. Qed.
Lemma frames_LastTagWas t : frames (LastTagWas t).
Proof. unfold LastTagWas. frames. Qed.
#[export] Hint Resolve frames_ReadTag frames_ReadTagWithCutoff127 frames_ExpectTag frames_ExpectAtEnd
  frames_IncrementRecursionDepth frames_DecrementRecursionDepth frames_LastTagWas : frames.
