(* ===== verification/WireFormat.v ===== *)
(** * Protocol buffers: the wire format

    Models the parts of [src/src/protobuf/src/google/protobuf/wire_format_lite.{h,cc}],
    [wire_format_lite_inl.h], [wire_format.cc] and [message_lite.cc] that the
    generated messages use: tags, field readers and writers with their sizes,
    unknown fields, and the parse and serialize entry points.  The UTF-8 checks of
    the generated code only log and are not represented. *)

From S2P Require Import Prelude BaseUint CodedStream.

(** ** Tags *)

Definition WIRETYPE_VARINT : Z := 0.
Definition WIRETYPE_FIXED64 : Z := 1.
Definition WIRETYPE_LENGTH_DELIMITED : Z := 2.
Definition WIRETYPE_START_GROUP : Z := 3.
Definition WIRETYPE_END_GROUP : Z := 4.
Definition WIRETYPE_FIXED32 : Z := 5.

Definition MakeTag (field_number type : Z) : Z := u32 (Z.lor (Z.shiftl field_number 3) type).
Definition GetTagWireType (tag : Z) : Z := Z.land tag 7.
Definition GetTagFieldNumber (tag : Z) : Z := Z.shiftr tag 3.

(** ** Unknown fields *)

Inductive UnknownField :=
| TYPE_VARINT (number varint : Z)
| TYPE_FIXED32 (number fixed32 : Z)
| TYPE_FIXED64 (number fixed64 : Z)
| TYPE_LENGTH_DELIMITED (number : Z) (length_delimited : bytes)
| TYPE_GROUP (number : Z) (group : list UnknownField).
Abbreviation UnknownFieldSet := (list UnknownField).

(** [WireFormat::SkipField], given [SkipMessage] for a nested group.  It returns
    whether it succeeded and the unknown fields with what it has added. *)
Definition SkipField_with (SkipMessage : UnknownFieldSet → input (bool * UnknownFieldSet))
    (tag : Z) (unknown_fields : UnknownFieldSet) : input (bool * UnknownFieldSet) :=
  let number := GetTagFieldNumber tag in
  let add r (f : Z → UnknownField) :=
    match r with
    | Some value => mret (true, unknown_fields ++ [f value])
    | None => mret (false, unknown_fields)
    end in
  match GetTagWireType tag with
  | 0 => r ← ReadVarint64; add r (TYPE_VARINT number)
  | 1 => r ← ReadLittleEndian64; add r (TYPE_FIXED64 number)
  | 2 =>
      length ← ReadVarint32;
      match length with
      | None => mret (false, unknown_fields)
      | Some length =>
          r ← InternalReadStringInline [] (to_int32 length);
          mret (r.1, unknown_fields ++ [TYPE_LENGTH_DELIMITED number r.2])
      end
  | 3 =>
      ok ← IncrementRecursionDepth;
      if ok : bool then
        r ← SkipMessage [];
        let unknown_fields := unknown_fields ++ [TYPE_GROUP number r.2] in
        if r.1 : bool then
          DecrementRecursionDepth;;
          ok ← LastTagWas (MakeTag number WIRETYPE_END_GROUP);
          mret (ok, unknown_fields)
        else mret (false, unknown_fields)
      else mret (false, unknown_fields)
  | 5 => r ← ReadLittleEndian32; add r (TYPE_FIXED32 number)
  | _ => mret (false, unknown_fields)
  end%Z.

Fixpoint SkipMessage (fuel : nat) (unknown_fields : UnknownFieldSet)
    : input (bool * UnknownFieldSet) :=
  match fuel with
  | O => fail OutOfFuel
  | S fuel =>
      tag ← ReadTag;
      if Z.eqb tag 0 then mret (true, unknown_fields)
      else if Z.eqb (GetTagWireType tag) WIRETYPE_END_GROUP then mret (true, unknown_fields)
      else
        r ← SkipField_with (SkipMessage fuel) tag unknown_fields;
        if r.1 : bool then SkipMessage fuel r.2 else mret (false, r.2)
  end.

(** A group has no more fields than there are bytes left. *)
Definition SkipField (tag : Z) (unknown_fields : UnknownFieldSet) : input (bool * UnknownFieldSet) :=
  fuel ← gets (λ s, S (BufferSize s));
  SkipField_with (SkipMessage fuel) tag unknown_fields.

(** ** Field readers *)

(** [WireFormatLite::ReadString] into a string that holds [value]. *)
Definition ReadString (value : bytes) : input (bool * bytes) :=
  length ← ReadVarint32;
  match length with
  | None => mret (false, value)
  | Some length => InternalReadStringInline value (to_int32 length)
  end.

(** [ReadPrimitive] of a [double], kept as its 64 bits, and of a [uint32]. *)
Definition ReadDouble : input (option Z) := ReadLittleEndian64.
Definition ReadUInt32 : input (option Z) := ReadVarint32.

(** ** Field writers *)

Definition WriteTagToArray (field_number type : Z) : bytes :=
  WriteVarint32ToArray (MakeTag field_number type).
Definition WriteStringToArray (field_number : Z) (value : bytes) : bytes :=
  WriteTagToArray field_number WIRETYPE_LENGTH_DELIMITED ++ WriteStringWithSizeToArray value.
Definition WriteDoubleToArray (field_number value : Z) : bytes :=
  WriteTagToArray field_number WIRETYPE_FIXED64 ++ WriteLittleEndian64ToArray value.
Definition WriteUInt32ToArray (field_number value : Z) : bytes :=
  WriteTagToArray field_number WIRETYPE_VARINT ++ WriteVarint32ToArray value.

Fixpoint SerializeUnknownFieldToArray (f : UnknownField) : bytes :=
  match f with
  | TYPE_VARINT n v => WriteTagToArray n WIRETYPE_VARINT ++ WriteVarint64ToArray v
  | TYPE_FIXED32 n v => WriteTagToArray n WIRETYPE_FIXED32 ++ WriteLittleEndian32ToArray v
  | TYPE_FIXED64 n v => WriteTagToArray n WIRETYPE_FIXED64 ++ WriteLittleEndian64ToArray v
  | TYPE_LENGTH_DELIMITED n s =>
      WriteTagToArray n WIRETYPE_LENGTH_DELIMITED ++ WriteStringWithSizeToArray s
  | TYPE_GROUP n fs =>
      WriteTagToArray n WIRETYPE_START_GROUP ++
      mjoin (SerializeUnknownFieldToArray <$> fs) ++ WriteTagToArray n WIRETYPE_END_GROUP
  end.
Definition SerializeUnknownFieldsToArray (fs : UnknownFieldSet) : bytes :=
  mjoin (SerializeUnknownFieldToArray <$> fs).

(** ** Sizes *)

Definition UInt32Size (value : Z) : nat := VarintSize32 value.
Definition StringSize (value : bytes) : nat :=
  VarintSize32 (u32 (Z.of_nat (length value))) + length value.
Definition TagSize (number type : Z) : nat := VarintSize32 (MakeTag number type).

Fixpoint UnknownFieldSize (f : UnknownField) : nat :=
  match f with
  | TYPE_VARINT n v => TagSize n WIRETYPE_VARINT + VarintSize64 v
  | TYPE_FIXED32 n v => TagSize n WIRETYPE_FIXED32 + 4
  | TYPE_FIXED64 n v => TagSize n WIRETYPE_FIXED64 + 8
  | TYPE_LENGTH_DELIMITED n s => TagSize n WIRETYPE_LENGTH_DELIMITED + StringSize s
  | TYPE_GROUP n fs =>
      TagSize n WIRETYPE_START_GROUP + sum_list (UnknownFieldSize <$> fs) +
      TagSize n WIRETYPE_END_GROUP
  end.
Definition ComputeUnknownFieldsSize (fs : UnknownFieldSet) : nat :=
  sum_list (UnknownFieldSize <$> fs).

(** ** Messages

    What the entry points of [MessageLite] use of a generated message. *)

Class MessageLite (M : Type) := {
  Message_Clear : M → M;
  MergePartialFromCodedStream : M → input (bool * M);
  IsInitialized : M → bool;
  ByteSize : M → nat;
  SerializeWithCachedSizesToArray : M → bytes;
}.

Section MessageLite.
Context {M : Type} `{MessageLite M}.

(** A message as a field of another: the size the writer uses is the one [ByteSize]
    has cached.  A failure leaves the limit in place. *)
Definition ReadMessageNoVirtual (value : M) : input (bool * M) :=
  length ← ReadVarint32;
  match length with
  | None => mret (false, value)
  | Some length =>
      p ← IncrementRecursionDepthAndPushLimit (to_int32 length);
      if Z.ltb p.2 0 then mret (false, value)
      else
        r ← MergePartialFromCodedStream value;
        if r.1 : bool then
          ok ← DecrementRecursionDepthAndPopLimit p.1; mret (ok, r.2)
        else mret (false, r.2)
  end.
Definition WriteMessageNoVirtualToArray (field_number : Z) (value : M) : bytes :=
  WriteTagToArray field_number WIRETYPE_LENGTH_DELIMITED ++
  WriteVarint32ToArray (u32 (Z.of_nat (ByteSize value))) ++ SerializeWithCachedSizesToArray value.
Definition MessageSizeNoVirtual (value : M) : nat :=
  VarintSize32 (u32 (Z.of_nat (ByteSize value))) + ByteSize value.

Definition InlineMergeFromCodedStream (message : M) : input (bool * M) :=
  r ← MergePartialFromCodedStream message;
  if r.1 : bool then mret (IsInitialized r.2, r.2) else mret (false, r.2).
Definition InlineParseFromCodedStream (message : M) : input (bool * M) :=
  InlineMergeFromCodedStream (Message_Clear message).
Definition InlineParseFromArray (data : bytes) (message : M) : outcome (bool * M) :=
  r ← (r ← InlineParseFromCodedStream message;
       if r.1 : bool then e ← ConsumedEntireMessage; mret (e, r.2) else mret (false, r.2))
      (CodedInputStream_new data);
  mret r.1.
Definition ParseFromString (data : bytes) (message : M) : outcome (bool * M) :=
  InlineParseFromArray data message.

(** The string after the call; a size that overflows [int] is an error, a size that
    disagrees with the bytes written aborts. *)
Definition AppendPartialToString (message : M) (output : bytes) : outcome (bool * bytes) :=
  let byte_size := to_int32 (u32 (Z.of_nat (ByteSize message))) in
  if Z.ltb byte_size 0 then Ok (false, output)
  else
    let written := SerializeWithCachedSizesToArray message in
    if Z.eqb (Z.of_nat (length written)) byte_size then Ok (true, output ++ written)
    else Err AssertFailed.
Definition SerializeToString (message : M) : outcome (bool * bytes) :=
  AppendPartialToString message [].
End MessageLite.
