(* ===== verification/WireLemmas.v ===== *)
(** * The wire format: reading back what is written, sizes, safety *)

From S2P Require Import Prelude Varint BaseUint CodedStream WireFormat.

(** ** Reading a varint back *)

Lemma mod_norm a b c d M :
  ((((a + b mod M) mod M - c mod M) mod M + d) mod M = (a + b - c + d) mod M)%Z.
Proof.
  rewrite Zplus_mod_idemp_l. rewrite Zplus_mod_idemp_r.
  replace ((a + b) mod M - c mod M + d)%Z with (d + (a + b) mod M - c mod M)%Z by ring.
  rewrite Zminus_mod_idemp_r. replace (d + (a + b) mod M - c)%Z with (d - c + (a + b) mod M)%Z by ring.
  rewrite Zplus_mod_idemp_r. f_equal. ring.
Qed.

Lemma varint32_bytes_write k n i v rest result :
  k < n → (0 ≤ v < 2 ^ (7 * Z.of_nat (S k)))%Z →
  varint32_bytes n i (WriteVarint_loop k v ++ rest) result =
    Ok (Some (u32 (result + v * 2 ^ (7 * Z.of_nat i)), rest)).
Proof.
  revert n i v result. induction k as [|k IH]; intros n i v result Hk Hv;
    (destruct n as [|n]; [lia|]); cbn [WriteVarint_loop varint32_bytes].
  - assert (0 ≤ v < 128)%Z as Hv' by (cbn in Hv; lia).
    change (read ([byte.of_Z v] ++ rest) 0) with (Ok (byte.of_Z v)). mred.
    rewrite varint_byte_last, last_byte_last by done. rewrite Z.shiftl_mul_pow2 by lia.
    by rewrite Zplus_mod_idemp_r.
  - destruct (Z.leb_spec 128 v) as [Hge|Hlt].
    + change (read ((byte.of_Z (Z.lor v 128) :: WriteVarint_loop k (Z.shiftr v 7)) ++ rest) 0)
        with (Ok (byte.of_Z (Z.lor v 128))). mred.
      rewrite varint_byte_cont, last_byte_cont.
      change (drop 1 ((byte.of_Z (Z.lor v 128) :: WriteVarint_loop k (Z.shiftr v 7)) ++ rest))
        with (WriteVarint_loop k (Z.shiftr v 7) ++ rest).
      rewrite shiftr_7, IH by (lia || by apply varint_bound). do 3 f_equal.
      rewrite !Z.shiftl_mul_pow2 by lia. rewrite mod_norm, (split_128 v i). f_equal. ring.
    + change (read ([byte.of_Z v] ++ rest) 0) with (Ok (byte.of_Z v)). mred.
      rewrite varint_byte_last, last_byte_last by lia. rewrite Z.shiftl_mul_pow2 by lia.
      by rewrite Zplus_mod_idemp_r.
Qed.

(** The loop of the writer stops after the last group of seven bits. *)
Lemma WriteVarint_loop_S k v :
  (0 ≤ v < 2 ^ (7 * Z.of_nat (S k)))%Z → WriteVarint_loop (S k) v = WriteVarint_loop k v.
Proof.
  revert v. induction k as [|k IH]; intros v Hv.
  - cbn [WriteVarint_loop]. destruct (Z.leb_spec 128 v); [cbn in Hv; lia|done].
  - change (WriteVarint_loop (S (S k)) v) with
      (if Z.leb 128 v then byte.of_Z (Z.lor v 128) :: WriteVarint_loop (S k) (Z.shiftr v 7)
       else [byte.of_Z v]).
    rewrite shiftr_7, IH by (by apply varint_bound). cbn [WriteVarint_loop]. by rewrite shiftr_7.
Qed.

Lemma WriteVarint32_loop v : (0 ≤ v < 2 ^ 32)%Z → WriteVarint32ToArray v = WriteVarint_loop 4 v.
Proof. intros Hv. apply (WriteVarint_loop_S 4). cbn. lia. Qed.

Lemma ReadVarint32FromArray_write v rest :
  (0 ≤ v < 2 ^ 32)%Z →
  ReadVarint32FromArray (WriteVarint32ToArray v ++ rest) = Ok (Some (v, rest)).
Proof.
  intros Hv. rewrite WriteVarint32_loop by done. unfold ReadVarint32FromArray, kMaxVarint32Bytes.
  rewrite varint32_bytes_write by (lia || cbn; lia). do 3 f_equal.
  rewrite Z.mul_1_r, Z.add_0_l. by apply Z.mod_small.
Qed.

Lemma lor_group b c r :
  c ≤ 8 → (0 ≤ r < 2 ^ (7 * Z.of_nat c))%Z →
  Z.lor r (u64 (Z.shiftl (b mod 128) (7 * Z.of_nat c))) = (r + b mod 128 * 2 ^ (7 * Z.of_nat c))%Z.
Proof.
  intros Hc Hr. pose proof (Z.mod_pos_bound b 128 ltac:(lia)).
  rewrite Z.shiftl_mul_pow2 by lia. rewrite Z.mod_small; [by apply lor_shifted; lia|].
  assert (2 ^ (7 * Z.of_nat c) ≤ 2 ^ 56)%Z by (apply Z.pow_le_mono_r; lia). nia.
Qed.

Lemma ReadVarint64Slow_write k n count v rest result s :
  k < n → (0 ≤ v < 2 ^ (7 * Z.of_nat (S k)))%Z → count + k ≤ 8 →
  (0 ≤ result < 2 ^ (7 * Z.of_nat count))%Z → buffer_ s = WriteVarint_loop k v ++ rest →
  ReadVarint64Slow_loop n count result s =
    Ok (Some (result + v * 2 ^ (7 * Z.of_nat count))%Z, set_buffer rest s).
Proof.
  revert n count v result s. induction k as [|k IH]; intros n count v result s Hk Hv Hc Hr Hb;
    (destruct n as [|n]; [lia|]); cbn [ReadVarint64Slow_loop WriteVarint_loop] in *.
  - assert (0 ≤ v < 128)%Z as Hv' by (cbn in Hv; lia).
    rewrite (bind_Ok _ _ _ (Some (byte.of_Z v)) s) by (unfold gets; by rewrite Hb).
    rewrite varint_byte_last, last_byte_last by done.
    rewrite (bind_Ok _ _ _ tt (set_buffer rest s)) by (unfold Advance, modify; by rewrite Hb).
    rewrite land_127, lor_group by lia. rewrite Z.mod_small by lia. done.
  - destruct (Z.leb_spec 128 v) as [Hge|Hlt].
    + rewrite (bind_Ok _ _ _ (Some (byte.of_Z (Z.lor v 128))) s) by (unfold gets; by rewrite Hb).
      rewrite varint_byte_cont, last_byte_cont.
      rewrite (bind_Ok _ _ _ tt (set_buffer (WriteVarint_loop k (Z.shiftr v 7) ++ rest) s))
        by (unfold Advance, modify; by rewrite Hb).
      pose proof (Z.mod_pos_bound v 128 ltac:(lia)).
      assert ((v mod 128 + 128) mod 128 = v mod 128)%Z as Em.
      { rewrite Z.add_mod_idemp_l by lia. rewrite <-(Z.mod_add v 1 128) by lia. f_equal. }
      rewrite land_127, lor_group, Em by lia. rewrite shiftr_7.
      rewrite (IH n (S count) (v / 128)%Z); [|lia|by apply varint_bound|lia| |done].
      * rewrite (split_128 v count). do 3 f_equal. ring.
      * rewrite pow_7_S. nia.
    + rewrite (bind_Ok _ _ _ (Some (byte.of_Z v)) s) by (unfold gets; by rewrite Hb).
      rewrite varint_byte_last, last_byte_last by lia.
      rewrite (bind_Ok _ _ _ tt (set_buffer rest s)) by (unfold Advance, modify; by rewrite Hb).
      rewrite land_127, lor_group by lia. rewrite Z.mod_small by lia. done.
Qed.

(** ** Running the readers on what the writers write *)

Lemma WriteVarint32_small v : (0 ≤ v < 128)%Z → WriteVarint32ToArray v = [byte.of_Z v].
Proof.
  intros Hv. unfold WriteVarint32ToArray. cbn [WriteVarint_loop].
  destruct (Z.leb_spec 128 v); [lia|done].
Qed.

Lemma one_byte_small s v rest :
  (0 ≤ v < 128)%Z → buffer_ s = byte.of_Z v :: rest → one_byte s = Some v.
Proof.
  intros Hv Hb. unfold one_byte. rewrite Hb. cbn [head mbind option_bind].
  rewrite varint_byte_last by done. by destruct (Z.ltb_spec v 128); [|lia].
Qed.

Lemma run_Advance s (l rest : bytes) :
  buffer_ s = l ++ rest → Advance (length l) s = Ok (tt, set_buffer rest s).
Proof. intros Hb. unfold Advance, modify. by rewrite Hb, drop_app_length. Qed.

Lemma ReadVarint32_write v rest s :
  (0 ≤ v < 2 ^ 32)%Z → buffer_ s = WriteVarint32ToArray v ++ rest →
  ReadVarint32 s = Ok (Some v, set_buffer rest s).
Proof.
  intros Hv Hb. unfold ReadVarint32. destruct (decide (v < 128)%Z) as [Hlt|Hge].
  - rewrite WriteVarint32_small in Hb by lia.
    rewrite (bind_Ok _ _ _ (Some v) s) by (unfold gets; by rewrite (one_byte_small s v rest) by (lia || done)).
    by step (run_Advance s [byte.of_Z v] rest Hb).
  - rewrite (bind_Ok _ _ _ None s).
    2:{ unfold gets, one_byte. rewrite Hb. unfold WriteVarint32ToArray. cbn [WriteVarint_loop].
        destruct (Z.leb_spec 128 v); [|lia]. cbn [head app mbind option_bind].
        rewrite varint_byte_cont. pose proof (Z.mod_pos_bound v 128 ltac:(lia)).
        by destruct (Z.ltb_spec (v mod 128 + 128) 128); [lia|]. }
    unfold ReadVarint32Fallback. destruct (varint_in_buffer s) eqn:Hf.
    + rewrite (bind_Ok _ _ _ true s) by (unfold gets; by rewrite Hf).
      rewrite (bind_Ok _ _ _ (Ok (Some (v, rest))) s)
        by (unfold gets; by rewrite Hb, ReadVarint32FromArray_write). done.
    + rewrite (bind_Ok _ _ _ false s) by (unfold gets; by rewrite Hf).
      unfold ReadVarint32Slow, ReadVarint64Fallback.
      rewrite WriteVarint32_loop in Hb by done.
      rewrite (bind_Ok _ _ _ (Some v) (set_buffer rest s)).
      * unfold mret, prog_ret. cbn. by rewrite Z.mod_small.
      * rewrite (bind_Ok _ _ _ false s) by (unfold gets; by rewrite Hf).
        unfold ReadVarint64Slow, kMaxVarintBytes.
        rewrite (ReadVarint64Slow_write 4 10 0 v rest 0 s); [|lia|cbn; lia|lia|cbn; lia|done].
        do 3 f_equal. cbn. lia.
Qed.

Lemma ReadLittleEndian64_write v rest s :
  (0 ≤ v < 2 ^ 64)%Z → buffer_ s = WriteLittleEndian64ToArray v ++ rest →
  ReadLittleEndian64 s = Ok (Some v, set_buffer rest s).
Proof.
  intros Hv Hb. unfold ReadLittleEndian64, ReadLittleEndian, ReadRaw, WriteLittleEndian64ToArray in *.
  assert (length (le_split 8 v) = 8) as L8 by apply length_le_split.
  rewrite (bind_Ok _ _ _ (Some (le_split 8 v)) (set_buffer rest s)).
  - unfold mret, prog_ret. cbn [fmap option_fmap option_map].
    rewrite le_combine_split. do 3 f_equal. apply Z.mod_small. done.
  - rewrite (bind_Ok _ _ _ (buffer_ s) s) by done. rewrite decide_False.
    2:{ rewrite Hb, length_app, L8. lia. }
    rewrite <-L8. step (run_Advance s _ _ Hb). rewrite Hb, take_app_length. done.
Qed.

Lemma InternalReadString_write old v rest s :
  buffer_ s = v ++ rest →
  InternalReadStringInline old (Z.of_nat (length v)) s = Ok ((true, v), set_buffer rest s).
Proof.
  intros Hb. unfold InternalReadStringInline. destruct (Z.ltb_spec (Z.of_nat (length v)) 0); [lia|].
  rewrite (bind_Ok _ _ _ (buffer_ s) s) by done. rewrite Nat2Z.id. rewrite decide_True.
  2:{ rewrite Hb, length_app. lia. }
  step (run_Advance s _ _ Hb). by rewrite Hb, take_app_length.
Qed.

Lemma ReadString_write old v rest s :
  (Z.of_nat (length v) < 2 ^ 31)%Z → buffer_ s = WriteStringWithSizeToArray v ++ rest →
  ReadString old s = Ok ((true, v), set_buffer rest s).
Proof.
  intros Hv Hb. unfold ReadString, WriteStringWithSizeToArray in *.
  rewrite Z.mod_small in Hb by lia. rewrite <-app_assoc in Hb.
  rewrite (bind_Ok _ _ _ _ _ (ReadVarint32_write (Z.of_nat (length v)) (v ++ rest) s ltac:(lia) Hb)).
  rewrite to_int32_small by done. by rewrite (InternalReadString_write old v rest).
Qed.

(** The tags below 128 are written and matched as one byte. *)
Lemma ExpectTag_hit t rest s :
  (0 ≤ t < 128)%Z → buffer_ s = byte.of_Z t :: rest → ExpectTag t s = Ok (true, set_buffer rest s).
Proof.
  intros Ht Hb. unfold ExpectTag. rewrite (bind_Ok _ _ _ true s).
  - by step (run_Advance s [byte.of_Z t] rest Hb).
  - unfold gets. rewrite Hb. cbn [head]. by rewrite varint_byte_last, Z.eqb_refl.
Qed.

Lemma ExpectTag_end t s : buffer_ s = [] → ExpectTag t s = Ok (false, s).
Proof.
  intros Hb. unfold ExpectTag. rewrite (bind_Ok _ _ _ false s); [done|]. unfold gets. by rewrite Hb.
Qed.

Lemma ReadTag_first t rest s :
  (0 < t < 128)%Z → buffer_ s = byte.of_Z t :: rest →
  ReadTagWithCutoff127 s = Ok ((t, true), set_buffer rest (set_last_tag t s)).
Proof.
  intros Ht Hb. unfold ReadTagWithCutoff127.
  rewrite (bind_Ok _ _ _ (Some (byte.of_Z t)) s) by (unfold gets; by rewrite Hb).
  assert (schar (byte.of_Z t) = t) as Es.
  { unfold schar. rewrite varint_byte_last by lia. by destruct (Z.ltb_spec t 128); [|lia]. }
  rewrite Es. destruct (Z.ltb_spec 0 t); [|lia]. rewrite varint_byte_last by lia.
  rewrite (bind_Ok _ _ _ tt (set_last_tag t s)) by done.
  by step (run_Advance (set_last_tag t s) [byte.of_Z t] rest Hb).
Qed.

Lemma ExpectAtEnd_end s :
  flat s → buffer_ s = [] →
  ExpectAtEnd s = Ok (true, set_message_end true (set_last_tag 0 s)).
Proof.
  intros Hs Hb. unfold ExpectAtEnd. rewrite (bind_Ok _ _ _ true s); [done|].
  unfold gets. by rewrite Hb, flat_at_limit.
Qed.

(** ** Sizes are the lengths of what is written *)

Lemma VarintSize32_length v :
  (0 ≤ v < 2 ^ 32)%Z → VarintSize32 v = length (WriteVarint32ToArray v).
Proof.
  intros Hv. rewrite WriteVarint32_loop by done. unfold VarintSize32. cbn [WriteVarint_loop].
  rewrite !shiftr_7.
  repeat match goal with
  | |- context [Z.ltb ?a ?b] => destruct (Z.ltb_spec a b)
  | |- context [Z.leb ?a ?b] => destruct (Z.leb_spec a b)
  end; try reflexivity; exfalso; Z.to_euclidean_division_equations; lia.
Qed.

Lemma varint64_size_le a b c : 1 ≤ varint64_size a b c ≤ 10.
Proof. unfold varint64_size. repeat case_match; lia. Qed.

Lemma length_WriteVarint64 v :
  length (WriteVarint64ToArray v) =
    varint64_size (u32 v) (u32 (Z.shiftr v 28)) (u32 (Z.shiftr v 56)).
Proof.
  unfold WriteVarint64ToArray. rewrite length_alter, length_take, length_fmap.
  pose proof (varint64_size_le (u32 v) (u32 (Z.shiftr v 28)) (u32 (Z.shiftr v 56))). cbn [length]. lia.
Qed.

Lemma div_eqb_0 v a : (0 ≤ v)%Z → (0 ≤ a)%Z → Z.eqb (v / 2 ^ a) 0 = Z.ltb v (2 ^ a).
Proof.
  intros Hv Ha. assert (0 < 2 ^ a)%Z by (apply Z.pow_pos_nonneg; lia).
  destruct (Z.eqb_spec (v / 2 ^ a) 0) as [E|E], (Z.ltb_spec v (2 ^ a)); try done.
  - apply Z.div_small_iff in E; lia.
  - exfalso. apply E. apply Z.div_small. lia.
Qed.

Lemma div_ltb v a b :
  (0 ≤ v)%Z → (0 ≤ a)%Z → (0 ≤ b)%Z → Z.ltb (v / 2 ^ a) (2 ^ b) = Z.ltb v (2 ^ (a + b)).
Proof.
  intros Hv Ha Hb. assert (0 < 2 ^ a)%Z by (apply Z.pow_pos_nonneg; lia). rewrite Z.pow_add_r by done.
  destruct (Z.ltb_spec (v / 2 ^ a) (2 ^ b)) as [E|E], (Z.ltb_spec v (2 ^ a * 2 ^ b)) as [E'|E']; try done.
  - exfalso. apply Z.div_le_lower_bound in E'; lia.
  - exfalso. apply Z.div_lt_upper_bound in E'; lia.
Qed.

(** Decide every comparison; the contradictory cases go by arithmetic. *)
Ltac ltb_cases :=
  repeat match goal with |- context [Z.ltb ?a ?b] => destruct (Z.ltb_spec a b) end;
  first [reflexivity | exfalso; lia].

Lemma VarintSize64_length v :
  (0 ≤ v < 2 ^ 64)%Z → VarintSize64 v = length (WriteVarint64ToArray v).
Proof.
  intros Hv. rewrite length_WriteVarint64. rewrite !Z.shiftr_div_pow2 by lia. unfold varint64_size.
  rewrite (Z.mod_small (v / 2 ^ 56)) by (split; [apply Z.div_pos|apply Z.div_lt_upper_bound]; lia).
  rewrite div_eqb_0, div_ltb by lia. destruct (Z.ltb_spec v (2 ^ 56)) as [H56|H56].
  - rewrite (Z.mod_small (v / 2 ^ 28)) by (split; [apply Z.div_pos|apply Z.div_lt_upper_bound]; lia).
    rewrite div_eqb_0, !div_ltb by lia. destruct (Z.ltb_spec v (2 ^ 28)) as [H28|H28].
    + rewrite Z.mod_small by lia. unfold VarintSize64. ltb_cases.
    + unfold VarintSize64. ltb_cases.
  - unfold VarintSize64. ltb_cases.
Qed.

Lemma MakeTag_range n t : (0 ≤ MakeTag n t < 2 ^ 32)%Z.
Proof. unfold MakeTag. by apply Z.mod_pos_bound. Qed.

Lemma TagSize_length n t : TagSize n t = length (WriteTagToArray n t).
Proof. apply VarintSize32_length, MakeTag_range. Qed.

Lemma StringSize_length v : StringSize v = length (WriteStringWithSizeToArray v).
Proof.
  unfold StringSize, WriteStringWithSizeToArray. rewrite length_app, VarintSize32_length; [done|].
  by apply Z.mod_pos_bound.
Qed.

(** The values of an unknown field are those its wire type can hold. *)
Fixpoint unknown_ok (f : UnknownField) : Prop :=
  match f with
  | TYPE_VARINT _ v => (0 ≤ v < 2 ^ 64)%Z
  | TYPE_GROUP _ fs => foldr (λ f P, unknown_ok f ∧ P) True fs
  | _ => True
  end.

Lemma UnknownFieldSize_length f :
  unknown_ok f → UnknownFieldSize f = length (SerializeUnknownFieldToArray f).
Proof.
  revert f. fix IH 1. intros [n v|n v|n v|n v|n fs] Hok; cbn [UnknownFieldSize SerializeUnknownFieldToArray];
    rewrite !length_app, ?TagSize_length.
  - by rewrite VarintSize64_length.
  - unfold WriteLittleEndian32ToArray. by rewrite length_le_split.
  - unfold WriteLittleEndian64ToArray. by rewrite length_le_split.
  - by rewrite StringSize_length.
  - rewrite <-Nat.add_assoc. f_equal. f_equal. cbn in Hok.
    induction fs as [|f fs IHfs]; [done|]. destruct Hok as [Hf Hfs]. csimpl.
    rewrite length_app, <-IHfs by done. by rewrite <-IH.
Qed.

Lemma ComputeUnknownFieldsSize_length fs :
  Forall unknown_ok fs → ComputeUnknownFieldsSize fs = length (SerializeUnknownFieldsToArray fs).
Proof.
  unfold ComputeUnknownFieldsSize, SerializeUnknownFieldsToArray.
  induction 1 as [|f fs Hf _ IH]; [done|]. csimpl.
  by rewrite length_app, IH, UnknownFieldSize_length.
Qed.

(** ** Skipping is safe *)

Lemma SkipField_with_safe (skip : UnknownFieldSet → input (bool * UnknownFieldSet)) tag fs b :
  (∀ fs s, flat s → BufferSize s ≤ b → ∃ a s', skip fs s = Ok (a, s') ∧ flat s' ∧ BufferSize s' ≤ BufferSize s) →
  ∀ s, flat s → BufferSize s ≤ b →
  ∃ a s', SkipField_with skip tag fs s = Ok (a, s') ∧ flat s' ∧ BufferSize s' ≤ BufferSize s.
Proof.
  intros Hskip.
  assert (∀ c : input (bool * UnknownFieldSet), safe c → ∀ s, flat s → BufferSize s ≤ b →
    ∃ a s', c s = Ok (a, s') ∧ flat s' ∧ BufferSize s' ≤ BufferSize s) as Hsafe.
  { intros c Hc s Hs _. destruct (Hc s Hs) as (a & s' & ? & ? & ? & _). eauto. }
  assert (∀ r (f : Z → UnknownField), safe (match r with
      | Some v => mret (true, fs ++ [f v]) | None => mret (false, fs) end)) as Hadd.
  { intros [v|] f; apply safe_ret. }
  unfold SkipField_with. destruct (GetTagWireType tag) as [|[[[]|[]|]|[[]|[]|]|]|]; try (by apply Hsafe, safe_ret).
  - apply Hsafe, safe_bind; [eapply consumes_safe, ReadVarint64_safe|]. intros r. apply Hadd.
  - apply Hsafe, safe_bind; [apply ReadLittleEndian_safe|]. intros r. apply Hadd.
  - intros s Hs Hb. destruct (IncrementRecursionDepth_safe s Hs) as (ok & s1 & E1 & Hs1 & Hl1 & _).
    rewrite (bind_Ok _ _ _ _ _ E1). destruct ok.
    2:{ eexists _, s1. split_and!; [done..|]. lia. }
    destruct (Hskip [] s1 Hs1 ltac:(lia)) as (r & s2 & E2 & Hs2 & Hl2).
    rewrite (bind_Ok _ _ _ _ _ E2). destruct r as [[] g]; cbn [fst snd].
    2:{ eexists _, s2. split_and!; [done..|]. lia. }
    destruct (DecrementRecursionDepth_safe s2 Hs2) as ([] & s3 & E3 & Hs3 & Hl3 & _).
    rewrite (bind_Ok _ _ _ _ _ E3). eexists _, s3. split_and!; [done..|]. lia.
  - apply Hsafe, safe_bind; [eapply consumes_safe, ReadVarint32_safe|]. intros [len|]; [|apply safe_ret].
    apply safe_bind; [apply InternalReadStringInline_safe|]. intros r. apply safe_ret.
  - apply Hsafe, safe_bind; [apply ReadLittleEndian_safe|]. intros r. apply Hadd.
Qed.

(** A group is skipped within one step per byte. *)
Lemma SkipMessage_safe fuel fs s :
  flat s → BufferSize s < fuel →
  ∃ a s', SkipMessage fuel fs s = Ok (a, s') ∧ flat s' ∧ BufferSize s' ≤ BufferSize s.
Proof.
  revert fs s. induction fuel as [|fuel IH]; intros fs s Hs Hf; [lia|]. cbn [SkipMessage].
  destruct (ReadTag_safe s Hs) as (t & s1 & E1 & Hs1 & Hl1 & Hn). rewrite (bind_Ok _ _ _ _ _ E1).
  destruct (Z.eqb_spec t 0) as [->|Ht]; [by exists (true, fs), s1|]. specialize (Hn Ht).
  destruct (Z.eqb _ _); [by exists (true, fs), s1|].
  destruct (SkipField_with_safe (SkipMessage fuel) t fs (BufferSize s1)) with s1
    as (r & s2 & E2 & Hs2 & Hl2); [|done|done|].
  { intros fs' s' Hs' Hl. apply IH; [done|lia]. }
  rewrite (bind_Ok _ _ _ _ _ E2). destruct r as [[] fs']; cbn [fst snd].
  - destruct (IH fs' s2 Hs2 ltac:(lia)) as (a & s3 & E3 & Hs3 & Hl3). exists a, s3. split_and!; [done..|lia].
  - eexists _, s2. split_and!; [done..|lia].
Qed.

Lemma SkipField_safe tag fs : safe (SkipField tag fs).
Proof.
  apply safe_gets_bind. intros s Hs.
  destruct (SkipField_with_safe (SkipMessage (S (BufferSize s))) tag fs (BufferSize s)) with s
    as (a & s' & ? & ? & ?); [|done|done|by exists a, s'].
  intros fs' s' Hs' Hl. apply SkipMessage_safe; [done|lia].
Qed.

Lemma ReadString_safe old : safe (ReadString old).
Proof.
  apply safe_bind; [eapply consumes_safe, ReadVarint32_safe|]. intros [len|]; [|apply safe_ret].
  apply InternalReadStringInline_safe.
Qed.

Lemma ReadDouble_safe : safe ReadDouble.
Proof. apply ReadLittleEndian_safe. Qed.
Lemma ReadUInt32_safe : safe ReadUInt32.
Proof. eapply consumes_safe, ReadVarint32_safe. Qed.
#[export] Hint Resolve SkipField_safe ReadString_safe ReadDouble_safe ReadUInt32_safe : bubi.

Lemma frames_SkipField_with skip tag fs : (∀ fs, frames (skip fs)) → frames (SkipField_with skip tag fs).
Proof. intros Hs. unfold SkipField_with, ReadLittleEndian64, ReadLittleEndian32. frames. Qed.
Lemma frames_SkipMessage fuel fs : frames (SkipMessage fuel fs).
Proof.
  revert fs. induction fuel as [|fuel IH]; intros fs; cbn [SkipMessage]; [apply frames_fail|].
  apply frames_bind; [apply frames_ReadTag|]. intros t. do 2 (case_match; [apply frames_ret|]).
  apply frames_bind; [by apply frames_SkipField_with|]. intros [[] g]; [apply IH|apply frames_ret].
Qed.
Lemma frames_SkipField tag fs : frames (SkipField tag fs).
Proof. apply frames_bind; [apply frames_gets|]. intros f. apply frames_SkipField_with, frames_SkipMessage. Qed.
Lemma frames_ReadString old : frames (ReadString old).
Proof. unfold ReadString. frames. Qed.
Lemma frames_ReadDouble : frames ReadDouble.
Proof. apply frames_ReadLittleEndian. Qed.
Lemma frames_ReadUInt32 : frames ReadUInt32.
Proof. apply frames_ReadVarint32. Qed.
#[export] Hint Resolve frames_SkipField frames_ReadString frames_ReadDouble frames_ReadUInt32 : frames.
