(* ===== verification/PbMessage.v ===== *)
(** * Generated messages: what they share

    The accessors that protoc generates for a field (in
    [src/src/ledger/transaction.pb.h] and [src/src/p2p/bubi.pb.h]) and the loop of
    [MergePartialFromCodedStream].  A string field whose presence bit is clear
    holds the empty string. *)

From S2P Require Import Prelude Varint BaseUint CodedStream WireFormat WireLemmas.

(** ** Fields *)

Class HasBits (M : Type) := { has_bits_ : M → Z; set_has_bits : Z → M → M }.

(** A member of type [A] with its presence bit and default value. *)
Record field (M A : Type) := mkField {
  f_mask : Z;
  f_default : A;
  f_get : M → A;
  f_put : A → M → M;
}.
Arguments mkField {M A}.
Arguments f_mask {M A}.
Arguments f_default {M A}.
Arguments f_get {M A}.
Arguments f_put {M A}.

Section accessors.
Context {M : Type} `{HasBits M} {A : Type} (f : field M A).
Definition has (m : M) : bool := negb (Z.eqb (Z.land (has_bits_ m) (f_mask f)) 0).
Definition set_has (m : M) : M := set_has_bits (Z.lor (has_bits_ m) (f_mask f)) m.
Definition clear_has (m : M) : M := set_has_bits (Z.ldiff (has_bits_ m) (f_mask f)) m.
Definition get (m : M) : A := f_get f m.
Definition set (value : A) (m : M) : M := f_put f value (set_has m).
Definition clear (m : M) : M := clear_has (f_put f (f_default f) m).
Definition release (m : M) : A * M := (f_get f m, f_put f (f_default f) (clear_has m)).
Definition set_allocated (value : option A) (m : M) : M :=
  match value with
  | Some v => f_put f v (set_has m)
  | None => f_put f (f_default f) (clear_has m)
  end.
End accessors.

(** ** The parsing loop *)

(** How one turn of [for (;;)] ends: [break] to the next tag, or a [goto]. *)
Inductive turn := next_tag | success | failure.

#[export] Instance turn_eq_dec : EqDecision turn.
Proof. solve_decision. Defined.

Section merge.
Context {M : Type} (unknown_fields : M → UnknownFieldSet) (set_unknown : UnknownFieldSet → M → M).
Implicit Types m : M.

(** [handle_unusual] *)
Definition handle_unusual (tag : Z) m : input (turn * M) :=
  if Z.eqb tag 0 || Z.eqb (GetTagWireType tag) WIRETYPE_END_GROUP then mret (success, m)
  else
    r ← SkipField tag (unknown_fields m);
    mret (if r.1 : bool then next_tag else failure, set_unknown r.2 m).

Context (fields : Z → Z → M → option (input (turn * M))).

(** One turn: [fields number tag] is the case of the [switch] for the field
    [number], when its wire type is the one of [tag]. *)
Definition merge_turn m : input (turn * M) :=
  p ← ReadTagWithCutoff127;
  let tag := p.1 in
  if p.2 : bool then
    match fields (GetTagFieldNumber tag) tag m with
    | Some case => case
    | None => handle_unusual tag m
    end
  else handle_unusual tag m.

Fixpoint merge_loop (fuel : nat) m : input (bool * M) :=
  match fuel with
  | O => fail OutOfFuel
  | S fuel =>
      r ← merge_turn m;
      match r.1 with
      | next_tag => merge_loop fuel r.2
      | success => mret (true, r.2)
      | failure => mret (false, r.2)
      end
  end.

(** Every turn but the last reads a tag. *)
Definition merge_partial m : input (bool * M) :=
  fuel ← gets (λ s, S (BufferSize s)); merge_loop fuel m.

(** ** Safety *)

(** The cases run in states that satisfy an invariant on the limits of the stream. *)
Context (Inv : CodedInputStream → Prop) (Inv_flat : ∀ s, Inv s → flat s).
Context (Inv_window : ∀ s s', window s' = window s → Inv s → Inv s').

Definition runs {A} (c : input A) : Prop :=
  ∀ s, Inv s → ∃ a s', c s = Ok (a, s') ∧ Inv s' ∧ BufferSize s' ≤ BufferSize s.

Lemma safe_runs {A} (c : input A) : safe c → frames c → runs c.
Proof.
  intros Hc Hf s Hs. destruct (Hc s (Inv_flat s Hs)) as (a & s' & E & _ & Hl & _). exists a, s'.
  split_and!; [done| |done]. eapply Inv_window; [by eapply Hf|done].
Qed.

Context (fields_run : ∀ n t m c, fields n t m = Some c → n ≠ 0%Z ∧ runs c).

Lemma handle_unusual_runs tag m : runs (handle_unusual tag m).
Proof.
  unfold handle_unusual. destruct (_ || _); [apply safe_runs; [apply safe_ret|apply frames_ret]|].
  apply safe_runs; [|frames]. apply safe_bind; [apply SkipField_safe|intros; apply safe_ret].
Qed.

Lemma merge_turn_runs m s :
  Inv s → ∃ a s', merge_turn m s = Ok (a, s') ∧ Inv s' ∧ BufferSize s' ≤ BufferSize s ∧
    (a.1 = next_tag → BufferSize s' < BufferSize s).
Proof.
  intros Hs. destruct (ReadTagWithCutoff127_safe s (Inv_flat s Hs)) as ([t b] & s1 & E & _ & Hl & Hn).
  assert (Inv s1) as Hs1 by (eapply Inv_window; [by eapply frames_ReadTagWithCutoff127|done]).
  unfold merge_turn. rewrite (bind_Ok _ _ _ _ _ E). cbn [fst snd]. cbn [fst] in Hn.
  assert (∀ c, runs c → (t = 0%Z → c = handle_unusual t m) →
    ∃ a s', c s1 = Ok (a, s') ∧ Inv s' ∧ BufferSize s' ≤ BufferSize s ∧
      (a.1 = next_tag → BufferSize s' < BufferSize s)) as Hrun.
  { intros c Hc Hz. destruct (Hc s1 Hs1) as (a & s' & E' & Hs' & Hl'). exists a, s'.
    split_and!; [done..|lia|]. intros Ha. destruct (decide (t = 0%Z)) as [->|Ht]; [|specialize (Hn Ht); lia].
    rewrite (Hz eq_refl) in E'. unfold handle_unusual in E'. cbn in E'. injection E' as <- _. done. }
  destruct b; [|by apply Hrun; [apply handle_unusual_runs|]].
  destruct (fields (GetTagFieldNumber t) t m) as [c|] eqn:Ef; [|by apply Hrun; [apply handle_unusual_runs|]].
  apply Hrun; [by eapply fields_run|]. intros ->. by apply fields_run in Ef as [? _].
Qed.

Lemma merge_loop_runs fuel m s :
  Inv s → BufferSize s < fuel →
  ∃ a s', merge_loop fuel m s = Ok (a, s') ∧ Inv s' ∧ BufferSize s' ≤ BufferSize s.
Proof.
  revert m s. induction fuel as [|fuel IH]; intros m s Hs Hf; [lia|]. cbn [merge_loop].
  destruct (merge_turn_runs m s Hs) as ([r m'] & s1 & E & Hs1 & Hl & Hn).
  rewrite (bind_Ok _ _ _ _ _ E). cbn [fst snd] in *. destruct r.
  - specialize (Hn eq_refl). destruct (IH m' s1 Hs1 ltac:(lia)) as (a & s' & E' & Hs' & Hl').
    exists a, s'. split_and!; [done..|lia].
  - by exists (true, m'), s1.
  - by exists (false, m'), s1.
Qed.

Lemma merge_partial_runs m : runs (merge_partial m).
Proof.
  intros s Hs. unfold merge_partial. rewrite (bind_Ok _ _ _ (S (BufferSize s)) s) by done.
  apply merge_loop_runs; [done|lia].
Qed.
End merge.
Arguments runs _ {A} c.

Lemma merge_partial_safe {M} unknown_fields set_unknown fields (m : M) data :
  (∀ n t m c, fields n t m = Some c → n ≠ 0%Z ∧ safe c) →
  ∃ a s', merge_partial unknown_fields set_unknown fields m (CodedInputStream_new data) = Ok (a, s').
Proof.
  intros Hf. destruct (merge_partial_runs unknown_fields set_unknown fields flat (λ s H, H) window_flat)
    with m (CodedInputStream_new data) as (a & s' & E & _); [|apply flat_new|by exists a, s'].
  intros n t m' c E. destruct (Hf n t m' c E) as [Hn Hc]. split; [done|]. intros s Hs.
  destruct (Hc s Hs) as (a & s' & ? & ? & ? & _). by exists a, s'.
Qed.

(** Reading stays within the limits when the cases do. *)
Lemma frames_merge_partial {M} unknown_fields set_unknown fields (m : M) :
  (∀ n t m c, fields n t m = Some c → frames c) →
  frames (merge_partial unknown_fields set_unknown fields m).
Proof.
  intros Hf. unfold merge_partial. apply frames_bind; [apply frames_gets|]. intros fuel.
  assert (∀ tag m, frames (handle_unusual unknown_fields set_unknown tag m)) as Hh.
  { intros tag m1. unfold handle_unusual. frames. }
  revert m. induction fuel as [|fuel IH]; intros m; cbn [merge_loop]; [apply frames_fail|].
  apply frames_bind; [|intros [[] m']; [apply IH|apply frames_ret..]].
  unfold merge_turn. apply frames_bind; [apply frames_ReadTagWithCutoff127|]. intros [t []]; cbn [fst snd]; [|done].
  destruct (fields _ _ _) eqn:E; [by eapply Hf|done].
Qed.

(** Parsing any bytes returns, given that reading the message does. *)
Lemma ParseFromString_total {M} `{MessageLite M} (data : bytes) (m : M) :
  (∀ m, ∃ a s', MergePartialFromCodedStream m (CodedInputStream_new data) = Ok (a, s')) →
  ∃ ok m', ParseFromString data m = Ok (ok, m').
Proof.
  intros Hmerge. unfold ParseFromString, InlineParseFromArray, InlineParseFromCodedStream,
    InlineMergeFromCodedStream.
  destruct (Hmerge (Message_Clear m)) as ([ok m'] & s' & E).
  rewrite (bind_Ok _ _ _ (if ok then IsInitialized m' else false, m') s').
  2:{ rewrite (bind_Ok _ _ _ _ _ E). by destruct ok. }
  destruct (if ok then IsInitialized m' else false); cbn; eauto.
Qed.

(** ** Sections of a chain of fields *)

(** The [DO_ (ReadString ...)] of a string field, and of a primitive one; then what
    follows the field. *)
Definition parse_string {M} `{HasBits M} (f : field M bytes) (m : M) (k : M → input (turn * M))
    : input (turn * M) :=
  let m := set_has f m in
  r ← ReadString (get f m);
  let m := f_put f r.2 m in
  if r.1 : bool then k m else mret (failure, m).
Definition parse_primitive {M} `{HasBits M} (f : field M Z) (read : input (option Z)) (m : M)
    (k : M → input (turn * M)) : input (turn * M) :=
  r ← read;
  match r with
  | Some v => k (set f v m)
  | None => mret (failure, m)
  end.

(** [if (input->ExpectTag (tag)) goto parse_next; break;] *)
Definition then_tag {M} (tag : Z) (parse_next : M → input (turn * M)) (m : M) : input (turn * M) :=
  hit ← ExpectTag tag;
  if hit : bool then parse_next m else mret (next_tag, m).
(** [if (input->ExpectAtEnd ()) goto success; break;] *)
Definition then_end {M} (m : M) : input (turn * M) :=
  e ← ExpectAtEnd; mret (if e : bool then success else next_tag, m).

Section chain.
Context {M : Type} `{HasBits M}.

Lemma parse_string_safe (f : field M bytes) m k : (∀ m, safe (k m)) → safe (parse_string f m k).
Proof.
  intros Hk. apply safe_bind; [apply ReadString_safe|]. intros [[] v]; cbn; [apply Hk|apply safe_ret].
Qed.
Lemma parse_primitive_safe (f : field M Z) read m k :
  safe read → (∀ m, safe (k m)) → safe (parse_primitive f read m k).
Proof. intros Hr Hk. apply safe_bind; [done|]. intros [v|]; [apply Hk|apply safe_ret]. Qed.
Lemma then_tag_safe t k (m : M) : (∀ m, safe (k m)) → safe (then_tag t k m).
Proof. intros Hk. apply safe_bind; [apply ExpectTag_safe|]. intros []; [apply Hk|apply safe_ret]. Qed.
Lemma then_end_safe (m : M) : safe (then_end m).
Proof. apply safe_bind; [apply ExpectAtEnd_safe|intros; apply safe_ret]. Qed.

(** *** On the bytes the writers produce *)

Lemma parse_string_write (f : field M bytes) m k v rest s :
  (Z.of_nat (length v) < 2 ^ 31)%Z → buffer_ s = WriteStringWithSizeToArray v ++ rest →
  parse_string f m k s = k (set f v m) (set_buffer rest s).
Proof.
  intros Hv Hb. unfold parse_string.
  by rewrite (bind_Ok _ _ _ _ _ (ReadString_write (get f (set_has f m)) v rest s Hv Hb)).
Qed.

Lemma parse_double_write (f : field M Z) m k v rest s :
  (0 ≤ v < 2 ^ 64)%Z → buffer_ s = WriteLittleEndian64ToArray v ++ rest →
  parse_primitive f ReadDouble m k s = k (set f v m) (set_buffer rest s).
Proof.
  intros Hv Hb. unfold parse_primitive, ReadDouble.
  by rewrite (bind_Ok _ _ _ _ _ (ReadLittleEndian64_write v rest s Hv Hb)).
Qed.

Lemma parse_uint32_write (f : field M Z) m k v rest s :
  (0 ≤ v < 2 ^ 32)%Z → buffer_ s = WriteVarint32ToArray v ++ rest →
  parse_primitive f ReadUInt32 m k s = k (set f v m) (set_buffer rest s).
Proof.
  intros Hv Hb. unfold parse_primitive, ReadUInt32.
  by rewrite (bind_Ok _ _ _ _ _ (ReadVarint32_write v rest s Hv Hb)).
Qed.

Lemma then_tag_write t k (m : M) rest s :
  (0 ≤ t < 128)%Z → buffer_ s = byte.of_Z t :: rest → then_tag t k m s = k m (set_buffer rest s).
Proof.
  intros Ht Hb. unfold then_tag. by rewrite (bind_Ok _ _ _ _ _ (ExpectTag_hit t rest s Ht Hb)).
Qed.

Lemma then_end_write (m : M) s :
  flat s → buffer_ s = [] →
  then_end m s = Ok ((success, m), set_message_end true (set_last_tag 0 s)).
Proof. intros Hs Hb. unfold then_end. by rewrite (bind_Ok _ _ _ _ _ (ExpectAtEnd_end s Hs Hb)). Qed.
End chain.

Lemma frames_parse_string {M} `{HasBits M} (f : field M bytes) m k :
  (∀ m, frames (k m)) → frames (parse_string f m k).
Proof. intros Hk. unfold parse_string. frames. Qed.
Lemma frames_parse_primitive {M} `{HasBits M} (f : field M Z) read m k :
  frames read → (∀ m, frames (k m)) → frames (parse_primitive f read m k).
Proof. intros Hr Hk. unfold parse_primitive. frames. Qed.
Lemma frames_then_tag {M} t k (m : M) : (∀ m, frames (k m)) → frames (then_tag t k m).
Proof. intros Hk. unfold then_tag. frames. Qed.
Lemma frames_then_end {M} (m : M) : frames (then_end m).
Proof. unfold then_end. frames. Qed.
#[export] Hint Resolve frames_parse_string frames_parse_primitive frames_then_tag frames_then_end : frames.

#[export] Hint Resolve parse_string_safe parse_primitive_safe then_tag_safe then_end_safe : bubi.
