(* ===== verification/PbRound.v ===== *)
(** * Generated messages: reading back what was written

    The parsing loop of a generated message follows a chain of fields in the
    order of their numbers, guessing each next tag and falling back to the [switch]
    when the guess fails.  On the bytes the message's writer produces, any of the
    fields absent, it reads exactly the fields written.  Reading a message that is a
    field of another pushes a limit on the stream, at which the nested message must end,
    and pops it afterwards. *)

From S2P Require Import Prelude Varint BaseUint CodedStream WireFormat WireLemmas PbMessage.

(** ** The end of the input *)

Lemma ExpectTag_miss t u rest s :
  (0 ≤ u < 128)%Z → t ≠ u → buffer_ s = byte.of_Z u :: rest → ExpectTag t s = Ok (false, s).
Proof.
  intros Hu Ht Hb. unfold ExpectTag. rewrite (bind_Ok _ _ _ false s); [done|]. unfold gets. rewrite Hb.
  cbn [head]. rewrite varint_byte_last by done. destruct (Z.eqb_spec u t); congruence.
Qed.

Lemma ReadTag_end s :
  flat s → (current_limit_ s < kDefaultTotalBytesLimit)%Z → buffer_ s = [] →
  ReadTagWithCutoff127 s = Ok ((0, false)%Z, set_last_tag 0 (set_message_end true s)).
Proof.
  intros Hs Hl Hb. unfold ReadTagWithCutoff127.
  rewrite (bind_Ok _ _ _ None s) by (unfold gets; by rewrite Hb).
  rewrite (bind_Ok _ _ _ 0%Z (set_message_end true s)); [done|]. unfold ReadTagFallback.
  rewrite (bind_Ok _ _ _ false s).
  2:{ unfold gets, varint_in_buffer, BufferSize. by rewrite Hb. }
  rewrite (bind_Ok _ _ _ true s); [done|]. unfold gets. rewrite Hb, flat_at_limit, Hs, bool_decide_true by done. cbn [andb].
  by destruct (Z.ltb_spec (current_limit_ s) kDefaultTotalBytesLimit); [|lia].
Qed.

(** ** Chains of fields *)

(** A field of the message written: its tag, whether it is present, the bytes after
    the tag, its parsing section, and what that section does to the message. *)
Record slot (M : Type) := mkSlot {
  sl_tag : Z;
  sl_present : bool;
  sl_body : bytes;
  sl_parse : M → (M → input (turn * M)) → input (turn * M);
  sl_apply : M → M;
}.
Arguments mkSlot {M}.
Arguments sl_tag {M}.
Arguments sl_present {M}.
Arguments sl_body {M}.
Arguments sl_parse {M}.
Arguments sl_apply {M}.

(** The stream has moved on to [rest], within the same limits. *)
Definition moved (rest : bytes) (s s' : CodedInputStream) : Prop :=
  ∃ tag e, s' = set_message_end e (set_last_tag tag (set_buffer rest s)).

(** A stream on an array below the limit on sizes, with [d] levels of nesting left. *)
Definition ready (d : Z) (s : CodedInputStream) : Prop :=
  flat s ∧ (current_limit_ s < kDefaultTotalBytesLimit)%Z ∧ (d ≤ recursion_budget_ s)%Z.

Lemma moved_buffer rest s : moved rest s (set_buffer rest s).
Proof. by exists (last_tag_ s), (legitimate_message_end_ s). Qed.
Lemma moved_tag rest s tag : moved rest s (set_buffer rest (set_last_tag tag s)).
Proof. by exists tag, (legitimate_message_end_ s). Qed.
Lemma moved_end s tag e : buffer_ s = [] → moved [] s (set_message_end e (set_last_tag tag s)).
Proof. intros Hb. exists tag, e. unfold set_buffer. by rewrite <-Hb. Qed.
Lemma moved_trans rest rest' s1 s2 s3 : moved rest s1 s2 → moved rest' s2 s3 → moved rest' s1 s3.
Proof. intros (t & e & ->) (t' & e' & ->). by exists t', e'. Qed.
Lemma moved_ready d rest s s' : moved rest s s' → ready d s → ready d s'.
Proof. by intros (t & e & ->). Qed.
Lemma moved_rest rest s s' : moved rest s s' → buffer_ s' = rest.
Proof. by intros (t & e & ->). Qed.

Section slots.
Context {M : Type} (d : Z).
Implicit Types (m : M) (sl : slot M) (l : list (slot M)).

Definition slot_bytes sl : bytes :=
  if sl_present sl then byte.of_Z (sl_tag sl) :: sl_body sl else [].
Definition slots_bytes l : bytes := mjoin (slot_bytes <$> l).
Definition slot_result m sl : M := if sl_present sl then sl_apply sl m else m.
Definition slots_result m l : M := foldl slot_result m l.

(** The code that runs after the field before [l]. *)
Fixpoint chain l : M → input (turn * M) :=
  match l with
  | [] => then_end
  | sl :: l => then_tag (sl_tag sl) (λ m, sl_parse sl m (chain l))
  end.

Record slot_ok sl : Prop := {
  slot_tag : (0 < sl_tag sl < 128)%Z;
  slot_parse : ∀ m k rest s, sl_present sl = true → ready d s → buffer_ s = sl_body sl ++ rest →
    ∃ s', sl_parse sl m k s = k (sl_apply sl m) s' ∧ moved rest s s';
}.

Context (unknown_fields : M → UnknownFieldSet) (set_unknown : UnknownFieldSet → M → M).
Context (fields : Z → Z → M → option (input (turn * M))).

(** The [switch] enters the chain at each field; tags are distinct. *)
Fixpoint switch_ok l : Prop :=
  match l with
  | [] => True
  | sl :: l =>
      slot_ok sl ∧ Forall (λ sl', sl_tag sl ≠ sl_tag sl') l ∧
      (∀ m, fields (GetTagFieldNumber (sl_tag sl)) (sl_tag sl) m = Some (sl_parse sl m (chain l))) ∧
      switch_ok l
  end.

(** What the loop does with the end of a turn. *)
Definition resume (fuel : nat) (r : turn * M) : input (bool * M) :=
  match r.1 with
  | next_tag => merge_loop unknown_fields set_unknown fields fuel r.2
  | success => mret (true, r.2)
  | failure => mret (false, r.2)
  end.

(** The message [m] is read up to the end of the input. *)
Definition reads_all (c : input (bool * M)) s (m : M) : Prop :=
  ∃ s', c s = Ok ((true, m), s') ∧ moved [] s s' ∧ legitimate_message_end_ s' = true.

Lemma slots_bytes_miss t l s :
  Forall (λ sl, t ≠ sl_tag sl) l → Forall slot_ok l → buffer_ s = slots_bytes l →
  ExpectTag t s = Ok (false, s).
Proof.
  unfold slots_bytes. induction l as [|sl l IH]; cbn; intros Ht Hok Hb; [by apply ExpectTag_end|].
  inversion_clear Ht. inversion_clear Hok as [|? ? Hsl]. unfold slot_bytes in Hb at 1.
  destruct (sl_present sl); [|by apply IH]. cbn in Hb. pose proof (slot_tag _ Hsl).
  by eapply ExpectTag_miss; [|done|exact Hb]; lia.
Qed.

Lemma switch_ok_slots l : switch_ok l → Forall slot_ok l.
Proof. induction l as [|sl l IH]; cbn; [done|]. intros (?&?&?&?). constructor; auto. Qed.

Lemma loop_end fuel m s :
  ready d s → buffer_ s = [] → reads_all (merge_loop unknown_fields set_unknown fields (S fuel) m) s m.
Proof.
  intros (Hs & Hl & _) Hb. exists (set_last_tag 0 (set_message_end true s)).
  split_and!; [|by apply (moved_end s 0 true)|done]. cbn [merge_loop].
  rewrite (bind_Ok _ _ _ (success, m) (set_last_tag 0 (set_message_end true s))); [done|].
  unfold merge_turn. by rewrite (bind_Ok _ _ _ _ _ (ReadTag_end s Hs Hl Hb)).
Qed.

Lemma reads_all_moved (c c' : input (bool * M)) rest s s' m :
  c s = c' s' → moved rest s s' → reads_all c' s' m → reads_all c s m.
Proof.
  intros E Hm (s2 & E' & Hm' & He). exists s2. rewrite E. split_and!; [done| |done]. by eapply moved_trans.
Qed.
Lemma reads_all_eq (c c' : input (bool * M)) s m : c s = c' s → reads_all c' s m → reads_all c s m.
Proof. intros E (s2 & E' & ?). exists s2. by rewrite E. Qed.

Lemma bind_eq {A B} (c c' : input A) (k : A → input B) s s' : c s = c' s' → (c ≫= k) s = (c' ≫= k) s'.
Proof. intros E. unfold mbind, prog_bind. by rewrite E. Qed.

(** The loop enters the chain at a field that is present. *)
Lemma loop_field fuel m sl l s rest :
  slot_ok sl →
  (∀ m, fields (GetTagFieldNumber (sl_tag sl)) (sl_tag sl) m = Some (sl_parse sl m (chain l))) →
  buffer_ s = byte.of_Z (sl_tag sl) :: rest →
  merge_loop unknown_fields set_unknown fields (S fuel) m s =
  (sl_parse sl m (chain l) ≫= resume fuel) (set_buffer rest (set_last_tag (sl_tag sl) s)).
Proof.
  intros Hsl Hf Hb. cbn [merge_loop]. apply bind_eq. unfold merge_turn.
  rewrite (bind_Ok _ _ _ _ _ (ReadTag_first _ _ s (slot_tag _ Hsl) Hb)). cbn [fst snd]. by rewrite Hf.
Qed.

(** The loop and the chain read the rest of the message. *)
Lemma chain_reads l : switch_ok l → ∀ fuel m s,
  ready d s → buffer_ s = slots_bytes l → length (slots_bytes l) < fuel →
  reads_all (merge_loop unknown_fields set_unknown fields fuel m) s (slots_result m l) ∧
  reads_all (chain l m ≫= resume fuel) s (slots_result m l).
Proof.
  induction l as [|sl l IH]; intros Hok fuel m s Hs Hb Hfuel.
  { split; [destruct fuel as [|fuel]; [cbn in Hfuel; lia|]; by apply loop_end|].
    eexists. rewrite (bind_Ok _ _ _ _ _ (then_end_write m s (proj1 Hs) Hb)).
    split_and!; [done|by apply moved_end|done]. }
  pose proof Hok as (Hsl & Hd & Hf & Hl). pose proof (slot_tag _ Hsl) as Ht.
  change (slots_bytes (sl :: l)) with (slot_bytes sl ++ slots_bytes l) in *.
  change (slots_result m (sl :: l)) with (slots_result (slot_result m sl) l).
  unfold slot_bytes, slot_result in *. destruct (sl_present sl) eqn:Ep; cbn [app length] in *.
  - rewrite length_app in Hfuel. destruct fuel as [|fuel]; [lia|].
    assert (∀ s' f, ready d s' → buffer_ s' = sl_body sl ++ slots_bytes l → length (slots_bytes l) < f →
      reads_all (sl_parse sl m (chain l) ≫= resume f) s' (slots_result (sl_apply sl m) l)) as Hrun.
    { intros s' f Hs' Hb' Hf'. destruct (slot_parse _ Hsl m (chain l) _ _ Ep Hs' Hb') as (s2 & E & Hm).
      eapply reads_all_moved; [by apply bind_eq|done|].
      apply IH; [done|by eapply moved_ready|by eapply moved_rest|done]. }
    split; [eapply reads_all_moved; [by apply loop_field|apply moved_tag|]|eapply reads_all_moved;
      [apply bind_eq, (then_tag_write (sl_tag sl) _ m _ s ltac:(lia) Hb)|apply moved_buffer|]];
      (apply Hrun; [done|done|lia]).
  - destruct (IH Hl fuel m s Hs Hb Hfuel) as [Hloop _]. split; [done|].
    eapply reads_all_eq; [|exact Hloop]. cbn [chain]. unfold then_tag.
    rewrite (bind_Ok _ _ _ (next_tag, m) s); [done|].
    by rewrite (bind_Ok _ _ _ _ _ (slots_bytes_miss (sl_tag sl) l s Hd (switch_ok_slots l Hl) Hb)).
Qed.

Lemma merge_partial_reads l m s :
  switch_ok l → ready d s → buffer_ s = slots_bytes l →
  reads_all (merge_partial unknown_fields set_unknown fields m) s (slots_result m l).
Proof.
  intros Hl Hs Hb. unfold merge_partial. eapply reads_all_eq.
  { rewrite (bind_Ok _ _ _ (S (BufferSize s)) s) by done. reflexivity. }
  apply chain_reads; [done|done|done|]. unfold BufferSize. rewrite Hb. lia.
Qed.
End slots.

Lemma ParseFromString_reads {M} `{MessageLite M} (data : bytes) (m m' : M) :
  reads_all (MergePartialFromCodedStream (Message_Clear m)) (CodedInputStream_new data) m' →
  ParseFromString data m = Ok (IsInitialized m', m').
Proof.
  intros (s' & E & _ & He). unfold ParseFromString, InlineParseFromArray, InlineParseFromCodedStream,
    InlineMergeFromCodedStream.
  rewrite (bind_Ok _ _ _ (IsInitialized m', m') s').
  2:{ by rewrite (bind_Ok _ _ _ _ _ E). }
  destruct (IsInitialized m'); [|done]. cbn [fst snd].
  by rewrite (bind_Ok _ _ _ true s') by (unfold ConsumedEntireMessage, gets; by rewrite He).
Qed.

(** ** Slots of the kinds of fields in use *)

Section kinds.
Context {M : Type} `{HasBits M}.
Definition string_slot (tag : Z) (f : field M bytes) (src : M) : slot M :=
  mkSlot tag (has f src) (WriteStringWithSizeToArray (get f src)) (parse_string f) (set f (get f src)).
Definition double_slot (tag : Z) (f : field M Z) (src : M) : slot M :=
  mkSlot tag (has f src) (WriteLittleEndian64ToArray (get f src)) (parse_primitive f ReadDouble)
    (set f (get f src)).
Definition uint32_slot (tag : Z) (f : field M Z) (src : M) : slot M :=
  mkSlot tag (has f src) (WriteVarint32ToArray (get f src)) (parse_primitive f ReadUInt32)
    (set f (get f src)).

Lemma string_slot_ok d tag f src :
  (0 < tag < 128)%Z → (Z.of_nat (length (get f src)) < 2 ^ 31)%Z → slot_ok d (string_slot tag f src).
Proof.
  intros Ht Hl. split; [done|]. intros m k rest s _ _ Hb.
  exists (set_buffer rest s). split; [by apply parse_string_write|apply moved_buffer].
Qed.
Lemma double_slot_ok d tag f src :
  (0 < tag < 128)%Z → (0 ≤ get f src < 2 ^ 64)%Z → slot_ok d (double_slot tag f src).
Proof.
  intros Ht Hl. split; [done|]. intros m k rest s _ _ Hb.
  exists (set_buffer rest s). split; [by apply parse_double_write|apply moved_buffer].
Qed.
Lemma uint32_slot_ok d tag f src :
  (0 < tag < 128)%Z → (0 ≤ get f src < 2 ^ 32)%Z → slot_ok d (uint32_slot tag f src).
Proof.
  intros Ht Hl. split; [done|]. intros m k rest s _ _ Hb.
  exists (set_buffer rest s). split; [by apply parse_uint32_write|apply moved_buffer].
Qed.
End kinds.

(** What a writer of a field produces is what the slot stands for. *)
Definition tag_bytes (n t : Z) : bytes := [byte.of_Z (MakeTag n t)].

Lemma WriteTag_small n t : (MakeTag n t < 128)%Z → WriteTagToArray n t = tag_bytes n t.
Proof. intros Hn. apply WriteVarint32_small. pose proof (MakeTag_range n t). lia. Qed.

Lemma SerializeToString_writes {M} `{MessageLite M} (m : M) :
  ByteSize m = length (SerializeWithCachedSizesToArray m) → (Z.of_nat (ByteSize m) < 2 ^ 31)%Z →
  SerializeToString m = Ok (true, SerializeWithCachedSizesToArray m).
Proof.
  intros E Hs. unfold SerializeToString, AppendPartialToString.
  rewrite Z.mod_small, to_int32_small by lia. destruct (Z.ltb_spec (Z.of_nat (ByteSize m)) 0); [lia|].
  by rewrite E, Z.eqb_refl.
Qed.

(** The size of the message is below the limit on what a stream reads. *)
Abbreviation fits m := (Z.of_nat (ByteSize m) < kDefaultTotalBytesLimit)%Z.

Lemma message_round {M} `{MessageLite M} d unknown_fields set_unknown fields (l : list (slot M)) (m m0 : M) :
  (d ≤ default_recursion_limit_)%Z →
  ByteSize m = length (slots_bytes l) → SerializeWithCachedSizesToArray m = slots_bytes l →
  MergePartialFromCodedStream (Message_Clear m0) =
    merge_partial unknown_fields set_unknown fields (Message_Clear m0) →
  switch_ok d fields l → slots_result (Message_Clear m0) l = m → fits m →
  ∃ data, SerializeToString m = Ok (true, data) ∧ ParseFromString data m0 = Ok (IsInitialized m, m).
Proof.
  intros Hd Hsize Hser Hmerge Hl Hres Hf. assert (kDefaultTotalBytesLimit = 2 ^ 26)%Z by done.
  exists (slots_bytes l). split; [rewrite <-Hser; apply SerializeToString_writes; [congruence|lia]|].
  apply ParseFromString_reads. rewrite Hmerge. rewrite <-Hres.
  apply (merge_partial_reads d); [done| |done]. split_and!; [apply flat_new|cbn; lia|done].
Qed.

(** * Messages within messages *)

(** A stream on an array within the limit on sizes. *)
Definition bounded (s : CodedInputStream) : Prop :=
  flat s ∧ (current_limit_ s ≤ kDefaultTotalBytesLimit)%Z.

Lemma bounded_flat s : bounded s → flat s.
Proof. by intros []. Qed.
Lemma bounded_window s s' : window s' = window s → bounded s → bounded s'.
Proof.
  intros Hw [Hs Hl]. split; [by eapply window_flat|]. unfold window in Hw. by injection Hw as _ _ ->.
Qed.

Lemma flat_position s : flat s → (current_limit_ s = CurrentPosition s + Z.of_nat (BufferSize s))%Z.
Proof. unfold flat, limit_position, CurrentPosition. lia. Qed.

(** The rest of the array is split at a limit within it. *)
Lemma run_RecomputeBufferLimits s limit :
  let rest := buffer_ s ++ after_limit_ s in
  let k := Z.to_nat (limit - CurrentPosition s) in
  (CurrentPosition s ≤ limit ≤ total_bytes_read_ s)%Z → (limit ≤ kDefaultTotalBytesLimit)%Z →
  RecomputeBufferLimits limit s = Ok (tt, set_window (take k rest) (drop k rest) limit s).
Proof.
  intros rest k Hl Hd. unfold RecomputeBufferLimits. rewrite (bind_Ok _ _ _ s s) by done.
  rewrite Z.min_l by done. fold rest.
  assert (total_bytes_read_ s - CurrentPosition s = Z.of_nat (length rest))%Z as Hr.
  { unfold CurrentPosition, BufferSize, buffer_size_after_limit_, rest. rewrite length_app. lia. }
  destruct (Z.ltb_spec 0 (total_bytes_read_ s - limit)).
  - destruct (Z.leb_spec (total_bytes_read_ s - limit) (Z.of_nat (length rest))); [|lia].
    replace (length rest - Z.to_nat (total_bytes_read_ s - limit)) with k by (unfold k; lia). done.
  - assert (length rest ≤ k) by (unfold k; lia). by rewrite take_ge, drop_ge by done.
Qed.

Definition push (k : nat) (s : CodedInputStream) : CodedInputStream :=
  set_window (take k (buffer_ s)) (drop k (buffer_ s) ++ after_limit_ s)
    (CurrentPosition s + Z.of_nat k) s.

Lemma run_PushLimit s n :
  bounded s → ∃ k, k ≤ BufferSize s ∧ PushLimit n s = Ok (current_limit_ s, push k s) ∧
    ((0 ≤ n ≤ Z.of_nat (BufferSize s))%Z → k = Z.to_nat n).
Proof.
  intros [Hs Hb]. pose proof (flat_position s Hs) as Hp.
  assert (kDefaultTotalBytesLimit = 2 ^ 26)%Z as Ek by done.
  set (limit := Z.min (if Z.leb 0 n && Z.leb n (INT_MAX - CurrentPosition s)
    then CurrentPosition s + n else INT_MAX)%Z (current_limit_ s)).
  assert (CurrentPosition s ≤ limit ≤ current_limit_ s)%Z as Hlim.
  { unfold limit, INT_MAX. destruct (Z.leb_spec 0 n), (Z.leb_spec n (2 ^ 31 - 1 - CurrentPosition s)); cbn [andb]; lia. }
  exists (Z.to_nat (limit - CurrentPosition s)). split_and!; [lia| |].
  - unfold PushLimit. rewrite (bind_Ok _ _ _ (CurrentPosition s) s), (bind_Ok _ _ _ (current_limit_ s) s) by done.
    fold limit. assert (limit ≤ total_bytes_read_ s)%Z.
    { unfold flat, limit_position, buffer_size_after_limit_ in Hs. lia. }
    rewrite (bind_Ok _ _ _ _ _ (run_RecomputeBufferLimits s limit ltac:(lia) ltac:(lia))).
    unfold push. rewrite take_app_le, drop_app_le by (unfold BufferSize in *; lia).
    by replace (CurrentPosition s + Z.of_nat (Z.to_nat (limit - CurrentPosition s)))%Z with limit by lia.
  - intros Hn. unfold limit, INT_MAX.
    destruct (Z.leb_spec 0 n), (Z.leb_spec n (2 ^ 31 - 1 - CurrentPosition s)); cbn [andb]; lia.
Qed.

Lemma push_bounded k s : bounded s → k ≤ BufferSize s → bounded (push k s).
Proof.
  intros [Hs Hb] Hk. pose proof (flat_position s Hs) as Hp. split; [|cbn; lia].
  unfold push, flat, limit_position, CurrentPosition, BufferSize, buffer_size_after_limit_ in *.
  cbn -[Z.add Z.sub]. rewrite length_app, length_drop. lia.
Qed.

(** Popping the limit gives back the bytes behind it. *)
Lemma run_PopLimit k s s2 :
  bounded s → k ≤ BufferSize s → window s2 = window (push k s) →
  PopLimit (current_limit_ s) s2 =
    Ok (tt, set_message_end false
              (set_window (buffer_ s2 ++ drop k (buffer_ s)) (after_limit_ s) (current_limit_ s) s2)).
Proof.
  intros [Hs Hb] Hk Hw. unfold window in Hw. cbn in Hw. injection Hw as Ha Ht _. unfold PopLimit.
  set (n := length (buffer_ s2 ++ drop k (buffer_ s))).
  assert (CurrentPosition s2 = current_limit_ s - Z.of_nat n)%Z as Hpos.
  { unfold flat, limit_position, CurrentPosition, buffer_size_after_limit_, BufferSize in *.
    rewrite Ha, Ht. unfold n. rewrite !length_app. lia. }
  assert (Z.to_nat (current_limit_ s - CurrentPosition s2) = n) as En by lia.
  assert (current_limit_ s ≤ total_bytes_read_ s2)%Z.
  { unfold flat, limit_position, buffer_size_after_limit_ in Hs. lia. }
  rewrite (bind_Ok _ _ _ _ _ (run_RecomputeBufferLimits s2 (current_limit_ s) ltac:(lia) ltac:(lia))).
  rewrite En, Ha, app_assoc. unfold n. by rewrite take_app_length, drop_app_length.
Qed.

(** ** Reading a nested message *)

Section nested.
Context {M : Type} `{MessageLite M}.

Definition spend (s : CodedInputStream) : CodedInputStream :=
  set_recursion_budget (recursion_budget_ s - 1) s.

Lemma run_push_spend k n s :
  PushLimit n s = Ok (current_limit_ s, push k s) →
  IncrementRecursionDepthAndPushLimit n s =
    Ok ((current_limit_ s, recursion_budget_ s - 1)%Z, spend (push k s)).
Proof. intros E. unfold IncrementRecursionDepthAndPushLimit. by rewrite (bind_Ok _ _ _ _ _ E). Qed.

Lemma run_pop_earn k s s2 :
  bounded s → k ≤ BufferSize s → window s2 = window (push k s) →
  DecrementRecursionDepthAndPopLimit (current_limit_ s) s2 =
    Ok (legitimate_message_end_ s2, set_recursion_budget (recursion_budget_ s2 + 1) (set_message_end false
          (set_window (buffer_ s2 ++ drop k (buffer_ s)) (after_limit_ s) (current_limit_ s) s2))).
Proof.
  intros Hs Hk Hw. unfold DecrementRecursionDepthAndPopLimit.
  rewrite (bind_Ok _ _ _ (legitimate_message_end_ s2) s2) by done.
  by rewrite (bind_Ok _ _ _ _ _ (run_PopLimit k s s2 Hs Hk Hw)).
Qed.

Lemma ReadMessage_runs value :
  runs bounded (MergePartialFromCodedStream value) → frames (MergePartialFromCodedStream value) →
  runs bounded (ReadMessageNoVirtual value).
Proof.
  intros Hr Hf s Hs. unfold ReadMessageNoVirtual.
  destruct (ReadVarint32_safe s (bounded_flat s Hs)) as (len & s1 & E & _ & Hl & _).
  assert (bounded s1) as Hs1 by (eapply bounded_window; [by eapply frames_ReadVarint32|done]).
  rewrite (bind_Ok _ _ _ _ _ E). destruct len as [len|]; [|by exists (false, value), s1].
  destruct (run_PushLimit s1 (to_int32 len) Hs1) as (k & Hk & Ep & _).
  rewrite (bind_Ok _ _ _ _ _ (run_push_spend k _ s1 Ep)). cbn [fst snd].
  assert (bounded (spend (push k s1))) as Hp by by apply push_bounded.
  assert (BufferSize (spend (push k s1)) = k) as Hsz.
  { unfold BufferSize in *. cbn. rewrite length_take. lia. }
  destruct (Z.ltb _ 0); [by eexists (false, value), _; split_and!; [done..|lia]|].
  destruct (Hr _ Hp) as ([ok m] & s2 & E2 & Hs2 & Hl2). rewrite (bind_Ok _ _ _ _ _ E2). cbn [fst snd].
  destruct ok; [|by eexists (false, m), s2; split_and!; [done..|lia]].
  rewrite (bind_Ok _ _ _ _ _ (run_pop_earn k s1 s2 Hs1 Hk (Hf _ _ _ E2))). eexists _, _.
  split_and!; [done| |].
  - eapply (bounded_window s1); [|done]. pose proof (Hf _ _ _ E2) as Hw. unfold window in *. cbn in *. by injection Hw as _ -> _.
  - unfold BufferSize in *. cbn. rewrite length_app, length_drop. lia.
Qed.

(** On the bytes of a message that reads back. *)
Lemma ReadMessage_write d value value' body rest s :
  ready d s → (1 ≤ d)%Z → (Z.of_nat (length body) < 2 ^ 31)%Z →
  buffer_ s = WriteVarint32ToArray (Z.of_nat (length body)) ++ body ++ rest →
  (∀ s, ready (d - 1) s → buffer_ s = body →
    reads_all (MergePartialFromCodedStream value) s value') →
  ∃ s', ReadMessageNoVirtual value s = Ok ((true, value'), s') ∧ moved rest s s'.
Proof.
  intros (Hs & Hlim & Hd) Hd1 Hlen Hb Hread. unfold ReadMessageNoVirtual.
  rewrite (bind_Ok _ _ _ _ _ (ReadVarint32_write (Z.of_nat (length body)) (body ++ rest) s ltac:(lia) Hb)).
  rewrite to_int32_small by done. set (s1 := set_buffer (body ++ rest) s).
  assert (bounded s1) as Hs1 by (split; [done|cbn; lia]).
  destruct (run_PushLimit s1 (Z.of_nat (length body)) Hs1) as (k & Hk & Ep & Ek).
  rewrite Ek in * by (unfold BufferSize; cbn; rewrite length_app; lia). rewrite Nat2Z.id in *. clear Ek k.
  rewrite (bind_Ok _ _ _ _ _ (run_push_spend _ _ s1 Ep)). cbn [fst snd].
  destruct (Z.ltb_spec (recursion_budget_ s1 - 1) 0); [cbn in *; lia|].
  destruct (Hread (spend (push (length body) s1))) as (s2 & E2 & Hm & He).
  { pose proof (push_bounded _ _ Hs1 Hk) as [? ?]. pose proof (flat_position s1 (proj1 Hs1)).
    split_and!; [done|cbn in *; lia|cbn; lia]. }
  { cbn. by rewrite take_app_length. }
  rewrite (bind_Ok _ _ _ _ _ E2). cbn [fst snd].
  assert (window s2 = window (push (length body) s1)) as Hw by by destruct Hm as (t & e & ->).
  rewrite (bind_Ok _ _ _ _ _ (run_pop_earn (length body) s1 s2 Hs1 Hk Hw)). rewrite He.
  eexists. split; [done|]. destruct Hm as (t & e & ->). exists t, false. cbn. rewrite drop_app_length.
  unfold set_recursion_budget, set_message_end, set_last_tag, set_buffer. cbn. f_equal. lia.
Qed.
End nested.
