(* ===== verification/TransactionPb.v ===== *)
(** * Generated messages of the ledger

    Models [bubi::Transaction] and [bubi::Account] as protoc generates them in
    [src/src/ledger/transaction.pb.h] and [transaction.pb.cc] from
    [transaction.proto].  A [double] is its 64 bits.  The cached size is recomputed
    before every use and is not represented; neither are descriptors, reflection
    and arenas. *)

From S2P Require Import Prelude Varint BaseUint CodedStream WireFormat WireLemmas PbMessage PbRound.

(** ** [bubi::Transaction] *)

Record TransactionPb := mkTransactionPb {
  tx_has_bits_ : Z;
  tx_source_address_ : bytes;
  tx_destination_address_ : bytes;
  tx_payment_amount_ : Z;
  tx_source_previous_tx_hash_ : bytes;
  tx_source_previous_ledger_seq_ : Z;
  tx_destination_previous_ledger_seq_ : Z;
  tx_destination_previous_tx_hash_ : bytes;
  tx_unknown_fields : UnknownFieldSet;
}.

(** [SharedCtor] *)
Definition TransactionPb_new : TransactionPb := mkTransactionPb 0 [] [] 0 [] 0 0 [] [].

#[export] Instance TransactionPb_HasBits : HasBits TransactionPb := {
  has_bits_ := tx_has_bits_;
  set_has_bits b '(mkTransactionPb _ a c d e f g h u) := mkTransactionPb b a c d e f g h u;
}.

Definition tx_source_address : field TransactionPb bytes :=
  mkField 0x1 [] tx_source_address_
    (λ x '(mkTransactionPb b _ c d e f g h u), mkTransactionPb b x c d e f g h u).
Definition tx_destination_address : field TransactionPb bytes :=
  mkField 0x2 [] tx_destination_address_
    (λ x '(mkTransactionPb b a _ d e f g h u), mkTransactionPb b a x d e f g h u).
Definition tx_payment_amount : field TransactionPb Z :=
  mkField 0x4 0%Z tx_payment_amount_
    (λ x '(mkTransactionPb b a c _ e f g h u), mkTransactionPb b a c x e f g h u).
Definition tx_source_previous_ledger_seq : field TransactionPb Z :=
  mkField 0x8 0%Z tx_source_previous_ledger_seq_
    (λ x '(mkTransactionPb b a c d e _ g h u), mkTransactionPb b a c d e x g h u).
Definition tx_source_previous_tx_hash : field TransactionPb bytes :=
  mkField 0x10 [] tx_source_previous_tx_hash_
    (λ x '(mkTransactionPb b a c d _ f g h u), mkTransactionPb b a c d x f g h u).
Definition tx_destination_previous_ledger_seq : field TransactionPb Z :=
  mkField 0x20 0%Z tx_destination_previous_ledger_seq_
    (λ x '(mkTransactionPb b a c d e f _ h u), mkTransactionPb b a c d e f x h u).
Definition tx_destination_previous_tx_hash : field TransactionPb bytes :=
  mkField 0x40 [] tx_destination_previous_tx_hash_
    (λ x '(mkTransactionPb b a c d e f g _ u), mkTransactionPb b a c d e f g x u).
Definition tx_set_unknown (x : UnknownFieldSet) (m : TransactionPb) : TransactionPb :=
  let '(mkTransactionPb b a c d e f g h _) := m in mkTransactionPb b a c d e f g h x.

(** [ClearToEmptyNoArena] of a string that is present. *)
Definition clear_string {M} `{HasBits M} (f : field M bytes) (m : M) : M :=
  if has f m then f_put f [] m else m.

Definition TransactionPb_Clear (m : TransactionPb) : TransactionPb :=
  let m :=
    if Z.eqb (Z.land (has_bits_ m) 127) 0 then m
    else
      let m := f_put tx_source_previous_ledger_seq 0%Z m in
      let m := f_put tx_destination_previous_ledger_seq 0%Z m in
      let m := clear_string tx_source_address m in
      let m := clear_string tx_destination_address m in
      let m := f_put tx_payment_amount 0%Z m in
      let m := clear_string tx_source_previous_tx_hash m in
      clear_string tx_destination_previous_tx_hash m in
  tx_set_unknown [] (set_has_bits 0 m).

(** The labels of [MergePartialFromCodedStream], last to first. *)
Definition tx_parse_destination_previous_tx_hash (m : TransactionPb) :=
  parse_string tx_destination_previous_tx_hash m then_end.
Definition tx_parse_destination_previous_ledger_seq (m : TransactionPb) :=
  parse_primitive tx_destination_previous_ledger_seq ReadUInt32 m
    (then_tag 58 tx_parse_destination_previous_tx_hash).
Definition tx_parse_source_previous_tx_hash (m : TransactionPb) :=
  parse_string tx_source_previous_tx_hash m (then_tag 48 tx_parse_destination_previous_ledger_seq).
Definition tx_parse_source_previous_ledger_seq (m : TransactionPb) :=
  parse_primitive tx_source_previous_ledger_seq ReadUInt32 m
    (then_tag 42 tx_parse_source_previous_tx_hash).
Definition tx_parse_payment_amount (m : TransactionPb) :=
  parse_primitive tx_payment_amount ReadDouble m (then_tag 32 tx_parse_source_previous_ledger_seq).
Definition tx_parse_destination_address (m : TransactionPb) :=
  parse_string tx_destination_address m (then_tag 25 tx_parse_payment_amount).
Definition tx_parse_source_address (m : TransactionPb) :=
  parse_string tx_source_address m (then_tag 18 tx_parse_destination_address).

(** A case of the [switch]: the section for a field when the tag is its own. *)
Definition tag_case {M} (tag expected : Z) (parse : input (turn * M)) : option (input (turn * M)) :=
  if Z.eqb tag expected then Some parse else None.
Definition TransactionPb_fields (number tag : Z) (m : TransactionPb) : option (input (turn * TransactionPb)) :=
  match number with
  | 1 => tag_case tag 10 (tx_parse_source_address m)
  | 2 => tag_case tag 18 (tx_parse_destination_address m)
  | 3 => tag_case tag 25 (tx_parse_payment_amount m)
  | 4 => tag_case tag 32 (tx_parse_source_previous_ledger_seq m)
  | 5 => tag_case tag 42 (tx_parse_source_previous_tx_hash m)
  | 6 => tag_case tag 48 (tx_parse_destination_previous_ledger_seq m)
  | 7 => tag_case tag 58 (tx_parse_destination_previous_tx_hash m)
  | _ => None
  end%Z.
Definition TransactionPb_MergePartialFromCodedStream (m : TransactionPb) : input (bool * TransactionPb) :=
  merge_partial tx_unknown_fields tx_set_unknown TransactionPb_fields m.

(** [if (has_f ()) ...] of the writers and of the sizes. *)
Definition when_has {M A} `{HasBits M} (f : field M A) (m : M) (write : A → bytes) : bytes :=
  if has f m then write (get f m) else [].
Definition size_when_has {M A} `{HasBits M} (f : field M A) (m : M) (size : A → nat) : nat :=
  if has f m then 1 + size (get f m) else 0.

Definition TransactionPb_SerializeWithCachedSizesToArray (m : TransactionPb) : bytes :=
  when_has tx_source_address m (WriteStringToArray 1) ++
  when_has tx_destination_address m (WriteStringToArray 2) ++
  when_has tx_payment_amount m (WriteDoubleToArray 3) ++
  when_has tx_source_previous_ledger_seq m (WriteUInt32ToArray 4) ++
  when_has tx_source_previous_tx_hash m (WriteStringToArray 5) ++
  when_has tx_destination_previous_ledger_seq m (WriteUInt32ToArray 6) ++
  when_has tx_destination_previous_tx_hash m (WriteStringToArray 7) ++
  SerializeUnknownFieldsToArray (tx_unknown_fields m).

Definition TransactionPb_RequiredFieldsByteSizeFallback (m : TransactionPb) : nat :=
  size_when_has tx_source_address m StringSize +
  size_when_has tx_destination_address m StringSize +
  size_when_has tx_source_previous_ledger_seq m UInt32Size +
  size_when_has tx_source_previous_tx_hash m StringSize +
  size_when_has tx_destination_previous_ledger_seq m UInt32Size +
  size_when_has tx_destination_previous_tx_hash m StringSize.
Definition TransactionPb_ByteSize (m : TransactionPb) : nat :=
  (if Z.eqb (Z.lxor (Z.land (has_bits_ m) 0x7b) 0x7b) 0 then
     (1 + StringSize (get tx_source_address m)) +
     (1 + StringSize (get tx_destination_address m)) +
     (1 + UInt32Size (get tx_source_previous_ledger_seq m)) +
     (1 + StringSize (get tx_source_previous_tx_hash m)) +
     (1 + UInt32Size (get tx_destination_previous_ledger_seq m)) +
     (1 + StringSize (get tx_destination_previous_tx_hash m))
   else TransactionPb_RequiredFieldsByteSizeFallback m) +
  size_when_has tx_payment_amount m (λ _, 8) +
  ComputeUnknownFieldsSize (tx_unknown_fields m).

(** Merging one field of another message. *)
Definition merge_field {M A} `{HasBits M} (f : field M A) (from m : M) : M :=
  if has f from then set f (get f from) m else m.
Definition TransactionPb_MergeFrom (from m : TransactionPb) : TransactionPb :=
  let m :=
    if Z.eqb (Z.land (has_bits_ from) 0xff) 0 then m
    else
      let m := merge_field tx_source_address from m in
      let m := merge_field tx_destination_address from m in
      let m := merge_field tx_payment_amount from m in
      let m := merge_field tx_source_previous_ledger_seq from m in
      let m := merge_field tx_source_previous_tx_hash from m in
      let m := merge_field tx_destination_previous_ledger_seq from m in
      merge_field tx_destination_previous_tx_hash from m in
  tx_set_unknown (tx_unknown_fields m ++ tx_unknown_fields from) m.
(** [CopyFrom] of another object. *)
Definition TransactionPb_CopyFrom (from m : TransactionPb) : TransactionPb :=
  TransactionPb_MergeFrom from (TransactionPb_Clear m).

Definition TransactionPb_IsInitialized (m : TransactionPb) : bool :=
  Z.eqb (Z.land (has_bits_ m) 0x7b) 0x7b.

#[export] Instance TransactionPb_MessageLite : MessageLite TransactionPb := {
  Message_Clear := TransactionPb_Clear;
  MergePartialFromCodedStream := TransactionPb_MergePartialFromCodedStream;
  IsInitialized := TransactionPb_IsInitialized;
  ByteSize := TransactionPb_ByteSize;
  SerializeWithCachedSizesToArray := TransactionPb_SerializeWithCachedSizesToArray;
}.

(** ** [bubi::Account] *)

Record AccountPb := mkAccountPb {
  acc_has_bits_ : Z;
  acc_account_address_ : bytes;
  acc_account_balance_ : Z;
  acc_previous_tx_hash_ : bytes;
  acc_previous_ledger_seq_ : Z;
  acc_unknown_fields : UnknownFieldSet;
}.

Definition AccountPb_new : AccountPb := mkAccountPb 0 [] 0 [] 0 [].

#[export] Instance AccountPb_HasBits : HasBits AccountPb := {
  has_bits_ := acc_has_bits_;
  set_has_bits b '(mkAccountPb _ a c d e u) := mkAccountPb b a c d e u;
}.

Definition acc_account_address : field AccountPb bytes :=
  mkField 0x1 [] acc_account_address_ (λ x '(mkAccountPb b _ c d e u), mkAccountPb b x c d e u).
Definition acc_account_balance : field AccountPb Z :=
  mkField 0x2 0%Z acc_account_balance_ (λ x '(mkAccountPb b a _ d e u), mkAccountPb b a x d e u).
Definition acc_previous_ledger_seq : field AccountPb Z :=
  mkField 0x4 0%Z acc_previous_ledger_seq_ (λ x '(mkAccountPb b a c d _ u), mkAccountPb b a c d x u).
Definition acc_previous_tx_hash : field AccountPb bytes :=
  mkField 0x8 [] acc_previous_tx_hash_ (λ x '(mkAccountPb b a c _ e u), mkAccountPb b a c x e u).
Definition acc_set_unknown (x : UnknownFieldSet) (m : AccountPb) : AccountPb :=
  let '(mkAccountPb b a c d e _) := m in mkAccountPb b a c d e x.

Definition AccountPb_Clear (m : AccountPb) : AccountPb :=
  let m :=
    if Z.eqb (Z.land (has_bits_ m) 15) 0 then m
    else
      let m := clear_string acc_account_address m in
      let m := f_put acc_account_balance 0%Z m in
      let m := f_put acc_previous_ledger_seq 0%Z m in
      clear_string acc_previous_tx_hash m in
  acc_set_unknown [] (set_has_bits 0 m).

Definition acc_parse_previous_tx_hash (m : AccountPb) := parse_string acc_previous_tx_hash m then_end.
Definition acc_parse_previous_ledger_seq (m : AccountPb) :=
  parse_primitive acc_previous_ledger_seq ReadUInt32 m (then_tag 34 acc_parse_previous_tx_hash).
Definition acc_parse_account_balance (m : AccountPb) :=
  parse_primitive acc_account_balance ReadDouble m (then_tag 24 acc_parse_previous_ledger_seq).
Definition acc_parse_account_address (m : AccountPb) :=
  parse_string acc_account_address m (then_tag 17 acc_parse_account_balance).

Definition AccountPb_fields (number tag : Z) (m : AccountPb) : option (input (turn * AccountPb)) :=
  match number with
  | 1 => tag_case tag 10 (acc_parse_account_address m)
  | 2 => tag_case tag 17 (acc_parse_account_balance m)
  | 3 => tag_case tag 24 (acc_parse_previous_ledger_seq m)
  | 4 => tag_case tag 34 (acc_parse_previous_tx_hash m)
  | _ => None
  end%Z.
Definition AccountPb_MergePartialFromCodedStream (m : AccountPb) : input (bool * AccountPb) :=
  merge_partial acc_unknown_fields acc_set_unknown AccountPb_fields m.

Definition AccountPb_SerializeWithCachedSizesToArray (m : AccountPb) : bytes :=
  when_has acc_account_address m (WriteStringToArray 1) ++
  when_has acc_account_balance m (WriteDoubleToArray 2) ++
  when_has acc_previous_ledger_seq m (WriteUInt32ToArray 3) ++
  when_has acc_previous_tx_hash m (WriteStringToArray 4) ++
  SerializeUnknownFieldsToArray (acc_unknown_fields m).

Definition AccountPb_RequiredFieldsByteSizeFallback (m : AccountPb) : nat :=
  size_when_has acc_account_address m StringSize +
  size_when_has acc_account_balance m (λ _, 8) +
  size_when_has acc_previous_ledger_seq m UInt32Size +
  size_when_has acc_previous_tx_hash m StringSize.
Definition AccountPb_ByteSize (m : AccountPb) : nat :=
  (if Z.eqb (Z.lxor (Z.land (has_bits_ m) 0xf) 0xf) 0 then
     (1 + StringSize (get acc_account_address m)) + (1 + 8) +
     (1 + UInt32Size (get acc_previous_ledger_seq m)) +
     (1 + StringSize (get acc_previous_tx_hash m))
   else AccountPb_RequiredFieldsByteSizeFallback m) +
  ComputeUnknownFieldsSize (acc_unknown_fields m).

Definition AccountPb_MergeFrom (from m : AccountPb) : AccountPb :=
  let m :=
    if Z.eqb (Z.land (has_bits_ from) 0xff) 0 then m
    else
      let m := merge_field acc_account_address from m in
      let m := merge_field acc_account_balance from m in
      let m := merge_field acc_previous_ledger_seq from m in
      merge_field acc_previous_tx_hash from m in
  acc_set_unknown (acc_unknown_fields m ++ acc_unknown_fields from) m.
Definition AccountPb_CopyFrom (from m : AccountPb) : AccountPb :=
  AccountPb_MergeFrom from (AccountPb_Clear m).

Definition AccountPb_IsInitialized (m : AccountPb) : bool := Z.eqb (Z.land (has_bits_ m) 0xf) 0xf.

#[export] Instance AccountPb_MessageLite : MessageLite AccountPb := {
  Message_Clear := AccountPb_Clear;
  MergePartialFromCodedStream := AccountPb_MergePartialFromCodedStream;
  IsInitialized := AccountPb_IsInitialized;
  ByteSize := AccountPb_ByteSize;
  SerializeWithCachedSizesToArray := AccountPb_SerializeWithCachedSizesToArray;
}.
