(* ===== verification/TransactionPbLaws.v ===== *)
(** * Generated messages of the ledger: correctness

    Parsing arbitrary bytes returns; the size computed is the number of bytes
    written; and parsing what was written gives the message back. *)

From S2P Require Import Prelude Varint BaseUint CodedStream WireFormat WireLemmas PbMessage PbRound TransactionPb.

(** ** Safety of parsing *)

Lemma tag_case_inv {M} tag expected (c parse : input (turn * M)) :
  tag_case tag expected parse = Some c → tag = expected ∧ c = parse.
Proof. unfold tag_case. destruct (Z.eqb_spec tag expected); [|done]. intros [= <-]. done. Qed.

Lemma tx_parse_safe m :
  safe (tx_parse_destination_previous_tx_hash m) ∧ safe (tx_parse_destination_previous_ledger_seq m) ∧
  safe (tx_parse_source_previous_tx_hash m) ∧ safe (tx_parse_source_previous_ledger_seq m) ∧
  safe (tx_parse_payment_amount m) ∧ safe (tx_parse_destination_address m) ∧
  safe (tx_parse_source_address m).
Proof.
  assert (∀ m, safe (tx_parse_destination_previous_tx_hash m)) by (intros; apply parse_string_safe; auto with bubi).
  assert (∀ m, safe (tx_parse_destination_previous_ledger_seq m))
    by (intros; apply parse_primitive_safe; auto with bubi).
  assert (∀ m, safe (tx_parse_source_previous_tx_hash m)) by (intros; apply parse_string_safe; auto with bubi).
  assert (∀ m, safe (tx_parse_source_previous_ledger_seq m))
    by (intros; apply parse_primitive_safe; auto with bubi).
  assert (∀ m, safe (tx_parse_payment_amount m)) by (intros; apply parse_primitive_safe; auto with bubi).
  assert (∀ m, safe (tx_parse_destination_address m)) by (intros; apply parse_string_safe; auto with bubi).
  split_and!; [done..|]. apply parse_string_safe; auto with bubi.
Qed.

Lemma TransactionPb_fields_safe n t m c : TransactionPb_fields n t m = Some c → n ≠ 0%Z ∧ safe c.
Proof.
  pose proof (tx_parse_safe m) as (?&?&?&?&?&?&?). unfold TransactionPb_fields.
  repeat case_match; try done; intros [-> ->]%tag_case_inv; done.
Qed.

Lemma acc_parse_safe m :
  safe (acc_parse_previous_tx_hash m) ∧ safe (acc_parse_previous_ledger_seq m) ∧
  safe (acc_parse_account_balance m) ∧ safe (acc_parse_account_address m).
Proof.
  assert (∀ m, safe (acc_parse_previous_tx_hash m)) by (intros; apply parse_string_safe; auto with bubi).
  assert (∀ m, safe (acc_parse_previous_ledger_seq m)) by (intros; apply parse_primitive_safe; auto with bubi).
  assert (∀ m, safe (acc_parse_account_balance m)) by (intros; apply parse_primitive_safe; auto with bubi).
  split_and!; [done..|]. apply parse_string_safe; auto with bubi.
Qed.

Lemma AccountPb_fields_safe n t m c : AccountPb_fields n t m = Some c → n ≠ 0%Z ∧ safe c.
Proof.
  pose proof (acc_parse_safe m) as (?&?&?&?). unfold AccountPb_fields.
  repeat case_match; try done; intros [-> ->]%tag_case_inv; done.
Qed.

Lemma TransactionPb_parses data m : ∃ ok m', ParseFromString (M := TransactionPb) data m = Ok (ok, m').
Proof.
  apply ParseFromString_total. intros m0. apply merge_partial_safe, TransactionPb_fields_safe.
Qed.
Lemma AccountPb_parses data m : ∃ ok m', ParseFromString (M := AccountPb) data m = Ok (ok, m').
Proof.
  apply ParseFromString_total. intros m0. apply merge_partial_safe, AccountPb_fields_safe.
Qed.

(** ** Well-formed messages *)

(** An absent field holds its default value. *)
Definition absent_default {M A} `{HasBits M} (f : field M A) (m : M) : Prop :=
  has f m = false → get f m = f_default f.

Abbreviation short v := (Z.of_nat (length v) < 2 ^ 31)%Z.

Record TransactionPb_wf (m : TransactionPb) : Prop := {
  tx_wf_bits : (0 ≤ tx_has_bits_ m < 128)%Z;
  tx_wf_absent : absent_default tx_source_address m ∧ absent_default tx_destination_address m ∧
    absent_default tx_payment_amount m ∧ absent_default tx_source_previous_ledger_seq m ∧
    absent_default tx_source_previous_tx_hash m ∧ absent_default tx_destination_previous_ledger_seq m ∧
    absent_default tx_destination_previous_tx_hash m;
  tx_wf_ranges : is_u64 (tx_payment_amount_ m) ∧ is_u32 (tx_source_previous_ledger_seq_ m) ∧
    is_u32 (tx_destination_previous_ledger_seq_ m);
  tx_wf_unknown : Forall unknown_ok (tx_unknown_fields m);
}.

Record AccountPb_wf (m : AccountPb) : Prop := {
  acc_wf_bits : (0 ≤ acc_has_bits_ m < 16)%Z;
  acc_wf_absent : absent_default acc_account_address m ∧ absent_default acc_account_balance m ∧
    absent_default acc_previous_ledger_seq m ∧ absent_default acc_previous_tx_hash m;
  acc_wf_ranges : is_u64 (acc_account_balance_ m) ∧ is_u32 (acc_previous_ledger_seq_ m);
  acc_wf_unknown : Forall unknown_ok (acc_unknown_fields m);
}.

(** A fact on the presence bits of a message, by enumeration. *)
Lemma bits_check (n : nat) (P : Z → bool) b :
  forallb (λ i, P (Z.of_nat i)) (seq 0 n) = true → (0 ≤ b < Z.of_nat n)%Z → P b = true.
Proof.
  intros Hc Hb. rewrite forallb_forall in Hc. specialize (Hc (Z.to_nat b)).
  rewrite Z2Nat.id in Hc by lia. apply Hc, in_seq. lia.
Qed.

Lemma when_has_size {M A} `{HasBits M} (f : field M A) (m : M) write size :
  length (write (get f m)) = 1 + size (get f m) →
  length (when_has f m write) = size_when_has f m size.
Proof. intros E. unfold when_has, size_when_has. by destruct (has f m). Qed.

Lemma length_WriteTag n t : (0 ≤ Z.lor (Z.shiftl n 3) t < 128)%Z → length (WriteTagToArray n t) = 1.
Proof.
  intros Hn. unfold WriteTagToArray, MakeTag. rewrite Z.mod_small by lia. by rewrite WriteVarint32_small.
Qed.
Lemma length_WriteString n v :
  (0 ≤ Z.lor (Z.shiftl n 3) WIRETYPE_LENGTH_DELIMITED < 128)%Z →
  length (WriteStringToArray n v) = 1 + StringSize v.
Proof.
  intros Hn. unfold WriteStringToArray. by rewrite length_app, length_WriteTag, StringSize_length.
Qed.
Lemma length_WriteDouble n v :
  (0 ≤ Z.lor (Z.shiftl n 3) WIRETYPE_FIXED64 < 128)%Z → length (WriteDoubleToArray n v) = 1 + 8.
Proof. intros Hn. unfold WriteDoubleToArray. by rewrite length_app, length_WriteTag. Qed.
Lemma length_WriteUInt32 n v :
  (0 ≤ Z.lor (Z.shiftl n 3) WIRETYPE_VARINT < 128)%Z → is_u32 v →
  length (WriteUInt32ToArray n v) = 1 + UInt32Size v.
Proof.
  intros Hn Hv. unfold WriteUInt32ToArray, UInt32Size.
  by rewrite length_app, length_WriteTag, VarintSize32_length.
Qed.

(** ** Sizes *)

(** The tests of the presence bits agree with the fields' own. *)
Lemma tx_required m :
  (0 ≤ tx_has_bits_ m < 128)%Z → Z.eqb (Z.lxor (Z.land (has_bits_ m) 0x7b) 0x7b) 0 = true →
  has tx_source_address m ∧ has tx_destination_address m ∧ has tx_source_previous_ledger_seq m ∧
  has tx_source_previous_tx_hash m ∧ has tx_destination_previous_ledger_seq m ∧
  has tx_destination_previous_tx_hash m.
Proof.
  intros Hb Hr. pose proof (bits_check 128 (λ b, implb (Z.eqb (Z.lxor (Z.land b 0x7b) 0x7b) 0)
    (forallb (λ k, negb (Z.eqb (Z.land b k) 0)) [0x1; 0x2; 0x8; 0x10; 0x20; 0x40]%Z)) _ eq_refl Hb) as Hc.
  cbn beta in Hc. cbn [has_bits_ TransactionPb_HasBits] in Hr. rewrite Hr in Hc. cbn [implb] in Hc.
  rewrite !Is_true_true. rewrite forallb_forall in Hc.
  split_and!; (apply Hc; cbn; tauto).
Qed.

Lemma TransactionPb_size m :
  TransactionPb_wf m → TransactionPb_ByteSize m = length (TransactionPb_SerializeWithCachedSizesToArray m).
Proof.
  intros [Hb Ha (H1 & H2 & H3) Hu]. unfold TransactionPb_SerializeWithCachedSizesToArray.
  rewrite !length_app, <-ComputeUnknownFieldsSize_length by done.
  rewrite !(when_has_size _ m (WriteStringToArray _) StringSize) by by apply length_WriteString.
  rewrite (when_has_size _ m (WriteDoubleToArray _) (λ _, 8)) by by apply length_WriteDouble.
  rewrite !(when_has_size _ m (WriteUInt32ToArray _) UInt32Size) by by apply length_WriteUInt32.
  unfold TransactionPb_ByteSize, TransactionPb_RequiredFieldsByteSizeFallback.
  destruct (Z.eqb _ _) eqn:Er; [|lia]. destruct (tx_required m Hb Er) as (?&?&?&?&?&?).
  unfold size_when_has. rewrite !Is_true_true in *. repeat case_match; try done; lia.
Qed.

Lemma acc_required m :
  (0 ≤ acc_has_bits_ m < 16)%Z → Z.eqb (Z.lxor (Z.land (has_bits_ m) 0xf) 0xf) 0 = true →
  has acc_account_address m ∧ has acc_account_balance m ∧ has acc_previous_ledger_seq m ∧
  has acc_previous_tx_hash m.
Proof.
  intros Hb Hr. pose proof (bits_check 16 (λ b, implb (Z.eqb (Z.lxor (Z.land b 0xf) 0xf) 0)
    (forallb (λ k, negb (Z.eqb (Z.land b k) 0)) [0x1; 0x2; 0x4; 0x8]%Z)) _ eq_refl Hb) as Hc.
  cbn beta in Hc. cbn [has_bits_ AccountPb_HasBits] in Hr. rewrite Hr in Hc. cbn [implb] in Hc.
  rewrite !Is_true_true. rewrite forallb_forall in Hc.
  split_and!; (apply Hc; cbn; tauto).
Qed.

Lemma AccountPb_size m :
  AccountPb_wf m → AccountPb_ByteSize m = length (AccountPb_SerializeWithCachedSizesToArray m).
Proof.
  intros [Hb Ha (H1 & H2) Hu]. unfold AccountPb_SerializeWithCachedSizesToArray.
  rewrite !length_app, <-ComputeUnknownFieldsSize_length by done.
  rewrite !(when_has_size _ m (WriteStringToArray _) StringSize) by by apply length_WriteString.
  rewrite (when_has_size _ m (WriteDoubleToArray _) (λ _, 8)) by by apply length_WriteDouble.
  rewrite !(when_has_size _ m (WriteUInt32ToArray _) UInt32Size) by by apply length_WriteUInt32.
  unfold AccountPb_ByteSize, AccountPb_RequiredFieldsByteSizeFallback.
  destruct (Z.eqb _ _) eqn:Er; [|lia]. destruct (acc_required m Hb Er) as (?&?&?&?).
  unfold size_when_has. rewrite !Is_true_true in *. repeat case_match; try done; lia.
Qed.

(** ** Clearing and copying *)

Lemma no_bits k b : (0 ≤ b < 2 ^ Z.of_nat k)%Z → Z.land b (Z.ones (Z.of_nat k)) = 0%Z → b = 0%Z.
Proof. intros Hb. by rewrite Z.land_ones, Z.mod_small by lia. Qed.

(** Use that the fields known to be absent hold their defaults. *)
Ltac use_absent :=
  repeat match goal with
    | H : ?b = false → _ |- _ => first [specialize (H eq_refl) | clear H]
    end; subst.
Lemma clear_string_put {M} `{HasBits M} (f : field M bytes) m :
  absent_default f m → (∀ m, f_put f (get f m) m = m) → f_default f = [] → clear_string f m = f_put f [] m.
Proof.
  intros Ha Hp Hd. unfold clear_string. destruct (has f m) eqn:E; [done|]. by rewrite <-Hd, <-Ha, Hp.
Qed.

Lemma TransactionPb_Clear_new m : TransactionPb_wf m → TransactionPb_Clear m = TransactionPb_new.
Proof.
  destruct m as [b x1 x2 x3 x4 x5 x6 x7 u]. intros [Hb (A1&A2&A3&A4&A5&A6&A7) _ _].
  unfold TransactionPb_Clear. destruct (Z.eqb _ 0) eqn:Hz.
  - apply Z.eqb_eq, (no_bits 7) in Hz; [|done]. cbn in Hz. subst b. unfold absent_default in *. cbn in *. by use_absent.
  - rewrite (clear_string_put tx_source_address) by (done || by intros []).
    rewrite (clear_string_put tx_destination_address) by (done || by intros []).
    rewrite (clear_string_put tx_source_previous_tx_hash) by (done || by intros []).
    by rewrite (clear_string_put tx_destination_previous_tx_hash) by (done || by intros []).
Qed.

Lemma AccountPb_Clear_new m : AccountPb_wf m → AccountPb_Clear m = AccountPb_new.
Proof.
  destruct m as [b x1 x2 x3 x4 u]. intros [Hb (A1&A2&A3&A4) _ _].
  unfold AccountPb_Clear. destruct (Z.eqb _ 0) eqn:Hz.
  - apply Z.eqb_eq, (no_bits 4) in Hz; [|done]. cbn in Hz. subst b. unfold absent_default in *. cbn in *. by use_absent.
  - rewrite (clear_string_put acc_account_address) by (done || by intros []).
    by rewrite (clear_string_put acc_previous_tx_hash) by (done || by intros []).
Qed.

(** Setting the fields that are present rebuilds the message. *)
Lemma merge_field_put {M A} `{HasBits M} (f : field M A) (from m : M) :
  absent_default f from →
  (∀ m, f_put f (get f m) m = m) → (∀ m, set_has_bits (has_bits_ m) m = m) →
  get f m = f_default f →
  merge_field f from m =
    f_put f (get f from) (set_has_bits (Z.lor (has_bits_ m) (if has f from then f_mask f else 0)) m).
Proof.
  intros Ha Hp Hs Hd. unfold merge_field. destruct (has f from) eqn:E; [done|].
  rewrite Ha, <-Hd by done. by rewrite Z.lor_0_r, Hs, Hp.
Qed.

Ltac merge_put f := rewrite (merge_field_put f); [|done|by intros []|by intros []|reflexivity].

Definition bit (b k : Z) : Z := if negb (Z.eqb (Z.land b k) 0) then k else 0%Z.

Lemma tx_bits b : (0 ≤ b < 128)%Z →
  Z.lor (Z.lor (Z.lor (Z.lor (Z.lor (Z.lor (Z.lor 0 (bit b 0x1)) (bit b 0x2)) (bit b 0x4)) (bit b 0x8))
    (bit b 0x10)) (bit b 0x20)) (bit b 0x40) = b.
Proof.
  intros Hb. apply Z.eqb_eq. by apply (bits_check 128 (λ b, Z.eqb (Z.lor (Z.lor (Z.lor (Z.lor
    (Z.lor (Z.lor (Z.lor 0 (bit b 0x1)) (bit b 0x2)) (bit b 0x4)) (bit b 0x8)) (bit b 0x10)) (bit b 0x20))
    (bit b 0x40)) b)).
Qed.

Lemma tx_rebuild m :
  TransactionPb_wf m →
  merge_field tx_destination_previous_tx_hash m (merge_field tx_destination_previous_ledger_seq m
    (merge_field tx_source_previous_tx_hash m (merge_field tx_source_previous_ledger_seq m
      (merge_field tx_payment_amount m (merge_field tx_destination_address m
        (merge_field tx_source_address m TransactionPb_new)))))) = tx_set_unknown [] m.
Proof.
  destruct m as [b x1 x2 x3 x4 x5 x6 x7 u]. intros [Hb (A1&A2&A3&A4&A5&A6&A7) _ _].
  merge_put tx_source_address. merge_put tx_destination_address. merge_put tx_payment_amount.
  merge_put tx_source_previous_ledger_seq. merge_put tx_source_previous_tx_hash.
  merge_put tx_destination_previous_ledger_seq. merge_put tx_destination_previous_tx_hash.
  etransitivity; [|apply (f_equal (λ c, mkTransactionPb c x1 x2 x3 x4 x5 x6 x7 [])), (tx_bits b Hb)].
  reflexivity.
Qed.

Lemma acc_bits b : (0 ≤ b < 16)%Z →
  Z.lor (Z.lor (Z.lor (Z.lor 0 (bit b 0x1)) (bit b 0x2)) (bit b 0x4)) (bit b 0x8) = b.
Proof.
  intros Hb. apply Z.eqb_eq. by apply (bits_check 16 (λ b, Z.eqb
    (Z.lor (Z.lor (Z.lor (Z.lor 0 (bit b 0x1)) (bit b 0x2)) (bit b 0x4)) (bit b 0x8)) b)).
Qed.

Lemma acc_rebuild m :
  AccountPb_wf m →
  merge_field acc_previous_tx_hash m (merge_field acc_previous_ledger_seq m
    (merge_field acc_account_balance m (merge_field acc_account_address m AccountPb_new))) = acc_set_unknown [] m.
Proof.
  destruct m as [b x1 x2 x3 x4 u]. intros [Hb (A1&A2&A3&A4) _ _].
  merge_put acc_account_address. merge_put acc_account_balance.
  merge_put acc_previous_ledger_seq. merge_put acc_previous_tx_hash.
  etransitivity; [|apply (f_equal (λ c, mkAccountPb c x1 x2 x3 x4 [])), (acc_bits b Hb)].
  reflexivity.
Qed.

(** ** Round trips *)

Lemma write_string_slot {M} `{HasBits M} (f : field M bytes) (m : M) n tag :
  MakeTag n WIRETYPE_LENGTH_DELIMITED = tag → (tag < 128)%Z →
  when_has f m (WriteStringToArray n) = slot_bytes (string_slot tag f m).
Proof.
  intros <- Ht. unfold when_has, WriteStringToArray. by rewrite WriteTag_small.
Qed.
Lemma write_double_slot {M} `{HasBits M} (f : field M Z) (m : M) n tag :
  MakeTag n WIRETYPE_FIXED64 = tag → (tag < 128)%Z →
  when_has f m (WriteDoubleToArray n) = slot_bytes (double_slot tag f m).
Proof.
  intros <- Ht. unfold when_has, WriteDoubleToArray. by rewrite WriteTag_small.
Qed.
Lemma write_uint32_slot {M} `{HasBits M} (f : field M Z) (m : M) n tag :
  MakeTag n WIRETYPE_VARINT = tag → (tag < 128)%Z →
  when_has f m (WriteUInt32ToArray n) = slot_bytes (uint32_slot tag f m).
Proof.
  intros <- Ht. unfold when_has, WriteUInt32ToArray. by rewrite WriteTag_small.
Qed.

Definition tx_slots (m : TransactionPb) : list (slot TransactionPb) :=
  [string_slot 10 tx_source_address m; string_slot 18 tx_destination_address m;
   double_slot 25 tx_payment_amount m; uint32_slot 32 tx_source_previous_ledger_seq m;
   string_slot 42 tx_source_previous_tx_hash m; uint32_slot 48 tx_destination_previous_ledger_seq m;
   string_slot 58 tx_destination_previous_tx_hash m].
Definition acc_slots (m : AccountPb) : list (slot AccountPb) :=
  [string_slot 10 acc_account_address m; double_slot 17 acc_account_balance m;
   uint32_slot 24 acc_previous_ledger_seq m; string_slot 34 acc_previous_tx_hash m].

Lemma tx_serialize m :
  tx_unknown_fields m = [] →
  TransactionPb_SerializeWithCachedSizesToArray m = slots_bytes (tx_slots m).
Proof.
  intros Hu. unfold TransactionPb_SerializeWithCachedSizesToArray. rewrite Hu.
  rewrite (write_string_slot tx_source_address m 1 10), (write_string_slot tx_destination_address m 2 18),
    (write_double_slot tx_payment_amount m 3 25), (write_uint32_slot tx_source_previous_ledger_seq m 4 32),
    (write_string_slot tx_source_previous_tx_hash m 5 42),
    (write_uint32_slot tx_destination_previous_ledger_seq m 6 48),
    (write_string_slot tx_destination_previous_tx_hash m 7 58) by done.
  reflexivity.
Qed.
Lemma acc_serialize m :
  acc_unknown_fields m = [] → AccountPb_SerializeWithCachedSizesToArray m = slots_bytes (acc_slots m).
Proof.
  intros Hu. unfold AccountPb_SerializeWithCachedSizesToArray. rewrite Hu.
  rewrite (write_string_slot acc_account_address m 1 10), (write_double_slot acc_account_balance m 2 17),
    (write_uint32_slot acc_previous_ledger_seq m 3 24), (write_string_slot acc_previous_tx_hash m 4 34) by done.
  reflexivity.
Qed.

(** A string of a message is no longer than the message. *)
Lemma string_short {M} `{HasBits M} (f : field M bytes) (m : M) (tag : Z) (l : list (slot M)) :
  f_default f = [] → absent_default f m → string_slot tag f m ∈ l →
  (Z.of_nat (length (slots_bytes l)) < kDefaultTotalBytesLimit)%Z → short (get f m).
Proof.
  intros Hd Ha Hin Hl. destruct (has f m) eqn:E; [|by rewrite Ha, Hd].
  assert (length (get f m) ≤ length (slots_bytes l)) as Hle.
  { apply list_elem_of_split in Hin as (l1 & l2 & ->). unfold slots_bytes.
    rewrite fmap_app, fmap_cons, join_app. cbn [mjoin list_join]. rewrite !length_app.
    unfold slot_bytes at 2. cbn [sl_present string_slot]. rewrite E. cbn [length sl_body string_slot].
    unfold WriteStringWithSizeToArray. rewrite length_app. lia. }
  assert (kDefaultTotalBytesLimit = 2 ^ 26)%Z by done. lia.
Qed.

Lemma tx_switch m :
  TransactionPb_wf m → (Z.of_nat (length (slots_bytes (tx_slots m))) < kDefaultTotalBytesLimit)%Z →
  switch_ok 0 TransactionPb_fields (tx_slots m).
Proof.
  intros [Hb (A1&A2&A3&A4&A5&A6&A7) (R1&R2&R3) _] Hl.
  assert (∀ f tag, f_default f = [] → absent_default f m → string_slot tag f m ∈ tx_slots m → short (get f m))
    as Hs by (intros; by eapply string_short).
  cbn [switch_ok tx_slots]. split_and!; try done;
    try match goal with |- slot_ok _ (string_slot ?t ?f _) =>
      apply string_slot_ok; [done|]; apply (Hs f t); [done..|unfold tx_slots; set_solver] end;
    try (by apply double_slot_ok); try (by apply uint32_slot_ok);
    repeat (apply Forall_cons_2; [done|]); apply Forall_nil_2.
Qed.
Lemma acc_switch m :
  AccountPb_wf m → (Z.of_nat (length (slots_bytes (acc_slots m))) < kDefaultTotalBytesLimit)%Z →
  switch_ok 0 AccountPb_fields (acc_slots m).
Proof.
  intros [Hb (A1&A2&A3&A4) (R1&R2) _] Hl.
  assert (∀ f tag, f_default f = [] → absent_default f m → string_slot tag f m ∈ acc_slots m → short (get f m))
    as Hs by (intros; by eapply string_short).
  cbn [switch_ok acc_slots]. split_and!; try done;
    try match goal with |- slot_ok _ (string_slot ?t ?f _) =>
      apply string_slot_ok; [done|]; apply (Hs f t); [done..|unfold acc_slots; set_solver] end;
    try (by apply double_slot_ok); try (by apply uint32_slot_ok);
    repeat (apply Forall_cons_2; [done|]); apply Forall_nil_2.
Qed.

Lemma TransactionPb_round m m0 :
  TransactionPb_wf m → tx_unknown_fields m = [] → fits m → TransactionPb_wf m0 →
  ∃ data, SerializeToString m = Ok (true, data) ∧ ParseFromString data m0 = Ok (IsInitialized m, m).
Proof.
  intros Hm Hu Hf Hm0. pose proof (TransactionPb_size m Hm) as Hs. rewrite tx_serialize in Hs by done.
  apply (message_round 0 tx_unknown_fields tx_set_unknown TransactionPb_fields (tx_slots m)); try done.
  - by apply tx_serialize.
  - apply tx_switch; [done|]. by rewrite <-Hs.
  - etransitivity; [|etransitivity; [apply (tx_rebuild m Hm)|destruct m; cbn in *; by subst]].
    cbn [Message_Clear TransactionPb_MessageLite]. by rewrite TransactionPb_Clear_new.
Qed.

Lemma AccountPb_round m m0 :
  AccountPb_wf m → acc_unknown_fields m = [] → fits m → AccountPb_wf m0 →
  ∃ data, SerializeToString m = Ok (true, data) ∧ ParseFromString data m0 = Ok (IsInitialized m, m).
Proof.
  intros Hm Hu Hf Hm0. pose proof (AccountPb_size m Hm) as Hs. rewrite acc_serialize in Hs by done.
  apply (message_round 0 acc_unknown_fields acc_set_unknown AccountPb_fields (acc_slots m)); try done.
  - by apply acc_serialize.
  - apply acc_switch; [done|]. by rewrite <-Hs.
  - etransitivity; [|etransitivity; [apply (acc_rebuild m Hm)|destruct m; cbn in *; by subst]].
    cbn [Message_Clear AccountPb_MessageLite]. by rewrite AccountPb_Clear_new.
Qed.

Lemma TransactionPb_new_wf : TransactionPb_wf TransactionPb_new.
Proof. by repeat split. Qed.
Lemma AccountPb_new_wf : AccountPb_wf AccountPb_new.
Proof. by repeat split. Qed.



(** The same for account messages. *)
Theorem AccountPb_round_trip (m m0 : AccountPb) :
  AccountPb_wf m → acc_unknown_fields m = [] → fits m → AccountPb_wf m0 →
  ∃ data, SerializeToString m = Ok (true, data) ∧ ParseFromString data m0 = Ok (IsInitialized m, m).
Proof. apply AccountPb_round. Qed.

(** The size that [ByteSize] computes, on its fast path and on the fallback, is
    the number of bytes that [SerializeWithCachedSizesToArray] writes, unknown fields
    included. *)
Theorem ByteSize_exact (t : TransactionPb) (a : AccountPb) :
  TransactionPb_wf t → AccountPb_wf a →
  ByteSize t = length (SerializeWithCachedSizesToArray t) ∧
  ByteSize a = length (SerializeWithCachedSizesToArray a).
Proof. intros Ht Ha. split; [by apply TransactionPb_size|by apply AccountPb_size]. Qed.

(** [CopyFrom] makes a message equal to the one it copies. *)
Theorem CopyFrom_copies (t t0 : TransactionPb) (a a0 : AccountPb) :
  TransactionPb_wf t → TransactionPb_wf t0 → AccountPb_wf a → AccountPb_wf a0 →
  TransactionPb_CopyFrom t t0 = t ∧ AccountPb_CopyFrom a a0 = a.
Proof.
  intros Ht Ht0 Ha Ha0. unfold TransactionPb_CopyFrom, AccountPb_CopyFrom.
  rewrite TransactionPb_Clear_new, AccountPb_Clear_new by done.
  unfold TransactionPb_MergeFrom, AccountPb_MergeFrom. rewrite tx_rebuild, acc_rebuild by done. split.
  - destruct (Z.eqb _ 0) eqn:Hz; [|by destruct t]. destruct t as [b ????????]. destruct Ht as [Hb Hd _ _].
    cbn in Hb. apply Z.eqb_eq, (no_bits 8) in Hz; [|cbn; lia]. cbn in Hz. subst b.
    unfold absent_default in Hd. cbn in *. destruct Hd as (?&?&?&?&?&?&?). by use_absent.
  - destruct (Z.eqb _ 0) eqn:Hz; [|by destruct a]. destruct a as [b ?????]. destruct Ha as [Hb Hd _ _].
    cbn in Hb. apply Z.eqb_eq, (no_bits 8) in Hz; [|cbn; lia]. cbn in Hz. subst b.
    unfold absent_default in Hd. cbn in *. destruct Hd as (?&?&?&?). by use_absent.
Qed.

(** *** Concrete messages *)

Definition ex_TransactionPb : TransactionPb :=
  set tx_destination_previous_tx_hash [Byte.x05; Byte.x06]
    (set tx_source_previous_ledger_seq 300%Z (set tx_source_address [Byte.x41] TransactionPb_new)).
Definition ex_AccountPb : AccountPb :=
  set acc_previous_tx_hash [Byte.x07] (set acc_account_balance 0x408f400000000000%Z AccountPb_new).

Lemma ex_TransactionPb_wf : TransactionPb_wf ex_TransactionPb.
Proof. by repeat split. Qed.
Lemma ex_AccountPb_wf : AccountPb_wf ex_AccountPb.
Proof. by repeat split. Qed.


Lemma AccountPb_round_trip_witness :
  ∃ data, SerializeToString ex_AccountPb = Ok (true, data) ∧
    ParseFromString data AccountPb_new = Ok (false, ex_AccountPb).
Proof.
  apply (AccountPb_round_trip ex_AccountPb AccountPb_new);
    [apply ex_AccountPb_wf|reflexivity|vm_compute; reflexivity|apply AccountPb_new_wf].
Defined.

Lemma ByteSize_exact_witness :
  ByteSize ex_TransactionPb = length (SerializeWithCachedSizesToArray ex_TransactionPb) ∧
  ByteSize ex_AccountPb = length (SerializeWithCachedSizesToArray ex_AccountPb).
Proof. apply ByteSize_exact; [apply ex_TransactionPb_wf|apply ex_AccountPb_wf]. Defined.

