(* ===== verification/BubiPb.v ===== *)
(** * Generated messages of the peer-to-peer protocol

    Models [protocol::bubiMsgHeader] and [protocol::bubiMsg] as protoc generates
    them in [src/src/p2p/bubi.pb.h] and [bubi.pb.cc] from [proto/bubi.proto].  What
    is left out is as in TransactionPb. *)

From S2P Require Import Prelude Varint BaseUint CodedStream WireFormat WireLemmas PbMessage PbRound TransactionPb.

(** ** [protocol::bubiMsgHeader] *)

Record bubiMsgHeader := mkHeaderPb {
  hd_has_bits_ : Z;
  hd_command_ : bytes;
  hd_msgsize_ : Z;
  hd_checksum_ : Z;
  hd_unknown_fields : UnknownFieldSet;
}.

Definition bubiMsgHeader_new : bubiMsgHeader := mkHeaderPb 0 [] 0 0 [].

#[export] Instance bubiMsgHeader_HasBits : HasBits bubiMsgHeader := {
  has_bits_ := hd_has_bits_;
  set_has_bits b '(mkHeaderPb _ x y z u) := mkHeaderPb b x y z u;
}.

Definition hd_command : field bubiMsgHeader bytes :=
  mkField 0x1 [] hd_command_ (λ v '(mkHeaderPb b _ y z u), mkHeaderPb b v y z u).
Definition hd_msgsize : field bubiMsgHeader Z :=
  mkField 0x2 0%Z hd_msgsize_ (λ v '(mkHeaderPb b x _ z u), mkHeaderPb b x v z u).
Definition hd_checksum : field bubiMsgHeader Z :=
  mkField 0x4 0%Z hd_checksum_ (λ v '(mkHeaderPb b x y _ u), mkHeaderPb b x y v u).
Definition hd_set_unknown (v : UnknownFieldSet) (m : bubiMsgHeader) : bubiMsgHeader :=
  let '(mkHeaderPb b x y z _) := m in mkHeaderPb b x y z v.

Definition bubiMsgHeader_Clear (m : bubiMsgHeader) : bubiMsgHeader :=
  let m :=
    if Z.eqb (Z.land (has_bits_ m) 7) 0 then m
    else
      let m := f_put hd_msgsize 0%Z m in
      let m := f_put hd_checksum 0%Z m in
      clear_string hd_command m in
  hd_set_unknown [] (set_has_bits 0 m).

Definition hd_parse_checkSum (m : bubiMsgHeader) := parse_primitive hd_checksum ReadUInt32 m then_end.
Definition hd_parse_msgSize (m : bubiMsgHeader) :=
  parse_primitive hd_msgsize ReadUInt32 m (then_tag 24 hd_parse_checkSum).
Definition hd_parse_command (m : bubiMsgHeader) :=
  parse_string hd_command m (then_tag 16 hd_parse_msgSize).

Definition bubiMsgHeader_fields (number tag : Z) (m : bubiMsgHeader) : option (input (turn * bubiMsgHeader)) :=
  match number with
  | 1 => tag_case tag 10 (hd_parse_command m)
  | 2 => tag_case tag 16 (hd_parse_msgSize m)
  | 3 => tag_case tag 24 (hd_parse_checkSum m)
  | _ => None
  end%Z.
Definition bubiMsgHeader_MergePartialFromCodedStream (m : bubiMsgHeader) : input (bool * bubiMsgHeader) :=
  merge_partial hd_unknown_fields hd_set_unknown bubiMsgHeader_fields m.

Definition bubiMsgHeader_SerializeWithCachedSizesToArray (m : bubiMsgHeader) : bytes :=
  when_has hd_command m (WriteStringToArray 1) ++
  when_has hd_msgsize m (WriteUInt32ToArray 2) ++
  when_has hd_checksum m (WriteUInt32ToArray 3) ++
  SerializeUnknownFieldsToArray (hd_unknown_fields m).

Definition bubiMsgHeader_RequiredFieldsByteSizeFallback (m : bubiMsgHeader) : nat :=
  size_when_has hd_command m StringSize + size_when_has hd_msgsize m UInt32Size.
Definition bubiMsgHeader_ByteSize (m : bubiMsgHeader) : nat :=
  (if Z.eqb (Z.lxor (Z.land (has_bits_ m) 0x3) 0x3) 0 then
     (1 + StringSize (get hd_command m)) + (1 + UInt32Size (get hd_msgsize m))
   else bubiMsgHeader_RequiredFieldsByteSizeFallback m) +
  size_when_has hd_checksum m UInt32Size +
  ComputeUnknownFieldsSize (hd_unknown_fields m).

Definition bubiMsgHeader_MergeFrom (from m : bubiMsgHeader) : bubiMsgHeader :=
  let m :=
    if Z.eqb (Z.land (has_bits_ from) 0xff) 0 then m
    else
      let m := merge_field hd_command from m in
      let m := merge_field hd_msgsize from m in
      merge_field hd_checksum from m in
  hd_set_unknown (hd_unknown_fields m ++ hd_unknown_fields from) m.
Definition bubiMsgHeader_CopyFrom (from m : bubiMsgHeader) : bubiMsgHeader :=
  bubiMsgHeader_MergeFrom from (bubiMsgHeader_Clear m).

Definition bubiMsgHeader_IsInitialized (m : bubiMsgHeader) : bool :=
  Z.eqb (Z.land (has_bits_ m) 0x3) 0x3.

#[export] Instance bubiMsgHeader_MessageLite : MessageLite bubiMsgHeader := {
  Message_Clear := bubiMsgHeader_Clear;
  MergePartialFromCodedStream := bubiMsgHeader_MergePartialFromCodedStream;
  IsInitialized := bubiMsgHeader_IsInitialized;
  ByteSize := bubiMsgHeader_ByteSize;
  SerializeWithCachedSizesToArray := bubiMsgHeader_SerializeWithCachedSizesToArray;
}.

(** ** [protocol::bubiMsg] *)

Record bubiMsg := mkMsgPb {
  bm_has_bits_ : Z;
  bm_header_ : option bubiMsgHeader;
  bm_data_ : bytes;
  bm_unknown_fields : UnknownFieldSet;
}.

Definition bubiMsg_new : bubiMsg := mkMsgPb 0 None [] [].

#[export] Instance bubiMsg_HasBits : HasBits bubiMsg := {
  has_bits_ := bm_has_bits_;
  set_has_bits b '(mkMsgPb _ x y u) := mkMsgPb b x y u;
}.

(** The getter gives the default instance when there is no header. *)
Definition bm_header : field bubiMsg bubiMsgHeader :=
  mkField 0x1 bubiMsgHeader_new (λ m, default bubiMsgHeader_new (bm_header_ m))
    (λ v '(mkMsgPb b _ y u), mkMsgPb b (Some v) y u).
Definition bm_data : field bubiMsg bytes :=
  mkField 0x2 [] bm_data_ (λ v '(mkMsgPb b x _ u), mkMsgPb b x v u).
Definition bm_set_unknown (v : UnknownFieldSet) (m : bubiMsg) : bubiMsg :=
  let '(mkMsgPb b x y _) := m in mkMsgPb b x y v.
Definition mutable_header (m : bubiMsg) : bubiMsg :=
  let m := set_has bm_header m in f_put bm_header (get bm_header m) m.
Definition set_allocated_header (header : option bubiMsgHeader) (m : bubiMsg) : bubiMsg :=
  let m := mkMsgPb (bm_has_bits_ m) header (bm_data_ m) (bm_unknown_fields m) in
  match header with Some _ => set_has bm_header m | None => clear_has bm_header m end.

Definition bubiMsg_Clear (m : bubiMsg) : bubiMsg :=
  let m :=
    if Z.eqb (Z.land (has_bits_ m) 3) 0 then m
    else
      let m :=
        if has bm_header m then
          match bm_header_ m with Some h => f_put bm_header (bubiMsgHeader_Clear h) m | None => m end
        else m in
      clear_string bm_data m in
  bm_set_unknown [] (set_has_bits 0 m).

Definition bm_parse_data (m : bubiMsg) := parse_string bm_data m then_end.
Definition parse_message (m : bubiMsg) (k : bubiMsg → input (turn * bubiMsg)) : input (turn * bubiMsg) :=
  let m := mutable_header m in
  r ← ReadMessageNoVirtual (get bm_header m);
  let m := f_put bm_header r.2 m in
  if r.1 : bool then k m else mret (failure, m).
Definition bm_parse_header (m : bubiMsg) := parse_message m (then_tag 18 bm_parse_data).

Definition bubiMsg_fields (number tag : Z) (m : bubiMsg) : option (input (turn * bubiMsg)) :=
  match number with
  | 1 => tag_case tag 10 (bm_parse_header m)
  | 2 => tag_case tag 18 (bm_parse_data m)
  | _ => None
  end%Z.
Definition bubiMsg_MergePartialFromCodedStream (m : bubiMsg) : input (bool * bubiMsg) :=
  merge_partial bm_unknown_fields bm_set_unknown bubiMsg_fields m.

(** A header that is present is not null. *)
Definition bubiMsg_SerializeWithCachedSizesToArray (m : bubiMsg) : bytes :=
  when_has bm_header m (WriteMessageNoVirtualToArray 1) ++
  when_has bm_data m (WriteStringToArray 2) ++
  SerializeUnknownFieldsToArray (bm_unknown_fields m).

Definition bubiMsg_RequiredFieldsByteSizeFallback (m : bubiMsg) : nat :=
  size_when_has bm_header m MessageSizeNoVirtual + size_when_has bm_data m StringSize.
Definition bubiMsg_ByteSize (m : bubiMsg) : nat :=
  (if Z.eqb (Z.lxor (Z.land (has_bits_ m) 0x3) 0x3) 0 then
     (1 + MessageSizeNoVirtual (get bm_header m)) + (1 + StringSize (get bm_data m))
   else bubiMsg_RequiredFieldsByteSizeFallback m) +
  ComputeUnknownFieldsSize (bm_unknown_fields m).

Definition bubiMsg_MergeFrom (from m : bubiMsg) : bubiMsg :=
  let m :=
    if Z.eqb (Z.land (has_bits_ from) 0xff) 0 then m
    else
      let m :=
        if has bm_header from then
          let m := mutable_header m in
          f_put bm_header (bubiMsgHeader_MergeFrom (get bm_header from) (get bm_header m)) m
        else m in
      merge_field bm_data from m in
  bm_set_unknown (bm_unknown_fields m ++ bm_unknown_fields from) m.
Definition bubiMsg_CopyFrom (from m : bubiMsg) : bubiMsg := bubiMsg_MergeFrom from (bubiMsg_Clear m).

Definition bubiMsg_IsInitialized (m : bubiMsg) : bool :=
  if Z.eqb (Z.land (has_bits_ m) 0x3) 0x3 then
    if has bm_header m then bubiMsgHeader_IsInitialized (get bm_header m) else true
  else false.

#[export] Instance bubiMsg_MessageLite : MessageLite bubiMsg := {
  Message_Clear := bubiMsg_Clear;
  MergePartialFromCodedStream := bubiMsg_MergePartialFromCodedStream;
  IsInitialized := bubiMsg_IsInitialized;
  ByteSize := bubiMsg_ByteSize;
  SerializeWithCachedSizesToArray := bubiMsg_SerializeWithCachedSizesToArray;
}.
