(* ===== verification/BubiPbLaws.v ===== *)
(** * Generated messages of the peer-to-peer protocol: correctness

    As for the messages of the ledger, with a message nested in another. *)

From S2P Require Import Prelude Varint BaseUint CodedStream WireFormat WireLemmas PbMessage PbRound.
From S2P Require Import TransactionPb TransactionPbLaws BubiPb.

(** ** Safety *)

Lemma hd_parse_safe m :
  safe (hd_parse_checkSum m) ∧ safe (hd_parse_msgSize m) ∧ safe (hd_parse_command m).
Proof.
  assert (∀ m, safe (hd_parse_checkSum m)) by (intros; apply parse_primitive_safe; auto with bubi).
  assert (∀ m, safe (hd_parse_msgSize m)) by (intros; apply parse_primitive_safe; auto with bubi).
  split_and!; [done..|]. apply parse_string_safe; auto with bubi.
Qed.
Lemma hd_parse_frames m :
  frames (hd_parse_checkSum m) ∧ frames (hd_parse_msgSize m) ∧ frames (hd_parse_command m).
Proof.
  assert (∀ m, frames (hd_parse_checkSum m)) by (intros; apply frames_parse_primitive; auto with frames).
  assert (∀ m, frames (hd_parse_msgSize m)) by (intros; apply frames_parse_primitive; auto with frames).
  split_and!; [done..|]. apply frames_parse_string; auto with frames.
Qed.

Lemma bubiMsgHeader_fields_safe n t m c :
  bubiMsgHeader_fields n t m = Some c → n ≠ 0%Z ∧ safe c ∧ frames c.
Proof.
  pose proof (hd_parse_safe m) as (?&?&?). pose proof (hd_parse_frames m) as (?&?&?).
  unfold bubiMsgHeader_fields. repeat case_match; try done; intros [-> ->]%tag_case_inv; done.
Qed.

Lemma bubiMsgHeader_frames m : frames (bubiMsgHeader_MergePartialFromCodedStream m).
Proof. apply frames_merge_partial. intros n t m' c E. by apply bubiMsgHeader_fields_safe in E as (_ & _ & ?). Qed.
Lemma bubiMsgHeader_runs m : runs bounded (bubiMsgHeader_MergePartialFromCodedStream m).
Proof.
  apply merge_partial_runs; [apply bounded_flat|apply bounded_window|].
  intros n t m' c (Hn & Hs & Hf)%bubiMsgHeader_fields_safe. split; [done|].
  by apply safe_runs; [apply bounded_flat|apply bounded_window|..].
Qed.

Lemma runs_bind {A B} (c : input A) (k : A → input B) :
  runs bounded c → (∀ a, runs bounded (k a)) → runs bounded (c ≫= k).
Proof.
  intros Hc Hk s Hs. destruct (Hc s Hs) as (a & s1 & E1 & Hs1 & Hl1).
  destruct (Hk a s1 Hs1) as (b & s2 & E2 & Hs2 & Hl2). exists b, s2. rewrite (bind_Ok _ _ _ _ _ E1).
  split_and!; [done..|lia].
Qed.

Lemma bm_parse_data_runs m : runs bounded (bm_parse_data m).
Proof.
  apply safe_runs; [apply bounded_flat|apply bounded_window| |].
  - apply parse_string_safe; auto with bubi.
  - apply frames_parse_string; auto with frames.
Qed.
Lemma bm_parse_header_runs m : runs bounded (bm_parse_header m).
Proof.
  apply runs_bind; [apply ReadMessage_runs; [apply bubiMsgHeader_runs|apply bubiMsgHeader_frames]|].
  intros [[] h]; cbn [fst snd].
  - unfold then_tag. apply runs_bind.
    + by apply safe_runs; [apply bounded_flat|apply bounded_window|apply ExpectTag_safe|apply frames_ExpectTag].
    + intros []; [apply bm_parse_data_runs|].
      by apply safe_runs; [apply bounded_flat|apply bounded_window|apply safe_ret|apply frames_ret].
  - by apply safe_runs; [apply bounded_flat|apply bounded_window|apply safe_ret|apply frames_ret].
Qed.

Lemma bubiMsg_parses data m :
  (Z.of_nat (length data) ≤ kDefaultTotalBytesLimit)%Z →
  ∃ ok m', ParseFromString (M := bubiMsg) data m = Ok (ok, m').
Proof.
  intros Hl. apply ParseFromString_total. intros m0.
  destruct (merge_partial_runs bm_unknown_fields bm_set_unknown bubiMsg_fields bounded bounded_flat
    bounded_window) with m0 (CodedInputStream_new data) as (a & s' & E & _); [| |by exists a, s'].
  - intros n t m' c. unfold bubiMsg_fields. repeat case_match; try done; intros [-> ->]%tag_case_inv.
    + split; [done|apply bm_parse_data_runs].
    + split; [done|apply bm_parse_header_runs].
  - split; [apply flat_new|done].
Qed.
Lemma bubiMsgHeader_parses data m : ∃ ok m', ParseFromString (M := bubiMsgHeader) data m = Ok (ok, m').
Proof.
  apply ParseFromString_total. intros m0. apply merge_partial_safe.
  by intros n t m' c (Hn & Hs & _)%bubiMsgHeader_fields_safe.
Qed.

(** ** Well-formed messages *)

Record bubiMsgHeader_wf (m : bubiMsgHeader) : Prop := {
  hd_wf_bits : (0 ≤ hd_has_bits_ m < 8)%Z;
  hd_wf_absent : absent_default hd_command m ∧ absent_default hd_msgsize m ∧ absent_default hd_checksum m;
  hd_wf_ranges : is_u32 (hd_msgsize_ m) ∧ is_u32 (hd_checksum_ m);
  hd_wf_unknown : hd_unknown_fields m = [];
}.

Record bubiMsg_wf (m : bubiMsg) : Prop := {
  bm_wf_bits : (0 ≤ bm_has_bits_ m < 4)%Z;
  bm_wf_header : if has bm_header m then ∃ h, bm_header_ m = Some h ∧ bubiMsgHeader_wf h
                 else bm_header_ m = None;
  bm_wf_data : absent_default bm_data m;
  bm_wf_unknown : bm_unknown_fields m = [];
}.

Lemma two_bits b :
  (0 ≤ b < 8)%Z → Z.eqb (Z.lxor (Z.land b 0x3) 0x3) 0 = true →
  negb (Z.eqb (Z.land b 0x1) 0) = true ∧ negb (Z.eqb (Z.land b 0x2) 0) = true.
Proof.
  intros Hb Hr. pose proof (bits_check 8 (λ b, implb (Z.eqb (Z.lxor (Z.land b 0x3) 0x3) 0)
    (negb (Z.eqb (Z.land b 0x1) 0) && negb (Z.eqb (Z.land b 0x2) 0))) _ eq_refl Hb) as Hc.
  cbn beta in Hc. rewrite Hr in Hc. by apply andb_true_iff in Hc.
Qed.

(** *** Sizes *)

Lemma bubiMsgHeader_size m :
  bubiMsgHeader_wf m → bubiMsgHeader_ByteSize m = length (bubiMsgHeader_SerializeWithCachedSizesToArray m).
Proof.
  intros [Hb Ha (H1 & H2) Hu]. unfold bubiMsgHeader_SerializeWithCachedSizesToArray.
  rewrite !length_app, <-ComputeUnknownFieldsSize_length by by rewrite Hu.
  rewrite !(when_has_size _ m (WriteStringToArray _) StringSize) by by apply length_WriteString.
  rewrite !(when_has_size _ m (WriteUInt32ToArray _) UInt32Size) by by apply length_WriteUInt32.
  unfold bubiMsgHeader_ByteSize, bubiMsgHeader_RequiredFieldsByteSizeFallback.
  destruct (Z.eqb _ _) eqn:Er; [|lia]. destruct (two_bits _ Hb Er) as [E1 E2].
  unfold size_when_has. change (has hd_command m) with (negb (Z.eqb (Z.land (hd_has_bits_ m) 1) 0)).
  change (has hd_msgsize m) with (negb (Z.eqb (Z.land (hd_has_bits_ m) 2) 0)). rewrite E1, E2. lia.
Qed.

Lemma length_WriteMessage h :
  bubiMsgHeader_wf h → length (WriteMessageNoVirtualToArray 1 h) = 1 + MessageSizeNoVirtual h.
Proof.
  intros Hh. unfold WriteMessageNoVirtualToArray, MessageSizeNoVirtual.
  rewrite !length_app, length_WriteTag by done. rewrite VarintSize32_length by by apply Z.mod_pos_bound.
  cbn [ByteSize SerializeWithCachedSizesToArray bubiMsgHeader_MessageLite].
  rewrite <-(bubiMsgHeader_size h Hh). lia.
Qed.

Lemma bubiMsg_header_wf m : bubiMsg_wf m → has bm_header m = true → bubiMsgHeader_wf (get bm_header m).
Proof. intros [_ Hh _ _] E. rewrite E in Hh. destruct Hh as (h & Eh & Hh). unfold get. cbn. by rewrite Eh. Qed.

Lemma bubiMsg_size m :
  bubiMsg_wf m → bubiMsg_ByteSize m = length (bubiMsg_SerializeWithCachedSizesToArray m).
Proof.
  intros Hm. pose proof Hm as [Hb _ _ Hu]. unfold bubiMsg_SerializeWithCachedSizesToArray.
  rewrite !length_app, <-ComputeUnknownFieldsSize_length by by rewrite Hu.
  rewrite (when_has_size _ m (WriteStringToArray _) StringSize) by by apply length_WriteString.
  assert (length (when_has bm_header m (WriteMessageNoVirtualToArray 1)) =
    size_when_has bm_header m MessageSizeNoVirtual) as ->.
  { unfold when_has, size_when_has. destruct (has bm_header m) eqn:E; [|done].
    by apply length_WriteMessage, bubiMsg_header_wf. }
  unfold bubiMsg_ByteSize, bubiMsg_RequiredFieldsByteSizeFallback.
  destruct (Z.eqb _ _) eqn:Er; [|lia]. destruct (two_bits (bm_has_bits_ m) ltac:(lia) Er) as [E1 E2].
  unfold size_when_has. change (has bm_header m) with (negb (Z.eqb (Z.land (bm_has_bits_ m) 1) 0)).
  change (has bm_data m) with (negb (Z.eqb (Z.land (bm_has_bits_ m) 2) 0)). rewrite E1, E2. lia.
Qed.

(** *** Reading back *)

Definition hd_slots (m : bubiMsgHeader) : list (slot bubiMsgHeader) :=
  [string_slot 10 hd_command m; uint32_slot 16 hd_msgsize m; uint32_slot 24 hd_checksum m].

Lemma hd_serialize m :
  hd_unknown_fields m = [] → bubiMsgHeader_SerializeWithCachedSizesToArray m = slots_bytes (hd_slots m).
Proof.
  intros Hu. unfold bubiMsgHeader_SerializeWithCachedSizesToArray. rewrite Hu.
  rewrite (write_string_slot hd_command m 1 10), (write_uint32_slot hd_msgsize m 2 16),
    (write_uint32_slot hd_checksum m 3 24) by done. reflexivity.
Qed.

Lemma hd_switch d m :
  bubiMsgHeader_wf m → (Z.of_nat (length (slots_bytes (hd_slots m))) < kDefaultTotalBytesLimit)%Z →
  switch_ok d bubiMsgHeader_fields (hd_slots m).
Proof.
  intros [Hb (A1&A2&A3) (R1&R2) _] Hl. cbn [switch_ok hd_slots]. split_and!; try done;
    try (by apply uint32_slot_ok); try (repeat (apply Forall_cons_2; [done|]); apply Forall_nil_2).
  apply string_slot_ok; [done|]. apply (string_short hd_command m 10 (hd_slots m)); try done.
  unfold hd_slots. set_solver.
Qed.

Lemma hd_bits b : (0 ≤ b < 8)%Z → Z.lor (Z.lor (Z.lor 0 (bit b 0x1)) (bit b 0x2)) (bit b 0x4) = b.
Proof.
  intros Hb. apply Z.eqb_eq. by apply (bits_check 8 (λ b, Z.eqb
    (Z.lor (Z.lor (Z.lor 0 (bit b 0x1)) (bit b 0x2)) (bit b 0x4)) b)).
Qed.

Lemma hd_rebuild m : bubiMsgHeader_wf m → slots_result bubiMsgHeader_new (hd_slots m) = m.
Proof.
  destruct m as [b x y z u]. intros [Hb (A1&A2&A3) _ Hu]. cbn in Hu. subst u.
  etransitivity; [|apply (f_equal (λ c, mkHeaderPb c x y z [])), (hd_bits b Hb)].
  change (slots_result bubiMsgHeader_new (hd_slots (mkHeaderPb b x y z []))) with
    (merge_field hd_checksum (mkHeaderPb b x y z []) (merge_field hd_msgsize (mkHeaderPb b x y z [])
      (merge_field hd_command (mkHeaderPb b x y z []) bubiMsgHeader_new))).
  merge_put hd_command. merge_put hd_msgsize. merge_put hd_checksum. reflexivity.
Qed.

(** The header of a message, as a field. *)
Definition header_slot (tag : Z) (src : bubiMsg) : slot bubiMsg :=
  let h := get bm_header src in
  mkSlot tag (has bm_header src)
    (WriteVarint32ToArray (u32 (Z.of_nat (ByteSize h))) ++ SerializeWithCachedSizesToArray h)
    parse_message
    (λ m, let m := mutable_header m in
          f_put bm_header (slots_result (get bm_header m) (hd_slots h)) m).
Definition bm_slots (m : bubiMsg) : list (slot bubiMsg) := [header_slot 10 m; string_slot 18 bm_data m].

Lemma bm_serialize m :
  bm_unknown_fields m = [] → bubiMsg_SerializeWithCachedSizesToArray m = slots_bytes (bm_slots m).
Proof.
  intros Hu. unfold bubiMsg_SerializeWithCachedSizesToArray. rewrite Hu.
  rewrite (write_string_slot bm_data m 2 18) by done.
  assert (when_has bm_header m (WriteMessageNoVirtualToArray 1) = slot_bytes (header_slot 10 m)) as ->.
  { unfold when_has, WriteMessageNoVirtualToArray. by rewrite WriteTag_small. }
  reflexivity.
Qed.

Lemma header_slot_ok m :
  bubiMsg_wf m → (Z.of_nat (length (slots_bytes (bm_slots m))) < kDefaultTotalBytesLimit)%Z →
  slot_ok 1 (header_slot 10 m).
Proof.
  intros Hm Hl. split; [done|]. intros m1 k rest s Hp Hs Hb.
  cbn [sl_present sl_body header_slot ByteSize SerializeWithCachedSizesToArray bubiMsgHeader_MessageLite] in Hp, Hb.
  pose proof (bubiMsg_header_wf m Hm Hp) as Hh. pose proof (bubiMsgHeader_size _ Hh) as Hsz.
  set (h := get bm_header m) in *. rewrite hd_serialize in Hsz, Hb by apply Hh. rewrite Hsz in Hb.
  assert (Z.of_nat (length (slots_bytes (hd_slots h))) < kDefaultTotalBytesLimit)%Z as Hlh.
  { revert Hl. unfold bm_slots, slots_bytes at 1. cbn [fmap list_fmap mjoin list_join].
    unfold slot_bytes at 1. cbn [sl_present header_slot sl_tag sl_body]. rewrite Hp. fold h.
    cbn [SerializeWithCachedSizesToArray bubiMsgHeader_MessageLite].
    rewrite hd_serialize by apply Hh. cbn [length app]. rewrite !length_app. lia. }
  assert (kDefaultTotalBytesLimit = 2 ^ 26)%Z by done. rewrite Z.mod_small in Hb by lia.
  rewrite <-app_assoc in Hb. unfold sl_parse, header_slot, parse_message. fold h.
  destruct (ReadMessage_write 1 (get bm_header (mutable_header m1))
    (slots_result (get bm_header (mutable_header m1)) (hd_slots h)) (slots_bytes (hd_slots h)) rest s)
    as (s' & E & Hmv); [done|lia|lia|done| |].
  { intros s0 Hs0 Hb0. apply (merge_partial_reads (1 - 1)); [by apply hd_switch|done|done]. }
  exists s'. rewrite (bind_Ok _ _ _ _ _ E). by split.
Qed.

Lemma bm_switch m :
  bubiMsg_wf m → (Z.of_nat (length (slots_bytes (bm_slots m))) < kDefaultTotalBytesLimit)%Z →
  switch_ok 1 bubiMsg_fields (bm_slots m).
Proof.
  intros Hm Hl. cbn [switch_ok bm_slots]. split_and!; try done; [by apply header_slot_ok| |].
  - apply Forall_cons_2; [done|apply Forall_nil_2].
  - apply string_slot_ok; [done|]. apply (string_short bm_data m 18 (bm_slots m)); try done; [apply Hm|].
    unfold bm_slots. set_solver.
Qed.

Lemma bm_rebuild m : bubiMsg_wf m → slots_result bubiMsg_new (bm_slots m) = m.
Proof.
  intros Hm. pose proof (bubiMsg_header_wf m Hm) as Hh. destruct m as [b x y u].
  destruct Hm as [Hb Hx Hd Hu]. cbn in Hu. subst u.
  pose proof (bits_check 4 (λ b, Z.eqb (Z.lor (Z.lor 0 (bit b 0x1)) (bit b 0x2)) b) _ eq_refl Hb) as Hbits.
  cbn beta in Hbits. apply Z.eqb_eq in Hbits. cbn in Hbits.
  etransitivity; [|apply (f_equal (λ c, mkMsgPb c x y [])), Hbits].
  change (slots_result bubiMsg_new (bm_slots (mkMsgPb b x y []))) with
    (merge_field bm_data (mkMsgPb b x y []) (slot_result bubiMsg_new (header_slot 10 (mkMsgPb b x y [])))).
  unfold slot_result. cbn [sl_present header_slot sl_apply]. unfold bit in *. cbn [negb] in *.
  change (negb (Z.eqb (Z.land b 1) 0)) with (has bm_header (mkMsgPb b x y [])).
  destruct (has bm_header (mkMsgPb b x y [])) eqn:E.
  - destruct Hx as (h & [= ->] & Hwf). change (get bm_header (mkMsgPb b (Some h) y [])) with h.
    change (get bm_header (mutable_header bubiMsg_new)) with bubiMsgHeader_new.
    rewrite hd_rebuild by done. by merge_put bm_data.
  - cbn in Hx. subst x. by merge_put bm_data.
Qed.

Lemma bubiMsg_round m :
  bubiMsg_wf m → fits m →
  ∃ data, SerializeToString m = Ok (true, data) ∧
    ParseFromString data bubiMsg_new = Ok (IsInitialized m, m).
Proof.
  intros Hm Hf. pose proof (bubiMsg_size m Hm) as Hs. rewrite bm_serialize in Hs by apply Hm.
  apply (message_round 1 bm_unknown_fields bm_set_unknown bubiMsg_fields (bm_slots m)); try done.
  - apply bm_serialize, Hm.
  - apply bm_switch; [done|]. by rewrite <-Hs.
  - by apply bm_rebuild.
Qed.

Lemma bubiMsgHeader_round m :
  bubiMsgHeader_wf m → fits m →
  ∃ data, SerializeToString m = Ok (true, data) ∧
    ParseFromString data bubiMsgHeader_new = Ok (IsInitialized m, m).
Proof.
  intros Hm Hf. pose proof (bubiMsgHeader_size m Hm) as Hs. rewrite hd_serialize in Hs by apply Hm.
  apply (message_round 0 hd_unknown_fields hd_set_unknown bubiMsgHeader_fields (hd_slots m)); try done.
  - apply hd_serialize, Hm.
  - apply hd_switch; [done|]. by rewrite <-Hs.
  - by apply hd_rebuild.
Qed.



Definition ex_bubiMsg : bubiMsg :=
  set bm_data [Byte.x7b; Byte.x7d]
    (set_allocated_header (Some (set hd_command [Byte.x74; Byte.x78] bubiMsgHeader_new)) bubiMsg_new).

Lemma ex_bubiMsg_wf : bubiMsg_wf ex_bubiMsg.
Proof. split; [done| |done|done]. eexists. split; [reflexivity|]. by repeat split. Qed.


