(* ===== verification/Entries.v ===== *)
(** * Accounts and transactions

    Models [Bubi::Account] and [Bubi::Transaction]: [src/src/ledger/account.{h,cpp}] and
    [transaction.{h,cpp}].  The members keep the types of the source: addresses and
    hashes are [uint256], amounts are doubles, sequence numbers 32-bit integers.  An
    object is stored as the protobuf message of the same name, with the addresses in
    hexadecimal.  The messages the methods print are not represented.

    [get_account_entry] and [get_transaction_entry] of
    [src/src/ledger/radix_merkle_tree.cpp]: a lookup followed by the decoding of the
    leaf's data.  A ledger keeps its accounts and its transactions in two trees over
    the same heap and database; [other_tree] shows that work on one of them leaves the
    other as it is. *)

From S2P Require Import Prelude Varint BaseUint Double Serializer MerkleNode Database MerkleTree MerkleInv MerkleLoad.
From S2P Require Import MerkleMap MerkleAdd MerkleInsert MerkleOps MerkleSpec MerkleAbort CodedStream WireFormat.
From S2P Require Import WireLemmas PbMessage PbRound TransactionPb TransactionPbLaws.

Abbreviation hex := (to_string uint256_bits).
(** [u.binary_init (s.c_str ())] *)
Abbreviation unhex s := (binary_init uint256_bits (c_str s)).

(** ** [Account] *)

Record Account := mkAccount {
  account_address_ : uint256;
  account_balance_ : double;
  previous_ledger_seq_ : Z;
  previous_tx_hash_ : uint256;
}.

#[export] Instance Account_eq_dec : EqDecision Account.
Proof. solve_decision. Defined.

Definition Account_new (address : uint256) (balance : double) (p_ledger : Z) (p_tx : uint256) : Account :=
  mkAccount address balance p_ledger p_tx.

Definition get_account_address (a : Account) : uint256 := account_address_ a.
Definition get_account_balance (a : Account) : double := account_balance_ a.
Definition get_previous_ledger_seq (a : Account) : Z := previous_ledger_seq_ a.
Definition get_previous_tx_hash (a : Account) : uint256 := previous_tx_hash_ a.

Definition set_previous_ledger_seq (seq : Z) (a : Account) : Account :=
  mkAccount (account_address_ a) (account_balance_ a) seq (previous_tx_hash_ a).
Definition set_previous_tx_hash (hash : uint256) (a : Account) : Account :=
  mkAccount (account_address_ a) (account_balance_ a) (previous_ledger_seq_ a) hash.

(** The balance is left as it is when the new one would be below zero. *)
Definition add_balance `{NaNs} (amount : double) (a : Account) : bool * Account :=
  let tmp := dadd (account_balance_ a) amount in
  if dltb tmp double_zero then (false, a)
  else (true, mkAccount (account_address_ a) tmp (previous_ledger_seq_ a) (previous_tx_hash_ a)).

(** The message the object is stored as. *)
Definition Account_message (a : Account) : AccountPb :=
  let acc := AccountPb_new in
  let acc := set acc_account_address (hex (account_address_ a)) acc in
  let acc := set acc_account_balance (account_balance_ a) acc in
  let acc := set acc_previous_ledger_seq (previous_ledger_seq_ a) acc in
  set acc_previous_tx_hash (hex (previous_tx_hash_ a)) acc.
Definition Account_serializer (a : Account) : outcome bytes :=
  r ← SerializeToString (Account_message a); mret r.2.

(** Every member is assigned.  A string that does not parse is reported on the
    console only: the members come from whatever the parser left in the message. *)
Definition Account_unserializer (str : bytes) : outcome Account :=
  r ← ParseFromString str AccountPb_new;
  let acc := r.2 in
  address ← unhex (get acc_account_address acc);
  let balance := get acc_account_balance acc in
  let seq := get acc_previous_ledger_seq acc in
  hash ← unhex (get acc_previous_tx_hash acc);
  mret (mkAccount address balance seq hash).

(** ** [Transaction] *)

Record Transaction := mkTransaction {
  source_address_ : uint256;
  destination_address_ : uint256;
  payment_amount_ : double;
  source_previous_ledger_seq_ : Z;
  source_previous_tx_hash_ : uint256;
  destination_previous_ledger_seq_ : Z;
  destination_previous_tx_hash_ : uint256;
}.

#[export] Instance Transaction_eq_dec : EqDecision Transaction.
Proof. solve_decision. Defined.

(** The constructor leaves four members as [memory] holds them. *)
Definition Transaction_new (memory : Transaction) (s_address d_address : uint256) (amount : double) : Transaction :=
  mkTransaction s_address d_address amount (source_previous_ledger_seq_ memory)
    (source_previous_tx_hash_ memory) (destination_previous_ledger_seq_ memory)
    (destination_previous_tx_hash_ memory).

Definition get_source_address (t : Transaction) : uint256 := source_address_ t.
Definition get_destination_address (t : Transaction) : uint256 := destination_address_ t.
Definition get_payment_amount (t : Transaction) : double := payment_amount_ t.
Definition get_source_previous_ledger_seq (t : Transaction) : Z := source_previous_ledger_seq_ t.
Definition get_source_previous_tx_hash (t : Transaction) : uint256 := source_previous_tx_hash_ t.
Definition get_destination_previous_ledger_seq (t : Transaction) : Z := destination_previous_ledger_seq_ t.
Definition get_destination_previous_tx_hash (t : Transaction) : uint256 := destination_previous_tx_hash_ t.

Definition set_source_previous_ledger_seq (seq : Z) (t : Transaction) : Transaction :=
  let '(mkTransaction s d a _ sh ds dh) := t in mkTransaction s d a seq sh ds dh.
Definition set_source_previous_tx_hash (hash : uint256) (t : Transaction) : Transaction :=
  let '(mkTransaction s d a ss _ ds dh) := t in mkTransaction s d a ss hash ds dh.
Definition set_destination_previous_ledger_seq (seq : Z) (t : Transaction) : Transaction :=
  let '(mkTransaction s d a ss sh _ dh) := t in mkTransaction s d a ss sh seq dh.
Definition set_destination_previous_tx_hash (hash : uint256) (t : Transaction) : Transaction :=
  let '(mkTransaction s d a ss sh ds _) := t in mkTransaction s d a ss sh ds hash.

Definition Transaction_message (t : Transaction) : TransactionPb :=
  let tx := TransactionPb_new in
  let tx := set tx_source_address (hex (source_address_ t)) tx in
  let tx := set tx_destination_address (hex (destination_address_ t)) tx in
  let tx := set tx_payment_amount (payment_amount_ t) tx in
  let tx := set tx_source_previous_ledger_seq (source_previous_ledger_seq_ t) tx in
  let tx := set tx_source_previous_tx_hash (hex (source_previous_tx_hash_ t)) tx in
  let tx := set tx_destination_previous_ledger_seq (destination_previous_ledger_seq_ t) tx in
  set tx_destination_previous_tx_hash (hex (destination_previous_tx_hash_ t)) tx.
Definition Transaction_serializer (t : Transaction) : outcome bytes :=
  r ← SerializeToString (Transaction_message t); mret r.2.

Definition Transaction_unserializer (str : bytes) : outcome Transaction :=
  r ← ParseFromString str TransactionPb_new;
  let tx := r.2 in
  source ← unhex (get tx_source_address tx);
  destination ← unhex (get tx_destination_address tx);
  let amount := get tx_payment_amount tx in
  let s_seq := get tx_source_previous_ledger_seq tx in
  s_hash ← unhex (get tx_source_previous_tx_hash tx);
  let d_seq := get tx_destination_previous_ledger_seq tx in
  d_hash ← unhex (get tx_destination_previous_tx_hash tx);
  mret (mkTransaction source destination amount s_seq s_hash d_seq d_hash).

(** ** The stored form *)

Record Account_wf (a : Account) : Prop := {
  acct_address : wf256 (account_address_ a);
  acct_balance : is_u64 (account_balance_ a);
  acct_seq : is_u32 (previous_ledger_seq_ a);
  acct_hash : wf256 (previous_tx_hash_ a);
}.

Record Transaction_wf (t : Transaction) : Prop := {
  txn_source : wf256 (source_address_ t);
  txn_destination : wf256 (destination_address_ t);
  txn_amount : is_u64 (payment_amount_ t);
  txn_source_seq : is_u32 (source_previous_ledger_seq_ t);
  txn_source_hash : wf256 (source_previous_tx_hash_ t);
  txn_destination_seq : is_u32 (destination_previous_ledger_seq_ t);
  txn_destination_hash : wf256 (destination_previous_tx_hash_ t);
}.

(** The string of a stored object is short enough for every [int] length. *)
Lemma SerializeToString_short {M} `{MessageLite M} (m : M) data :
  SerializeToString m = Ok (true, data) → (Z.of_nat (length data) < 2 ^ 31)%Z.
Proof.
  unfold SerializeToString, AppendPartialToString. case_match; [done|]. case_match eqn:E; [|done].
  intros [= <-]. apply Z.eqb_eq in E. rewrite E. unfold to_int32.
  pose proof (Z.mod_pos_bound (Z.of_nat (ByteSize m)) (2 ^ 32) ltac:(lia)).
  destruct (Z.ltb_spec (u32 (Z.of_nat (ByteSize m))) (2 ^ 31)); lia.
Qed.

Lemma SerializeToString_length {M} `{MessageLite M} (m : M) r :
  SerializeToString m = Ok r → (Z.of_nat (ByteSize m) < 2 ^ 31)%Z → length r.2 ≤ ByteSize m.
Proof.
  unfold SerializeToString, AppendPartialToString. intros Hr Hm. rewrite Z.mod_small, to_int32_small in Hr by lia.
  repeat case_match; simplify_eq; cbn; [lia|]. apply Z.eqb_eq in H1. lia.
Qed.

Lemma unhex_hex u : wf256 u → unhex (hex u) = Ok u.
Proof. apply (binary_init_to_string_tail uint256_bits u [Byte.x00]). Qed.

Lemma hex_size u : StringSize (hex u) = 65.
Proof. unfold StringSize. by rewrite length_to_string. Qed.

Lemma UInt32Size_le v : UInt32Size v ≤ 5.
Proof. unfold UInt32Size, VarintSize32. repeat case_match; lia. Qed.

Lemma Account_message_eq a :
  Account_message a =
    mkAccountPb 15 (hex (account_address_ a)) (account_balance_ a) (hex (previous_tx_hash_ a))
      (previous_ledger_seq_ a) [].
Proof. done. Qed.

Lemma Account_message_wf a : Account_wf a → AccountPb_wf (Account_message a).
Proof. intros [_ Hb Hs _]. rewrite Account_message_eq. by constructor; [|split_and!|..|constructor]. Qed.

Lemma Account_message_fits a : fits (Account_message a).
Proof.
  enough (ByteSize (Account_message a) ≤ 200) by (change kDefaultTotalBytesLimit with 67108864%Z; lia).
  rewrite Account_message_eq. unfold ByteSize, AccountPb_MessageLite, AccountPb_ByteSize.
  cbn -[StringSize UInt32Size]. change (Z.eqb _ 0) with true. cbn iota. rewrite !hex_size. pose proof (UInt32Size_le (previous_ledger_seq_ a)). lia.
Qed.

Lemma Account_round a :
  Account_wf a →
  ∃ data, Account_serializer a = Ok data ∧ Account_unserializer data = Ok a ∧ short data.
Proof.
  intros Hwf. destruct (AccountPb_round (Account_message a) AccountPb_new) as (data & Hs & Hp);
    [by apply Account_message_wf|done|apply Account_message_fits|apply AccountPb_new_wf|].
  exists data. split_and!; [|unfold Account_unserializer|by eapply SerializeToString_short].
  - unfold Account_serializer. rewrite Hs. done.
  - rewrite Hp. mred. cbn [snd]. rewrite Account_message_eq. unfold get; cbn [f_get acc_account_address acc_previous_tx_hash acc_account_address_ acc_previous_tx_hash_].
    rewrite (unhex_hex (account_address_ a)) by apply Hwf. mred.
    rewrite (unhex_hex (previous_tx_hash_ a)) by apply Hwf. mred. by destruct a.
Qed.

Lemma Transaction_message_eq t :
  Transaction_message t =
    mkTransactionPb 127 (hex (source_address_ t)) (hex (destination_address_ t)) (payment_amount_ t)
      (hex (source_previous_tx_hash_ t)) (source_previous_ledger_seq_ t)
      (destination_previous_ledger_seq_ t) (hex (destination_previous_tx_hash_ t)) [].
Proof. done. Qed.

Lemma Transaction_message_wf t : Transaction_wf t → TransactionPb_wf (Transaction_message t).
Proof.
  intros [_ _ Ha Hs _ Hd _]. rewrite Transaction_message_eq.
  by constructor; [|split_and!|split; [|split]|apply Forall_nil].
Qed.

Lemma Transaction_message_size t : ByteSize (Transaction_message t) ≤ 400.
Proof.
  rewrite Transaction_message_eq. unfold ByteSize, TransactionPb_MessageLite, TransactionPb_ByteSize.
  cbn -[StringSize UInt32Size size_when_has]. change (Z.eqb _ 0) with true. cbn iota. rewrite !hex_size.
  change (size_when_has _ _ _) with 9.
  pose proof (UInt32Size_le (source_previous_ledger_seq_ t)).
  pose proof (UInt32Size_le (destination_previous_ledger_seq_ t)). lia.
Qed.

Lemma Transaction_message_fits t : fits (Transaction_message t).
Proof. pose proof (Transaction_message_size t). change kDefaultTotalBytesLimit with 67108864%Z. lia. Qed.

Lemma Transaction_serializer_length t data : Transaction_serializer t = Ok data → length data ≤ 400.
Proof.
  unfold Transaction_serializer. pose proof (Transaction_message_size t) as Hs.
  destruct (SerializeToString (Transaction_message t)) as [r|] eqn:E; mred; intros [= <-].
  apply SerializeToString_length in E; lia.
Qed.

Lemma Transaction_round t :
  Transaction_wf t →
  ∃ data, Transaction_serializer t = Ok data ∧ Transaction_unserializer data = Ok t ∧ short data.
Proof.
  intros Hwf. destruct (TransactionPb_round (Transaction_message t) TransactionPb_new) as (data & Hs & Hp);
    [by apply Transaction_message_wf|done|apply Transaction_message_fits|apply TransactionPb_new_wf|].
  exists data. split_and!; [|unfold Transaction_unserializer|exact (SerializeToString_short _ _ Hs)].
  - unfold Transaction_serializer. rewrite Hs. done.
  - rewrite Hp. mred. cbn [snd]. rewrite Transaction_message_eq. unfold get; cbn [f_get tx_source_address tx_destination_address tx_source_previous_tx_hash
      tx_destination_previous_tx_hash tx_source_address_ tx_destination_address_ tx_source_previous_tx_hash_
      tx_destination_previous_tx_hash_].
    rewrite (unhex_hex (source_address_ t)) by apply Hwf. mred.
    rewrite (unhex_hex (destination_address_ t)) by apply Hwf. mred.
    rewrite (unhex_hex (source_previous_tx_hash_ t)) by apply Hwf. mred.
    rewrite (unhex_hex (destination_previous_tx_hash_ t)) by apply Hwf. mred. by destruct t.
Qed.

(** ** Balances *)

Section balances.
Context `{NaNs}.

Lemma add_balance_wf amount a : Account_wf a → Account_wf (add_balance amount a).2.
Proof.
  intros [Ha Hb Hs Hh]. unfold add_balance. case_match; [done|]. constructor; [done|apply dadd_u64|done..].
Qed.

Lemma add_balance_address amount a :
  account_address_ (add_balance amount a).2 = account_address_ a.
Proof. unfold add_balance. by case_match. Qed.

(** Adding an integer amount to an integer balance. *)
Lemma add_balance_int amount a n b :
  represents amount n → represents (account_balance_ a) b → small n → small b → small (b + n) →
  (add_balance amount a).1 = Z.leb 0 (b + n) ∧
  represents (account_balance_ (add_balance amount a).2) (if Z.leb 0 (b + n) then b + n else b).
Proof.
  intros Hn Hb Sn Sb Ss. pose proof (represents_dadd _ _ _ _ Hb Hn Sb Sn Ss) as Hr.
  unfold add_balance. rewrite (represents_negative _ _ Hr).
  destruct (Z.ltb_spec (b + n) 0), (Z.leb_spec 0 (b + n)); try lia; done.
Qed.
End balances.

(** * Entries of a tree, and two trees in one store *)

Section entries.
Context `{SHA512} `{Indeterminate} {D : Type} `{RocksDB D}.
Abbreviation cmd := (prog (store_t D)).

(** The descent, the comparison of the index, and the decoding of the leaf's string. *)
Definition get_entry {A} (unserializer : bytes → outcome A) (t : RadixMerkleTree) (hash : uint256)
    : cmd (option A) :=
  now ← walk_loop depth_fuel hash (root_ t) 0;
  match now with
  | None => mret None
  | Some now =>
      item ← leaf_of now;
      if base_uint_neqb uint256_bits (get_index item) hash then mret None
      else
        item ← leaf_of now;
        let str := peek_string item in
        ret ← lift (unserializer str);
        mret (Some ret)
  end.
Definition get_account_entry (t : RadixMerkleTree) (hash : uint256) : cmd (option Account) :=
  get_entry Account_unserializer t hash.
Definition get_transaction_entry (t : RadixMerkleTree) (hash : uint256) : cmd (option Transaction) :=
  get_entry Transaction_unserializer t hash.
End entries.

Lemma peek_string_data l : peek_string l = data_ (leaf_data_ l).
Proof.
  pose proof (Serializer_of_string_data (leaf_peek_data l)) as E. by injection E as E.
Qed.

Section entry_lemmas.
Context `{SHA512} `{Indeterminate} {D : Type} `{RocksDBLaws D}.
Implicit Types (s : store_t D) (G : gmap path place) (key : uint256).
Implicit Types (item : RadixMerkleTreeLeaf) (m : gmap uint256 RadixMerkleTreeLeaf).

(** A lookup of an entry decodes the data of the key's item. *)
Lemma get_entry_spec {A} (f : bytes → outcome A) t key G s m :
  wf256 key → tree_inv (root_ t) [] 0 G s → abs s G m →
  ∃ s' G', reads (root_ t) G s G' s' ∧ abs s' G' m ∧
    get_entry f t key s =
      match m !! key with
      | None => Ok (None, s')
      | Some item => match f (data_ (leaf_data_ item)) with
                     | Ok a => Ok (Some a, s') | Err e => Err e end
      end.
Proof.
  intros Hk Hinv Ha. destruct (walk_find t key G s m Hk Hinv Ha) as (r & s' & G' & Hrun & Hrd & Ha' & Hr).
  exists s', G'. split_and!; [done..|]. unfold get_entry. step Hrun. destruct r as [l|]; [|by rewrite Hr].
  destruct Hr as (n & item & Hn & Hit & Hw & ->). step (run_leaf_of s' l n item Hn Hit).
  unfold get_index, base_uint_neqb. rewrite base_uint_eqb_decide by done.
  case_decide; [rewrite bool_decide_true by done|by rewrite bool_decide_false by done].
  cbn [negb]. step (run_leaf_of s' l n item Hn Hit). rewrite peek_string_data.
  unfold mbind, prog_bind, lift. by destruct (f _).
Qed.

(** ** Two trees *)

(** The trees have no place in common. *)
Definition apart G1 G2 : Prop := ∀ p q pl, G1 !! p = Some pl → G2 !! q ≠ Some pl.

Lemma apart_sym G1 G2 : apart G1 G2 → apart G2 G1.
Proof. intros Hap p q pl Hp Hq. by eapply Hap. Qed.

(** A step on the first tree does not change a node of the second. *)
Lemma frame_nd r2 G1 G1' G2 s s' p :
  step_frame G1 G1' s s' → tree_inv r2 [] 0 G2 s → apart G1 G2 → nd s' G2 p = nd s G2 p.
Proof.
  intros Hfr Hinv2 Hap. unfold nd. destruct (G2 !! p) as [[l|h]|] eqn:Hp; cbn; [..|done].
  - apply (sf_heap _ _ _ _ Hfr); [intros q Hq; by eapply Hap|].
    apply (ti_fresh _ _ _ _ _ Hinv2). by apply (ti_total _ _ _ _ _ Hinv2 p (Mem l)).
  - apply (sf_disk _ _ _ _ Hfr); [by eapply disk_wf|]. intros q Hq. by eapply Hap.
Qed.

(** Neither its invariant. *)
Lemma other_tree_fresh r2 G1 G1' G2 s s' :
  (∀ l, is_Some (heap s' !! l) → (l < next_loc s')%positive) →
  step_frame G1 G1' s s' → tree_inv r2 [] 0 G2 s → apart G1 G2 →
  tree_inv r2 [] 0 G2 s' ∧ apart G1' G2 ∧ (∀ p, nd s' G2 p = nd s G2 p).
Proof.
  intros Hf Hfr Hinv2 Hap. pose proof (λ p, frame_nd r2 G1 G1' G2 s s' p Hfr Hinv2 Hap) as Hnd.
  split_and!; [|intros p q pl Hp Hq|done].
  - destruct Hinv2 as [Hroot Hfresh Hinj Htot Hnode Hdig Hempty Hchild Hparent].
    constructor; try (setoid_rewrite Hnd); try done.
    intros p pl Hp. destruct (Htot p pl Hp) as [n Hn]. specialize (Hnd p). unfold nd in Hnd.
    rewrite Hp in Hnd. cbn in Hnd. rewrite Hnd. eauto.
  - destruct (sf_ghost _ _ _ _ Hfr p pl Hp) as [[p' Hp']|(l & -> & Hl)]; [by eapply Hap|].
    destruct (ti_total _ _ _ _ _ Hinv2 q (Mem l) Hq) as [n Hn].
    pose proof (ti_fresh _ _ _ _ _ Hinv2 l ltac:(eauto)). lia.
Qed.

Lemma other_tree r1 r2 G1 G1' G2 s s' :
  tree_inv r1 [] 0 G1' s' → step_frame G1 G1' s s' → tree_inv r2 [] 0 G2 s → apart G1 G2 →
  tree_inv r2 [] 0 G2 s' ∧ apart G1' G2 ∧ (∀ p, nd s' G2 p = nd s G2 p).
Proof. intros Hinv1. apply other_tree_fresh, Hinv1. Qed.

Lemma abs_nd s s' G m : (∀ p, nd s' G p = nd s G p) → abs s G m → abs s' G m.
Proof. intros Hnd Ha key it. rewrite (Ha key it). unfold holds. by setoid_rewrite Hnd. Qed.
End entry_lemmas.
