(* ===== verification/Ledger.v ===== *)
(** * Ledger

    Models [src/src/database/sqlite_imp.{h,cpp}].  SQLite is used through an interface:
    a class of the two calls the code makes, a statement returning a result code and
    leaving a new database.

    Models [src/src/ledger/ledger.{h,cpp}]: the header of a ledger, its two trees, and
    the operations on accounts and transactions.  A method runs on the ledger object,
    the store that both trees share, and the SQL handle.  An [Account::pointer] that a
    lookup returns is a new object each time.  [update_ledger_hash] and the two methods
    that call it end without a [return]; no caller uses their value.  What the methods
    print is not represented. *)

From S2P Require Import Prelude BaseUint Double Serializer MerkleNode Database MerkleTree Entries.
From Stdlib Require Import DecimalString.

Definition SQLITE_OK : Z := 0.

(** A row of a result: the text of each column, [None] for [NULL]. *)
Abbreviation row := (list (option bytes)).

(** [sqlite3_open] returns a code and a handle, [sqlite3_exec] a code and the rows that
    a callback is called with. *)
Class Sqlite (S : Type) := {
  sqlite3_open : bytes → Z * S;
  sqlite3_exec : S → bytes → Z * list row * S;
}.

Section SqliteImp.
Context {S : Type} `{Sqlite S}.

Definition SqliteImp_new (name : bytes) : outcome S :=
  let '(ret, db) := sqlite3_open name in
  if Z.eqb ret 0 then Ok db else Err AssertFailed.

(** The statement's code is reduced to 0 or 1; the rows are for the callback. *)
Definition exec_sql (sql : bytes) (db : S) : Z * list row * S :=
  let '(ret, rows, db) := sqlite3_exec db sql in
  if Z.eqb ret SQLITE_OK then (0%Z, rows, db) else (1%Z, rows, db).

Record SqliteInstance := mkSqliteInstance { sqlite_db_name_ : bytes; sqlite_ptr_ : option S }.

Definition sqlite_set_db_name (name : bytes) (i : SqliteInstance) : SqliteInstance :=
  mkSqliteInstance name (sqlite_ptr_ i).
Definition sqlite_instance (i : SqliteInstance) : outcome (S * SqliteInstance) :=
  match sqlite_ptr_ i with
  | Some p => Ok (p, i)
  | None =>
      p ← SqliteImp_new (sqlite_db_name_ i);
      mret (p, mkSqliteInstance (sqlite_db_name_ i) (Some p))
  end.
End SqliteImp.
Arguments SqliteInstance : clear implicits.

(** * The ledger *)

Record Ledger := mkLedger {
  ledger_hash_ : uint256;
  parent_hash_ : uint256;
  transaction_tree_hash_ : uint256;
  account_tree_hash_ : uint256;
  total_coins_ : Z;
  ledger_sequence_ : Z;
  close_time_ : Z;
  transaction_tree_ : RadixMerkleTree;
  account_tree_ : RadixMerkleTree;
}.

(** The ledger object, the objects and database of its trees, and SQLite. *)
Record world (D S : Type) := mkWorld {
  ledger : Ledger;
  objects : store_t D;
  sqlite : SqliteInstance S;
}.
Arguments mkWorld {D S} ledger objects sqlite.
Arguments ledger {D S} w.
Arguments objects {D S} w.
Arguments sqlite {D S} w.

(** [sout << a] for an unsigned integer. *)
Definition int_to_string (a : Z) : bytes := str (NilZero.string_of_uint (N.to_uint (Z.to_N a))).

(** The object representation of a [std::uint32_t]. *)
Definition uint32_raw (a : Z) : bytes := le_split 4 a.

Section Ledger.
Context `{SHA512} `{Indeterminate} `{NaNs} {D S : Type} `{RocksDB D} `{Sqlite S}.
Abbreviation lcmd := (prog (world D S)).

(** A method of a tree, or of the database. *)
Definition on_objects {A} (c : prog (store_t D) A) : lcmd A := λ w,
  match c (objects w) with
  | Ok (a, s) => Ok (a, mkWorld (ledger w) s (sqlite w))
  | Err e => Err e
  end.
Definition set_ledger (f : Ledger → Ledger) : lcmd unit :=
  modify (λ w, mkWorld (f (ledger w)) (objects w) (sqlite w)).
(** [p->...] *)
Definition deref {A} (p : option A) : lcmd A := lift (of_option NullDeref p).

Definition get_account_tree : lcmd RadixMerkleTree := gets (λ w, account_tree_ (ledger w)).
Definition get_transaction_tree : lcmd RadixMerkleTree := gets (λ w, transaction_tree_ (ledger w)).

(** ** Hashes *)

Definition with_ledger_hash (h : uint256) (l : Ledger) : Ledger :=
  mkLedger h (parent_hash_ l) (transaction_tree_hash_ l) (account_tree_hash_ l) (total_coins_ l)
    (ledger_sequence_ l) (close_time_ l) (transaction_tree_ l) (account_tree_ l).
Definition with_account_tree_hash (h : uint256) (l : Ledger) : Ledger :=
  mkLedger (ledger_hash_ l) (parent_hash_ l) (transaction_tree_hash_ l) h (total_coins_ l)
    (ledger_sequence_ l) (close_time_ l) (transaction_tree_ l) (account_tree_ l).
Definition with_transaction_tree_hash (h : uint256) (l : Ledger) : Ledger :=
  mkLedger (ledger_hash_ l) (parent_hash_ l) h (account_tree_hash_ l) (total_coins_ l)
    (ledger_sequence_ l) (close_time_ l) (transaction_tree_ l) (account_tree_ l).

Definition update_ledger_hash : lcmd unit :=
  l ← gets ledger;
  let s := Serializer_empty in
  let s := add256 (parent_hash_ l) s in
  let s := add256 (transaction_tree_hash_ l) s in
  let s := add256 (account_tree_hash_ l) s in
  s ← lift (add_raw (uint32_raw (total_coins_ l)) 4 s);
  s ← lift (add_raw (uint32_raw (ledger_sequence_ l)) 4 s);
  s ← lift (add_raw (uint32_raw (close_time_ l)) 4 s);
  set_ledger (with_ledger_hash (get_sha512_half s)).

Definition update_account_tree_hash : lcmd unit :=
  t ← get_account_tree;
  h ← on_objects (tree_get_hash t);
  set_ledger (with_account_tree_hash h);;
  update_ledger_hash.
Definition update_transaction_tree_hash : lcmd unit :=
  t ← get_transaction_tree;
  h ← on_objects (tree_get_hash t);
  set_ledger (with_transaction_tree_hash h);;
  update_ledger_hash.

(** ** Entries *)

Definition ledger_get_account_entry (hash : uint256) : lcmd (option Account) :=
  t ← get_account_tree; on_objects (get_account_entry t hash).
Definition ledger_get_transaction_entry (hash : uint256) : lcmd (option Transaction) :=
  t ← get_transaction_tree; on_objects (get_transaction_entry t hash).
Definition has_account (hash : uint256) : lcmd bool :=
  t ← get_account_tree; on_objects (has_item t hash).

Definition add_account_tree_entry (tag : uint256) (acc : Account) : lcmd bool :=
  str ← lift (Account_serializer acc);
  let item := mkLeaf tag (Serializer_of_string str) in
  t ← get_account_tree;
  on_objects (add_item t item false);;
  update_account_tree_hash;;
  mret true.

Definition update_account_tree_entry (item : RadixMerkleTreeLeaf) : lcmd bool :=
  t ← get_account_tree;
  on_objects (update_given_item t item false);;
  update_account_tree_hash;;
  mret true.

(** The result, and the transaction object after the call. *)
Definition add_transaction_entry (tx : Transaction) : lcmd (Z * Transaction) :=
  let source_address := get_source_address tx in
  let destination_address := get_destination_address tx in
  let amount := get_payment_amount tx in
  source_pointer ← ledger_get_account_entry source_address;
  destination_pointer ← ledger_get_account_entry destination_address;
  source_account ← deref source_pointer;
  let '(ok, source_account) := add_balance (dopp amount) source_account in
  if negb ok then mret (1%Z, tx)
  else
    destination_account ← deref destination_pointer;
    let destination_account := (add_balance amount destination_account).2 in
    let tx := set_source_previous_ledger_seq (get_previous_ledger_seq source_account) tx in
    let tx := set_source_previous_tx_hash (get_previous_tx_hash source_account) tx in
    let tx := set_destination_previous_ledger_seq (get_previous_ledger_seq destination_account) tx in
    let tx := set_destination_previous_tx_hash (get_previous_tx_hash destination_account) tx in
    str ← lift (Transaction_serializer tx);
    let s := Serializer_of_string str in
    let hash := get_sha512_half s in
    let item := mkLeaf hash s in
    t ← get_transaction_tree;
    on_objects (add_item t item true);;
    update_transaction_tree_hash;;
    seq ← gets (λ w, ledger_sequence_ (ledger w));
    let source_account := set_previous_tx_hash hash (set_previous_ledger_seq seq source_account) in
    let destination_account :=
      set_previous_tx_hash hash (set_previous_ledger_seq seq destination_account) in
    ss ← lift (Account_serializer source_account);
    ds ← lift (Account_serializer destination_account);
    let s_item := mkLeaf (get_account_address source_account) (Serializer_of_string ss) in
    let d_item := mkLeaf (get_account_address destination_account) (Serializer_of_string ds) in
    update_account_tree_entry s_item;;
    update_account_tree_entry d_item;;
    update_account_tree_hash;;
    mret (0%Z, tx).

(** ** The header in the SQL database *)

Definition insert_sql (l : Ledger) : bytes :=
  str "insert into BubiLedger (ledger_sequence,hash,phash,txhash,accounthash,total_coins,close_time) values (" ++
  int_to_string (ledger_sequence_ l) ++ str ",'" ++ hex (ledger_hash_ l) ++ str "','" ++
  hex (parent_hash_ l) ++ str "','" ++ hex (transaction_tree_hash_ l) ++ str "','" ++
  hex (account_tree_hash_ l) ++ str "'," ++ int_to_string (total_coins_ l) ++ str "," ++
  int_to_string (close_time_ l) ++ str ");".
Definition update_sql (l : Ledger) : bytes :=
  str "update BubiLedger set hash='" ++ hex (ledger_hash_ l) ++ str "',phash='" ++
  hex (parent_hash_ l) ++ str "',txhash='" ++ hex (transaction_tree_hash_ l) ++
  str "',accounthash='" ++ hex (account_tree_hash_ l) ++ str "',total_coins=" ++
  int_to_string (total_coins_ l) ++ str ",close_time=" ++ int_to_string (close_time_ l) ++
  str " where ledger_sequence=" ++ int_to_string (ledger_sequence_ l) ++ str ";".

(** [ledger_db->exec_sql (sql, NULL)] on the process-wide handle. *)
Definition run_sql (sql : bytes) : lcmd Z := λ w,
  match sqlite_instance (sqlite w) with
  | Ok (db, i) =>
      let '(ret, _, db) := exec_sql sql db in
      Ok (ret, mkWorld (ledger w) (objects w) (mkSqliteInstance (sqlite_db_name_ i) (Some db)))
  | Err e => Err e
  end.
Definition add_ledger_to_database : lcmd Z :=
  l ← gets ledger;
  ret ← run_sql (insert_sql l);
  if Z.eqb ret SQLITE_OK then mret 0%Z
  else
    ret ← run_sql (update_sql l);
    if Z.eqb ret SQLITE_OK then mret 0%Z else mret 1%Z.
End Ledger.

(** ** Construction and destruction *)

Section lifetime.
Context `{SHA512} `{Indeterminate} `{NaNs} {D S : Type} `{RocksDB D} `{Sqlite S}.

(** [Ledger ()]: the tree hashes hold nothing until the last two calls. *)
Definition Ledger_new (s : store_t D) (q : SqliteInstance S) : outcome (world D S) :=
  r ← RadixMerkleTree_new true 0 s;
  let '(t_tree, s) := r in
  r ← RadixMerkleTree_new false 0 s;
  let '(a_tree, s) := r in
  let l := mkLedger uint256_zero uint256_zero indet_hash indet_hash 0 1 0 t_tree a_tree in
  r ← (update_account_tree_hash;; update_transaction_tree_hash) (mkWorld l s q);
  mret r.2.

(** The constructor from a stored header: the account tree is opened first. *)
Definition Ledger_load (hash parent_hash transaction_tree_hash account_tree_hash : uint256)
    (total_coin ledger_sequence close_time : Z) (s : store_t D) (q : SqliteInstance S)
    : outcome (world D S) :=
  r ← RadixMerkleTree_load account_tree_hash ledger_sequence false s;
  let '(a_tree, s) := r in
  r ← RadixMerkleTree_load transaction_tree_hash ledger_sequence true s;
  let '(t_tree, s) := r in
  mret (mkWorld (mkLedger hash parent_hash transaction_tree_hash account_tree_hash total_coin
                   ledger_sequence close_time t_tree a_tree) s q).

(** The destructor, then those of the trees, the last member first. *)
Definition Ledger_dtor : prog (world D S) unit :=
  add_ledger_to_database;;
  t ← get_account_tree;
  on_objects (RadixMerkleTree_dtor t);;
  t ← get_transaction_tree;
  on_objects (RadixMerkleTree_dtor t).
End lifetime.
