(* ===== verification/LedgerInv.v ===== *)
(** * The state of a ledger

    The abstract value of a ledger is a [bank]: the accounts by address and the
    transactions by hash.  [ledger_state] relates it to the ledger object and the store
    of its two trees, and every operation on the trees is shown against it. *)

From S2P Require Import Prelude BaseUint Double Serializer MerkleNode Database MerkleTree MerkleInv.
From S2P Require Import MerkleLoad MerkleMap MerkleAdd.
From S2P Require Import MerkleInsert MerkleOps MerkleSpec MerkleAbort Entries Ledger.

Record bank := mkBank {
  accounts : gmap uint256 Account;
  transactions : gmap uint256 Transaction;
}.

(** The leaf that carries an object. *)
Definition stored_data (o : outcome bytes) : bytes := match o with Ok d => d | Err _ => [] end.
Definition account_leaf (key : uint256) (a : Account) : RadixMerkleTreeLeaf :=
  mkLeaf key (mkSerializer (stored_data (Account_serializer a))).
Definition transaction_leaf (key : uint256) (t : Transaction) : RadixMerkleTreeLeaf :=
  mkLeaf key (mkSerializer (stored_data (Transaction_serializer t))).

(** The map of leaves of a map of objects. *)
Definition leaves {A} (f : uint256 → A → RadixMerkleTreeLeaf) (m : gmap uint256 A)
    : gmap uint256 RadixMerkleTreeLeaf := map_imap (λ k a, Some (f k a)) m.

Lemma lookup_leaves {A} (f : uint256 → A → RadixMerkleTreeLeaf) m k : leaves f m !! k = f k <$> m !! k.
Proof. unfold leaves. rewrite map_lookup_imap. by destruct (m !! k). Qed.

Lemma leaves_insert {A} (f : uint256 → A → RadixMerkleTreeLeaf) m k a :
  leaves f (<[k := a]> m) = <[k := f k a]> (leaves f m).
Proof. apply map_eq. intros j. rewrite lookup_leaves, !lookup_insert, lookup_leaves.
  case_decide; by simplify_eq. Qed.

Section state.
Context `{SHA512} `{Indeterminate} `{NaNs} {D S : Type} `{RocksDBLaws D} `{Sqlite S}.
Implicit Types (s : store_t D) (w : world D S) (G : gmap path place) (key : uint256) (b : bank).

Definition transaction_hash (t : Transaction) : uint256 :=
  get_sha512_half (mkSerializer (stored_data (Transaction_serializer t))).

Record bank_wf b : Prop := {
  bw_accounts key a : accounts b !! key = Some a → Account_wf a ∧ account_address_ a = key;
  bw_transactions key t : transactions b !! key = Some t → Transaction_wf t ∧ transaction_hash t = key;
}.

Definition root_hash (t : RadixMerkleTree) s : uint256 := default [] (hash_ <$> heap s !! root_ t).

(** The digest of the header. *)
Definition header_digest (l : Ledger) : uint256 :=
  get_sha512_half (mkSerializer (parent_hash_ l ++ transaction_tree_hash_ l ++ account_tree_hash_ l ++
    uint32_raw (total_coins_ l) ++ uint32_raw (ledger_sequence_ l) ++ uint32_raw (close_time_ l))).

(** The hashes of the header are those of the trees and of the header. *)
Record header_ok w : Prop := {
  ho_transactions : transaction_tree_hash_ (ledger w) = root_hash (transaction_tree_ (ledger w)) (objects w);
  ho_accounts : account_tree_hash_ (ledger w) = root_hash (account_tree_ (ledger w)) (objects w);
  ho_hash : ledger_hash_ (ledger w) = header_digest (ledger w);
}.

(** Both trees are in the store, apart from each other, and hold the bank. *)
Record trees_ok Gt Ga (l : Ledger) s b : Prop := {
  to_transactions : tree_inv (root_ (transaction_tree_ l)) [] 0 Gt s;
  to_accounts : tree_inv (root_ (account_tree_ l)) [] 0 Ga s;
  to_apart : apart Gt Ga;
  to_transactions_abs : abs s Gt (leaves transaction_leaf (transactions b));
  to_accounts_abs : abs s Ga (leaves account_leaf (accounts b));
  to_wf : bank_wf b;
}.

Record ledger_state Gt Ga w b : Prop := {
  ls_trees : trees_ok Gt Ga (ledger w) (objects w) b;
  ls_header : header_ok w;
  ls_seq : is_u32 (ledger_sequence_ (ledger w));
}.

(** ** Stored objects *)

Lemma account_stored a :
  Account_wf a →
  Account_serializer a = Ok (stored_data (Account_serializer a)) ∧
  Account_unserializer (stored_data (Account_serializer a)) = Ok a.
Proof. intros (data & E & Hu & _)%Account_round. by rewrite E. Qed.

Lemma transaction_stored t :
  Transaction_wf t →
  Transaction_serializer t = Ok (stored_data (Transaction_serializer t)) ∧
  Transaction_unserializer (stored_data (Transaction_serializer t)) = Ok t.
Proof. intros (data & E & Hu & _)%Transaction_round. by rewrite E. Qed.

(** ** Root hashes *)

Lemma run_tree_get_hash t s :
  is_Some (heap s !! root_ t) → tree_get_hash t s = Ok (root_hash t s, s).
Proof.
  intros [n Hn]. unfold tree_get_hash, root_hash. rewrite (run_view s _ n get_hash Hn). by rewrite Hn.
Qed.

Lemma root_in_heap t G s : tree_inv (root_ t) [] 0 G s → is_Some (heap s !! root_ t).
Proof. intros Hinv. apply (ti_total _ _ _ _ _ Hinv _ _ (ti_root _ _ _ _ _ Hinv)). Qed.

Lemma root_hash_nd t G s :
  tree_inv (root_ t) [] 0 G s → Some (root_hash t s) = hash_ <$> nd s G [].
Proof.
  intros Hinv. rewrite (nd_Mem _ _ _ _ (ti_root _ _ _ _ _ Hinv)). unfold root_hash.
  by destruct (root_in_heap _ _ _ Hinv) as [n ->].
Qed.

Lemma root_hash_view t G G' s s' :
  tree_inv (root_ t) [] 0 G s → tree_inv (root_ t) [] 0 G' s' →
  view_eq (nd s' G') (nd s G) → root_hash t s' = root_hash t s.
Proof.
  intros Hinv Hinv' Hv. pose proof (root_hash_nd t G s Hinv) as E.
  pose proof (root_hash_nd t G' s' Hinv') as E'. specialize (Hv []).
  destruct (nd s G []) as [n|], (nd s' G' []) as [n'|]; cbn in *; try done.
  apply (inj Some), erase_eq in Hv as [Hv _]. congruence.
Qed.
End state.

(** ** Running the methods *)

Section running.
Context `{SHA512} `{Indeterminate} `{NaNs} {D S : Type} `{RocksDBLaws D} `{Sqlite S}.
Implicit Types (s : store_t D) (w : world D S) (G : gmap path place) (key : uint256) (b : bank).

Definition with_objects s w : world D S := mkWorld (ledger w) s (sqlite w).
Definition with_ledger (l : Ledger) w : world D S := mkWorld l (objects w) (sqlite w).

Lemma run_on_objects {A} (c : prog (store_t D) A) w a s :
  c (objects w) = Ok (a, s) → on_objects c w = Ok (a, with_objects s w).
Proof. unfold on_objects. by intros ->. Qed.

Lemma fail_on_objects {A} (c : prog (store_t D) A) w e :
  c (objects w) = Err e → on_objects (S := S) c w = Err e.
Proof. unfold on_objects. by intros ->. Qed.

(** The ledger after [update_ledger_hash]. *)
Definition seal (l : Ledger) : Ledger := with_ledger_hash (header_digest l) l.

Lemma run_add_uint32 a x w :
  lift (add_raw (uint32_raw a) 4 x) w = Ok (mkSerializer (data_ x ++ uint32_raw a), w).
Proof. apply lift_Ok, add_raw_full. unfold uint32_raw. by rewrite length_le_split. Qed.

Lemma run_update_ledger_hash w : update_ledger_hash w = Ok (tt, with_ledger (seal (ledger w)) w).
Proof.
  unfold update_ledger_hash. step (eq_refl : gets ledger w = Ok (ledger w, w)).
  do 3 step (run_add_uint32 _ _ w). unfold seal, header_digest.
  cbn [add256 data_ Serializer_empty app]. rewrite <-!app_assoc. done.
Qed.

Lemma run_update_account_tree_hash w :
  is_Some (heap (objects w) !! root_ (account_tree_ (ledger w))) →
  update_account_tree_hash w = Ok (tt, with_ledger (seal (with_account_tree_hash
    (root_hash (account_tree_ (ledger w)) (objects w)) (ledger w))) w).
Proof.
  intros Hr. unfold update_account_tree_hash, get_account_tree.
  step (eq_refl : gets (λ w, account_tree_ (ledger w)) w = Ok (account_tree_ (ledger w), w)).
  step (run_on_objects _ w _ _ (run_tree_get_hash _ _ Hr)).
  unfold set_ledger, modify, mbind, prog_bind. by rewrite run_update_ledger_hash.
Qed.

Lemma run_update_transaction_tree_hash w :
  is_Some (heap (objects w) !! root_ (transaction_tree_ (ledger w))) →
  update_transaction_tree_hash w = Ok (tt, with_ledger (seal (with_transaction_tree_hash
    (root_hash (transaction_tree_ (ledger w)) (objects w)) (ledger w))) w).
Proof.
  intros Hr. unfold update_transaction_tree_hash, get_transaction_tree.
  step (eq_refl : gets (λ w, transaction_tree_ (ledger w)) w = Ok (transaction_tree_ (ledger w), w)).
  step (run_on_objects _ w _ _ (run_tree_get_hash _ _ Hr)).
  unfold set_ledger, modify, mbind, prog_bind. by rewrite run_update_ledger_hash.
Qed.

(** What no operation on entries changes. *)
Record same_ledger w w' : Prop := {
  sl_seq : ledger_sequence_ (ledger w') = ledger_sequence_ (ledger w);
  sl_transaction_tree : transaction_tree_ (ledger w') = transaction_tree_ (ledger w);
  sl_account_tree : account_tree_ (ledger w') = account_tree_ (ledger w);
  sl_sqlite : sqlite w' = sqlite w;
}.
#[global] Instance same_ledger_preorder : PreOrder same_ledger.
Proof. split; [by constructor|]. intros w1 w2 w3 [] []. constructor; congruence. Qed.

(** The same trees, up to which nodes have been read into memory. *)
Record same_trees Gt Ga w Gt' Ga' w' : Prop := {
  st_ledger : ledger w' = ledger w;
  st_sqlite : sqlite w' = sqlite w;
  st_transactions : view_eq (nd (objects w') Gt') (nd (objects w) Gt);
  st_accounts : view_eq (nd (objects w') Ga') (nd (objects w) Ga);
}.

Lemma same_trees_trans Gt Ga w Gt1 Ga1 w1 Gt2 Ga2 w2 :
  same_trees Gt Ga w Gt1 Ga1 w1 → same_trees Gt1 Ga1 w1 Gt2 Ga2 w2 → same_trees Gt Ga w Gt2 Ga2 w2.
Proof.
  intros [L1 S1 T1 A1] [L2 S2 T2 A2]. constructor; [congruence..|by rewrite T2|by rewrite A2].
Qed.

Lemma nd_view_eq s s' G : (∀ p, nd s' G p = nd s G p) → view_eq (nd s' G) (nd s G).
Proof. intros E p. by rewrite E. Qed.

(** A change of the account tree keeps the transaction tree, and conversely. *)
Lemma accounts_changed Gt Ga Ga' l s s' b accs :
  trees_ok Gt Ga l s b → tree_inv (root_ (account_tree_ l)) [] 0 Ga' s' →
  step_frame Ga Ga' s s' → abs s' Ga' (leaves account_leaf accs) →
  bank_wf (mkBank accs (transactions b)) →
  trees_ok Gt Ga' l s' (mkBank accs (transactions b)) ∧ (∀ p, nd s' Gt p = nd s Gt p).
Proof.
  intros [Ht Ha Hap Hta _ _] Hinv Hfr Habs Hwf.
  destruct (other_tree _ _ _ _ _ _ _ Hinv Hfr Ht (apart_sym _ _ Hap)) as (Ht' & Hap' & Hnd).
  split; [|done]. constructor; try done; [by apply apart_sym|by eapply abs_nd].
Qed.

Lemma transactions_changed Gt Gt' Ga l s s' b txs :
  trees_ok Gt Ga l s b → tree_inv (root_ (transaction_tree_ l)) [] 0 Gt' s' →
  step_frame Gt Gt' s s' → abs s' Gt' (leaves transaction_leaf txs) →
  bank_wf (mkBank (accounts b) txs) →
  trees_ok Gt' Ga l s' (mkBank (accounts b) txs) ∧ (∀ p, nd s' Ga p = nd s Ga p).
Proof.
  intros [Ht Ha Hap _ Haa _] Hinv Hfr Habs Hwf.
  destruct (other_tree _ _ _ _ _ _ _ Hinv Hfr Ha Hap) as (Ha' & Hap' & Hnd).
  split; [|done]. constructor; try done. by eapply abs_nd.
Qed.

Lemma same_header Gt Ga w Gt' Ga' w' b :
  trees_ok Gt Ga (ledger w) (objects w) b → trees_ok Gt' Ga' (ledger w') (objects w') b →
  same_trees Gt Ga w Gt' Ga' w' → header_ok w → header_ok w'.
Proof.
  intros [Ht Ha _ _ _ _] [Ht' Ha' _ _ _ _] [El _ Vt Va] [Et Ea Eh]. rewrite El in *.
  constructor; rewrite ?El; [| |done].
  - rewrite Et. symmetry. by eapply root_hash_view.
  - rewrite Ea. symmetry. by eapply root_hash_view.
Qed.
End running.
