(* ===== verification/LedgerOps.v ===== *)
(** * The operations of a ledger on its bank

    Lookups leave the bank as it is; adding or updating an entry succeeds with its
    effect on the bank, or stops at an assertion because the key is taken or a digest
    coincides.  [add_transaction_entry] against what it does to the bank: the source is
    debited if its balance allows it, the destination is credited, the transaction is
    linked to the previous ones of both accounts and recorded under its hash. *)

From S2P Require Import Prelude BaseUint Double Serializer MerkleNode Database MerkleTree MerkleInv.
From S2P Require Import MerkleLoad MerkleMap MerkleAdd MerkleInsert MerkleOps MerkleSpec MerkleAbort Entries.
From S2P Require Import Ledger LedgerInv.

Section operations.
Context `{SHA512} `{Indeterminate} `{NaNs} {D S : Type} `{RocksDBLaws D} `{Sqlite S}.
Implicit Types (s : store_t D) (w : world D S) (G : gmap path place) (key : uint256) (b : bank).

Definition set_account key (a : Account) b : bank :=
  mkBank (<[key := a]> (accounts b)) (transactions b).
Definition set_transaction key (t : Transaction) b : bank :=
  mkBank (accounts b) (<[key := t]> (transactions b)).

Lemma bank_eta b : mkBank (accounts b) (transactions b) = b.
Proof. by destruct b. Qed.

(** ** Lookups *)

Lemma lookup_account key Gt Ga w b :
  wf256 key → ledger_state Gt Ga w b →
  ∃ Ga' w', ledger_get_account_entry key w = Ok (accounts b !! key, w') ∧
    ledger_state Gt Ga' w' b ∧ same_trees Gt Ga w Gt Ga' w'.
Proof.
  intros Hk [Htr Hho Hsq].
  destruct (get_entry_spec Account_unserializer (account_tree_ (ledger w)) key _ _ _ Hk (to_accounts _ _ _ _ _ Htr)
    (to_accounts_abs _ _ _ _ _ Htr)) as (s' & Ga' & Hrd & Ha' & Hrun).
  destruct (accounts_changed _ _ _ _ _ _ _ _ Htr (rd_inv _ _ _ _ _ Hrd) (rd_frame _ _ _ _ _ Hrd) Ha')
    as [Htr' Hnd]; [rewrite bank_eta; apply Htr|]. rewrite bank_eta in Htr'.
  assert (same_trees Gt Ga w Gt Ga' (with_objects s' w)) as Hst.
  { constructor; [done..|by apply nd_view_eq|]. apply same_view_eq, Hrd. }
  exists Ga', (with_objects s' w). split_and!; [|constructor; [done|by eapply same_header|done]|done].
  apply run_on_objects. unfold get_account_entry. rewrite Hrun, lookup_leaves.
  destruct (accounts b !! key) as [a|] eqn:E; [|done].
  cbn [fmap option_fmap option_map account_leaf leaf_data_ data_].
  apply (bw_accounts _ (to_wf _ _ _ _ _ Htr)) in E as [[_ ->]%account_stored _]. done.
Qed.

Lemma lookup_transaction key Gt Ga w b :
  wf256 key → ledger_state Gt Ga w b →
  ∃ Gt' w', ledger_get_transaction_entry key w = Ok (transactions b !! key, w') ∧
    ledger_state Gt' Ga w' b ∧ same_trees Gt Ga w Gt' Ga w'.
Proof.
  intros Hk [Htr Hho Hsq].
  destruct (get_entry_spec Transaction_unserializer (transaction_tree_ (ledger w)) key _ _ _ Hk (to_transactions _ _ _ _ _ Htr)
    (to_transactions_abs _ _ _ _ _ Htr)) as (s' & Gt' & Hrd & Ha' & Hrun).
  destruct (transactions_changed _ _ _ _ _ _ _ _ Htr (rd_inv _ _ _ _ _ Hrd) (rd_frame _ _ _ _ _ Hrd) Ha')
    as [Htr' Hnd]; [rewrite bank_eta; apply Htr|]. rewrite bank_eta in Htr'.
  assert (same_trees Gt Ga w Gt' Ga (with_objects s' w)) as Hst.
  { constructor; [done..| |by apply nd_view_eq]. apply same_view_eq, Hrd. }
  exists Gt', (with_objects s' w). split_and!; [|constructor; [done|by eapply same_header|done]|done].
  apply run_on_objects. unfold get_transaction_entry. rewrite Hrun, lookup_leaves.
  destruct (transactions b !! key) as [t|] eqn:E; [|done].
  cbn [fmap option_fmap option_map transaction_leaf leaf_data_ data_].
  apply (bw_transactions _ (to_wf _ _ _ _ _ Htr)) in E as [[_ ->]%transaction_stored _]. done.
Qed.

(** ** Changes *)

Lemma set_account_wf key a b :
  bank_wf b → Account_wf a → account_address_ a = key → bank_wf (set_account key a b).
Proof.
  intros [Hacc Htx] Ha Hk. constructor; cbn; [|apply Htx].
  intros k a'. rewrite lookup_insert. case_decide; [|apply Hacc]. intros [= <-]. by subst.
Qed.

Lemma set_transaction_wf t b :
  bank_wf b → Transaction_wf t → bank_wf (set_transaction (transaction_hash t) t b).
Proof.
  intros [Hacc Htx] Ht. constructor; cbn; [apply Hacc|].
  intros k t'. rewrite lookup_insert. case_decide; [|apply Htx]. intros [= <-]. by subst.
Qed.

(** The world once the account tree is changed and the header sealed. *)
Lemma accounts_sealed Gt Ga Ga' w s' b key a :
  ledger_state Gt Ga w b → tree_inv (root_ (account_tree_ (ledger w))) [] 0 Ga' s' →
  step_frame Ga Ga' (objects w) s' →
  abs s' Ga' (<[key := account_leaf key a]> (leaves account_leaf (accounts b))) →
  Account_wf a → account_address_ a = key →
  ∃ w', update_account_tree_hash (with_objects s' w) = Ok (tt, w') ∧
    ledger_state Gt Ga' w' (set_account key a b) ∧ same_ledger w w' ∧
    (∀ p, nd (objects w') Gt p = nd (objects w) Gt p).
Proof.
  intros [Htr Hho Hsq] Hinv Hfr Habs Hwf Had. rewrite <-leaves_insert in Habs.
  destruct (accounts_changed _ _ _ _ _ _ _ _ Htr Hinv Hfr Habs) as [Htr' Hnd];
    [by apply (set_account_wf key a b); [apply Htr|..]|].
  eexists. split; [by apply run_update_account_tree_hash, (root_in_heap _ Ga')|].
  split_and!; [|by constructor|done]. destruct Htr'. constructor; [by constructor| |done].
  destruct Hho as [Eh _ _]. constructor; [|done..]. cbn. rewrite Eh. symmetry.
  apply (root_hash_view (transaction_tree_ (ledger w)) Gt Gt); [apply Htr|done|by apply nd_view_eq].
Qed.

Lemma store_account a Gt Ga w b :
  let key := account_address_ a in
  let item := account_leaf key a in
  ledger_state Gt Ga w b → Account_wf a → is_Some (accounts b !! key) →
  update_account_tree_entry item w = Err AssertFailed ∧
    update_rehash (nd (objects w) Ga) item false = false ∨
  ∃ Ga' w', update_account_tree_entry item w = Ok (true, w') ∧
    ledger_state Gt Ga' w' (set_account key a b) ∧ same_ledger w w' ∧
    (∀ p, nd (objects w') Gt p = nd (objects w) Gt p).
Proof.
  intros key item Hls Hwf Hpres. pose proof (ls_trees _ _ _ _ Hls) as Htr.
  unfold update_account_tree_entry, get_account_tree.
  step (eq_refl : gets (λ w, account_tree_ (ledger w)) w = Ok (account_tree_ (ledger w), w)).
  destruct (update_cases (account_tree_ (ledger w)) item false Ga (objects w) (leaves account_leaf (accounts b)))
    as [[Hrun Hwhy]|[_ (s' & Ga' & Hrun & Hinv & Habs & Hfr)]]; [apply Hwf|apply Htr..| |].
  - left. split; [by eapply bind_Err, fail_on_objects|]. destruct Hwhy as [Hn|]; [|done].
    cbn in Hn. rewrite lookup_leaves in Hn. destruct Hpres as [? E]. fold key in Hn. by rewrite E in Hn.
  - right. destruct (accounts_sealed Gt Ga Ga' w s' b key a) as (w' & Hrun' & Hls' & Hsl & Hnd); try done.
    exists Ga', w'. split_and!; [|done..]. step (run_on_objects _ w _ _ Hrun). by step Hrun'.
Qed.

Lemma create_account_entry a Gt Ga w b :
  let key := account_address_ a in
  ledger_state Gt Ga w b → Account_wf a →
  add_account_tree_entry key a w = Err AssertFailed ∧
    (is_Some (accounts b !! key) ∨ add_rehash (nd (objects w) Ga) key = false) ∨
  accounts b !! key = None ∧
  ∃ Ga' w', add_account_tree_entry key a w = Ok (true, w') ∧
    ledger_state Gt Ga' w' (set_account key a b) ∧ same_ledger w w'.
Proof.
  intros key Hls Hwf. pose proof (ls_trees _ _ _ _ Hls) as Htr.
  pose proof (account_stored a Hwf) as [Hser _]. unfold add_account_tree_entry, get_account_tree.
  step (lift_Ok _ w _ Hser).
  step (eq_refl : gets (λ w, account_tree_ (ledger w)) w = Ok (account_tree_ (ledger w), w)).
  rewrite Serializer_of_string_data. fold (account_leaf key a).
  destruct (add_cases (account_tree_ (ledger w)) (account_leaf key a) false Ga (objects w) (leaves account_leaf (accounts b)))
    as [[Hrun Hwhy]|[Hn (s' & Ga' & Hrun & Hinv & Habs & Hfr)]]; [apply Hwf|apply Htr..| |].
  - left. split; [by eapply bind_Err, fail_on_objects|]. destruct Hwhy as [Hn|]; [left|by right].
    cbn in Hn. rewrite lookup_leaves in Hn. by apply fmap_is_Some in Hn.
  - right. cbn in Hn. rewrite lookup_leaves, fmap_None in Hn. split; [done|].
    destruct (accounts_sealed Gt Ga Ga' w s' b key a) as (w' & Hrun' & Hls' & Hsl & Hnd); try done.
    exists Ga', w'. split_and!; [|done..]. step (run_on_objects _ w _ _ Hrun). by step Hrun'.
Qed.

(** Adding a transaction to its tree, and the hash of the tree. *)
Lemma store_transaction t Gt Ga w b :
  let key := transaction_hash t in
  let item := transaction_leaf key t in
  let c := (on_objects (add_item (transaction_tree_ (ledger w)) item true);; update_transaction_tree_hash) in
  ledger_state Gt Ga w b → Transaction_wf t →
  c w = Err AssertFailed ∧
    (is_Some (transactions b !! key) ∨ add_rehash (nd (objects w) Gt) key = false) ∨
  transactions b !! key = None ∧
  ∃ Gt' w', c w = Ok (tt, w') ∧
    ledger_state Gt' Ga w' (set_transaction key t b) ∧ same_ledger w w' ∧
    (∀ p, nd (objects w') Ga p = nd (objects w) Ga p).
Proof.
  intros key item c Hls Hwf. pose proof Hls as [Htr Hho Hsq]. unfold c.
  destruct (add_cases (transaction_tree_ (ledger w)) item true Gt (objects w) (leaves transaction_leaf (transactions b)))
    as [[Hrun Hwhy]|[Hn (s' & Gt' & Hrun & Hinv & Habs & Hfr)]]; [apply length_sha512_half|apply Htr..| |].
  - left. split; [by eapply bind_Err, fail_on_objects|]. destruct Hwhy as [Hn|]; [left|by right].
    cbn in Hn. rewrite lookup_leaves in Hn. by apply fmap_is_Some in Hn.
  - right. cbn in Hn. rewrite lookup_leaves, fmap_None in Hn. split; [done|].
    change (abs s' Gt' (<[key := transaction_leaf key t]> (leaves transaction_leaf (transactions b)))) in Habs.
    rewrite <-leaves_insert in Habs.
    destruct (transactions_changed _ _ _ _ _ _ _ _ Htr Hinv Hfr Habs) as [Htr' Hnd];
      [by apply (set_transaction_wf t b); [apply Htr|]|].
    eexists Gt', _. step (run_on_objects _ w _ _ Hrun).
    split; [by apply run_update_transaction_tree_hash, (root_in_heap _ Gt')|].
    split_and!; [|by constructor|done]. destruct Htr'. constructor; [by constructor| |done].
    destruct Hho as [_ Eh _]. constructor; [done| |done]. cbn. rewrite Eh. symmetry.
    apply (root_hash_view (account_tree_ (ledger w)) Ga Ga); [apply Htr|done|by apply nd_view_eq].
Qed.
(** The account tree's hash is already in the header. *)
Lemma update_account_tree_hash_again Gt Ga w b :
  ledger_state Gt Ga w b → update_account_tree_hash w = Ok (tt, w).
Proof.
  intros [Htr [Et Ea Eh] _]. rewrite run_update_account_tree_hash by apply (root_in_heap _ Ga), Htr.
  do 2 f_equal. rewrite <-Ea. unfold seal. change (header_digest _) with (header_digest (ledger w)).
  rewrite <-Eh. by destruct w as [[] ? ?].
Qed.
End operations.

(** * Payments *)

Section payment.
Context `{SHA512} `{Indeterminate} `{NaNs} {D S : Type} `{RocksDBLaws D} `{Sqlite S}.
Implicit Types (s : store_t D) (w : world D S) (G : gmap path place) (key : uint256) (b : bank).
Implicit Types (tx : Transaction) (a sa da : Account).

(** ** The abstract payment *)

(** The transaction that follows [sa]'s and [da]'s previous ones. *)
Definition link_transaction sa da tx : Transaction :=
  mkTransaction (source_address_ tx) (destination_address_ tx) (payment_amount_ tx)
    (previous_ledger_seq_ sa) (previous_tx_hash_ sa) (previous_ledger_seq_ da) (previous_tx_hash_ da).

(** The account whose last transaction is [h] in ledger [seq]. *)
Definition stamp (seq : Z) (h : uint256) a : Account :=
  mkAccount (account_address_ a) (account_balance_ a) seq h.

Inductive pay_result :=
| Refused
| Paid (tx : Transaction) (source destination : Account).

(** [None]: one of the accounts does not exist where the code needs it. *)
Definition pay (seq : Z) tx b : option pay_result :=
  sa ← accounts b !! source_address_ tx;
  let '(ok, sa) := add_balance (dopp (payment_amount_ tx)) sa in
  if negb ok then Some Refused
  else
    da ← accounts b !! destination_address_ tx;
    let da := (add_balance (payment_amount_ tx) da).2 in
    let tx := link_transaction sa da tx in
    let h := transaction_hash tx in
    Some (Paid tx (stamp seq h sa) (stamp seq h da)).

(** The bank after a payment; the destination is written last. *)
Definition settle tx sa da b : bank :=
  set_account (destination_address_ tx) da
    (set_account (source_address_ tx) sa (set_transaction (transaction_hash tx) tx b)).

(** Why a payment stops at an assertion: the transaction is recorded already, or the
    digest of a node on a path that changes is the one it had. *)
Inductive payment_stuck Gt Ga w b tx sa da : Prop :=
| stuck_recorded : is_Some (transactions b !! transaction_hash tx) → payment_stuck Gt Ga w b tx sa da
| stuck_transaction :
    add_rehash (nd (objects w) Gt) (transaction_hash tx) = false → payment_stuck Gt Ga w b tx sa da
| stuck_source :
    update_rehash (nd (objects w) Ga) (account_leaf (source_address_ tx) sa) false = false →
    payment_stuck Gt Ga w b tx sa da
| stuck_destination s G :
    tree_inv (root_ (account_tree_ (ledger w))) [] 0 G s →
    abs s G (leaves account_leaf (<[source_address_ tx := sa]> (accounts b))) →
    update_rehash (nd s G) (account_leaf (destination_address_ tx) da) false = false →
    payment_stuck Gt Ga w b tx sa da.

Lemma stamp_wf seq h a : is_u32 seq → wf256 h → Account_wf a → Account_wf (stamp seq h a).
Proof. intros ? ? []. by constructor. Qed.

(** The last part of the payment: both accounts are written. *)
Lemma store_both sa da Gt Ga w b :
  ledger_state Gt Ga w b → Account_wf sa → Account_wf da →
  is_Some (accounts b !! account_address_ sa) → is_Some (accounts b !! account_address_ da) →
  let c := (update_account_tree_entry (account_leaf (account_address_ sa) sa);;
            update_account_tree_entry (account_leaf (account_address_ da) da);;
            update_account_tree_hash) in
  (∃ Ga' w', c w = Ok (tt, w') ∧
     ledger_state Gt Ga' w' (set_account (account_address_ da) da (set_account (account_address_ sa) sa b)) ∧
     same_ledger w w') ∨
  c w = Err AssertFailed ∧
  (update_rehash (nd (objects w) Ga) (account_leaf (account_address_ sa) sa) false = false ∨
   ∃ s G, tree_inv (root_ (account_tree_ (ledger w))) [] 0 G s ∧
     abs s G (leaves account_leaf (<[account_address_ sa := sa]> (accounts b))) ∧
     update_rehash (nd s G) (account_leaf (account_address_ da) da) false = false).
Proof.
  intros Hls Hsa Hda Hps Hpd c. unfold c. clear c.
  destruct (store_account sa Gt Ga w b Hls Hsa Hps) as [[Hrun Hre]|(Ga1 & w1 & Hrun & Hls1 & Hsl1 & _)].
  { right. split; [by apply bind_Err|by left]. }
  step Hrun.
  destruct (store_account da Gt Ga1 w1 _ Hls1 Hda) as [[Hrun2 Hre]|(Ga2 & w2 & Hrun2 & Hls2 & Hsl2 & _)].
  { cbn. rewrite lookup_insert. by case_decide; [eauto|]. }
  - right. split; [by apply bind_Err|]. right. exists (objects w1), Ga1.
    destruct Hls1 as [[_ Hinv _ _ Habs _] _ _]. rewrite (sl_account_tree _ _ Hsl1) in Hinv. done.
  - left. exists Ga2, w2. step Hrun2. rewrite (update_account_tree_hash_again _ _ _ _ Hls2).
    split_and!; [done..|by etrans].
Qed.

(** The transaction with the links set one by one. *)
Lemma link_steps sa da tx :
  set_destination_previous_tx_hash (get_previous_tx_hash da)
    (set_destination_previous_ledger_seq (get_previous_ledger_seq da)
       (set_source_previous_tx_hash (get_previous_tx_hash sa)
          (set_source_previous_ledger_seq (get_previous_ledger_seq sa) tx))) =
  link_transaction sa da tx.
Proof. by destruct tx. Qed.

Lemma link_transaction_wf sa da tx :
  wf256 (source_address_ tx) → wf256 (destination_address_ tx) → is_u64 (payment_amount_ tx) →
  Account_wf sa → Account_wf da → Transaction_wf (link_transaction sa da tx).
Proof. intros ? ? ? [] []. by constructor. Qed.

(** The second half of a payment, once both accounts are found and the source can pay. *)
Lemma payment_recorded sa da tx Gt Ga w b :
  ledger_state Gt Ga w b → Transaction_wf tx → Account_wf sa → Account_wf da →
  account_address_ sa = source_address_ tx → account_address_ da = destination_address_ tx →
  is_Some (accounts b !! source_address_ tx) → is_Some (accounts b !! destination_address_ tx) →
  let h := transaction_hash tx in
  let seq := ledger_sequence_ (ledger w) in
  let sa' := stamp seq h sa in
  let da' := stamp seq h da in
  let c :=
    (on_objects (add_item (transaction_tree_ (ledger w)) (transaction_leaf h tx) true);;
     update_transaction_tree_hash;;
     seq ← gets (λ w, ledger_sequence_ (ledger w));
     let sa := set_previous_tx_hash h (set_previous_ledger_seq seq sa) in
     let da := set_previous_tx_hash h (set_previous_ledger_seq seq da) in
     ss ← lift (Account_serializer sa);
     ds ← lift (Account_serializer da);
     let s_item := mkLeaf (get_account_address sa) (Serializer_of_string ss) in
     let d_item := mkLeaf (get_account_address da) (Serializer_of_string ds) in
     update_account_tree_entry s_item;; update_account_tree_entry d_item;; update_account_tree_hash;;
     mret (0%Z, tx)) in
  transactions b !! h = None ∧
    (∃ Gt' Ga' w', c w = Ok ((0%Z, tx), w') ∧ ledger_state Gt' Ga' w' (settle tx sa' da' b) ∧ same_ledger w w') ∨
  c w = Err AssertFailed ∧ payment_stuck Gt Ga w b tx sa' da'.
Proof.
  intros Hls Htx Hsa Hda Es Ed Hps Hpd h seq sa' da' c. unfold c. clear c.
  rewrite <-bind_assoc.
  destruct (store_transaction tx Gt Ga w b Hls Htx) as [[Hrun Hwhy]|[Hn (Gt1 & w1 & Hrun & Hls1 & Hsl1 & Hnd)]].
  { right. split; [by apply bind_Err|]. destruct Hwhy; [by apply stuck_recorded|by apply stuck_transaction]. }
  step Hrun.
  step (eq_refl : gets (λ w, ledger_sequence_ (ledger w)) w1 = Ok (ledger_sequence_ (ledger w1), w1)).
  rewrite (sl_seq _ _ Hsl1). fold seq.
  change (set_previous_tx_hash h (set_previous_ledger_seq seq sa)) with sa'.
  change (set_previous_tx_hash h (set_previous_ledger_seq seq da)) with da'.
  assert (is_u32 seq) as Hseq by apply Hls.
  assert (Account_wf sa') as Hsa' by (by apply stamp_wf; [|apply length_sha512_half|]).
  assert (Account_wf da') as Hda' by (by apply stamp_wf; [|apply length_sha512_half|]).
  step (lift_Ok _ w1 _ (proj1 (account_stored sa' Hsa'))).
  step (lift_Ok _ w1 _ (proj1 (account_stored da' Hda'))).
  rewrite !Serializer_of_string_data, bind_seq.
  destruct (store_both sa' da' Gt1 Ga w1 _ Hls1 Hsa' Hda') as [(Ga2 & w2 & Hrun2 & Hls2 & Hsl2)|[Hrun2 Hwhy]].
  { cbn. by rewrite Es. }
  { cbn. by rewrite Ed. }
  - left. split; [done|]. exists Gt1, Ga2, w2. split_and!; [by step Hrun2| |by etrans].
    revert Hls2. unfold settle. cbn [sa' da' stamp account_address_]. by rewrite Es, Ed.
  - right. split; [by apply bind_Err|]. revert Hwhy. cbn [sa' da' stamp account_address_]. rewrite Es, Ed.
    intros [Hre|(s & G & Hinv & Habs & Hre)].
    + apply stuck_source. by rewrite (nd_view_eq _ _ _ Hnd) in Hre.
    + rewrite (sl_account_tree _ _ Hsl1) in Hinv. by eapply stuck_destination.
Qed.

Lemma payment_stuck_view Gt Ga Gt' Ga' w w' b tx sa da :
  same_trees Gt Ga w Gt' Ga' w' → payment_stuck Gt' Ga' w' b tx sa da → payment_stuck Gt Ga w b tx sa da.
Proof.
  intros [El _ Vt Va] [?|Hre|Hre|s G Hinv Habs Hre].
  - by apply stuck_recorded.
  - apply stuck_transaction. by rewrite <-Vt.
  - apply stuck_source. by rewrite <-Va.
  - rewrite El in Hinv. by eapply stuck_destination.
Qed.

Lemma add_transaction_pays tx Gt Ga w b :
  ledger_state Gt Ga w b → wf256 (source_address_ tx) → wf256 (destination_address_ tx) →
  is_u64 (payment_amount_ tx) →
  match pay (ledger_sequence_ (ledger w)) tx b with
  | None => add_transaction_entry tx w = Err NullDeref
  | Some Refused => ∃ Ga' w', add_transaction_entry tx w = Ok ((1%Z, tx), w') ∧
      ledger_state Gt Ga' w' b ∧ same_trees Gt Ga w Gt Ga' w'
  | Some (Paid tx' sa da) =>
      transactions b !! transaction_hash tx' = None ∧
      (∃ Gt' Ga' w', add_transaction_entry tx w = Ok ((0%Z, tx'), w') ∧
         ledger_state Gt' Ga' w' (settle tx' sa da b) ∧ same_ledger w w') ∨
      add_transaction_entry tx w = Err AssertFailed ∧ payment_stuck Gt Ga w b tx' sa da
  end.
Proof.
  intros Hls Hws Hwd Hu.
  destruct (lookup_account (source_address_ tx) Gt Ga w b Hws Hls) as (Ga1 & w1 & Hrun1 & Hls1 & Hst1).
  destruct (lookup_account (destination_address_ tx) Gt Ga1 w1 b Hwd Hls1) as (Ga2 & w2 & Hrun2 & Hls2 & Hst2).
  pose proof (same_trees_trans _ _ _ _ _ _ _ _ _ Hst1 Hst2) as Hst.
  pose proof (to_wf _ _ _ _ _ (ls_trees _ _ _ _ Hls)) as Hwf.
  unfold add_transaction_entry, get_source_address, get_destination_address, get_payment_amount.
  step Hrun1. step Hrun2. unfold pay, deref.
  destruct (accounts b !! source_address_ tx) as [sa|] eqn:Es; [|done]. cbn [mbind option_bind].
  step (lift_Ok (of_option NullDeref (Some sa)) w2 sa eq_refl).
  destruct (bw_accounts _ Hwf _ _ Es) as [Hsa Eas].
  pose proof (add_balance_wf (dopp (payment_amount_ tx)) sa Hsa) as Hsa1.
  pose proof (add_balance_address (dopp (payment_amount_ tx)) sa) as Eas1.
  destruct (add_balance (dopp (payment_amount_ tx)) sa) as [ok sa1]. cbn [snd] in Hsa1, Eas1.
  destruct ok; cbn [negb]; [|by exists Ga2, w2].
  destruct (accounts b !! destination_address_ tx) as [da|] eqn:Ed; [|done]. cbn [mbind option_bind].
  step (lift_Ok (of_option NullDeref (Some da)) w2 da eq_refl).
  destruct (bw_accounts _ Hwf _ _ Ed) as [Hda Ead].
  pose proof (add_balance_wf (payment_amount_ tx) da Hda) as Hda1.
  pose proof (add_balance_address (payment_amount_ tx) da) as Ead1.
  set (da1 := (add_balance (payment_amount_ tx) da).2) in *. rewrite link_steps.
  pose proof (link_transaction_wf sa1 da1 tx Hws Hwd Hu Hsa1 Hda1) as Htx.
  step (lift_Ok _ w2 _ (proj1 (transaction_stored _ Htx))). rewrite Serializer_of_string_data.
  fold (transaction_hash (link_transaction sa1 da1 tx)).
  unfold get_transaction_tree.
  step (eq_refl : gets (λ w, transaction_tree_ (ledger w)) w2 = Ok (transaction_tree_ (ledger w2), w2)).
  destruct (payment_recorded sa1 da1 _ Gt Ga2 w2 b Hls2 Htx Hsa1 Hda1)
    as [(Hnew & Gt' & Ga' & w' & Hrun & Hls' & Hsl)|[Hrun Hstuck]]; [cbn; congruence..|cbn; by eauto|cbn; by eauto| |].
  - left. split; [done|]. exists Gt', Ga', w'. rewrite (st_ledger _ _ _ _ _ _ Hst) in *.
    split_and!; [exact Hrun|exact Hls'|]. destruct Hst as [El Eq _ _], Hsl as [? ? ? ?].
    constructor; congruence.
  - right. rewrite (st_ledger _ _ _ _ _ _ Hst) in *. split; [exact Hrun|].
    by eapply payment_stuck_view.
Qed.
End payment.
