(* ===== verification/Interface.v ===== *)
(** * The interface of the node

    Models [src/src/p2p/interface.cpp]: what a client of the node can ask of the ledger
    [last_ledger].  Names are hashed to addresses.  The loop of
    [get_transaction_history] follows the links of the transactions and is given fuel;
    [history_correct] shows how much is enough. *)

From S2P Require Import Prelude BaseUint Double Serializer MerkleNode Database MerkleTree MerkleInv.
From S2P Require Import MerkleLoad MerkleMap MerkleAdd.
From S2P Require Import MerkleInsert MerkleOps MerkleSpec MerkleAbort Entries Ledger LedgerInv LedgerOps.

Section Interface.
Context `{SHA512} `{Indeterminate} `{NaNs} {D Q : Type} `{RocksDB D} `{Sqlite Q}.
Abbreviation lcmd := (prog (world D Q)).

Definition string_address_to_uint256 (str_addr : bytes) : uint256 :=
  get_sha512_half (Serializer_of_string str_addr).

(** [memory]: what the members that the constructor does not set happen to hold. *)
Definition create_transaction (memory : Transaction) (source_addr det_addr : bytes) (amount : double) : lcmd Z :=
  let source := get_sha512_half (Serializer_of_string source_addr) in
  let det := get_sha512_half (Serializer_of_string det_addr) in
  r ← add_transaction_entry (Transaction_new memory source det amount);
  mret r.1.

(** The balance of a new account: the double 1000. *)
Definition initial_balance : double := 0x408f400000000000.

Definition create_account (acc_pub : bytes) : lcmd Z :=
  let hash := string_address_to_uint256 acc_pub in
  let p_tx := uint256_zero in
  let acc := Account_new hash initial_balance 0 p_tx in
  add_account_tree_entry hash acc;;
  mret 0%Z.

Definition get_balance (acc_pub : bytes) : lcmd double :=
  let hash := string_address_to_uint256 acc_pub in
  acc ← ledger_get_account_entry hash;
  acc ← deref acc;
  mret (get_account_balance acc).

Fixpoint history_loop (fuel : nat) (hash : uint256) (tx_seq : Z) (tx_hash : uint256)
    (res : list Transaction) : lcmd (list Transaction) :=
  if Z.eqb tx_seq 0 then mret res
  else
    match fuel with
    | O => fail OutOfFuel
    | S fuel =>
        tx ← ledger_get_transaction_entry tx_hash;
        tx ← deref tx;
        let res := res ++ [tx] in
        if base_uint_eqb uint256_bits hash (get_source_address tx) then
          history_loop fuel hash (get_source_previous_ledger_seq tx) (get_source_previous_tx_hash tx) res
        else
          history_loop fuel hash (get_destination_previous_ledger_seq tx)
            (get_destination_previous_tx_hash tx) res
    end.
Definition get_transaction_history (fuel : nat) (acc_pub : bytes) : lcmd (list Transaction) :=
  let hash := string_address_to_uint256 acc_pub in
  acc ← ledger_get_account_entry hash;
  acc ← deref acc;
  history_loop fuel hash (get_previous_ledger_seq acc) (get_previous_tx_hash acc) [].
End Interface.

(** ** Histories *)

Section history.
Context `{SHA512} `{Indeterminate} `{NaNs} {D Q : Type} `{RocksDBLaws D} `{Sqlite Q}.
Implicit Types (s : store_t D) (w : world D Q) (G : gmap path place) (key : uint256) (b : bank).
Implicit Types (t tx : Transaction) (a sa da : Account) (log l : list Transaction).

(** The transaction before [t] on the side of [key]. *)
Definition previous_of key t : Z * uint256 :=
  if decide (key = source_address_ t)
  then (source_previous_ledger_seq_ t, source_previous_tx_hash_ t)
  else (destination_previous_ledger_seq_ t, destination_previous_tx_hash_ t).

(** The links from [(seq, h)] lead through the transactions [l]. *)
Inductive chain b key : Z * uint256 → list Transaction → Prop :=
| chain_end h : chain b key (0%Z, h) []
| chain_next seq h t l :
    seq ≠ 0%Z → transactions b !! h = Some t → chain b key (previous_of key t) l →
    chain b key (seq, h) (t :: l).

Definition involves key t : Prop := source_address_ t = key ∨ destination_address_ t = key.
#[global] Instance involves_dec key t : Decision (involves key t).
Proof. unfold involves. apply _. Defined.

Definition last_of a : Z * uint256 := (previous_ledger_seq_ a, previous_tx_hash_ a).

(** [log], newest first, is what the bank has recorded: the links of every account lead
    through the transactions of the log it takes part in. *)
Record records b log : Prop := {
  rc_chain key a : accounts b !! key = Some a → chain b key (last_of a) (filter (involves key) log);
  rc_known t : t ∈ log → is_Some (accounts b !! source_address_ t) ∧ is_Some (accounts b !! destination_address_ t);
}.

(** Recording a transaction under a new hash keeps the chains. *)
Lemma chain_record b key h t x l :
  transactions b !! h = None → chain b key x l → chain (set_transaction h t b) key x l.
Proof.
  intros Hn. induction 1 as [|seq h' t' l Hs Ht _ IH]; [constructor|].
  apply chain_next; [done| |done]. cbn. rewrite lookup_insert_ne; [done|]. intros ->. congruence.
Qed.

Lemma chain_accounts b b' key x l : transactions b' = transactions b → chain b key x l → chain b' key x l.
Proof. intros E. induction 1; constructor; try done. by rewrite E. Qed.

Lemma records_new_account b log a :
  records b log → accounts b !! account_address_ a = None → previous_ledger_seq_ a = 0%Z →
  records (set_account (account_address_ a) a b) log.
Proof.
  intros [Hc Hk] Hn Hz. constructor.
  - intros key a'. cbn. rewrite lookup_insert. case_decide as E.
    + intros [= <-]. subst key. unfold last_of. rewrite Hz.
      rewrite filter_none; [constructor|]. intros t Ht [Et|Et];
        destruct (Hk t Ht) as [[? E1] [? E2]]; congruence.
    + intros Ha. by apply (chain_accounts b), Hc.
  - intros t [Hs Hd]%Hk. cbn. rewrite !lookup_insert. split; case_decide; eauto.
Qed.

Lemma Paid_inj tx sa da tx' sa' da' :
  Some (Paid tx sa da) = Some (Paid tx' sa' da') → tx' = tx ∧ sa' = sa ∧ da' = da.
Proof. by intros [= -> -> ->]. Qed.

(** What a payment consists of. *)
Lemma pay_Paid seq tx b tx' sa da :
  pay seq tx b = Some (Paid tx' sa da) →
  ∃ sa0 da0, accounts b !! source_address_ tx = Some sa0 ∧ accounts b !! destination_address_ tx = Some da0 ∧
    let sa1 := (add_balance (dopp (payment_amount_ tx)) sa0).2 in
    let da1 := (add_balance (payment_amount_ tx) da0).2 in
    (add_balance (dopp (payment_amount_ tx)) sa0).1 = true ∧
    tx' = link_transaction sa1 da1 tx ∧
    sa = stamp seq (transaction_hash tx') sa1 ∧ da = stamp seq (transaction_hash tx') da1.
Proof.
  unfold pay. destruct (accounts b !! source_address_ tx) as [sa0|]; [|done]. cbn [mbind option_bind].
  destruct (add_balance (dopp _) sa0) as [[] sa1] eqn:Es; cbn [negb]; [|done].
  destruct (accounts b !! destination_address_ tx) as [da0|]; [|done]. cbn [mbind option_bind].
  intros (-> & -> & ->)%Paid_inj. exists sa0, da0. by rewrite Es.
Qed.

Lemma add_balance_last amount a : last_of (add_balance amount a).2 = last_of a.
Proof. unfold add_balance. by case_match. Qed.

Lemma records_settle seq tx b log tx' sa da :
  records b log → pay seq tx b = Some (Paid tx' sa da) → seq ≠ 0%Z →
  transactions b !! transaction_hash tx' = None → records (settle tx' sa da b) (tx' :: log).
Proof.
  intros [Hc Hk] (sa0 & da0 & Es & Ed & _ & Etx & Esa & Eda)%pay_Paid Hseq Hn. cbn zeta in *.
  set (h := transaction_hash tx') in *.
  assert (source_address_ tx' = source_address_ tx ∧ destination_address_ tx' = destination_address_ tx) as [E1 E2]
    by (by rewrite Etx).
  assert (∀ key x l, chain b key x l → chain (settle tx' sa da b) key x l) as Hmono.
  { intros key x l Hch. eapply chain_accounts; [|by apply (chain_record b key h tx')]. done. }
  assert (∀ key a, involves key tx' → last_of a = (seq, h) →
            previous_of key tx' = last_of (if decide (key = source_address_ tx) then sa0 else da0) →
            accounts b !! key = Some (if decide (key = source_address_ tx) then sa0 else da0) →
            chain (settle tx' sa da b) key (last_of a) (filter (involves key) (tx' :: log))) as Hnew.
  { intros key a Hi Ea Ep Ek. rewrite Ea, filter_cons_True by done.
    apply chain_next; [done|apply lookup_insert_eq|]. rewrite Ep. by apply Hmono, Hc. }
  constructor.
  - intros key a. cbn [accounts settle set_account set_transaction]. rewrite E1, E2, !lookup_insert. unfold involves in Hnew.
    assert (previous_of key tx' = if decide (key = source_address_ tx) then last_of sa0 else last_of da0) as Hp.
    { unfold previous_of. rewrite E1, Etx. cbn. unfold last_of.
      pose proof (add_balance_last (dopp (payment_amount_ tx)) sa0) as El1.
      pose proof (add_balance_last (payment_amount_ tx) da0) as El2.
      unfold last_of in El1, El2. by case_decide. }
    destruct (decide (destination_address_ tx = key)) as [<-|Hd].
    + intros [= <-]. apply Hnew; [by right|by rewrite Eda| |]; rewrite ?Hp; case_decide as E; try done.
      by rewrite E.
    + destruct (decide (source_address_ tx = key)) as [<-|Hs].
      * intros [= <-]. apply Hnew; [by left|by rewrite Esa| |]; rewrite ?Hp; by rewrite !decide_True by done.
      * intros Ha. rewrite filter_cons_False by (unfold involves; rewrite E1, E2; tauto). by apply Hmono, Hc.
  - intros t [->|Ht]%elem_of_cons; cbn; rewrite E1, E2, !lookup_insert.
    + split; repeat case_decide; eauto; congruence.
    + destruct (Hk t Ht) as [? ?]. split; repeat case_decide; eauto.
Qed.

(** ** Following the links *)

Lemma history_loop_spec key fuel Ga b : wf256 key → ∀ l seq h res Gt w,
  ledger_state Gt Ga w b → chain b key (seq, h) l → length l ≤ fuel →
  ∃ Gt' w', history_loop fuel key seq h res w = Ok (res ++ l, w') ∧
    ledger_state Gt' Ga w' b ∧ same_trees Gt Ga w Gt' Ga w'.
Proof.
  intros Hk. induction fuel as [|fuel IH]; intros l seq h res Gt w Hls Hch Hf.
  - inversion Hch; subst; [|cbn in Hf; lia]. exists Gt, w. rewrite app_nil_r. by split_and!.
  - inversion Hch as [|? ? t l' Hs Ht Hch']; subst; cbn [history_loop].
    { exists Gt, w. rewrite app_nil_r. by split_and!. }
    rewrite (proj2 (Z.eqb_neq _ _) Hs).
    destruct (bw_transactions _ (to_wf _ _ _ _ _ (ls_trees _ _ _ _ Hls)) _ _ Ht) as [Hwt Hh].
    assert (wf256 h) as Hwh by (rewrite <-Hh; apply length_sha512_half).
    destruct (lookup_transaction h Gt Ga w b Hwh Hls) as (Gt1 & w1 & Hrun & Hls1 & Hst1).
    rewrite Ht in Hrun. step Hrun. unfold deref. step (lift_Ok (of_option NullDeref (Some t)) w1 t eq_refl).
    unfold get_source_address. rewrite base_uint_eqb_decide by (done || apply Hwt).
    destruct (previous_of key t) as [seq' h'] eqn:Ep.
    destruct (IH l' seq' h' (res ++ [t]) Gt1 w1 Hls1 Hch' ltac:(cbn in Hf; lia)) as (Gt2 & w2 & Hrun2 & Hls2 & Hst2).
    exists Gt2, w2. split_and!; [|done|by eapply same_trees_trans].
    rewrite <-app_assoc in Hrun2. unfold previous_of in Ep. case_bool_decide; case_decide; try done; by simplify_eq.
Qed.

(** The history of an account is the list of the transactions it takes part in. *)
Lemma get_history fuel name Gt Ga w b log a :
  let key := string_address_to_uint256 name in
  ledger_state Gt Ga w b → records b log → accounts b !! key = Some a →
  length (filter (involves key) log) ≤ fuel →
  ∃ Gt' Ga' w', get_transaction_history fuel name w = Ok (filter (involves key) log, w') ∧
    ledger_state Gt' Ga' w' b ∧ same_trees Gt Ga w Gt' Ga' w'.
Proof.
  intros key Hls Hrc Ha Hf. unfold get_transaction_history. fold key.
  assert (wf256 key) as Hk by apply length_sha512_half.
  destruct (lookup_account key Gt Ga w b Hk Hls) as (Ga1 & w1 & Hrun & Hls1 & Hst1).
  rewrite Ha in Hrun. step Hrun. unfold deref. step (lift_Ok (of_option NullDeref (Some a)) w1 a eq_refl).
  destruct (history_loop_spec key fuel Ga1 b Hk _ _ _ [] Gt w1 Hls1 (rc_chain _ _ Hrc _ _ Ha) Hf)
    as (Gt2 & w2 & Hrun2 & Hls2 & Hst2).
  exists Gt2, Ga1, w2. split_and!; [done..|by eapply same_trees_trans].
Qed.
End history.
