(* ===== verification/Node.v ===== *)
(** * A node at work

    Runs of the interface from an empty ledger.  [bank_step] is what one request does to
    the bank and to the log of payments; every run of the code follows it, and what the
    steps preserve holds of every ledger a node can reach.

    What payments do to balances.  Whole amounts below [2 ^ 53] are exact doubles:
    payments of nonnegative whole amounts between different accounts keep every balance
    nonnegative and the sum of all balances at 1000 for each account created.  The
    section ends with the payments for which the code does not do that. *)

From S2P Require Import Prelude BaseUint Double Serializer MerkleNode Database MerkleTree MerkleInv MerkleLoad.
From S2P Require Import MerkleMap MerkleAdd MerkleInsert MerkleOps MerkleCheck Instances MerkleSpec MerkleAbort Entries.
From S2P Require Import Ledger LedgerInv LedgerOps Interface.

(** ** The empty ledger *)

Section empty.
Context `{SHA512} `{Indeterminate} `{NaNs} {D Q : Type} `{RocksDBLaws D} `{Sqlite Q}.
Implicit Types (s : store_t D) (w : world D Q) (G : gmap path place).

(** [Ledger ()] in a store whose locations from [next_loc] on are free: the empty bank. *)
Lemma new_ledger s (q : SqliteInstance Q) :
  (∀ l, is_Some (heap s !! l) → (l < next_loc s)%positive) →
  ∃ Gt Ga w, Ledger_new s q = Ok w ∧ ledger_state Gt Ga w (mkBank ∅ ∅) ∧
    ledger_sequence_ (ledger w) = 1%Z ∧ sqlite w = q.
Proof.
  intros Hf. destruct (new_tree_empty true 0 s Hf) as (tr & s1 & Gt & Hrun1 & Hi1 & Ha1 & _).
  destruct (new_tree_empty false 0 s1 (ti_fresh _ _ _ _ _ Hi1)) as (ta & s2 & Ga & Hrun2 & Hi2 & Ha2 & _ & _ & Hfr).
  destruct (other_tree (root_ ta) (root_ tr) ∅ Ga Gt s1 s2 Hi2 Hfr Hi1) as (Hi1' & Hap & Hnd);
    [by intros p r pl Hp|].
  unfold Ledger_new. rewrite Hrun1. mred. rewrite Hrun2. mred.
  set (w0 := mkWorld _ s2 q).
  rewrite (bind_Ok _ _ w0 _ _ (run_update_account_tree_hash w0 (root_in_heap ta Ga s2 Hi2))).
  rewrite run_update_transaction_tree_hash by apply (root_in_heap tr Gt s2 Hi1'). mred.
  eexists Gt, Ga, _. split_and!; [done| |done..]. constructor; [|by constructor|done].
  constructor; [done..|by apply apart_sym|by eapply abs_nd|done|by constructor].
Qed.
End empty.

(** ** Requests *)

Inductive command :=
| CreateAccount (acc_pub : bytes)
| CreateTransaction (memory : Transaction) (source_addr det_addr : bytes) (amount : double).

Section requests.
Context `{SHA512} `{Indeterminate} `{NaNs} {D Q : Type} `{RocksDBLaws D} `{Sqlite Q}.
Implicit Types (s : store_t D) (w : world D Q) (G : gmap path place) (key : uint256) (b : bank).
Implicit Types (c : command) (log : list Transaction).

Definition execute c : prog (world D Q) Z :=
  match c with
  | CreateAccount acc_pub => create_account acc_pub
  | CreateTransaction memory source_addr det_addr amount =>
      create_transaction memory source_addr det_addr amount
  end.
Fixpoint execute_all (cs : list command) : prog (world D Q) (list Z) :=
  match cs with
  | [] => mret []
  | c :: cs => r ← execute c; rs ← execute_all cs; mret (r :: rs)
  end.

(** The amount of a request is a double. *)
Definition command_ok c : Prop :=
  match c with CreateAccount _ => True | CreateTransaction _ _ _ amount => is_u64 amount end.

Definition new_account (name : bytes) : Account :=
  Account_new (string_address_to_uint256 name) initial_balance 0 uint256_zero.
Definition request_of (memory : Transaction) (src dst : bytes) (amount : double) : Transaction :=
  Transaction_new memory (string_address_to_uint256 src) (string_address_to_uint256 dst) amount.

(** What a request does to the bank and to the log, and what it returns. *)
Inductive bank_step (seq : Z) : command → bank → list Transaction → Z → bank → list Transaction → Prop :=
| step_account name b log :
    accounts b !! string_address_to_uint256 name = None →
    bank_step seq (CreateAccount name) b log 0
      (set_account (string_address_to_uint256 name) (new_account name) b) log
| step_refused m src dst amount b log :
    pay seq (request_of m src dst amount) b = Some Refused →
    bank_step seq (CreateTransaction m src dst amount) b log 1 b log
| step_paid m src dst amount b log tx sa da :
    pay seq (request_of m src dst amount) b = Some (Paid tx sa da) →
    transactions b !! transaction_hash tx = None →
    bank_step seq (CreateTransaction m src dst amount) b log 0 (settle tx sa da b) (tx :: log).

Inductive bank_steps (seq : Z) : list command → bank → list Transaction → list Z → bank → list Transaction → Prop :=
| steps_nil b log : bank_steps seq [] b log [] b log
| steps_cons c cs b log r b1 log1 rs b2 log2 :
    bank_step seq c b log r b1 log1 → bank_steps seq cs b1 log1 rs b2 log2 →
    bank_steps seq (c :: cs) b log (r :: rs) b2 log2.

(** The node holds the bank, and the log is recorded in it. *)
Definition node w b log : Prop :=
  (∃ Gt Ga, ledger_state Gt Ga w b) ∧ records b log ∧ ledger_sequence_ (ledger w) ≠ 0%Z.

Lemma new_account_wf name : Account_wf (new_account name).
Proof. constructor; [apply length_sha512_half|done..]. Qed.

Lemma execute_step c w b log r w' :
  node w b log → command_ok c → execute c w = Ok (r, w') →
  ∃ b' log', node w' b' log' ∧ bank_step (ledger_sequence_ (ledger w)) c b log r b' log' ∧
    ledger_sequence_ (ledger w') = ledger_sequence_ (ledger w).
Proof.
  intros [(Gt & Ga & Hls) [Hrc Hseq]] Hok Hrun. destruct c as [name|m src dst amount]; cbn in Hrun.
  - unfold create_account in Hrun. apply bind_inv in Hrun as (r1 & w1 & Hrun & [= <- <-]).
    change (add_account_tree_entry (account_address_ (new_account name)) (new_account name) w = Ok (r1, w1)) in Hrun.
    destruct (create_account_entry (new_account name) Gt Ga w b Hls (new_account_wf name))
      as [[E _]|(Hn & Ga' & w2 & E & Hls' & Hsl)]; rewrite E in Hrun; [done|].
    injection Hrun as <- <-. eexists _, log. split_and!; [|by apply step_account|apply Hsl].
    split; [by eexists _, _|]. split; [by apply (records_new_account b log (new_account name))|].
    by rewrite (sl_seq _ _ Hsl).
  - unfold create_transaction in Hrun. apply bind_inv in Hrun as ([r1 tx'] & w1 & Hrun & [= <- <-]).
    pose proof (add_transaction_pays (request_of m src dst amount) Gt Ga w b Hls
      (length_sha512_half _) (length_sha512_half _) Hok) as Hpay.
    change (add_transaction_entry (request_of m src dst amount) w = Ok ((r1, tx'), w1)) in Hrun.
    rewrite Hrun in Hpay. destruct (pay _ _ b) as [[|tx sa da]|] eqn:Ep; [..|done].
    + destruct Hpay as (Ga' & w2 & [= -> -> ->] & Hls' & Hst). exists b, log.
      rewrite (st_ledger _ _ _ _ _ _ Hst). split_and!; [|by apply step_refused|done].
      split; [by eexists _, _|]. by rewrite (st_ledger _ _ _ _ _ _ Hst).
    + destruct Hpay as [(Hn & Gt' & Ga' & w2 & [= -> -> ->] & Hls' & Hsl)|[? _]]; [|done].
      eexists _, _. split_and!; [|by eapply step_paid|apply Hsl].
      split; [by eexists _, _|]. rewrite (sl_seq _ _ Hsl). split; [|done]. by eapply records_settle.
Qed.

Lemma execute_steps cs : ∀ w b log rs w',
  node w b log → Forall command_ok cs → execute_all cs w = Ok (rs, w') →
  ∃ b' log', node w' b' log' ∧ bank_steps (ledger_sequence_ (ledger w)) cs b log rs b' log'.
Proof.
  induction cs as [|c cs IH]; intros w b log rs w' Hn Hok Hrun.
  - injection Hrun as <- <-. eexists _, _. split; [done|constructor].
  - apply Forall_cons in Hok as [Hc Hcs]. cbn in Hrun.
    apply bind_inv in Hrun as (r & w1 & Hr & Hrun). apply bind_inv in Hrun as (rs1 & w2 & Hrs & [= <- <-]).
    destruct (execute_step c w b log r w1 Hn Hc Hr) as (b1 & log1 & Hn1 & Hs1 & Eq).
    destruct (IH w1 b1 log1 rs1 w2 Hn1 Hcs Hrs) as (b2 & log2 & Hn2 & Hs2).
    eexists _, _. split; [done|]. rewrite Eq in Hs2. by eapply steps_cons.
Qed.

Lemma new_node s (q : SqliteInstance Q) :
  (∀ l, is_Some (heap s !! l) → (l < next_loc s)%positive) →
  ∃ w, Ledger_new s q = Ok w ∧ node w (mkBank ∅ ∅) [] ∧ ledger_sequence_ (ledger w) = 1%Z.
Proof.
  intros Hf. destruct (new_ledger s q Hf) as (Gt & Ga & w & Hrun & Hls & Hseq & _).
  exists w. split_and!; [done| |done]. split; [by eexists _, _|]. rewrite Hseq. split; [|done].
  constructor; [by intros key a|by intros t ?%not_elem_of_nil].
Qed.
End requests.

(** * The money in circulation *)

(** ** Sums *)

Definition total (m : gmap uint256 Z) : Z := map_fold (λ _ n acc, (n + acc)%Z) 0%Z m.

Lemma total_insert k v m : m !! k = None → total (<[k := v]> m) = (v + total m)%Z.
Proof. intros Hn. apply map_fold_insert_L; [lia|done]. Qed.

Lemma total_update k u v m : m !! k = Some u → total (<[k := v]> m) = (total m - u + v)%Z.
Proof.
  intros Hk. rewrite <-(insert_delete_id m k u Hk) at 2.
  rewrite <-insert_delete_eq, !total_insert by apply lookup_delete_eq. lia.
Qed.

Lemma total_nonneg m : (∀ k n, m !! k = Some n → 0 ≤ n)%Z → (0 ≤ total m)%Z.
Proof.
  induction m as [|k n m Hn IH] using map_ind; intros Hp; [done|]. rewrite total_insert by done.
  specialize (Hp k n (lookup_insert_eq _ _ _)) as Hk.
  enough (0 ≤ total m)%Z by lia. apply IH. intros j v Hj. apply (Hp j).
  rewrite lookup_insert_ne; [done|]. congruence.
Qed.

(** Two different accounts together hold at most everything. *)
Lemma total_two m j k u v :
  (∀ k n, m !! k = Some n → 0 ≤ n)%Z → m !! j = Some u → m !! k = Some v → j ≠ k → (u + v ≤ total m)%Z.
Proof.
  intros Hp Hj Hk Hne. pose proof (total_update j u 0 m Hj) as E1.
  assert (<[j := 0%Z]> m !! k = Some v) as Hk' by (by rewrite lookup_insert_ne).
  pose proof (total_update k v 0 _ Hk') as E2.
  enough (0 ≤ total (<[k := 0]> (<[j := 0]> m)))%Z by lia. apply total_nonneg.
  intros i n. rewrite !lookup_insert. repeat case_decide; [intros [= <-]; lia..|apply Hp].
Qed.

Section supply.
Context `{SHA512} `{Indeterminate} `{NaNs}.
Implicit Types (key : uint256) (b : bank) (c : command) (log : list Transaction) (bal : gmap uint256 Z).

(** The balances are the integers [bal], none below zero, 1000 for each account. *)
Record funded b bal : Prop := {
  fd_dom key : is_Some (accounts b !! key) ↔ is_Some (bal !! key);
  fd_balance key a n : accounts b !! key = Some a → bal !! key = Some n → represents (account_balance_ a) n;
  fd_nonneg key n : bal !! key = Some n → (0 ≤ n)%Z;
  fd_total : total bal = (1000 * Z.of_nat (size bal))%Z;
}.

(** A request that moves a whole amount between two different accounts. *)
Definition fair c : Prop :=
  match c with
  | CreateAccount _ => True
  | CreateTransaction _ src dst amount =>
      string_address_to_uint256 src ≠ string_address_to_uint256 dst ∧
      ∃ n, represents amount n ∧ (0 ≤ n)%Z ∧ small n
  end.

Lemma initial_balance_1000 : represents initial_balance 1000.
Proof. apply (double_of_int_represents 1000). done. Qed.

Lemma funded_new_account b bal name :
  let key := string_address_to_uint256 name in
  funded b bal → accounts b !! key = None →
  funded (set_account key (new_account name) b) (<[key := 1000%Z]> bal).
Proof.
  intros key [Hd Hb Hp Ht] Hn.
  assert (bal !! key = None) as Hn'.
  { apply eq_None_not_Some. rewrite <-Hd, Hn. by intros [? ?]. }
  constructor; cbn [accounts set_account].
  - intros k. rewrite !lookup_insert. case_decide; [split; eauto|apply Hd].
  - intros k a n. rewrite !lookup_insert. case_decide; [|apply Hb].
    intros [= <-] [= <-]. apply initial_balance_1000.
  - intros k n. rewrite lookup_insert. case_decide; [intros [= <-]; lia|apply Hp].
  - rewrite total_insert, map_size_insert_None by done. lia.
Qed.

Lemma funded_pay seq tx b bal tx' sa da n :
  funded b bal → pay seq tx b = Some (Paid tx' sa da) →
  source_address_ tx ≠ destination_address_ tx →
  represents (payment_amount_ tx) n → (0 ≤ n)%Z → small n → (total bal < 2 ^ 53)%Z →
  ∃ u v, bal !! source_address_ tx = Some u ∧ bal !! destination_address_ tx = Some v ∧ (n ≤ u)%Z ∧
    funded (settle tx' sa da b)
      (<[destination_address_ tx := (v + n)%Z]> (<[source_address_ tx := (u - n)%Z]> bal)).
Proof.
  intros [Hd Hb Hp Ht] (sa0 & da0 & Es & Ed & Hok & Etx & Esa & Eda)%pay_Paid Hne Hn Hn0 Hsn Hlt.
  destruct (proj1 (Hd (source_address_ tx)) ltac:(eauto)) as [u Hu].
  destruct (proj1 (Hd (destination_address_ tx)) ltac:(eauto)) as [v Hv].
  pose proof (Hp _ _ Hu) as Pu. pose proof (Hp _ _ Hv) as Pv.
  pose proof (total_two bal _ _ u v Hp Hu Hv Hne) as Huv.
  assert (small u ∧ small v) as [Su Sv] by (unfold small; lia).
  assert (small (u + - n) ∧ small (- n)) as [Sd Sn] by (unfold small in *; lia).
  destruct (add_balance_int _ sa0 (- n) u (represents_dopp _ _ Hn) (Hb _ _ _ Es Hu) Sn Su Sd) as [E1 R1].
  rewrite E1 in Hok. rewrite Hok in R1. apply Z.leb_le in Hok.
  assert (small (v + n)) as Sv' by (unfold small in *; lia).
  destruct (add_balance_int _ da0 n v Hn (Hb _ _ _ Ed Hv) Hsn Sv Sv') as [_ R2].
  rewrite (proj2 (Z.leb_le 0 (v + n))) in R2 by lia.
  exists u, v. split_and!; [done..|lia|].
  assert (source_address_ tx' = source_address_ tx ∧ destination_address_ tx' = destination_address_ tx) as [X1 X2]
    by (by rewrite Etx).
  constructor; cbn [accounts settle set_account set_transaction]; rewrite ?X1, ?X2.
  - intros k. rewrite !lookup_insert. repeat case_decide; [split; eauto..|apply Hd].
  - intros k a m. rewrite !lookup_insert. case_decide; [|case_decide; [|apply Hb]].
    + intros E [= <-]. apply (inj Some) in E. by rewrite <-E, Eda.
    + intros E [= <-]. apply (inj Some) in E. by rewrite <-E, Esa.
  - intros k m. rewrite !lookup_insert. repeat case_decide; [intros [= <-]; lia..|apply Hp].
  - rewrite (total_update _ v) by (by rewrite lookup_insert_ne).
    rewrite (total_update _ u) by done. rewrite !map_size_insert_Some; [lia|eauto|].
    rewrite lookup_insert_ne; eauto.
Qed.
End supply.

Section runs.
Context `{SHA512} `{Indeterminate} `{NaNs}.
Implicit Types (key : uint256) (b : bank) (c : command) (log : list Transaction) (bal : gmap uint256 Z).

Lemma funded_step seq c b log r b' log' bal :
  bank_step seq c b log r b' log' → funded b bal → fair c → (total bal < 2 ^ 53)%Z →
  ∃ bal', funded b' bal' ∧ size bal' ≤ S (size bal).
Proof.
  intros Hstep Hfd Hfair Hlt. destruct Hstep as [name b log Hn|m src dst amount b log Hp|m src dst amount b log tx sa da Hp Hn].
  - eexists. split; [by apply funded_new_account|]. rewrite map_size_insert. destruct (bal !! _); cbn; lia.
  - exists bal. split; [done|lia].
  - destruct Hfair as (Hne & n & Hn' & Hn0 & Hs).
    destruct (funded_pay _ _ _ _ _ _ _ n Hfd Hp Hne Hn' Hn0 Hs Hlt) as (u & v & Hu & Hv & _ & Hfd').
    eexists. split; [exact Hfd'|]. rewrite !map_size_insert_Some; [lia|eauto|].
    rewrite lookup_insert_ne; eauto.
Qed.

Lemma funded_steps seq cs b log rs b' log' : bank_steps seq cs b log rs b' log' → ∀ bal,
  funded b bal → Forall fair cs → (1000 * Z.of_nat (size bal + length cs) < 2 ^ 53)%Z →
  ∃ bal', funded b' bal'.
Proof.
  induction 1 as [|c cs b log r b1 log1 rs b2 log2 Hs _ IH]; intros bal Hfd Hfair Hlt; [eauto|].
  apply Forall_cons in Hfair as [Hc Hcs]. cbn [length] in Hlt.
  assert (total bal < 2 ^ 53)%Z as Ht by (rewrite (fd_total _ _ Hfd); lia).
  destruct (funded_step _ _ _ _ _ _ _ _ Hs Hfd Hc Ht) as (bal1 & Hfd1 & Hsz).
  apply (IH bal1); [done..|lia].
Qed.

Lemma funded_empty : funded (mkBank ∅ ∅) ∅.
Proof. constructor; [|by intros..|done]. intros key. cbn. rewrite !lookup_empty. by split; intros [? ?]. Qed.
End runs.
