(* ===== verification/LedgerSpec.v ===== *)
(** * What the ledger promises

    The operations of the ledger and the interface of the node, from the empty ledger on,
    with the payments for which the code does not do what a payment should. *)

From S2P Require Import Prelude BaseUint Double Serializer MerkleNode Database MerkleTree MerkleInv.
From S2P Require Import MerkleLoad MerkleMap MerkleAdd.
From S2P Require Import MerkleInsert MerkleOps MerkleCheck Instances MerkleSpec MerkleAbort.
From S2P Require Import TransactionPbLaws Entries Ledger LedgerInv LedgerOps Interface Node.

Section spec.
Context `{SHA512} `{Indeterminate} `{NaNs} {D Q : Type} `{RocksDBLaws D} `{Sqlite Q}.
Implicit Types (s : store_t D) (w : world D Q) (G : gmap path place) (key : uint256) (b : bank).
Implicit Types (tx : Transaction) (a sa da : Account) (log : list Transaction).

(** An account or a transaction that is written to a string and read back is the
    same object, and the string is short enough to be stored. *)
Theorem entries_round_trip a tx :
  Account_wf a → Transaction_wf tx →
  (∃ data, Account_serializer a = Ok data ∧ Account_unserializer data = Ok a ∧ short data) ∧
  (∃ data, Transaction_serializer tx = Ok data ∧ Transaction_unserializer data = Ok tx ∧ short data).
Proof. intros Ha Ht. split; [by apply Account_round|by apply Transaction_round]. Qed.

(** C2: [add_transaction_entry] on a ledger that holds the bank [b] does what [pay]
    says: a missing account is a null dereference; a source that cannot pay is refused
    with result 1 and nothing changes; otherwise the result is 0, the ledger holds the
    settled bank, with all header hashes up to date, and the transaction object is the
    linked one.  The only other outcome is an assertion, when the transaction is already
    recorded or a digest of a changed path coincides with the old one. *)
Theorem add_transaction_entry_refines tx Gt Ga w b :
  ledger_state Gt Ga w b → wf256 (source_address_ tx) → wf256 (destination_address_ tx) →
  is_u64 (payment_amount_ tx) →
  match pay (ledger_sequence_ (ledger w)) tx b with
  | None => add_transaction_entry tx w = Err NullDeref
  | Some Refused => ∃ Ga' w', add_transaction_entry tx w = Ok ((1%Z, tx), w') ∧
      ledger_state Gt Ga' w' b ∧ same_trees Gt Ga w Gt Ga' w'
  | Some (Paid tx' sa da) =>
      transactions b !! transaction_hash tx' = None ∧
      (∃ Gt' Ga' w', add_transaction_entry tx w = Ok ((0%Z, tx'), w') ∧
         ledger_state Gt' Ga' w' (settle tx' sa da b) ∧ same_ledger w w') ∨
      add_transaction_entry tx w = Err AssertFailed ∧ payment_stuck Gt Ga w b tx' sa da
  end.
Proof. apply add_transaction_pays. Qed.

(** C32: [add_account_tree_entry] with a new address adds the account to the bank and
    updates the header; with a taken address, or on a digest coincidence, it stops at an
    assertion. *)
Theorem add_account_tree_entry_refines a Gt Ga w b :
  let key := account_address_ a in
  ledger_state Gt Ga w b → Account_wf a →
  add_account_tree_entry key a w = Err AssertFailed ∧
    (is_Some (accounts b !! key) ∨ add_rehash (nd (objects w) Ga) key = false) ∨
  accounts b !! key = None ∧
  ∃ Ga' w', add_account_tree_entry key a w = Ok (true, w') ∧
    ledger_state Gt Ga' w' (set_account key a b) ∧ same_ledger w w'.
Proof. apply create_account_entry. Qed.

(** C3: every run of requests from the empty ledger follows the steps of the bank: the
    results are those of the steps, and at the end the ledger holds the bank they lead
    to, its header carries the hashes of its trees, and the log of payments is recorded. *)
Theorem node_follows_bank cs s (q : SqliteInstance Q) w rs w' :
  (∀ l, is_Some (heap s !! l) → (l < next_loc s)%positive) → Forall command_ok cs →
  Ledger_new s q = Ok w → execute_all cs w = Ok (rs, w') →
  ∃ b log, bank_steps 1 cs (mkBank ∅ ∅) [] rs b log ∧ node w' b log ∧ header_ok w'.
Proof.
  intros Hf Hok Hnew Hrun. destruct (new_node s q Hf) as (w0 & E & Hn & Hseq).
  rewrite Hnew in E. injection E as <-.
  destruct (execute_steps cs _ _ _ _ _ Hn Hok Hrun) as (b & log & Hn' & Hs). rewrite Hseq in Hs.
  exists b, log. split_and!; [done..|]. by destruct Hn' as [(Gt & Ga & []) _].
Qed.

(** C1: money is conserved.  After any run of requests from the empty ledger in which
    payments move whole, nonnegative amounts between different accounts, every balance
    is a whole number, none is below zero, and together they are 1000 for each account;
    the bound on the number of requests keeps all sums exact. *)
Theorem supply_conserved cs s (q : SqliteInstance Q) w rs w' :
  (∀ l, is_Some (heap s !! l) → (l < next_loc s)%positive) → Forall command_ok cs →
  Forall fair cs → (1000 * Z.of_nat (length cs) < 2 ^ 53)%Z →
  Ledger_new s q = Ok w → execute_all cs w = Ok (rs, w') →
  ∃ b log bal, node w' b log ∧ funded b bal.
Proof.
  intros Hf Hok Hfair Hlt Hnew Hrun. destruct (new_node s q Hf) as (w0 & E & Hn & Hseq).
  rewrite Hnew in E. injection E as <-.
  destruct (execute_steps cs _ _ _ _ _ Hn Hok Hrun) as (b & log & Hn' & Hs).
  destruct (funded_steps _ _ _ _ _ _ _ Hs ∅ funded_empty Hfair) as [bal Hfd]; [by rewrite map_size_empty|].
  by exists b, log, bal.
Qed.

(** C7: [get_transaction_history] terminates and returns exactly the recorded
    transactions in which the account is source or destination, newest first; as many
    iterations as there are such transactions are enough. *)
Theorem history_correct fuel name w b log a :
  let key := string_address_to_uint256 name in
  node w b log → accounts b !! key = Some a → length (filter (involves key) log) ≤ fuel →
  ∃ w', get_transaction_history fuel name w = Ok (filter (involves key) log, w') ∧ node w' b log.
Proof.
  intros key [(Gt & Ga & Hls) [Hrc Hseq]] Ha Hf.
  destruct (get_history fuel name Gt Ga w b log a Hls Hrc Ha Hf) as (Gt' & Ga' & w' & Hrun & Hls' & Hst).
  exists w'. split; [done|]. split; [by eexists _, _|]. by rewrite (st_ledger _ _ _ _ _ _ Hst).
Qed.

(** [get_balance] returns the balance of the account in the bank and leaves the
    bank as it is; for a name without an account it dereferences a null pointer. *)
Theorem get_balance_correct name w b log :
  let key := string_address_to_uint256 name in
  node w b log →
  match accounts b !! key with
  | Some a => ∃ w', get_balance name w = Ok (account_balance_ a, w') ∧ node w' b log
  | None => get_balance name w = Err NullDeref
  end.
Proof.
  intros key [(Gt & Ga & Hls) [Hrc Hseq]]. assert (wf256 key) as Hk by apply length_sha512_half.
  destruct (lookup_account key Gt Ga w b Hk Hls) as (Ga1 & w1 & Hrun & Hls1 & Hst1).
  unfold get_balance. fold key. destruct (accounts b !! key) as [a|]; step Hrun; [|done].
  exists w1. split; [done|]. split; [by eexists _, _|]. by rewrite (st_ledger _ _ _ _ _ _ Hst1).
Qed.

(** ** Payments that are not transfers *)

(** The payment returns 0 and leaves a bank with [P], unless it is stuck at an
    assertion. *)
Definition pays_with tx Gt Ga w b (P : bank → Prop) : Prop :=
  (∃ tx' Gt' Ga' w' b', add_transaction_entry tx w = Ok ((0%Z, tx'), w') ∧
     ledger_state Gt' Ga' w' b' ∧ P b') ∨
  ∃ tx' sa da, add_transaction_entry tx w = Err AssertFailed ∧ payment_stuck Gt Ga w b tx' sa da.

(** The account at [key] has the whole balance [n]. *)
Definition whole_balance b key (n : Z) : Prop :=
  ∃ a, accounts b !! key = Some a ∧ represents (account_balance_ a) n.

(** A payment between existing accounts whose source passes the test of its balance. *)
Lemma accepted_payment tx Gt Ga w b sa0 da0 (P : bank → Prop) :
  let sa1 := (add_balance (dopp (payment_amount_ tx)) sa0).2 in
  let da1 := (add_balance (payment_amount_ tx) da0).2 in
  ledger_state Gt Ga w b → wf256 (source_address_ tx) → wf256 (destination_address_ tx) →
  is_u64 (payment_amount_ tx) →
  accounts b !! source_address_ tx = Some sa0 → accounts b !! destination_address_ tx = Some da0 →
  (add_balance (dopp (payment_amount_ tx)) sa0).1 = true →
  (∀ b' seq h, accounts b' = <[destination_address_ tx := stamp seq h da1]>
                 (<[source_address_ tx := stamp seq h sa1]> (accounts b)) → P b') →
  pays_with tx Gt Ga w b P.
Proof.
  intros sa1 da1 Hls Hs Hd Hu Es Ed Hok HP.
  pose proof (add_transaction_pays tx Gt Ga w b Hls Hs Hd Hu) as Hpay.
  destruct (pay _ tx b) as [[|tx' sa da]|] eqn:Ep.
  - exfalso. revert Ep. unfold pay. rewrite Es, Ed. cbn [mbind option_bind].
    destruct (add_balance _ sa0) as [ok ?]. cbn in Hok. by rewrite Hok.
  - apply pay_Paid in Ep as (sa0' & da0' & Es' & Ed' & _ & Etx & Esa & Eda). simplify_eq.
    destruct Hpay as [(_ & Gt' & Ga' & w' & Hrun & Hls' & _)|[Hrun Hst]]; [left|right; by eexists _, _, _].
    eexists _, Gt', Ga', w', _. split_and!; [done..|]. by eapply HP.
  - exfalso. revert Ep. unfold pay. rewrite Es, Ed. cbn [mbind option_bind].
    destruct (add_balance _ sa0) as [ok ?]. cbn in Hok. by rewrite Hok.
Qed.

(** C33: a payment from an account to itself creates money: the two copies of the account
    are changed separately and the credited one is written last, so the balance grows
    by the amount. *)
Theorem self_payment_mints tx Gt Ga w b u n :
  ledger_state Gt Ga w b → wf256 (source_address_ tx) → destination_address_ tx = source_address_ tx →
  whole_balance b (source_address_ tx) u → represents (payment_amount_ tx) n →
  (0 ≤ n ≤ u)%Z → (u + n < 2 ^ 53)%Z →
  pays_with tx Gt Ga w b (λ b', whole_balance b' (source_address_ tx) (u + n)).
Proof.
  intros Hls Hs Hd (a & Ha & Ru) Rn Hle Hlt.
  assert (small u ∧ small n ∧ small (- n) ∧ small (u + - n) ∧ small (u + n)) as (Su & Sn & Sn' & S1 & S2)
    by (unfold small; lia).
  destruct (add_balance_int _ a (- n) u (represents_dopp _ _ Rn) Ru Sn' Su S1) as [E1 _].
  destruct (add_balance_int _ a n u Rn Ru Sn Su S2) as [_ R2].
  rewrite (proj2 (Z.leb_le 0 (u + n))) in R2 by lia.
  eapply accepted_payment; [done..|by rewrite Hd|apply Rn|done|by rewrite Hd|rewrite E1; apply Z.leb_le; lia|].
  intros b' seq h Eb. eexists. split; [rewrite Eb, Hd; apply lookup_insert_eq|done].
Qed.

(** Amounts are not checked.  A payment of a negative amount to an account that
    holds less credits the source and debits nobody, because the failure of the second
    [add_balance] is ignored; a payment of a NaN is accepted and leaves both balances
    NaN. *)
Theorem unchecked_amounts tx Gt Ga w b u v :
  ledger_state Gt Ga w b → wf256 (source_address_ tx) → wf256 (destination_address_ tx) →
  is_u64 (payment_amount_ tx) → source_address_ tx ≠ destination_address_ tx →
  whole_balance b (source_address_ tx) u → whole_balance b (destination_address_ tx) v →
  (∀ n, represents (payment_amount_ tx) (- n) → (0 ≤ v < n)%Z → (0 ≤ u)%Z → (u + n < 2 ^ 53)%Z →
     pays_with tx Gt Ga w b (λ b', whole_balance b' (source_address_ tx) (u + n) ∧
       whole_balance b' (destination_address_ tx) v)) ∧
  (spec_of (payment_amount_ tx) = SpecFloat.S754_nan →
     pays_with tx Gt Ga w b (λ b', ∃ sa da, accounts b' !! source_address_ tx = Some sa ∧
       accounts b' !! destination_address_ tx = Some da ∧
       spec_of (account_balance_ sa) = SpecFloat.S754_nan ∧
       spec_of (account_balance_ da) = SpecFloat.S754_nan)).
Proof.
  intros Hls Hs Hd Hu Hne (sa & Es & Ru) (da & Ed & Rv). split.
  - intros n Rn Hv Hu0 Hlt.
    assert (small u ∧ small v ∧ small n ∧ small (- n) ∧ small (u + n) ∧ small (v + - n)) as (Su & Sv & Sn & Sn' & S1 & S2)
      by (unfold small; lia).
    pose proof (represents_dopp _ _ Rn) as Rn'. rewrite Z.opp_involutive in Rn'.
    destruct (add_balance_int _ sa n u Rn' Ru Sn Su S1) as [E1 R1].
    destruct (add_balance_int _ da (- n) v Rn Rv Sn' Sv S2) as [_ R2].
    rewrite (proj2 (Z.leb_le 0 (u + n))) in * by lia. rewrite (proj2 (Z.leb_gt 0 (v + - n))) in R2 by lia.
    eapply accepted_payment; [done..|]. intros b' seq h Eb. split; eexists; rewrite Eb.
    + rewrite lookup_insert_ne, lookup_insert_eq by done. by split.
    + rewrite lookup_insert_eq. by split.
  - intros Hn.
    assert (∀ x a, spec_of x = SpecFloat.S754_nan → (add_balance x a).1 = true ∧
              spec_of (account_balance_ (add_balance x a).2) = SpecFloat.S754_nan) as Hadd.
    { intros x a Hx. assert (spec_of (dadd (account_balance_ a) x) = SpecFloat.S754_nan) as E
        by (rewrite spec_of_dadd, Hx; by destruct (spec_of (account_balance_ a))).
      unfold add_balance, dltb. by rewrite E. }
    assert (spec_of (dopp (payment_amount_ tx)) = SpecFloat.S754_nan) as Hn' by (by rewrite spec_of_dopp, Hn).
    eapply accepted_payment; [done..|by apply Hadd|]. intros b' seq h Eb.
    eexists _, _. rewrite Eb, lookup_insert_ne, !lookup_insert_eq by done.
    split_and!; [done..|by apply Hadd|by apply Hadd].
Qed.
End spec.

(** ** A concrete ledger *)

Section example.
#[local] Existing Instance poly_SHA512.
#[local] Existing Instance zero_Indeterminate.

#[local] Instance quiet_NaNs : NaNs.
Proof. refine {| nan_of _ _ := 0x7ff8000000000000%Z |}. by intros. Defined.

(** A SQL database that accepts every statement and keeps them. *)
#[local] Instance statements : Sqlite (list bytes) :=
  {| sqlite3_open _ := (0%Z, []); sqlite3_exec db sql := (0%Z, [], db ++ [sql]) |}.

Abbreviation ex_process := (world (gmap bytes bytes) (list bytes)).
Definition ex_sqlite : SqliteInstance (list bytes) := mkSqliteInstance (str "ledger.db") None.
Definition ex_memory : Transaction := mkTransaction [] [] 0 7 [] 7 [].
Definition alice : bytes := str "alice".
Definition bob : bytes := str "bob".
Definition alice_key : uint256 := string_address_to_uint256 alice.
Definition bob_key : uint256 := string_address_to_uint256 bob.

Definition ex_world0 : ex_process :=
  match Ledger_new empty_store ex_sqlite with
  | Ok w => w
  | Err _ => mkWorld (mkLedger [] [] [] [] 0 0 0 ex_tree ex_tree) empty_store ex_sqlite
  end.
Definition run_world {A} (c : prog ex_process A) (w : ex_process) : ex_process :=
  match c w with Ok (_, w') => w' | Err _ => w end.

(** Whether a run returns [a]. *)
Definition returns {A} `{EqDecision A} (c : prog ex_process A) (a : A) (w : ex_process) : bool :=
  match c w with Ok (r, _) => bool_decide (r = a) | Err _ => false end.

Lemma returns_run {A} `{EqDecision A} (c : prog ex_process A) (a : A) w :
  returns c a w = true → c w = Ok (a, run_world c w).
Proof.
  unfold returns, run_world. destruct (c w) as [[r w']|]; [|done]. by intros ->%bool_decide_eq_true_1.
Qed.

(** The ledger with the accounts of Alice and Bob. *)
Definition ex_world : ex_process :=
  run_world (execute_all [CreateAccount alice; CreateAccount bob]) ex_world0.
Definition ex_bank : bank :=
  mkBank {[ alice_key := new_account alice; bob_key := new_account bob ]} ∅.
Definition ex_Gt : gmap path place := {[ [] := Mem 1%positive ]}.
Definition ex_Ga : gmap path place :=
  {[ [] := Mem 2%positive; [8] := Mem 3%positive; [3] := Mem 4%positive ]}.

Lemma ex_transactions_ok : tree_inv 1%positive [] 0 ex_Gt (objects ex_world).
Proof. apply tree_check_sound. vm_compute. reflexivity. Qed.

Lemma ex_accounts_ok : tree_inv 2%positive [] 0 ex_Ga (objects ex_world).
Proof. apply tree_check_sound. vm_compute. reflexivity. Qed.

Lemma ex_bank_wf : bank_wf ex_bank.
Proof.
  constructor; [|by intros key t].
  intros key a. cbn [accounts ex_bank]. rewrite lookup_insert, lookup_singleton.
  repeat case_decide; intros E; try done; apply (inj Some) in E as <-; subst; by split; [apply new_account_wf|].
Qed.

Lemma ex_state : ledger_state ex_Gt ex_Ga ex_world ex_bank.
Proof.
  constructor; [constructor| |].
  - exact ex_transactions_ok.
  - exact ex_accounts_ok.
  - unfold ex_Gt, ex_Ga. intros p q pl [_ <-]%lookup_singleton_Some. cbn beta.
    rewrite !lookup_insert, lookup_singleton. repeat case_decide; congruence.
  - pose proof (abs_contents _ _ _ ex_transactions_ok) as Ha.
    replace (leaves transaction_leaf (transactions ex_bank)) with (contents (objects ex_world) ex_Gt); [done|].
    apply (bool_decide_eq_true_1 _). vm_compute. reflexivity.
  - pose proof (abs_contents _ _ _ ex_accounts_ok) as Ha.
    replace (leaves account_leaf (accounts ex_bank)) with (contents (objects ex_world) ex_Ga); [done|].
    apply (bool_decide_eq_true_1 _). vm_compute. reflexivity.
  - exact ex_bank_wf.
  - constructor; vm_compute; reflexivity.
  - vm_compute. by split.
Qed.

Lemma ex_node : node ex_world ex_bank [].
Proof.
  split; [by eexists _, _; apply ex_state|]. split; [|by vm_compute].
  constructor; [|by intros t ?%not_elem_of_nil].
  intros key a. cbn [accounts ex_bank]. rewrite lookup_insert, lookup_singleton.
  repeat case_decide; intros E; try done; apply (inj Some) in E as <-; constructor.
Qed.

Definition ex_request (src dst : bytes) (amount : Z) : Transaction :=
  request_of ex_memory src dst (double_of_int amount).

(** A payment in the example returns 0. *)
Definition ex_paid (tx : Transaction) : bool :=
  returns (r ← add_transaction_entry tx; mret r.1) 0%Z ex_world.

Lemma entries_round_trip_witness :
  (∃ data, Account_serializer (new_account alice) = Ok data ∧
     Account_unserializer data = Ok (new_account alice) ∧ short data) ∧
  (∃ data, Transaction_serializer (link_transaction (new_account alice) (new_account bob) (ex_request alice bob 5)) = Ok data ∧
     Transaction_unserializer data = Ok (link_transaction (new_account alice) (new_account bob) (ex_request alice bob 5)) ∧
     short data).
Proof.
  apply entries_round_trip; [apply new_account_wf|].
  by apply link_transaction_wf; [apply length_sha512_half..| |apply new_account_wf|apply new_account_wf].
Defined.

(** Alice pays Bob 300: the hypotheses hold and the run succeeds. *)
Lemma add_transaction_entry_refines_witness :
  ex_paid (ex_request alice bob 300) = true ∧
  match pay 1 (ex_request alice bob 300) ex_bank with
  | Some (Paid tx sa da) =>
      transactions ex_bank !! transaction_hash tx = None ∧
      (∃ Gt' Ga' w', add_transaction_entry (ex_request alice bob 300) ex_world = Ok ((0%Z, tx), w') ∧
         ledger_state Gt' Ga' w' (settle tx sa da ex_bank) ∧ same_ledger ex_world w') ∨
      add_transaction_entry (ex_request alice bob 300) ex_world = Err AssertFailed ∧
        payment_stuck ex_Gt ex_Ga ex_world ex_bank tx sa da
  | _ => False
  end.
Proof.
  split; [vm_compute; reflexivity|].
  pose proof (add_transaction_entry_refines (ex_request alice bob 300) ex_Gt ex_Ga ex_world ex_bank ex_state
    (length_sha512_half _) (length_sha512_half _) ltac:(by vm_compute)) as Hpay.
  change (ledger_sequence_ (ledger ex_world)) with 1%Z in Hpay.
  destruct (pay 1 (ex_request alice bob 300) ex_bank) as [[|tx sa da]|] eqn:E; [|exact Hpay|].
  - exfalso. revert E. vm_compute. discriminate.
  - exfalso. revert E. vm_compute. discriminate.
Defined.

Lemma add_account_tree_entry_refines_witness :
  let a := new_account (str "carol") in
  add_account_tree_entry (account_address_ a) a ex_world = Err AssertFailed ∧
    (is_Some (accounts ex_bank !! account_address_ a) ∨ add_rehash (nd (objects ex_world) ex_Ga) (account_address_ a) = false) ∨
  accounts ex_bank !! account_address_ a = None ∧
  ∃ Ga' w', add_account_tree_entry (account_address_ a) a ex_world = Ok (true, w') ∧
    ledger_state ex_Gt Ga' w' (set_account (account_address_ a) a ex_bank) ∧ same_ledger ex_world w'.
Proof.
  intros a. apply (add_account_tree_entry_refines a ex_Gt ex_Ga ex_world ex_bank ex_state), new_account_wf.
Defined.

(** A run of four requests. *)
Definition ex_commands : list command :=
  [CreateAccount alice; CreateAccount bob; CreateTransaction ex_memory alice bob (double_of_int 300);
   CreateTransaction ex_memory bob alice (double_of_int 2000)].

Definition ex_final : ex_process := run_world (execute_all ex_commands) ex_world0.

Lemma ex_run_ok : execute_all ex_commands ex_world0 = Ok ([0; 0; 0; 1]%Z, ex_final).
Proof. refine (returns_run (execute_all ex_commands) [0; 0; 0; 1]%Z ex_world0 _). vm_compute. reflexivity. Qed.

Lemma ex_fresh (l : loc) : is_Some (heap empty_store !! l) → (l < next_loc empty_store)%positive.
Proof. intros [n Hn]. cbn in Hn. by rewrite lookup_empty in Hn. Qed.

Lemma ex_new : Ledger_new empty_store ex_sqlite = Ok ex_world0.
Proof.
  unfold ex_world0.
  assert (match Ledger_new empty_store ex_sqlite with Ok _ => true | Err _ => false end = true) as E
    by (vm_compute; reflexivity).
  by destruct (Ledger_new empty_store ex_sqlite).
Qed.

Lemma ex_commands_ok : Forall command_ok ex_commands.
Proof. by repeat constructor. Qed.

Lemma ex_commands_fair : Forall fair ex_commands.
Proof.
  repeat constructor; try (apply (bool_decide_eq_true_1 _); vm_compute; reflexivity).
  - exists 300%Z. by split; [apply double_of_int_represents|].
  - exists 2000%Z. by split; [apply double_of_int_represents|].
Qed.

Lemma node_follows_bank_witness :
  ∃ b log, bank_steps 1 ex_commands (mkBank ∅ ∅) [] [0; 0; 0; 1]%Z b log ∧ node ex_final b log ∧ header_ok ex_final.
Proof.
  apply (node_follows_bank ex_commands empty_store ex_sqlite ex_world0 _ _ ex_fresh ex_commands_ok ex_new ex_run_ok).
Defined.

Lemma supply_conserved_witness : ∃ b log bal, node ex_final b log ∧ funded b bal.
Proof.
  apply (supply_conserved ex_commands empty_store ex_sqlite ex_world0 _ _ ex_fresh ex_commands_ok
    ex_commands_fair ltac:(done) ex_new ex_run_ok).
Defined.

(** The ledger after Alice has paid Bob. *)
Definition ex_payment : command := CreateTransaction ex_memory alice bob (double_of_int 300).
Definition ex_world1 : ex_process := run_world (execute ex_payment) ex_world.

Lemma ex_payment_ok : execute ex_payment ex_world = Ok (0%Z, ex_world1).
Proof. refine (returns_run (execute ex_payment) 0%Z ex_world _). vm_compute. reflexivity. Qed.

Lemma ex_node1 :
  ∃ b tx a, node ex_world1 b [tx] ∧ accounts b !! bob_key = Some a ∧ involves bob_key tx.
Proof.
  destruct (execute_step ex_payment ex_world ex_bank [] 0 ex_world1 ex_node ltac:(done) ex_payment_ok)
    as (b & log & Hn & Hs & _).
  inversion Hs as [| |? ? ? ? ? ? tx sa da Hp _]; subst.
  apply pay_Paid in Hp as (sa0 & da0 & _ & _ & _ & Etx & _ & _).
  exists (settle tx sa da ex_bank), tx, da. split_and!; [done| |by right; rewrite Etx].
  cbn. rewrite Etx. apply lookup_insert_eq.
Qed.

Lemma history_correct_witness :
  ∃ b tx w', get_transaction_history 1 bob ex_world1 = Ok ([tx], w') ∧ node w' b [tx].
Proof.
  destruct ex_node1 as (b & tx & a & Hn & Ha & Hi). exists b, tx.
  pose proof (history_correct 1 bob ex_world1 b [tx] a Hn Ha) as Hh. fold bob_key in Hh.
  rewrite filter_cons_True in Hh by done. apply Hh. cbn. lia.
Defined.

Lemma get_balance_correct_witness :
  ∃ w', get_balance bob ex_world = Ok (initial_balance, w') ∧ node w' ex_bank [].
Proof.
  pose proof (get_balance_correct bob ex_world ex_bank [] ex_node) as Hb.
  replace (accounts ex_bank !! string_address_to_uint256 bob) with (Some (new_account bob)) in Hb; [exact Hb|].
  cbn [accounts ex_bank]. rewrite lookup_insert_ne; [symmetry; apply lookup_singleton_eq|].
  apply (bool_decide_eq_true_1 _). vm_compute. reflexivity.
Defined.

Lemma ex_whole name : name = alice ∨ name = bob →
  whole_balance ex_bank (string_address_to_uint256 name) 1000.
Proof.
  intros Hn. exists (new_account name). split; [|apply initial_balance_1000].
  cbn [accounts ex_bank]. destruct Hn as [-> | ->]; [apply lookup_insert_eq|].
  rewrite lookup_insert_ne; [apply lookup_singleton_eq|].
  apply (bool_decide_eq_true_1 _). vm_compute. reflexivity.
Qed.

(** Alice pays herself 400 and has 1400. *)
Lemma self_payment_mints_witness :
  ex_paid (ex_request alice alice 400) = true ∧
  pays_with (ex_request alice alice 400) ex_Gt ex_Ga ex_world ex_bank (λ b', whole_balance b' alice_key 1400).
Proof.
  split; [vm_compute; reflexivity|].
  apply (self_payment_mints (ex_request alice alice 400) ex_Gt ex_Ga ex_world ex_bank 1000 400);
    [exact ex_state|apply length_sha512_half|done|by apply ex_whole; left|by apply double_of_int_represents|lia..].
Defined.

(** Alice pays Bob -2000: she has 3000 and Bob still 1000. *)
Lemma unchecked_amounts_witness :
  ex_paid (ex_request alice bob (-2000)) = true ∧
  pays_with (ex_request alice bob (-2000)) ex_Gt ex_Ga ex_world ex_bank
    (λ b', whole_balance b' alice_key 3000 ∧ whole_balance b' bob_key 1000).
Proof.
  split; [vm_compute; reflexivity|].
  apply (unchecked_amounts (ex_request alice bob (-2000)) ex_Gt ex_Ga ex_world ex_bank 1000 1000) with (n := 2000%Z);
    [exact ex_state|apply length_sha512_half|apply length_sha512_half|by vm_compute| |
     by apply ex_whole; left|by apply ex_whole; right|by apply double_of_int_represents|lia..].
  apply (bool_decide_eq_true_1 _). vm_compute. reflexivity.
Defined.
End example.
