(* ===== verification/Coding.v ===== *)
(** * RocksDB: encoding of integers and strings

    Models [src/src/rocksdb/util/coding.{h,cc}].  Fixed-width integers are little
    endian, variable-length integers are base 128, and a string is preceded by its
    length.  A [Slice] is the list of the bytes it refers to; a pointer together
    with its limit is the list of the bytes between them. *)

From S2P Require Import Prelude Varint.

(** ** Writing *)

Definition EncodeFixed32 (value : Z) : bytes := le_split 4 value.
Definition EncodeFixed64 (value : Z) : bytes := le_split 8 value.

Definition PutFixed32 (dst : bytes) (value : Z) : bytes := dst ++ EncodeFixed32 value.
Definition PutFixed64 (dst : bytes) (value : Z) : bytes := dst ++ EncodeFixed64 value.

Definition EncodeVarint32 (v : Z) : bytes :=
  let B := 128%Z in
  if Z.ltb v (Z.shiftl 1 7) then [byte.of_Z v]
  else if Z.ltb v (Z.shiftl 1 14) then
    [byte.of_Z (Z.lor v B); byte.of_Z (Z.shiftr v 7)]
  else if Z.ltb v (Z.shiftl 1 21) then
    [byte.of_Z (Z.lor v B); byte.of_Z (Z.lor (Z.shiftr v 7) B); byte.of_Z (Z.shiftr v 14)]
  else if Z.ltb v (Z.shiftl 1 28) then
    [byte.of_Z (Z.lor v B); byte.of_Z (Z.lor (Z.shiftr v 7) B);
     byte.of_Z (Z.lor (Z.shiftr v 14) B); byte.of_Z (Z.shiftr v 21)]
  else
    [byte.of_Z (Z.lor v B); byte.of_Z (Z.lor (Z.shiftr v 7) B);
     byte.of_Z (Z.lor (Z.shiftr v 14) B); byte.of_Z (Z.lor (Z.shiftr v 21) B);
     byte.of_Z (Z.shiftr v 28)].

Definition PutVarint32 (dst : bytes) (v : Z) : bytes := dst ++ EncodeVarint32 v.

(** The loop of [EncodeVarint64]; each turn removes seven bits, so ten turns are
    enough for 64. *)
Fixpoint EncodeVarint64_loop (n : nat) (v : Z) : bytes :=
  match n with
  | O => []
  | S n =>
      if Z.leb 128 v
      then byte.of_Z (Z.lor (Z.land v (128 - 1)) 128) :: EncodeVarint64_loop n (Z.shiftr v 7)
      else [byte.of_Z v]
  end.
Definition EncodeVarint64 (v : Z) : bytes := EncodeVarint64_loop 10 v.

Definition PutVarint64 (dst : bytes) (v : Z) : bytes := dst ++ EncodeVarint64 v.

(** The length is cut to 32 bits. *)
Definition PutLengthPrefixedSlice (dst value : bytes) : bytes :=
  PutVarint32 dst (u32 (Z.of_nat (length value))) ++ value.

Definition PutLengthPrefixedSliceParts (dst : bytes) (parts : list bytes) : bytes :=
  let total_bytes :=
    foldl (λ total part, u32 (total + Z.of_nat (length part)))%Z 0%Z parts in
  foldl (λ dst part, dst ++ part) (PutVarint32 dst total_bytes) parts.

Fixpoint VarintLength_loop (n : nat) (v : Z) (len : nat) : nat :=
  match n with
  | O => len
  | S n => if Z.leb 128 v then VarintLength_loop n (Z.shiftr v 7) (S len) else len
  end.
Definition VarintLength (v : Z) : nat := VarintLength_loop 10 v 1.

(** ** Reading *)

(** At least [n] bytes; looks at no more of them. *)
Definition has_bytes (n : nat) (p : bytes) : bool := Nat.eqb (length (take n p)) n.

(** These two do not check bounds. *)
Definition DecodeFixed32 (ptr : bytes) : outcome Z :=
  if has_bytes 4 ptr then Ok (le_combine (take 4 ptr)) else Err OutOfBounds.
Definition DecodeFixed64 (ptr : bytes) : outcome Z :=
  if has_bytes 8 ptr then Ok (le_combine (take 8 ptr)) else Err OutOfBounds.

(** The loop of the two readers of varints, at width [w]: turn [i] shifts by [7 * i]. *)
Fixpoint GetVarint_loop (w : Z) (n i : nat) (p : bytes) (result : Z) : option (Z * bytes) :=
  match n, p with
  | S n, b :: p =>
      let byte := byte.unsigned b in
      if last_byte byte
      then Some (Z.lor result (Z.shiftl byte (7 * Z.of_nat i) mod 2 ^ w)%Z, p)
      else GetVarint_loop w n (S i) p
             (Z.lor result (Z.shiftl (Z.land byte 127) (7 * Z.of_nat i) mod 2 ^ w)%Z)
  | _, _ => None
  end.
Definition GetVarint32PtrFallback (p : bytes) : option (Z * bytes) := GetVarint_loop 32 5 0 p 0.
Definition GetVarint64Ptr (p : bytes) : option (Z * bytes) := GetVarint_loop 64 10 0 p 0.

Definition GetVarint32Ptr (p : bytes) : option (Z * bytes) :=
  match p with
  | b :: q =>
      if last_byte (byte.unsigned b) then Some (byte.unsigned b, q) else GetVarint32PtrFallback p
  | [] => GetVarint32PtrFallback p
  end.

(** A reader that fails leaves its input as it was. *)
Definition GetFixed64 (input : bytes) : outcome (option Z * bytes) :=
  if decide (length input < 8) then Ok (None, input)
  else value ← DecodeFixed64 input; mret (Some value, drop 8 input).

Definition GetVarint32 (input : bytes) : option Z * bytes :=
  match GetVarint32Ptr input with
  | Some (value, q) => (Some value, q)
  | None => (None, input)
  end.
Definition GetVarint64 (input : bytes) : option Z * bytes :=
  match GetVarint64Ptr input with
  | Some (value, q) => (Some value, q)
  | None => (None, input)
  end.

(** When the string is too short its length has already been taken from the input. *)
Definition GetLengthPrefixedSlice (input : bytes) : option bytes * bytes :=
  match GetVarint32 input with
  | (Some len, input) =>
      if Z.leb len (Z.of_nat (length input))
      then (Some (take (Z.to_nat len) input), drop (Z.to_nat len) input)
      else (None, input)
  | (None, input) => (None, input)
  end.

(** ** Lemmas *)

Lemma has_bytes_true n p : n ≤ length p → has_bytes n p = true.
Proof. intros Hn. apply Nat.eqb_eq. rewrite length_take. lia. Qed.
Lemma has_bytes_false n p : length p < n → has_bytes n p = false.
Proof. intros Hn. apply Nat.eqb_neq. rewrite length_take. lia. Qed.

Lemma land_128_lor v : byte.of_Z (Z.lor (Z.land v (128 - 1)) 128) = byte.of_Z (Z.lor v 128).
Proof.
  apply byte.unsigned_inj. rewrite !varint_byte_cont, land_127. by rewrite Z.mod_mod.
Qed.

Lemma EncodeVarint64_loop_S n v :
  (0 ≤ v < 2 ^ (7 * Z.of_nat n))%Z → 0 < n → EncodeVarint64_loop (S n) v = EncodeVarint64_loop n v.
Proof.
  revert v; induction n as [|n IH]; intros v Hv Hn; [lia|].
  set (m := S n) in *. cbn [EncodeVarint64_loop]. subst m. cbn [EncodeVarint64_loop].
  destruct (Z.leb_spec 128 v) as [Hge|]; [|done]. f_equal.
  destruct n as [|n]; [cbn in Hv; lia|].
  rewrite <-(IH (Z.shiftr v 7)); [done| |lia]. rewrite shiftr_7. by apply varint_bound.
Qed.

Lemma EncodeVarint64_small v : is_u32 v → EncodeVarint64 v = EncodeVarint64_loop 5 v.
Proof. intros Hv. unfold EncodeVarint64. do 5 rewrite EncodeVarint64_loop_S by lia. done. Qed.

(** The unrolled encoder writes what the loop writes. *)
Lemma EncodeVarint32_loop v : is_u32 v → EncodeVarint32 v = EncodeVarint64 v.
Proof.
  intros Hv. rewrite EncodeVarint64_small by done. unfold EncodeVarint32.
  cbn [EncodeVarint64_loop]. rewrite !land_128_lor.
  rewrite !Z.shiftr_shiftr by lia. change (7 + 7)%Z with 14%Z.
  change (14 + 7)%Z with 21%Z. change (21 + 7)%Z with 28%Z.
  rewrite !Z.shiftl_1_l.
  assert (∀ k, (0 ≤ k)%Z → Z.leb 128 (Z.shiftr v k) = negb (Z.ltb v (2 ^ (k + 7)))) as Hleb.
  { intros k Hk. rewrite Z.shiftr_div_pow2, Z.pow_add_r by lia. pose proof (Z.pow_pos_nonneg 2 k).
    apply eq_bool_prop_intro. rewrite negb_True, !Is_true_true, Z.leb_le, Z.ltb_lt.
    change (2 ^ 7)%Z with 128%Z. rewrite Z.nlt_ge. split; intros Hx.
    - pose proof (Z.mul_div_le v (2 ^ k)). nia.
    - apply Z.div_le_lower_bound; lia. }
  rewrite !Hleb by lia.
  replace (Z.leb 128 v) with (negb (Z.ltb v (2 ^ 7)))
    by (change (2 ^ 7)%Z with 128%Z; by rewrite Z.ltb_antisym, negb_involutive).
  change (7 + 7)%Z with 14%Z. change (14 + 7)%Z with 21%Z. change (21 + 7)%Z with 28%Z.
  change (28 + 7)%Z with 35%Z.
  assert (Z.ltb v (2 ^ 35) = true) as -> by (apply Z.ltb_lt; lia).
  destruct (Z.ltb v (2 ^ 7)) eqn:?; [done|]. destruct (Z.ltb v (2 ^ 14)) eqn:?; [done|].
  destruct (Z.ltb v (2 ^ 21)) eqn:?; [done|]. by destruct (Z.ltb v (2 ^ 28)) eqn:?.
Qed.

Lemma GetVarint_loop_write w n i v rest result :
  0 < n → (0 ≤ w)%Z → (0 ≤ v < 2 ^ (7 * Z.of_nat n))%Z → (v * 2 ^ (7 * Z.of_nat i) < 2 ^ w)%Z →
  (0 ≤ result < 2 ^ (7 * Z.of_nat i))%Z →
  GetVarint_loop w n i (EncodeVarint64_loop n v ++ rest) result =
    Some ((result + v * 2 ^ (7 * Z.of_nat i))%Z, rest).
Proof.
  intros Hn Hw. revert i v result. induction n as [|n IH]; intros i v result Hv Hb Hr; [lia|].
  cbn [EncodeVarint64_loop]. destruct (Z.leb_spec 128 v) as [Hge|Hlt]; cbn [GetVarint_loop app].
  - destruct n as [|n]; [cbn in Hv; lia|].
    rewrite land_128_lor, varint_byte_cont, last_byte_cont, land_127.
    pose proof (Z.mod_pos_bound v 128 ltac:(lia)).
    assert ((v mod 128 + 128) mod 128 = v mod 128)%Z as ->.
    { rewrite <-Z.add_mod_idemp_r, Z.mod_same, Z.add_0_r by lia. by rewrite Z.mod_mod. }
    rewrite Z.shiftl_mul_pow2 by lia. rewrite split_128 in Hb.
    pose proof (Z.div_pos v 128 ltac:(lia) ltac:(lia)).
    assert (0 < 2 ^ (7 * Z.of_nat i))%Z by (apply Z.pow_pos_nonneg; lia).
    assert (0 < 2 ^ (7 * Z.of_nat (S i)))%Z by (apply Z.pow_pos_nonneg; lia).
    rewrite Z.mod_small by nia. rewrite lor_shifted by lia. rewrite shiftr_7.
    rewrite IH; [|lia|by apply varint_bound|nia|rewrite pow_7_S; nia].
    do 2 f_equal. rewrite (split_128 v i). lia.
  - rewrite varint_byte_last, last_byte_last by lia.
    rewrite Z.shiftl_mul_pow2 by lia.
    assert (0 < 2 ^ (7 * Z.of_nat i))%Z by (apply Z.pow_pos_nonneg; lia).
    rewrite Z.mod_small by nia. rewrite lor_shifted by lia. done.
Qed.

Lemma GetVarint64_write v rest : is_u64 v → GetVarint64 (EncodeVarint64 v ++ rest) = (Some v, rest).
Proof.
  intros Hv. unfold GetVarint64, GetVarint64Ptr, EncodeVarint64.
  rewrite GetVarint_loop_write by (cbn; lia). do 2 f_equal. cbn; lia.
Qed.

Lemma EncodeVarint32_nonempty v : ∃ b q, EncodeVarint32 v = b :: q.
Proof. unfold EncodeVarint32. repeat case_match; eauto. Qed.

Lemma GetVarint32_write v rest : is_u32 v → GetVarint32 (EncodeVarint32 v ++ rest) = (Some v, rest).
Proof.
  intros Hv. unfold GetVarint32.
  assert (GetVarint32PtrFallback (EncodeVarint32 v ++ rest) = Some (v, rest)) as Hf.
  { rewrite EncodeVarint32_loop, EncodeVarint64_small by done. unfold GetVarint32PtrFallback.
    rewrite GetVarint_loop_write by (cbn; lia). do 2 f_equal. cbn; lia. }
  enough (GetVarint32Ptr (EncodeVarint32 v ++ rest) = Some (v, rest)) as -> by done.
  revert Hf. destruct (EncodeVarint32_nonempty v) as (b & q & ->). cbn [app GetVarint32Ptr].
  destruct (last_byte (byte.unsigned b)) eqn:Eb; [|done].
  unfold GetVarint32PtrFallback. cbn [GetVarint_loop]. rewrite Eb. intros Hf. rewrite <-Hf.
  pose proof (byte.unsigned_range b). rewrite Z.shiftl_0_r, Z.lor_0_l, Z.mod_small by lia. done.
Qed.

Lemma GetVarint32Ptr_write v rest : is_u32 v → GetVarint32Ptr (EncodeVarint32 v ++ rest) = Some (v, rest).
Proof.
  intros Hv. pose proof (GetVarint32_write v rest Hv) as E. unfold GetVarint32 in E.
  destruct (GetVarint32Ptr _) as [[w q]|]; congruence.
Qed.

Lemma length_EncodeVarint32 v : length (EncodeVarint32 v) ≤ 5.
Proof. unfold EncodeVarint32. repeat case_match; cbn; lia. Qed.

Lemma length_EncodeVarint32_mono v w : (v ≤ w)%Z → length (EncodeVarint32 v) ≤ length (EncodeVarint32 w).
Proof. intros Hvw. unfold EncodeVarint32. repeat case_match; rewrite ?Z.ltb_lt, ?Z.ltb_ge in *; cbn [length]; lia. Qed.

Lemma VarintLength_loop_length n v len :
  0 < n → VarintLength_loop n v (S len) = len + length (EncodeVarint64_loop n v) ∨
    (2 ^ (7 * Z.of_nat n) ≤ v)%Z.
Proof.
  intros Hn. revert v len. induction n as [|n IH]; intros v len; [lia|].
  cbn [VarintLength_loop EncodeVarint64_loop]. destruct (Z.leb_spec 128 v); [|cbn; lia].
  destruct n as [|n]; [right; cbn; lia|]. destruct (IH ltac:(lia) (Z.shiftr v 7) (S len)) as [->|Hv].
  - left. cbn [length]. lia.
  - right. rewrite shiftr_7 in Hv. rewrite pow_7_S. pose proof (Z.mul_div_le v 128). lia.
Qed.

Lemma VarintLength_correct v : is_u64 v → VarintLength v = length (EncodeVarint64 v).
Proof.
  intros Hv. unfold VarintLength, EncodeVarint64.
  destruct (VarintLength_loop_length 10 v 0) as [->|]; lia.
Qed.

Lemma VarintLength_32 v : is_u32 v → VarintLength v = length (EncodeVarint32 v).
Proof. intros Hv. rewrite EncodeVarint32_loop by done. apply VarintLength_correct. lia. Qed.

(** A string that fits 32 bits is read back. *)
Abbreviation fits32 s := (Z.of_nat (length s) < 2 ^ 32)%Z.

Lemma GetLengthPrefixedSlice_write s rest :
  fits32 s → GetLengthPrefixedSlice (PutLengthPrefixedSlice [] s ++ rest) = (Some s, rest).
Proof.
  intros Hs. unfold GetLengthPrefixedSlice, PutLengthPrefixedSlice, PutVarint32.
  rewrite app_nil_l, <-app_assoc, GetVarint32_write by (apply Z.mod_pos_bound; lia).
  rewrite Z.mod_small by lia. rewrite length_app, Nat2Z.id.
  rewrite (proj2 (Z.leb_le _ _)) by lia. by rewrite take_app_length, drop_app_length.
Qed.

Lemma PutLengthPrefixedSlice_app dst s :
  PutLengthPrefixedSlice dst s = dst ++ PutLengthPrefixedSlice [] s.
Proof. unfold PutLengthPrefixedSlice, PutVarint32. by rewrite <-!app_assoc. Qed.

Lemma foldl_app_concat (dst : bytes) parts : foldl (λ dst part, dst ++ part) dst parts = dst ++ concat parts.
Proof.
  revert dst. induction parts as [|p ps IH]; intros dst; cbn; [by rewrite app_nil_r|].
  by rewrite IH, <-app_assoc.
Qed.

(** Gathering the parts of a string writes the string. *)
Lemma PutLengthPrefixedSliceParts_concat dst parts :
  PutLengthPrefixedSliceParts dst parts = PutLengthPrefixedSlice dst (concat parts).
Proof.
  unfold PutLengthPrefixedSliceParts, PutLengthPrefixedSlice. rewrite foldl_app_concat.
  do 2 f_equal.
  assert (∀ t, foldl (λ t part, u32 (t + Z.of_nat (length part)))%Z (u32 t) parts =
    u32 (t + Z.of_nat (length (concat parts))))%Z as H; [|exact (H 0%Z)].
  induction parts as [|p ps IH]; intros t; cbn; [by rewrite Z.add_0_r|].
  rewrite Z.add_mod_idemp_l by lia. rewrite IH, length_app. f_equal. lia.
Qed.

Lemma length_EncodeFixed32 v : length (EncodeFixed32 v) = 4.
Proof. apply length_le_split. Qed.
Lemma length_EncodeFixed64 v : length (EncodeFixed64 v) = 8.
Proof. apply length_le_split. Qed.

Lemma DecodeFixed32_write v rest : is_u32 v → DecodeFixed32 (EncodeFixed32 v ++ rest) = Ok v.
Proof.
  intros Hv. unfold DecodeFixed32, EncodeFixed32.
  rewrite has_bytes_true by (rewrite length_app, length_le_split; lia).
  rewrite take_app_length' by (by rewrite length_le_split).
  rewrite le_combine_split, Z.mod_small by lia. done.
Qed.

Lemma DecodeFixed64_write v rest : is_u64 v → DecodeFixed64 (EncodeFixed64 v ++ rest) = Ok v.
Proof.
  intros Hv. unfold DecodeFixed64, EncodeFixed64.
  rewrite has_bytes_true by (rewrite length_app, length_le_split; lia).
  rewrite take_app_length' by (by rewrite length_le_split).
  rewrite le_combine_split, Z.mod_small by lia. done.
Qed.

(** ** Properties *)

(** The integer and string encodings of the database are read back.  Varints of
    both widths, fixed-width integers and length-prefixed strings followed by any
    bytes decode to the value and exactly those bytes; the unrolled 32-bit encoder
    writes what the 64-bit loop writes, and [VarintLength] is the number of bytes. *)
Theorem coding_round_trip v w s rest :
  is_u32 v → is_u64 w → fits32 s →
  GetVarint32 (EncodeVarint32 v ++ rest) = (Some v, rest) ∧
  GetVarint64 (EncodeVarint64 w ++ rest) = (Some w, rest) ∧
  EncodeVarint32 v = EncodeVarint64 v ∧ VarintLength w = length (EncodeVarint64 w) ∧
  DecodeFixed32 (EncodeFixed32 v ++ rest) = Ok v ∧
  GetFixed64 (EncodeFixed64 w ++ rest) = Ok (Some w, rest) ∧
  GetLengthPrefixedSlice (PutLengthPrefixedSlice [] s ++ rest) = (Some s, rest).
Proof.
  intros Hv Hw Hs. split_and!; [by apply GetVarint32_write|by apply GetVarint64_write|
    by apply EncodeVarint32_loop|by apply VarintLength_correct|by apply DecodeFixed32_write| |
    by apply GetLengthPrefixedSlice_write].
  unfold GetFixed64. rewrite decide_False by (rewrite length_app, length_EncodeFixed64; lia).
  rewrite DecodeFixed64_write by done. mred.
  by rewrite drop_app_length' by (by rewrite length_EncodeFixed64).
Qed.

Lemma coding_round_trip_witness :
  GetVarint32 (EncodeVarint32 300 ++ [Byte.x07]) = (Some 300%Z, [Byte.x07]) ∧
  GetVarint64 (EncodeVarint64 (2 ^ 63) ++ [Byte.x07]) = (Some (2 ^ 63)%Z, [Byte.x07]) ∧
  VarintLength (2 ^ 63) = 10.
Proof.
  destruct (coding_round_trip 300 (2 ^ 63) (str "key") [Byte.x07]) as (H1 & H2 & _ & H4 & _);
    [lia|lia|cbn; lia|].
  split; [exact H1|]. split; [exact H2|exact H4].
Defined.
