(* ===== verification/Crc32c.v ===== *)
(** * RocksDB: the checksum

    Models [src/src/rocksdb/util/crc32c.{h,cc}] and shows that the table-driven
    code computes the CRC-32C of its input, bit by bit.

    The processor is a parameter: whether the code is compiled for the CRC
    instruction, what the instruction computes, what [cpuid] answers, and at which
    address a buffer lies. *)

From S2P Require Import Prelude Varint Coding CrcTables.

(** ** The reference: one bit at a time *)

(** The Castagnoli polynomial, lowest bit first. *)
Definition castagnoli : Z := 0x82f63b78.

Definition crc_bit (c : Z) : Z :=
  if Z.odd c then Z.lxor (Z.shiftr c 1) castagnoli else Z.shiftr c 1.
Fixpoint crc_bits (n : nat) (c : Z) : Z :=
  match n with O => c | S n => crc_bit (crc_bits n c) end.
Definition crc_byte (l : Z) (b : byte) : Z := crc_bits 8 (Z.lxor l (byte.unsigned b)).

Definition crc32c (crc : Z) (data : bytes) : Z :=
  Z.lxor (foldl crc_byte (Z.lxor crc 0xffffffff) data) 0xffffffff.

(** ** The code *)

Record platform := mkPlatform {
  mm_crc32_u64 : option (Z → Z → Z);  (** [None]: compiled without [__SSE4_2__] *)
  cpuid_ecx : Z;
  address : bytes → Z;
}.

Definition table_entry (t : list Z) (i : Z) : outcome Z := of_option OutOfBounds (t !! Z.to_nat i).

Definition LE_LOAD32 (p : bytes) : outcome Z := DecodeFixed32 p.
Definition LE_LOAD64 (p : bytes) : outcome Z := DecodeFixed64 p.

(** The half of [Slow_CRC32] that it does twice. *)
Definition Slow_CRC32_half (lp : Z * bytes) : outcome (Z * bytes) :=
  let '(l, p) := lp in
  v ← LE_LOAD32 p;
  let c := u32 (Z.lxor l v) in
  t3 ← table_entry table3_ (Z.land c 0xff);
  t2 ← table_entry table2_ (Z.land (Z.shiftr c 8) 0xff);
  t1 ← table_entry table1_ (Z.land (Z.shiftr c 16) 0xff);
  t0 ← table_entry table0_ (Z.shiftr c 24);
  mret (Z.lxor (Z.lxor (Z.lxor t3 t2) t1) t0, drop 4 p).

Definition Slow_CRC32 (lp : Z * bytes) : outcome (Z * bytes) :=
  lp ← Slow_CRC32_half lp; Slow_CRC32_half lp.

Definition Fast_CRC32 (pl : platform) (lp : Z * bytes) : outcome (Z * bytes) :=
  match mm_crc32_u64 pl with
  | Some crc => v ← LE_LOAD64 lp.2; mret (crc lp.1 v, drop 8 lp.2)
  | None => Slow_CRC32 lp
  end.

(** [STEP1], with the byte it reads. *)
Definition STEP1 (l : Z) (b : byte) : outcome Z :=
  let c := Z.lxor (Z.land l 0xff) (byte.unsigned b) in
  t ← table_entry table0_ c;
  mret (Z.lxor t (Z.shiftr l 8)).

(** [n] times [STEP1], moving [p] forward. *)
Fixpoint step_bytes (n : nat) (lp : Z * bytes) : outcome (Z * bytes) :=
  match n, lp.2 with
  | O, _ => Ok lp
  | S n, b :: p => l ← STEP1 lp.1 b; step_bytes n (l, p)
  | S n, [] => Err OutOfBounds
  end.

Definition ALIGN (n m : Z) : Z :=
  Z.land (u64 (n + (Z.shiftl 1 m - 1))) (u64 (Z.lnot (Z.shiftl 1 m - 1))).

(** [while ((e - p) >= width) body;] *)
Fixpoint crc_loop (fuel width : nat) (body : Z * bytes → outcome (Z * bytes)) (lp : Z * bytes)
    : outcome (Z * bytes) :=
  if has_bytes width lp.2 then
    match fuel with
    | O => Err OutOfFuel
    | S fuel => lp ← body lp; crc_loop fuel width body lp
    end
  else Ok lp.

Definition ExtendImpl (CRC32 : Z * bytes → outcome (Z * bytes)) (pval crc : Z) (buf : bytes)
    : outcome Z :=
  let size := length buf in
  let l := Z.lxor crc 0xffffffff in
  let x := ALIGN pval 4 in
  lp ← (if Z.leb x (pval + Z.of_nat size) then step_bytes (Z.to_nat (x - pval)) (l, buf)
        else mret (l, buf));
  lp ← crc_loop size 16 (λ lp, lp ← CRC32 lp; CRC32 lp) lp;
  lp ← crc_loop size 8 CRC32 lp;
  lp ← step_bytes (length lp.2) lp;
  mret (u32 (Z.lxor lp.1 0xffffffff)).

Definition isSSE42 (pl : platform) : bool := Z.testbit (cpuid_ecx pl) 20.

Definition Choose_Extend (pl : platform) : Z → Z → bytes → outcome Z :=
  if isSSE42 pl then ExtendImpl (Fast_CRC32 pl) else ExtendImpl Slow_CRC32.

Definition Extend (pl : platform) (crc : Z) (buf : bytes) : outcome Z :=
  Choose_Extend pl (address pl buf) crc buf.

Definition Value (pl : platform) (data : bytes) : outcome Z := Extend pl 0 data.

Definition kMaskDelta : Z := 0xa282ead8.
Definition Mask (crc : Z) : Z :=
  u32 (Z.lor (Z.shiftr crc 15) (u32 (Z.shiftl crc 17)) + kMaskDelta).
Definition Unmask (masked_crc : Z) : Z :=
  let rot := u32 (masked_crc - kMaskDelta) in
  Z.lor (Z.shiftr rot 17) (u32 (Z.shiftl rot 15)).

(** What the code relies on: the instruction folds eight bytes into the checksum,
    and buffers lie in the lower half of the address space. *)
Record platform_ok (pl : platform) : Prop := {
  crc_instruction crc : mm_crc32_u64 pl = Some crc →
    ∀ l v, is_u32 l → is_u64 v → crc l v = crc_bits 64 (Z.lxor l v);
  address_low b : (Z.of_nat (length b) < 2 ^ 62)%Z →
    (0 ≤ address pl b ∧ address pl b + Z.of_nat (length b) ≤ 2 ^ 63)%Z;
}.

(** ** The bitwise checksum is linear *)

Lemma crc_bit_lxor a b : crc_bit (Z.lxor a b) = Z.lxor (crc_bit a) (crc_bit b).
Proof.
  unfold crc_bit. rewrite <-!Z.bit0_odd, Z.lxor_spec, Z.shiftr_lxor.
  destruct (Z.testbit a 0), (Z.testbit b 0); cbn [xorb]; apply Z.bits_inj'; intros n _;
    rewrite ?Z.lxor_spec;
    by destruct (Z.testbit (Z.shiftr a 1) n), (Z.testbit (Z.shiftr b 1) n), (Z.testbit castagnoli n).
Qed.

Lemma crc_bits_lxor n a b : crc_bits n (Z.lxor a b) = Z.lxor (crc_bits n a) (crc_bits n b).
Proof. induction n as [|n IH]; cbn; [done|]. by rewrite IH, crc_bit_lxor. Qed.

Lemma crc_bits_add n m c : crc_bits (n + m) c = crc_bits n (crc_bits m c).
Proof. induction n as [|n IH]; cbn; [done|]. by rewrite IH. Qed.

Lemma crc_bits_shiftl n y : crc_bits n (Z.shiftl y (Z.of_nat n)) = y.
Proof.
  induction n as [|n IH]; [apply Z.shiftl_0_r|].
  replace (S n) with (n + 1) by lia. rewrite crc_bits_add.
  replace (crc_bits 1 (Z.shiftl y (Z.of_nat (n + 1)))) with (Z.shiftl y (Z.of_nat n)); [done|].
  cbn. unfold crc_bit.
  replace (Z.of_nat (n + 1)) with (Z.of_nat n + 1)%Z by lia. rewrite <-Z.shiftl_shiftl by lia.
  rewrite <-Z.bit0_odd, Z.shiftl_spec_low by lia.
  rewrite Z.shiftr_shiftl_l, Z.sub_diag, Z.shiftl_0_r by lia. done.
Qed.

Lemma lxor_split c n : (0 ≤ n)%Z → c = Z.lxor (c mod 2 ^ n) (Z.shiftl (Z.shiftr c n) n).
Proof.
  intros Hn. apply Z.bits_inj'. intros j Hj. rewrite Z.lxor_spec.
  destruct (Z.ltb_spec j n).
  - rewrite Z.mod_pow2_bits_low by lia. rewrite Z.shiftl_spec_low by lia. by rewrite xorb_false_r.
  - rewrite Z.mod_pow2_bits_high by lia. rewrite Z.shiftl_spec_high, Z.shiftr_spec by lia.
    rewrite xorb_false_l. f_equal. lia.
Qed.

(** ** The tables *)

Definition table_check (t : list Z) (n : nat) : bool :=
  bool_decide (t = (λ i, crc_bits n (Z.of_nat i)) <$> seq 0 256).

Lemma table_entry_spec t n i :
  table_check t n = true → (0 ≤ i < 256)%Z → table_entry t i = Ok (crc_bits n i).
Proof.
  intros Ht Hi. apply bool_decide_eq_true_1 in Ht. unfold table_entry. rewrite Ht.
  rewrite list_lookup_fmap, lookup_seq_lt by lia. cbn. by rewrite Z2Nat.id by lia.
Qed.

Lemma table0_entry i : (0 ≤ i < 256)%Z → table_entry table0_ i = Ok (crc_bits 8 i).
Proof. apply table_entry_spec. vm_compute. reflexivity. Qed.
Lemma table1_entry i : (0 ≤ i < 256)%Z → table_entry table1_ i = Ok (crc_bits 16 i).
Proof. apply table_entry_spec. vm_compute. reflexivity. Qed.
Lemma table2_entry i : (0 ≤ i < 256)%Z → table_entry table2_ i = Ok (crc_bits 24 i).
Proof. apply table_entry_spec. vm_compute. reflexivity. Qed.
Lemma table3_entry i : (0 ≤ i < 256)%Z → table_entry table3_ i = Ok (crc_bits 32 i).
Proof. apply table_entry_spec. vm_compute. reflexivity. Qed.

Lemma crc_bits_8 y : crc_bits 8 (Z.shiftl y 8) = y.
Proof. pose proof (crc_bits_shiftl 8 y) as H. by change (Z.of_nat 8) with 8%Z in H. Qed.

Lemma crc_bits_above_8 m y : crc_bits (m + 8) (Z.shiftl y 8) = crc_bits m y.
Proof. by rewrite crc_bits_add, crc_bits_8. Qed.

Lemma unsigned_256 b : (0 ≤ byte.unsigned b < 256)%Z.
Proof. exact (byte.unsigned_range b). Qed.

Lemma testbit_high x n j : (0 ≤ x < 2 ^ n)%Z → (n ≤ j)%Z → Z.testbit x j = false.
Proof.
  intros Hx Hj. destruct (decide (0 ≤ n)%Z) as [Hn|Hn].
  - rewrite <-(Z.mod_small x (2 ^ n)) by lia. apply Z.mod_pow2_bits_high. lia.
  - rewrite Z.pow_neg_r in Hx by lia. lia.
Qed.

Lemma lxor_bound n a b : (0 ≤ n)%Z → (0 ≤ a < 2 ^ n)%Z → (0 ≤ b < 2 ^ n)%Z → (0 ≤ Z.lxor a b < 2 ^ n)%Z.
Proof.
  intros Hn Ha Hb. split; [apply Z.lxor_nonneg; lia|].
  destruct (Z.eq_dec (Z.lxor a b) 0) as [->|Hz]; [lia|].
  assert (0 ≤ Z.lxor a b)%Z by (apply Z.lxor_nonneg; lia).
  destruct (Z.ltb_spec (Z.lxor a b) (2 ^ n)) as [|Hge]; [done|].
  assert (n ≤ Z.log2 (Z.lxor a b))%Z by (apply Z.log2_le_pow2; lia).
  pose proof (Z.bit_log2 (Z.lxor a b) ltac:(lia)) as Hbit.
  rewrite Z.lxor_spec, !(testbit_high _ n) in Hbit by done. done.
Qed.

Lemma crc_bit_u32 c : is_u32 c → is_u32 (crc_bit c).
Proof.
  intros Hc. assert (is_u32 (Z.shiftr c 1)).
  { rewrite Z.shiftr_div_pow2 by lia. change (2 ^ 1)%Z with 2%Z.
    split; [apply Z.div_pos; lia|]. apply Z.div_lt_upper_bound; lia. }
  unfold crc_bit. case_match; [|done]. apply lxor_bound; [lia|done|]. unfold castagnoli. lia.
Qed.

Lemma crc_bits_u32 n c : is_u32 c → is_u32 (crc_bits n c).
Proof. intros Hc. induction n as [|n IH]; [done|]. by apply crc_bit_u32. Qed.

#[local] Opaque crc_bits.

(** ** The code computes the reference *)

Lemma crc_byte_u32 l b : is_u32 l → is_u32 (crc_byte l b).
Proof.
  intros Hl. apply crc_bits_u32, lxor_bound; [lia|done|]. pose proof (unsigned_256 b). lia.
Qed.

Lemma crc_bytes_u32 l data : is_u32 l → is_u32 (foldl crc_byte l data).
Proof.
  revert l. induction data as [|b data IH]; intros l Hl; [done|]. apply IH. by apply crc_byte_u32.
Qed.

Lemma STEP1_spec l b : (0 ≤ l)%Z → STEP1 l b = Ok (crc_byte l b).
Proof.
  intros Hl. unfold STEP1. change 0xff%Z with (Z.ones 8). rewrite Z.land_ones by lia.
  pose proof (unsigned_256 b). pose proof (Z.mod_pos_bound l (2 ^ 8) ltac:(lia)).
  assert (0 ≤ Z.lxor (l mod 2 ^ 8) (byte.unsigned b) < 2 ^ 8)%Z by (apply lxor_bound; lia).
  rewrite table0_entry by (change 256%Z with (2 ^ 8)%Z; done). mred. f_equal.
  unfold crc_byte. rewrite (lxor_split l 8) at 3 by lia.
  rewrite Z.lxor_assoc, (Z.lxor_comm (Z.shiftl _ _)), <-Z.lxor_assoc.
  rewrite (crc_bits_lxor 8 (Z.lxor _ _) (Z.shiftl _ _)). by rewrite crc_bits_8.
Qed.

(** Folding bytes in one after the other is folding in the number they encode. *)
Lemma crc_bytes_combine l data :
  foldl crc_byte l data = crc_bits (8 * length data) (Z.lxor l (le_combine data)).
Proof.
  revert l. induction data as [|b data IH]; intros l; [cbn; by rewrite Z.lxor_0_r|].
  cbn [foldl length]. rewrite IH. unfold crc_byte.
  replace (8 * S (length data)) with (8 * length data + 8) by lia. rewrite crc_bits_add. f_equal.
  rewrite <-(crc_bits_8 (le_combine data)) at 1. rewrite <-crc_bits_lxor. f_equal. rewrite Z.lxor_assoc. f_equal.
  change (le_combine (b :: data)) with (Z.lor (byte.unsigned b) (Z.shiftl (le_combine data) 8)).
  rewrite Z.shiftl_mul_pow2 by lia.
  pose proof (le_combine_bound data). pose proof (unsigned_256 b).
  apply Z.lxor_lor.
  apply Z.bits_inj'. intros j Hj. rewrite Z.land_spec, Z.bits_0.
  destruct (Z.ltb_spec j 8).
  - rewrite Z.mul_pow2_bits_low by done. by rewrite andb_false_r.
  - rewrite (testbit_high _ 8) by (change (2 ^ 8)%Z with 256%Z; lia). done.
Qed.

(** The reduction of the four tables is 32 bits of the reference. *)
Lemma four_tables c : is_u32 c →
  Z.lxor (Z.lxor (Z.lxor (crc_bits 32 (c mod 2 ^ 8)) (crc_bits 24 (Z.shiftr c 8 mod 2 ^ 8)))
    (crc_bits 16 (Z.shiftr c 16 mod 2 ^ 8))) (crc_bits 8 (Z.shiftr c 24)) = crc_bits 32 c.
Proof.
  intros Hc.
  assert (∀ m k x, Z.lxor (crc_bits (m + 8) (Z.shiftr x k mod 2 ^ 8)) (crc_bits m (Z.shiftr (Z.shiftr x k) 8)) =
    crc_bits (m + 8) (Z.shiftr x k)) as Hstep.
  { intros m k x. rewrite (lxor_split (Z.shiftr x k) 8) at 3 by lia. rewrite crc_bits_lxor.
    by rewrite crc_bits_above_8. }
  pose proof (Hstep 24 0%Z c) as H1. pose proof (Hstep 16 8%Z c) as H2. pose proof (Hstep 8 16%Z c) as H3.
  rewrite Z.shiftr_shiftr in H1, H2, H3 by lia. rewrite Z.shiftr_0_r in H1. cbn [Nat.add] in *.
  change (0 + 8)%Z with 8%Z in *. change (8 + 8)%Z with 16%Z in *. change (16 + 8)%Z with 24%Z in *.
  rewrite <-H1, <-H2, <-H3. by rewrite !Z.lxor_assoc.
Qed.

Lemma Slow_CRC32_half_spec l p : is_u32 l → 4 ≤ length p →
  Slow_CRC32_half (l, p) = Ok (foldl crc_byte l (take 4 p), drop 4 p).
Proof.
  intros Hl Hp. unfold Slow_CRC32_half, LE_LOAD32, DecodeFixed32. rewrite has_bytes_true by done. mred.
  pose proof (le_combine_bound (take 4 p)) as Hb. rewrite length_take, Nat.min_l in Hb by lia.
  rewrite crc_bytes_combine, length_take, Nat.min_l by lia.
  change (8 * 4) with 32. set (v := le_combine (take 4 p)) in *.
  assert (is_u32 (Z.lxor l v)) as Hc by (apply lxor_bound; lia).
  rewrite Z.mod_small by done. set (c := Z.lxor l v) in *.
  change 0xff%Z with (Z.ones 8). rewrite !Z.land_ones by lia.
  rewrite table3_entry by (apply Z.mod_pos_bound; lia). mred.
  rewrite table2_entry by (apply Z.mod_pos_bound; lia). mred.
  rewrite table1_entry by (apply Z.mod_pos_bound; lia). mred.
  rewrite table0_entry; [mred; by rewrite four_tables|].
  rewrite Z.shiftr_div_pow2 by lia. split; [apply Z.div_pos; lia|].
  apply Z.div_lt_upper_bound; lia.
Qed.

(** [body] folds the next [k] bytes in. *)
Definition folds (k : nat) (body : Z * bytes → outcome (Z * bytes)) : Prop :=
  ∀ l p, is_u32 l → k ≤ length p → body (l, p) = Ok (foldl crc_byte l (take k p), drop k p).

Lemma folds_twice k body : folds k body → folds (k + k) (λ lp, lp ← body lp; body lp).
Proof.
  intros Hf l p Hl Hp. rewrite Hf by (done || lia). mred.
  rewrite Hf by (rewrite ?length_drop; (by apply crc_bytes_u32) || lia). do 2 f_equal.
  - rewrite <-foldl_app. f_equal. by rewrite take_take_drop.
  - by rewrite drop_drop.
Qed.

Lemma folds_Slow : folds 8 Slow_CRC32.
Proof. apply (folds_twice 4). intros l p. apply Slow_CRC32_half_spec. Qed.

Lemma folds_Fast pl : platform_ok pl → folds 8 (Fast_CRC32 pl).
Proof.
  intros Hpl l p Hl Hp. unfold Fast_CRC32. destruct (mm_crc32_u64 pl) as [crc|] eqn:E; [|by apply folds_Slow].
  cbn [fst snd]. unfold LE_LOAD64, DecodeFixed64. rewrite has_bytes_true by done. mred.
  pose proof (le_combine_bound (take 8 p)) as Hb. rewrite length_take, Nat.min_l in Hb by lia.
  rewrite (crc_instruction pl Hpl crc E) by lia.
  by rewrite crc_bytes_combine, length_take, Nat.min_l by lia.
Qed.

Lemma step_bytes_spec n l p : is_u32 l → n ≤ length p →
  step_bytes n (l, p) = Ok (foldl crc_byte l (take n p), drop n p).
Proof.
  revert l p. induction n as [|n IH]; intros l p Hl Hp; [by rewrite take_0, drop_0|].
  destruct p as [|b p]; cbn in Hp; [lia|]. cbn [step_bytes fst snd].
  rewrite STEP1_spec by lia. mred. rewrite IH by (lia || by apply crc_byte_u32). done.
Qed.

(** What a loop leaves, and that its fuel is enough. *)
Lemma crc_loop_spec fuel k body l p : folds k body → 0 < k → is_u32 l → length p ≤ fuel →
  ∃ n, n ≤ length p ∧ length p - n < k ∧
    crc_loop fuel k body (l, p) = Ok (foldl crc_byte l (take n p), drop n p).
Proof.
  intros Hf Hk. revert l p. induction fuel as [|fuel IH]; intros l p Hl Hp; cbn [crc_loop snd].
  - rewrite has_bytes_false by lia. exists 0. split_and!; [lia..|]. by rewrite take_0, drop_0.
  - destruct (decide (k ≤ length p)) as [Hle|Hgt].
    + rewrite has_bytes_true by done. rewrite Hf by done. mred.
      destruct (IH (foldl crc_byte l (take k p)) (drop k p)) as (n & Hn & Hr & ->);
        [by apply crc_bytes_u32|rewrite length_drop; lia|]. rewrite length_drop in *.
      exists (k + n). split_and!; [lia..|]. rewrite <-foldl_app, take_take_drop, drop_drop. done.
    + rewrite has_bytes_false by lia. exists 0. split_and!; [lia..|]. by rewrite take_0, drop_0.
Qed.

Lemma ALIGN_16 pval : (0 ≤ pval ≤ 2 ^ 63)%Z → (pval ≤ ALIGN pval 4)%Z.
Proof.
  intros Hp. unfold ALIGN. change (Z.shiftl 1 4 - 1)%Z with 15%Z.
  rewrite (Z.mod_small (pval + 15)) by lia.
  change (u64 (Z.lnot 15)) with (Z.ldiff (Z.ones 64) (Z.ones 4)).
  assert (Z.land (pval + 15) (Z.ldiff (Z.ones 64) (Z.ones 4)) = Z.ldiff (pval + 15) (Z.ones 4)) as ->.
  { apply Z.bits_inj'. intros j Hj. rewrite Z.land_spec, !Z.ldiff_spec.
    destruct (Z.ltb_spec j 64).
    - rewrite (Z.ones_spec_low 64) by lia. done.
    - rewrite (testbit_high (pval + 15) 64) by lia. done. }
  rewrite Z.ldiff_ones_r by lia. rewrite Z.shiftr_div_pow2, Z.shiftl_mul_pow2 by lia.
  change (2 ^ 4)%Z with 16%Z. pose proof (Z.div_mod (pval + 15) 16).
  pose proof (Z.mod_pos_bound (pval + 15) 16). lia.
Qed.

Lemma ExtendImpl_spec CRC32 pval crc buf :
  folds 8 CRC32 → is_u32 crc → (0 ≤ pval)%Z → (pval + Z.of_nat (length buf) ≤ 2 ^ 63)%Z →
  ExtendImpl CRC32 pval crc buf = Ok (crc32c crc buf).
Proof.
  intros Hf Hcrc Hp Hend. unfold ExtendImpl.
  assert (is_u32 (Z.lxor crc 0xffffffff)) as Hl by (apply lxor_bound; lia).
  set (l := Z.lxor crc 0xffffffff) in *.
  assert (∃ a, a ≤ length buf ∧
    (if Z.leb (ALIGN pval 4) (pval + Z.of_nat (length buf))
     then step_bytes (Z.to_nat (ALIGN pval 4 - pval)) (l, buf) else mret (l, buf)) =
    Ok (foldl crc_byte l (take a buf), drop a buf)) as (a & Ha & ->).
  { pose proof (ALIGN_16 pval ltac:(lia)). destruct (Z.leb_spec (ALIGN pval 4) (pval + Z.of_nat (length buf))).
    - exists (Z.to_nat (ALIGN pval 4 - pval)). split; [lia|]. apply step_bytes_spec; [done|lia].
    - exists 0. split; [lia|]. by rewrite take_0, drop_0. }
  mred. pose proof (folds_twice 8 CRC32 Hf) as Hf16.
  destruct (crc_loop_spec (length buf) 16 _ (foldl crc_byte l (take a buf)) (drop a buf) Hf16)
    as (b & Hb & _ & ->); [lia|by apply crc_bytes_u32|rewrite length_drop; lia|].
  mred. rewrite length_drop, <-foldl_app, take_take_drop, drop_drop in *.
  destruct (crc_loop_spec (length buf) 8 _ (foldl crc_byte l (take (a + b) buf)) (drop (a + b) buf) Hf)
    as (c & Hc & _ & ->); [lia|by apply crc_bytes_u32|rewrite length_drop; lia|].
  mred. rewrite length_drop, <-foldl_app, take_take_drop, drop_drop in *.
  rewrite step_bytes_spec by (done || by apply crc_bytes_u32). mred. cbn [fst snd].
  rewrite firstn_all, <-foldl_app, take_drop. f_equal. unfold crc32c.
  apply Z.mod_small, lxor_bound; [lia|by apply crc_bytes_u32|lia].
Qed.

(** ** The interface of the checksum *)

Lemma Extend_crc32c pl crc buf :
  platform_ok pl → is_u32 crc → (Z.of_nat (length buf) < 2 ^ 62)%Z →
  Extend pl crc buf = Ok (crc32c crc buf).
Proof.
  intros Hpl Hcrc Hlen. unfold Extend, Choose_Extend. destruct (address_low pl Hpl buf Hlen).
  destruct (isSSE42 pl); (apply ExtendImpl_spec; [|done..]); [by apply folds_Fast|apply folds_Slow].
Qed.

Lemma crc32c_u32 crc data : is_u32 crc → is_u32 (crc32c crc data).
Proof.
  intros Hc. apply lxor_bound; [lia| |lia]. apply crc_bytes_u32, lxor_bound; lia.
Qed.

Lemma crc32c_app crc a b : crc32c crc (a ++ b) = crc32c (crc32c crc a) b.
Proof.
  unfold crc32c. rewrite foldl_app, Z.lxor_assoc, Z.lxor_nilpotent, Z.lxor_0_r. done.
Qed.

(** [k] bits to the right, around the end of a word. *)
Definition rotr (k c : Z) : Z := Z.lor (Z.shiftr c k) (u32 (Z.shiftl c (32 - k))).

Lemma rotr_bits k c j : (0 < k < 32)%Z → is_u32 c → (0 ≤ j)%Z →
  Z.testbit (rotr k c) j =
    if Z.ltb j (32 - k) then Z.testbit c (j + k)
    else if Z.ltb j 32 then Z.testbit c (j + k - 32) else false.
Proof.
  intros Hk Hc Hj. unfold rotr. rewrite Z.lor_spec, Z.shiftr_spec by lia.
  destruct (Z.ltb_spec j (32 - k)).
  - rewrite Z.mod_pow2_bits_low, Z.shiftl_spec_low by lia. by rewrite orb_false_r.
  - rewrite (testbit_high c 32) by lia. cbn [orb]. destruct (Z.ltb_spec j 32).
    + rewrite Z.mod_pow2_bits_low, Z.shiftl_spec_high by lia. f_equal. lia.
    + by rewrite Z.mod_pow2_bits_high by lia.
Qed.

Lemma rotr_u32 k c : (0 < k < 32)%Z → is_u32 c → is_u32 (rotr k c).
Proof.
  intros Hk Hc. assert (rotr k c = u32 (rotr k c)) as ->; [|by apply Z.mod_pos_bound].
  apply Z.bits_inj'. intros j Hj. destruct (Z.ltb_spec j 32).
  - by rewrite Z.mod_pow2_bits_low by lia.
  - rewrite Z.mod_pow2_bits_high, rotr_bits by lia.
    rewrite (proj2 (Z.ltb_ge _ _)) by lia. by rewrite (proj2 (Z.ltb_ge _ _)) by lia.
Qed.

Lemma rotr_rotr c : is_u32 c → rotr 17 (rotr 15 c) = c.
Proof.
  intros Hc. apply Z.bits_inj'. intros j Hj.
  rewrite rotr_bits by (lia || (apply rotr_u32; lia)).
  destruct (Z.ltb_spec j (32 - 17)); [|destruct (Z.ltb_spec j 32)].
  - rewrite rotr_bits by lia. rewrite (proj2 (Z.ltb_ge _ _)) by lia.
    rewrite (proj2 (Z.ltb_lt _ _)) by lia. f_equal. lia.
  - rewrite rotr_bits by lia. rewrite (proj2 (Z.ltb_lt _ _)) by lia. f_equal. lia.
  - by rewrite (testbit_high c 32) by lia.
Qed.

Lemma Mask_u32 crc : is_u32 (Mask crc).
Proof. by apply Z.mod_pos_bound. Qed.

Lemma Unmask_masked crc : is_u32 crc → Unmask (Mask crc) = crc.
Proof.
  intros Hc.
  change (Unmask (Mask crc)) with (rotr 17 (u32 (u32 (rotr 15 crc + kMaskDelta) - kMaskDelta))).
  assert (u32 (u32 (rotr 15 crc + kMaskDelta) - kMaskDelta) = rotr 15 crc)%Z as ->.
  { rewrite Zminus_mod_idemp_l. replace (rotr 15 crc + kMaskDelta - kMaskDelta)%Z with (rotr 15 crc) by ring.
    apply Z.mod_small. by apply rotr_u32. }
  by apply rotr_rotr.
Qed.

(** ** Properties *)

(** C24: The checksum routine is correct.  On every processor, with or without the
    CRC instruction, and wherever the buffer lies, [Extend] reads only bytes of the
    buffer and returns the CRC-32C of the data, computed one bit at a time, continued
    from the given value.  So a checksum can be taken in pieces. *)
Theorem checksum_correct pl crc buf1 buf2 :
  platform_ok pl → is_u32 crc → (Z.of_nat (length (buf1 ++ buf2)) < 2 ^ 62)%Z →
  Extend pl crc (buf1 ++ buf2) = Ok (crc32c crc (buf1 ++ buf2)) ∧
  (crc1 ← Extend pl crc buf1; Extend pl crc1 buf2) = Extend pl crc (buf1 ++ buf2).
Proof.
  intros Hpl Hcrc Hlen. rewrite length_app in Hlen.
  rewrite !Extend_crc32c by (rewrite ?length_app; lia || done). mred.
  rewrite Extend_crc32c by first [done | by apply crc32c_u32 | lia]. by rewrite crc32c_app.
Qed.

(** A processor with the CRC instruction and one without; buffers lie at an odd address. *)
Definition ex_platform (sse : bool) : platform :=
  mkPlatform (if sse then Some (λ l v, crc_bits 64 (Z.lxor l v)) else None)
    (if sse then 0x7ed8320b else 0) (λ b, 4099%Z).

Lemma ex_platform_ok sse : platform_ok (ex_platform sse).
Proof.
  split.
  - destruct sse; cbn; [by intros crc [= <-]|done].
  - intros b Hb. cbn. lia.
Qed.

(** The checksum of the nine digits, the standard test value. *)
Lemma checksum_correct_witness :
  Extend (ex_platform true) 0 (str "1234" ++ str "56789") = Ok 0xe3069283%Z ∧
  Extend (ex_platform false) 0 (str "1234" ++ str "56789") = Ok 0xe3069283%Z ∧
  (crc1 ← Extend (ex_platform false) 0 (str "1234"); Extend (ex_platform false) crc1 (str "56789")) =
    Ok 0xe3069283%Z.
Proof.
  split; [vm_compute; reflexivity|].
  destruct (checksum_correct (ex_platform false) 0 (str "1234") (str "56789") (ex_platform_ok false))
    as [H1 H2]; [lia|vm_compute; reflexivity|].
  assert (crc32c 0 (str "1234" ++ str "56789") = 0xe3069283%Z) as E by (vm_compute; reflexivity).
  split; [exact (eq_trans H1 (f_equal Ok E))|exact (eq_trans H2 (eq_trans H1 (f_equal Ok E)))].
Defined.

(** [Unmask] recovers every 32-bit checksum from its masked form. *)
Theorem Mask_round_trip crc : is_u32 crc → is_u32 (Mask crc) ∧ Unmask (Mask crc) = crc.
Proof. intros Hc. split; [apply Mask_u32|by apply Unmask_masked]. Qed.
