(* ===== verification/Env.v ===== *)
(** * RocksDB: statuses and files

    Models the part of [src/src/rocksdb/include/rocksdb/status.h] and
    [util/status.cc] the library's results are made of, and the file classes of
    [include/rocksdb/env.h] as interfaces: what the log asks of a file, and what a
    file that works promises. *)

From S2P Require Import Prelude.

(** ** Status *)

Inductive Code :=
| kOk | kNotFound | kCorruption | kNotSupported | kInvalidArgument | kIOError
| kMergeInProgress | kIncomplete | kShutdownInProgress | kTimedOut | kAborted.

#[export] Instance Code_eq_dec : EqDecision Code.
Proof. solve_decision. Defined.

(** The message is kept without the length that precedes it in memory. *)
Record Status := mkStatus { code : Code; state_ : option bytes }.

#[export] Instance Status_eq_dec : EqDecision Status.
Proof. solve_decision. Defined.

Definition StatusOK : Status := mkStatus kOk None.
Definition Status_new (c : Code) (msg msg2 : bytes) : Status :=
  mkStatus c (Some (match msg2 with [] => msg | _ => msg ++ str ": " ++ msg2 end)).

Definition Corruption (msg : string) : Status := Status_new kCorruption (str msg) [].
Definition InvalidArgument (msg : string) : Status := Status_new kInvalidArgument (str msg) [].
Definition IOError (msg : string) : Status := Status_new kIOError (str msg) [].

Definition ok (s : Status) : bool := bool_decide (code s = kOk).

(** ** Files *)

Class SequentialFile (F : Type) := {
  file_Read : nat → F → Status * bytes * F;
  file_Skip : Z → F → Status * F;
}.

(** A file that can be read: [unread] is what lies ahead of the position. *)
Class SequentialFileLaws (F : Type) `{SequentialFile F} := {
  unread : F → bytes;
  Read_unread n f : ∃ f', file_Read n f = (StatusOK, take n (unread f), f') ∧
    unread f' = drop n (unread f);
  Skip_unread n f : ∃ f', file_Skip n f = (StatusOK, f') ∧
    unread f' = drop (Z.to_nat n) (unread f);
}.

Class WritableFile (F : Type) := {
  file_Append : bytes → F → Status * F;
  file_Flush : F → Status * F;
}.

(** A file that can be written: [contents] is what it holds. *)
Class WritableFileLaws (F : Type) `{WritableFile F} := {
  contents : F → bytes;
  Append_contents d f : ∃ f', file_Append d f = (StatusOK, f') ∧ contents f' = contents f ++ d;
  Flush_contents f : ∃ f', file_Flush f = (StatusOK, f') ∧ contents f' = contents f;
}.

(** A file in memory. *)
#[export] Instance bytes_SequentialFile : SequentialFile bytes := {|
  file_Read n f := (StatusOK, take n f, drop n f);
  file_Skip n f := (StatusOK, drop (Z.to_nat n) f);
|}.
#[export, program] Instance bytes_SequentialFileLaws : SequentialFileLaws bytes := {| unread f := f |}.
Solve Obligations with cbn; eauto.

#[export] Instance bytes_WritableFile : WritableFile bytes := {|
  file_Append d f := (StatusOK, f ++ d);
  file_Flush f := (StatusOK, f);
|}.
#[export, program] Instance bytes_WritableFileLaws : WritableFileLaws bytes := {| contents f := f |}.
Solve Obligations with cbn; eauto.
