(* ===== verification/WriteBatch.v ===== *)
(** * RocksDB: write batches

    Models [src/src/rocksdb/db/write_batch.cc], [write_batch_internal.h] and
    [include/rocksdb/write_batch.h]: a batch is a string with a header, the first
    sequence number and the number of updates, followed by the updates.  The batch is
    what the node store hands to the database and what the database writes to its log.

    A handler is the object [Iterate] replays a batch on. *)

From S2P Require Import Prelude Varint Coding Env.

(** ** Data *)

Definition kTypeDeletion : Z := 0x0.
Definition kTypeValue : Z := 0x1.
Definition kTypeMerge : Z := 0x2.
Definition kTypeLogData : Z := 0x3.
Definition kTypeColumnFamilyDeletion : Z := 0x4.
Definition kTypeColumnFamilyValue : Z := 0x5.
Definition kTypeColumnFamilyMerge : Z := 0x6.

Definition kHeader : nat := 12.

Record WriteBatch := mkWriteBatch { rep_ : bytes }.

(** A column family handle: null, or the family with an id. *)
Definition GetColumnFamilyID (column_family : option Z) : Z :=
  match column_family with Some id => id | None => 0 end.

(** ** The header *)

Definition WriteBatch_Clear (b : WriteBatch) : WriteBatch :=
  mkWriteBatch (replicate kHeader Byte.x00).
Definition WriteBatch_new : WriteBatch := WriteBatch_Clear (mkWriteBatch []).

Definition WriteBatchInternal_Count (b : WriteBatch) : outcome Z :=
  n ← DecodeFixed32 (drop 8 (rep_ b)); mret (to_int32 n).
Definition WriteBatch_Count (b : WriteBatch) : outcome Z := WriteBatchInternal_Count b.

(** Overwrites the bytes of [rep_] from [i] on. *)
Definition overwrite (i : nat) (d : bytes) (rep : bytes) : outcome bytes :=
  if decide (i + length d ≤ length rep)
  then Ok (take i rep ++ d ++ drop (i + length d) rep) else Err OutOfBounds.

Definition WriteBatchInternal_SetCount (b : WriteBatch) (n : Z) : outcome WriteBatch :=
  rep ← overwrite 8 (EncodeFixed32 (u32 n)) (rep_ b); mret (mkWriteBatch rep).

Definition WriteBatchInternal_Sequence (b : WriteBatch) : outcome Z := DecodeFixed64 (rep_ b).
Definition WriteBatchInternal_SetSequence (b : WriteBatch) (seq : Z) : outcome WriteBatch :=
  rep ← overwrite 0 (EncodeFixed64 seq) (rep_ b); mret (mkWriteBatch rep).

Definition WriteBatchInternal_Contents (b : WriteBatch) : bytes := rep_ b.
Definition WriteBatchInternal_ByteSize (b : WriteBatch) : nat := length (rep_ b).

(** ** Updates *)

Definition bump_count (b : WriteBatch) : outcome WriteBatch :=
  n ← WriteBatchInternal_Count b; WriteBatchInternal_SetCount b (n + 1).

(** The tag of an update, followed by the column family unless it is the default one. *)
Definition push_tag (tag cf_tag column_family_id : Z) (rep : bytes) : bytes :=
  if Z.eqb column_family_id 0 then rep ++ [byte.of_Z tag]
  else PutVarint32 (rep ++ [byte.of_Z cf_tag]) column_family_id.

Definition WriteBatchInternal_Put (b : WriteBatch) (column_family_id : Z) (key value : bytes)
    : outcome WriteBatch :=
  b ← bump_count b;
  let rep := push_tag kTypeValue kTypeColumnFamilyValue column_family_id (rep_ b) in
  mret (mkWriteBatch (PutLengthPrefixedSlice (PutLengthPrefixedSlice rep key) value)).

Definition WriteBatchInternal_PutParts (b : WriteBatch) (column_family_id : Z) (key value : list bytes)
    : outcome WriteBatch :=
  b ← bump_count b;
  let rep := push_tag kTypeValue kTypeColumnFamilyValue column_family_id (rep_ b) in
  mret (mkWriteBatch (PutLengthPrefixedSliceParts (PutLengthPrefixedSliceParts rep key) value)).

Definition WriteBatchInternal_Delete (b : WriteBatch) (column_family_id : Z) (key : bytes)
    : outcome WriteBatch :=
  b ← bump_count b;
  let rep := push_tag kTypeDeletion kTypeColumnFamilyDeletion column_family_id (rep_ b) in
  mret (mkWriteBatch (PutLengthPrefixedSlice rep key)).

Definition WriteBatchInternal_DeleteParts (b : WriteBatch) (column_family_id : Z) (key : list bytes)
    : outcome WriteBatch :=
  b ← bump_count b;
  let rep := push_tag kTypeDeletion kTypeColumnFamilyDeletion column_family_id (rep_ b) in
  mret (mkWriteBatch (PutLengthPrefixedSliceParts rep key)).

Definition WriteBatchInternal_Merge (b : WriteBatch) (column_family_id : Z) (key value : bytes)
    : outcome WriteBatch :=
  b ← bump_count b;
  let rep := push_tag kTypeMerge kTypeColumnFamilyMerge column_family_id (rep_ b) in
  mret (mkWriteBatch (PutLengthPrefixedSlice (PutLengthPrefixedSlice rep key) value)).

Definition WriteBatch_Put (b : WriteBatch) (cf : option Z) (key value : bytes) : outcome WriteBatch :=
  WriteBatchInternal_Put b (GetColumnFamilyID cf) key value.
Definition WriteBatch_PutParts (b : WriteBatch) (cf : option Z) (key value : list bytes) : outcome WriteBatch :=
  WriteBatchInternal_PutParts b (GetColumnFamilyID cf) key value.
Definition WriteBatch_Delete (b : WriteBatch) (cf : option Z) (key : bytes) : outcome WriteBatch :=
  WriteBatchInternal_Delete b (GetColumnFamilyID cf) key.
Definition WriteBatch_DeleteParts (b : WriteBatch) (cf : option Z) (key : list bytes) : outcome WriteBatch :=
  WriteBatchInternal_DeleteParts b (GetColumnFamilyID cf) key.
Definition WriteBatch_Merge (b : WriteBatch) (cf : option Z) (key value : bytes) : outcome WriteBatch :=
  WriteBatchInternal_Merge b (GetColumnFamilyID cf) key value.

Definition WriteBatch_PutLogData (b : WriteBatch) (blob : bytes) : WriteBatch :=
  mkWriteBatch (PutLengthPrefixedSlice (rep_ b ++ [byte.of_Z kTypeLogData]) blob).

Definition WriteBatchInternal_SetContents (b : WriteBatch) (contents : bytes) : outcome WriteBatch :=
  if decide (kHeader ≤ length contents) then Ok (mkWriteBatch contents) else Err AssertFailed.

Definition WriteBatchInternal_Append (dst src : WriteBatch) : outcome WriteBatch :=
  n ← WriteBatchInternal_Count dst;
  m ← WriteBatchInternal_Count src;
  dst ← WriteBatchInternal_SetCount dst (n + m);
  if decide (kHeader ≤ length (rep_ src))
  then mret (mkWriteBatch (rep_ dst ++ drop kHeader (rep_ src))) else Err AssertFailed.

(** ** Iteration *)

(** What [ReadRecordFromWriteBatch] fills in.  When it fails its caller uses none of it. *)
Record batch_record := mkRecord {
  tag : Z; column_family : Z; r_key : bytes; r_value : bytes; r_blob : bytes;
}.

(** Reads [n] strings from the input, as far as that is possible. *)
Fixpoint get_slices (n : nat) (input : bytes) : option (list bytes * bytes) :=
  match n with
  | O => Some ([], input)
  | S n =>
      match GetLengthPrefixedSlice input with
      | (Some s, input) =>
          match get_slices n input with
          | Some (ss, input) => Some (s :: ss, input)
          | None => None
          end
      | (None, _) => None
      end
  end.

(** The column family, where the tag is one that has it. *)
Definition get_family (has : bool) (input : bytes) : option (Z * bytes) :=
  if has then
    match GetVarint32 input with (Some id, input) => Some (id, input) | (None, _) => None end
  else Some (0%Z, input).

(** The three forms of an update: the cases of the switch that fall through. *)
Definition read_update (has : bool) (n : nat) (input : bytes) : option (Z * list bytes * bytes) :=
  match get_family has input with
  | Some (id, input) =>
      match get_slices n input with
      | Some (ss, input) => Some (id, ss, input)
      | None => None
      end
  | None => None
  end.

Definition ReadRecordFromWriteBatch (input : bytes) (old : batch_record)
    : outcome (Status * batch_record * bytes) :=
  match input with
  | [] => Err AssertFailed
  | t :: input =>
      let t := byte.unsigned t in
      if bool_decide (t = kTypeColumnFamilyValue ∨ t = kTypeValue) then
        match read_update (bool_decide (t = kTypeColumnFamilyValue)) 2 input with
        | Some (id, [k; v], input) => Ok (StatusOK, mkRecord t id k v (r_blob old), input)
        | _ => Ok (Corruption "bad WriteBatch Put", old, input)
        end
      else if bool_decide (t = kTypeColumnFamilyDeletion ∨ t = kTypeDeletion) then
        match read_update (bool_decide (t = kTypeColumnFamilyDeletion)) 1 input with
        | Some (id, [k], input) => Ok (StatusOK, mkRecord t id k (r_value old) (r_blob old), input)
        | _ => Ok (Corruption "bad WriteBatch Delete", old, input)
        end
      else if bool_decide (t = kTypeColumnFamilyMerge ∨ t = kTypeMerge) then
        match read_update (bool_decide (t = kTypeColumnFamilyMerge)) 2 input with
        | Some (id, [k; v], input) => Ok (StatusOK, mkRecord t id k v (r_blob old), input)
        | _ => Ok (Corruption "bad WriteBatch Merge", old, input)
        end
      else if bool_decide (t = kTypeLogData) then
        match get_slices 1 input with
        | Some ([blob], input) => Ok (StatusOK, mkRecord t 0 (r_key old) (r_value old) blob, input)
        | _ => Ok (Corruption "bad WriteBatch Blob", old, input)
        end
      else Ok (Corruption "unknown WriteBatch tag", old, input)
  end.

(** The handler interface: the virtual methods, on the state of the handler. *)
Class Handler (H : Type) := {
  PutCF : Z → bytes → bytes → prog H Status;
  DeleteCF : Z → bytes → prog H Status;
  MergeCF : Z → bytes → bytes → prog H Status;
  LogData : bytes → prog H unit;
  Continue : prog H bool;
}.

(** The methods a handler class inherits when it only defines [Put], [Delete] and [Merge]. *)
Definition default_handler {H} (Put Merge : bytes → bytes → prog H unit) (Delete : bytes → prog H unit)
    : Handler H := {|
  PutCF column_family_id key value :=
    if Z.eqb column_family_id 0 then Put key value;; mret StatusOK
    else mret (InvalidArgument "non-default column family and PutCF not implemented");
  DeleteCF column_family_id key :=
    if Z.eqb column_family_id 0 then Delete key;; mret StatusOK
    else mret (InvalidArgument "non-default column family and DeleteCF not implemented");
  MergeCF column_family_id key value :=
    if Z.eqb column_family_id 0 then Merge key value;; mret StatusOK
    else mret (InvalidArgument "non-default column family and MergeCF not implemented");
  LogData blob := mret tt;
  Continue := mret true;
|}.

Section Iterate.
Context {H : Type} `{Handler H}.

(** The switch of [Iterate]: the status and the number of updates found. *)
Definition handle_record (r : batch_record) (found : Z) : prog H (Status * Z) :=
  let t := tag r in
  if bool_decide (t = kTypeColumnFamilyValue ∨ t = kTypeValue) then
    s ← PutCF (column_family r) (r_key r) (r_value r); mret (s, found + 1)%Z
  else if bool_decide (t = kTypeColumnFamilyDeletion ∨ t = kTypeDeletion) then
    s ← DeleteCF (column_family r) (r_key r); mret (s, found + 1)%Z
  else if bool_decide (t = kTypeColumnFamilyMerge ∨ t = kTypeMerge) then
    s ← MergeCF (column_family r) (r_key r) (r_value r); mret (s, found + 1)%Z
  else if bool_decide (t = kTypeLogData) then
    LogData (r_blob r);; mret (StatusOK, found)
  else mret (Corruption "unknown WriteBatch tag", found).

(** The loop; every turn reads at least the byte of the tag. *)
Fixpoint Iterate_loop (fuel : nat) (input : bytes) (old : batch_record) (found : Z)
    : prog H (Status * Z) :=
  match input with
  | [] => mret (StatusOK, found)
  | _ =>
      go ← Continue;
      if negb go then mret (StatusOK, found) else
      match fuel with
      | O => fail OutOfFuel
      | S fuel =>
          x ← lift (ReadRecordFromWriteBatch input old);
          let '(s, r, input) := x in
          if negb (ok s) then mret (s, found) else
          y ← handle_record r found;
          let '(s, found) := y in
          if ok s then Iterate_loop fuel input r found else mret (s, found)
      end
  end.

Definition Iterate (b : WriteBatch) : prog H Status :=
  let input := rep_ b in
  if decide (length input < kHeader) then mret (Corruption "malformed WriteBatch (too small)") else
  let input := drop kHeader input in
  y ← Iterate_loop (length input) input (mkRecord 0 0 [] [] []) 0;
  let '(s, found) := y in
  if negb (ok s) then mret s else
  n ← lift (WriteBatchInternal_Count b);
  if Z.eqb found n then mret StatusOK else mret (Corruption "WriteBatch has wrong count").
End Iterate.

(** ** The abstract view: a list of updates *)

Inductive update :=
| OpPut (cf : Z) (key value : bytes)
| OpDelete (cf : Z) (key : bytes)
| OpMerge (cf : Z) (key value : bytes)
| OpLog (blob : bytes).

(** The call that adds an update to a batch. *)
Definition add_update (b : WriteBatch) (u : update) : outcome WriteBatch :=
  match u with
  | OpPut cf k v => WriteBatch_Put b (Some cf) k v
  | OpDelete cf k => WriteBatch_Delete b (Some cf) k
  | OpMerge cf k v => WriteBatch_Merge b (Some cf) k v
  | OpLog blob => Ok (WriteBatch_PutLogData b blob)
  end.

Fixpoint add_updates (b : WriteBatch) (us : list update) : outcome WriteBatch :=
  match us with
  | [] => mret b
  | u :: us => b ← add_update b u; add_updates b us
  end.

Definition counted (u : update) : Z := match u with OpLog _ => 0 | _ => 1 end.
Definition count_updates (us : list update) : Z := foldr (λ u n, counted u + n)%Z 0%Z us.

(** Lengths and column family ids that fit 32 bits. *)
Definition update_ok (u : update) : Prop :=
  match u with
  | OpPut cf k v | OpMerge cf k v => is_u32 cf ∧ fits32 k ∧ fits32 v
  | OpDelete cf k => is_u32 cf ∧ fits32 k
  | OpLog blob => fits32 blob
  end.

#[export] Instance update_ok_dec u : Decision (update_ok u).
Proof. destruct u; cbn; apply _. Defined.

Section replay.
Context {H : Type} `{Handler H}.

Definition handle_update (u : update) : prog H Status :=
  match u with
  | OpPut cf k v => PutCF cf k v
  | OpDelete cf k => DeleteCF cf k
  | OpMerge cf k v => MergeCF cf k v
  | OpLog blob => LogData blob;; mret StatusOK
  end.

(** Replaying updates: before each the handler is asked whether to go on; the first
    status that is not ok ends the replay.  The result has the number of updates
    handed to the handler. *)
Fixpoint replay (us : list update) (found : Z) : prog H (Status * Z) :=
  match us with
  | [] => mret (StatusOK, found)
  | u :: us =>
      go ← Continue;
      if negb go then mret (StatusOK, found) else
      s ← handle_update u;
      if ok s then replay us (found + counted u) else mret (s, (found + counted u)%Z)
  end.
End replay.

(** ** What a batch contains *)

Definition update_bytes (u : update) : bytes :=
  match u with
  | OpPut cf k v =>
      push_tag kTypeValue kTypeColumnFamilyValue cf [] ++
      PutLengthPrefixedSlice [] k ++ PutLengthPrefixedSlice [] v
  | OpDelete cf k =>
      push_tag kTypeDeletion kTypeColumnFamilyDeletion cf [] ++ PutLengthPrefixedSlice [] k
  | OpMerge cf k v =>
      push_tag kTypeMerge kTypeColumnFamilyMerge cf [] ++
      PutLengthPrefixedSlice [] k ++ PutLengthPrefixedSlice [] v
  | OpLog blob => byte.of_Z kTypeLogData :: PutLengthPrefixedSlice [] blob
  end.
Definition updates_bytes (us : list update) : bytes := concat (update_bytes <$> us).

(** The batch [b] holds the updates [us], starting at sequence number [seq]. *)
Definition holds_updates (b : WriteBatch) (seq : Z) (us : list update) : Prop :=
  rep_ b = EncodeFixed64 seq ++ EncodeFixed32 (count_updates us) ++ updates_bytes us.
