(* ===== verification/WriteBatchSpec.v ===== *)
(** * RocksDB: properties of write batches

    The calls that fill a batch keep its header and its updates, and [Iterate]
    replays them; iterating over arbitrary bytes stays within them. *)

From S2P Require Import Prelude Varint Coding Env WriteBatch.

(** ** The header *)

Section header.
Context (seq n : Z) (rest : bytes).
Abbreviation rep := (EncodeFixed64 seq ++ EncodeFixed32 n ++ rest).

Lemma header_length : kHeader ≤ length rep.
Proof. rewrite !length_app, length_EncodeFixed32, length_EncodeFixed64. unfold kHeader. lia. Qed.

Lemma drop_header : drop kHeader rep = rest.
Proof.
  rewrite app_assoc. apply drop_app_length'.
  by rewrite length_app, length_EncodeFixed32, length_EncodeFixed64.
Qed.

Lemma header_Count : (0 ≤ n < 2 ^ 31)%Z → WriteBatchInternal_Count (mkWriteBatch rep) = Ok n.
Proof.
  intros Hn. unfold WriteBatchInternal_Count. cbn [rep_].
  rewrite drop_app_length' by (by rewrite length_EncodeFixed64).
  rewrite DecodeFixed32_write by lia. mred. by rewrite to_int32_small by lia.
Qed.

Lemma header_SetCount m : is_u32 m →
  WriteBatchInternal_SetCount (mkWriteBatch rep) m =
    Ok (mkWriteBatch (EncodeFixed64 seq ++ EncodeFixed32 m ++ rest)).
Proof.
  intros Hm. unfold WriteBatchInternal_SetCount, overwrite. cbn [rep_].
  rewrite length_EncodeFixed32. rewrite decide_True by apply header_length. mred.
  rewrite take_app_length' by (by rewrite length_EncodeFixed64).
  change (8 + 4) with kHeader. rewrite drop_header. by rewrite Z.mod_small by done.
Qed.

Lemma header_Sequence : is_u64 seq → WriteBatchInternal_Sequence (mkWriteBatch rep) = Ok seq.
Proof. apply DecodeFixed64_write. Qed.

Lemma header_SetSequence m :
  WriteBatchInternal_SetSequence (mkWriteBatch rep) m =
    Ok (mkWriteBatch (EncodeFixed64 m ++ EncodeFixed32 n ++ rest)).
Proof.
  unfold WriteBatchInternal_SetSequence, overwrite. cbn [rep_]. rewrite length_EncodeFixed64.
  rewrite decide_True by (pose proof header_length; unfold kHeader in *; lia). mred.
  cbn [Nat.add]. rewrite drop_app_length' by (by rewrite length_EncodeFixed64). done.
Qed.
End header.

Lemma WriteBatch_new_holds : holds_updates WriteBatch_new 0 [].
Proof. vm_compute. reflexivity. Qed.

Lemma holds_eq b seq us : holds_updates b seq us →
  b = mkWriteBatch (EncodeFixed64 seq ++ EncodeFixed32 (count_updates us) ++ updates_bytes us).
Proof. destruct b as [rep]. unfold holds_updates. cbn. by intros ->. Qed.

Lemma count_updates_cons u us : count_updates (u :: us) = (counted u + count_updates us)%Z.
Proof. done. Qed.

Lemma count_updates_app us vs : count_updates (us ++ vs) = (count_updates us + count_updates vs)%Z.
Proof.
  induction us as [|u us IH]; [done|]. change ((u :: us) ++ vs) with (u :: us ++ vs).
  rewrite !count_updates_cons, IH. lia.
Qed.

Lemma count_updates_nonneg us : (0 ≤ count_updates us)%Z.
Proof.
  induction us as [|u us IH]; [done|]. rewrite count_updates_cons. destruct u; cbn [counted]; lia.
Qed.

Lemma updates_bytes_app us vs : updates_bytes (us ++ vs) = updates_bytes us ++ updates_bytes vs.
Proof. unfold updates_bytes. by rewrite fmap_app, concat_app. Qed.

Lemma updates_bytes_snoc us u : updates_bytes (us ++ [u]) = updates_bytes us ++ update_bytes u.
Proof. rewrite updates_bytes_app. unfold updates_bytes at 2. cbn. by rewrite app_nil_r. Qed.

(** ** Adding updates *)

Lemma push_tag_app t ct cf rep : push_tag t ct cf rep = rep ++ push_tag t ct cf [].
Proof. unfold push_tag, PutVarint32. case_match; [done|]. by rewrite <-app_assoc. Qed.

Lemma run_bump_count b seq us :
  holds_updates b seq us → (count_updates us + 1 < 2 ^ 31)%Z →
  bump_count b = Ok (mkWriteBatch
    (EncodeFixed64 seq ++ EncodeFixed32 (count_updates us + 1) ++ updates_bytes us)).
Proof.
  intros Hb Hn. pose proof (count_updates_nonneg us). rewrite (holds_eq _ _ _ Hb). unfold bump_count.
  rewrite header_Count by lia. mred. by rewrite header_SetCount by lia.
Qed.

Lemma add_update_holds b seq us u :
  holds_updates b seq us → (count_updates (us ++ [u]) < 2 ^ 31)%Z →
  ∃ b', add_update b u = Ok b' ∧ holds_updates b' seq (us ++ [u]).
Proof.
  intros Hb Hn. rewrite count_updates_app in Hn. unfold holds_updates.
  rewrite count_updates_app, updates_bytes_snoc.
  destruct u as [cf k v|cf k|cf k v|blob]; cbn [add_update count_updates foldr counted] in *;
    unfold WriteBatch_Put, WriteBatchInternal_Put, WriteBatch_Delete, WriteBatchInternal_Delete,
      WriteBatch_Merge, WriteBatchInternal_Merge; cbn [GetColumnFamilyID];
    rewrite ?(run_bump_count b seq us Hb) by lia; mred; eexists; (split; [done|]); cbn [rep_].
  - rewrite PutLengthPrefixedSlice_app, (PutLengthPrefixedSlice_app _ k), push_tag_app.
    cbn [update_bytes]. by rewrite Z.add_0_r, <-!app_assoc.
  - rewrite PutLengthPrefixedSlice_app, push_tag_app.
    cbn [update_bytes]. by rewrite Z.add_0_r, <-!app_assoc.
  - rewrite PutLengthPrefixedSlice_app, (PutLengthPrefixedSlice_app _ k), push_tag_app.
    cbn [update_bytes]. by rewrite Z.add_0_r, <-!app_assoc.
  - unfold WriteBatch_PutLogData. cbn [rep_]. rewrite Hb, PutLengthPrefixedSlice_app. cbn [update_bytes]. by rewrite Z.add_0_r, <-!app_assoc.
Qed.

Lemma add_updates_hold b seq us vs :
  holds_updates b seq us → (count_updates (us ++ vs) < 2 ^ 31)%Z →
  ∃ b', add_updates b vs = Ok b' ∧ holds_updates b' seq (us ++ vs).
Proof.
  revert b us. induction vs as [|v vs IH]; intros b us Hb Hn; cbn [add_updates].
  - exists b. by rewrite app_nil_r.
  - change (v :: vs) with ([v] ++ vs) in *. rewrite app_assoc in *.
    destruct (add_update_holds b seq us v Hb) as (b1 & -> & Hb1).
    { pose proof (count_updates_nonneg vs). rewrite count_updates_app in Hn. lia. }
    mred. by apply IH.
Qed.

Lemma Append_holds dst src seq seq' us vs :
  holds_updates dst seq us → holds_updates src seq' vs → (count_updates (us ++ vs) < 2 ^ 31)%Z →
  ∃ b, WriteBatchInternal_Append dst src = Ok b ∧ holds_updates b seq (us ++ vs).
Proof.
  intros Hd Hs Hn. rewrite count_updates_app in Hn.
  pose proof (count_updates_nonneg us). pose proof (count_updates_nonneg vs).
  rewrite (holds_eq _ _ _ Hd), (holds_eq _ _ _ Hs). unfold WriteBatchInternal_Append.
  rewrite !header_Count by lia. mred. rewrite header_SetCount by lia. mred. cbn [rep_].
  rewrite decide_True by apply header_length. eexists; split; [done|].
  unfold holds_updates. cbn [rep_]. rewrite drop_header, count_updates_app, updates_bytes_app.
  by rewrite <-!app_assoc.
Qed.

(** ** Reading an update back *)

Definition record_of (u : update) (old : batch_record) : batch_record :=
  let family cf t ct := if Z.eqb cf 0 then t else ct in
  match u with
  | OpPut cf k v => mkRecord (family cf kTypeValue kTypeColumnFamilyValue) cf k v (r_blob old)
  | OpDelete cf k =>
      mkRecord (family cf kTypeDeletion kTypeColumnFamilyDeletion) cf k (r_value old) (r_blob old)
  | OpMerge cf k v => mkRecord (family cf kTypeMerge kTypeColumnFamilyMerge) cf k v (r_blob old)
  | OpLog blob => mkRecord kTypeLogData 0 (r_key old) (r_value old) blob
  end.

Lemma get_slices_write ss rest :
  Forall (λ s : bytes, fits32 s) ss →
  get_slices (length ss) (concat (PutLengthPrefixedSlice [] <$> ss) ++ rest) = Some (ss, rest).
Proof.
  induction 1 as [|s ss Hs Hss IH]; [done|]. cbn [length get_slices].
  cbn [fmap list_fmap concat]. rewrite <-app_assoc, GetLengthPrefixedSlice_write by done.
  by rewrite IH.
Qed.

(** The tag, and the rest of the update read by [read_update]. *)
Lemma push_tag_read t ct cf ss rest :
  is_u32 cf → Forall (λ s : bytes, fits32 s) ss →
  ∃ input, push_tag t ct cf [] ++ concat (PutLengthPrefixedSlice [] <$> ss) ++ rest =
      byte.of_Z (if Z.eqb cf 0 then t else ct) :: input ∧
    read_update (negb (Z.eqb cf 0)) (length ss) input = Some (cf, ss, rest).
Proof.
  intros Hcf Hss. unfold push_tag, read_update, get_family.
  destruct (Z.eqb_spec cf 0) as [->|]; cbn [negb app].
  - eexists; split; [done|]. by rewrite get_slices_write.
  - unfold PutVarint32. eexists; split; [done|]. rewrite GetVarint32_write by done.
    by rewrite get_slices_write.
Qed.

(** Decides the tests of a tag that is known. *)
Ltac eval_tags :=
  repeat match goal with
  | |- context [bool_decide ?P] =>
      let b := eval vm_compute in (bool_decide P) in change (bool_decide P) with b; cbv iota
  | |- context [byte.unsigned (byte.of_Z ?t)] =>
      let z := eval vm_compute in (byte.unsigned (byte.of_Z t)) in
      change (byte.unsigned (byte.of_Z t)) with z
  end.

(** Reads the update whose strings are [ss], written with the tags [t] and [ct]. *)
Ltac read_back t ct cf ss rest :=
  let input := fresh "input" in let E := fresh "E" in let Hr := fresh "Hr" in
  destruct (push_tag_read t ct cf ss rest) as (input & E & Hr);
    [tauto|repeat constructor; tauto|];
  cbn [fmap list_fmap concat length] in E, Hr; rewrite app_nil_r, <-?app_assoc in E;
  rewrite <-?app_assoc; rewrite E; unfold ReadRecordFromWriteBatch; cbn [record_of];
  destruct (Z.eqb cf 0); cbn [negb] in Hr; eval_tags; by rewrite Hr.

Lemma ReadRecord_write u rest old :
  update_ok u →
  ReadRecordFromWriteBatch (update_bytes u ++ rest) old = Ok (StatusOK, record_of u old, rest).
Proof.
  intros Hu. destruct u as [cf k v|cf k|cf k v|blob]; cbn [update_ok update_bytes] in *.
  - read_back kTypeValue kTypeColumnFamilyValue cf [k; v] rest.
  - read_back kTypeDeletion kTypeColumnFamilyDeletion cf [k] rest.
  - read_back kTypeMerge kTypeColumnFamilyMerge cf [k; v] rest.
  - pose proof (get_slices_write [blob] rest ltac:(by repeat constructor)) as Hr.
    cbn [fmap list_fmap concat length] in Hr. rewrite app_nil_r in Hr.
    unfold ReadRecordFromWriteBatch. cbn [app]. eval_tags. by rewrite Hr.
Qed.

(** ** Replaying *)

Section replay_laws.
Context {H : Type} `{Handler H}.

Lemma handle_record_of u old found (h : H) :
  handle_record (record_of u old) found h = (s ← handle_update u; mret (s, found + counted u)%Z) h.
Proof.
  destruct u as [cf k v|cf k|cf k v|blob]; unfold handle_record; cbn [record_of tag];
    try destruct (Z.eqb cf 0); eval_tags; try done.
  cbn [handle_update counted r_blob]. rewrite bind_assoc. unfold mbind, prog_bind.
  destruct (LogData blob h) as [[??]|]; [|done]. mred. by rewrite Z.add_0_r.
Qed.

Lemma update_bytes_cons u : ∃ b q, update_bytes u = b :: q.
Proof.
  destruct u as [cf k v|cf k|cf k v|blob]; cbn; [..|eauto];
    unfold push_tag, PutVarint32; case_match; cbn; eauto.
Qed.

Lemma bind_ext {St A B} (c : prog St A) (f g : A → prog St B) s :
  (∀ a s', f a s' = g a s') → (c ≫= f) s = (c ≫= g) s.
Proof. intros Hfg. unfold mbind, prog_bind. destruct (c s) as [[??]|]; auto. Qed.

(** The loop of [Iterate] replays the updates it finds; its fuel is enough. *)
Lemma Iterate_loop_replay fuel us old found (h : H) :
  Forall update_ok us → length (updates_bytes us) ≤ fuel →
  Iterate_loop fuel (updates_bytes us) old found h = replay us found h.
Proof.
  revert us old found h. induction fuel as [|fuel IH]; intros us old found h Hus Hf.
  - destruct us as [|u us]; [done|].
    destruct (update_bytes_cons u) as (b & q & E). unfold updates_bytes in Hf. cbn in Hf.
    rewrite E in Hf. cbn in Hf. lia.
  - destruct us as [|u us]; [done|]. inversion Hus as [|?? Hu Hus']; subst.
    change (updates_bytes (u :: us)) with (update_bytes u ++ updates_bytes us) in *.
    pose proof (ReadRecord_write u (updates_bytes us) old Hu) as Hr.
    destruct (update_bytes_cons u) as (b & q & E). rewrite E in *. cbn [Iterate_loop replay app] in *.
    apply bind_ext. intros go h1. destruct go; cbn [negb]; [|done].
    rewrite Hr. unfold lift at 1. cbn beta iota.
    rewrite (bind_Ok _ _ _ (StatusOK, record_of u old, updates_bytes us) h1) by done.
    cbn beta iota. change (negb (ok StatusOK)) with false. cbv iota.
    unfold mbind at 1, prog_bind at 1. rewrite handle_record_of.
    unfold mbind at 2, prog_bind at 2. unfold mbind, prog_bind.
    destruct (handle_update u h1) as [[s h2]|]; [|done]. mred. destruct (ok s); [|done].
    apply IH; [done|]. cbn in Hf. rewrite length_app in Hf. lia.
Qed.

(** [Iterate] replays the updates of the batch and then compares their number with
    the header. *)
Lemma Iterate_replay b seq us (h : H) :
  holds_updates b seq us → Forall update_ok us → (count_updates us < 2 ^ 31)%Z →
  Iterate b h =
    (y ← replay us 0;
     if negb (ok y.1) then mret y.1
     else if Z.eqb y.2 (count_updates us) then mret StatusOK
     else mret (Corruption "WriteBatch has wrong count")) h.
Proof.
  intros Hb Hus Hn. pose proof (count_updates_nonneg us). rewrite (holds_eq _ _ _ Hb).
  unfold Iterate. cbn [rep_]. rewrite decide_False by (apply Nat.le_ngt, header_length).
  rewrite drop_header. unfold mbind at 1, prog_bind at 1. rewrite Iterate_loop_replay by done.
  unfold mbind at 2, prog_bind at 2. destruct (replay us 0 h) as [[[s found] h']|]; [|done].
  cbn [fst snd]. destruct (ok s); cbn [negb]; [|done].
  rewrite (bind_Ok _ _ _ (count_updates us) h') by (rewrite header_Count by lia; done).
  done.
Qed.
End replay_laws.

(** * Iterating over any bytes *)

(** ** Reading any input *)

(** [o] leaves at most [n] bytes of input. *)
Lemma GetVarint_loop_shorter w n i p result v q :
  GetVarint_loop w n i p result = Some (v, q) → length q < length p.
Proof.
  revert i p result. induction n as [|n IH]; intros i [|b p] result; cbn [GetVarint_loop]; [done..|].
  case_match; [intros [= _ <-]; cbn; lia|]. intros Hq%IH. cbn. lia.
Qed.

Lemma GetVarint32_shorter input v q : GetVarint32 input = (v, q) → length q ≤ length input.
Proof.
  unfold GetVarint32. destruct (GetVarint32Ptr input) as [[v' q']|] eqn:E; [|by intros [= _ <-]].
  intros [= _ <-]. unfold GetVarint32Ptr in E. destruct input as [|b p]; [done|].
  destruct (last_byte (byte.unsigned b)).
  - injection E as _ <-. cbn. lia.
  - apply Nat.lt_le_incl. exact (GetVarint_loop_shorter _ _ _ _ _ _ _ E).
Qed.

Lemma GetLengthPrefixedSlice_shorter input v q :
  GetLengthPrefixedSlice input = (v, q) → length q ≤ length input.
Proof.
  unfold GetLengthPrefixedSlice. destruct (GetVarint32 input) as [[len|] input'] eqn:E;
    apply GetVarint32_shorter in E; [|by intros [= _ <-]].
  case_match; intros [= _ <-]; rewrite ?length_drop; lia.
Qed.

Lemma get_slices_shorter n input ss q :
  get_slices n input = Some (ss, q) → length ss = n ∧ length q ≤ length input.
Proof.
  revert input ss. induction n as [|n IH]; intros input ss; cbn [get_slices]; [by intros [= <- <-]|].
  destruct (GetLengthPrefixedSlice input) as [[s|] input'] eqn:E; [|done].
  apply GetLengthPrefixedSlice_shorter in E.
  destruct (get_slices n input') as [[ss' q']|] eqn:E'; [|done]. intros [= <- <-].
  apply IH in E' as [? ?]. cbn. lia.
Qed.

Lemma read_update_shorter has n input id ss q :
  read_update has n input = Some (id, ss, q) → length ss = n ∧ length q ≤ length input.
Proof.
  unfold read_update, get_family. destruct has.
  - destruct (GetVarint32 input) as [[v|] input'] eqn:E; [|done]. apply GetVarint32_shorter in E.
    destruct (get_slices n input') as [[ss' q']|] eqn:E'; [|done]. intros [= _ <- <-].
    apply get_slices_shorter in E'. lia.
  - destruct (get_slices n input) as [[ss' q']|] eqn:E'; [|done]. intros [= _ <- <-].
    by apply get_slices_shorter in E'.
Qed.

(** Reading a record never leaves the input, and takes at least the tag from it. *)
Lemma ReadBatchRecord_total t input old :
  ∃ s r q, ReadRecordFromWriteBatch (t :: input) old = Ok (s, r, q) ∧ length q ≤ length input.
Proof.
  unfold ReadRecordFromWriteBatch.
  repeat case_match; subst; try solve [eauto 10];
    repeat match goal with
    | H : read_update _ _ _ = Some _ |- _ => apply read_update_shorter in H as [? ?]
    | H : get_slices _ _ = Some _ |- _ => apply get_slices_shorter in H as [? ?]
    end; eauto 10.
Qed.

Section any_batch.
Context {H : Type} `{Handler H}.

(** No method of the handler stops abnormally. *)
Record handler_total : Prop := {
  total_PutCF cf k v h : ∃ s h', PutCF cf k v h = Ok (s, h');
  total_DeleteCF cf k h : ∃ s h', DeleteCF cf k h = Ok (s, h');
  total_MergeCF cf k v h : ∃ s h', MergeCF cf k v h = Ok (s, h');
  total_LogData blob h : ∃ h', LogData blob h = Ok (tt, h');
  total_Continue h : ∃ go h', Continue h = Ok (go, h');
}.

Context (Htotal : handler_total).

Lemma handle_record_total r found h : ∃ y h', handle_record r found h = Ok (y, h').
Proof.
  unfold handle_record. repeat case_match.
  - destruct (total_PutCF Htotal (column_family r) (r_key r) (r_value r) h) as (s & h' & E).
    rewrite (bind_Ok _ _ _ _ _ E). eexists _, _. reflexivity.
  - destruct (total_DeleteCF Htotal (column_family r) (r_key r) h) as (s & h' & E).
    rewrite (bind_Ok _ _ _ _ _ E). eexists _, _. reflexivity.
  - destruct (total_MergeCF Htotal (column_family r) (r_key r) (r_value r) h) as (s & h' & E).
    rewrite (bind_Ok _ _ _ _ _ E). eexists _, _. reflexivity.
  - destruct (total_LogData Htotal (r_blob r) h) as (h' & E).
    rewrite (bind_Ok _ _ _ _ _ E). eexists _, _. reflexivity.
  - eexists _, _. reflexivity.
Qed.

Lemma Iterate_loop_total fuel input old found h :
  length input ≤ fuel → ∃ y h', Iterate_loop fuel input old found h = Ok (y, h').
Proof.
  revert input old found h. induction fuel as [|fuel IH]; intros [|t input] old found h Hf; cbn in Hf;
    [eexists _, _; reflexivity|lia|eexists _, _; reflexivity|].
  cbn [Iterate_loop]. destruct (total_Continue Htotal h) as (go & h1 & E).
  rewrite (bind_Ok _ _ _ _ _ E). destruct go; cbn [negb]; [|eexists _, _; reflexivity].
  destruct (ReadBatchRecord_total t input old) as (s & r & q & Er & Hq).
  rewrite (bind_Ok _ _ _ _ _ (lift_Ok _ h1 _ Er)). cbn beta iota.
  destruct (ok s); cbn [negb]; [|eexists _, _; reflexivity].
  destruct (handle_record_total r found h1) as ([s' found'] & h2 & Eh).
  rewrite (bind_Ok _ _ _ _ _ Eh). destruct (ok s'); [|eexists _, _; reflexivity].
  apply IH. lia.
Qed.

Lemma Iterate_runs b h : ∃ s h', Iterate b h = Ok (s, h').
Proof.
  unfold Iterate. case_decide as Hl; [eexists _, _; reflexivity|].
  destruct (Iterate_loop_total (length (drop kHeader (rep_ b))) (drop kHeader (rep_ b))
    (mkRecord 0 0 [] [] []) 0 h) as ([s found] & h' & E); [done|].
  rewrite (bind_Ok _ _ _ _ _ E). destruct (ok s); cbn [negb]; [|eexists _, _; reflexivity].
  unfold WriteBatchInternal_Count, DecodeFixed32.
  rewrite has_bytes_true by (rewrite length_drop; unfold kHeader in *; lia).
  mred. unfold mbind, prog_bind. cbn. case_match; eexists _, _; reflexivity.
Qed.
End any_batch.

(** ** Handlers that do not stop *)

Section run_updates.
Context {H : Type} `{Handler H}.

(** The updates one after the other, up to the first that fails. *)
Fixpoint run_updates (us : list update) : prog H Status :=
  match us with
  | [] => mret StatusOK
  | u :: us => s ← handle_update u; if ok s then run_updates us else mret s
  end.

Context (Hgo : ∀ h : H, Continue h = Ok (true, h)).

Lemma replay_run us found (h : H) :
  replay us found h =
    match run_updates us h with
    | Ok (s, h') =>
        if ok s then Ok (StatusOK, (found + count_updates us)%Z, h')
        else replay us found h
    | Err e => Err e
    end.
Proof.
  revert found h. induction us as [|u us IH]; intros found h; cbn [replay run_updates].
  - mred. change (count_updates []) with 0%Z. by rewrite Z.add_0_r.
  - rewrite (bind_Ok _ _ _ _ _ (Hgo h)). cbn [negb]. unfold mbind, prog_bind.
    destruct (handle_update u h) as [[s h1]|e]; [|done]. destruct (ok s) eqn:Es; [|mred; by rewrite Es].
    rewrite IH. destruct (run_updates us h1) as [[s' h2]|]; [|done].
    destruct (ok s'); [|done]. rewrite count_updates_cons. by rewrite Z.add_assoc.
Qed.

Lemma replay_run_failed us found (h : H) s h' :
  run_updates us h = Ok (s, h') → ok s = false → ∃ n, replay us found h = Ok (s, n, h').
Proof.
  revert found h. induction us as [|u us IH]; intros found h; cbn [replay run_updates].
  - by intros [= <- <-].
  - rewrite (bind_Ok _ _ _ _ _ (Hgo h)). cbn [negb]. unfold mbind, prog_bind.
    destruct (handle_update u h) as [[s1 h1]|e]; [|done]. destruct (ok s1) eqn:Es.
    + intros Hr Hs. by apply IH.
    + intros [= <- <-] _. mred. eauto.
Qed.

Lemma run_updates_ok us (h : H) s h' : run_updates us h = Ok (s, h') → ok s = true → s = StatusOK.
Proof.
  revert h. induction us as [|u us IH]; intros h; cbn [run_updates]; [by intros [= <- _]|].
  unfold mbind, prog_bind. destruct (handle_update u h) as [[s1 h1]|e]; [|done].
  destruct (ok s1) eqn:Es; [apply IH|]. intros [= <- _]. congruence.
Qed.

Lemma Iterate_runs_updates b seq us (h : H) :
  holds_updates b seq us → Forall update_ok us → (count_updates us < 2 ^ 31)%Z →
  Iterate b h = run_updates us h.
Proof.
  intros Hb Hus Hn. rewrite (Iterate_replay b seq us) by done. unfold mbind at 1, prog_bind at 1.
  destruct (run_updates us h) as [[s h']|e] eqn:E.
  - destruct (ok s) eqn:Es.
    + rewrite replay_run, E, Es. cbn. rewrite Z.eqb_refl. by rewrite (run_updates_ok _ _ _ _ E Es).
    + destruct (replay_run_failed us 0 h s h' E Es) as (n & ->). cbn [fst snd]. by rewrite Es.
  - by rewrite replay_run, E.
Qed.

Lemma run_updates_app us vs (h : H) :
  run_updates (us ++ vs) h = (s ← run_updates us; if ok s then run_updates vs else mret s) h.
Proof.
  revert h. induction us as [|u us IH]; intros h; [done|].
  cbn [run_updates app]. unfold mbind, prog_bind in *.
  destruct (handle_update u h) as [[s1 h1]|e]; [|done]. destruct (ok s1) eqn:Es; [apply IH|].
  mred. by rewrite Es.
Qed.
End run_updates.

(** ** Properties *)

(** C23: A write batch replays what was put into it.  Filling a new batch with at
    most 2^31 - 1 updates whose strings fit 32 bits never fails, the header counts
    the updates, and [Iterate] hands exactly these updates to the handler, in order,
    ending with the first one whose status is not ok. *)
Theorem write_batch_round_trip us :
  Forall update_ok us → (count_updates us < 2 ^ 31)%Z →
  ∃ b, add_updates WriteBatch_new us = Ok b ∧
    WriteBatch_Count b = Ok (count_updates us) ∧
    ∀ (H : Type) (HH : Handler H) (h : H),
      (∀ h : H, Continue h = Ok (true, h)) → Iterate b h = run_updates us h.
Proof.
  intros Hus Hn. pose proof (count_updates_nonneg us).
  destruct (add_updates_hold WriteBatch_new 0 [] us WriteBatch_new_holds Hn) as (b & E & Hb).
  exists b. split; [done|]. split.
  - rewrite (holds_eq _ _ _ Hb). unfold WriteBatch_Count. apply header_Count. cbn [app]. lia.
  - intros T HH h Hgo. by apply (Iterate_runs_updates Hgo b 0).
Qed.


(** Grouping writes.  Appending one batch to another gives a batch that replays
    the updates of the first and then, unless one of them failed, those of the
    second; it keeps the sequence number of the first. *)
Theorem Append_replays dst src seq seq' us vs :
  holds_updates dst seq us → holds_updates src seq' vs → is_u64 seq →
  Forall update_ok us → Forall update_ok vs → (count_updates (us ++ vs) < 2 ^ 31)%Z →
  ∃ b, WriteBatchInternal_Append dst src = Ok b ∧ WriteBatchInternal_Sequence b = Ok seq ∧
    ∀ (H : Type) (HH : Handler H) (h : H), (∀ h : H, Continue h = Ok (true, h)) →
      Iterate b h = (s ← Iterate dst; if ok s then Iterate src else mret s) h.
Proof.
  intros Hd Hs Hseq Hus Hvs Hn. destruct (Append_holds _ _ _ _ _ _ Hd Hs Hn) as (b & E & Hb).
  exists b. split; [done|]. split; [rewrite (holds_eq _ _ _ Hb); by apply header_Sequence|].
  intros T HH h Hgo. rewrite count_updates_app in Hn.
  pose proof (count_updates_nonneg us). pose proof (count_updates_nonneg vs).
  rewrite (Iterate_runs_updates Hgo b seq (us ++ vs)) by
    first [done | by apply Forall_app | rewrite count_updates_app; lia].
  rewrite run_updates_app. unfold mbind, prog_bind.
  rewrite (Iterate_runs_updates Hgo dst seq us) by (done || lia).
  destruct (run_updates us h) as [[s h1]|]; [|done]. destruct (ok s); [|done].
  by rewrite (Iterate_runs_updates Hgo src seq' vs) by (done || lia).
Qed.

(** The variants that gather a key and a value from parts are equivalent to the
    plain calls on the concatenated parts. *)
Theorem parts_equivalent b cf key value :
  WriteBatch_PutParts b cf key value = WriteBatch_Put b cf (concat key) (concat value) ∧
  WriteBatch_DeleteParts b cf key = WriteBatch_Delete b cf (concat key).
Proof.
  unfold WriteBatch_PutParts, WriteBatch_Put, WriteBatchInternal_PutParts, WriteBatchInternal_Put,
    WriteBatch_DeleteParts, WriteBatch_Delete, WriteBatchInternal_DeleteParts, WriteBatchInternal_Delete.
  split; (destruct (bump_count b); [|done]); mred; by rewrite !PutLengthPrefixedSliceParts_concat.
Qed.

(** A handler that asks [Iterate] to stop is told that the batch is corrupt: the
    updates that were not visited are missing from the count that is compared with
    the header. *)
Theorem stopped_iteration_is_corrupt (H : Type) (HH : Handler H) b seq us (h h' : H) :
  holds_updates b seq us → Forall update_ok us → (0 < count_updates us < 2 ^ 31)%Z →
  Continue h = Ok (false, h') →
  Iterate b h = Ok (Corruption "WriteBatch has wrong count", h').
Proof.
  intros Hb Hus Hn Hstop. rewrite (Iterate_replay b seq us) by (done || lia).
  destruct us as [|u us]; [cbn in Hn; lia|].
  rewrite (bind_Ok _ _ _ (StatusOK, 0%Z) h').
  - cbn [fst snd]. change (negb (ok StatusOK)) with false. cbv iota.
    by rewrite (proj2 (Z.eqb_neq _ _)) by lia.
  - cbn [replay]. by rewrite (bind_Ok _ _ _ _ _ Hstop).
Qed.

(** A handler that records what it is given, up to a number of updates. *)
Definition recorder : Type := list update * nat.
Definition recorded (u : update) : prog recorder Status :=
  λ r, Ok (StatusOK, (r.1 ++ [u], pred r.2)).
#[export] Instance recorder_Handler : Handler recorder := {|
  PutCF cf k v := recorded (OpPut cf k v);
  DeleteCF cf k := recorded (OpDelete cf k);
  MergeCF cf k v := recorded (OpMerge cf k v);
  LogData blob := recorded (OpLog blob);; mret tt;
  Continue := λ r, Ok (bool_decide (r.2 ≠ 0), r);
|}.

(** A handler that records everything. *)
Definition journal : Type := list update.
Definition written (u : update) : prog journal Status := λ r, Ok (StatusOK, r ++ [u]).
#[export] Instance journal_Handler : Handler journal := {|
  PutCF cf k v := written (OpPut cf k v);
  DeleteCF cf k := written (OpDelete cf k);
  MergeCF cf k v := written (OpMerge cf k v);
  LogData blob := written (OpLog blob);; mret tt;
  Continue := mret true;
|}.

Definition ex_updates : list update :=
  [OpPut 0 (str "a") (str "1"); OpLog (str "note"); OpDelete 300 (str "b"); OpMerge 0 (str "") (str "2")].

Lemma ex_updates_ok : Forall update_ok ex_updates.
Proof. repeat constructor; cbn; lia. Qed.

Definition ex_batch : WriteBatch :=
  match add_updates WriteBatch_new ex_updates with Ok b => b | Err _ => WriteBatch_new end.

Lemma ex_batch_holds : holds_updates ex_batch 0 ex_updates.
Proof. vm_compute. reflexivity. Qed.

Lemma write_batch_round_trip_witness :
  ∃ b, add_updates WriteBatch_new ex_updates = Ok b ∧ WriteBatch_Count b = Ok 3%Z ∧
    Iterate b ([] : journal) = Ok (StatusOK, ex_updates).
Proof.
  destruct (write_batch_round_trip ex_updates ex_updates_ok) as (b & E & Hc & Hi);
    [vm_compute; reflexivity|].
  exists b. split; [exact E|]. split; [exact Hc|].
  exact (Hi journal journal_Handler [] (λ _, eq_refl)).
Defined.


Lemma Append_replays_witness :
  ∃ b, WriteBatchInternal_Append ex_batch ex_batch = Ok b ∧ WriteBatchInternal_Sequence b = Ok 0%Z ∧
    Iterate b ([] : journal) = Ok (StatusOK, ex_updates ++ ex_updates).
Proof.
  destruct (Append_replays ex_batch ex_batch 0 0 ex_updates ex_updates ex_batch_holds ex_batch_holds)
    as (b & E & Hs & Hi); [lia|exact ex_updates_ok|exact ex_updates_ok|vm_compute; reflexivity|].
  exists b. split; [exact E|]. split; [exact Hs|].
  rewrite (Hi journal journal_Handler [] (λ _, eq_refl)). vm_compute. reflexivity.
Defined.

Lemma stopped_iteration_is_corrupt_witness :
  Iterate ex_batch (([], 0) : recorder) = Ok (Corruption "WriteBatch has wrong count", ([], 0)).
Proof.
  apply (stopped_iteration_is_corrupt recorder recorder_Handler ex_batch 0 ex_updates);
    [exact ex_batch_holds|exact ex_updates_ok|vm_compute; split; reflexivity|reflexivity].
Defined.
