(* ===== verification/Log.v ===== *)
(** * RocksDB: the write-ahead log

    Models [src/src/rocksdb/db/log_format.h], [log_writer.{h,cc}] and
    [log_reader.{h,cc}].  A log is a sequence of blocks of 32 KiB; a record is cut
    into fragments that do not cross blocks, each with a header of a checksum, a
    length and a type.  The reader is what recovery uses after a crash. *)

From S2P Require Import Prelude Varint BaseUint Coding CrcTables Crc32c Env.
From stdpp Require Import pretty.

(** The size of a buffer, as the code computes with it. *)
Definition size (b : bytes) : Z := Z.of_nat (length b).

(** ** Format *)

Definition kZeroType : Z := 0.
Definition kFullType : Z := 1.
Definition kFirstType : Z := 2.
Definition kMiddleType : Z := 3.
Definition kLastType : Z := 4.
Definition kMaxRecordType : Z := kLastType.

Definition kBlockSize : Z := 32768.
Definition kHeaderSize : Z := 4 + 1 + 2.

(** ** Writer *)

Record Writer (F : Type) := mkWriter { dest_ : F; block_offset_ : Z; type_crc_ : list Z }.
Arguments mkWriter {F}.
Arguments dest_ {F}.
Arguments block_offset_ {F}.
Arguments type_crc_ {F}.

Section Writer.
Context (pl : platform) {F : Type} `{WritableFile F}.

Definition Writer_new (dest : F) : outcome (Writer F) :=
  crcs ← mapM (λ i, Value pl [byte.of_Z (Z.of_nat i)]) (seq 0 (Z.to_nat (kMaxRecordType + 1)));
  mret (mkWriter dest 0 crcs).

Definition set_block_offset (o : Z) : prog (Writer F) unit :=
  modify (λ w, mkWriter (dest_ w) o (type_crc_ w)).

Definition dest_Append (d : bytes) : prog (Writer F) Status := λ w,
  let '(s, f) := file_Append d (dest_ w) in Ok (s, mkWriter f (block_offset_ w) (type_crc_ w)).
Definition dest_Flush : prog (Writer F) Status := λ w,
  let '(s, f) := file_Flush (dest_ w) in Ok (s, mkWriter f (block_offset_ w) (type_crc_ w)).

Definition EmitPhysicalRecord (t : Z) (ptr : bytes) : prog (Writer F) Status :=
  let n := size ptr in
  assert (Z.leb n 0xffff);;
  offset ← gets block_offset_;
  assert (Z.leb (offset + kHeaderSize + n) kBlockSize);;
  crcs ← gets type_crc_;
  type_crc ← lift (of_option OutOfBounds (crcs !! Z.to_nat t));
  crc ← lift (Extend pl type_crc ptr);
  let buf := EncodeFixed32 (Mask crc) ++
    [byte.of_Z (Z.land n 0xff); byte.of_Z (Z.shiftr n 8); byte.of_Z t] in
  s ← dest_Append buf;
  s ← (if ok s then
         s ← dest_Append ptr;
         if ok s then dest_Flush else mret s
       else mret s);
  set_block_offset (offset + kHeaderSize + n);;
  mret s.

(** The beginning of a turn of [AddRecord]: no header fits the end of a block. *)
Definition switch_block : prog (Writer F) unit :=
  offset ← gets block_offset_;
  let leftover := (kBlockSize - offset)%Z in
  assert (Z.leb 0 leftover);;
  (if Z.ltb leftover kHeaderSize then
     (if Z.ltb 0 leftover then dest_Append (replicate (Z.to_nat leftover) Byte.x00);; mret tt
      else mret tt);;
     set_block_offset 0
   else mret tt).

Definition record_type (begin end_ : bool) : Z :=
  if begin && end_ then kFullType
  else if begin then kFirstType
  else if end_ then kLastType
  else kMiddleType.

(** The loop of [AddRecord].  Every turn but one takes at least one byte. *)
Fixpoint AddRecord_loop (fuel : nat) (ptr : bytes) (begin : bool) : prog (Writer F) Status :=
  match fuel with
  | O => fail OutOfFuel
  | S fuel =>
      switch_block;;
      offset ← gets block_offset_;
      assert (Z.leb kHeaderSize (kBlockSize - offset));;
      let left := size ptr in
      let avail := (kBlockSize - offset - kHeaderSize)%Z in
      let fragment_length := if Z.ltb left avail then left else avail in
      let end_ := Z.eqb left fragment_length in
      s ← EmitPhysicalRecord (record_type begin end_) (take (Z.to_nat fragment_length) ptr);
      let ptr := drop (Z.to_nat fragment_length) ptr in
      if ok s && Z.ltb 0 (left - fragment_length) then AddRecord_loop fuel ptr false else mret s
  end.

Definition AddRecord (slice : bytes) : prog (Writer F) Status :=
  AddRecord_loop (S (S (length slice))) slice true.
End Writer.

(** ** Reader *)

Definition kEof : Z := kMaxRecordType + 1.
Definition kBadRecord : Z := kMaxRecordType + 2.

(** The constant members. *)
Record reader_options := mkReaderOptions {
  reporter_ : bool;  (** there is a reporter *)
  checksum_ : bool;
  initial_offset_ : Z;
}.

(** The others, and the calls of the reporter's [Corruption] so far. *)
Record Reader (F : Type) := mkReader {
  file_ : F; buffer_ : bytes; eof_ : bool; read_error_ : bool; eof_offset_ : Z;
  last_record_offset_ : Z; end_of_buffer_offset_ : Z; reports : list (Z * Status);
}.
Arguments mkReader {F}.
Arguments file_ {F}.
Arguments buffer_ {F}.
Arguments eof_ {F}.
Arguments read_error_ {F}.
Arguments eof_offset_ {F}.
Arguments last_record_offset_ {F}.
Arguments end_of_buffer_offset_ {F}.
Arguments reports {F}.

Section Reader.
Context (pl : platform) (o : reader_options) {F : Type} `{SequentialFile F}.

Definition Reader_new (f : F) : Reader F := mkReader f [] false false 0 0 0 [].

Definition set_buffer (b : bytes) (r : Reader F) : Reader F :=
  mkReader (file_ r) b (eof_ r) (read_error_ r) (eof_offset_ r) (last_record_offset_ r)
    (end_of_buffer_offset_ r) (reports r).
Definition set_last_record_offset (x : Z) (r : Reader F) : Reader F :=
  mkReader (file_ r) (buffer_ r) (eof_ r) (read_error_ r) (eof_offset_ r) x
    (end_of_buffer_offset_ r) (reports r).
Definition set_read_error (r : Reader F) : Reader F :=
  mkReader (file_ r) (buffer_ r) (eof_ r) true (eof_offset_ r) (last_record_offset_ r)
    (end_of_buffer_offset_ r) (reports r).
Definition set_eof (eof : bool) (offset : Z) (r : Reader F) : Reader F :=
  mkReader (file_ r) (buffer_ r) eof (read_error_ r) offset (last_record_offset_ r)
    (end_of_buffer_offset_ r) (reports r).
(** A read: the file has moved on and [end_of_buffer_offset_] with it. *)
Definition set_file (f : F) (end_ : Z) (r : Reader F) : Reader F :=
  mkReader f (buffer_ r) (eof_ r) (read_error_ r) (eof_offset_ r) (last_record_offset_ r)
    end_ (reports r).
Definition add_report (n : Z) (s : Status) (r : Reader F) : Reader F :=
  mkReader (file_ r) (buffer_ r) (eof_ r) (read_error_ r) (eof_offset_ r) (last_record_offset_ r)
    (end_of_buffer_offset_ r) (reports r ++ [(n, s)]).

Definition ReportDrop (n : Z) (reason : Status) : prog (Reader F) unit :=
  modify (λ r,
    if reporter_ o &&
       Z.leb (initial_offset_ o) (u64 (end_of_buffer_offset_ r - size (buffer_ r) - n))
    then add_report n reason r else r).
Definition ReportCorruption (n : Z) (reason : string) : prog (Reader F) unit :=
  ReportDrop n (Corruption reason).

(** [snprintf(buf, sizeof(buf), "unknown record type %u", record_type)] *)
Definition unknown_type (type : Z) : string := "unknown record type " +:+ pretty (Z.to_N type).

(** The part of [ReadPhysicalRecord] after the header is known to be in the buffer:
    the type and the fragment. *)
Definition parse_record (result : bytes) : prog (Reader F) (Z * bytes) :=
  header ← gets buffer_;
  a ← lift (of_option OutOfBounds (header !! 4));
  b ← lift (of_option OutOfBounds (header !! 5));
  t ← lift (of_option OutOfBounds (header !! 6));
  let type := u32 (schar t) in
  let length := Z.lor (byte.unsigned a) (Z.shiftl (byte.unsigned b) 8) in
  if Z.ltb (size header) (kHeaderSize + length) then
    modify (set_buffer []);;
    eof ← gets eof_;
    if negb eof then
      ReportCorruption (size header) "bad record length";; mret (kBadRecord, result)
    else mret (kEof, result)
  else if Z.eqb type kZeroType && Z.eqb length 0 then
    modify (set_buffer []);; mret (kBadRecord, result)
  else
    good ← (if checksum_ o then
              stored ← lift (DecodeFixed32 header);
              actual_crc ← lift (Value pl (take (1 + Z.to_nat length) (drop 6 header)));
              mret (Z.eqb actual_crc (Unmask stored))
            else mret true);
    if negb good then
      modify (set_buffer []);;
      ReportCorruption (size header) "checksum mismatch";; mret (kBadRecord, result)
    else
      modify (set_buffer (drop (Z.to_nat (kHeaderSize + length)) header));;
      end_ ← gets end_of_buffer_offset_;
      rest ← gets buffer_;
      if Z.ltb (u64 (end_ - size rest - kHeaderSize - length)) (initial_offset_ o) then
        mret (kBadRecord, [])
      else mret (type, take (Z.to_nat length) (drop (Z.to_nat kHeaderSize) header)).

(** [while (true)]: at the latest the second turn returns. *)
Fixpoint ReadPhysicalRecord_loop (fuel : nat) (result : bytes) : prog (Reader F) (Z * bytes) :=
  match fuel with
  | O => fail OutOfFuel
  | S fuel =>
      r ← gets id;
      if Z.ltb (size (buffer_ r)) kHeaderSize then
        if negb (eof_ r) && negb (read_error_ r) then
          let '(status, data, f) := file_Read (Z.to_nat kBlockSize) (file_ r) in
          modify (set_buffer data);;
          modify (set_file f (u64 (end_of_buffer_offset_ r + size data)));;
          if negb (ok status) then
            modify (set_buffer []);;
            ReportDrop kBlockSize status;;
            modify set_read_error;;
            mret (kEof, result)
          else
            (if Z.ltb (size data) kBlockSize then modify (set_eof true (size data)) else mret tt);;
            ReadPhysicalRecord_loop fuel result
        else modify (set_buffer []);; mret (kEof, result)
      else parse_record result
  end.
Definition ReadPhysicalRecord (result : bytes) : prog (Reader F) (Z * bytes) :=
  ReadPhysicalRecord_loop 2 result.

Definition SkipToInitialBlock : prog (Reader F) bool :=
  let initial_offset_in_block := (initial_offset_ o mod kBlockSize)%Z in
  let block_start_location := u64 (initial_offset_ o - initial_offset_in_block) in
  let block_start_location :=
    if Z.ltb (kBlockSize - 6) initial_offset_in_block
    then u64 (block_start_location + kBlockSize) else block_start_location in
  modify (λ r, set_file (file_ r) block_start_location r);;
  if Z.ltb 0 block_start_location then
    r ← gets id;
    let '(skip_status, f) := file_Skip block_start_location (file_ r) in
    modify (set_file f block_start_location);;
    if negb (ok skip_status) then ReportDrop block_start_location skip_status;; mret false
    else mret true
  else mret true.

(** The state of the loop of [ReadRecord]. *)
Record reading := mkReading {
  in_fragmented_record : bool; prospective_record_offset : Z; scratch : bytes; fragment : bytes;
}.

(** What a turn does: go on, or end with the record or without one. *)
Inductive turn := Again (s : reading) | Return (record : option bytes).

(** The two cases that start a record report what they interrupt. *)
Definition report_partial (s : reading) (reason : string) : prog (Reader F) unit :=
  if in_fragmented_record s && negb (bool_decide (scratch s = []))
  then ReportCorruption (size (scratch s)) reason else mret tt.

(** The switch of [ReadRecord]. *)
Definition handle_physical (type : Z) (frag : bytes) (physical_record_offset : Z) (s : reading)
    : prog (Reader F) turn :=
  if Z.eqb type kFullType then
    report_partial s "partial record without end(1)";;
    modify (set_last_record_offset physical_record_offset);;
    mret (Return (Some frag))
  else if Z.eqb type kFirstType then
    report_partial s "partial record without end(2)";;
    mret (Again (mkReading true physical_record_offset frag frag))
  else if Z.eqb type kMiddleType then
    if negb (in_fragmented_record s) then
      ReportCorruption (size frag) "missing start of fragmented record(1)";;
      mret (Again (mkReading false (prospective_record_offset s) (scratch s) frag))
    else mret (Again (mkReading true (prospective_record_offset s) (scratch s ++ frag) frag))
  else if Z.eqb type kLastType then
    if negb (in_fragmented_record s) then
      ReportCorruption (size frag) "missing start of fragmented record(2)";;
      mret (Again (mkReading false (prospective_record_offset s) (scratch s) frag))
    else
      modify (set_last_record_offset (prospective_record_offset s));;
      mret (Return (Some (scratch s ++ frag)))
  else if Z.eqb type kEof then mret (Return None)
  else if Z.eqb type kBadRecord then
    if in_fragmented_record s then
      ReportCorruption (size (scratch s)) "error in middle of record";;
      mret (Again (mkReading false (prospective_record_offset s) [] frag))
    else mret (Again (mkReading false (prospective_record_offset s) (scratch s) frag))
  else
    ReportCorruption (size frag + (if in_fragmented_record s then size (scratch s) else 0))
      (unknown_type type);;
    mret (Again (mkReading false (prospective_record_offset s) [] frag)).

Fixpoint ReadRecord_loop (fuel : nat) (s : reading) : prog (Reader F) (option bytes) :=
  match fuel with
  | O => fail OutOfFuel
  | S fuel =>
      r ← gets id;
      let physical_record_offset := u64 (end_of_buffer_offset_ r - size (buffer_ r)) in
      x ← ReadPhysicalRecord (fragment s);
      t ← handle_physical x.1 x.2 physical_record_offset s;
      match t with
      | Again s => ReadRecord_loop fuel s
      | Return record => mret record
      end
  end.

(** The next record, or [None] at the end of the input. *)
Definition ReadRecord (fuel : nat) : prog (Reader F) (option bytes) :=
  r ← gets id;
  skipped ← (if Z.ltb (last_record_offset_ r) (initial_offset_ o) then SkipToInitialBlock
             else mret true);
  if negb skipped then mret None
  else ReadRecord_loop fuel (mkReading false 0 [] []).

Definition LastRecordOffset (r : Reader F) : Z := last_record_offset_ r.

(** More data may have been written.  [backing_store_] ends up holding what was in the
    buffer followed by what is read. *)
Definition UnmarkEOF : prog (Reader F) unit :=
  r ← gets id;
  if read_error_ r then mret tt else
  modify (set_eof false (eof_offset_ r));;
  if Z.eqb (eof_offset_ r) 0 then mret tt else
  let remaining := (kBlockSize - eof_offset_ r)%Z in
  let '(status, read_buffer, f) := file_Read (Z.to_nat remaining) (file_ r) in
  let added := size read_buffer in
  modify (set_file f (u64 (end_of_buffer_offset_ r + added)));;
  if negb (ok status) then
    (if Z.ltb 0 added then ReportDrop added status else mret tt);;
    modify set_read_error
  else
    modify (set_buffer (buffer_ r ++ read_buffer));;
    if Z.ltb added remaining then modify (set_eof true (eof_offset_ r + added))
    else modify (set_eof false 0).
End Reader.
