(* ===== verification/LogLaws.v ===== *)
(** * RocksDB: the log reader reads what the log writer wrote

    The layout of a log as a function of the records, how the reader moves through it,
    also when it is cut off, and that the writer produces it. *)

From S2P Require Import Prelude Varint BaseUint Coding CrcTables Crc32c Env Log.

Open Scope Z_scope.

(** ** Layout *)

(** What is left of the block at a position of the file, and the trailer skipped there. *)
Definition left_in (pos : Z) : Z := kBlockSize - pos mod kBlockSize.
Definition pad (pos : Z) : Z := if left_in pos <? kHeaderSize then left_in pos else 0.

(** A physical record. *)
Definition phys (t : Z) (p : bytes) : bytes :=
  EncodeFixed32 (Mask (crc32c 0 (byte.of_Z t :: p))) ++
  [byte.of_Z (Z.land (size p) 0xff); byte.of_Z (Z.shiftr (size p) 8); byte.of_Z t] ++ p.
Definition emitted (pos t : Z) (p : bytes) : bytes :=
  replicate (Z.to_nat (pad pos)) Byte.x00 ++ phys t p.
Definition next (pos : Z) (p : bytes) : Z := pos + pad pos + kHeaderSize + size p.
Definition fits (pos : Z) (p : bytes) : Prop := kHeaderSize + size p ≤ left_in (pos + pad pos).

(** The bytes that a record becomes when it is written at [pos], and where they end. *)
Inductive fragments : Z → bool → bytes → bytes → Z → Prop :=
| fragments_last pos begin data :
    fits pos data →
    fragments pos begin data (emitted pos (record_type begin true) data) (next pos data)
| fragments_more pos begin p data out pos' :
    kHeaderSize + size p = left_in (pos + pad pos) → data ≠ [] →
    fragments (next pos p) false data out pos' →
    fragments pos begin (p ++ data) (emitted pos (record_type begin false) p ++ out) pos'.

(** A log: the bytes of a list of records. *)
Inductive log_layout : Z → list bytes → bytes → Z → Prop :=
| log_nil pos : log_layout pos [] [] pos
| log_cons pos r out pos1 rs out' pos' :
    fragments pos true r out pos1 → log_layout pos1 rs out' pos' →
    log_layout pos (r :: rs) (out ++ out') pos'.

Lemma fragments_inj pos begin data out1 pos1 out2 pos2 :
  fragments pos begin data out1 pos1 → fragments pos begin data out2 pos2 → out1 = out2 ∧ pos1 = pos2.
Proof.
  intros H1. revert out2 pos2. induction H1 as [pos begin data Hf|pos begin p data out1 pos1 Hp Hne _ IH]; intros out2 pos2 H2.
  - inversion H2 as [|? ? p data' out pos' Hp Hne _]; subst; [done|]. exfalso. apply Hne, length_zero_iff_nil.
    unfold fits, size in *. rewrite length_app in Hf. lia.
  - inversion H2 as [? ? ? Hf|? ? p' data' out pos' Hp' Hne' H']; subst.
    + exfalso. apply Hne, length_zero_iff_nil. unfold fits, size in *. rewrite length_app in Hf. lia.
    + match goal with E : _ ++ _ = _ ++ _ |- _ => apply app_inj_1 in E as [-> ->]; [|unfold size in *; lia] end. by destruct (IH _ _ H') as [-> ->].
Qed.

(** The layout is determined by the records. *)
Lemma log_layout_inj pos rs out1 pos1 out2 pos2 :
  log_layout pos rs out1 pos1 → log_layout pos rs out2 pos2 → out1 = out2 ∧ pos1 = pos2.
Proof.
  intros H1. revert out2 pos2. induction H1 as [pos|pos r out pos1 rs out' pos' Hf _ IH]; intros out2 pos2 H2;
    inversion H2 as [|? ? out3 pos3 ? ? ? Hf' H3]; subst; [done|].
  destruct (fragments_inj _ _ _ _ _ _ _ Hf Hf') as [<- <-]. by destruct (IH _ _ H3) as [-> ->].
Qed.

Lemma log_layout_split pos rs1 rs2 out pos2 :
  log_layout pos (rs1 ++ rs2) out pos2 →
  ∃ out1 pos1 out2, out = out1 ++ out2 ∧ log_layout pos rs1 out1 pos1 ∧ log_layout pos1 rs2 out2 pos2.
Proof.
  revert pos out. induction rs1 as [|r rs1 IH]; intros pos out Hl; [exists [], pos, out; by split_and!; try constructor|].
  inversion Hl as [|? ? o1 p1 ? o2 ? Hf Hl']; subst. destruct (IH _ _ Hl') as (out1 & pos1 & out2 & -> & H1 & H2).
  exists (o1 ++ out1), pos1, out2. rewrite app_assoc. split_and!; [done|by econstructor|done].
Qed.

(** ** Arithmetic of positions *)

Lemma kBlockSize_eq : kBlockSize = 32768.
Proof. done. Qed.
Lemma kBlockSize_pos : 0 < kBlockSize.
Proof. done. Qed.
#[local] Opaque kBlockSize.

Lemma size_app a b : size (a ++ b) = size a + size b.
Proof. unfold size. rewrite length_app. lia. Qed.
Lemma size_nonneg a : 0 ≤ size a.
Proof. unfold size. lia. Qed.
Lemma size_nil : size [] = 0.
Proof. done. Qed.
Lemma size_replicate n (b : byte) : 0 ≤ n → size (replicate (Z.to_nat n) b) = n.
Proof. intros Hn. unfold size. rewrite length_replicate. lia. Qed.
Lemma size_zero a : size a = 0 → a = [].
Proof. destruct a; [done|]. unfold size. cbn [length]. lia. Qed.

Lemma left_in_bounds pos : 0 < left_in pos ≤ kBlockSize.
Proof. unfold left_in. pose proof (Z.mod_pos_bound pos kBlockSize kBlockSize_pos). lia. Qed.

Lemma left_in_start pos : pos mod kBlockSize = 0 → left_in pos = kBlockSize.
Proof. intros H. unfold left_in. rewrite H. lia. Qed.

Lemma left_in_skip pos : left_in (pos + left_in pos) = kBlockSize.
Proof.
  apply left_in_start. unfold left_in.
  replace (pos + (kBlockSize - pos mod kBlockSize)) with (pos - pos mod kBlockSize + 1 * kBlockSize) by ring.
  rewrite Z.mod_add by (pose proof kBlockSize_pos; lia). rewrite Zminus_mod_idemp_r, Z.sub_diag. done.
Qed.

(** Moving inside a block. *)
Lemma left_in_move pos n : 0 ≤ n < left_in pos → left_in (pos + n) = left_in pos - n.
Proof.
  intros Hn. unfold left_in in *. pose proof (Z.mod_pos_bound pos kBlockSize kBlockSize_pos).
  pose proof kBlockSize_pos. rewrite <-Z.add_mod_idemp_l by lia. rewrite (Z.mod_small (_ + n)) by lia. lia.
Qed.
Lemma mod_block_end pos : (pos + left_in pos) mod kBlockSize = 0.
Proof.
  pose proof (left_in_skip pos) as Hs. unfold left_in in Hs at 1. lia.
Qed.

Lemma pad_nonneg pos : 0 ≤ pad pos < kHeaderSize.
Proof. unfold pad. pose proof (left_in_bounds pos). destruct (Z.ltb_spec (left_in pos) kHeaderSize); unfold kHeaderSize in *; lia. Qed.

Lemma pad_start pos : pos mod kBlockSize = 0 → pad pos = 0.
Proof. intros Hm. unfold pad. by rewrite left_in_start, kBlockSize_eq by done. Qed.

Lemma left_in_pad pos : kHeaderSize ≤ left_in (pos + pad pos).
Proof.
  unfold pad. destruct (Z.ltb_spec (left_in pos) kHeaderSize); [by rewrite left_in_skip, kBlockSize_eq|].
  by rewrite Z.add_0_r.
Qed.

Lemma length_phys t p : length (phys t p) = (7 + length p)%nat.
Proof. unfold phys. rewrite !length_app, length_EncodeFixed32. done. Qed.
Lemma size_phys t p : size (phys t p) = kHeaderSize + size p.
Proof. unfold size. rewrite length_phys. unfold kHeaderSize. lia. Qed.
Lemma size_emitted pos t p : size (emitted pos t p) = pad pos + kHeaderSize + size p.
Proof.
  pose proof (pad_nonneg pos). unfold emitted. rewrite size_app, size_replicate, size_phys by lia. lia.
Qed.

(** ** Parsing one physical record *)

Definition is_type (t : Z) : Prop := 1 ≤ t ≤ 4.

Lemma record_type_is begin end_ : is_type (record_type begin end_).
Proof. by destruct begin, end_. Qed.

Lemma type_byte t : is_type t → u32 (schar (byte.of_Z t)) = t.
Proof.
  intros Ht. assert (t = 1 ∨ t = 2 ∨ t = 3 ∨ t = 4) as [->|[->|[->| ->]]] by (unfold is_type in *; lia);
    vm_compute; reflexivity.
Qed.

Lemma length_field n : 0 ≤ n < 65536 →
  Z.lor (byte.unsigned (byte.of_Z (Z.land n 0xff))) (Z.shiftl (byte.unsigned (byte.of_Z (Z.shiftr n 8))) 8) = n.
Proof.
  intros Hn. rewrite !unsigned_of_Z. change 0xff with (Z.ones 8). rewrite Z.land_ones by lia.
  rewrite Z.shiftr_div_pow2, Z.shiftl_mul_pow2 by lia. change (2 ^ 8) with 256.
  rewrite Z.mod_mod by lia. pose proof (Z.mod_pos_bound n 256 ltac:(lia)).
  rewrite (Z.mod_small (n / 256)) by (split; [apply Z.div_pos; lia|apply Z.div_lt_upper_bound; lia]).
  change 256 with (2 ^ 8) in *. rewrite lor_shifted by (lia || (apply Z.div_pos; lia)).
  pose proof (Z.div_mod n (2 ^ 8)). lia.
Qed.

Lemma phys_lookup t p tail i (H : (i < 3)%nat) :
  (phys t p ++ tail) !! (4 + i)%nat =
  [byte.of_Z (Z.land (size p) 0xff); byte.of_Z (Z.shiftr (size p) 8); byte.of_Z t] !! i.
Proof.
  unfold phys. rewrite <-!app_assoc. rewrite lookup_app_r by (rewrite length_EncodeFixed32; lia).
  rewrite length_EncodeFixed32. rewrite lookup_app_l by (cbn; lia). f_equal. lia.
Qed.

(** Running the reads of three bytes that are there. *)
Lemma read_three {St B} (h : bytes) i j l a b c (k : byte → byte → byte → prog St B) s :
  h !! i = Some a → h !! j = Some b → h !! l = Some c →
  (x ← lift (of_option OutOfBounds (h !! i)); y ← lift (of_option OutOfBounds (h !! j));
   z ← lift (of_option OutOfBounds (h !! l)); k x y z) s = k a b c s.
Proof. intros -> -> ->. done. Qed.

Section parse.
Context (pl : platform) (Hpl : platform_ok pl) (o : reader_options) (Ho : initial_offset_ o = 0).
Context {F : Type}.

Lemma parse_phys (r : Reader F) result t p tail :
  buffer_ r = phys t p ++ tail → is_type t → size p < 65536 →
  parse_record pl o result r = Ok ((t, p), set_buffer tail r).
Proof.
  intros Hb Ht Hp. pose proof (size_nonneg p). pose proof (size_nonneg tail).
  unfold parse_record. step (eq_refl : gets buffer_ r = _). rewrite Hb.
  pose proof (phys_lookup t p tail 0 ltac:(lia)) as L4. pose proof (phys_lookup t p tail 1 ltac:(lia)) as L5.
  pose proof (phys_lookup t p tail 2 ltac:(lia)) as L6. cbn [Nat.add] in L4, L5, L6.
  rewrite (read_three _ _ _ _ _ _ _ _ _ L4 L5 L6).
  rewrite type_byte, length_field by (done || lia).
  rewrite size_app, size_phys. rewrite (proj2 (Z.ltb_ge _ _)) by lia.
  assert ((t =? kZeroType) = false) as -> by (apply Z.eqb_neq; unfold is_type, kZeroType in *; lia).
  cbn [andb].
  assert (drop 6 (phys t p ++ tail) = byte.of_Z t :: p ++ tail) as Hd6.
  { unfold phys. rewrite <-!app_assoc. rewrite (drop_app_ge _ _ 6) by (rewrite length_EncodeFixed32; lia).
    by rewrite length_EncodeFixed32. }
  assert (drop 7 (phys t p ++ tail) = p ++ tail) as Hd7.
  { change 7%nat with (6 + 1)%nat. by rewrite <-drop_drop, Hd6. }
  assert (Z.to_nat (size p) = length p) as Hn by (unfold size; lia).
  rewrite (bind_Ok _ _ _ true r); cbn [negb].
  - assert (drop (Z.to_nat (kHeaderSize + size p)) (phys t p ++ tail) = tail) as Ht'.
    { rewrite drop_app_length'; [done|]. rewrite length_phys. unfold kHeaderSize, size. lia. }
    rewrite Ht'. step (eq_refl : modify _ r = _). step (eq_refl : gets _ _ = _). step (eq_refl : gets _ _ = _).
    rewrite Ho, (proj2 (Z.ltb_ge _ 0)) by (apply Z.mod_pos_bound; lia).
    change (Z.to_nat kHeaderSize) with 7%nat. rewrite Hd7, Hn, take_app_length. done.
  - destruct (checksum_ o); [|done].
    assert (DecodeFixed32 (phys t p ++ tail) = Ok (Mask (crc32c 0 (byte.of_Z t :: p)))) as ->.
    { unfold phys. rewrite <-app_assoc. apply DecodeFixed32_write, Mask_u32. }
    rewrite Hd6, Hn. cbn [Nat.add take]. rewrite take_app_length. unfold Value.
    rewrite Extend_crc32c by (done || (cbn [length]; unfold size in *; lia)).
    unfold lift, mbind, prog_bind. mred.
    rewrite Unmask_masked, Z.eqb_refl by (apply crc32c_u32; lia). done.
Qed.

(** The file ends inside a record. *)
Lemma parse_cut (r : Reader F) result t p k :
  buffer_ r = take k (phys t p) → (7 ≤ k < 7 + length p)%nat → size p < 65536 → eof_ r = true →
  parse_record pl o result r = Ok ((kEof, result), set_buffer [] r).
Proof.
  intros Hb Hk Hp He. unfold parse_record. step (eq_refl : gets buffer_ r = _). rewrite Hb.
  pose proof (phys_lookup t p [] 0 ltac:(lia)) as L4. pose proof (phys_lookup t p [] 1 ltac:(lia)) as L5.
  pose proof (phys_lookup t p [] 2 ltac:(lia)) as L6. rewrite app_nil_r in L4, L5, L6.
  cbn [Nat.add] in L4, L5, L6. rewrite !lookup_take_lt by lia.
  rewrite (read_three _ _ _ _ _ _ _ _ _ L4 L5 L6).
  pose proof (size_nonneg p). rewrite length_field by lia.
  rewrite (proj2 (Z.ltb_lt _ _)) by
    (unfold size at 1; rewrite length_take, length_phys; unfold kHeaderSize, size; lia).
  step (eq_refl : modify _ r = _). step (eq_refl : gets _ _ = _). cbn [eof_ set_buffer].
  rewrite He. done.
Qed.
End parse.

(** ** Where the reader is *)

Section reader.
Context (pl : platform) (Hpl : platform_ok pl) (o : reader_options) (Ho : initial_offset_ o = 0).
Context {F : Type} `{SequentialFileLaws F}.

Implicit Type r : Reader F.

(** The rest of the block at [pos] is in the buffer. *)
Definition loaded r (pos : Z) (rem : bytes) : Prop :=
  buffer_ r = take (Z.to_nat (left_in pos)) rem ∧
  unread (file_ r) = drop (Z.to_nat (left_in pos)) rem ∧
  eof_ r = (size rem <? left_in pos).

(** The block at [pos] has not been read. *)
Definition fresh_block r (pos : Z) (rem : bytes) : Prop :=
  pos mod kBlockSize = 0 ∧ buffer_ r = [] ∧ unread (file_ r) = rem ∧ eof_ r = false.

(** The reader is at position [pos] of a file that has the bytes [rem] from there on. *)
Definition at_pos r (pos : Z) (rem : bytes) : Prop :=
  read_error_ r = false ∧ end_of_buffer_offset_ r = pos + size (buffer_ r) ∧
  0 ≤ pos ∧ pos + size rem < 2 ^ 63 ∧ (loaded r pos rem ∨ fresh_block r pos rem).

(** Nothing is reported, and the offset of the last record stays a number. *)
Definition same_reports r r' : Prop :=
  reports r' = reports r ∧ (0 ≤ last_record_offset_ r → 0 ≤ last_record_offset_ r').

Lemma same_reports_trans r1 r2 r3 : same_reports r1 r2 → same_reports r2 r3 → same_reports r1 r3.
Proof. intros [E1 H1] [E2 H2]. split; [congruence|auto]. Qed.

Lemma Reader_new_at f : size (unread f) < 2 ^ 63 → at_pos (Reader_new f) 0 (unread f).
Proof. intros Hs. unfold at_pos, fresh_block. cbn. split_and!; [done..|lia|lia|right; done]. Qed.

(** Reading a block. *)
Definition load r (data : bytes) (f : F) : Reader F :=
  let r := set_file f (end_of_buffer_offset_ r + size data) (set_buffer data r) in
  if size data <? kBlockSize then set_eof true (size data) r else r.

Lemma run_load n r pos rem result :
  read_error_ r = false → eof_ r = false → size (buffer_ r) < kHeaderSize →
  end_of_buffer_offset_ r = pos → 0 ≤ pos → pos + size rem < 2 ^ 63 → pos mod kBlockSize = 0 →
  unread (file_ r) = rem →
  ∃ r', ReadPhysicalRecord_loop pl o (S n) result r = ReadPhysicalRecord_loop pl o n result r' ∧
    at_pos r' pos rem ∧ loaded r' pos rem ∧ same_reports r r'.
Proof.
  intros He Heof Hb Hend Hpos Hsz Hmod Hun. pose proof (size_nonneg rem).
  destruct (Read_unread (Z.to_nat kBlockSize) (file_ r)) as (f & Ef & Hf). rewrite Hun in Ef, Hf.
  set (data := take (Z.to_nat kBlockSize) rem) in *. exists (load r data f).
  assert (size data ≤ size rem) as Hdr by (unfold size, data; rewrite length_take; lia).
  pose proof (size_nonneg data).
  assert ((size data <? kBlockSize) = (size rem <? kBlockSize)) as Hlt.
  { unfold data, size. rewrite length_take, kBlockSize_eq.
    destruct (Z.ltb_spec (Z.of_nat (length rem)) 32768); [apply Z.ltb_lt|apply Z.ltb_ge]; lia. }
  assert (loaded (load r data f) pos rem) as Hl.
  { unfold loaded, load. rewrite left_in_start by done. rewrite Hlt.
    destruct (size rem <? kBlockSize) eqn:E; cbn; rewrite ?E; done. }
  split_and!; [|split_and!; [by unfold load; case_match| |done|done|by left]|done|by unfold load, same_reports; case_match].
  - cbn [ReadPhysicalRecord_loop]. step (eq_refl : gets id r = _). unfold id.
    rewrite (proj2 (Z.ltb_lt _ _)) by done. rewrite Heof, He. cbn [negb andb]. rewrite Ef.
    step (eq_refl : modify _ r = _). step (eq_refl : modify _ _ = _).
    change (negb (ok StatusOK)) with false. cbv iota.
    rewrite Hend, Z.mod_small by lia. unfold load. rewrite Hend.
    by destruct (size data <? kBlockSize).
  - unfold load. rewrite Hend. by case_match.
Qed.

Lemma take_left_app pos (a b : bytes) :
  size a ≤ left_in pos →
  take (Z.to_nat (left_in pos)) (a ++ b) = a ++ take (Z.to_nat (left_in pos - size a)) b.
Proof.
  intros Ha. rewrite take_app_ge by (unfold size in *; lia). do 2 f_equal. unfold size. lia.
Qed.

(** Past a record that lies in the buffer. *)
Lemma consume r pos a rest :
  at_pos r pos (a ++ rest) → loaded r pos (a ++ rest) → 0 < size a ≤ left_in pos →
  ∃ tail, buffer_ r = a ++ tail ∧ at_pos (set_buffer tail r) (pos + size a) rest.
Proof.
  intros (He & Hend & Hpos & Hsz & _) (Hb & Hun & Heof) Ha.
  exists (take (Z.to_nat (left_in pos - size a)) rest). rewrite take_left_app in Hb by lia.
  split; [done|]. rewrite Hb in Hend. rewrite size_app in Hend, Hsz.
  unfold at_pos. cbn [set_buffer read_error_ end_of_buffer_offset_ buffer_].
  split_and!; [done|rewrite Hend; lia|lia|lia|].
  assert (drop (Z.to_nat (left_in pos)) (a ++ rest) = drop (Z.to_nat (left_in pos - size a)) rest) as Hd.
  { rewrite drop_app_ge by (unfold size in *; lia). f_equal. unfold size. lia. }
  rewrite Hd in Hun. rewrite size_app in Heof.
  destruct (decide (size a = left_in pos)) as [Heq|Hne].
  - right. rewrite Heq, Z.sub_diag in *. unfold fresh_block. cbn [set_buffer buffer_ file_ eof_].
    rewrite take_0. split_and!; [apply mod_block_end|done|done|].
    rewrite Heof. apply Z.ltb_ge. pose proof (size_nonneg rest). lia.
  - left. unfold loaded. cbn [set_buffer buffer_ file_ eof_]. rewrite left_in_move by lia.
    split_and!; [done|done|]. rewrite Heof.
    destruct (Z.ltb_spec (size a + size rest) (left_in pos)); symmetry; [apply Z.ltb_lt|apply Z.ltb_ge]; lia.
Qed.

Lemma block_payload pos p : kHeaderSize + size p ≤ left_in pos → size p < 65536.
Proof. pose proof (left_in_bounds pos). rewrite kBlockSize_eq in *. unfold kHeaderSize. lia. Qed.

Lemma read_loaded n r pos t p rest result :
  at_pos r pos (phys t p ++ rest) → loaded r pos (phys t p ++ rest) → is_type t →
  kHeaderSize + size p ≤ left_in pos →
  ∃ r', ReadPhysicalRecord_loop pl o (S n) result r = Ok ((t, p), r') ∧
    at_pos r' (pos + kHeaderSize + size p) rest ∧ same_reports r r'.
Proof.
  intros Hat Hl Ht Hfit. pose proof (size_nonneg p). pose proof (size_phys t p) as Hsp.
  destruct (consume r pos (phys t p) rest Hat Hl) as (tail & Hb & Hat').
  { unfold kHeaderSize in *. lia. }
  exists (set_buffer tail r). split_and!; [|by rewrite Hsp, Z.add_assoc in Hat'|done].
  cbn [ReadPhysicalRecord_loop]. step (eq_refl : gets id r = _). unfold id.
  rewrite (proj2 (Z.ltb_ge _ _)).
  - apply parse_phys; [done..|]. by apply (block_payload pos).
  - rewrite Hb, size_app. pose proof (size_nonneg tail). lia.
Qed.

(** A reader that has reached the end of the file. *)
Lemma at_end r : read_error_ r = false → eof_ r = true → unread (file_ r) = [] →
  0 ≤ end_of_buffer_offset_ r < 2 ^ 63 → at_pos (set_buffer [] r) (end_of_buffer_offset_ r) [].
Proof.
  intros He Heof Hun Hend. unfold at_pos, loaded. cbn [set_buffer read_error_ end_of_buffer_offset_ buffer_ file_ eof_].
  rewrite size_nil, take_nil, drop_nil. split_and!; [done|lia|lia|lia|].
  left. split_and!; [done..|]. rewrite Heof. symmetry. apply Z.ltb_lt. apply left_in_bounds.
Qed.

Lemma loaded_end r pos rem :
  at_pos r pos rem → loaded r pos rem → size rem < left_in pos →
  buffer_ r = rem ∧ eof_ r = true ∧ at_pos (set_buffer [] r) (end_of_buffer_offset_ r) [].
Proof.
  intros (He & Hend & Hpos & Hsz & _) (Hb & Hun & Heof) Hlt.
  rewrite (proj2 (Z.ltb_lt _ _)) in Heof by done.
  rewrite take_ge in Hb by (unfold size in *; lia). rewrite drop_ge in Hun by (unfold size in *; lia).
  split_and!; [done..|]. apply at_end; [done..|]. rewrite Hend, Hb. pose proof (size_nonneg rem). lia.
Qed.

(** Less than a header is left. *)
Lemma read_short n r pos rem result :
  at_pos r pos rem → loaded r pos rem → size rem < left_in pos → size rem < kHeaderSize →
  ∃ r' pos', ReadPhysicalRecord_loop pl o (S n) result r = Ok ((kEof, result), r') ∧
    at_pos r' pos' [] ∧ same_reports r r'.
Proof.
  intros Hat Hl Hlt Hh. destruct (loaded_end r pos rem Hat Hl Hlt) as (Hb & Heof & Hend).
  exists (set_buffer [] r), (end_of_buffer_offset_ r). split_and!; [|done..].
  cbn [ReadPhysicalRecord_loop]. step (eq_refl : gets id r = _). unfold id. rewrite Hb.
  rewrite (proj2 (Z.ltb_lt _ _)) by done. rewrite Heof. done.
Qed.

(** Less than a record is left. *)
Lemma read_loaded_cut n r pos t p k result :
  at_pos r pos (take k (phys t p)) → loaded r pos (take k (phys t p)) → (k < length (phys t p))%nat →
  kHeaderSize + size p ≤ left_in pos →
  ∃ r' pos', ReadPhysicalRecord_loop pl o (S n) result r = Ok ((kEof, result), r') ∧
    at_pos r' pos' [] ∧ same_reports r r'.
Proof.
  intros Hat Hl Hk Hfit.
  assert (size (take k (phys t p)) = Z.of_nat k) as Hs by (unfold size; rewrite length_take; lia).
  rewrite length_phys in Hk.
  assert (size (take k (phys t p)) < left_in pos) by (unfold kHeaderSize, size in *; lia).
  destruct (decide (k < 7)%nat) as [H7|H7].
  - apply (read_short n r pos (take k (phys t p))); [done..|]. unfold kHeaderSize. lia.
  - destruct (loaded_end r pos _ Hat Hl) as (Hb & Heof & Hend); [done|].
    exists (set_buffer [] r), (end_of_buffer_offset_ r). split_and!; [|done..].
    cbn [ReadPhysicalRecord_loop]. step (eq_refl : gets id r = _). unfold id.
    rewrite (proj2 (Z.ltb_ge _ _)) by (rewrite Hb; unfold kHeaderSize; lia).
    apply (parse_cut pl o r result t p k); [done|lia|by apply (block_payload pos)|done].
Qed.

(** Skipping the trailer of a block, or coming to a block that is not read yet. *)
Lemma read_skip n r pos rem rem' result :
  at_pos r pos rem → rem = replicate (Z.to_nat (pad pos)) Byte.x00 ++ rem' →
  (loaded r pos rem ∧ pad pos = 0) ∨
  ∃ r', ReadPhysicalRecord_loop pl o (S n) result r = ReadPhysicalRecord_loop pl o n result r' ∧
    at_pos r' (pos + pad pos) rem' ∧ loaded r' (pos + pad pos) rem' ∧ same_reports r r'.
Proof.
  intros Hat ->. pose proof (pad_nonneg pos). pose proof (size_nonneg rem').
  destruct Hat as (He & Hend & Hpos & Hsz & Hst).
  rewrite size_app, size_replicate in Hsz by lia.
  destruct (decide (pad pos = 0)) as [Hp|Hp].
  - destruct Hst as [Hl|(Hm & Hb & Hun & Heof)]; [left; split; [done|lia]|right].
    rewrite Hp in *. cbn [Z.to_nat replicate app] in *. rewrite Z.add_0_r.
    apply run_load; [done|done|by rewrite Hb|by rewrite Hend, Hb, size_nil, Z.add_0_r|lia|lia|done|done].
  - right. assert (pad pos = left_in pos) as Hpl' by (unfold pad in *; case_match; lia).
    destruct Hst as [(Hb & Hun & Heof)|(Hm & _)]; cycle 1.
    { by rewrite pad_start in Hp. }
    rewrite Hpl' in *. rewrite take_app_length' in Hb by (by rewrite length_replicate).
    rewrite drop_app_length' in Hun by (by rewrite length_replicate).
    rewrite Hb, size_replicate in Hend by lia.
    apply run_load; [done| |rewrite Hb, size_replicate by lia; lia|done|lia|lia|apply mod_block_end|done].
    rewrite Heof. apply Z.ltb_ge. rewrite size_app, size_replicate by lia. lia.
Qed.

(** A record that is whole is read. *)
Lemma read_physical r pos t p rest result :
  at_pos r pos (emitted pos t p ++ rest) → is_type t → fits pos p →
  ∃ r', ReadPhysicalRecord pl o result r = Ok ((t, p), r') ∧
    at_pos r' (next pos p) rest ∧ same_reports r r'.
Proof.
  intros Hat Ht Hfit. unfold ReadPhysicalRecord, next, fits in *.
  destruct (read_skip 1 r pos _ (phys t p ++ rest) result Hat) as [[Hl Hp]|(r1 & E & Hat1 & Hl1 & Hs1)].
  { unfold emitted. by rewrite <-app_assoc. }
  - unfold emitted in *. rewrite Hp in *. cbn [Z.to_nat replicate app] in *. rewrite Z.add_0_r in *.
    by apply read_loaded.
  - rewrite E. destruct (read_loaded 0 r1 _ t p rest result Hat1 Hl1 Ht Hfit) as (r2 & E2 & Hat2 & Hs2).
    exists r2. split_and!; [done|done|]. by eapply same_reports_trans.
Qed.

(** Of a record that is cut off nothing is read, and nothing is reported. *)
Lemma read_physical_cut r pos t p k result :
  at_pos r pos (take k (emitted pos t p)) → (k < length (emitted pos t p))%nat → fits pos p →
  ∃ r' pos', ReadPhysicalRecord pl o result r = Ok ((kEof, result), r') ∧
    at_pos r' pos' [] ∧ same_reports r r'.
Proof.
  intros Hat Hk Hfit. unfold ReadPhysicalRecord, fits in *. pose proof (pad_nonneg pos).
  unfold emitted in Hk. rewrite length_app, length_replicate in Hk.
  destruct (decide (k < Z.to_nat (pad pos))%nat) as [Hkp|Hkp].
  - assert (size (take k (emitted pos t p)) = Z.of_nat k) as Hs.
    { unfold size, emitted. rewrite length_take, length_app, length_replicate. lia. }
    assert (pad pos = left_in pos) as Hpl' by (unfold pad in *; case_match; lia).
    assert (loaded r pos (take k (emitted pos t p))) as Hl.
    { destruct Hat as (_ & _ & _ & _ & [?|(Hm & _)]); [done|].
      rewrite pad_start in Hkp by done. lia. }
    apply (read_short 1 r pos (take k (emitted pos t p))); [done|done|lia|lia].
  - destruct (read_skip 1 r pos _ (take (k - Z.to_nat (pad pos)) (phys t p)) result Hat)
      as [[Hl Hp]|(r1 & E & Hat1 & Hl1 & Hs1)].
    { unfold emitted. rewrite take_app_ge by (rewrite length_replicate; lia).
      by rewrite length_replicate. }
    + unfold emitted in *. rewrite Hp in *. cbn [Z.to_nat replicate app] in *. rewrite Z.add_0_r in *.
      apply (read_loaded_cut 1 r pos t p k); [done..|lia|done].
    + rewrite E. destruct (read_loaded_cut 0 r1 _ t p _ result Hat1 Hl1) as (r2 & pos2 & E2 & Hat2 & Hs2);
        [lia|done|]. exists r2, pos2. split_and!; [done|done|]. by eapply same_reports_trans.
Qed.
End reader.

(** * The writer produces the layout *)

Section writer.
Context (pl : platform) (Hpl : platform_ok pl) {F : Type} `{WritableFileLaws F}.

Implicit Type w : Writer F.

Definition type_crcs : list Z := (λ i, crc32c 0 [byte.of_Z (Z.of_nat i)]) <$> seq 0 5.

(** The file holds [c] and its end is position [pos] of a log. *)
Definition writer_at w (pos : Z) (c : bytes) : Prop :=
  contents (dest_ w) = c ∧ 0 ≤ block_offset_ w ≤ kBlockSize ∧
  pos mod kBlockSize = block_offset_ w mod kBlockSize ∧ type_crc_ w = type_crcs.

Lemma Writer_new_at f : contents f = [] →
  ∃ w, Writer_new pl f = Ok w ∧ writer_at w 0 [].
Proof.
  intros Hf. exists (mkWriter f 0 type_crcs). unfold Writer_new.
  change (Z.to_nat (kMaxRecordType + 1)) with 5%nat.
  rewrite (mapM_Ok _ (λ i, crc32c 0 [byte.of_Z (Z.of_nat i)])).
  - split; [done|]. unfold writer_at. cbn. pose proof kBlockSize_pos. split_and!; [done|lia|lia|done|done].
  - intros i _. unfold Value. apply Extend_crc32c; [done|lia|cbn; lia].
Qed.

Lemma run_dest_Append d w : ∃ f,
  dest_Append d w = Ok (StatusOK, mkWriter f (block_offset_ w) (type_crc_ w)) ∧
  contents f = contents (dest_ w) ++ d.
Proof.
  destruct (Append_contents d (dest_ w)) as (f & E & Hf). exists f. unfold dest_Append. by rewrite E.
Qed.

Lemma run_dest_Flush w : ∃ f,
  dest_Flush w = Ok (StatusOK, mkWriter f (block_offset_ w) (type_crc_ w)) ∧
  contents f = contents (dest_ w).
Proof.
  destruct (Flush_contents (dest_ w)) as (f & E & Hf). exists f. unfold dest_Flush. by rewrite E.
Qed.

(** The offset in the block and what is left of it. *)
Lemma offset_left w pos c : writer_at w pos c →
  block_offset_ w = kBlockSize ∧ pos mod kBlockSize = 0 ∨
  block_offset_ w < kBlockSize ∧ left_in pos = kBlockSize - block_offset_ w.
Proof.
  intros (_ & Hb & Hm & _). pose proof kBlockSize_pos.
  destruct (decide (block_offset_ w = kBlockSize)) as [E|E].
  - left. split; [done|]. by rewrite Hm, E, Z.mod_same by lia.
  - right. split; [lia|]. unfold left_in. rewrite Hm, Z.mod_small by lia. done.
Qed.

Lemma run_switch_block w pos c : writer_at w pos c →
  ∃ w', switch_block w = Ok (tt, w') ∧
    writer_at w' (pos + pad pos) (c ++ replicate (Z.to_nat (pad pos)) Byte.x00) ∧
    block_offset_ w' = kBlockSize - left_in (pos + pad pos).
Proof.
  intros Hw. destruct (offset_left w pos c Hw) as [[Eo Hm]|[Eo Hl]].
  - exists (mkWriter (dest_ w) 0 (type_crc_ w)). unfold switch_block.
    destruct Hw as (Hc & Hb & Hm' & Ht). rewrite pad_start by done. cbn [Z.to_nat replicate].
    rewrite app_nil_r, Z.add_0_r, left_in_start by done.
    step (eq_refl : gets _ w = _). rewrite Eo, Z.sub_diag. change (0 <=? 0) with true.
    step (eq_refl : assert true w = _). change (0 <? kHeaderSize) with true. change (0 <? 0) with false. cbv iota.
    split; [done|]. unfold writer_at. cbn. rewrite Hm, Z.mod_0_l by (pose proof kBlockSize_pos; lia).
    pose proof kBlockSize_pos. split; [split_and!; [done|lia|lia|done|done]|lia].
  - unfold switch_block. step (eq_refl : gets _ w = _). rewrite <-Hl.
    pose proof (left_in_bounds pos). rewrite (proj2 (Z.leb_le _ _)) by lia.
    step (eq_refl : assert true w = _). unfold pad. destruct (left_in pos <? kHeaderSize) eqn:Eh.
    + rewrite (proj2 (Z.ltb_lt _ _)) by lia.
      destruct (run_dest_Append (replicate (Z.to_nat (left_in pos)) Byte.x00) w) as (f & E & Hf).
      exists (mkWriter f 0 (type_crc_ w)).
      rewrite (bind_Ok _ _ _ tt (mkWriter f (block_offset_ w) (type_crc_ w))) by
        (rewrite (bind_Ok _ _ _ _ _ E); done).
      destruct Hw as (Hc & Hb & Hm' & Ht). split; [done|]. rewrite left_in_skip. unfold writer_at. cbn.
      pose proof kBlockSize_pos. rewrite mod_block_end, Z.mod_0_l by lia.
      split; [split_and!; [by rewrite Hf, Hc|lia|lia|done|done]|lia].
    + exists w. rewrite Z.add_0_r. cbn [Z.to_nat replicate]. rewrite app_nil_r. split_and!; [done|done|lia].
Qed.

Lemma type_crcs_lookup t : is_type t → type_crcs !! Z.to_nat t = Some (crc32c 0 [byte.of_Z t]).
Proof.
  intros Ht. unfold type_crcs, is_type in *. rewrite list_lookup_fmap, lookup_seq_lt by lia.
  cbn. by rewrite Z2Nat.id by lia.
Qed.

Lemma run_Emit w pos c t p :
  writer_at w pos c → block_offset_ w = kBlockSize - left_in pos →
  is_type t → kHeaderSize + size p ≤ left_in pos →
  ∃ w', EmitPhysicalRecord pl t p w = Ok (StatusOK, w') ∧
    writer_at w' (pos + kHeaderSize + size p) (c ++ phys t p).
Proof.
  intros (Hc & Hb & Hm & Hcrc) Ho Ht Hfit. pose proof (size_nonneg p).
  pose proof (block_payload pos p Hfit). pose proof (left_in_bounds pos).
  unfold EmitPhysicalRecord. rewrite (proj2 (Z.leb_le _ _)) by lia.
  step (eq_refl : assert true w = _). step (eq_refl : gets _ w = _).
  rewrite (proj2 (Z.leb_le _ _)) by lia. step (eq_refl : assert true w = _).
  step (eq_refl : gets _ w = _). rewrite Hcrc, type_crcs_lookup by done. cbn [of_option].
  step (eq_refl : lift (Ok _) w = _).
  rewrite Extend_crc32c by (done || (apply crc32c_u32; lia) || (unfold size in *; lia)).
  step (eq_refl : lift (Ok _) w = _). rewrite <-crc32c_app.
  match goal with |- context [(dest_Append ?b ≫= _) w] => destruct (run_dest_Append b w) as (f1 & E1 & Hf1) end.
  rewrite (bind_Ok _ _ _ _ _ E1). change (ok StatusOK) with true. cbv iota.
  destruct (run_dest_Append p (mkWriter f1 (block_offset_ w) (type_crc_ w))) as (f2 & E2 & Hf2).
  destruct (run_dest_Flush (mkWriter f2 (block_offset_ w) (type_crc_ w))) as (f3 & E3 & Hf3).
  cbn [dest_ block_offset_ type_crc_] in *.
  rewrite (bind_Ok _ _ _ StatusOK (mkWriter f3 (block_offset_ w) (type_crc_ w))) by
    (rewrite (bind_Ok _ _ _ _ _ E2); exact E3).
  exists (mkWriter f3 (block_offset_ w + kHeaderSize + size p) (type_crc_ w)). split; [done|].
  unfold writer_at. cbn. split_and!; [|unfold kHeaderSize in *; lia..| |done].
  - rewrite Hf3, Hf2, Hf1, Hc. unfold phys. by rewrite <-!app_assoc.
  - rewrite <-!Z.add_assoc. rewrite <-(Z.add_mod_idemp_l pos), Hm by (pose proof kBlockSize_pos; lia).
    by rewrite Z.add_mod_idemp_l by (pose proof kBlockSize_pos; lia).
Qed.

(** The loop, whose fuel is one more than the bytes, and one more if the block is full. *)
Lemma run_AddRecord_loop fuel w pos c data begin :
  writer_at w pos c →
  (length data + (if Z.eqb (left_in (pos + pad pos)) kHeaderSize then 1 else 0) < fuel)%nat →
  ∃ w' out pos', AddRecord_loop pl fuel data begin w = Ok (StatusOK, w') ∧
    fragments pos begin data out pos' ∧ writer_at w' pos' (c ++ out).
Proof.
  revert w pos c data begin. induction fuel as [|fuel IH]; intros w pos c data begin Hw Hf; [lia|].
  destruct (run_switch_block w pos c Hw) as (w1 & E1 & Hw1 & Ho1).
  cbn [AddRecord_loop]. step E1. step (eq_refl : gets _ w1 = _). rewrite Ho1.
  set (q := pos + pad pos) in *. pose proof (left_in_pad pos) as Hlq. fold q in Hlq.
  pose proof (size_nonneg data).
  rewrite (proj2 (Z.leb_le _ _)) by lia. step (eq_refl : assert true w1 = _).
  replace (kBlockSize - (kBlockSize - left_in q) - kHeaderSize) with (left_in q - kHeaderSize) by ring.
  destruct (decide (size data ≤ left_in q - kHeaderSize)) as [Hfit|Hbig].
  - assert ((if size data <? left_in q - kHeaderSize then size data else left_in q - kHeaderSize) = size data) as ->.
    { destruct (Z.ltb_spec (size data) (left_in q - kHeaderSize)); lia. }
    rewrite Z.eqb_refl, Z.sub_diag. change (0 <? 0) with false.
    rewrite take_ge by (unfold size; lia).
    destruct (run_Emit w1 q _ (record_type begin true) data Hw1 Ho1 (record_type_is _ _)) as (w2 & E2 & Hw2); [lia|].
    step E2. rewrite andb_false_r. exists w2, (emitted pos (record_type begin true) data), (next pos data).
    split_and!; [done|constructor; unfold fits; fold q; lia|].
    unfold emitted, next. rewrite app_assoc. exact Hw2.
  - rewrite (proj2 (Z.ltb_ge (size data) (left_in q - kHeaderSize))) by lia.
    rewrite (proj2 (Z.eqb_neq _ _)) by lia.
    rewrite (proj2 (Z.ltb_lt 0 _)) by lia.
    set (k := Z.to_nat (left_in q - kHeaderSize)). set (p := take k data).
    assert (size p = left_in q - kHeaderSize) as Hp by (unfold p, k, size in *; rewrite length_take; lia).
    destruct (run_Emit w1 q _ (record_type begin false) p Hw1 Ho1 (record_type_is _ _)) as (w2 & E2 & Hw2); [lia|].
    step E2. change (ok StatusOK) with true. cbv iota beta. cbn [andb].
    assert (next pos p = q + left_in q) as Hn by (unfold next; fold q; lia).
    change (q + kHeaderSize + size p) with (next pos p) in Hw2.
    destruct (IH w2 (next pos p) _ (drop k data) false Hw2) as (w3 & out & pos' & E3 & Hfr & Hw3).
    + rewrite (pad_start (next pos p)) by (rewrite Hn; apply mod_block_end).
      rewrite Z.add_0_r, Hn, left_in_skip, kBlockSize_eq. change (32768 =? kHeaderSize) with false.
      rewrite length_drop. destruct (Z.eqb_spec (left_in q) kHeaderSize); unfold k, size in *; lia.
    + exists w3, (emitted pos (record_type begin false) p ++ out), pos'. split_and!; [done| |].
      * rewrite <-(take_drop k data) at 1. constructor; [fold q; lia| |done].
        intros Hd. apply (f_equal length) in Hd. rewrite length_drop in Hd. cbn in Hd.
        unfold k, size in *. lia.
      * unfold emitted. by rewrite <-!app_assoc in *.
Qed.

(** Records added one after the other, up to the first error. *)
Fixpoint AddRecords (rs : list bytes) : prog (Writer F) Status :=
  match rs with
  | [] => mret StatusOK
  | r :: rs => s ← AddRecord pl r; if ok s then AddRecords rs else mret s
  end.

Lemma run_AddRecords rs w pos c : writer_at w pos c →
  ∃ w' out pos', AddRecords rs w = Ok (StatusOK, w') ∧
    log_layout pos rs out pos' ∧ writer_at w' pos' (c ++ out).
Proof.
  revert w pos c. induction rs as [|r rs IH]; intros w pos c Hw; cbn [AddRecords].
  - exists w, [], pos. rewrite app_nil_r. split_and!; [done|constructor|done].
  - destruct (run_AddRecord_loop (S (S (length r))) w pos c r true Hw) as (w1 & out & pos1 & E1 & Hf & Hw1);
      [case_match; lia|].
    step E1. change (ok StatusOK) with true. cbv iota.
    destruct (IH w1 pos1 _ Hw1) as (w2 & out' & pos2 & E2 & Hl & Hw2).
    exists w2, (out ++ out'), pos2. split_and!; [done|by econstructor|by rewrite app_assoc].
Qed.
End writer.
