(* ===== verification/LogSpec.v ===== *)
(** * RocksDB: properties of the write-ahead log *)

From S2P Require Import Prelude Varint BaseUint Coding CrcTables Crc32c Env Log LogLaws.

Open Scope Z_scope.
#[local] Opaque kBlockSize.

(** ** Reading records *)

Section records.
Context (pl : platform) (Hpl : platform_ok pl) (o : reader_options) (Ho : initial_offset_ o = 0).
Context {F : Type} `{SequentialFileLaws F}.

Implicit Type r : Reader F.

Lemma at_pos_last r pos rem x : at_pos r pos rem → at_pos (set_last_record_offset x r) pos rem.
Proof. done. Qed.

Lemma same_reports_last r r' x : same_reports r r' → 0 ≤ x → same_reports r (set_last_record_offset x r').
Proof. intros [E _] Hx. by split. Qed.

(** The part of a record that is read already. *)
Definition read_so_far (begin : bool) (s : reading) : bytes := if begin then [] else scratch s.

Lemma emitted_length pos t p : (7 + length p ≤ length (emitted pos t p))%nat.
Proof. unfold emitted. rewrite length_app, length_phys. lia. Qed.

Lemma fragments_length pos begin data out pos' : fragments pos begin data out pos' → (0 < length out)%nat.
Proof.
  intros Hf. destruct Hf; rewrite ?length_app;
    [pose proof (emitted_length pos (record_type begin true) data)|
     pose proof (emitted_length pos (record_type begin false) p)]; lia.
Qed.

(** The fragments of a record but the last are collected. *)
Lemma handle_begins begin p off s r :
  in_fragmented_record s = negb begin →
  ∃ s1, handle_physical o (record_type begin false) p off s r = Ok (Again s1, r) ∧
    in_fragmented_record s1 = true ∧ scratch s1 = read_so_far begin s ++ p ∧
    (0 ≤ off → 0 ≤ prospective_record_offset s → 0 ≤ prospective_record_offset s1).
Proof.
  intros Hs. exists (mkReading true (if begin then off else prospective_record_offset s) (read_so_far begin s ++ p) p).
  unfold handle_physical, record_type, read_so_far. destruct begin; cbn [negb andb] in *.
  - change (kFirstType =? kFullType) with false. change (kFirstType =? kFirstType) with true.
    cbv iota. unfold report_partial. by rewrite Hs.
  - change (kMiddleType =? kFullType) with false. change (kMiddleType =? kFirstType) with false.
    change (kMiddleType =? kMiddleType) with true. cbv iota. by rewrite Hs.
Qed.

(** A record that is whole is returned. *)
Lemma read_fragments fuel s r pos begin data out pos' rest :
  fragments pos begin data out pos' → at_pos r pos (out ++ rest) →
  in_fragmented_record s = negb begin → 0 ≤ prospective_record_offset s → (length out ≤ fuel)%nat →
  ∃ r', ReadRecord_loop pl o fuel s r = Ok (Some (read_so_far begin s ++ data), r') ∧
    at_pos r' pos' rest ∧ same_reports r r' ∧ 0 ≤ last_record_offset_ r'.
Proof.
  intros Hf. revert fuel s r rest.
  induction Hf as [pos begin data Hfit|pos begin p data out pos' Hfull Hne Hf IH];
    intros fuel s r rest Hat Hs Hoff Hfuel;
    rewrite ?length_app in Hfuel.
  - pose proof (emitted_length pos (record_type begin true) data). destruct fuel as [|fuel]; [lia|].
    destruct (read_physical pl Hpl o Ho r pos (record_type begin true) data rest (fragment s) Hat)
      as (r1 & E & Hat1 & Hs1); [apply record_type_is|done|].
    cbn [ReadRecord_loop]. step (eq_refl : gets id r = _). step E. cbn [fst snd].
    set (off := u64 _). assert (0 ≤ off) by (apply Z.mod_pos_bound; lia).
    unfold handle_physical, record_type, read_so_far. destruct begin; cbn [negb andb] in *.
    + change (kFullType =? kFullType) with true. cbv iota. unfold report_partial. rewrite Hs.
      exists (set_last_record_offset off r1). split_and!; [done..|by apply same_reports_last|done].
    + change (kLastType =? kFullType) with false. change (kLastType =? kFirstType) with false.
      change (kLastType =? kMiddleType) with false. change (kLastType =? kLastType) with true. cbv iota.
      rewrite Hs. cbn [negb]. exists (set_last_record_offset (prospective_record_offset s) r1).
      split_and!; [done..|by apply same_reports_last|done].
  - pose proof (emitted_length pos (record_type begin false) p). destruct fuel as [|fuel]; [lia|].
    rewrite <-app_assoc in Hat.
    destruct (read_physical pl Hpl o Ho r pos (record_type begin false) p (out ++ rest) (fragment s) Hat)
      as (r1 & E & Hat1 & Hs1); [apply record_type_is|unfold fits; lia|].
    cbn [ReadRecord_loop]. step (eq_refl : gets id r = _). step E. cbn [fst snd].
    set (off := u64 _). assert (0 ≤ off) by (apply Z.mod_pos_bound; lia).
    destruct (handle_begins begin p off s r1 Hs) as (s1 & E1 & Hs1' & Hscr & Hpro). step E1.
    destruct (IH fuel s1 r1 rest Hat1 Hs1') as (r2 & E2 & Hat2 & Hs2 & Hlast);
      [auto|lia|].
    exists r2. split_and!; [|done|by eapply same_reports_trans|done].
    rewrite E2. unfold read_so_far at 1. by rewrite Hscr, <-app_assoc.
Qed.

(** Of a record that is cut off nothing is returned. *)
Lemma read_fragments_cut fuel s r pos begin data out pos' k :
  fragments pos begin data out pos' → at_pos r pos (take k out) → (k < length out)%nat →
  in_fragmented_record s = negb begin → (length out ≤ fuel)%nat →
  ∃ r' pos'', ReadRecord_loop pl o fuel s r = Ok (None, r') ∧ at_pos r' pos'' [] ∧ same_reports r r'.
Proof.
  intros Hf. revert fuel s r k.
  induction Hf as [pos begin data Hfit|pos begin p data out pos' Hfull Hne Hf IH];
    intros fuel s r k Hat Hk Hs Hfuel; rewrite ?length_app in Hfuel.
  - pose proof (emitted_length pos (record_type begin true) data). destruct fuel as [|fuel]; [lia|].
    destruct (read_physical_cut pl o r pos _ data k (fragment s) Hat Hk Hfit) as (r1 & pos1 & E & Hat1 & Hs1).
    cbn [ReadRecord_loop]. step (eq_refl : gets id r = _). step E. eauto.
  - pose proof (emitted_length pos (record_type begin false) p) as Hel. destruct fuel as [|fuel]; [lia|].
    assert (fits pos p) as Hfit by (unfold fits; lia).
    cbn [ReadRecord_loop]. step (eq_refl : gets id r = _).
    destruct (decide (k < length (emitted pos (record_type begin false) p))%nat) as [Hlt|Hge].
    + rewrite take_app_le in Hat by lia.
      destruct (read_physical_cut pl o r pos _ p k (fragment s) Hat Hlt Hfit) as (r1 & pos1 & E & Hat1 & Hs1).
      step E. eauto.
    + rewrite take_app_ge in Hat by lia.
      destruct (read_physical pl Hpl o Ho r pos (record_type begin false) p _ (fragment s) Hat)
        as (r1 & E & Hat1 & Hs1); [apply record_type_is|done|]. step E. cbn [fst snd].
      destruct (handle_begins begin p (u64 (end_of_buffer_offset_ r - size (buffer_ r))) s r1 Hs) as (s1 & E1 & Hs1' & _ & _).
      step E1. rewrite length_app in Hk. destruct (IH fuel s1 r1 _ Hat1) as (r2 & pos2 & E2 & Hat2 & Hs2); [lia|done|lia|].
      exists r2, pos2. split_and!; [done..|by eapply same_reports_trans].
Qed.
End records.

(** ** Reading a log *)

(** All the records, as recovery reads them. *)
Fixpoint read_records (pl : platform) (o : reader_options) {F} `{SequentialFile F} (n fuel : nat)
    : prog (Reader F) (list bytes) :=
  match n with
  | O => fail OutOfFuel
  | S n =>
      x ← ReadRecord pl o fuel;
      match x with
      | Some rec => recs ← read_records pl o n fuel; mret (rec :: recs)
      | None => mret []
      end
  end.

Section log.
Context (pl : platform) (Hpl : platform_ok pl) (o : reader_options) (Ho : initial_offset_ o = 0).
Context {F : Type} `{SequentialFileLaws F}.

Implicit Type r : Reader F.

Lemma ReadRecord_start fuel r : 0 ≤ last_record_offset_ r →
  ReadRecord pl o fuel r = ReadRecord_loop pl o fuel (mkReading false 0 [] []) r.
Proof.
  intros Hl. unfold ReadRecord. step (eq_refl : gets id r = _). unfold id.
  rewrite Ho, (proj2 (Z.ltb_ge _ _)) by done. done.
Qed.

(** Reading gives these records, one call after the other, and reports nothing. *)
Inductive reads (fuel : nat) : Reader F → list bytes → Prop :=
| reads_end r r' : ReadRecord pl o fuel r = Ok (None, r') → reports r' = reports r → reads fuel r []
| reads_next r rec r1 recs :
    ReadRecord pl o fuel r = Ok (Some rec, r1) → reports r1 = reports r → reads fuel r1 recs → reads fuel r (rec :: recs).

Lemma reads_records fuel r recs n :
  reads fuel r recs → (length recs < n)%nat → ∃ r', read_records pl o n fuel r = Ok (recs, r') ∧ reports r' = reports r.
Proof.
  intros Hr. revert n. induction Hr as [r r' E Hs|r rec r1 recs E Hs _ IH]; intros [|n] Hn; cbn in Hn; try lia; cbn [read_records].
  - step E. eauto.
  - step E. destruct (IH n) as (r2 & E2 & Hs2); [lia|]. step E2. exists r2. split; [done|congruence].
Qed.

(** The records that are whole are read first. *)
Lemma read_whole pos rs out pos1 rest r fuel (P : list bytes → Prop) :
  log_layout pos rs out pos1 → at_pos r pos (out ++ rest) → 0 ≤ last_record_offset_ r →
  (length out ≤ fuel)%nat →
  (∀ r1, at_pos r1 pos1 rest → 0 ≤ last_record_offset_ r1 → ∃ l, reads fuel r1 l ∧ P l) →
  ∃ l, reads fuel r (rs ++ l) ∧ P l.
Proof.
  intros Hlog. revert r. induction Hlog as [pos|pos rec out pos1 rs out' pos' Hf Hlog IH];
    intros r Hat Hlast Hfuel Hrest; [by apply Hrest|].
  rewrite length_app in Hfuel. rewrite <-app_assoc in Hat.
  destruct (read_fragments pl Hpl o Ho fuel (mkReading false 0 [] []) r pos true rec out pos1 (out' ++ rest)
    Hf Hat) as (r1 & E & Hat1 & Hs1 & Hlast1); [done|done|lia|].
  rewrite <-(ReadRecord_start fuel r Hlast) in E.
  destruct (IH r1 Hat1 Hlast1) as (l & Hl & HP); [lia|done|].
  exists l. split; [|done]. eapply reads_next; [exact E|apply Hs1|done].
Qed.

(** At the end of the file, or inside a record that is cut off, reading ends. *)
Lemma read_end r pos rec out pos' k fuel :
  fragments pos true rec out pos' → at_pos r pos (take k out) → (k < length out)%nat →
  0 ≤ last_record_offset_ r → (length out ≤ fuel)%nat → reads fuel r [].
Proof.
  intros Hf Hat Hk Hlast Hfuel.
  destruct (read_fragments_cut pl Hpl o Ho fuel (mkReading false 0 [] []) r pos true rec out pos' k Hf Hat Hk)
    as (r1 & pos1 & E & _ & Hs); [done|done|].
  rewrite <-(ReadRecord_start fuel r Hlast) in E. eapply reads_end; [exact E|apply Hs].
Qed.

(** Any beginning of a log gives a beginning of its records. *)
Lemma read_prefix pos rs out pos' r k fuel :
  log_layout pos rs out pos' → at_pos r pos (take k out) → 0 ≤ last_record_offset_ r →
  (length out + 13 ≤ fuel)%nat →
  ∃ m, reads fuel r (take m rs) ∧ ((length out ≤ k)%nat → m = length rs).
Proof.
  intros Hlog. revert r k. induction Hlog as [pos|pos rec out pos1 rs out' pos' Hf Hlog IH];
    intros r k Hat Hlast Hfuel.
  - rewrite take_nil in Hat. assert (fits pos []) as Hfit by exact (left_in_pad pos). exists 0%nat. split; [|done].
    apply (read_end r pos [] _ _ 0 fuel (fragments_last pos true [] Hfit));
      [by rewrite take_0|pose proof (emitted_length pos (record_type true true) []); lia|done|].
    pose proof (size_emitted pos (record_type true true) []) as Hse. pose proof (pad_nonneg pos).
    rewrite size_nil in Hse. unfold size, kHeaderSize in *. lia.
  - rewrite length_app in Hfuel. destruct (decide (k < length out)%nat) as [Hk|Hk].
    + rewrite take_app_le in Hat by lia. exists 0%nat. rewrite take_0, length_app.
      split; [eapply (read_end r pos rec out pos1 k); [done..|lia]|lia].
    + rewrite take_app_ge in Hat by lia.
      destruct (read_fragments pl Hpl o Ho fuel (mkReading false 0 [] []) r pos true rec out pos1 _ Hf Hat)
        as (r1 & E & Hat1 & Hs1 & Hlast1); [done|done|lia|].
      rewrite <-(ReadRecord_start fuel r Hlast) in E.
      destruct (IH r1 (k - length out)%nat Hat1 Hlast1) as (m & Hm & Hall); [lia|].
      exists (S m). split; [eapply reads_next; [exact E|apply Hs1|done]|].
      rewrite length_app. cbn [length]. intros Hle. rewrite Hall by lia. done.
Qed.

(** A log of which the end is cut off. *)
Lemma read_cut rs1 out1 pos1 rs2 tail pos2 (f : F) k :
  log_layout 0 rs1 out1 pos1 → log_layout pos1 rs2 tail pos2 → size (out1 ++ tail) < 2 ^ 63 →
  unread f = out1 ++ take k tail →
  ∃ n, reads (length (out1 ++ tail) + 13) (Reader_new f) (rs1 ++ take n rs2) ∧ ((length tail ≤ k)%nat → n = length rs2).
Proof.
  intros Hl1 Hl2 Hsz Hf. rewrite size_app in Hsz. rewrite length_app.
  assert (size (take k tail) ≤ size tail) by (unfold size; rewrite length_take; lia).
  destruct (read_whole 0 rs1 out1 pos1 (take k tail) (Reader_new f) (length out1 + length tail + 13)
    (λ l, ∃ n, l = take n rs2 ∧ ((length tail ≤ k)%nat → n = length rs2))) as (l & Hr & n & -> & Hn); [done| |done|lia| |by exists n].
  - rewrite <-Hf. apply Reader_new_at. rewrite Hf, size_app. lia.
  - intros r1 Hat1 Hlast1. destruct (read_prefix pos1 rs2 tail pos2 r1 k (length out1 + length tail + 13)) as (m & E & Hm);
      [done..|lia|]. eauto 10.
Qed.
End log.

(** ** Reading any file *)

Section any_file.
Context (pl : platform) (Hpl : platform_ok pl) (o : reader_options).
Context {F : Type} `{SequentialFileLaws F}.

Implicit Type r : Reader F.

(** What the reader has still to read. *)
Definition to_read r : nat := length (buffer_ r) + length (unread (file_ r)).

Lemma run_ReportDrop n s r : ∃ r', ReportDrop o n s r = Ok (tt, r') ∧ to_read r' = to_read r.
Proof. unfold ReportDrop, modify. eexists; split; [done|]. by case_match. Qed.

Lemma run_ReportCorruption n s r : ∃ r', ReportCorruption o n s r = Ok (tt, r') ∧ to_read r' = to_read r.
Proof. apply run_ReportDrop. Qed.

Lemma length_field_range a b : 0 ≤ Z.lor (byte.unsigned a) (Z.shiftl (byte.unsigned b) 8) < 65536.
Proof.
  pose proof (unsigned_256 a). pose proof (unsigned_256 b).
  rewrite Z.shiftl_mul_pow2, lor_shifted by lia. lia.
Qed.

(** A record is parsed from the buffer, which becomes shorter. *)
Lemma parse_total r result : (7 ≤ length (buffer_ r))%nat →
  ∃ t p r', parse_record pl o result r = Ok ((t, p), r') ∧ (to_read r' < to_read r)%nat.
Proof.
  intros Hb. set (h := buffer_ r) in *.
  destruct (lookup_lt_is_Some_2 h 4) as [a Ea]; [lia|]. destruct (lookup_lt_is_Some_2 h 5) as [b Eb]; [lia|].
  destruct (lookup_lt_is_Some_2 h 6) as [c Ec]; [lia|].
  unfold parse_record. step (eq_refl : gets buffer_ r = _). fold h.
  rewrite (read_three _ _ _ _ _ _ _ _ _ Ea Eb Ec). pose proof (length_field_range a b) as Hlen.
  set (n := Z.lor _ _) in *.
  assert (∀ d, (length d < length h)%nat → (to_read (set_buffer d r) < to_read r)%nat) as Hless.
  { intros d Hd. unfold to_read. cbn [buffer_ file_ set_buffer]. fold h. lia. }
  assert (∀ m s, ∃ r', ReportCorruption o m s (set_buffer [] r) = Ok (tt, r') ∧ (to_read r' < to_read r)%nat) as Hrep.
  { intros m s. destruct (run_ReportCorruption m s (set_buffer [] r)) as (r' & E & Hm).
    exists r'. rewrite Hm. split; [done|]. apply Hless. cbn. lia. }
  destruct (size h <? kHeaderSize + n) eqn:Es.
  { step (eq_refl : modify _ r = _). step (eq_refl : gets _ _ = _). case_match.
    - destruct (Hrep (size h) "bad record length"%string) as (r' & E & Hm). step E. eauto.
    - eexists _, _, _. split; [done|]. apply Hless. cbn. lia. }
  case_match; [eexists _, _, _; split; [done|]; apply Hless; cbn; lia|].
  assert (∃ good, (if checksum_ o then
      stored ← lift (DecodeFixed32 h);
      actual_crc ← lift (Value pl (take (1 + Z.to_nat n) (drop 6 h)));
      mret (actual_crc =? Unmask stored) else mret true) r = Ok (good, r)) as [good Egood].
  { destruct (checksum_ o); [|eexists; done]. unfold DecodeFixed32. rewrite has_bytes_true by lia.
    step (eq_refl : lift (Ok _) r = _). unfold Value. rewrite Extend_crc32c;
      [eexists; done|done|lia|]. rewrite length_take, length_drop. lia. }
  step Egood. destruct good; cbn [negb].
  - step (eq_refl : modify _ r = _). step (eq_refl : gets _ _ = _). step (eq_refl : gets _ _ = _).
    apply Z.ltb_ge in Es. unfold kHeaderSize in *.
    assert (to_read (set_buffer (drop (Z.to_nat (4 + 1 + 2 + n)) h) r) < to_read r)%nat as Hl.
    { apply Hless. rewrite length_drop. lia. }
    destruct (_ <? initial_offset_ o); eexists _, _, _; (split; [reflexivity|exact Hl]).
  - step (eq_refl : modify _ r = _).
    destruct (Hrep (size h) "checksum mismatch"%string) as (r' & E & Hm). step E. eauto.
Qed.

Lemma ReadPhysicalRecord_total r result :
  ∃ t p r', ReadPhysicalRecord pl o result r = Ok ((t, p), r') ∧ (t = kEof ∨ (to_read r' < to_read r)%nat).
Proof.
  unfold ReadPhysicalRecord. cbn [ReadPhysicalRecord_loop]. step (eq_refl : gets id r = _). unfold id.
  destruct (size (buffer_ r) <? kHeaderSize) eqn:Eb; cycle 1.
  { apply Z.ltb_ge in Eb. destruct (parse_total r result) as (t & p & r' & E & Hl).
    - unfold size, kHeaderSize in *. lia.
    - eauto 10. }
  destruct (negb (eof_ r) && negb (read_error_ r)); [|eexists _, _, _; split; [done|by left]].
  destruct (Read_unread (Z.to_nat kBlockSize) (file_ r)) as (f & Ef & Hf). rewrite Ef.
  set (data := take _ _) in *. step (eq_refl : modify _ r = _). step (eq_refl : modify _ _ = _).
  change (negb (ok StatusOK)) with false. cbv iota.
  set (r0 := set_file _ _ _). set (r1 := if size data <? kBlockSize then set_eof true (size data) r0 else r0).
  assert ((if size data <? kBlockSize then modify (set_eof true (size data)) else mret tt) r0 = Ok (tt, r1)) as E1
    by (unfold r1; by case_match).
  step E1. step (eq_refl : gets id r1 = _). unfold id.
  assert (buffer_ r1 = data ∧ unread (file_ r1) = drop (Z.to_nat kBlockSize) (unread (file_ r))) as [Hb1 Hu1].
  { unfold r1, r0. rewrite <-Hf. by case_match. }
  rewrite Hb1. destruct (size data <? kHeaderSize) eqn:Ed.
  - assert (eof_ r1 = true) as Heof.
    { unfold r1. rewrite (proj2 (Z.ltb_lt (size data) kBlockSize)); [done|].
      apply Z.ltb_lt in Ed. rewrite kBlockSize_eq. unfold kHeaderSize in *. lia. }
    rewrite Heof. cbn [negb andb]. eexists _, _, _; split; [done|by left].
  - apply Z.ltb_ge in Ed. destruct (parse_total r1 result) as (t & p & r' & E & Hl).
    { rewrite Hb1. unfold size, kHeaderSize in *. lia. }
    exists t, p, r'. split; [exact E|]. right. eapply Nat.lt_le_trans; [exact Hl|].
    unfold to_read. rewrite Hb1, Hu1. unfold data. rewrite length_take, length_drop. lia.
Qed.

Lemma handle_total t p off s r :
  ∃ x r', handle_physical o t p off s r = Ok (x, r') ∧ to_read r' = to_read r ∧
    (t = kEof → ∃ rec, x = Return rec).
Proof.
  assert (∀ m reason (x : turn), ∃ x' r', (ReportCorruption o m reason;; mret x) r = Ok (x', r') ∧
    to_read r' = to_read r) as Hrep.
  { intros m reason x. destruct (run_ReportCorruption m reason r) as (r' & E & Hr). step E. eauto. }
  assert (∀ reason, ∃ r', report_partial o s reason r = Ok (tt, r') ∧ to_read r' = to_read r) as Hpart.
  { intros reason. unfold report_partial. case_match; [apply run_ReportCorruption|eexists; done]. }
  unfold handle_physical.
  destruct (Z.eqb_spec t kFullType) as [->|]; [destruct (Hpart "partial record without end(1)"%string) as (r1 & E & Hr);
    step E; eexists _, _; split_and!; [done|done|done]|].
  destruct (Z.eqb_spec t kFirstType) as [->|]; [destruct (Hpart "partial record without end(2)"%string) as (r1 & E & Hr);
    step E; eexists _, _; split_and!; [done|done|done]|].
  destruct (Z.eqb_spec t kMiddleType) as [->|]; [case_match;
    [edestruct Hrep as (x & r1 & E & Hr); rewrite E; eexists _, _; split_and!; [done..|done]|eexists _, _; done]|].
  destruct (Z.eqb_spec t kLastType) as [->|]; [case_match;
    [edestruct Hrep as (x & r1 & E & Hr); rewrite E; eexists _, _; split_and!; [done..|done]|eexists _, _; done]|].
  destruct (Z.eqb_spec t kEof) as [->|]; [eexists _, _; split_and!; [done..|eauto]|].
  destruct (Z.eqb_spec t kBadRecord) as [->|]; [case_match;
    [edestruct Hrep as (x & r1 & E & Hr); rewrite E; eexists _, _; split_and!; [done..|done]|eexists _, _; done]|].
  edestruct Hrep as (x & r1 & E & Hr); rewrite E; eexists _, _; split_and!; [done..|done].
Qed.

Lemma ReadRecord_loop_total fuel s r : (to_read r < fuel)%nat →
  ∃ rec r', ReadRecord_loop pl o fuel s r = Ok (rec, r').
Proof.
  revert s r. induction fuel as [|fuel IH]; intros s r Hf; [lia|].
  cbn [ReadRecord_loop]. step (eq_refl : gets id r = _).
  destruct (ReadPhysicalRecord_total r (fragment s)) as (t & p & r1 & E & Hl). step E. cbn [fst snd].
  destruct (handle_total t p (u64 (end_of_buffer_offset_ r - size (buffer_ r))) s r1) as (x & r2 & E2 & Hr & Hx).
  step E2. destruct x as [s'|rec]; [|eexists _, _; done]. destruct Hl as [->|Hl].
  - by destruct (Hx eq_refl).
  - apply IH. lia.
Qed.

Lemma SkipToInitialBlock_total r :
  ∃ b r', SkipToInitialBlock o r = Ok (b, r') ∧ (to_read r' ≤ to_read r)%nat.
Proof.
  unfold SkipToInitialBlock. step (eq_refl : modify _ r = _).
  set (start := if kBlockSize - 6 <? _ then _ else _).
  destruct (0 <? start); [|eexists _, _; split; [done|]; unfold to_read; cbn; lia].
  step (eq_refl : gets id _ = _). unfold id. cbn [file_ set_file].
  destruct (Skip_unread start (file_ r)) as (f & E & Hf). rewrite E. step (eq_refl : modify _ _ = _).
  eexists _, _. split; [done|]. unfold to_read. cbn. rewrite Hf, length_drop. lia.
Qed.

Lemma ReadRecord_runs fuel r : (to_read r < fuel)%nat → ∃ rec r', ReadRecord pl o fuel r = Ok (rec, r').
Proof.
  intros Hf. unfold ReadRecord. step (eq_refl : gets id r = _). unfold id.
  assert (∃ b r1, (if last_record_offset_ r <? initial_offset_ o then SkipToInitialBlock o else mret true) r =
    Ok (b, r1) ∧ (to_read r1 ≤ to_read r)%nat) as (b & r1 & E & Hr).
  { case_match; [apply SkipToInitialBlock_total|eexists _, _; split; [done|lia]]. }
  step E. destruct b; cbn [negb]; [|eexists _, _; done]. apply ReadRecord_loop_total. lia.
Qed.
End any_file.

(** ** Properties *)

(** C13: The write-ahead log survives a crash.  Records are added to an empty file;
    when the process dies after the records [rs1] are written and while [rs2] are
    being written, the file holds all the bytes of [rs1] and some beginning of the
    bytes of [rs2].  Reading it back gives all of [rs1] followed by a beginning of
    [rs2], with no part of a record, and reports no corruption; if nothing was cut
    off it gives all of [rs2]. *)
Theorem log_survives_crash pl o (FW FR : Type) `{WritableFileLaws FW} `{SequentialFileLaws FR}
    (f0 : FW) rs1 rs2 :
  platform_ok pl → initial_offset_ o = 0 → contents f0 = [] →
  ∃ w0 w1 w2 tail,
    Writer_new pl f0 = Ok w0 ∧
    AddRecords pl rs1 w0 = Ok (StatusOK, w1) ∧ AddRecords pl rs2 w1 = Ok (StatusOK, w2) ∧
    contents (dest_ w2) = contents (dest_ w1) ++ tail ∧
    (size (contents (dest_ w2)) < 2 ^ 63 →
     ∀ (f : FR) k, unread f = contents (dest_ w1) ++ take k tail →
     ∃ n r',
       read_records pl o (length rs1 + S (length rs2)) (length (contents (dest_ w2)) + 13) (Reader_new f) =
         Ok (rs1 ++ take n rs2, r') ∧
       reports r' = [] ∧ ((length tail ≤ k)%nat → n = length rs2)).
Proof.
  intros Hpl Ho Hf0. destruct (Writer_new_at pl Hpl f0 Hf0) as (w0 & E0 & Hw0).
  destruct (run_AddRecords pl Hpl rs1 w0 0 [] Hw0) as (w1 & out1 & pos1 & E1 & Hl1 & Hw1).
  destruct (run_AddRecords pl Hpl rs2 w1 pos1 _ Hw1) as (w2 & tail & pos2 & E2 & Hl2 & Hw2).
  destruct Hw1 as [Hc1 _], Hw2 as [Hc2 _]. rewrite app_nil_l in *.
  exists w0, w1, w2, tail. split_and!; [done..|congruence|]. rewrite Hc1, Hc2.
  intros Hsz f k Hf. destruct (read_cut pl Hpl o Ho rs1 out1 pos1 rs2 tail pos2 f k Hl1 Hl2 Hsz Hf) as (n & Hr & Hn).
  destruct (reads_records pl o _ _ _ (length rs1 + S (length rs2)) Hr) as (r' & E & Hs).
  - rewrite length_app, length_take. lia.
  - by exists n, r'.
Qed.


(** A file one of whose writes fails: [Append] number [n] writes nothing. *)
Definition flaky_file : Type := bytes * nat.
Definition flaky_WritableFile : WritableFile flaky_file := {|
  file_Append d f :=
    match f.2 with
    | O => (IOError "write failed", (f.1, 1000%nat))
    | S n => (StatusOK, (f.1 ++ d, n))
    end;
  file_Flush f := (StatusOK, f);
|}.

(** Writes records to such a file and reads back what it holds: the status of the
    last call and the records. *)
Definition write_and_read (fail_at : nat) (rs : list bytes) : option (Status * list bytes) :=
  match Writer_new (ex_platform false) (([], fail_at) : flaky_file) with
  | Ok w =>
      match AddRecords (ex_platform false) (H := flaky_WritableFile) rs w with
      | Ok (s, w) =>
          match read_records (ex_platform false) (mkReaderOptions true true 0) 5 4000 (Reader_new (dest_ w).1) with
          | Ok (recs, _) => Some (s, recs)
          | Err _ => None
          end
      | Err _ => None
      end
  | Err _ => None
  end.

(** A write that fails can go unnoticed.  The writer does not look at the status
    of the write that fills the end of a block: when that write fails, [AddRecord]
    still returns ok for the next record, and the record is lost for the reader. *)
Theorem trailer_error_ignored :
  let rs := [replicate (Z.to_nat 32758) Byte.x61; str "lost"] in
  write_and_read 2 rs = Some (StatusOK, take 1 rs).
Proof. intros rs. by_evaluation. Qed.

(** A log of three records that is cut off in the last one. *)
Lemma log_survives_crash_witness :
  ∃ w0 w1 w2 tail,
    Writer_new (ex_platform true) ([] : bytes) = Ok w0 ∧
    AddRecords (ex_platform true) [str "one"; str ""] w0 = Ok (StatusOK, w1) ∧
    AddRecords (ex_platform true) [str "three"] w1 = Ok (StatusOK, w2) ∧
    dest_ w2 = dest_ w1 ++ tail ∧
    ∃ n r', read_records (ex_platform true) (mkReaderOptions true true 0) 4 (length (dest_ w2) + 13)
        (Reader_new (dest_ w1 ++ take 9 tail)) = Ok ([str "one"; str ""] ++ take n [str "three"], r') ∧
      reports r' = [].
Proof.
  destruct (log_survives_crash (ex_platform true) (mkReaderOptions true true 0) bytes bytes ([] : bytes)
    [str "one"; str ""] [str "three"] (ex_platform_ok true) eq_refl)
    as (w0 & w1 & w2 & tail & E0 & E1 & E2 & Hc & Hread); [reflexivity|].
  exists w0, w1, w2, tail. split; [exact E0|]. split; [exact E1|]. split; [exact E2|]. split; [exact Hc|].
  assert (size (dest_ w2) < 2 ^ 63) as Hsz.
  { assert (w0 = match Writer_new (ex_platform true) ([] : bytes) with Ok w => w | Err _ => w0 end) as Ew
      by (rewrite E0; reflexivity).
    vm_compute in Ew. subst w0. vm_compute in E1. injection E1 as <-. vm_compute in E2. injection E2 as <-.
    vm_compute. reflexivity. }
  destruct (Hread Hsz (dest_ w1 ++ take 9 tail) 9%nat eq_refl) as (n & r' & E & Hr & _).
  exists n, r'. split; [exact E|exact Hr].
Defined.

(** A file of nonsense. *)
Definition ex_garbage : Reader bytes := Reader_new (replicate 20 Byte.x01).

