(* ===== verification/SkipList.v ===== *)
(** * RocksDB: the skip list

    Models [src/src/rocksdb/db/skiplist.h] with the generator [Random] of
    [util/random.h].  The nodes are in a heap and are linked by their locations, on as
    many levels as a node is high; the comparator is a parameter, as in the source.
    Loads and stores of the links are those of one thread: the memory orders are not
    represented. *)

From S2P Require Import Prelude.

(** ** [Random] *)

Definition Random_new (s : Z) : Z := Z.land s 0x7fffffff.

(** The new seed, which is also the value returned. *)
Definition Random_Next (seed_ : Z) : Z :=
  let M := 2147483647%Z in
  let product := u64 (seed_ * 16807) in
  let seed_ := u32 (Z.shiftr product 31 + Z.land product M) in
  if Z.ltb M seed_ then u32 (seed_ - M) else seed_.

(** ** The list *)

(** [next_] has as many links as the node is high; [None] is a link that was not set
    yet, [Some None] a null pointer.  The head has no key. *)
Record SkipNode (Key : Type) := mkSkipNode { skip_key : option Key; next_ : list (option (option positive)) }.
Arguments mkSkipNode {Key}.
Arguments skip_key {Key}.
Arguments next_ {Key}.

Record SkipList (Key : Type) := mkSkipList {
  list_nodes : gmap positive (SkipNode Key);
  list_fresh : positive;
  kMaxHeight_ : nat;
  kBranching_ : Z;
  head_ : positive;
  max_height_ : nat;
  prev_ : list positive;
  prev_height_ : nat;
  rnd_ : Z;
}.
Arguments mkSkipList {Key}.
Arguments list_nodes {Key}.
Arguments list_fresh {Key}.
Arguments kMaxHeight_ {Key}.
Arguments kBranching_ {Key}.
Arguments head_ {Key}.
Arguments max_height_ {Key}.
Arguments prev_ {Key}.
Arguments prev_height_ {Key}.
Arguments rnd_ {Key}.

Section SkipList.
Context {Key : Type} (compare_ : Key → Key → outcome Z).
Abbreviation cmd := (prog (SkipList Key)).

Definition load_skip_node (l : positive) : cmd (SkipNode Key) := λ s,
  match list_nodes s !! l with Some n => Ok (n, s) | None => Err NullDeref end.
Definition set_list_nodes (f : gmap positive (SkipNode Key) → gmap positive (SkipNode Key)) : cmd unit :=
  modify (λ s, mkSkipList (f (list_nodes s)) (list_fresh s) (kMaxHeight_ s) (kBranching_ s) (head_ s)
                 (max_height_ s) (prev_ s) (prev_height_ s) (rnd_ s)).
Definition set_prev_height (h : nat) : cmd unit :=
  modify (λ s, mkSkipList (list_nodes s) (list_fresh s) (kMaxHeight_ s) (kBranching_ s) (head_ s)
                 (max_height_ s) (prev_ s) h (rnd_ s)).
Definition set_max_height (h : nat) : cmd unit :=
  modify (λ s, mkSkipList (list_nodes s) (list_fresh s) (kMaxHeight_ s) (kBranching_ s) (head_ s)
                 h (prev_ s) (prev_height_ s) (rnd_ s)).

(** [prev_[i]], read and written. *)
Definition get_prev (i : nat) : cmd positive := λ s,
  match prev_ s !! i with Some x => Ok (x, s) | None => Err OutOfBounds end.
Definition set_prev (i : nat) (x : positive) : cmd unit := λ s,
  if decide (i < length (prev_ s)) then
    Ok (tt, mkSkipList (list_nodes s) (list_fresh s) (kMaxHeight_ s) (kBranching_ s) (head_ s)
              (max_height_ s) (<[i := x]> (prev_ s)) (prev_height_ s) (rnd_ s))
  else Err OutOfBounds.

(** ** Nodes *)

Definition NewNode (k : option Key) (height : nat) : cmd positive := λ s,
  Ok (list_fresh s, mkSkipList (<[list_fresh s := mkSkipNode k (replicate height None)]> (list_nodes s))
    (Pos.succ (list_fresh s)) (kMaxHeight_ s) (kBranching_ s) (head_ s) (max_height_ s) (prev_ s) (prev_height_ s) (rnd_ s)).

Definition Node_Next (l : positive) (n : nat) : cmd (option positive) :=
  nd ← load_skip_node l;
  x ← lift (of_option OutOfBounds (next_ nd !! n));
  lift (of_option OutOfBounds x).
Definition SetNext (l : positive) (n : nat) (x : option positive) : cmd unit :=
  nd ← load_skip_node l;
  if decide (n < length (next_ nd)) then
    set_list_nodes <[l := mkSkipNode (skip_key nd) (<[n := Some x]> (next_ nd))]>
  else fail OutOfBounds.

(** [l->key], compared with: the key of the head is a null pointer. *)
Definition node_key (l : positive) : cmd Key :=
  nd ← load_skip_node l; lift (of_option NullDeref (skip_key nd)).

Definition GetMaxHeight : cmd nat := gets max_height_.
Definition Equal (a b : Key) : outcome bool := r ← compare_ a b; mret (Z.eqb r 0).

Definition KeyIsAfterNode (k : Key) (n : option positive) : cmd bool :=
  match n with
  | None => mret false
  | Some n => k' ← node_key n; r ← lift (compare_ k' k); mret (Z.ltb r 0)
  end.

(** ** Searching *)

(** Every iteration moves on by one node or down by one level. *)
Definition search_fuel : cmd nat := gets (λ s, size (list_nodes s) + max_height_ s).

(** [assert((x == head_) || (next == nullptr) || KeyIsAfterNode(next->key, x))] *)
Definition assert_sorted (x : positive) (next : option positive) : cmd unit :=
  head ← gets head_;
  if decide (x = head) then mret tt
  else match next with
       | None => mret tt
       | Some y => k ← node_key y; b ← KeyIsAfterNode k (Some x); assert b
       end.

(** The loop of [FindGreaterOrEqual]; [prev] tells whether the array is given. *)
Fixpoint find_loop (fuel : nat) (k : Key) (prev : bool) (x : positive) (level : nat)
    : cmd (option positive) :=
  match fuel with
  | O => fail OutOfFuel
  | S fuel =>
      next ← Node_Next x level;
      assert_sorted x next;;
      after ← KeyIsAfterNode k next;
      match next, after with
      | Some y, true => find_loop fuel k prev y level
      | _, _ =>
          (if prev then set_prev level x else mret tt);;
          match level with
          | O => mret next
          | S level => find_loop fuel k prev x level
          end
      end
  end.

(** [prev[i] = x] for [i] from [1] on. *)
Fixpoint adjust_prev (x : positive) (i n : nat) : cmd unit :=
  match n with
  | O => mret tt
  | S n => set_prev i x;; adjust_prev x (S i) n
  end.

(** The place right after the node inserted last is tried first. *)
Definition try_hint (k : Key) : cmd (option (option positive)) :=
  p0 ← get_prev 0;
  n0 ← Node_Next p0 0;
  after ← KeyIsAfterNode k n0;
  if negb after then
    x ← get_prev 0;
    next ← Node_Next x 0;
    head ← gets head_;
    ok ← (if decide (x = head) then mret true else KeyIsAfterNode k (Some x));
    if ok : bool then
      h ← gets prev_height_;
      adjust_prev x 1 (h - 1);;
      mret (Some next)
    else mret None
  else mret None.

Definition FindGreaterOrEqual (k : Key) (prev : bool) : cmd (option positive) :=
  hint ← (if prev then try_hint k else mret None);
  match hint with
  | Some next => mret next
  | None =>
      x ← gets head_;
      h ← GetMaxHeight;
      fuel ← search_fuel;
      find_loop fuel k prev x (h - 1)
  end.

Fixpoint less_loop (fuel : nat) (k : Key) (x : positive) (level : nat) : cmd positive :=
  match fuel with
  | O => fail OutOfFuel
  | S fuel =>
      head ← gets head_;
      (if decide (x = head) then mret tt
       else kx ← node_key x; r ← lift (compare_ kx k); assert (Z.ltb r 0));;
      next ← Node_Next x level;
      stop ← match next with
             | None => mret true
             | Some y => ky ← node_key y; r ← lift (compare_ ky k); mret (Z.leb 0 r)
             end;
      match next, stop with
      | Some y, false => less_loop fuel k y level
      | _, _ => match level with O => mret x | S level => less_loop fuel k x level end
      end
  end.
Definition FindLessThan (k : Key) : cmd positive :=
  x ← gets head_; h ← GetMaxHeight; fuel ← search_fuel; less_loop fuel k x (h - 1).

Fixpoint last_loop (fuel : nat) (x : positive) (level : nat) : cmd positive :=
  match fuel with
  | O => fail OutOfFuel
  | S fuel =>
      next ← Node_Next x level;
      match next with
      | Some y => last_loop fuel y level
      | None => match level with O => mret x | S level => last_loop fuel x level end
      end
  end.
Definition FindLast : cmd positive :=
  x ← gets head_; h ← GetMaxHeight; fuel ← search_fuel; last_loop fuel x (h - 1).

Definition Contains (k : Key) : cmd bool :=
  x ← FindGreaterOrEqual k false;
  match x with
  | Some l => k' ← node_key l; lift (Equal k k')
  | None => mret false
  end.

(** ** Inserting *)

Fixpoint height_loop (n : nat) (height : nat) : cmd nat :=
  match n with
  | O => mret height
  | S n =>
      branching ← gets kBranching_;
      seed ← gets rnd_;
      let seed := Random_Next seed in
      modify (λ s, mkSkipList (list_nodes s) (list_fresh s) (kMaxHeight_ s) (kBranching_ s) (head_ s)
                     (max_height_ s) (prev_ s) (prev_height_ s) seed);;
      if Z.eqb (seed mod branching) 0 then height_loop n (S height) else mret height
  end.
Definition RandomHeight : cmd nat :=
  max ← gets kMaxHeight_;
  height ← height_loop (max - 1) 1;
  assert (bool_decide (0 < height));;
  assert (bool_decide (height ≤ max));;
  mret height.

(** [x->SetNext(i, prev_[i]->Next(i)); prev_[i]->SetNext(i, x)] for [n] levels from [i]. *)
Fixpoint link_loop (x : positive) (i n : nat) : cmd unit :=
  match n with
  | O => mret tt
  | S n =>
      p ← get_prev i;
      y ← Node_Next p i;
      SetNext x i y;;
      p ← get_prev i;
      SetNext p i (Some x);;
      link_loop x (S i) n
  end.

Definition SkipList_Insert (k : Key) : cmd unit :=
  x ← FindGreaterOrEqual k true;
  (match x with
   | None => mret tt
   | Some l => k' ← node_key l; b ← lift (Equal k k'); assert (negb b)
   end);;
  height ← RandomHeight;
  h ← GetMaxHeight;
  (if decide (h < height) then
     head ← gets head_;
     adjust_prev head h (height - h);;
     set_max_height height
   else mret tt);;
  x ← NewNode (Some k) height;
  link_loop x 0 height;;
  set_prev 0 x;;
  set_prev_height height.

(** ** Iterators *)

(** The node an iterator is at. *)
Abbreviation Iterator := (option positive).

Definition Iter_Valid (it : Iterator) : bool := bool_decide (it ≠ None).
Definition Iter_key (it : Iterator) : cmd Key :=
  assert (Iter_Valid it);; l ← lift (of_option NullDeref it); node_key l.
Definition Iter_Next (it : Iterator) : cmd Iterator :=
  assert (Iter_Valid it);; l ← lift (of_option NullDeref it); Node_Next l 0.
Definition Iter_Prev (it : Iterator) : cmd Iterator :=
  assert (Iter_Valid it);;
  l ← lift (of_option NullDeref it);
  k ← node_key l;
  x ← FindLessThan k;
  head ← gets head_;
  mret (if decide (x = head) then None else Some x).
Definition Iter_Seek (target : Key) : cmd Iterator := FindGreaterOrEqual target false.
Definition Iter_SeekToFirst : cmd Iterator := head ← gets head_; Node_Next head 0.
Definition Iter_SeekToLast : cmd Iterator :=
  x ← FindLast; head ← gets head_; mret (if decide (x = head) then None else Some x).
End SkipList.

(** ** Construction *)

(** The head is the first node of the heap; the head's links and [prev_] are set for
    every level. *)
Definition SkipList_new {Key : Type} (max_height : nat) (branching_factor : Z) : outcome (SkipList Key) :=
  if negb (bool_decide (0 < max_height)) then Err AssertFailed
  else if negb (Z.ltb 0 branching_factor) then Err AssertFailed
  else Ok (mkSkipList {[ 1%positive := mkSkipNode None (replicate max_height (Some None)) ]} 2%positive
             max_height branching_factor 1%positive 1 (replicate max_height 1%positive) 1
             (Random_new 0xdeadbeef)).
