(* ===== verification/SkipListLaws.v ===== *)
(** * RocksDB: the shape of a skip list

    [shape s L] says that the nodes [L], in this order, are linked on every level that
    they are high enough for, and that their keys increase.  Searching moves along these
    lists; [hint] is what the array [prev_] remembers of the last insertion.  The second
    part is insertion: the search with the hint, the linking of a new node on all its
    levels, and what [Insert] does to the shape. *)

From S2P Require Import Prelude SkipList.
From stdpp Require Import sorting.

(** What is asked of a comparator: on well-formed keys it returns the sign of an order. *)
Class Comparator {Key} (compare_ : Key → Key → outcome Z) := {
  wf_key : Key → Prop;
  key_order : Key → Key → Z;
  compare_runs a b : wf_key a → wf_key b → compare_ a b = Ok (key_order a b);
  compare_sym a b : Z.sgn (key_order a b) = (- Z.sgn (key_order b a))%Z;
  compare_trans a b c : (key_order a b < 0)%Z → (key_order b c < 0)%Z → (key_order a c < 0)%Z;
  compare_equal a b c : key_order a b = 0%Z → (key_order b c < 0)%Z → (key_order a c < 0)%Z;
}.
Arguments wf_key {Key} compare_ {_} k : rename.
Arguments key_order {Key} compare_ {_} a b : rename.

(** ** Lists *)

Lemma StronglySorted_lookup {A} (R : A → A → Prop) (l : list A) :
  (∀ i j x y, i < j → l !! i = Some x → l !! j = Some y → R x y) → StronglySorted R l.
Proof.
  induction l as [|a l IH]; intros Hl; constructor.
  - apply IH. intros i j x y Hij Hx Hy. by apply (Hl (S i) (S j)); [lia|..].
  - apply Forall_forall. intros x (i & Hi)%list_elem_of_lookup. by apply (Hl 0 (S i)); [lia|..].
Qed.

(** The last element of [x :: l]. *)
Definition last_of {A} (x : A) (l : list A) : A := default x (last l).

Lemma last_of_app {A} (x : A) l1 l2 : last_of x (l1 ++ l2) = last_of (last_of x l1) l2.
Proof.
  unfold last_of. destruct l2 as [|y l2] using rev_ind; [by rewrite app_nil_r|].
  by rewrite app_assoc, !last_snoc.
Qed.

Lemma last_of_cons {A} (x y : A) l : last_of x (y :: l) = last_of y l.
Proof. exact (last_of_app x [y] l). Qed.

Lemma last_of_snoc {A} (x y : A) l : last_of x (l ++ [y]) = y.
Proof. by rewrite last_of_app. Qed.

Lemma last_of_in {A} (x : A) l : last_of x l = x ∨ last_of x l ∈ l.
Proof.
  destruct l as [|y l _] using rev_ind; [by left|]. rewrite last_of_snoc. right. apply elem_of_app. right. by left.
Qed.

(** The last element stays the last among those that satisfy [P] if it does itself. *)
Lemma last_of_filter {A} (P : A → Prop) `{∀ x, Decision (P x)} (x : A) l :
  P (last_of x l) → last_of x (filter P l) = last_of x l.
Proof.
  destruct l as [|y l _] using rev_ind; [done|]. rewrite last_of_snoc. intros Hy.
  rewrite filter_app, filter_cons_True by done. cbn. apply last_of_snoc.
Qed.

Lemma filter_split {A} (P : A → Prop) `{∀ x, Decision (P x)} (l : list A) y ys :
  filter P l = y :: ys → ∃ l1 l2, l = l1 ++ y :: l2 ∧ filter P l1 = [] ∧ P y ∧ filter P l2 = ys.
Proof.
  induction l as [|x l IH]; [done|]. rewrite filter_cons. case_decide as Hx.
  - intros [= <- <-]. exists [], l. by split_and!.
  - intros E. destruct (IH E) as (l1 & l2 & -> & E1 & Hy & E2). exists (x :: l1), l2.
    rewrite filter_cons_False by done. by split_and!.
Qed.

Section shape.
Context {Key : Type} (compare_ : Key → Key → outcome Z) `{!Comparator compare_}.
Implicit Types (s : SkipList Key) (L A B : list positive) (k : Key).
Abbreviation wf_key := (wf_key compare_).
Abbreviation key_order := (key_order compare_).

Definition height s (l : positive) : nat :=
  match list_nodes s !! l with Some n => length (next_ n) | None => 0 end.
Definition link s (l : positive) (i : nat) : option (option positive) :=
  n ← list_nodes s !! l; x ← next_ n !! i; x.
Definition key_at s (l : positive) : option Key := n ← list_nodes s !! l; skip_key n.

Definition at_level s (i : nat) L : list positive := filter (λ l, i < height s l) L.

(** The links of level [i] lead from [x] through [ls] to the end. *)
Fixpoint chain s (i : nat) (x : positive) (ls : list positive) : Prop :=
  match ls with
  | [] => link s x i = Some None
  | y :: ls => link s x i = Some (Some y) ∧ chain s i y ls
  end.

(** The last node of [A], or the head, that is higher than [i]. *)
Definition pred_at s (i : nat) A : positive := last_of (head_ s) (at_level s i A).

(** The key of [l] is before [k]. *)
Definition is_before s k (l : positive) : Prop := ∃ k', key_at s l = Some k' ∧ (key_order k' k < 0)%Z.

Definition ordered s (a b : positive) : Prop := ∃ k, key_at s b = Some k ∧ is_before s k a.

Record shape s L : Prop := {
  sh_nodup : NoDup (head_ s :: L);
  sh_head : height s (head_ s) = kMaxHeight_ s;
  sh_height l : l ∈ L → 1 ≤ height s l ≤ max_height_ s;
  sh_key l : l ∈ L → ∃ k, key_at s l = Some k ∧ wf_key k;
  sh_sorted : StronglySorted (ordered s) L;
  sh_chain i : i < kMaxHeight_ s → chain s i (head_ s) (at_level s i L);
  sh_max : 1 ≤ max_height_ s ≤ kMaxHeight_ s;
  sh_fresh l : is_Some (list_nodes s !! l) → (l < list_fresh s)%positive;
  sh_prev : length (prev_ s) = kMaxHeight_ s;
}.

(** What [prev_] holds: the nodes before the place after [A], from [prev_height_] on and
    for the lowest level, and the lowest one is high enough to stand for the others. *)
Definition hint s L : Prop :=
  ∃ A B, L = A ++ B ∧ prev_ s !! 0 = Some (last_of (head_ s) A) ∧
    1 ≤ prev_height_ s ≤ max_height_ s ∧ prev_height_ s ≤ height s (last_of (head_ s) A) ∧
    ∀ i, prev_height_ s ≤ i < max_height_ s → prev_ s !! i = Some (pred_at s i A).

(** ** Running the accessors *)

Lemma run_Next l i s x : link s l i = Some x → Node_Next l i s = Ok (x, s).
Proof.
  unfold link, Node_Next, load_skip_node, mbind, prog_bind, option_bind. destruct (list_nodes s !! l) as [n|]; [|done].
  destruct (next_ n !! i) as [o|] eqn:E; [|done]. intros ->. done.
Qed.

Lemma run_node_key l s k : key_at s l = Some k → node_key l s = Ok (k, s).
Proof.
  unfold key_at, node_key, load_skip_node, mbind, prog_bind, option_bind. destruct (list_nodes s !! l) as [n|]; [|done].
  intros ->. done.
Qed.

Lemma run_KeyIsAfterNode k l s k' :
  key_at s l = Some k' → wf_key k' → wf_key k →
  KeyIsAfterNode compare_ k (Some l) s = Ok (Z.ltb (key_order k' k) 0, s).
Proof.
  intros E Hk' Hk. unfold KeyIsAfterNode. step (run_node_key _ _ _ E).
  by rewrite (bind_Ok _ _ _ _ _ (lift_Ok _ s _ (compare_runs _ _ Hk' Hk))).
Qed.

(** The state with another [prev_]. *)
Definition with_prev (p : list positive) s : SkipList Key :=
  mkSkipList (list_nodes s) (list_fresh s) (kMaxHeight_ s) (kBranching_ s) (head_ s) (max_height_ s) p
    (prev_height_ s) (rnd_ s).

Lemma with_prev_id s : with_prev (prev_ s) s = s.
Proof. by destruct s. Qed.

Lemma run_set_prev i x s :
  i < length (prev_ s) → set_prev i x s = Ok (tt, with_prev (<[i := x]> (prev_ s)) s).
Proof. intros Hi. unfold set_prev. by rewrite decide_True. Qed.

Lemma chain_with_prev p s i x ls : chain s i x ls → chain (with_prev p s) i x ls.
Proof. revert x. induction ls as [|y ls IH]; intros x; cbn; [done|]. intros [? ?]. eauto. Qed.

Lemma shape_with_prev p s L : length p = length (prev_ s) → shape s L → shape (with_prev p s) L.
Proof.
  intros Hp [Hnd Hh Hht Hk Hs Hc Hm Hf Hl]. constructor; try done; [|cbn; congruence].
  intros i Hi. by apply chain_with_prev, Hc.
Qed.

(** ** Moving along a level *)

Lemma chain_app s i x A B : chain s i x (A ++ B) → chain s i (last_of x A) B.
Proof.
  revert x. induction A as [|y A IH]; intros x; cbn; [done|]. intros [_ Hc]. rewrite last_of_cons. eauto.
Qed.

Lemma at_level_app s i A B : at_level s i (A ++ B) = at_level s i A ++ at_level s i B.
Proof. apply filter_app. Qed.

Lemma at_level_0 s L : (∀ l, l ∈ L → 1 ≤ height s l) → at_level s 0 L = L.
Proof.
  induction L as [|l L IH]; intros Hh; [done|]. unfold at_level. rewrite filter_cons_True.
  - f_equal. apply IH. intros. apply Hh. by right.
  - specialize (Hh l). pose proof (Hh ltac:(by left)). lia.
Qed.

(** From a node that is high enough the rest of the level follows. *)
Lemma chain_from s L A B i :
  shape s L → L = A ++ B → i < kMaxHeight_ s → i < height s (last_of (head_ s) A) →
  chain s i (last_of (head_ s) A) (at_level s i B).
Proof.
  intros Hsh -> Hi Hh. pose proof (sh_chain _ _ Hsh i Hi) as Hc. rewrite at_level_app in Hc.
  apply chain_app in Hc. unfold at_level in Hc at 1. by rewrite last_of_filter in Hc.
Qed.

Lemma last_in_shape s L A B :
  shape s L → L = A ++ B → last_of (head_ s) A ≠ head_ s → last_of (head_ s) A ∈ A.
Proof. intros _ _ Hne. by destruct (last_of_in (head_ s) A). Qed.

Lemma shape_ordered s L A B a b :
  shape s L → L = A ++ B → a ∈ A → b ∈ B → ordered s a b.
Proof.
  intros Hsh -> Ha Hb. pose proof (sh_sorted _ _ Hsh) as Hs. clear Hsh. induction A as [|x A IH]; [by apply not_elem_of_nil in Ha|].
  cbn in Hs. apply StronglySorted_inv in Hs as [Hs Hf]. apply elem_of_cons in Ha as [->|Ha]; [|by apply IH].
  eapply Forall_forall in Hf; [done|]. apply elem_of_app. by right.
Qed.

Lemma key_wf s L l k : shape s L → l ∈ L → key_at s l = Some k → wf_key k.
Proof. intros Hsh Hl E. destruct (sh_key _ _ Hsh l Hl) as (k' & E' & Hw). congruence. Qed.

Lemma run_assert_sorted s L A B x next :
  shape s L → L = A ++ B → x = last_of (head_ s) A → (∀ y, next = Some y → y ∈ B) →
  assert_sorted compare_ x next s = Ok (tt, s).
Proof.
  intros Hsh HL -> Hn. unfold assert_sorted. rewrite (bind_Ok _ _ _ (head_ s) s) by done.
  case_decide as Hx; [done|]. destruct next as [y|]; [|done].
  destruct (shape_ordered s L A B _ y Hsh HL (last_in_shape _ _ _ _ Hsh HL Hx) (Hn y eq_refl)) as (ky & Hy & kx & Hkx & Hlt).
  pose proof (key_wf s L y ky Hsh ltac:(rewrite HL; apply elem_of_app; right; by apply Hn) Hy) as Hw1.
  pose proof (key_wf s L _ kx Hsh ltac:(rewrite HL; apply elem_of_app; left; by eapply last_in_shape) Hkx) as Hw2.
  step (run_node_key _ _ _ Hy). step (run_KeyIsAfterNode _ _ _ _ Hkx Hw2 Hw1). rewrite (proj2 (Z.ltb_lt _ _) Hlt). done.
Qed.

(** ** The place of a key *)

(** [A] are the nodes before [k], [B] the others. *)
Record parted s k A B : Prop := {
  pt_wf : wf_key k;
  pt_before l : l ∈ A → is_before s k l;
  pt_after l : l ∈ B → ¬ is_before s k l;
}.

Lemma is_before_dec s k l : {is_before s k l} + {¬ is_before s k l}.
Proof.
  unfold is_before. destruct (key_at s l) as [k'|]; [|right; by intros (? & [=] & _)].
  destruct (decide (key_order k' k < 0)%Z); [left; eauto|right; by intros (? & [= <-] & ?)].
Defined.

Lemma is_before_trans s k a b : ordered s a b → is_before s k b → is_before s k a.
Proof.
  intros (kb & Hb & ka & Ha & Hlt) (kb' & Hb' & Hlt'). rewrite Hb in Hb'. injection Hb' as <-.
  exists ka. split; [done|]. by eapply compare_trans.
Qed.

(** Every key has its place in a sorted list. *)
Lemma parted_exists s L k : wf_key k → StronglySorted (ordered s) L → ∃ A B, L = A ++ B ∧ parted s k A B.
Proof.
  intros Hw. induction 1 as [|x L _ IH Hx]; [exists [], []; split; [done|]; constructor; try done; by intros ? ?%not_elem_of_nil|].
  destruct (is_before_dec s k x) as [Hb|Hb].
  - destruct IH as (A & B & -> & [_ H1' H2']). exists (x :: A), B. split; [done|]. constructor; [done| |done].
    by intros l [->|Hl]%elem_of_cons; [|apply H1'].
  - exists [], (x :: L). split; [done|]. constructor; [done|by intros ? ?%not_elem_of_nil|].
    intros l [->|Hl]%elem_of_cons; [done|]. intros Hbl. apply Hb. eapply is_before_trans; [|done].
    by eapply Forall_forall in Hx.
Qed.

(** Whether the next node is to be passed. *)
Definition is_in A (next : option positive) : bool :=
  match next with Some y => bool_decide (y ∈ A) | None => false end.

Lemma parts_disjoint s L A B y : shape s L → L = A ++ B → y ∈ A → y ∈ B → False.
Proof.
  intros Hsh HL HA HB. pose proof (sh_nodup _ _ Hsh) as Hnd. apply NoDup_cons in Hnd as [_ Hnd].
  rewrite HL in Hnd. apply NoDup_app in Hnd as (_ & Hd & _). by eapply Hd.
Qed.

Lemma run_after_part s L A B k next :
  shape s L → L = A ++ B → parted s k A B → (∀ y, next = Some y → y ∈ L) →
  KeyIsAfterNode compare_ k next s = Ok (is_in A next, s).
Proof.
  intros Hsh HL [Hw Hb Ha] Hn. destruct next as [y|]; [|done]. cbn [is_in].
  destruct (sh_key _ _ Hsh y (Hn y eq_refl)) as (ky & Hy & Hwy). rewrite (run_KeyIsAfterNode _ _ _ _ Hy Hwy Hw). do 2 f_equal.
  specialize (Hn y eq_refl). rewrite HL in Hn. apply elem_of_app in Hn as [Hin|Hin].
  - rewrite bool_decide_true by done. destruct (Hb y Hin) as (k' & Hk' & Hlt). rewrite Hy in Hk'. injection Hk' as <-.
    by apply Z.ltb_lt.
  - rewrite bool_decide_false by (intros ?; by eapply parts_disjoint).
    apply Z.ltb_ge. destruct (decide (0 ≤ key_order ky k)%Z); [done|]. destruct (Ha y Hin). exists ky. split; [done|lia].
Qed.

(** ** [FindGreaterOrEqual] *)

Lemma pred_at_here s A1 A2 i :
  i < height s (last_of (head_ s) A1) → at_level s i A2 = [] → pred_at s i (A1 ++ A2) = last_of (head_ s) A1.
Proof.
  intros Hh E. unfold pred_at. rewrite at_level_app, E, app_nil_r. by apply last_of_filter.
Qed.

(** What the loop leaves in [prev_], from the level it starts at down. *)
Record found_prev s A (level : nat) (prev : bool) (p : list positive) : Prop := {
  fp_length : length p = length (prev_ s);
  fp_set : prev = true → ∀ j, j ≤ level → p !! j = Some (pred_at s j A);
  fp_keep : prev = true → ∀ j, level < j → p !! j = prev_ s !! j;
  fp_none : prev = false → p = prev_ s;
}.

(** [prev[level] = x], if [prev] is given. *)
Definition noted s A (level : nat) (prev : bool) : list positive :=
  if prev then <[level := pred_at s level A]> (prev_ s) else prev_ s.

Lemma found_prev_0 s A prev : 0 < length (prev_ s) → found_prev s A 0 prev (noted s A 0 prev).
Proof.
  intros Hl. unfold noted. constructor.
  - destruct prev; by rewrite ?length_insert.
  - intros -> j Hj. assert (j = 0) as -> by lia. by rewrite list_lookup_insert_eq.
  - intros -> j Hj. by rewrite list_lookup_insert_ne by lia.
  - by intros ->.
Qed.

Lemma found_prev_S s A level prev p :
  S level < length (prev_ s) → found_prev (with_prev (noted s A (S level) prev) s) A level prev p →
  found_prev s A (S level) prev p.
Proof.
  intros Hl [F1 F2 F3 F4]. cbn [prev_ with_prev] in *. unfold noted in *. constructor.
  - rewrite F1. destruct prev; by rewrite ?length_insert.
  - intros -> j Hj. destruct (decide (j = S level)) as [->|]; [|apply F2; [done|lia]].
    rewrite F3 by (done || lia). by rewrite list_lookup_insert_eq.
  - intros -> j Hj. rewrite F3 by (done || lia). by rewrite list_lookup_insert_ne by lia.
  - intros ->. by apply F4.
Qed.

(** The next node on a level: the first of [A2], or else the first of [B]. *)
Lemma level_next s L A1 A2 B level :
  shape s L → L = A1 ++ (A2 ++ B) → level < kMaxHeight_ s → level < height s (last_of (head_ s) A1) →
  link s (last_of (head_ s) A1) level = Some (head (at_level s level A2 ++ at_level s level B)).
Proof.
  intros Hsh HL Hk Hh. pose proof (chain_from _ _ _ _ _ Hsh HL Hk Hh) as Hc. rewrite at_level_app in Hc.
  destruct (at_level s level A2 ++ at_level s level B); [done|]. by destruct Hc.
Qed.

Lemma head_in s i B y : head (at_level s i B) = Some y → y ∈ B.
Proof.
  intros E. apply (list_elem_of_filter (λ l, i < height s l)). change (y ∈ at_level s i B).
  destruct (at_level s i B); [done|]. injection E as ->. by left.
Qed.

(** One iteration of the loop. *)
Lemma find_loop_step s L A1 A2 B k prev fuel level :
  shape s L → L = (A1 ++ A2) ++ B → parted s k (A1 ++ A2) B → level < kMaxHeight_ s →
  level < height s (last_of (head_ s) A1) →
  find_loop compare_ (S fuel) k prev (last_of (head_ s) A1) level s =
    match at_level s level A2 with
    | y :: _ => find_loop compare_ fuel k prev y level s
    | [] => match level with
            | 0 => Ok (head (at_level s 0 B), with_prev (noted s (A1 ++ A2) 0 prev) s)
            | S level' => find_loop compare_ fuel k prev (last_of (head_ s) A1) level'
                            (with_prev (noted s (A1 ++ A2) level prev) s)
            end
    end.
Proof.
  intros Hsh HL Hpt Hk Hh. assert (L = A1 ++ (A2 ++ B)) as HL1 by (by rewrite HL, app_assoc).
  pose proof (level_next _ _ _ _ _ _ Hsh HL1 Hk Hh) as Hl. set (x := last_of (head_ s) A1) in *.
  assert (∀ y, head (at_level s level A2 ++ at_level s level B) = Some y → y ∈ A2 ++ B) as Hn.
  { intros y. rewrite <-at_level_app. apply head_in. }
  cbn [find_loop]. step (run_Next _ _ _ _ Hl). step (run_assert_sorted s L A1 (A2 ++ B) x _ Hsh HL1 eq_refl Hn).
  step (run_after_part s L (A1 ++ A2) B k _ Hsh HL Hpt ltac:(intros; rewrite HL1; apply elem_of_app; eauto)).
  destruct (at_level s level A2) as [|y ys] eqn:E2; cbn [app head].
  - assert (is_in (A1 ++ A2) (head (at_level s level B)) = false) as ->.
    { destruct (head (at_level s level B)) as [y|] eqn:Ey; [|done]. apply bool_decide_eq_false. intros Hy.
      eapply parts_disjoint; [done|exact HL|done|]. by eapply head_in. }
    assert ((if prev then set_prev level x else mret tt) s = Ok (tt, with_prev (noted s (A1 ++ A2) level prev) s)) as Hset.
    { unfold noted. destruct prev; [|by rewrite with_prev_id]. rewrite run_set_prev by (by rewrite (sh_prev _ _ Hsh)).
      by rewrite (pred_at_here _ _ _ _ Hh E2). }
    destruct (head (at_level s level B)) eqn:EB; step Hset; destruct level; try done; by rewrite EB.
  - cbn [is_in]. rewrite bool_decide_true; [done|]. apply elem_of_app. right.
    apply (head_in s level). by rewrite E2.
Qed.

Lemma find_loop_spec L A B k prev fuel : ∀ s A1 A2 level,
  shape s L → L = A ++ B → A = A1 ++ A2 → parted s k A B →
  level < height s (last_of (head_ s) A1) → level < kMaxHeight_ s → length A2 + level < fuel →
  ∃ p, find_loop compare_ fuel k prev (last_of (head_ s) A1) level s = Ok (head B, with_prev p s) ∧
    found_prev s A level prev p.
Proof.
  induction fuel as [|fuel IH]; intros s A1 A2 level Hsh HL HA Hpt Hh Hk Hf; [lia|].
  rewrite (find_loop_step s L A1 A2 B) by (done || by rewrite <-HA). rewrite <-HA.
  pose proof (sh_prev _ _ Hsh) as Hlen. destruct (at_level s level A2) as [|y ys] eqn:E2.
  - destruct level as [|level].
    + eexists. split; [|apply found_prev_0; lia]. do 3 f_equal. apply at_level_0. intros l Hl.
      apply (sh_height _ _ Hsh). rewrite HL. apply elem_of_app. by right.
    + destruct (IH (with_prev (noted s A (S level) prev) s) A1 A2 level) as (p & Hrun & Hp); try done.
      * apply shape_with_prev; [|done]. unfold noted. destruct prev; by rewrite ?length_insert.
      * by destruct Hpt.
      * change (level < height s (last_of (head_ s) A1)). lia.
      * cbn. lia.
      * lia.
      * exists p. split; [exact Hrun|]. apply found_prev_S; [lia|done].
  - destruct (filter_split _ _ _ _ E2) as (C & C' & HC & _ & Hy & _).
    destruct (IH s (A1 ++ C ++ [y]) C' level) as (p & Hrun & Hp); try done.
    + by rewrite HA, HC, <-!app_assoc.
    + by rewrite app_assoc, last_of_snoc.
    + rewrite HC, length_app in Hf. cbn in Hf. lia.
    + exists p. split; [|done]. rewrite app_assoc, last_of_snoc in Hrun. exact Hrun.
Qed.

Lemma in_nodes s l : is_Some (key_at s l) → is_Some (list_nodes s !! l).
Proof. unfold key_at. destruct (list_nodes s !! l); [eauto|by intros [? ?]]. Qed.

Lemma length_nodes s L : shape s L → length L ≤ size (list_nodes s).
Proof.
  intros Hsh. pose proof (sh_nodup _ _ Hsh) as [_ Hnd]%NoDup_cons.
  rewrite <-(size_list_to_set (C := gset positive)), <-size_dom by done. apply subseteq_size.
  intros l Hl%elem_of_list_to_set. destruct (sh_key _ _ Hsh l Hl) as (k & E & _). apply elem_of_dom, in_nodes. eauto.
Qed.

(** The search from the head. *)
Lemma run_search s L A B k prev :
  shape s L → L = A ++ B → parted s k A B →
  ∃ p, (x ← gets head_; h ← GetMaxHeight; fuel ← search_fuel; find_loop compare_ fuel k prev x (h - 1)) s =
         Ok (head B, with_prev p s) ∧ found_prev s A (max_height_ s - 1) prev p.
Proof.
  intros Hsh HL Hpt. pose proof (sh_max _ _ Hsh) as Hm. pose proof (length_nodes _ _ Hsh) as Hn.
  rewrite HL, length_app in Hn.
  destruct (find_loop_spec L A B k prev (size (list_nodes s) + max_height_ s) s [] A (max_height_ s - 1)) as (p & Hrun & Hp);
    try done; [cbn; rewrite (sh_head _ _ Hsh); lia|lia|lia|].
  exists p. by split.
Qed.

(** Without [prev]: the first node that is not before the key. *)
Lemma run_FindGreaterOrEqual s L A B k :
  shape s L → L = A ++ B → parted s k A B → FindGreaterOrEqual compare_ k false s = Ok (head B, s).
Proof.
  intros Hsh HL Hpt. destruct (run_search s L A B k false Hsh HL Hpt) as (p & Hrun & Hp).
  unfold FindGreaterOrEqual. rewrite (bind_Ok _ _ _ None s) by done. rewrite Hrun.
  by rewrite (fp_none _ _ _ _ _ Hp eq_refl), with_prev_id.
Qed.

(** ** The hint *)

Lemma adjust_prev_spec x n : ∀ i s,
  i + n ≤ length (prev_ s) →
  ∃ p, adjust_prev x i n s = Ok (tt, with_prev p s) ∧ length p = length (prev_ s) ∧
    ∀ j, p !! j = if decide (i ≤ j < i + n) then Some x else prev_ s !! j.
Proof.
  induction n as [|n IH]; intros i s Hl.
  { exists (prev_ s). rewrite with_prev_id. split_and!; [done..|]. intros j. by rewrite decide_False by lia. }
  cbn [adjust_prev]. rewrite (bind_Ok _ _ _ _ _ (run_set_prev i x s ltac:(lia))).
  destruct (IH (S i) (with_prev (<[i := x]> (prev_ s)) s)) as (p & Hrun & Hlen & Hp); [cbn; rewrite length_insert; lia|].
  exists p. cbn [prev_ with_prev] in *. rewrite length_insert in Hlen. split_and!; [exact Hrun|done|].
  intros j. rewrite Hp. destruct (decide (i = j)) as [<-|].
  - rewrite (decide_False (P := S i ≤ i < _)), list_lookup_insert_eq, decide_True by lia. done.
  - rewrite list_lookup_insert_ne by done. repeat case_decide; try done; lia.
Qed.

(** If the next node is not before the key and the hint itself is, the hint is the place. *)
Lemma hint_is_place s L A B A0 B0 k :
  shape s L → L = A ++ B → L = A0 ++ B0 → parted s k A B → is_in A (head B0) = false →
  (last_of (head_ s) A0 = head_ s ∨ last_of (head_ s) A0 ∈ A) → A0 = A ∧ B0 = B.
Proof.
  intros Hsh HL HL0 Hpt Hnext Hx. pose proof HL as E. rewrite HL0 in E.
  apply app_eq_inv in E as [(C & HA & HB)|(C & HA & HB)].
  - destruct C as [|c C _] using rev_ind; [by rewrite app_nil_r in HA|]. exfalso.
    rewrite HA, app_assoc, last_of_snoc in Hx. destruct Hx as [Hx|Hx].
    + pose proof (sh_nodup _ _ Hsh) as [Hh _]%NoDup_cons. apply Hh. rewrite HL0, HA, <-Hx.
      apply elem_of_app. left. apply elem_of_app. right. apply elem_of_app. right. by left.
    + eapply (parts_disjoint s L A B c); [done..|]. rewrite HB. apply elem_of_app. left. apply elem_of_app. right. by left.
  - destruct C as [|c C]; [by rewrite app_nil_r in HA|]. exfalso. rewrite HB in Hnext. cbn in Hnext.
    apply bool_decide_eq_false in Hnext. apply Hnext. rewrite HA. apply elem_of_app. right. by left.
Qed.

Lemma is_in_head s L A B k x :
  shape s L → L = A ++ B → parted s k A B → x ∈ L →
  KeyIsAfterNode compare_ k (Some x) s = Ok (bool_decide (x ∈ A), s).
Proof. intros Hsh HL Hpt Hx. apply (run_after_part s L A B); [done..|]. by intros ? [= <-]. Qed.
End shape.

(** * Inserting *)

Section find.
Context {Key : Type} (compare_ : Key → Key → outcome Z) `{!Comparator compare_}.
Implicit Types (s : SkipList Key) (L A B : list positive) (k : Key).
Abbreviation parted := (parted compare_).
Abbreviation shape := (shape compare_).
Abbreviation key_order := (key_order compare_).

(** [prev_] holds the nodes before the place after [A] on every level in use. *)
Definition prev_at s A (p : list positive) : Prop :=
  length p = kMaxHeight_ s ∧ ∀ j, j < max_height_ s → p !! j = Some (pred_at s j A).

Lemma run_try_hint s L A B k :
  shape s L → hint s L → L = A ++ B → parted s k A B →
  try_hint compare_ k s = Ok (None, s) ∨
  ∃ p, try_hint compare_ k s = Ok (Some (head B), with_prev p s) ∧ prev_at s A p.
Proof.
  intros Hsh (A0 & B0 & HL0 & Hp0 & [Hh1 Hh2] & Hh3 & Hps) HL Hpt. set (x := last_of (head_ s) A0) in *.
  pose proof (sh_max _ _ _ Hsh) as Hmax. pose proof (sh_prev _ _ _ Hsh) as Hlen.
  assert (Node_Next x 0 s = Ok (head B0, s)) as Hnext.
  { apply run_Next. rewrite (level_next compare_ s L A0 [] B0); [|done|done|lia|fold x; lia]. cbn. f_equal. f_equal.
    apply at_level_0. intros l Hl. apply (sh_height _ _ _ Hsh). rewrite HL0. apply elem_of_app. by right. }
  assert (get_prev 0 s = Ok (x, s)) as Hget by (unfold get_prev; by rewrite Hp0).
  assert (∀ y, head B0 = Some y → y ∈ L) as HB0.
  { intros y E. rewrite HL0. apply elem_of_app. right. destruct B0; [done|]. injection E as ->. by left. }
  unfold try_hint. step Hget. step Hnext. step (run_after_part compare_ s L A B k _ Hsh HL Hpt HB0).
  destruct (is_in A (head B0)) eqn:Hin; cbn [negb]; [by left|]. step Hget. step Hnext.
  rewrite (bind_Ok _ _ _ (head_ s) s) by done.
  set (ok := bool_decide (x = head_ s ∨ x ∈ A)).
  assert ((if decide (x = head_ s) then mret true else KeyIsAfterNode compare_ k (Some x)) s = Ok (ok, s)) as Hok.
  { unfold ok. case_decide as Hx; [by rewrite bool_decide_true by eauto|].
    rewrite (is_in_head compare_ s L A B); [|done..|].
    - do 2 f_equal. apply bool_decide_ext. naive_solver.
    - rewrite HL0. apply elem_of_app. left. by eapply (last_in_shape compare_ s L). }
  step Hok. destruct ok eqn:Eok; [|by left]. right. apply bool_decide_eq_true in Eok.
  destruct (hint_is_place compare_ s L A B A0 B0 k) as [-> ->]; try done.
  rewrite (bind_Ok _ _ _ (prev_height_ s) s) by done.
  destruct (adjust_prev_spec x (prev_height_ s - 1) 1 s) as (p & Hrun & Hpl & Hp); [lia|]. step Hrun.
  exists p. split; [done|]. split; [by rewrite Hpl|]. intros j Hj. rewrite Hp. destruct (decide (1 ≤ j < 1 + (prev_height_ s - 1))) as [Hd|Hd].
  - f_equal. unfold pred_at, at_level. rewrite last_of_filter; [done|]. fold x. lia.
  - destruct (decide (j = 0)) as [->|]; [|apply Hps; lia]. rewrite Hp0. f_equal.
    unfold pred_at, at_level. rewrite last_of_filter; [done|]. fold x. lia.
Qed.

(** With [prev]: the same node, and the nodes before it on every level in use. *)
Lemma run_FindGreaterOrEqual_prev s L A B k :
  shape s L → hint s L → L = A ++ B → parted s k A B →
  ∃ p, FindGreaterOrEqual compare_ k true s = Ok (head B, with_prev p s) ∧ prev_at s A p.
Proof.
  intros Hsh Hh HL Hpt. unfold FindGreaterOrEqual.
  destruct (run_try_hint s L A B k Hsh Hh HL Hpt) as [Hrun|(p & Hrun & Hp)]; step Hrun; [|by exists p].
  destruct (run_search compare_ s L A B k true Hsh HL Hpt) as (p & Hs & Hp). exists p. split; [exact Hs|].
  pose proof (sh_max _ _ _ Hsh) as Hmax. split; [by rewrite (fp_length _ _ _ _ _ Hp), (sh_prev _ _ _ Hsh)|].
  intros j Hj. apply (fp_set _ _ _ _ _ Hp); [done|lia].
Qed.
End find.

(** ** Linking a new node *)

Section linking.
Context {Key : Type}.
Implicit Types (s : SkipList Key) (L A B : list positive).

Definition set_link (l : positive) (n : nat) (x : option positive) s : SkipList Key :=
  mkSkipList (alter (λ nd, mkSkipNode (skip_key nd) (<[n := Some x]> (next_ nd))) l (list_nodes s))
    (list_fresh s) (kMaxHeight_ s) (kBranching_ s) (head_ s) (max_height_ s) (prev_ s) (prev_height_ s) (rnd_ s).

Lemma run_SetNext l n x s : n < height s l → SetNext l n x s = Ok (tt, set_link l n x s).
Proof.
  unfold height, SetNext, load_skip_node, mbind, prog_bind. destruct (list_nodes s !! l) as [nd|] eqn:E; [|lia].
  intros Hn. rewrite decide_True by done. unfold set_list_nodes, modify, set_link. do 3 f_equal.
  apply map_eq. intros l'. rewrite lookup_alter, lookup_insert. case_decide as El; [|done]. subst l'. by rewrite E.
Qed.

Lemma height_set_link l n x s l' : height (set_link l n x s) l' = height s l'.
Proof.
  unfold height. cbn [list_nodes set_link]. rewrite lookup_alter. case_decide as E; [|done]. subst l'.
  destruct (list_nodes s !! l); cbn; [by rewrite length_insert|done].
Qed.

Lemma key_at_set_link l n x s l' : key_at (set_link l n x s) l' = key_at s l'.
Proof.
  unfold key_at. cbn [list_nodes set_link]. rewrite lookup_alter. case_decide as E; [|done]. subst l'.
  by destruct (list_nodes s !! l).
Qed.

Lemma link_set_link l n x s l' j :
  n < height s l → link (set_link l n x s) l' j = if decide (l' = l ∧ j = n) then Some x else link s l' j.
Proof.
  unfold height, link. cbn [list_nodes set_link]. rewrite lookup_alter. intros Hn.
  destruct (decide (l = l')) as [<-|Hne]; [|by rewrite decide_False by naive_solver].
  destruct (list_nodes s !! l) as [nd|] eqn:E; cbn; [|lia]. destruct (decide (j = n)) as [->|Hj].
  - by rewrite list_lookup_insert_eq, decide_True.
  - by rewrite list_lookup_insert_ne, decide_False by naive_solver.
Qed.

(** The new node [x] linked after [pred i] and before [next i] on the levels below [n]. *)
Fixpoint linked (x : positive) (pred : nat → positive) (next : nat → option positive) (n : nat) s : SkipList Key :=
  match n with
  | O => s
  | S n => set_link (pred n) n (Some x) (set_link x n (next n) (linked x pred next n s))
  end.

Section linked.
Context (x : positive) (pred : nat → positive) (next : nat → option positive) (s : SkipList Key) (h : nat)
  (Hx : height s x = h) (Hne : ∀ i, i < h → pred i ≠ x) (Hpred : ∀ i, i < h → i < height s (pred i))
  (Hnext : ∀ i, i < h → link s (pred i) i = Some (next i)).

Lemma height_linked n l : height (linked x pred next n s) l = height s l.
Proof. induction n as [|n IH]; [done|]. cbn. by rewrite !height_set_link. Qed.

Lemma key_at_linked n l : key_at (linked x pred next n s) l = key_at s l.
Proof. induction n as [|n IH]; [done|]. cbn. by rewrite !key_at_set_link. Qed.

Lemma link_linked n l j :
  n ≤ h →
  link (linked x pred next n s) l j =
    if decide (j < n) then
      if decide (l = x) then Some (next j) else if decide (l = pred j) then Some (Some x) else link s l j
    else link s l j.
Proof.
  induction n as [|n IH]; intros Hn; [done|]. cbn [linked].
  rewrite link_set_link by (rewrite height_set_link, height_linked; apply Hpred; lia).
  rewrite link_set_link by (rewrite height_linked; lia). rewrite IH by lia.
  pose proof (Hne n ltac:(lia)) as Hn'. destruct (decide (j = n)) as [->|Hj].
  - rewrite (decide_False (P := n < n)), (decide_True (P := n < S n)) by lia.
    destruct (decide (l = pred n)) as [->|]; [by rewrite (decide_True (P := _ ∧ _)), decide_False|].
    rewrite (decide_False (P := l = pred n ∧ _)) by tauto.
    destruct (decide (l = x)); [by rewrite decide_True|by rewrite decide_False by tauto].
  - rewrite !(decide_False (P := _ ∧ j = n)) by tauto.
    destruct (decide (j < n)), (decide (j < S n)); (done || lia).
Qed.

Lemma linked_fields n :
  let s' := linked x pred next n s in
  list_fresh s' = list_fresh s ∧ kMaxHeight_ s' = kMaxHeight_ s ∧ kBranching_ s' = kBranching_ s ∧ head_ s' = head_ s ∧
  max_height_ s' = max_height_ s ∧ prev_ s' = prev_ s ∧ prev_height_ s' = prev_height_ s ∧ rnd_ s' = rnd_ s ∧
  ∀ l, is_Some (list_nodes s' !! l) ↔ is_Some (list_nodes s !! l).
Proof.
  induction n as [|n IH]; [done|]. cbn in *. destruct IH as (? & ? & ? & ? & ? & ? & ? & ? & IH).
  split_and!; try done. intros l. by rewrite !lookup_alter_is_Some.
Qed.

Lemma run_link_loop n : ∀ i,
  i + n ≤ h → (∀ j, j < h → prev_ s !! j = Some (pred j)) →
  link_loop x i n (linked x pred next i s) = Ok (tt, linked x pred next (i + n) s).
Proof.
  induction n as [|n IH]; intros i Hi Hp; [by rewrite Nat.add_0_r|]. cbn [link_loop].
  set (si := linked x pred next i s).
  assert (∀ s', prev_ s' = prev_ s → get_prev i s' = Ok (pred i, s')) as Hget
    by (intros s' E; unfold get_prev; by rewrite E, Hp by lia).
  destruct (linked_fields i) as (_ & _ & _ & _ & _ & Eprev & _). step (Hget si Eprev).
  assert (link si (pred i) i = Some (next i)) as Hl.
  { unfold si. rewrite link_linked by lia. rewrite decide_False by lia. apply Hnext. lia. }
  step (run_Next _ _ _ _ Hl).
  assert (i < height si x) as Hxi by (unfold si; rewrite height_linked; lia).
  step (run_SetNext x i (next i) si Hxi). step (Hget (set_link x i (next i) si) Eprev).
  assert (i < height (set_link x i (next i) si) (pred i)) as Hpi
    by (unfold si; rewrite height_set_link, height_linked; apply Hpred; lia).
  step (run_SetNext (pred i) i (Some x) _ Hpi).
  change (set_link (pred i) i (Some x) (set_link x i (next i) si)) with (linked x pred next (S i) s).
  rewrite IH by (lia || done). do 3 f_equal. lia.
Qed.
End linked.
End linking.

(** ** The shape with the new node *)

Section inserted.
Context {Key : Type} (compare_ : Key → Key → outcome Z) `{!Comparator compare_}.
Implicit Types (s : SkipList Key) (L A B : list positive) (k : Key).
Abbreviation parted := (parted compare_).
Abbreviation shape := (shape compare_).
Abbreviation key_order := (key_order compare_).
Abbreviation ordered := (ordered compare_).
Abbreviation is_before := (is_before compare_).

Lemma chain_ext s s' i x ls :
  (∀ l, l ∈ x :: ls → link s' l i = link s l i) → chain s i x ls → chain s' i x ls.
Proof.
  revert x. induction ls as [|y ls IH]; intros x Hl; cbn.
  - intros <-. apply Hl. by left.
  - intros [<- Hc]. split; [apply Hl; by left|]. apply IH; [|done]. intros l ?. apply Hl. by right.
Qed.

Lemma chain_head s i x ls : chain s i x ls → link s x i = Some (head ls).
Proof. destruct ls; cbn; [done|by intros [? _]]. Qed.

Lemma chain_insert s s' i x h A B :
  chain s i h (A ++ B) → NoDup (h :: A ++ B) → x ∉ h :: A ++ B →
  link s' x i = Some (head B) → link s' (last_of h A) i = Some (Some x) →
  (∀ l, l ≠ x → l ≠ last_of h A → link s' l i = link s l i) → chain s' i h (A ++ x :: B).
Proof.
  revert h. induction A as [|y A IH]; intros h Hc Hnd Hx Hlx Hlp Hl; cbn in *.
  - split; [done|]. destruct B as [|b B]; [done|]. destruct Hc as [_ Hc]. split; [done|].
    eapply chain_ext; [|done]. intros l Hin. apply Hl; intros ->; [set_solver|].
    by apply NoDup_cons in Hnd as [? _].
  - destruct Hc as [Hh Hc]. apply NoDup_cons in Hnd as [Hnh Hnd]. rewrite last_of_cons in *. split.
    + rewrite <-Hh. apply Hl; [set_solver|]. intros E. apply Hnh. rewrite E.
      destruct (last_of_in y A) as [->|?]; set_solver.
    + apply IH; [done..|set_solver|done|done|done].
Qed.

Lemma at_level_same s s' i L : (∀ l, l ∈ L → height s' l = height s l) → at_level s' i L = at_level s i L.
Proof.
  induction L as [|l L IH]; intros Hh; [done|]. unfold at_level in *. rewrite !filter_cons, (Hh l) by (by left).
  rewrite IH; [done|]. intros. apply Hh. by right.
Qed.

Lemma at_level_cons s i x L :
  at_level s i (x :: L) = (if decide (i < height s x) then [x] else []) ++ at_level s i L.
Proof. unfold at_level. rewrite filter_cons. by case_decide. Qed.

Lemma sorted_insert {X} (R : relation X) (A B : list X) (x : X) :
  StronglySorted R (A ++ B) → (∀ a, a ∈ A → R a x) → (∀ b, b ∈ B → R x b) → StronglySorted R (A ++ x :: B).
Proof.
  induction A as [|a A IH]; cbn; intros Hs HA HB; [constructor; [done|by apply Forall_forall]|].
  apply StronglySorted_inv in Hs as [Hs Hf]. constructor; [apply IH; [done| |done]; intros; apply HA; by right|].
  rewrite Forall_app in Hf |- *. destruct Hf as [Hf1 Hf2]. split; [done|]. constructor; [|done]. apply HA. by left.
Qed.

Lemma sorted_impl {X} (R R' : relation X) (l : list X) :
  (∀ x y, R x y → R' x y) → StronglySorted R l → StronglySorted R' l.
Proof. intros HR. induction 1 as [|x l _ IH Hx]; constructor; [done|]. eapply Forall_impl; [exact Hx|]. intros y. apply HR. Qed.

Section new_node.
Context s L A B x k h (Hsh : shape s L) (HL : L = A ++ B) (Hx : x ∉ head_ s :: L) (Hxh : height s x = h)
  (Hh : 1 ≤ h ≤ max_height_ s) (Hxk : key_at s x = Some k) (HA : ∀ a, a ∈ A → is_before s k a)
  (HB : ∀ b, b ∈ B → ordered s x b) (Hwk : wf_key compare_ k).

Abbreviation pred := (λ j, pred_at s j A).
Abbreviation next := (λ j, head (at_level s j B)).
Abbreviation s' := (linked x pred next h s).

Lemma pred_in j : pred_at s j A = head_ s ∨ pred_at s j A ∈ at_level s j A.
Proof. apply last_of_in. Qed.

Lemma pred_ne j : pred_at s j A ≠ x.
Proof.
  intros E. apply Hx. rewrite <-E. destruct (pred_in j) as [->|Hin]; [by left|]. right.
  rewrite HL. apply elem_of_app. left. by apply list_elem_of_filter in Hin as [_ ?].
Qed.

Lemma pred_high j : j < h → j < height s (pred_at s j A).
Proof.
  intros Hj. destruct (pred_in j) as [->|Hin]; [|by apply list_elem_of_filter in Hin as [? _]].
  pose proof (sh_max _ _ _ Hsh). rewrite (sh_head _ _ _ Hsh). lia.
Qed.

Lemma pred_link j : j < h → link s (pred_at s j A) j = Some (head (at_level s j B)).
Proof.
  intros Hj. pose proof (sh_max _ _ _ Hsh). pose proof (sh_chain _ _ _ Hsh j ltac:(lia)) as Hc.
  rewrite HL, at_level_app in Hc. apply chain_app in Hc. by apply chain_head.
Qed.

Lemma new_links l j :
  link s' l j = if decide (j < h) then
      if decide (l = x) then Some (next j) else if decide (l = pred j) then Some (Some x) else link s l j
    else link s l j.
Proof.
  apply link_linked with (h := h); [done|intros; apply pred_ne|apply pred_high|lia].
Qed.

Lemma new_chain i : i < kMaxHeight_ s → chain s' i (head_ s) (at_level s i (A ++ x :: B)).
Proof.
  intros Hi. pose proof (sh_chain _ _ _ Hsh i Hi) as Hc. rewrite HL, at_level_app in Hc.
  rewrite at_level_app, at_level_cons, Hxh. pose proof (new_links) as Hn.
  assert (x ∉ head_ s :: at_level s i A ++ at_level s i B) as Hx'.
  { intros Hin. apply Hx. rewrite HL. apply elem_of_cons in Hin as [->|Hin]; [by left|]. right.
    rewrite <-at_level_app in Hin. by apply list_elem_of_filter in Hin as [_ ?]. }
  destruct (decide (i < h)) as [Hlt|Hge].
  - apply (chain_insert s); [done| |done|..].
    + rewrite <-at_level_app, <-HL. pose proof (sh_nodup _ _ _ Hsh) as [Hh' Hnd]%NoDup_cons.
      apply NoDup_cons. split; [intros Hin; by apply list_elem_of_filter in Hin as [_ ?]|by apply NoDup_filter].
    + rewrite Hn. by rewrite !decide_True.
    + fold (pred_at s i A). rewrite Hn. by rewrite decide_True, decide_False, decide_True by (done || apply pred_ne).
    + intros l Hl Hp. rewrite Hn. destruct (decide (i < h)); [|done]. by rewrite !decide_False.
  - cbn [app]. eapply chain_ext; [|done]. intros l _. rewrite Hn. by rewrite decide_False.
Qed.

Lemma new_shape : shape s' (A ++ x :: B).
Proof.
  destruct (linked_fields x pred next s h) as (E1 & E2 & _ & E4 & E5 & E6 & _ & _ & Ed).
  pose proof (height_linked x pred next s h) as Eh.
  pose proof (key_at_linked x pred next s h) as Ek. destruct Hsh as [Hnd Hhd Hht Hk Hs Hc Hm Hf Hp].
  constructor; rewrite ?E1, ?E2, ?E4, ?E5, ?E6; try done.
  - rewrite HL in Hnd, Hx. rewrite !NoDup_cons, !NoDup_app, ?NoDup_cons in *. set_solver.
  - by rewrite Eh.
  - intros l. rewrite Eh. intros [Hl|[->|Hl]%elem_of_cons]%elem_of_app; [|lia|]; apply Hht; rewrite HL; set_solver.
  - intros l. rewrite Ek. intros [Hl|[->|Hl]%elem_of_cons]%elem_of_app; [|by eauto|]; apply Hk; rewrite HL; set_solver.
  - rewrite HL in Hs. eapply (sorted_impl (ordered s)).
    + intros a b (kb & Hb & ka & Ha & Hlt). exists kb. rewrite Ek. split; [done|]. exists ka. by rewrite Ek.
    + apply sorted_insert; [done| |done]. intros a Ha. exists k. split; [done|by apply HA].
  - intros i Hi. rewrite (at_level_same s); [by apply new_chain|]. intros l _. apply Eh.
  - intros l. rewrite Ed. apply Hf.
Qed.
End new_node.

(** ** The steps of [Insert] *)

Definition alloc_node k (h : nat) s : SkipList Key :=
  mkSkipList (<[list_fresh s := mkSkipNode (Some k) (replicate h None)]> (list_nodes s)) (Pos.succ (list_fresh s))
    (kMaxHeight_ s) (kBranching_ s) (head_ s) (max_height_ s) (prev_ s) (prev_height_ s) (rnd_ s).

Lemma alloc_other k h s l :
  l ≠ list_fresh s →
  height (alloc_node k h s) l = height s l ∧ key_at (alloc_node k h s) l = key_at s l ∧
  ∀ i, link (alloc_node k h s) l i = link s l i.
Proof. intros Hl. unfold height, key_at, link. cbn [list_nodes alloc_node]. by rewrite lookup_insert_ne. Qed.

Lemma alloc_new k h s :
  height (alloc_node k h s) (list_fresh s) = h ∧ key_at (alloc_node k h s) (list_fresh s) = Some k.
Proof.
  unfold height, key_at. cbn [list_nodes alloc_node]. rewrite lookup_insert_eq. cbn. by rewrite length_replicate.
Qed.

Lemma shape_not_fresh s L l : shape s L → l ∈ head_ s :: L → l ≠ list_fresh s.
Proof.
  intros Hsh Hl ->. assert (is_Some (list_nodes s !! list_fresh s)) as Hn.
  { apply elem_of_cons in Hl as [E|Hl]; [|destruct (sh_key _ _ _ Hsh _ Hl) as (? & ? & _); eapply in_nodes; by eauto]. pose proof (sh_head _ _ _ Hsh) as Hh.
    pose proof (sh_max _ _ _ Hsh). rewrite <-E in Hh. unfold height in Hh. destruct (list_nodes s !! list_fresh s); [eauto|lia]. }
  apply (sh_fresh _ _ _ Hsh) in Hn. lia.
Qed.

Lemma shape_alloc k h s L : shape s L → shape (alloc_node k h s) L.
Proof.
  intros Hsh. pose proof (λ l Hl, alloc_other k h s l (shape_not_fresh s L l Hsh Hl)) as Ho.
  destruct Hsh as [Hnd Hhd Hht Hk Hs Hc Hm Hf Hp]. constructor; try done.
  - destruct (Ho (head_ s) ltac:(by left)) as [E _]. cbn [head_ alloc_node kMaxHeight_]. by rewrite E.
  - intros l Hl. destruct (Ho l ltac:(by right)) as [-> _]. by apply Hht.
  - intros l Hl. destruct (Ho l ltac:(by right)) as (_ & -> & _). by apply Hk.
  - assert (∀ l, l ∈ L → key_at (alloc_node k h s) l = key_at s l) as Hkey
      by (intros l Hl; apply (Ho l); by right).
    clear -Hs Hkey. induction Hs as [|x L _ IH Hx]; constructor; [apply IH; intros; apply Hkey; by right|].
    apply Forall_forall. intros y Hy. eapply Forall_forall in Hx; [|done]. destruct Hx as (ky & Ey & kx & Ex & Hlt).
    exists ky. rewrite Hkey by (by right). split; [done|]. exists kx. rewrite Hkey by (by left). done.
  - intros i Hi. cbn [head_ alloc_node]. rewrite (at_level_same s) by (intros l Hl; apply (Ho l); by right).
    eapply chain_ext; [|by apply Hc]. intros l Hl. apply Ho. apply elem_of_cons in Hl as [->|Hl]; [by left|].
    right. by apply list_elem_of_filter in Hl as [_ ?].
  - intros l. cbn [list_nodes alloc_node list_fresh]. rewrite lookup_insert. case_decide; [lia|]. intros ?%Hf. lia.
Qed.

Definition with_rnd (r : Z) s : SkipList Key :=
  mkSkipList (list_nodes s) (list_fresh s) (kMaxHeight_ s) (kBranching_ s) (head_ s) (max_height_ s) (prev_ s)
    (prev_height_ s) r.

Lemma run_height_loop n : ∀ h s,
  ∃ h' r, height_loop n h s = Ok (h', with_rnd r s) ∧ h ≤ h' ≤ h + n.
Proof.
  induction n as [|n IH]; intros h s; [exists h, (rnd_ s); split; [by destruct s|lia]|]. cbn [height_loop].
  unfold mbind, prog_bind, gets, modify. cbn [kBranching_]. case_match.
  - destruct (IH (S h) (with_rnd (Random_Next (rnd_ s)) s)) as (h' & r & Hr & Hb). exists h', r.
    unfold mbind, prog_bind in Hr. split; [exact Hr|lia].
  - exists h, (Random_Next (rnd_ s)). split; [done|lia].
Qed.

Lemma run_RandomHeight s :
  1 ≤ kMaxHeight_ s → ∃ h r, RandomHeight s = Ok (h, with_rnd r s) ∧ 1 ≤ h ≤ kMaxHeight_ s.
Proof.
  intros Hm. destruct (run_height_loop (kMaxHeight_ s - 1) 1 s) as (h & r & Hr & Hb). exists h, r. split; [|lia].
  unfold RandomHeight. rewrite (bind_Ok _ _ _ (kMaxHeight_ s) s) by done. step Hr.
  do 2 rewrite (bind_Ok _ _ _ tt (with_rnd r s)) by (apply assert_true, bool_decide_eq_true_2; lia). done.
Qed.

(** The state after the height has been chosen: [prev_] holds the places on every level
    that the new node is on. *)
Record ready s L A B (h : nat) : Prop := {
  rd_shape : shape s L;
  rd_height : 1 ≤ h ≤ max_height_ s;
  rd_prev j : j < max_height_ s → prev_ s !! j = Some (pred_at s j A);
}.

Definition with_max (h : nat) s : SkipList Key :=
  mkSkipList (list_nodes s) (list_fresh s) (kMaxHeight_ s) (kBranching_ s) (head_ s) h (prev_ s)
    (prev_height_ s) (rnd_ s).

Lemma shape_with_rnd r s L : shape s L → shape (with_rnd r s) L.
Proof.
  intros [Hnd Hh Hht Hk Hs Hc Hm Hf Hl]. constructor; try done. intros i Hi. eapply chain_ext; [|by apply Hc]. done.
Qed.

Lemma shape_with_max h s L : max_height_ s ≤ h ≤ kMaxHeight_ s → shape s L → shape (with_max h s) L.
Proof.
  intros Hle [Hnd Hh Hht Hk Hs Hc Hm Hf Hl]. constructor; try done.
  - intros l Hin. specialize (Hht l Hin). change (1 ≤ height s l ≤ h). lia.
  - intros i Hi. eapply chain_ext; [|by apply Hc]. done.
  - cbn. lia.
Qed.

(** No node is higher than the list. *)
Lemma at_level_none s j A : (∀ l, l ∈ A → height s l ≤ j) → at_level s j A = [].
Proof.
  induction A as [|l A IH]; intros Hh; [done|]. unfold at_level in *. rewrite filter_cons_False.
  - apply IH. intros. apply Hh. by right.
  - specialize (Hh l ltac:(by left)). lia.
Qed.

Definition grow (h h' : nat) : prog (SkipList Key) unit :=
  if decide (h < h') then
    head ← gets head_; adjust_prev head h (h' - h);; set_max_height h'
  else mret tt.

Lemma run_grow s L A B h :
  shape s L → L = A ++ B → prev_at s A (prev_ s) → 1 ≤ h ≤ kMaxHeight_ s →
  ∃ p, grow (max_height_ s) h s = Ok (tt, with_max (Nat.max (max_height_ s) h) (with_prev p s)) ∧
    ready (with_max (Nat.max (max_height_ s) h) (with_prev p s)) L A B h.
Proof.
  intros Hsh HL [Hlen Hp] Hh. pose proof (sh_max _ _ _ Hsh) as Hm. unfold grow. case_decide as Hd.
  - destruct (adjust_prev_spec (head_ s) (h - max_height_ s) (max_height_ s) s) as (p & Hrun & Hpl & Hp'); [lia|].
    rewrite (bind_Ok _ _ _ (head_ s) s) by done. step Hrun. exists p. rewrite (Nat.max_r (max_height_ s) h) by lia. split; [done|].
    constructor; cbn [max_height_ with_max]; [|lia|].
    + apply shape_with_max; [cbn; lia|]. by apply shape_with_prev.
    + intros j Hj. cbn [prev_ with_max with_prev]. rewrite Hp'. destruct (decide (max_height_ s ≤ j < _)) as [Hd'|Hd'].
      * unfold pred_at. rewrite (at_level_none _ j); [done|]. intros l Hl. change (height s l ≤ j).
        pose proof (sh_height _ _ _ Hsh l). rewrite HL in H. specialize (H ltac:(apply elem_of_app; by left)). lia.
      * apply Hp. lia.
  - exists (prev_ s). rewrite (Nat.max_l (max_height_ s) h), with_prev_id by lia. split; [by destruct s|].
    constructor; cbn [max_height_ with_max]; [|lia|done]. apply shape_with_max; [lia|done].
Qed.

Lemma run_NewNode k h s : NewNode (Some k) h s = Ok (list_fresh s, alloc_node k h s).
Proof. done. Qed.

Definition with_prev_height (h : nat) s : SkipList Key :=
  mkSkipList (list_nodes s) (list_fresh s) (kMaxHeight_ s) (kBranching_ s) (head_ s) (max_height_ s) (prev_ s)
    h (rnd_ s).

Lemma shape_with_prev_height h s L : shape s L → shape (with_prev_height h s) L.
Proof.
  intros [Hnd Hh Hht Hk Hs Hc Hm Hf Hl]. constructor; try done. intros i Hi. eapply chain_ext; [|by apply Hc]. done.
Qed.

Lemma pred_at_same s s' A j :
  head_ s' = head_ s → (∀ l, l ∈ A → height s' l = height s l) → pred_at s' j A = pred_at s j A.
Proof. intros Eh Hh. unfold pred_at. by rewrite Eh, (at_level_same s). Qed.

Lemma hint_new s A B x h :
  height s x = h → 1 ≤ h ≤ max_height_ s → 0 < length (prev_ s) →
  (∀ j, h ≤ j < max_height_ s → prev_ s !! j = Some (pred_at s j A)) →
  hint (with_prev_height h (with_prev (<[0 := x]> (prev_ s)) s)) (A ++ x :: B).
Proof.
  intros Hx Hh Hlen Hp. exists (A ++ [x]), B. rewrite last_of_snoc. cbn [prev_ prev_height_ max_height_ with_prev_height with_prev].
  split_and!; try lia.
  - by rewrite <-app_assoc.
  - by apply list_lookup_insert_eq.
  - change (h ≤ height s x). lia.
  - intros j Hj. rewrite list_lookup_insert_ne by lia. rewrite Hp by done. f_equal.
    change (pred_at s j A = last_of (head_ s) (at_level s j (A ++ [x]))). rewrite at_level_app, at_level_cons, decide_False by lia.
    cbn. by rewrite app_nil_r.
Qed.

(** The new node is linked in, and is the hint from now on. *)
Lemma run_link s L A B k h :
  ready s L A B h → L = A ++ B → wf_key compare_ k → (∀ a, a ∈ A → is_before s k a) →
  (∀ b, b ∈ B → ∃ kb, key_at s b = Some kb ∧ (key_order k kb < 0)%Z) →
  ∃ s' x, (x ← NewNode (Some k) h; link_loop x 0 h;; set_prev 0 x;; set_prev_height h) s = Ok (tt, s') ∧
    shape s' (A ++ x :: B) ∧ hint s' (A ++ x :: B) ∧ key_at s' x = Some k ∧
    (∀ l, l ∈ L → key_at s' l = key_at s l).
Proof.
  intros [Hsh Hh Hp] HL Hw HA HB. set (x := list_fresh s). set (s4 := alloc_node k h s).
  pose proof (λ l Hl, alloc_other k h s l (shape_not_fresh s L l Hsh Hl)) as Ho. fold s4 in Ho.
  destruct (alloc_new k h s) as [Hxh Hxk]. fold x s4 in Hxh, Hxk.
  pose proof (shape_alloc k h s L Hsh) as Hsh4. fold s4 in Hsh4.
  assert (x ∉ head_ s4 :: L) as Hx by (intros Hin; by apply (shape_not_fresh s L x Hsh Hin)).
  assert (∀ l, l ∈ L → key_at s4 l = key_at s l) as Hk4 by (intros l Hl; apply (Ho l); by right).
  assert (∀ a, a ∈ A → is_before s4 k a) as HA4.
  { intros a Ha. destruct (HA a Ha) as (ka & Ea & Hlt). exists ka. split; [|done]. rewrite Hk4; [done|]. rewrite HL. set_solver. }
  assert (∀ b, b ∈ B → ordered s4 x b) as HB4.
  { intros b Hb. destruct (HB b Hb) as (kb & Eb & Hlt). exists kb. split; [|by exists k].
    rewrite Hk4; [done|]. rewrite HL. set_solver. }
  assert (∀ j, pred_at s4 j A = pred_at s j A) as Hpred.
  { intros j. apply pred_at_same; [done|]. intros l Hl. apply (Ho l). right. rewrite HL. set_solver. }
  pose proof (new_shape s4 L A B x k h Hsh4 HL Hx Hxh Hh Hxk HA4 HB4 Hw) as Hnew.
  pose proof (run_link_loop x (λ j, pred_at s4 j A) (λ j, head (at_level s4 j B)) s4 h Hxh
    ltac:(intros; by eapply pred_ne) ltac:(intros; by eapply pred_high) ltac:(intros; by eapply pred_link) h 0
    ltac:(lia) ltac:(intros j Hj; cbn beta; rewrite Hpred; apply Hp; lia)) as Hlink. cbn [Nat.add linked] in Hlink.
  set (s5 := linked x _ _ h s4) in *.
  destruct (linked_fields x (λ j, pred_at s4 j A) (λ j, head (at_level s4 j B)) s4 h) as (_ & _ & _ & E4 & E5 & E6 & _).
  fold s5 in E4, E5, E6. pose proof (sh_prev _ _ _ Hnew) as Hlen. pose proof (sh_max _ _ _ Hnew) as Hmax.
  exists (with_prev_height h (with_prev (<[0 := x]> (prev_ s5)) s5)), x. split_and!.
  - step (run_NewNode k h s). fold x s4. step Hlink. by step (run_set_prev 0 x s5 ltac:(lia)).
  - apply shape_with_prev_height, shape_with_prev; [by rewrite length_insert|done].
  - apply hint_new; [unfold s5; by rewrite height_linked|rewrite E5; exact Hh|lia|].
    intros j Hj. rewrite E6. rewrite (pred_at_same s4); [|done|intros; apply height_linked].
    rewrite Hpred. apply Hp. rewrite E5 in Hj. apply Hj.
  - change (key_at s5 x = Some k). unfold s5. by rewrite key_at_linked.
  - intros l Hl. change (key_at s5 l = key_at s l). unfold s5. rewrite key_at_linked. by apply Hk4.
Qed.

Lemma run_Equal k k' : wf_key compare_ k → wf_key compare_ k' → Equal compare_ k k' = Ok (Z.eqb (key_order k k') 0).
Proof. intros Hk Hk'. unfold Equal. by rewrite (compare_runs _ _ Hk Hk'). Qed.

(** What is not before a key and not equal to it is after it. *)
Lemma after_parted s L A B k :
  shape s L → L = A ++ B → parted s k A B →
  (∀ l k', head B = Some l → key_at s l = Some k' → key_order k k' ≠ 0%Z) →
  ∀ b, b ∈ B → ∃ kb, key_at s b = Some kb ∧ (key_order k kb < 0)%Z.
Proof.
  intros Hsh HL [_ _ Ha] Hne b Hb. destruct B as [|b0 B]; [by apply not_elem_of_nil in Hb|].
  destruct (sh_key _ _ _ Hsh b0) as (k0 & E0 & _); [rewrite HL; set_solver|].
  assert (key_order k k0 < 0)%Z as Hlt.
  { specialize (Hne b0 k0 eq_refl E0). pose proof (compare_sym k k0).
    assert (¬ key_order k0 k < 0)%Z by (intros ?; apply (Ha b0); [by left|by exists k0]). lia. }
  apply elem_of_cons in Hb as [->|Hb]; [by exists k0|].
  destruct (shape_ordered compare_ s L (A ++ [b0]) B b0 b Hsh) as (kb & Eb & k0' & E0' & Hlt');
    [by rewrite HL, <-app_assoc|set_solver|done|].
  exists kb. split; [done|]. eapply compare_trans; [done|]. congruence.
Qed.

Lemma run_Insert s L A B k :
  shape s L → hint s L → L = A ++ B → parted s k A B →
  (∀ l k', head B = Some l → key_at s l = Some k' → key_order k k' ≠ 0%Z) →
  ∃ s' x, SkipList_Insert compare_ k s = Ok (tt, s') ∧ shape s' (A ++ x :: B) ∧ hint s' (A ++ x :: B) ∧
    key_at s' x = Some k ∧ (∀ l, l ∈ L → key_at s' l = key_at s l).
Proof.
  intros Hsh Hh HL Hpt Hne. pose proof (after_parted s L A B k Hsh HL Hpt Hne) as HB.
  destruct (run_FindGreaterOrEqual_prev compare_ s L A B k Hsh Hh HL Hpt) as (p & Hfind & Hpl & Hp).
  pose proof (sh_max _ _ _ Hsh) as Hm. pose proof (sh_prev _ _ _ Hsh) as Hlen.
  set (s1 := with_prev p s). destruct (run_RandomHeight s1) as (h & r & Hrh & Hb); [cbn; lia|].
  destruct (run_grow (with_rnd r s1) L A B h) as (p' & Hg & Hrd); [|done|by split|done|].
  { apply shape_with_rnd, shape_with_prev; [congruence|done]. }
  destruct (run_link _ L A B k h Hrd HL) as (s' & x & Hl & Hres); [apply Hpt..|exact HB|].
  exists s', x. split; [|exact Hres]. unfold SkipList_Insert. step Hfind. fold s1.
  rewrite (bind_Ok _ _ s1 tt s1).
  - step Hrh. rewrite (bind_Ok _ _ _ (max_height_ s) (with_rnd r s1)) by done.
    rewrite (bind_Ok _ _ _ tt _ Hg). exact Hl.
  - destruct (head B) as [l|] eqn:E; [|done]. assert (l ∈ B) as Hin by (destruct B; [done|injection E as ->; by left]).
    destruct (HB l Hin) as (kl & Hkl & Hlt). step (run_node_key l s1 kl Hkl).
    pose proof (key_wf compare_ s L l kl Hsh ltac:(rewrite HL; set_solver) Hkl) as Hw.
    rewrite (bind_Ok _ _ _ _ _ (lift_Ok _ s1 _ (run_Equal k kl (pt_wf _ _ _ _ _ Hpt) Hw))). by rewrite (proj2 (Z.eqb_neq _ _) (Hne l kl eq_refl Hkl)).
Qed.

(** A key that is there already stops at the assertion. *)
Lemma run_Insert_present s L A B k l k' :
  shape s L → hint s L → L = A ++ B → parted s k A B →
  head B = Some l → key_at s l = Some k' → key_order k k' = 0%Z → SkipList_Insert compare_ k s = Err AssertFailed.
Proof.
  intros Hsh Hh HL Hpt El Hk E.
  destruct (run_FindGreaterOrEqual_prev compare_ s L A B k Hsh Hh HL Hpt) as (p & Hfind & Hpl & Hp).
  unfold SkipList_Insert. step Hfind. rewrite El. apply bind_Err. step (run_node_key l (with_prev p s) k' Hk).
  assert (l ∈ L) as Hl by (rewrite HL; destruct B; [done|]; injection El as ->; set_solver).
  pose proof (key_wf compare_ s L l k' Hsh Hl Hk) as Hw.
  rewrite (bind_Ok _ _ _ _ _ (lift_Ok _ (with_prev p s) _ (run_Equal k k' (pt_wf _ _ _ _ _ Hpt) Hw))). by rewrite E.
Qed.
End inserted.
