(* ===== verification/SkipListSpec.v ===== *)
(** * RocksDB: the skip list is a sorted list

    [skip_list s ks] is the abstraction: the keys of the list, in order.  Insertion,
    lookup and the iterators are shown against it. *)

From S2P Require Import Prelude SkipList SkipListLaws.
From stdpp Require Import sorting.

(** ** Sorted lists of keys *)

Section keys.
Context {Key : Type} (compare_ : Key → Key → Z).

Definition before (k' k : Key) : bool := Z.ltb (compare_ k' k) 0.

Fixpoint insert_key (k : Key) (ks : list Key) : list Key :=
  match ks with
  | [] => [k]
  | k' :: ks' => if before k' k then k' :: insert_key k ks' else k :: ks
  end.

(** The keys from the first on that is not before [k]. *)
Fixpoint seek_key (k : Key) (ks : list Key) : list Key :=
  match ks with
  | [] => []
  | k' :: ks' => if before k' k then seek_key k ks' else ks
  end.

Definition has_key (k : Key) (ks : list Key) : bool := existsb (λ k', Z.eqb (compare_ k k') 0) ks.

Lemma insert_key_split k ks1 ks2 :
  Forall (λ k', before k' k = true) ks1 → Forall (λ k', before k' k = false) ks2 →
  insert_key k (ks1 ++ ks2) = ks1 ++ k :: ks2 ∧ seek_key k (ks1 ++ ks2) = ks2.
Proof.
  intros Hb Ha. induction Hb as [|k' ks1 Hk _ [IH1 IH2]]; cbn.
  - destruct Ha as [|k' ks2 Hk _]; [done|]. cbn. by rewrite Hk.
  - rewrite Hk, IH1, IH2. done.
Qed.
End keys.

Section spec.
Context {Key : Type} (compare_ : Key → Key → outcome Z) `{!Comparator compare_}.
Implicit Types (s : SkipList Key) (L A B : list positive) (k : Key) (ks : list Key).
Abbreviation parted := (parted compare_).
Abbreviation shape := (shape compare_).
Abbreviation key_order := (key_order compare_).

Definition keys_of s L ks : Prop := Forall2 (λ l k, key_at s l = Some k) L ks.

Definition skip_list s ks : Prop := ∃ L, shape s L ∧ hint s L ∧ keys_of s L ks.

Lemma parted_before s k A B ka : parted s k A B → keys_of s A ka → Forall (λ k', before key_order k' k = true) ka.
Proof.
  intros [_ Hb _] Hk. apply Forall_forall. intros k' (i & Hi)%list_elem_of_lookup.
  destruct (Forall2_lookup_r _ _ _ _ _ Hk Hi) as (l & Hl & E). destruct (Hb l) as (k1 & E1 & Hlt); [by eapply list_elem_of_lookup_2|].
  rewrite E in E1. injection E1 as <-. by apply Z.ltb_lt.
Qed.

Lemma parted_after s k A B kb : parted s k A B → keys_of s B kb → Forall (λ k', before key_order k' k = false) kb.
Proof.
  intros [_ _ Ha] Hk. apply Forall_forall. intros k' (i & Hi)%list_elem_of_lookup.
  destruct (Forall2_lookup_r _ _ _ _ _ Hk Hi) as (l & Hl & E). apply Z.ltb_ge.
  destruct (decide (0 ≤ key_order k' k)%Z); [done|]. destruct (Ha l); [by eapply list_elem_of_lookup_2|].
  exists k'. split; [done|lia].
Qed.

(** The place of a key among the nodes, and among the keys. *)
Lemma place s L ks k :
  shape s L → keys_of s L ks → wf_key compare_ k →
  ∃ A B ka kb, L = A ++ B ∧ ks = ka ++ kb ∧ keys_of s A ka ∧ keys_of s B kb ∧ parted s k A B ∧
    insert_key key_order k ks = ka ++ k :: kb ∧ seek_key key_order k ks = kb.
Proof.
  intros Hsh Hk Hw. destruct (parted_exists compare_ s L k Hw (sh_sorted _ _ _ Hsh)) as (A & B & HL & Hpt).
  rewrite HL in Hk. apply Forall2_app_inv_l in Hk as (ka & kb & Ha & Hb & ->). exists A, B, ka, kb.
  destruct (insert_key_split key_order k ka kb); [by eapply parted_before|by eapply parted_after|].
  by split_and!.
Qed.

(** Two keys of one list are ordered as the nodes are. *)
Lemma keys_ordered s L ks i j k1 k2 :
  shape s L → keys_of s L ks → i < j → ks !! i = Some k1 → ks !! j = Some k2 → (key_order k1 k2 < 0)%Z.
Proof.
  intros Hsh Hk Hij H1 H2. destruct (Forall2_lookup_r _ _ _ _ _ Hk H1) as (l1 & Hl1 & E1).
  destruct (Forall2_lookup_r _ _ _ _ _ Hk H2) as (l2 & Hl2 & E2).
  destruct (shape_ordered compare_ s L (take j L) (drop j L) l1 l2 Hsh) as (kb & Eb & ka & Ea & Hlt).
  - symmetry. apply take_drop.
  - apply list_elem_of_lookup. exists i. by rewrite lookup_take_lt.
  - apply list_elem_of_lookup. exists 0. by rewrite lookup_drop, Nat.add_0_r.
  - congruence.
Qed.

(** An equal key can only be the first that is not before [k]. *)
Lemma has_key_place s L ks k A B ka kb :
  shape s L → keys_of s L ks → L = A ++ B → ks = ka ++ kb → keys_of s A ka → keys_of s B kb → parted s k A B →
  has_key key_order k ks = match kb with [] => false | k0 :: _ => Z.eqb (key_order k k0) 0 end.
Proof.
  intros Hsh Hk HL -> HA HB Hpt. unfold has_key. rewrite existsb_app.
  pose proof (parted_before _ _ _ _ _ Hpt HA) as Fa. pose proof (parted_after _ _ _ _ _ Hpt HB) as Fb.
  replace (existsb _ ka) with false; cbn [orb].
  2:{ symmetry. apply not_true_is_false. intros (k' & Hin%list_elem_of_In & E%Z.eqb_eq)%existsb_exists.
      eapply Forall_forall in Fa; [|done]. apply Z.ltb_lt in Fa. pose proof (compare_sym k k'). lia. }
  destruct kb as [|k0 kb]; [done|]. cbn. destruct (Z.eqb_spec (key_order k k0) 0) as [|Hne]; [done|]. cbn.
  apply not_true_is_false. intros (k' & Hin%list_elem_of_In & E%Z.eqb_eq)%existsb_exists.
  apply list_elem_of_lookup in Hin as [i Hi].
  assert (key_order k0 k' < 0)%Z as Hlt.
  { eapply (keys_ordered s L (ka ++ k0 :: kb) (length ka) (length ka + S i)); [done..|lia| |].
    - by rewrite lookup_app_r, Nat.sub_diag by lia.
    - rewrite lookup_app_r by lia. by replace (length ka + S i - length ka) with (S i) by lia. }
  apply Forall_cons in Fb as [F0 _]. apply Z.ltb_ge in F0. pose proof (compare_sym k k0).
  assert (key_order k k0 < 0)%Z as Hk0 by lia. pose proof (compare_trans _ _ _ Hk0 Hlt). lia.
Qed.

Lemma keys_head s B kb l k' : keys_of s B kb → head B = Some l → key_at s l = Some k' → ∃ kb', kb = k' :: kb'.
Proof. intros HB E El. destruct HB as [|l' k'' B kb' Hl' _]; [done|]. injection E as ->. exists kb'. congruence. Qed.

Lemma keys_kept s s' L ks : keys_of s L ks → (∀ l, l ∈ L → key_at s' l = key_at s l) → keys_of s' L ks.
Proof.
  intros Hk He. induction Hk as [|l k L ks Hl _ IH]; constructor.
  - rewrite He; [done|by left].
  - apply IH. intros. apply He. by right.
Qed.

(** ** The other searches *)

Lemma run_compare k k' s : wf_key compare_ k → wf_key compare_ k' → lift (compare_ k k') s = Ok (key_order k k', s).
Proof. intros Hk Hk'. apply lift_Ok. by apply compare_runs. Qed.

Lemma run_less_loop L A B k fuel : ∀ s A1 A2 level,
  shape s L → L = A ++ B → A = A1 ++ A2 → parted s k A B →
  level < height s (last_of (head_ s) A1) → level < kMaxHeight_ s → length A2 + level < fuel →
  less_loop compare_ fuel k (last_of (head_ s) A1) level s = Ok (last_of (head_ s) A, s).
Proof.
  induction fuel as [|fuel IH]; intros s A1 A2 level Hsh HL HA Hpt Hh Hk Hf; [lia|]. cbn [less_loop].
  assert (L = A1 ++ (A2 ++ B)) as HL1 by (by rewrite HL, HA, app_assoc).
  pose proof (level_next compare_ _ _ _ _ _ _ Hsh HL1 Hk Hh) as Hl. set (x := last_of (head_ s) A1) in *.
  rewrite (bind_Ok _ _ _ (head_ s) s) by done. rewrite (bind_Ok _ _ _ tt s).
  2:{ case_decide as Hx; [done|]. destruct (pt_before _ _ _ _ _ Hpt x) as (kx & Ex & Hlt).
      { rewrite HA. apply elem_of_app. left. by eapply (last_in_shape compare_ s L). }
      pose proof (key_wf compare_ s L x kx Hsh
        ltac:(rewrite HL1; apply elem_of_app; left; by eapply (last_in_shape compare_ s L)) Ex) as Hw.
      step (run_node_key _ _ _ Ex). step (run_compare _ _ s Hw (pt_wf _ _ _ _ _ Hpt)). by rewrite (proj2 (Z.ltb_lt _ _) Hlt). }
  step (run_Next _ _ _ _ Hl).
  assert (∀ y, head (at_level s level A2 ++ at_level s level B) = Some y → y ∈ L) as Hn.
  { intros y Hy. rewrite HL1. apply elem_of_app. right. rewrite <-at_level_app in Hy. by eapply head_in. }
  set (next := head _) in *. rewrite (bind_Ok _ _ _ (negb (is_in A next)) s).
  2:{ pose proof (run_after_part compare_ s L A B k next Hsh HL Hpt Hn) as Ha. destruct next as [y|]; [|done].
      destruct (sh_key _ _ _ Hsh y (Hn y eq_refl)) as (ky & Ey & Hw). pose proof (pt_wf _ _ _ _ _ Hpt) as Hwk.
      rewrite (run_KeyIsAfterNode compare_ _ _ _ _ Ey Hw Hwk) in Ha. step (run_node_key _ _ _ Ey). step (run_compare _ _ s Hw Hwk).
      assert (is_in A (Some y) = Z.ltb (key_order ky k) 0) as -> by congruence.
      by rewrite Z.leb_antisym. }
  unfold next. destruct (at_level s level A2) as [|y ys] eqn:E2; cbn [app head].
  - replace (is_in A (head (at_level s level B))) with false; cbn [negb].
    2:{ destruct (head (at_level s level B)) as [y|] eqn:Ey; [|done]. symmetry. apply bool_decide_eq_false. intros Hy.
        eapply (parts_disjoint compare_); [done|exact HL|done|]. by eapply head_in. }
    assert (∀ (c : prog (SkipList Key) positive),
      match head (at_level s level B), true with Some y, false => less_loop compare_ fuel k y level | _, _ => c end s = c s) as Hm
      by (intros c; by destruct (head _)).
    rewrite Hm. destruct level as [|level].
    + assert (A2 = []) as ->.
      { rewrite <-E2. symmetry. apply at_level_0. intros l ?. apply (sh_height _ _ _ Hsh). rewrite HL1. set_solver. }
      by rewrite HA, app_nil_r.
    + apply (IH s A1 A2); try done; subst x; lia.
  - destruct (filter_split _ _ _ _ E2) as (C & C' & HC & _ & Hy & _).
    cbn [is_in]. rewrite bool_decide_true by (rewrite HA, HC; set_solver). cbn [negb].
    pose proof (IH s (A1 ++ C ++ [y]) C' level Hsh HL) as IHy. rewrite app_assoc, last_of_snoc in IHy. apply IHy; try done.
    + by rewrite HA, HC, <-!app_assoc.
    + rewrite HC, length_app in Hf. cbn in Hf. lia.
Qed.

Lemma run_FindLessThan s L A B k :
  shape s L → L = A ++ B → parted s k A B → FindLessThan compare_ k s = Ok (last_of (head_ s) A, s).
Proof.
  intros Hsh HL Hpt. pose proof (sh_max _ _ _ Hsh) as Hm. pose proof (length_nodes compare_ _ _ Hsh) as Hn.
  rewrite HL, length_app in Hn.
  apply (run_less_loop L A B k (size (list_nodes s) + max_height_ s) s [] A (max_height_ s - 1)); try done; [|lia..].
  cbn. rewrite (sh_head _ _ _ Hsh). lia.
Qed.

Lemma run_last_loop L fuel : ∀ s A1 A2 level,
  shape s L → L = A1 ++ A2 → level < height s (last_of (head_ s) A1) → level < kMaxHeight_ s →
  length A2 + level < fuel →
  last_loop fuel (last_of (head_ s) A1) level s = Ok (last_of (head_ s) L, s).
Proof.
  induction fuel as [|fuel IH]; intros s A1 A2 level Hsh HL Hh Hk Hf; [lia|]. cbn [last_loop].
  assert (L = A1 ++ (A2 ++ [])) as HL1 by (by rewrite app_nil_r).
  step (run_Next _ _ _ _ (level_next compare_ _ _ _ _ _ _ Hsh HL1 Hk Hh)).
  destruct (at_level s level A2) as [|y ys] eqn:E2; cbn [app head].
  - destruct level as [|level]; [|apply (IH s A1 A2); try done; lia].
    assert (A2 = []) as ->; [|by rewrite HL, app_nil_r].
    rewrite <-E2. symmetry. apply at_level_0. intros l ?. apply (sh_height _ _ _ Hsh). rewrite HL. set_solver.
  - destruct (filter_split _ _ _ _ E2) as (C & C' & HC & _ & Hy & _).
    pose proof (IH s (A1 ++ C ++ [y]) C' level Hsh) as IHy. rewrite app_assoc, last_of_snoc in IHy. apply IHy; try done.
    + by rewrite HL, HC, <-!app_assoc.
    + rewrite HC, length_app in Hf. cbn in Hf. lia.
Qed.

Lemma run_FindLast s L : shape s L → FindLast s = Ok (last_of (head_ s) L, s).
Proof.
  intros Hsh. pose proof (sh_max _ _ _ Hsh) as Hm. pose proof (length_nodes compare_ _ _ Hsh) as Hn.
  apply (run_last_loop L (size (list_nodes s) + max_height_ s) s [] L (max_height_ s - 1)); try done; [|lia..].
  cbn. rewrite (sh_head _ _ _ Hsh). lia.
Qed.

(** ** Iterators *)

(** The iterator is between the keys [ks1] and [ks2]. *)
Definition iter_at s ks1 (it : option positive) ks2 : Prop :=
  ∃ A B, shape s (A ++ B) ∧ keys_of s A ks1 ∧ keys_of s B ks2 ∧ it = head B.

Lemma iter_at_end s ks1 it : iter_at s ks1 it [] → it = None.
Proof. intros (A & B & _ & _ & HB & ->). by inversion HB. Qed.

Lemma iter_at_cons s ks1 it k ks2 :
  iter_at s ks1 it (k :: ks2) → ∃ l, it = Some l ∧ Iter_key it s = Ok (k, s).
Proof.
  intros (A & B & _ & _ & HB & ->). inversion HB as [|l k' B' ks' Hl HB' E1 E2]; subst. exists l. split; [done|].
  unfold Iter_key. rewrite (bind_Ok _ _ _ tt s) by done. rewrite (bind_Ok _ _ _ l s) by done. by apply run_node_key.
Qed.

Lemma iter_at_Next s ks1 it k ks2 :
  iter_at s ks1 it (k :: ks2) → ∃ it', Iter_Next it s = Ok (it', s) ∧ iter_at s (ks1 ++ [k]) it' ks2.
Proof.
  intros (A & B & Hsh & HA & HB & ->). inversion HB as [|l k' B' ks' Hl HB' E1 E2]; subst. exists (head B'). split.
  - unfold Iter_Next. rewrite (bind_Ok _ _ _ tt s) by done. rewrite (bind_Ok _ _ _ l s) by done.
    apply run_Next. assert (A ++ l :: B' = (A ++ [l]) ++ ([] ++ B')) as E by (by rewrite <-app_assoc).
    pose proof (sh_max _ _ _ Hsh). pose proof (sh_height _ _ _ Hsh l ltac:(set_solver)).
    rewrite <-(last_of_snoc (head_ s) l A). rewrite (level_next compare_ s (A ++ l :: B') (A ++ [l]) [] B'); [|done|done|lia|rewrite last_of_snoc; lia].
    cbn. do 2 f_equal. apply at_level_0. intros l' ?. apply (sh_height _ _ _ Hsh). set_solver.
  - exists (A ++ [l]), B'. rewrite <-app_assoc. split_and!; [done| |done|done]. apply Forall2_app; [done|]. by constructor.
Qed.

Lemma compare_self k : key_order k k = 0%Z.
Proof. pose proof (compare_sym k k). lia. Qed.

(** The nodes before a node are those with keys before its key. *)
Lemma parted_self s A l B k : shape s (A ++ l :: B) → key_at s l = Some k → parted s k A (l :: B).
Proof.
  intros Hsh Hk. constructor; [eapply (key_wf compare_ s _ l); [done|set_solver|done]|..].
  - intros a Ha. destruct (shape_ordered compare_ s _ A (l :: B) a l Hsh eq_refl Ha) as (k' & E & Hb); [by left|]. congruence.
  - intros b Hb (kb & Eb & Hlt). apply elem_of_cons in Hb as [->|Hb].
    + rewrite Hk in Eb. injection Eb as <-. rewrite compare_self in Hlt. lia.
    + destruct (shape_ordered compare_ s _ (A ++ [l]) B l b Hsh) as (kb' & E & k' & E' & Hlt');
        [by rewrite <-app_assoc|set_solver|done|]. rewrite Hk in E'. rewrite Eb in E. injection E as <-. injection E' as <-.
      pose proof (compare_sym k kb). lia.
Qed.

Lemma iter_at_Prev s ks1 it k ks2 :
  iter_at s ks1 it (k :: ks2) →
  ∃ it', Iter_Prev compare_ it s = Ok (it', s) ∧
    match last ks1 with
    | None => it' = None
    | Some k' => iter_at s (take (length ks1 - 1) ks1) it' (k' :: k :: ks2)
    end.
Proof.
  intros (A & B & Hsh & HA & HB & ->). inversion HB as [|l k' B' ks' Hl HB' E1 E2]; subst.
  pose proof (run_FindLessThan s _ A (l :: B') k Hsh eq_refl (parted_self _ _ _ _ _ Hsh Hl)) as Hf.
  exists (if decide (last_of (head_ s) A = head_ s) then None else Some (last_of (head_ s) A)). split.
  - unfold Iter_Prev. rewrite (bind_Ok _ _ _ tt s) by done. rewrite (bind_Ok _ _ _ l s) by done.
    step (run_node_key _ _ _ Hl). step Hf. by rewrite (bind_Ok _ _ _ (head_ s) s).
  - destruct A as [|a A _] using rev_ind.
    { inversion HA; subst. cbn. by rewrite decide_True. }
    rewrite last_of_snoc.
    apply Forall2_app_inv_l in HA as (ka & kx & HA & Hx & ->). inversion Hx as [|? k1 ? ? Ha Hnil]; subst. inversion Hnil; subst.
    rewrite last_snoc. rewrite decide_False.
    + rewrite length_app. cbn [length]. rewrite Nat.add_sub, take_app_length. exists A, (a :: l :: B').
      split_and!; [by rewrite <-app_assoc in Hsh|done| |done]. by repeat constructor.
    + pose proof (sh_nodup _ _ _ Hsh) as [Hnd _]%NoDup_cons. intros ->. set_solver.
Qed.

(** All keys from an iterator on, forwards and backwards. *)
Fixpoint scan (n : nat) (it : option positive) : prog (SkipList Key) (list Key) :=
  match it, n with
  | None, _ => mret []
  | Some _, O => fail OutOfFuel
  | Some _, S n => k ← Iter_key it; it ← Iter_Next it; ks ← scan n it; mret (k :: ks)
  end.
Fixpoint scan_back (n : nat) (it : option positive) : prog (SkipList Key) (list Key) :=
  match it, n with
  | None, _ => mret []
  | Some _, O => fail OutOfFuel
  | Some _, S n => k ← Iter_key it; it ← Iter_Prev compare_ it; ks ← scan_back n it; mret (k :: ks)
  end.

Lemma run_scan s ks2 : ∀ ks1 it n, iter_at s ks1 it ks2 → length ks2 ≤ n → scan n it s = Ok (ks2, s).
Proof.
  induction ks2 as [|k ks2 IH]; intros ks1 it n Hat Hn; [rewrite (iter_at_end _ _ _ Hat); by destruct n|].
  destruct (iter_at_cons _ _ _ _ _ Hat) as (l & El & Hk). destruct (iter_at_Next _ _ _ _ _ Hat) as (it' & Hnx & Hat').
  destruct n as [|n]; cbn in Hn; [lia|]. rewrite El in *. cbn [scan]. step Hk. step Hnx. by step (IH _ _ n Hat' ltac:(lia)).
Qed.

Lemma run_scan_back s n : ∀ ks1 it k ks2,
  iter_at s ks1 it (k :: ks2) → length ks1 < n → scan_back n it s = Ok (k :: reverse ks1, s).
Proof.
  induction n as [|n IH]; intros ks1 it k ks2 Hat Hn; [lia|].
  destruct (iter_at_cons _ _ _ _ _ Hat) as (l & El & Hk). destruct (iter_at_Prev _ _ _ _ _ Hat) as (it' & Hp & Hl).
  rewrite El in *. cbn [scan_back]. step Hk. step Hp. destruct ks1 as [|k1 ks1 _] using rev_ind.
  - cbn in Hl. subst it'. by destruct n.
  - rewrite last_snoc, length_app in Hl. cbn [length] in Hl. rewrite Nat.add_sub, take_app_length in Hl.
    rewrite length_app in Hn. cbn in Hn. step (IH _ _ _ _ Hl ltac:(lia)). by rewrite reverse_snoc.
Qed.

Lemma insert_spec s ks k :
  skip_list s ks → wf_key compare_ k →
  if has_key key_order k ks then SkipList_Insert compare_ k s = Err AssertFailed
  else ∃ s', SkipList_Insert compare_ k s = Ok (tt, s') ∧ skip_list s' (insert_key key_order k ks).
Proof.
  intros (L & Hsh & Hh & Hk) Hw. destruct (place s L ks k Hsh Hk Hw) as (A & B & ka & kb & HL & Hks & HA & HB & Hpt & -> & _).
  rewrite (has_key_place s L ks k A B ka kb) by done. destruct kb as [|k0 kb].
  - inversion HB; subst B. destruct (run_Insert compare_ s L A [] k Hsh Hh HL Hpt) as (s' & x & Hr & Hsh' & Hh' & Hx & Hold); [done|].
    exists s'. split; [done|]. exists (A ++ [x]). split_and!; [done..|].
    apply Forall2_app; [|by repeat constructor]. eapply keys_kept; [exact HA|]. intros l Hl. apply Hold. rewrite HL. set_solver.
  - inversion HB as [|l ? B' ? Hl HB' E1 E2]; subst. destruct (Z.eqb_spec (key_order k k0) 0) as [E|Hne].
    + eapply run_Insert_present; [done..|exact Hpt|done|done|done].
    + destruct (run_Insert compare_ s _ A (l :: B') k Hsh Hh eq_refl Hpt) as (s' & x & Hr & Hsh' & Hh' & Hx & Hold).
      { intros l' k' [= <-]. congruence. }
      exists s'. split; [done|]. exists (A ++ x :: l :: B'). split_and!; [done..|].
      apply Forall2_app; [eapply keys_kept; [exact HA|]; intros; apply Hold; set_solver|].
      constructor; [done|]. eapply keys_kept; [exact HB|]. intros. apply Hold. set_solver.
Qed.

(** The searches leave the list as it is. *)
Lemma seek_spec s ks k :
  skip_list s ks → wf_key compare_ k →
  ∃ ks1 it, Iter_Seek compare_ k s = Ok (it, s) ∧ iter_at s ks1 it (seek_key key_order k ks).
Proof.
  intros (L & Hsh & Hh & Hk) Hw. destruct (place s L ks k Hsh Hk Hw) as (A & B & ka & kb & HL & Hks & HA & HB & Hpt & _ & ->).
  exists ka, (head B). split; [by eapply (run_FindGreaterOrEqual compare_)|]. exists A, B. by rewrite <-HL.
Qed.

Lemma contains_spec s ks k : skip_list s ks → wf_key compare_ k →
  Contains compare_ k s = Ok (has_key key_order k ks, s).
Proof.
  intros (L & Hsh & Hh & Hk) Hw. destruct (place s L ks k Hsh Hk Hw) as (A & B & ka & kb & HL & Hks & HA & HB & Hpt & _ & _).
  rewrite (has_key_place s L ks k A B ka kb) by done. unfold Contains.
  step (run_FindGreaterOrEqual compare_ s L A B k Hsh HL Hpt). destruct HB as [|l k0 B kb Hl _]; [done|]. cbn [head].
  step (run_node_key _ _ _ Hl). apply lift_Ok, run_Equal; [done|]. eapply (key_wf compare_ s L l); [done|rewrite HL; set_solver|done].
Qed.

Lemma first_spec s ks : skip_list s ks → ∃ it, Iter_SeekToFirst s = Ok (it, s) ∧ iter_at s [] it ks.
Proof.
  intros (L & Hsh & _ & Hk). exists (head L). pose proof (sh_max _ _ _ Hsh). split; [|exists [], L; split_and!; [done|apply Forall2_nil_2|done..]].
  unfold Iter_SeekToFirst. rewrite (bind_Ok _ _ _ (head_ s) s) by done. apply run_Next.
  rewrite (level_next compare_ s L [] [] L); [|done|done|lia|cbn; rewrite (sh_head _ _ _ Hsh); lia].
  cbn. do 2 f_equal. apply at_level_0. intros. by apply (sh_height _ _ _ Hsh).
Qed.

Lemma last_spec s ks :
  skip_list s ks → ∃ it, Iter_SeekToLast s = Ok (it, s) ∧
    match last ks with None => it = None | Some k => iter_at s (take (length ks - 1) ks) it [k] end.
Proof.
  intros (L & Hsh & _ & Hk). exists (if decide (last_of (head_ s) L = head_ s) then None else Some (last_of (head_ s) L)). split.
  - unfold Iter_SeekToLast. step (run_FindLast s L Hsh). by rewrite (bind_Ok _ _ _ (head_ s) s).
  - destruct L as [|a A _] using rev_ind; [inversion Hk; subst; by rewrite decide_True|]. rewrite last_of_snoc.
    apply Forall2_app_inv_l in Hk as (ka & kx & HA & Hx & ->). inversion Hx as [|? k1 ? ? Ha Hnil]; subst. inversion Hnil; subst.
    rewrite last_snoc, decide_False.
    + rewrite length_app. cbn [length]. rewrite Nat.add_sub, take_app_length. exists A, [a]. split_and!; [done..| |done].
      by repeat constructor.
    + pose proof (sh_nodup _ _ _ Hsh) as [Hnd _]%NoDup_cons. intros ->. set_solver.
Qed.

Lemma new_spec (max_height : nat) (branching : Z) :
  0 < max_height → (0 < branching)%Z → ∃ s, SkipList_new max_height branching = Ok s ∧ skip_list s [].
Proof.
  intros Hm Hb. unfold SkipList_new. rewrite bool_decide_true, (proj2 (Z.ltb_lt _ _) Hb) by done. cbn [negb].
  eexists. split; [done|]. exists [].
  match goal with |- ?P ?s0 [] ∧ _ => set (s := s0) end.
  assert (height s 1 = max_height) as Hh.
  { unfold height, s. cbn [list_nodes]. rewrite lookup_singleton_eq. apply length_replicate. }
  assert (∀ i, i < max_height → link s 1 i = Some None) as Hl.
  { intros i Hi. unfold link, s. cbn [list_nodes]. rewrite lookup_singleton_eq. cbn [mbind option_bind next_]. by rewrite lookup_replicate_2. }
  split_and!; [constructor|exists [], []|apply Forall2_nil_2].
  - repeat constructor. set_solver.
  - done.
  - by intros l ?%not_elem_of_nil.
  - by intros l ?%not_elem_of_nil.
  - constructor.
  - intros i Hi. by apply Hl.
  - cbn. lia.
  - intros l [n Hn]. unfold s in Hn. cbn [list_nodes] in Hn. apply lookup_singleton_Some in Hn as [<- _]. cbn. lia.
  - apply length_replicate.
  - split_and!; [done|by apply lookup_replicate_2|cbn; lia|cbn; lia| |cbn; intros; lia].
    change (1 ≤ height s 1). lia.
Qed.

(** ** Properties *)

(** C12: [Insert] puts a new key at its place.  A skip list with the keys [ks] becomes one
    with the key inserted among them, whatever heights the generator gives and whether
    the search starts at the remembered place or at the head; the search ends, and none
    of its assertions fails.  A key that compares equal to one in the list fails the
    assertion of [Insert]. *)
Theorem Insert_inserts s ks k :
  skip_list s ks → wf_key compare_ k →
  if has_key key_order k ks then SkipList_Insert compare_ k s = Err AssertFailed
  else ∃ s', SkipList_Insert compare_ k s = Ok (tt, s') ∧ skip_list s' (insert_key key_order k ks).
Proof. apply insert_spec. Qed.

(** C27: lookups and iterators of a skip list.  [Contains] tells whether a key is there.
    [Seek] and [SeekToFirst] followed by [Next] give the keys in order, from the first on
    that is not before the target and from the beginning; [SeekToLast] followed by [Prev]
    gives them in reverse order.  All of them end and leave the list as it is. *)
Theorem iterators_correct s ks k n :
  skip_list s ks → wf_key compare_ k → length ks ≤ n →
  Contains compare_ k s = Ok (has_key key_order k ks, s) ∧
  (it ← Iter_Seek compare_ k; scan n it) s = Ok (seek_key key_order k ks, s) ∧
  (it ← Iter_SeekToFirst; scan n it) s = Ok (ks, s) ∧
  (it ← Iter_SeekToLast; scan_back n it) s = Ok (reverse ks, s).
Proof.
  intros Hs Hw Hn. split_and!; [by apply contains_spec|..].
  - destruct (seek_spec s ks k Hs Hw) as (ks1 & it & Hr & Hat). step Hr. eapply run_scan; [done|].
    etrans; [|done]. clear. induction ks as [|k' ks IH]; cbn; [done|]. case_match; cbn; lia.
  - destruct (first_spec s ks Hs) as (it & Hr & Hat). step Hr. by eapply run_scan.
  - destruct (last_spec s ks Hs) as (it & Hr & Hat). step Hr. destruct ks as [|k1 ks1 _] using rev_ind.
    + cbn in Hat. subst it. by destruct n.
    + rewrite last_snoc, length_app in Hat. cbn [length] in Hat. rewrite Nat.add_sub, take_app_length in Hat.
      rewrite length_app in Hn. cbn in Hn. rewrite (run_scan_back s n _ _ _ _ Hat) by lia. by rewrite reverse_snoc.
Qed.
End spec.

(** ** A concrete list *)

Definition ex_compare (a b : Z) : outcome Z := Ok (a - b)%Z.

#[export] Instance ex_Comparator : Comparator ex_compare.
Proof. exists (λ _, True) Z.sub; [done|lia..]. Defined.

Definition ex_list : SkipList Z :=
  match SkipList_new 12 4 ≫= (λ s, (SkipList_Insert ex_compare 30;; SkipList_Insert ex_compare 10;; SkipList_Insert ex_compare 20)%Z s) with
  | Ok (_, s) => s
  | Err _ => mkSkipList ∅ 1%positive 0 0 1%positive 0 [] 0 0
  end.

Lemma ex_list_ok : skip_list ex_compare ex_list [10; 20; 30]%Z.
Proof.
  destruct (new_spec ex_compare 12 4) as (s0 & E0 & H0); [lia..|].
  destruct (insert_spec ex_compare s0 [] 30%Z H0 I) as (s1 & E1 & H1). destruct (insert_spec ex_compare s1 [30%Z] 10%Z H1 I) as (s2 & E2 & H2).
  destruct (insert_spec ex_compare s2 [10; 30]%Z 20%Z H2 I) as (s3 & E3 & H3).
  assert (ex_list = s3) as ->; [|exact H3]. unfold ex_list. rewrite E0. cbn [mbind outcome_bind]. step E1. step E2. by rewrite E3.
Qed.

Lemma Insert_inserts_witness :
  SkipList_Insert ex_compare 20%Z ex_list = Err AssertFailed ∧
  ∃ s', SkipList_Insert ex_compare 25%Z ex_list = Ok (tt, s') ∧ skip_list ex_compare s' [10; 20; 25; 30]%Z.
Proof.
  split.
  - exact (Insert_inserts ex_compare ex_list [10; 20; 30]%Z 20%Z ex_list_ok I).
  - exact (Insert_inserts ex_compare ex_list [10; 20; 30]%Z 25%Z ex_list_ok I).
Defined.

Lemma iterators_correct_witness :
  Contains ex_compare 20%Z ex_list = Ok (true, ex_list) ∧
  (it ← Iter_Seek ex_compare 15%Z; scan 3 it) ex_list = Ok ([20; 30]%Z, ex_list) ∧
  (it ← Iter_SeekToLast; scan_back ex_compare 3 it) ex_list = Ok ([30; 20; 10]%Z, ex_list).
Proof.
  destruct (iterators_correct ex_compare ex_list [10; 20; 30]%Z 20%Z 3 ex_list_ok I) as (H1 & _ & _ & H4); [cbn; lia|].
  destruct (iterators_correct ex_compare ex_list [10; 20; 30]%Z 15%Z 3 ex_list_ok I) as (_ & H2 & _); [cbn; lia|].
  split; [exact H1|]. split; [exact H2|exact H4].
Defined.
