(* ===== verification/DbFormat.v ===== *)
(** * RocksDB: internal keys

    Models [src/src/rocksdb/db/dbformat.h], [dbformat.cc], [util/comparator.cc] and
    [Slice::compare] of [include/rocksdb/slice.h]: a user key together with the number of
    the write and its type, the order of these internal keys, the shorter keys that
    separate two others, and the keys to look up.

    A user comparator is the object a database is opened with; the two of the library are
    [BytewiseComparator] and [ReverseBytewiseComparator]. *)

From S2P Require Import Prelude Varint Coding WriteBatch.

(** ** Comparing strings *)

(** The standard gives the sign of the result of [memcmp]. *)
Fixpoint memcmp (a b : bytes) : Z :=
  match a, b with
  | x :: a, y :: b =>
      if Z.ltb (byte.unsigned x) (byte.unsigned y) then -1
      else if Z.ltb (byte.unsigned y) (byte.unsigned x) then 1
      else memcmp a b
  | _, _ => 0
  end.

Definition Slice_compare (a b : bytes) : Z :=
  let min_len := if decide (length a < length b) then length a else length b in
  let r := memcmp (take min_len a) (take min_len b) in
  if Z.eqb r 0 then
    if decide (length a < length b) then -1
    else if decide (length b < length a) then 1 else r
  else r.

(** ** Comparators *)

(** The virtual methods of [Comparator]. *)
Record UserComparator := mkComparator {
  Compare : bytes → bytes → Z;
  FindShortestSeparator : bytes → bytes → outcome bytes;
  FindShortSuccessor : bytes → bytes;
}.

(** The length of the common prefix. *)
Fixpoint diff_index (start limit : bytes) : nat :=
  match start, limit with
  | x :: start, y :: limit =>
      if Z.eqb (byte.unsigned x) (byte.unsigned y) then S (diff_index start limit) else 0
  | _, _ => 0
  end.

Definition bytewise_separator (Compare : bytes → bytes → Z) (start limit : bytes) : outcome bytes :=
  let min_length := Nat.min (length start) (length limit) in
  let diff := diff_index start limit in
  if decide (min_length ≤ diff) then Ok start else
  x ← of_option OutOfBounds (start !! diff);
  y ← of_option OutOfBounds (limit !! diff);
  let diff_byte := byte.unsigned x in
  if Z.ltb diff_byte 0xff && Z.ltb (diff_byte + 1) (byte.unsigned y) then
    let start := take (diff + 1) (<[diff := byte.of_Z (diff_byte + 1)]> start) in
    if Z.ltb (Compare start limit) 0 then Ok start else Err AssertFailed
  else Ok start.

(** The loop finds the first byte that can be incremented; what is left out by [resize] is
    never looked at again. *)
Fixpoint bytewise_successor (key : bytes) : option bytes :=
  match key with
  | [] => None
  | b :: key =>
      if negb (Z.eqb (byte.unsigned b) 0xff) then Some [byte.of_Z (byte.unsigned b + 1)]
      else match bytewise_successor key with Some key => Some (b :: key) | None => None end
  end.

Definition BytewiseComparator : UserComparator := {|
  Compare := Slice_compare;
  FindShortestSeparator := bytewise_separator Slice_compare;
  FindShortSuccessor key := default key (bytewise_successor key);
|}.

(** Only [Compare] is overridden; the inherited assertion calls the new one. *)
Definition ReverseBytewiseComparator : UserComparator :=
  let compare a b := (- Slice_compare a b)%Z in {|
  Compare := compare;
  FindShortestSeparator := bytewise_separator compare;
  FindShortSuccessor key := default key (bytewise_successor key);
|}.

(** ** Internal keys *)

Definition kMaxValue : Z := 0x7F.
Definition kValueTypeForSeek : Z := kTypeMerge.
Definition kMaxSequenceNumber : Z := 2 ^ 56 - 1.

Record ParsedInternalKey := mkParsed { user_key : bytes; sequence : Z; type : Z }.

#[export] Instance ParsedInternalKey_eq_dec : EqDecision ParsedInternalKey.
Proof. solve_decision. Defined.

Definition InternalKeyEncodingLength (key : ParsedInternalKey) : nat := length (user_key key) + 8.

Definition PackSequenceAndType (seq t : Z) : outcome Z :=
  if negb (Z.leb seq kMaxSequenceNumber) then Err AssertFailed
  else if negb (Z.leb t kValueTypeForSeek) then Err AssertFailed
  else Ok (Z.lor (u64 (Z.shiftl seq 8)) t).

Definition AppendInternalKey (result : bytes) (key : ParsedInternalKey) : outcome bytes :=
  n ← PackSequenceAndType (sequence key) (type key);
  mret (PutFixed64 (result ++ user_key key) n).

(** [DecodeFixed64(key.data() + key.size() - 8)] *)
Definition key_number (internal_key : bytes) : outcome Z :=
  if decide (length internal_key < 8) then Err OutOfBounds
  else DecodeFixed64 (drop (length internal_key - 8) internal_key).

Definition ExtractUserKey (internal_key : bytes) : outcome bytes :=
  if decide (8 ≤ length internal_key) then Ok (take (length internal_key - 8) internal_key)
  else Err AssertFailed.

Definition ExtractValueType (internal_key : bytes) : outcome Z :=
  if decide (8 ≤ length internal_key) then num ← key_number internal_key; mret (Z.land num 0xff)
  else Err AssertFailed.

Definition GetInternalKeySeqno (internal_key : bytes) : outcome Z :=
  if decide (8 ≤ length internal_key) then num ← key_number internal_key; mret (Z.shiftr num 8)
  else Err AssertFailed.

(** Whether the key is valid, and what was stored in the result. *)
Definition ParseInternalKey (internal_key : bytes) : outcome (bool * option ParsedInternalKey) :=
  let n := length internal_key in
  if decide (n < 8) then Ok (false, None) else
  num ← key_number internal_key;
  let c := Z.land num 0xff in
  if negb (Z.leb c kMaxValue) then Err AssertFailed
  else Ok (Z.leb c kValueTypeForSeek, Some (mkParsed (take (n - 8) internal_key) (Z.shiftr num 8) c)).

Definition UpdateInternalKey (internal_key : bytes) (seq t : Z) : outcome bytes :=
  if decide (8 ≤ length internal_key) then
    let newval := Z.lor (u64 (Z.shiftl seq 8)) t in
    Ok (take (length internal_key - 8) internal_key ++ EncodeFixed64 newval)
  else Err AssertFailed.

(** The class [InternalKey] wraps the string. *)
Record InternalKey := mkInternalKey { ik_rep : bytes }.

Definition InternalKey_new (k : bytes) (s t : Z) : outcome InternalKey :=
  r ← AppendInternalKey [] (mkParsed k s t); mret (mkInternalKey r).
Definition InternalKey_Valid (k : InternalKey) : outcome bool :=
  x ← ParseInternalKey (ik_rep k); mret (fst x).
Definition DecodeFrom (s : bytes) : InternalKey := mkInternalKey s.
Definition InternalKey_Encode (k : InternalKey) : outcome bytes :=
  match ik_rep k with [] => Err AssertFailed | r => Ok r end.
Definition SetFrom (p : ParsedInternalKey) : outcome InternalKey :=
  r ← AppendInternalKey [] p; mret (mkInternalKey r).

(** ** The order of internal keys *)

Section comparator.
Context (user_comparator : UserComparator).

Definition InternalKeyComparator_Compare (akey bkey : bytes) : outcome Z :=
  ua ← ExtractUserKey akey;
  ub ← ExtractUserKey bkey;
  let r := Compare user_comparator ua ub in
  if Z.eqb r 0 then
    anum ← key_number akey;
    bnum ← key_number bkey;
    mret (if Z.ltb bnum anum then -1 else if Z.ltb anum bnum then 1 else r)%Z
  else mret r.

Definition CompareParsed (a b : ParsedInternalKey) : Z :=
  let r := Compare user_comparator (user_key a) (user_key b) in
  if Z.eqb r 0 then
    if Z.ltb (sequence b) (sequence a) then -1
    else if Z.ltb (sequence a) (sequence b) then 1
    else if Z.ltb (type b) (type a) then -1
    else if Z.ltb (type a) (type b) then 1
    else r
  else r.

Definition CompareKeys (a b : InternalKey) : outcome Z :=
  x ← InternalKey_Encode a; y ← InternalKey_Encode b; InternalKeyComparator_Compare x y.

(** [assert(this->Compare(a, b) < 0)] *)
Definition assert_before (a b : bytes) : outcome unit :=
  r ← InternalKeyComparator_Compare a b; if Z.ltb r 0 then Ok tt else Err AssertFailed.

Definition InternalKeyComparator_FindShortestSeparator (start limit : bytes) : outcome bytes :=
  user_start ← ExtractUserKey start;
  user_limit ← ExtractUserKey limit;
  tmp ← FindShortestSeparator user_comparator user_start user_limit;
  if bool_decide (length tmp < length user_start) && Z.ltb (Compare user_comparator user_start tmp) 0 then
    n ← PackSequenceAndType kMaxSequenceNumber kValueTypeForSeek;
    let tmp := PutFixed64 tmp n in
    _ ← assert_before start tmp;
    _ ← assert_before tmp limit;
    mret tmp
  else mret start.

Definition InternalKeyComparator_FindShortSuccessor (key : bytes) : outcome bytes :=
  user_key ← ExtractUserKey key;
  let tmp := FindShortSuccessor user_comparator user_key in
  if bool_decide (length tmp < length user_key) && Z.ltb (Compare user_comparator user_key tmp) 0 then
    n ← PackSequenceAndType kMaxSequenceNumber kValueTypeForSeek;
    let tmp := PutFixed64 tmp n in
    _ ← assert_before key tmp;
    mret tmp
  else mret key.
End comparator.

(** ** Lookup keys *)

(** The array from [start_] to [end_], and the offset of [kstart_] in it. *)
Record LookupKey := mkLookupKey { lk_array : bytes; lk_kstart : nat }.

(** The array is [13] bytes longer than the key: five for the length, eight for the tag. *)
Definition LookupKey_new (_user_key : bytes) (s : Z) : outcome LookupKey :=
  let len := EncodeVarint32 (u32 (Z.of_nat (length _user_key + 8))) in
  n ← PackSequenceAndType s kValueTypeForSeek;
  mret (mkLookupKey (len ++ _user_key ++ EncodeFixed64 n) (length len)).

Definition memtable_key (k : LookupKey) : bytes := lk_array k.
Definition internal_key (k : LookupKey) : bytes := drop (lk_kstart k) (lk_array k).
Definition lookup_user_key (k : LookupKey) : bytes :=
  take (length (lk_array k) - lk_kstart k - 8) (internal_key k).
