(* ===== verification/DbFormatLaws.v ===== *)
(** * RocksDB: the order of internal keys

    The comparators of the library are total orders and their separators separate; on
    internal keys the comparator orders by user key, then by falling sequence number. *)

From S2P Require Import Prelude Varint Coding WriteBatch DbFormat.

(** ** Strings *)

(** The order of strings: byte by byte, a prefix first. *)
Fixpoint lex (a b : bytes) : Z :=
  match a, b with
  | [], [] => 0
  | [], _ :: _ => -1
  | _ :: _, [] => 1
  | x :: a, y :: b =>
      if Z.ltb (byte.unsigned x) (byte.unsigned y) then -1
      else if Z.ltb (byte.unsigned y) (byte.unsigned x) then 1
      else lex a b
  end.

Lemma min_len (a b : bytes) : (if decide (length a < length b) then length a else length b) = Nat.min (length a) (length b).
Proof. case_decide; lia. Qed.

Lemma Slice_compare_lex a b : Slice_compare a b = lex a b.
Proof.
  unfold Slice_compare. rewrite min_len. revert b. induction a as [|x a IH]; intros [|y b]; [done..|].
  specialize (IH b). cbn [length Nat.min take memcmp lex] in *. repeat case_match; try done; lia.
Qed.

Lemma lex_range a b : lex a b = (-1)%Z ∨ lex a b = 0%Z ∨ lex a b = 1%Z.
Proof. revert b. induction a as [|x a IH]; intros [|y b]; cbn [lex]; eauto. repeat case_match; eauto. Qed.

Lemma lex_sym a b : lex a b = (- lex b a)%Z.
Proof.
  revert b. induction a as [|x a IH]; intros [|y b]; cbn [lex]; try done.
  destruct (Z.ltb_spec (byte.unsigned x) (byte.unsigned y)), (Z.ltb_spec (byte.unsigned y) (byte.unsigned x)); try done; lia.
Qed.

Lemma lex_eq a b : lex a b = 0%Z ↔ a = b.
Proof.
  split; [|intros <-; pose proof (lex_sym a a); lia]. revert b. induction a as [|x a IH]; intros [|y b]; cbn [lex]; try done.
  repeat case_match; try done. intros E. f_equal; [|by apply IH]. apply byte.unsigned_inj. lia.
Qed.

Lemma lex_trans a b c : (lex a b < 0)%Z → (lex b c < 0)%Z → (lex a c < 0)%Z.
Proof.
  revert b c. induction a as [|x a IH]; intros [|y b] [|z c]; cbn [lex]; try lia.
  destruct (Z.ltb_spec (byte.unsigned x) (byte.unsigned y)), (Z.ltb_spec (byte.unsigned y) (byte.unsigned x)),
    (Z.ltb_spec (byte.unsigned y) (byte.unsigned z)), (Z.ltb_spec (byte.unsigned z) (byte.unsigned y)),
    (Z.ltb_spec (byte.unsigned x) (byte.unsigned z)), (Z.ltb_spec (byte.unsigned z) (byte.unsigned x)); try lia.
  apply IH.
Qed.

(** ** Comparators *)

(** What the documentation of [Comparator] asks: a total order, and separators that lie
    between the two keys. *)
Class UserComparatorLaws (c : UserComparator) : Prop := {
  user_sym a b : Z.sgn (Compare c a b) = (- Z.sgn (Compare c b a))%Z;
  user_trans a b d : (Compare c a b < 0)%Z → (Compare c b d < 0)%Z → (Compare c a d < 0)%Z;
  user_equal a b d : Compare c a b = 0%Z → (Compare c b d < 0)%Z → (Compare c a d < 0)%Z;
  user_separator start limit : (Compare c start limit < 0)%Z →
    ∃ r, FindShortestSeparator c start limit = Ok r ∧ (Compare c start r ≤ 0)%Z ∧ (Compare c r limit < 0)%Z;
  user_separator_equal start limit : Compare c start limit = 0%Z → FindShortestSeparator c start limit = Ok start;
}.

(** The strings have a common prefix and differ in the byte after it. *)
Lemma diff_index_split a b :
  diff_index a b < Nat.min (length a) (length b) →
  ∃ p x y a' b', a = p ++ x :: a' ∧ b = p ++ y :: b' ∧ length p = diff_index a b ∧ byte.unsigned x ≠ byte.unsigned y.
Proof.
  revert b. induction a as [|x a IH]; intros [|y b]; cbn [diff_index length]; try lia.
  destruct (Z.eqb_spec (byte.unsigned x) (byte.unsigned y)) as [E|E]; intros Hd.
  - destruct (IH b) as (p & x' & y' & a' & b' & -> & -> & Hp & Hne); [lia|]. apply byte.unsigned_inj in E as ->.
    exists (y :: p), x', y', a', b'. cbn. by rewrite Hp.
  - by exists [], x, y, a, b.
Qed.

Lemma lex_prefix p a b : lex (p ++ a) (p ++ b) = lex a b.
Proof. induction p as [|x p IH]; [done|]. cbn. by rewrite Z.ltb_irrefl. Qed.

Lemma lex_first x y a b : (byte.unsigned x < byte.unsigned y)%Z → lex (x :: a) (y :: b) = (-1)%Z.
Proof. intros Hlt. cbn. by rewrite (proj2 (Z.ltb_lt _ _) Hlt). Qed.

(** The separator of the library: either the key itself, or its common prefix with the
    limit followed by one byte between the two. *)
Lemma bytewise_separator_cases cmp start limit :
  bytewise_separator cmp start limit = Ok start ∨
  ∃ p x z y a' b', start = p ++ x :: a' ∧ limit = p ++ y :: b' ∧
    (byte.unsigned x < byte.unsigned z < byte.unsigned y)%Z ∧
    bytewise_separator cmp start limit =
      if Z.ltb (cmp (p ++ [z]) limit) 0 then Ok (p ++ [z]) else Err AssertFailed.
Proof.
  unfold bytewise_separator. case_decide as Hd; [by left|].
  destruct (diff_index_split start limit) as (p & x & y & a' & b' & Ha & Hb & Hp & Hne); [lia|].
  rewrite <-Hp. subst start limit. rewrite !lookup_app_r, Nat.sub_diag by lia. cbn [lookup list_lookup]. mred.
  destruct (Z.ltb_spec (byte.unsigned x) 255), (Z.ltb_spec (byte.unsigned x + 1) (byte.unsigned y)); cbn [andb]; eauto.
  right. exists p, x, (byte.of_Z (byte.unsigned x + 1)), y, a', b'. split_and!; try done.
  - rewrite byte.unsigned_of_Z. pose proof (byte.unsigned_range x). unfold byte.wrap. rewrite Z.mod_small by lia. lia.
  - rewrite byte.unsigned_of_Z. pose proof (byte.unsigned_range x). unfold byte.wrap. rewrite Z.mod_small by lia. lia.
  - set (z := byte.of_Z _). replace (take (length p + 1) (<[length p := z]> (p ++ x :: a'))) with (p ++ [z]); [done|].
    rewrite <-(Nat.add_0_r (length p)) at 2. rewrite insert_app_r. cbn [insert list_insert].
    rewrite (cons_middle z p a'), app_assoc, take_app_length'; [done|]. rewrite length_app. cbn. lia.
Qed.

#[export] Instance Bytewise_laws : UserComparatorLaws BytewiseComparator.
Proof.
  constructor; cbn; intros *; rewrite ?Slice_compare_lex; try (rewrite ?(lex_sym b a); lia); [by apply lex_trans|..].
  - by intros ->%lex_eq.
  - intros Hlt. destruct (bytewise_separator_cases Slice_compare start limit) as [->|(p & x & z & y & a' & b' & -> & -> & Hz & ->)].
    + exists start. rewrite !Slice_compare_lex. split_and!; [done| |done]. by rewrite (proj2 (lex_eq start start) eq_refl).
    + rewrite Slice_compare_lex, lex_prefix, lex_first by lia. exists (p ++ [z]).
      rewrite !Slice_compare_lex, !lex_prefix, !lex_first by lia. by split_and!.
  - intros ->%lex_eq. destruct (bytewise_separator_cases Slice_compare limit limit) as [->|(p & x & z & y & a' & b' & E & E' & Hz & _)]; [done|].
    rewrite E in E'. apply app_inv_head in E'. injection E' as -> _. lia.
Qed.

(** Where the first key is after the second the separator is the key itself. *)
#[export] Instance ReverseBytewise_laws : UserComparatorLaws ReverseBytewiseComparator.
Proof.
  constructor; cbn; intros *; rewrite ?Slice_compare_lex; try (rewrite ?(lex_sym b a); lia).
  - rewrite (lex_sym a b), (lex_sym b d), (lex_sym a d). intros H1 H2. pose proof (lex_trans d b a). lia.
  - intros E. by rewrite (proj1 (lex_eq a b)) by lia.
  - intros Hlt. destruct (bytewise_separator_cases (λ a b, - Slice_compare a b)%Z start limit)
      as [->|(p & x & z & y & a' & b' & -> & -> & Hz & _)].
    + exists start. rewrite !Slice_compare_lex. split_and!; [done| |done]. by rewrite (proj2 (lex_eq start start) eq_refl).
    + rewrite lex_prefix, lex_first in Hlt by lia. lia.
  - intros E. assert (lex start limit = 0%Z) as ->%lex_eq by lia.
    destruct (bytewise_separator_cases (λ a b, - Slice_compare a b)%Z limit limit) as [->|(p & x & z & y & a' & b' & E1 & E' & Hz & _)]; [done|].
    rewrite E1 in E'. apply app_inv_head in E'. injection E' as -> _. lia.
Qed.

(** The successor of the library is never before the key. *)
Lemma bytewise_successor_after key r : bytewise_successor key = Some r → (lex key r < 0)%Z ∧ length r ≤ length key.
Proof.
  revert r. induction key as [|b key IH]; intros r; cbn [bytewise_successor]; [done|].
  destruct (Z.eqb_spec (byte.unsigned b) 255) as [E|E]; cbn [negb].
  - destruct (bytewise_successor key) as [r'|]; [|done]. intros [= <-]. cbn. rewrite Z.ltb_irrefl.
    destruct (IH r' eq_refl). split; [done|lia].
  - intros [= <-]. cbn. pose proof (byte.unsigned_range b). rewrite byte.unsigned_of_Z. unfold byte.wrap.
    rewrite Z.mod_small by lia. rewrite (proj2 (Z.ltb_lt _ _)) by lia. split; [done|lia].
Qed.

(** ** Numbers *)

Lemma pack_number seq t :
  (0 ≤ seq ≤ kMaxSequenceNumber)%Z → (0 ≤ t < 256)%Z → Z.lor (u64 (Z.shiftl seq 8)) t = (seq * 256 + t)%Z.
Proof.
  unfold kMaxSequenceNumber. intros Hs Ht. rewrite Z.shiftl_mul_pow2, Z.mod_small by lia.
  change (2 ^ 8)%Z with 256%Z. symmetry. rewrite <-Z.add_lor_land.
  replace (Z.land (seq * 256) t) with 0%Z; [lia|]. symmetry. apply Z.bits_inj'. intros i Hi. rewrite Z.land_spec, Z.bits_0.
  change 256%Z with (2 ^ 8)%Z. rewrite Z.mul_pow2_bits by lia. destruct (decide (i < 8)%Z).
  - by rewrite Z.testbit_neg_r by lia.
  - rewrite <-(Z.mod_small t (2 ^ 8)) by lia. rewrite Z.mod_pow2_bits_high by lia. apply andb_false_r.
Qed.

Lemma unpack_number seq t :
  (0 ≤ t < 256)%Z → Z.shiftr (seq * 256 + t) 8 = seq ∧ Z.land (seq * 256 + t) 0xff = t.
Proof.
  intros Ht. rewrite Z.shiftr_div_pow2 by lia. change 0xff%Z with (Z.ones 8). rewrite Z.land_ones by lia.
  change (2 ^ 8)%Z with 256%Z. split.
  - rewrite Z.div_add_l by lia. rewrite Z.div_small by lia. lia.
  - rewrite Z.add_comm, Z.mod_add by lia. by apply Z.mod_small.
Qed.

(** ** Internal keys as pairs *)

(** The user key and the number of a string, cut off as well as the length allows. *)
Definition key_user (k : bytes) : bytes := take (length k - 8) k.
Definition key_num (k : bytes) : Z := le_combine (drop (length k - 8) k).

Definition is_internal (k : bytes) : Prop := 8 ≤ length k.

Lemma run_ExtractUserKey k : is_internal k → ExtractUserKey k = Ok (key_user k).
Proof. intros Hk. unfold ExtractUserKey. by rewrite decide_True. Qed.

Lemma run_key_number k : is_internal k → key_number k = Ok (key_num k).
Proof.
  unfold is_internal, key_number, key_num, DecodeFixed64. intros Hk. rewrite decide_False by lia.
  assert (length (drop (length k - 8) k) = 8) as Hd by (rewrite length_drop; lia).
  rewrite has_bytes_true by lia. rewrite take_ge by lia. done.
Qed.

(** The key with user key [k] and number [n]. *)
Definition internal (k : bytes) (n : Z) : bytes := k ++ EncodeFixed64 n.

Lemma internal_is k n : is_internal (internal k n).
Proof. unfold is_internal, internal. rewrite length_app, length_EncodeFixed64. lia. Qed.

Lemma internal_user k n : key_user (internal k n) = k.
Proof.
  unfold key_user, internal. rewrite length_app, length_EncodeFixed64, Nat.add_sub. by apply take_app_length.
Qed.

Lemma internal_num k n : is_u64 n → key_num (internal k n) = n.
Proof.
  intros Hn. unfold key_num, internal. rewrite length_app, length_EncodeFixed64, Nat.add_sub, drop_app_length.
  unfold EncodeFixed64. rewrite le_combine_split, Z.mod_small by (cbn; lia). done.
Qed.

(** A string of at least eight bytes is made of its parts. *)
Lemma internal_parts k : is_internal k → k = internal (key_user k) (key_num k) ∧ is_u64 (key_num k).
Proof.
  intros Hk. unfold is_internal in Hk. assert (length (drop (length k - 8) k) = 8) as Hd by (rewrite length_drop; lia).
  unfold internal, key_num, key_user, EncodeFixed64. split.
  - pose proof (split_le_combine (drop (length k - 8) k)) as E. rewrite Hd in E. by rewrite E, take_drop.
  - pose proof (le_combine_bound (drop (length k - 8) k)) as Hb. rewrite Hd in Hb. exact Hb.
Qed.

Lemma internal_inj k n k' n' : is_u64 n → is_u64 n' → internal k n = internal k' n' → k = k' ∧ n = n'.
Proof.
  intros Hn Hn' E. split; [by rewrite <-(internal_user k n), E, internal_user|].
  by rewrite <-(internal_num k n), E, internal_num.
Qed.

Section comparator.
Context (c : UserComparator) `{!UserComparatorLaws c}.

(** First by user key, then by falling number. *)
Definition internal_order (a b : bytes) : Z :=
  let r := Compare c (key_user a) (key_user b) in
  if Z.eqb r 0 then if Z.ltb (key_num b) (key_num a) then -1 else if Z.ltb (key_num a) (key_num b) then 1 else 0
  else r.

Lemma run_Compare a b :
  is_internal a → is_internal b → InternalKeyComparator_Compare c a b = Ok (internal_order a b).
Proof.
  intros Ha Hb. unfold InternalKeyComparator_Compare, internal_order. rewrite !run_ExtractUserKey by done. mred.
  destruct (Z.eqb_spec (Compare c (key_user a) (key_user b)) 0) as [E|]; [|done].
  rewrite !run_key_number by done. mred. by rewrite E.
Qed.

Lemma internal_order_sym a b : Z.sgn (internal_order a b) = (- Z.sgn (internal_order b a))%Z.
Proof.
  unfold internal_order. pose proof (user_sym (key_user a) (key_user b)).
  destruct (Z.eqb_spec (Compare c (key_user a) (key_user b)) 0), (Z.eqb_spec (Compare c (key_user b) (key_user a)) 0); try lia.
  destruct (Z.ltb_spec (key_num b) (key_num a)), (Z.ltb_spec (key_num a) (key_num b)); lia.
Qed.

(** What is known of the comparison of three user keys. *)
Lemma user_mixed a b d :
  (Compare c a b ≤ 0)%Z → (Compare c b d ≤ 0)%Z →
  (Compare c a d ≤ 0)%Z ∧ (Compare c a d = 0%Z → Compare c a b = 0%Z ∧ Compare c b d = 0%Z).
Proof.
  intros H1 H2. pose proof (user_trans a b d). pose proof (user_equal a b d). pose proof (user_equal d b a).
  pose proof (user_equal b a d). pose proof (user_sym a b). pose proof (user_sym b d). pose proof (user_sym a d).
  pose proof (user_equal b d a). pose proof (user_equal d a b). pose proof (user_trans d a b). lia.
Qed.

Lemma internal_order_trans a b d :
  (internal_order a b < 0)%Z → (internal_order b d < 0)%Z → (internal_order a d < 0)%Z.
Proof.
  unfold internal_order. pose proof (user_mixed (key_user a) (key_user b) (key_user d)).
  destruct (Z.eqb_spec (Compare c (key_user a) (key_user b)) 0), (Z.eqb_spec (Compare c (key_user b) (key_user d)) 0),
    (Z.eqb_spec (Compare c (key_user a) (key_user d)) 0); try lia.
  destruct (Z.ltb_spec (key_num b) (key_num a)), (Z.ltb_spec (key_num a) (key_num b)), (Z.ltb_spec (key_num d) (key_num b)),
    (Z.ltb_spec (key_num b) (key_num d)), (Z.ltb_spec (key_num d) (key_num a)), (Z.ltb_spec (key_num a) (key_num d)); lia.
Qed.

Lemma internal_order_equal a b d :
  internal_order a b = 0%Z → (internal_order b d < 0)%Z → (internal_order a d < 0)%Z.
Proof.
  unfold internal_order. pose proof (user_mixed (key_user a) (key_user b) (key_user d)).
  destruct (Z.eqb_spec (Compare c (key_user a) (key_user b)) 0) as [E|]; [|lia].
  destruct (Z.ltb_spec (key_num b) (key_num a)), (Z.ltb_spec (key_num a) (key_num b)); try lia. intros _.
  assert (key_num a = key_num b) as -> by lia. pose proof (user_equal (key_user a) (key_user b) (key_user d) E).
  pose proof (user_equal (key_user b) (key_user a) (key_user d)). pose proof (user_sym (key_user a) (key_user b)).
  pose proof (user_sym (key_user a) (key_user d)). pose proof (user_sym (key_user b) (key_user d)).
  pose proof (user_mixed (key_user d) (key_user a) (key_user b)).
  destruct (Z.eqb_spec (Compare c (key_user b) (key_user d)) 0), (Z.eqb_spec (Compare c (key_user a) (key_user d)) 0); try lia.
Qed.
End comparator.

(** ** Encoded keys *)

Definition valid_parsed (p : ParsedInternalKey) : Prop :=
  (0 ≤ sequence p ≤ kMaxSequenceNumber)%Z ∧ (0 ≤ type p ≤ kValueTypeForSeek)%Z.

Definition parsed_num (p : ParsedInternalKey) : Z := sequence p * 256 + type p.

Lemma parsed_num_u64 p : valid_parsed p → is_u64 (parsed_num p).
Proof. unfold valid_parsed, parsed_num, kMaxSequenceNumber, kValueTypeForSeek, kTypeMerge. lia. Qed.

Lemma run_Pack seq t :
  (0 ≤ seq ≤ kMaxSequenceNumber)%Z → (0 ≤ t ≤ kValueTypeForSeek)%Z → PackSequenceAndType seq t = Ok (seq * 256 + t)%Z.
Proof.
  intros Hs Ht. unfold PackSequenceAndType. rewrite !(proj2 (Z.leb_le _ _)) by lia. cbn [negb].
  rewrite pack_number; [done..|]. unfold kValueTypeForSeek, kTypeMerge in Ht. lia.
Qed.

Lemma run_AppendInternalKey r p :
  valid_parsed p → AppendInternalKey r p = Ok (r ++ internal (user_key p) (parsed_num p)).
Proof.
  intros [Hs Ht]. unfold AppendInternalKey. rewrite run_Pack by done. mred. unfold PutFixed64, internal. by rewrite <-app_assoc.
Qed.

Lemma parsed_parts p :
  valid_parsed p → Z.shiftr (parsed_num p) 8 = sequence p ∧ Z.land (parsed_num p) 0xff = type p.
Proof. intros [_ Ht]. apply unpack_number. unfold kValueTypeForSeek, kTypeMerge in Ht. lia. Qed.

Lemma run_Parse p : valid_parsed p → ParseInternalKey (internal (user_key p) (parsed_num p)) = Ok (true, Some p).
Proof.
  intros Hp. pose proof (internal_is (user_key p) (parsed_num p)) as Hi. unfold ParseInternalKey.
  rewrite decide_False by (unfold is_internal in Hi; lia). rewrite run_key_number by done. mred.
  rewrite internal_num by (by apply parsed_num_u64). destruct (parsed_parts p Hp) as [-> ->].
  destruct Hp as [_ Ht]. unfold kMaxValue. unfold kValueTypeForSeek, kTypeMerge in *.
  rewrite !(proj2 (Z.leb_le _ _)) by lia. cbn [negb]. fold (key_user (internal (user_key p) (parsed_num p))).
  rewrite internal_user. by destruct p.
Qed.

Lemma CompareParsed_order c a b :
  valid_parsed a → valid_parsed b →
  internal_order c (internal (user_key a) (parsed_num a)) (internal (user_key b) (parsed_num b)) = CompareParsed c a b.
Proof.
  intros Ha Hb. unfold internal_order, CompareParsed. rewrite !internal_user, !internal_num by (by apply parsed_num_u64).
  destruct (Z.eqb_spec (Compare c (user_key a) (user_key b)) 0) as [->|]; [|done].
  destruct Ha as [_ Ha], Hb as [_ Hb]. unfold parsed_num, kValueTypeForSeek, kTypeMerge in *.
  destruct (Z.ltb_spec (sequence b) (sequence a)), (Z.ltb_spec (sequence a) (sequence b)),
    (Z.ltb_spec (type b) (type a)), (Z.ltb_spec (type a) (type b)); repeat case_match; try done; lia.
Qed.

(** ** Separators of internal keys *)


Section separator.
Context (c : UserComparator) `{!UserComparatorLaws c}.

(** A larger user key makes a larger key, whatever the numbers are. *)
Lemma order_by_user a k n : (Compare c (key_user a) k < 0)%Z → (internal_order c a (internal k n) < 0)%Z.
Proof. intros Hlt. unfold internal_order. rewrite internal_user. destruct (Z.eqb_spec (Compare c (key_user a) k) 0); lia. Qed.

Lemma order_by_user_l k n b : (Compare c k (key_user b) < 0)%Z → (internal_order c (internal k n) b < 0)%Z.
Proof. intros Hlt. unfold internal_order. rewrite internal_user. destruct (Z.eqb_spec (Compare c k (key_user b)) 0); lia. Qed.

Lemma run_assert_before a b :
  is_internal a → is_internal b → (internal_order c a b < 0)%Z → assert_before c a b = Ok tt.
Proof. intros Ha Hb Hlt. unfold assert_before. rewrite run_Compare by done. mred. by rewrite (proj2 (Z.ltb_lt _ _) Hlt). Qed.

Lemma internal_order_self a : internal_order c a a = 0%Z.
Proof. pose proof (internal_order_sym c a a). lia. Qed.

Lemma separator_spec start limit :
  is_internal start → is_internal limit → (internal_order c start limit < 0)%Z →
  ∃ r, InternalKeyComparator_FindShortestSeparator c start limit = Ok r ∧ is_internal r ∧
    (internal_order c start r ≤ 0)%Z ∧ (internal_order c r limit < 0)%Z ∧ length r ≤ length start.
Proof.
  intros Hs Hl Hlt. unfold InternalKeyComparator_FindShortestSeparator. rewrite !run_ExtractUserKey by done. mred.
  assert (∃ tmp, FindShortestSeparator c (key_user start) (key_user limit) = Ok tmp ∧
    ((Compare c (key_user start) tmp < 0)%Z → (Compare c tmp (key_user limit) < 0)%Z)) as (tmp & E & Htmp).
  { assert (Compare c (key_user start) (key_user limit) ≤ 0)%Z as Hle.
    { unfold internal_order in Hlt. destruct (Z.eqb_spec (Compare c (key_user start) (key_user limit)) 0); lia. }
    destruct (decide (Compare c (key_user start) (key_user limit) = 0)%Z) as [E0|].
    - exists (key_user start). split; [by apply user_separator_equal|]. pose proof (user_sym (key_user start) (key_user start)). lia.
    - destruct (user_separator (key_user start) (key_user limit)) as (r & E & _ & Hr); [lia|]. by exists r. }
  rewrite E. mred. destruct (bool_decide (length tmp < length (key_user start))) eqn:El; cbn [andb].
  2:{ exists start. rewrite internal_order_self. by split_and!. }
  destruct (Z.ltb_spec (Compare c (key_user start) tmp) 0) as [Hc|].
  2:{ exists start. rewrite internal_order_self. by split_and!. }
  apply bool_decide_eq_true in El. rewrite run_Pack by (unfold kMaxSequenceNumber, kValueTypeForSeek, kTypeMerge; lia).
  mred. set (n := (_ + _)%Z). change (PutFixed64 tmp n) with (internal tmp n).
  pose proof (order_by_user start tmp n Hc) as H1. pose proof (order_by_user_l tmp n limit (Htmp Hc)) as H2.
  rewrite !run_assert_before by (done || apply internal_is). mred. exists (internal tmp n). split_and!; [done|apply internal_is|lia|done|].
  unfold internal. rewrite length_app, length_EncodeFixed64. unfold key_user in El. rewrite length_take in El. lia.
Qed.

Lemma successor_spec key :
  is_internal key →
  ∃ r, InternalKeyComparator_FindShortSuccessor c key = Ok r ∧ is_internal r ∧
    (internal_order c key r ≤ 0)%Z ∧ length r ≤ length key.
Proof.
  intros Hk. unfold InternalKeyComparator_FindShortSuccessor. rewrite run_ExtractUserKey by done. mred.
  set (tmp := FindShortSuccessor c (key_user key)). destruct (bool_decide (length tmp < length (key_user key))) eqn:El; cbn [andb].
  2:{ exists key. rewrite internal_order_self. by split_and!. }
  destruct (Z.ltb_spec (Compare c (key_user key) tmp) 0) as [Hc|].
  2:{ exists key. rewrite internal_order_self. by split_and!. }
  apply bool_decide_eq_true in El. rewrite run_Pack by (unfold kMaxSequenceNumber, kValueTypeForSeek, kTypeMerge; lia).
  mred. set (n := (_ + _)%Z). change (PutFixed64 tmp n) with (internal tmp n).
  pose proof (order_by_user key tmp n Hc) as H1.
  rewrite run_assert_before by (done || apply internal_is). mred. exists (internal tmp n). split_and!; [done|apply internal_is|lia|].
  unfold internal. rewrite length_app, length_EncodeFixed64. unfold key_user in El. rewrite length_take in El. lia.
Qed.
End separator.

(** ** Properties *)

(** Internal keys.  A user key with a sequence number and a type is encoded, is read
    back as it was, and two encoded keys compare as their parts do: by user key, then by
    falling sequence number, then by falling type; so of two writes to the same key the
    later one comes first. *)
Theorem internal_keys_ordered c a b :
  valid_parsed a → valid_parsed b →
  ∃ ka kb, AppendInternalKey [] a = Ok ka ∧ AppendInternalKey [] b = Ok kb ∧
    ParseInternalKey ka = Ok (true, Some a) ∧ ExtractUserKey ka = Ok (user_key a) ∧
    GetInternalKeySeqno ka = Ok (sequence a) ∧ ExtractValueType ka = Ok (type a) ∧
    length ka = InternalKeyEncodingLength a ∧ InternalKeyComparator_Compare c ka kb = Ok (CompareParsed c a b).
Proof.
  intros Ha Hb. exists (internal (user_key a) (parsed_num a)), (internal (user_key b) (parsed_num b)).
  pose proof (internal_is (user_key a) (parsed_num a)) as Hi. destruct (parsed_parts a Ha) as [Es Et].
  unfold GetInternalKeySeqno, ExtractValueType. rewrite !decide_True by done.
  rewrite !run_AppendInternalKey, run_Parse, run_ExtractUserKey, run_key_number, internal_user, run_Compare, CompareParsed_order
    by (done || apply internal_is). mred. rewrite internal_num, Es, Et by (by apply parsed_num_u64). split_and!; try done.
  unfold internal, InternalKeyEncodingLength. by rewrite length_app, length_EncodeFixed64.
Qed.

(** C38: separators.  Between two internal keys in order [FindShortestSeparator] finds a key
    that is not before the first and before the second, and [FindShortSuccessor] a key that
    is not before the given one; neither is longer than the key it replaces, and none of
    their assertions fails.  This holds for every user comparator that is a total order
    with separators. *)
Theorem separators_separate c start limit i0 :
  UserComparatorLaws c → is_internal start → is_internal limit →
  InternalKeyComparator_Compare c start limit = Ok i0 → (i0 < 0)%Z →
  (∃ r i j, InternalKeyComparator_FindShortestSeparator c start limit = Ok r ∧ length r ≤ length start ∧
    InternalKeyComparator_Compare c start r = Ok i ∧ (i ≤ 0)%Z ∧ InternalKeyComparator_Compare c r limit = Ok j ∧ (j < 0)%Z) ∧
  (∃ r i, InternalKeyComparator_FindShortSuccessor c start = Ok r ∧ length r ≤ length start ∧
    InternalKeyComparator_Compare c start r = Ok i ∧ (i ≤ 0)%Z).
Proof.
  intros Hc Hs Hl E Hi. rewrite run_Compare in E by done. injection E as E. split.
  - destruct (separator_spec c start limit Hs Hl ltac:(lia)) as (r & Er & Hr & H1 & H2 & Hlen).
    exists r, (internal_order c start r), (internal_order c r limit). rewrite !run_Compare by done. by split_and!.
  - destruct (successor_spec c start Hs) as (r & Er & Hr & H1 & Hlen).
    exists r, (internal_order c start r). rewrite run_Compare by done. by split_and!.
Qed.

(** [ReverseBytewiseComparator] inherits the successor of the other order: it is before the
    key, where the documentation asks for one that is not. *)
Lemma reverse_successor_before :
  FindShortSuccessor ReverseBytewiseComparator (str "ab") = str "b" ∧
  Compare ReverseBytewiseComparator (str "b") (str "ab") = (-1)%Z.
Proof. done. Qed.

Lemma internal_keys_ordered_witness :
  ∃ ka kb, AppendInternalKey [] (mkParsed (str "key") 7 kTypeValue) = Ok ka ∧
    AppendInternalKey [] (mkParsed (str "key") 5 kTypeDeletion) = Ok kb ∧
    ParseInternalKey ka = Ok (true, Some (mkParsed (str "key") 7 kTypeValue)) ∧
    InternalKeyComparator_Compare BytewiseComparator ka kb = Ok (-1)%Z.
Proof.
  destruct (internal_keys_ordered BytewiseComparator (mkParsed (str "key") 7 kTypeValue) (mkParsed (str "key") 5 kTypeDeletion))
    as (ka & kb & Ha & Hb & Hp & _ & _ & _ & _ & Hc).
  - by split; cbn.
  - by split; cbn.
  - exists ka, kb. split; [exact Ha|]. split; [exact Hb|]. split; [exact Hp|exact Hc].
Defined.

Lemma separators_separate_witness :
  ∃ r i j, InternalKeyComparator_FindShortestSeparator BytewiseComparator (internal (str "abcd") 300) (internal (str "axyz") 301) = Ok r ∧
    length r ≤ 12 ∧
    InternalKeyComparator_Compare BytewiseComparator (internal (str "abcd") 300) r = Ok i ∧ (i ≤ 0)%Z ∧
    InternalKeyComparator_Compare BytewiseComparator r (internal (str "axyz") 301) = Ok j ∧ (j < 0)%Z.
Proof.
  destruct (separators_separate BytewiseComparator (internal (str "abcd") 300) (internal (str "axyz") 301) (-1)) as [H _].
  - exact Bytewise_laws.
  - vm_compute. lia.
  - vm_compute. lia.
  - vm_compute. reflexivity.
  - reflexivity.
  - exact H.
Defined.
