(* ===== verification/MemTable.v ===== *)
(** * RocksDB: the memtable

    Models [src/src/rocksdb/db/memtable.cc] and [memtable.h] over the skip list of
    [util/skiplistrep.cc] and [db/skiplist.h]: entries are strings in memory, a length and
    an internal key followed by a length and a value, and the list is sorted by the key in
    them.  [merge_operator] is the object a database may be opened with; it is null for the
    databases of this program.

    The list holds pointers to entries; a pointer is modelled by the string it points to,
    which is never changed while the option [inplace_update_support] is off.  The bloom
    filter of prefixes, which needs a prefix extractor, and the accounting of memory that
    decides when to flush are left out. *)

From S2P Require Import Prelude Varint Coding Env WriteBatch DbFormat SkipList.

Definition NotFound : Status := mkStatus kNotFound None.
Definition MergeInProgress : Status := Status_new kMergeInProgress [] [].
Definition IsMergeInProgress (s : Status) : bool := bool_decide (code s = kMergeInProgress).

(** ** Entries *)

(** [GetVarint32Ptr(p, p + 5, &value)]: the bytes are not known to be there. *)
Definition GetVarint32_at (p : bytes) : outcome (option (Z * bytes)) :=
  match GetVarint32Ptr (take 5 p) with
  | Some (value, q) => Ok (Some (value, drop (length (take 5 p) - length q) p))
  | None => if decide (length p < 5) then Err OutOfBounds else Ok None
  end.

(** The string at a pointer, and what follows it. *)
Definition GetLengthPrefixedSlice_at (data : bytes) : outcome (bytes * bytes) :=
  x ← GetVarint32_at data;
  match x with
  | Some (len, p) =>
      if Z.leb len (Z.of_nat (length p)) then Ok (take (Z.to_nat len) p, drop (Z.to_nat len) p) else Err OutOfBounds
  | None => Ok ([], [])
  end.

(** A memtable key made from an internal key. *)
Definition EncodeKey (target : bytes) : bytes := PutVarint32 [] (u32 (Z.of_nat (length target))) ++ target.

Section memtable.
Context (user_comparator : UserComparator).
Context (merge_operator : option (bytes → option bytes → list bytes → bool * bytes)).

Definition KeyComparator (prefix_len_key1 prefix_len_key2 : bytes) : outcome Z :=
  k1 ← GetLengthPrefixedSlice_at prefix_len_key1;
  k2 ← GetLengthPrefixedSlice_at prefix_len_key2;
  InternalKeyComparator_Compare user_comparator (fst k1) (fst k2).

(** ** The table *)

Record MemTable := mkMemTable {
  table_ : SkipList bytes; num_entries_ : Z; num_deletes_ : Z; first_seqno_ : Z;
}.
Abbreviation cmd := (prog MemTable).

Definition MemTable_new : outcome MemTable :=
  t ← SkipList_new 12 4; mret (mkMemTable t 0 0 0).

Definition IsEmpty (m : MemTable) : bool := Z.eqb (first_seqno_ m) 0.
Definition GetFirstSequenceNumber (m : MemTable) : Z := first_seqno_ m.

(** A call on [table_]. *)
Definition on_table {A} (c : prog (SkipList bytes) A) : cmd A := λ m,
  match c (table_ m) with
  | Ok (x, t) => Ok (x, mkMemTable t (num_entries_ m) (num_deletes_ m) (first_seqno_ m))
  | Err e => Err e
  end.

(** What [Add] writes into the buffer of [encoded_len] bytes it allocates. *)
Definition encode_entry (s type : Z) (key value : bytes) : outcome bytes :=
  let key_size := u32 (Z.of_nat (length key)) in
  let val_size := u32 (Z.of_nat (length value)) in
  let internal_key_size := u32 (key_size + 8) in
  let encoded_len := u32 (Z.of_nat (VarintLength internal_key_size) + internal_key_size +
                          Z.of_nat (VarintLength val_size) + val_size) in
  let buf := EncodeVarint32 internal_key_size ++ take (Z.to_nat key_size) key ++
             EncodeFixed64 (Z.lor (u64 (Z.shiftl s 8)) type) ++
             EncodeVarint32 val_size ++ take (Z.to_nat val_size) value in
  if negb (Z.leb (Z.of_nat (length buf)) encoded_len) then Err OutOfBounds
  else if negb (Z.eqb (u32 (Z.of_nat (length buf))) encoded_len) then Err AssertFailed
  else Ok buf.

Definition MemTable_Add (s type : Z) (key value : bytes) : cmd unit :=
  buf ← lift (encode_entry s type key value);
  on_table (SkipList_Insert KeyComparator buf);;
  modify (λ m, mkMemTable (table_ m) (num_entries_ m + 1)
                 (if Z.eqb type kTypeDeletion then num_deletes_ m + 1 else num_deletes_ m) (first_seqno_ m));;
  first ← gets first_seqno_;
  assert (Z.eqb first 0 || Z.ltb first s);;
  if Z.eqb first 0 then modify (λ m, mkMemTable (table_ m) (num_entries_ m) (num_deletes_ m) s) else mret tt.

(** ** Looking up *)

Record Saver := mkSaver {
  sv_status : Status; found_final_value : bool; merge_in_progress : bool; sv_value : bytes; operands : list bytes;
}.

(** [merge_operator->FullMerge] and what is done with its result. *)
Definition full_merge (k : bytes) (existing : option bytes) (s : Saver) : outcome Saver :=
  FullMerge ← of_option AssertFailed merge_operator;
  let '(success, value) := FullMerge k existing (operands s) in
  Ok (mkSaver (if success : bool then StatusOK else Corruption "Error: Could not perform merge.")
              true (merge_in_progress s) value (operands s)).

(** The callback: whether to go on, and what has been saved. *)
Definition SaveValue (key : LookupKey) (s : Saver) (entry : bytes) : outcome (bool * Saver) :=
  x ← GetLengthPrefixedSlice_at entry;
  let '(ikey, rest) := x in
  if decide (length ikey < 8) then Err OutOfBounds else
  if Z.eqb (Compare user_comparator (take (length ikey - 8) ikey) (lookup_user_key key)) 0 then
    tag ← key_number ikey;
    let t := Z.land tag 0xff in
    if Z.eqb t kTypeValue then
      v ← GetLengthPrefixedSlice_at rest;
      if merge_in_progress s then s ← full_merge (lookup_user_key key) (Some (fst v)) s; mret (false, s)
      else mret (false, mkSaver StatusOK true (merge_in_progress s) (fst v) (operands s))
    else if Z.eqb t kTypeDeletion then
      if merge_in_progress s then s ← full_merge (lookup_user_key key) None s; mret (false, s)
      else mret (false, mkSaver NotFound true (merge_in_progress s) (sv_value s) (operands s))
    else if Z.eqb t kTypeMerge then
      match merge_operator with
      | None => mret (false, mkSaver (InvalidArgument "merge_operator is not properly initialized.") true
                              (merge_in_progress s) (sv_value s) (operands s))
      | Some _ =>
          v ← GetLengthPrefixedSlice_at rest;
          mret (true, mkSaver (sv_status s) (found_final_value s) true (sv_value s) (fst v :: operands s))
      end
    else Err AssertFailed
  else mret (false, s).

(** The loop of [SkipListRep::Get]; it visits every entry at most once. *)
Fixpoint Get_loop (fuel : nat) (key : LookupKey) (s : Saver) (it : option positive) : prog (SkipList bytes) Saver :=
  if negb (Iter_Valid it) then mret s else
  match fuel with
  | O => fail OutOfFuel
  | S fuel =>
      entry ← Iter_key it;
      x ← lift (SaveValue key s entry);
      let '(go, s) := x in
      if go : bool then it ← Iter_Next it; Get_loop fuel key s it else mret s
  end.

Definition SkipListRep_Get (key : LookupKey) (s : Saver) : prog (SkipList bytes) Saver :=
  it ← Iter_Seek KeyComparator (memtable_key key);
  fuel ← gets (λ l, size (list_nodes l));
  Get_loop fuel key s it.

(** Whether the value is final, and the value, the status and the operands afterwards. *)
Definition MemTable_Get (key : LookupKey) (value : bytes) (s : Status) (merge_context : list bytes)
    : cmd (bool * (bytes * Status * list bytes)) :=
  m ← gets id;
  if IsEmpty m then mret (false, (value, s, merge_context)) else
  r ← on_table (SkipListRep_Get key (mkSaver s false (IsMergeInProgress s) value merge_context));
  let s := if negb (found_final_value r) && merge_in_progress r then MergeInProgress else sv_status r in
  mret (found_final_value r, (sv_value r, s, operands r)).

(** ** Counting merge operands *)

Fixpoint Count_loop (fuel : nat) (key : LookupKey) (n : nat) (it : option positive) : prog (SkipList bytes) nat :=
  if negb (Iter_Valid it) then mret n else
  match fuel with
  | O => fail OutOfFuel
  | S fuel =>
      entry ← Iter_key it;
      x ← lift (GetLengthPrefixedSlice_at entry);
      let ikey := fst x in
      if decide (length ikey < 8) then fail OutOfBounds else
      if negb (Z.eqb (Compare user_comparator (take (length ikey - 8) ikey) (lookup_user_key key)) 0) then mret n else
      tag ← lift (key_number ikey);
      if negb (Z.eqb (Z.land tag 0xff) kTypeMerge) then mret n else
      it ← Iter_Next it;
      Count_loop fuel key (S n) it
  end.

Definition CountSuccessiveMergeEntries (key : LookupKey) : cmd nat :=
  on_table (it ← Iter_Seek KeyComparator (memtable_key key);
            fuel ← gets (λ l, size (list_nodes l));
            Count_loop fuel key 0 it).

(** ** Iterators *)

(** The state is the iterator of the list; [valid_] is whether it is at a node. *)
Definition MemIter_Seek (k : bytes) : cmd (option positive) := on_table (Iter_Seek KeyComparator (EncodeKey k)).
Definition MemIter_SeekToFirst : cmd (option positive) := on_table Iter_SeekToFirst.
Definition MemIter_SeekToLast : cmd (option positive) := on_table Iter_SeekToLast.
Definition MemIter_Next (it : option positive) : cmd (option positive) := assert (Iter_Valid it);; on_table (Iter_Next it).
Definition MemIter_Prev (it : option positive) : cmd (option positive) :=
  assert (Iter_Valid it);; on_table (Iter_Prev KeyComparator it).
Definition MemIter_key (it : option positive) : cmd bytes :=
  assert (Iter_Valid it);; e ← on_table (Iter_key it); x ← lift (GetLengthPrefixedSlice_at e); mret (fst x).
Definition MemIter_value (it : option positive) : cmd bytes :=
  assert (Iter_Valid it);;
  e ← on_table (Iter_key it);
  x ← lift (GetLengthPrefixedSlice_at e);
  y ← lift (GetLengthPrefixedSlice_at (snd x));
  mret (fst y).
End memtable.
