(* ===== verification/MemTableSpec.v ===== *)
(** * RocksDB: what a memtable holds

    An entry stands for a version of a key: the number of a write, its type and its value.
    The comparator of the memtable orders entries by the internal keys in them, so it is one
    the skip list can be used with.

    [mem_holds m h] says that the memtable holds the versions [h], the newest first.  Adding
    puts a version in front; a lookup of a key at a sequence number sees exactly the versions
    of that key that are not newer, in this order. *)

From S2P Require Import Prelude Varint Coding Env WriteBatch SkipList SkipListLaws SkipListSpec DbFormat DbFormatLaws.
From S2P Require Import MemTable.
From stdpp Require Import sorting.

(** ** Strings with their length *)

Lemma GetVarint32_at_write v rest : is_u32 v → GetVarint32_at (EncodeVarint32 v ++ rest) = Ok (Some (v, rest)).
Proof.
  intros Hv. unfold GetVarint32_at. pose proof (length_EncodeVarint32 v) as Hl.
  rewrite take_app_ge, GetVarint32Ptr_write by done. do 3 f_equal.
  rewrite length_app, Nat.add_sub. by apply drop_app_length.
Qed.

Lemma slice_at_write n s rest :
  n = Z.of_nat (length s) → fits32 s → GetLengthPrefixedSlice_at (EncodeVarint32 n ++ s ++ rest) = Ok (s, rest).
Proof.
  intros -> Hs. unfold GetLengthPrefixedSlice_at. rewrite GetVarint32_at_write by lia. mred.
  rewrite length_app, (proj2 (Z.leb_le _ _)) by lia. by rewrite Nat2Z.id, take_app_length, drop_app_length.
Qed.

(** ** Versions *)

Record version := mkVersion { v_seq : Z; v_type : Z; v_key : bytes; v_value : bytes }.

#[export] Instance version_eq_dec : EqDecision version.
Proof. solve_decision. Defined.

Definition version_num (v : version) : Z := v_seq v * 256 + v_type v.
Definition version_key (v : version) : bytes := internal (v_key v) (version_num v).

Definition entry_of (v : version) : bytes :=
  EncodeVarint32 (Z.of_nat (length (version_key v))) ++ version_key v ++
  EncodeVarint32 (Z.of_nat (length (v_value v))) ++ v_value v.

(** The key and the value leave room for their lengths and the number in [2 ^ 32] bytes. *)
Definition small_entry (key value : bytes) : Prop := (Z.of_nat (length key + length value) + 18 < 2 ^ 32)%Z.

Record valid_version (v : version) : Prop := {
  vv_seq : (1 ≤ v_seq v ≤ kMaxSequenceNumber)%Z;
  vv_type : (0 ≤ v_type v ≤ kTypeMerge)%Z;
  vv_size : small_entry (v_key v) (v_value v);
}.

Lemma version_num_u64 v : valid_version v → is_u64 (version_num v).
Proof. intros [Hs Ht _]. unfold version_num, kMaxSequenceNumber, kTypeMerge in *. lia. Qed.

Lemma version_num_parts v : valid_version v → Z.shiftr (version_num v) 8 = v_seq v ∧ Z.land (version_num v) 0xff = v_type v.
Proof. intros [_ Ht _]. apply unpack_number. unfold kTypeMerge in Ht. lia. Qed.

Lemma length_version_key v : length (version_key v) = length (v_key v) + 8.
Proof. unfold version_key, internal. by rewrite length_app, length_EncodeFixed64. Qed.

Lemma read_entry v :
  valid_version v →
  GetLengthPrefixedSlice_at (entry_of v) =
    Ok (version_key v, EncodeVarint32 (Z.of_nat (length (v_value v))) ++ v_value v).
Proof.
  intros [_ _ Hs]. unfold small_entry in Hs. unfold entry_of. apply slice_at_write; [done|].
  rewrite length_version_key. lia.
Qed.

Lemma read_entry_value v :
  valid_version v → GetLengthPrefixedSlice_at (EncodeVarint32 (Z.of_nat (length (v_value v))) ++ v_value v) = Ok (v_value v, []).
Proof.
  intros [_ _ Hs]. unfold small_entry in Hs. rewrite <-(app_nil_r (v_value v)) at 2. apply slice_at_write; [done|lia].
Qed.

Lemma run_encode_entry v : valid_version v → encode_entry (v_seq v) (v_type v) (v_key v) (v_value v) = Ok (entry_of v).
Proof.
  intros Hv. destruct Hv as [Hs Ht Hz]. unfold small_entry, kTypeMerge in *. unfold encode_entry.
  rewrite pack_number by lia. rewrite !(Z.mod_small (Z.of_nat (length _))), (Z.mod_small (Z.of_nat (length (v_key v)) + 8)) by lia.
  rewrite !Nat2Z.id, !firstn_all. set (ks := (Z.of_nat (length (v_key v)) + 8)%Z). set (vs := Z.of_nat (length (v_value v))).
  rewrite !VarintLength_32 by lia. pose proof (length_EncodeVarint32 ks). pose proof (length_EncodeVarint32 vs).
  rewrite !length_app, length_EncodeFixed64. rewrite !Z.mod_small by lia.
  rewrite (proj2 (Z.leb_le _ _)), (proj2 (Z.eqb_eq _ _)) by lia. cbn [negb]. f_equal. unfold entry_of, version_key, internal.
  rewrite length_app, length_EncodeFixed64, Nat2Z.inj_add. by rewrite <-!app_assoc.
Qed.

(** ** The comparator *)

Definition entry_key (e : bytes) : bytes :=
  match GetLengthPrefixedSlice_at e with Ok (k, _) => k | Err _ => [] end.

Definition is_entry (e : bytes) : Prop := ∃ k rest, GetLengthPrefixedSlice_at e = Ok (k, rest) ∧ is_internal k.

Lemma entry_of_is v : valid_version v → is_entry (entry_of v).
Proof. intros Hv. eexists _, _. split; [by apply read_entry|apply internal_is]. Qed.

Lemma entry_of_key v : valid_version v → entry_key (entry_of v) = version_key v.
Proof. intros Hv. unfold entry_key. by rewrite read_entry. Qed.

Section comparator.
Context (c : UserComparator) `{!UserComparatorLaws c}.

Definition entry_order (a b : bytes) : Z := internal_order c (entry_key a) (entry_key b).

Lemma run_KeyComparator a b : is_entry a → is_entry b → KeyComparator c a b = Ok (entry_order a b).
Proof.
  intros (ka & ra & Ea & Ha) (kb & rb & Eb & Hb). unfold KeyComparator, entry_order, entry_key. rewrite Ea, Eb. mred.
  by apply run_Compare.
Qed.

#[export] Instance KeyComparator_laws : Comparator (KeyComparator c).
Proof.
  exists is_entry entry_order; [exact run_KeyComparator|..]; unfold entry_order; intros *.
  - by apply internal_order_sym.
  - by apply internal_order_trans.
  - by apply internal_order_equal.
Defined.

(** Two versions with the same number are only ordered by their user keys. *)
Lemma entry_order_versions v w :
  valid_version v → valid_version w →
  entry_order (entry_of v) (entry_of w) =
    (let r := Compare c (v_key v) (v_key w) in
    if Z.eqb r 0 then
      if Z.ltb (version_num w) (version_num v) then -1 else if Z.ltb (version_num v) (version_num w) then 1 else 0
    else r)%Z.
Proof.
  intros Hv Hw. unfold entry_order. rewrite !entry_of_key by done. unfold internal_order, version_key.
  by rewrite !internal_user, !internal_num by (by apply version_num_u64).
Qed.

(** Numbers compare as sequence numbers do, if these differ. *)
Lemma version_num_lt v w : valid_version v → valid_version w → (v_seq v < v_seq w)%Z → (version_num v < version_num w)%Z.
Proof. intros [_ Hv _] [_ Hw _] Hlt. unfold version_num, kTypeMerge in *. lia. Qed.
End comparator.

(** * The versions in a memtable *)

Definition newer (a b : version) : Prop := (v_seq b < v_seq a)%Z.

(** The number of the first entry, zero if there is none. *)
Definition first_seq (h : list version) : Z := match last h with Some v => v_seq v | None => 0 end.

Section spec.
Context (c : UserComparator) `{!UserComparatorLaws c}.
Context (mo : option (bytes → option bytes → list bytes → bool * bytes)).
Implicit Types (m : MemTable) (h W : list version).

(** The order of the list on versions. *)
Definition vlt (v w : version) : Prop := (entry_order c (entry_of v) (entry_of w) < 0)%Z.

Record mem_holds m h : Prop := {
  mh_table : ∃ W, skip_list (KeyComparator c) (table_ m) (entry_of <$> W) ∧ W ≡ₚ h;
  mh_valid : Forall valid_version h;
  mh_newer : StronglySorted newer h;
  mh_entries : num_entries_ m = Z.of_nat (length h);
  mh_deletes : num_deletes_ m = Z.of_nat (length (filter (λ v, v_type v = kTypeDeletion) h));
  mh_first : first_seqno_ m = first_seq h;
}.

Lemma mem_new : ∃ m, MemTable_new = Ok m ∧ mem_holds m [].
Proof.
  destruct (new_spec (KeyComparator c) 12 4) as (s & E & Hs); [lia..|]. unfold MemTable_new. rewrite E. mred.
  eexists. split; [done|]. constructor; try done; [|constructor]. by exists [].
Qed.

(** ** Adding *)

Lemma insert_key_perm {K} (ord : K → K → Z) k ks : insert_key ord k ks ≡ₚ k :: ks.
Proof.
  induction ks as [|k' ks IH]; cbn; [done|]. case_match; [|done]. rewrite IH. by apply Permutation_swap.
Qed.

Lemma newer_not_equal v w :
  valid_version v → valid_version w → newer v w → entry_order c (entry_of v) (entry_of w) ≠ 0%Z.
Proof.
  intros Hv Hw Hn. rewrite entry_order_versions by done. cbn. pose proof (version_num_lt w v Hw Hv Hn).
  destruct (Z.eqb_spec (Compare c (v_key v) (v_key w)) 0); [|done]. by rewrite (proj2 (Z.ltb_lt _ _)).
Qed.

Lemma first_seq_cons v h :
  Forall valid_version h → first_seq (v :: h) = if Z.eqb (first_seq h) 0 then v_seq v else first_seq h.
Proof.
  intros Hva. unfold first_seq. destruct h as [|w h]; [done|]. rewrite last_cons_cons.
  destruct (last (w :: h)) as [x|] eqn:El; [|by apply last_None in El].
  destruct (Z.eqb_spec (v_seq x) 0) as [E|]; [|done]. exfalso. rewrite Forall_forall in Hva. apply last_Some_elem_of in El.
  destruct (Hva x El). lia.
Qed.

Lemma Add_spec m h v :
  mem_holds m h → valid_version v → Forall (newer v) h →
  ∃ m', MemTable_Add c (v_seq v) (v_type v) (v_key v) (v_value v) m = Ok (tt, m') ∧ mem_holds m' (v :: h).
Proof.
  intros [(W & Hs & HW) Hva Hn He Hd Hf] Hv Hnew.
  pose proof (insert_spec (KeyComparator c) (table_ m) _ (entry_of v) Hs (entry_of_is v Hv)) as Hi.
  destruct (has_key _ _ _) eqn:Ek.
  { exfalso. apply existsb_exists in Ek as (e & (w & -> & Hw)%list_elem_of_In%list_elem_of_fmap & E%Z.eqb_eq). rewrite HW in Hw.
    rewrite Forall_forall in Hva, Hnew. exact (newer_not_equal v w Hv (Hva w Hw) (Hnew w Hw) E). }
  destruct Hi as (t' & Hi & Hs'). unfold MemTable_Add. rewrite (bind_Ok _ _ _ _ _ (lift_Ok _ m _ (run_encode_entry v Hv))).
  rewrite (bind_Ok _ _ _ tt (mkMemTable t' (num_entries_ m) (num_deletes_ m) (first_seqno_ m))) by (unfold on_table; by rewrite Hi).
  cbn [num_entries_ num_deletes_ first_seqno_ table_ mbind prog_bind modify gets].
  assert (first_seqno_ m = 0%Z ∨ (first_seqno_ m < v_seq v)%Z) as Hfirst.
  { rewrite Hf. unfold first_seq. destruct (last h) as [w|] eqn:El; [|by left]. right. rewrite Forall_forall in Hnew.
    apply (Hnew w). by apply last_Some_elem_of. }
  assert (Z.eqb (first_seqno_ m) 0 || Z.ltb (first_seqno_ m) (v_seq v) = true) as Hb.
  { destruct Hfirst as [->|Hlt]; [done|]. rewrite (proj2 (Z.ltb_lt _ _) Hlt). apply orb_true_r. }
  set (d := if Z.eqb (v_type v) kTypeDeletion then (num_deletes_ m + 1)%Z else num_deletes_ m).
  exists (mkMemTable t' (num_entries_ m + 1) d (if Z.eqb (first_seqno_ m) 0 then v_seq v else first_seqno_ m)). split.
  - unfold mbind, prog_bind, modify, gets, assert. cbn [table_ first_seqno_ num_entries_ num_deletes_]. rewrite Hb.
    by destruct (Z.eqb (first_seqno_ m) 0).
  - constructor; cbn [table_ num_entries_ num_deletes_ first_seqno_].
    + assert (insert_key (key_order (KeyComparator c)) (entry_of v) (entry_of <$> W) ≡ₚ entry_of <$> (v :: W)) as Hp
        by apply insert_key_perm.
      apply Permutation_map_inv in Hp as (W' & E & HW'). exists W'. change (entry_of <$> W') with (map entry_of W').
      split; [by rewrite <-E|by rewrite <-HW', HW].
    + by constructor.
    + by constructor.
    + rewrite He. cbn [length]. lia.
    + unfold d. rewrite Hd, filter_cons. destruct (Z.eqb_spec (v_type v) kTypeDeletion).
      * rewrite decide_True by done. cbn [length]. lia.
      * by rewrite decide_False.
    + by rewrite Hf, first_seq_cons.
Qed.

(** ** Looking up *)

(** The key to look up [k] at sequence number [s]. *)
Definition lookup_key (k : bytes) (s : Z) : LookupKey :=
  let len := EncodeVarint32 (Z.of_nat (length k + 8)) in
  mkLookupKey (len ++ internal k (s * 256 + kValueTypeForSeek)) (length len).

Definition lookup_ok (k : bytes) (s : Z) : Prop :=
  (0 ≤ s ≤ kMaxSequenceNumber)%Z ∧ (Z.of_nat (length k + 8) < 2 ^ 32)%Z.

Lemma run_LookupKey k s : lookup_ok k s → LookupKey_new k s = Ok (lookup_key k s).
Proof.
  intros [Hs Hk]. unfold LookupKey_new. rewrite run_Pack by (unfold kValueTypeForSeek, kTypeMerge; lia). mred.
  by rewrite Z.mod_small by lia.
Qed.

Lemma internal_lookup_key k s : internal_key (lookup_key k s) = internal k (s * 256 + kValueTypeForSeek).
Proof. unfold internal_key, lookup_key. cbn. apply drop_app_length. Qed.

Lemma lookup_key_user k s : lookup_user_key (lookup_key k s) = k.
Proof.
  unfold lookup_user_key. rewrite internal_lookup_key. cbn [lookup_key lk_array lk_kstart]. rewrite length_app.
  unfold internal. rewrite length_app, length_EncodeFixed64. apply take_app_length'. lia.
Qed.

Lemma read_lookup_key k s :
  lookup_ok k s → GetLengthPrefixedSlice_at (memtable_key (lookup_key k s)) = Ok (internal k (s * 256 + kValueTypeForSeek), []).
Proof.
  intros [_ Hk]. unfold memtable_key, lookup_key. cbn [lk_array]. set (i := internal _ _).
  assert (length i = length k + 8) as Hi by (unfold i, internal; by rewrite length_app, length_EncodeFixed64).
  rewrite <-(app_nil_r i) at 1. apply slice_at_write; [by rewrite Hi|lia].
Qed.

Lemma lookup_key_is k s : lookup_ok k s → is_entry (memtable_key (lookup_key k s)).
Proof. intros Hk. eexists _, _. split; [by apply read_lookup_key|apply internal_is]. Qed.

(** What comes before a lookup key: smaller keys, and newer versions of the same key. *)
Lemma before_lookup k s v :
  lookup_ok k s → valid_version v →
  before (entry_order c) (entry_of v) (memtable_key (lookup_key k s)) = true ↔
  (Compare c (v_key v) k < 0)%Z ∨ Compare c (v_key v) k = 0%Z ∧ (s < v_seq v)%Z.
Proof.
  intros Hk Hv. unfold before. rewrite Z.ltb_lt. unfold entry_order. rewrite entry_of_key by done.
  unfold entry_key. rewrite read_lookup_key by done. unfold internal_order, version_key. destruct Hk as [Hs Hk].
  rewrite !internal_user, !internal_num by (by apply version_num_u64) || (unfold kMaxSequenceNumber, kValueTypeForSeek, kTypeMerge in *; lia).
  destruct Hv as [_ Ht _]. unfold version_num, kValueTypeForSeek, kTypeMerge in *.
  destruct (Z.eqb_spec (Compare c (v_key v) k) 0); [|lia]. repeat case_match; lia.
Qed.

(** ** The versions a lookup sees *)

Definition seen (k : bytes) (s : Z) (v : version) : Prop := Compare c (v_key v) k = 0%Z ∧ (v_seq v ≤ s)%Z.
#[export] Instance seen_dec k s v : Decision (seen k s v).
Proof. unfold seen. apply _. Defined.

Definition versions_at k s h : list version := filter (seen k s) h.

Lemma vlt_trans u v w : vlt u v → vlt v w → vlt u w.
Proof. apply internal_order_trans. done. Qed.

Lemma table_sorted t W : skip_list (KeyComparator c) t (entry_of <$> W) → StronglySorted vlt W.
Proof.
  intros (L & Hsh & _ & Hk). apply StronglySorted_lookup. intros i j v w Hij Hv Hw.
  pose proof (keys_ordered (KeyComparator c) t L (entry_of <$> W) i j (entry_of v) (entry_of w) Hsh Hk Hij) as Ho.
  rewrite !list_lookup_fmap, Hv, Hw in Ho. exact (Ho eq_refl eq_refl).
Qed.

Lemma sorted_filter {A} (R : A → A → Prop) (P : A → Prop) `{∀ x, Decision (P x)} l :
  StronglySorted R l → StronglySorted R (filter P l).
Proof.
  induction 1 as [|x l _ IH Hx]; [constructor|]. rewrite filter_cons. case_decide; [|done]. constructor; [done|].
  apply Forall_forall. intros y [_ Hy]%list_elem_of_filter. by eapply Forall_forall in Hx.
Qed.

(** Newest first is the order of the table among the versions of one key. *)
Lemma versions_sorted k s h : Forall valid_version h → StronglySorted newer h → StronglySorted vlt (versions_at k s h).
Proof.
  intros Hv Hs. unfold versions_at. induction Hs as [|x h _ IH Hx]; [constructor|]. apply Forall_cons in Hv as [Hvx Hv].
  rewrite filter_cons. case_decide as Hsx; [|by apply IH]. constructor; [by apply IH|].
  apply Forall_forall. intros y [Hsy Hy]%list_elem_of_filter. rewrite Forall_forall in Hv, Hx. specialize (Hv y Hy). specialize (Hx y Hy).
  unfold vlt. rewrite entry_order_versions by done. cbn. destruct Hsx as [Ex _], Hsy as [Ey _].
  pose proof (version_num_lt y x Hv Hvx Hx). rewrite (proj2 (Z.ltb_lt _ _)) by done.
  pose proof (user_mixed c (v_key x) k (v_key y)) as Hm. pose proof (user_sym k (v_key y)). pose proof (user_sym (v_key x) (v_key y)).
  pose proof (user_mixed c (v_key y) k (v_key x)). pose proof (user_sym (v_key x) k).
  destruct (Z.eqb_spec (Compare c (v_key x) (v_key y)) 0); lia.
Qed.

(** Both orders give the same list. *)
Lemma versions_table k s h W :
  Forall valid_version h → StronglySorted newer h → StronglySorted vlt W → W ≡ₚ h → filter (seen k s) W = versions_at k s h.
Proof.
  intros Hv Hn HW Hp. apply (StronglySorted_unique_strong vlt).
  - intros v w _ _ H1 H2. exfalso. unfold vlt in *. pose proof (internal_order_sym c (entry_key (entry_of v)) (entry_key (entry_of w))).
    unfold entry_order in *. lia.
  - by apply sorted_filter.
  - by apply versions_sorted.
  - unfold versions_at. by rewrite Hp.
Qed.

(** What one version does to a lookup. *)
Definition save_version (k : bytes) (sv : Saver) (v : version) : outcome (bool * Saver) :=
  if Z.eqb (v_type v) kTypeValue then
    if merge_in_progress sv then sv ← full_merge mo k (Some (v_value v)) sv; mret (false, sv)
    else mret (false, mkSaver StatusOK true (merge_in_progress sv) (v_value v) (operands sv))
  else if Z.eqb (v_type v) kTypeDeletion then
    if merge_in_progress sv then sv ← full_merge mo k None sv; mret (false, sv)
    else mret (false, mkSaver NotFound true (merge_in_progress sv) (sv_value sv) (operands sv))
  else match mo with
       | None => mret (false, mkSaver (InvalidArgument "merge_operator is not properly initialized.") true
                                (merge_in_progress sv) (sv_value sv) (operands sv))
       | Some _ => mret (true, mkSaver (sv_status sv) (found_final_value sv) true (sv_value sv) (v_value v :: operands sv))
       end.

(** What a lookup finds in the versions of a key, the newest first: the first value or
    deletion decides; the merge operands before it are collected. *)
Fixpoint resolve (k : bytes) (vs : list version) (sv : Saver) : outcome Saver :=
  match vs with
  | [] => Ok sv
  | v :: vs => x ← save_version k sv v; let '(go, sv) := x in if go : bool then resolve k vs sv else Ok sv
  end.

Lemma run_SaveValue k s sv v :
  valid_version v →
  SaveValue c mo (lookup_key k s) sv (entry_of v) =
    if Z.eqb (Compare c (v_key v) k) 0 then save_version k sv v else Ok (false, sv).
Proof.
  intros Hv. unfold SaveValue. rewrite read_entry by done. mred. pose proof (internal_is (v_key v) (version_num v)) as Hi.
  fold (version_key v) in Hi. rewrite decide_False by (unfold is_internal in Hi; lia). fold (key_user (version_key v)).
  unfold version_key at 1. rewrite internal_user, lookup_key_user. destruct (Z.eqb_spec (Compare c (v_key v) k) 0); [|done].
  rewrite run_key_number by done. mred. unfold version_key. rewrite internal_num by (by apply version_num_u64).
  rewrite (proj2 (version_num_parts v Hv)). unfold save_version. pose proof (read_entry_value v Hv) as Er. rewrite Er. mred.
  destruct Hv as [_ Ht _]. unfold kTypeMerge, kTypeValue, kTypeDeletion in *.
  destruct (Z.eqb_spec (v_type v) 1); [done|]. destruct (Z.eqb_spec (v_type v) 0); [done|].
  rewrite (proj2 (Z.eqb_eq (v_type v) 2)) by lia. done.
Qed.

Definition not_before (k : bytes) (s : Z) (v : version) : Prop :=
  (0 < Compare c (v_key v) k)%Z ∨ Compare c (v_key v) k = 0%Z ∧ (v_seq v ≤ s)%Z.

(** After a larger key there are only larger keys. *)
Lemma larger_after k v w : valid_version v → valid_version w → vlt v w → (0 < Compare c (v_key v) k)%Z → (0 < Compare c (v_key w) k)%Z.
Proof.
  intros Hv Hw Hlt Hk. unfold vlt in Hlt. rewrite entry_order_versions in Hlt by done. cbn in Hlt.
  pose proof (user_sym k (v_key v)). pose proof (user_sym k (v_key w)). pose proof (user_mixed c k (v_key v) (v_key w)).
  destruct (Z.eqb_spec (Compare c (v_key v) (v_key w)) 0); lia.
Qed.

Lemma run_Get_loop t k s X : ∀ n ks1 it sv,
  iter_at (KeyComparator c) t ks1 it (entry_of <$> X) → Forall valid_version X → StronglySorted vlt X →
  Forall (not_before k s) X → length X ≤ n →
  Get_loop c mo n (lookup_key k s) sv it t =
    (sv' ← resolve k (filter (λ v, Compare c (v_key v) k = 0%Z) X) sv; Ok (sv', t)).
Proof.
  induction X as [|v X IH]; intros n ks1 it sv Hat Hv Hs Hb Hn.
  { rewrite (iter_at_end _ _ _ _ Hat). by destruct n. }
  destruct (iter_at_cons _ _ _ _ _ _ Hat) as (l & El & Hk). destruct (iter_at_Next _ _ _ _ _ _ Hat) as (it' & Hnx & Hat').
  apply Forall_cons in Hv as [Hvv Hv]. apply Forall_cons in Hb as [Hbv Hb]. apply StronglySorted_inv in Hs as [Hs Hvx].
  destruct n as [|n]; cbn in Hn; [lia|]. rewrite El in *. cbn [Get_loop]. change (Iter_Valid (Some l)) with true. cbn [negb]. step Hk.
  rewrite filter_cons. destruct (decide (Compare c (v_key v) k = 0%Z)) as [E|E].
  - assert (SaveValue c mo (lookup_key k s) sv (entry_of v) = save_version k sv v) as Es
      by (rewrite run_SaveValue, E by done; done).
    rewrite Es. cbn [resolve]. destruct (save_version k sv v) as [[go sv']|e]; [|done].
    rewrite (bind_Ok _ _ _ (go, sv') t) by done. mred. destruct go; [|done]. step Hnx. by eapply IH; [..|lia].
  - rewrite (bind_Ok _ _ _ (false, sv) t).
    2:{ apply lift_Ok. rewrite run_SaveValue by done. by rewrite (proj2 (Z.eqb_neq _ _) E). }
    assert (filter (λ v, Compare c (v_key v) k = 0%Z) X = []) as ->; [|done].
    apply elem_of_nil_inv. intros w [Ew Hw]%list_elem_of_filter. rewrite Forall_forall in Hv, Hvx.
    pose proof (larger_after k v w Hvv (Hv w Hw) (Hvx w Hw)). destruct Hbv; lia.
Qed.

(** What comes after a version that is not before the lookup key is not before it either. *)
Lemma not_before_after k s v w : valid_version v → valid_version w → vlt v w → not_before k s v → not_before k s w.
Proof.
  intros Hv Hw Hlt [Hp|[E0 Hle]]; [left; by apply (larger_after k v w)|]. unfold vlt in Hlt. rewrite entry_order_versions in Hlt by done.
  pose proof (user_mixed c k (v_key v) (v_key w)). pose proof (user_sym k (v_key v)). pose proof (user_sym k (v_key w)).
  pose proof (version_num_lt v w Hv Hw). unfold not_before. cbn in Hlt.
  destruct (Z.eqb_spec (Compare c (v_key v) (v_key w)) 0); [|lia].
  destruct (Z.ltb_spec (version_num w) (version_num v)); repeat case_match; lia.
Qed.

Lemma seen_not_before k s X :
  Forall (not_before k s) X → filter (λ v, Compare c (v_key v) k = 0%Z) X = filter (seen k s) X.
Proof.
  induction 1 as [|v X Hv _ IH]; [done|]. rewrite !filter_cons, IH. unfold seen. destruct Hv as [Hv|[Hv Hs]].
  - rewrite !decide_False; [done|lia..].
  - rewrite !decide_True; [done|lia..].
Qed.

(** The lookup key divides the table: what is before it is not seen. *)
Lemma seek_versions k s W :
  lookup_ok k s → Forall valid_version W → StronglySorted vlt W →
  ∃ X, seek_key (entry_order c) (memtable_key (lookup_key k s)) (entry_of <$> W) = entry_of <$> X ∧
    Forall valid_version X ∧ StronglySorted vlt X ∧ Forall (not_before k s) X ∧
    filter (λ v, Compare c (v_key v) k = 0%Z) X = filter (seen k s) W.
Proof.
  intros Hk Hv Hs. induction Hs as [|v W Hs IH Hvx]; [exists []; by repeat constructor|].
  apply Forall_cons in Hv as [Hvv Hv]. cbn [fmap list_fmap seek_key].
  pose proof (before_lookup k s v Hk Hvv) as Hb. destruct (before _ _ _).
  - destruct (IH Hv) as (X & E & H1 & H2 & H3 & H4). exists X. split_and!; try done. rewrite filter_cons_False; [done|].
    intros [E0 Hle]. destruct (proj1 Hb eq_refl) as [?|[_ ?]]; lia.
  - assert (not_before k s v) as Hnv.
    { unfold not_before. destruct (Z.lt_trichotomy (Compare c (v_key v) k) 0) as [?|[?|?]]; [|right|by left].
      - exfalso. apply diff_false_true, Hb. by left.
      - split; [done|]. apply Z.nlt_ge. intros ?. apply diff_false_true, Hb. by right. }
    assert (Forall (not_before k s) (v :: W)) as Hnb.
    { constructor; [done|]. apply Forall_forall. intros w Hw. rewrite Forall_forall in Hv, Hvx.
      exact (not_before_after k s v w Hvv (Hv w Hw) (Hvx w Hw) Hnv). }
    exists (v :: W). split_and!; [done|by constructor..|done|by apply seen_not_before].
Qed.

Lemma empty_iff m h : mem_holds m h → IsEmpty m = bool_decide (h = []).
Proof.
  intros [_ Hv _ _ _ Hf]. unfold IsEmpty. rewrite Hf. unfold first_seq. destruct h as [|v h _] using rev_ind; [done|].
  rewrite last_snoc, bool_decide_false by (by destruct h). apply Forall_app in Hv as [_ [Hv _]%Forall_cons].
  apply Z.eqb_neq. destruct Hv. lia.
Qed.

(** What [Get] returns: nothing changes if the table is empty. *)
Definition lookup_result h (k : bytes) (s : Z) (value : bytes) (st : Status) (ops : list bytes)
    : outcome (bool * (bytes * Status * list bytes)) :=
  if bool_decide (h = []) then Ok (false, (value, st, ops)) else
  sv ← resolve k (versions_at k s h) (mkSaver st false (IsMergeInProgress st) value ops);
  Ok (found_final_value sv, (sv_value sv,
    if negb (found_final_value sv) && merge_in_progress sv then MergeInProgress else sv_status sv, operands sv)).

(** Where a lookup starts, and what it then sees. *)
Lemma seek_lookup m h k s :
  mem_holds m h → lookup_ok k s →
  ∃ ks1 it X, Iter_Seek (KeyComparator c) (memtable_key (lookup_key k s)) (table_ m) = Ok (it, table_ m) ∧
    iter_at (KeyComparator c) (table_ m) ks1 it (entry_of <$> X) ∧ Forall valid_version X ∧ StronglySorted vlt X ∧
    Forall (not_before k s) X ∧ filter (λ v, Compare c (v_key v) k = 0%Z) X = versions_at k s h ∧
    length X ≤ size (list_nodes (table_ m)).
Proof.
  intros [(W & Hs & HW) Hva Hn _ _ _] Hk.
  assert (Forall valid_version W) as HvW by (by rewrite HW). pose proof (table_sorted _ _ Hs) as HsW.
  destruct (seek_versions k s W Hk HvW HsW) as (X & E & H1 & H2 & H3 & H4).
  destruct (seek_spec (KeyComparator c) (table_ m) _ _ Hs (lookup_key_is k s Hk)) as (ks1 & it & Hseek & Hat).
  change (key_order (KeyComparator c)) with (entry_order c) in Hat. rewrite E in Hat.
  exists ks1, it, X. split_and!; try done.
  - by rewrite H4, (versions_table k s h W).
  - destruct Hat as (A & B & Hsh & HA & HB & _). pose proof (length_nodes (KeyComparator c) _ _ Hsh) as Hl.
    apply Forall2_length in HB. rewrite length_fmap in HB. rewrite length_app in Hl. lia.
Qed.

Lemma Get_spec m h k s value st ops :
  mem_holds m h → lookup_ok k s →
  MemTable_Get c mo (lookup_key k s) value st ops m = (r ← lookup_result h k s value st ops; Ok (r, m)).
Proof.
  intros Hm Hk. unfold MemTable_Get, lookup_result. rewrite (bind_Ok _ _ _ m m) by done. rewrite (empty_iff m h Hm).
  case_bool_decide as Hh; [done|]. destruct (seek_lookup m h k s Hm Hk) as (ks1 & it & X & Hseek & Hat & Hv & Hs & Hb & E & Hl).
  set (sv := mkSaver _ _ _ _ _).
  assert (SkipListRep_Get c mo (lookup_key k s) sv (table_ m) = (sv' ← resolve k (versions_at k s h) sv; Ok (sv', table_ m))) as Hget.
  { unfold SkipListRep_Get. step Hseek. rewrite (bind_Ok _ _ _ (size (list_nodes (table_ m))) (table_ m)) by done.
    rewrite <-E. by apply run_Get_loop with ks1. }
  unfold mbind at 1, prog_bind, on_table. rewrite Hget. destruct (resolve _ _ sv) as [sv'|]; [|done]. by destruct m.
Qed.

(** ** Counting merge operands *)

(** How many merge operands come before anything else. *)
Fixpoint leading_merges (vs : list version) : nat :=
  match vs with v :: vs => if Z.eqb (v_type v) kTypeMerge then S (leading_merges vs) else 0 | [] => 0 end.

Lemma run_Count_loop t k s X : ∀ fuel n ks1 it,
  iter_at (KeyComparator c) t ks1 it (entry_of <$> X) → Forall valid_version X → StronglySorted vlt X →
  Forall (not_before k s) X → length X ≤ fuel →
  Count_loop c fuel (lookup_key k s) n it t =
    Ok (n + leading_merges (filter (λ v, Compare c (v_key v) k = 0%Z) X), t).
Proof.
  induction X as [|v X IH]; intros fuel n ks1 it Hat Hv Hs Hb Hn.
  { rewrite (iter_at_end _ _ _ _ Hat). cbn. rewrite Nat.add_0_r. by destruct fuel. }
  destruct (iter_at_cons _ _ _ _ _ _ Hat) as (l & El & Hk). destruct (iter_at_Next _ _ _ _ _ _ Hat) as (it' & Hnx & Hat').
  apply Forall_cons in Hv as [Hvv Hv]. apply Forall_cons in Hb as [Hbv Hb]. apply StronglySorted_inv in Hs as [Hs Hvx].
  destruct fuel as [|fuel]; cbn in Hn; [lia|]. rewrite El in *. cbn [Count_loop]. change (Iter_Valid (Some l)) with true. cbn [negb]. step Hk.
  rewrite (bind_Ok _ _ _ _ _ (lift_Ok _ t _ (read_entry v Hvv))). cbn [fst]. pose proof (internal_is (v_key v) (version_num v)) as Hi.
  fold (version_key v) in Hi. rewrite decide_False by (unfold is_internal in Hi; lia). fold (key_user (version_key v)).
  unfold version_key at 1. rewrite internal_user, lookup_key_user, filter_cons.
  destruct (decide (Compare c (v_key v) k = 0%Z)) as [E|E].
  - rewrite E. cbn [Z.eqb negb leading_merges]. rewrite (bind_Ok _ _ _ (version_num v) t).
    2:{ apply lift_Ok. rewrite run_key_number by done. unfold version_key. by rewrite internal_num by (by apply version_num_u64). }
    rewrite (proj2 (version_num_parts v Hvv)). destruct (Z.eqb (v_type v) kTypeMerge); cbn [negb]; [|by rewrite Nat.add_0_r].
    step Hnx. rewrite (IH fuel (S n) _ _ Hat' Hv Hs Hb) by lia. do 2 f_equal. lia.
  - rewrite (proj2 (Z.eqb_neq _ _) E). cbn [negb].
    assert (filter (λ v, Compare c (v_key v) k = 0%Z) X = []) as ->; [|by rewrite Nat.add_0_r].
    apply elem_of_nil_inv. intros w [Ew Hw]%list_elem_of_filter. rewrite Forall_forall in Hv, Hvx.
    pose proof (larger_after k v w Hvv (Hv w Hw) (Hvx w Hw)). destruct Hbv; lia.
Qed.

Lemma Count_spec m h k s :
  mem_holds m h → lookup_ok k s →
  CountSuccessiveMergeEntries c (lookup_key k s) m = Ok (leading_merges (versions_at k s h), m).
Proof.
  intros Hm Hk. destruct (seek_lookup m h k s Hm Hk) as (ks1 & it & X & Hseek & Hat & Hv & Hs & Hb & E & Hl).
  unfold CountSuccessiveMergeEntries, on_table. step Hseek. rewrite (bind_Ok _ _ _ (size (list_nodes (table_ m))) (table_ m)) by done.
  rewrite (run_Count_loop _ k s X _ _ ks1), E by done. by destruct m.
Qed.

(** ** Many additions *)

Fixpoint add_versions (vs : list version) : prog MemTable unit :=
  match vs with
  | [] => mret tt
  | v :: vs => MemTable_Add c (v_seq v) (v_type v) (v_key v) (v_value v);; add_versions vs
  end.

Lemma run_add_versions vs : ∀ m h,
  mem_holds m h → Forall valid_version vs → StronglySorted newer (reverse vs ++ h) →
  ∃ m', add_versions vs m = Ok (tt, m') ∧ mem_holds m' (reverse vs ++ h).
Proof.
  induction vs as [|v vs IH]; intros m h Hm Hv Hs; [by exists m|]. apply Forall_cons in Hv as [Hvv Hv].
  rewrite reverse_cons, <-app_assoc in *. cbn [app] in *. destruct (Add_spec m h v Hm Hvv) as (m1 & E1 & Hm1).
  { clear -Hs. induction (reverse vs) as [|w l IH]; apply StronglySorted_inv in Hs as [Hs ?]; [done|by apply IH]. }
  destruct (IH m1 (v :: h) Hm1 Hv Hs) as (m' & E & Hm'). exists m'. split; [|done]. cbn [add_versions]. by step E1.
Qed.
End spec.

(** ** Properties *)

(** C15: a memtable is a history of versions.  Adding versions with increasing sequence
    numbers to a new memtable succeeds, and a lookup of a key at a sequence number then
    gives what the versions of this key up to that number determine, the newest first: the
    value or the deletion that comes first, with the merge operands before it applied or
    collected.  The operands are counted the same way.  Neither changes the table. *)
Theorem memtable_refines c `{!UserComparatorLaws c} mo vs :
  Forall valid_version vs → StronglySorted newer (reverse vs) →
  ∃ m0 m, MemTable_new = Ok m0 ∧ add_versions c vs m0 = Ok (tt, m) ∧
    num_entries_ m = Z.of_nat (length vs) ∧ GetFirstSequenceNumber m = first_seq (reverse vs) ∧
    ∀ k s, lookup_ok k s →
      (∀ value st ops, MemTable_Get c mo (lookup_key k s) value st ops m =
        (r ← lookup_result c mo (reverse vs) k s value st ops; Ok (r, m))) ∧
      CountSuccessiveMergeEntries c (lookup_key k s) m = Ok (leading_merges (versions_at c k s (reverse vs)), m).
Proof.
  intros Hv Hs. destruct (mem_new c) as (m0 & E0 & Hm0).
  destruct (run_add_versions c vs m0 [] Hm0 Hv) as (m & E & Hm); rewrite app_nil_r in *; [done|].
  exists m0, m. split_and!; try done.
  - rewrite (mh_entries _ _ _ Hm). by rewrite length_reverse.
  - apply (mh_first _ _ _ Hm).
  - intros k s Hk. split; [intros; by apply (Get_spec c)|by apply (Count_spec c)].
Qed.

Definition ex_history : list version :=
  [mkVersion 1 kTypeValue (str "a") (str "x"); mkVersion 2 kTypeMerge (str "a") (str "y"); mkVersion 3 kTypeDeletion (str "b") []].

Lemma memtable_refines_witness :
  ∃ m, GetFirstSequenceNumber m = 1%Z ∧
    CountSuccessiveMergeEntries BytewiseComparator (lookup_key (str "a") 7) m = Ok (1, m).
Proof.
  destruct (memtable_refines BytewiseComparator None ex_history) as (m0 & m & _ & _ & _ & Hf & Hk).
  - repeat (apply Forall_cons; split); [constructor; vm_compute; repeat split; discriminate..|apply Forall_nil; exact I].
  - vm_compute. repeat constructor.
  - exists m. split; [exact Hf|]. apply Hk. vm_compute. repeat split; discriminate.
Defined.
