(* ===== verification/DbImpl.v ===== *)
(** * RocksDB: applying a batch, writing, reading and recovering

    Models [MemTableInserter] and [InsertInto] of [src/src/rocksdb/db/write_batch.cc] over
    the column families of [db/column_family.cc]: the handler that gives the updates of a
    batch consecutive sequence numbers and adds them to the memtables.

    The options of a column family are the defaults, which the program does not change:
    [inplace_update_support] and [filter_deletes] are off and [max_successive_merges] is
    zero.  [CheckMemtableFull], which schedules a flush, is left out.

    Models [Write], [Put], [Delete], [GetImpl] and the replay of a log file in
    [RecoverLogFiles] of [src/src/rocksdb/db/db_impl.cc], and the queue of writers of
    [db/write_thread.cc]: a write is appended to the log and then applied to the memtables;
    the writer at the front of the queue also does the work of those behind it.

    Writers are served one turn at a time, as the mutex has it.  The model is of a database
    for which no flush is due: neither is the memtable switched nor are writes delayed, and
    no write has a time limit.  What immutable memtables and table files contribute to a
    read, [older], and the call that makes the log durable, [sync_log], are parameters. *)

From S2P Require Import Prelude Varint Coding Crc32c Env WriteBatch Log SkipList DbFormat MemTable.
From stdpp Require Import gmap.

Record ColumnFamilyData := mkFamily { cf_log_number : Z; cf_mem : MemTable }.
Abbreviation families := (gmap Z ColumnFamilyData).

Record MemTableInserter := mkInserter {
  sequence_ : Z; cf_mems_ : families; ignore_missing_column_families_ : bool; log_number_ : Z;
}.

Section inserter.
Context (user_comparator : UserComparator).
Abbreviation cmd := (prog MemTableInserter).

(** Whether the update is to be applied, and the status if it is not. *)
Definition SeekToColumnFamily (column_family_id : Z) : cmd (bool * Status) :=
  i ← gets id;
  mret (match cf_mems_ i !! column_family_id with
        | None =>
            (false, if ignore_missing_column_families_ i then StatusOK
                    else InvalidArgument "Invalid column family specified in write batch")
        | Some cf =>
            (negb (negb (Z.eqb (log_number_ i) 0) && Z.ltb (log_number_ i) (cf_log_number cf)), StatusOK)
        end).

Definition next_sequence : cmd unit :=
  modify (λ i, mkInserter (u64 (sequence_ i + 1)) (cf_mems_ i) (ignore_missing_column_families_ i) (log_number_ i)).

(** A call on the memtable of a family. *)
Definition on_family {A} (column_family_id : Z) (c : prog MemTable A) : cmd A := λ i,
  match cf_mems_ i !! column_family_id with
  | None => Err AssertFailed
  | Some cf =>
      match c (cf_mem cf) with
      | Ok (x, m) =>
          Ok (x, mkInserter (sequence_ i) (<[column_family_id := mkFamily (cf_log_number cf) m]> (cf_mems_ i))
                   (ignore_missing_column_families_ i) (log_number_ i))
      | Err e => Err e
      end
  end.

(** What the three methods have in common. *)
Definition insert_update (type column_family_id : Z) (key value : bytes) : cmd Status :=
  x ← SeekToColumnFamily column_family_id;
  let '(found, seek_status) := x in
  if negb found then next_sequence;; mret seek_status else
  seq ← gets sequence_;
  on_family column_family_id (MemTable_Add user_comparator seq type key value);;
  next_sequence;;
  mret StatusOK.

#[export] Instance inserter_Handler : Handler MemTableInserter := {|
  PutCF := insert_update kTypeValue;
  DeleteCF cf key := insert_update kTypeDeletion cf key [];
  MergeCF := insert_update kTypeMerge;
  LogData _ := mret tt;
  Continue := mret true;
|}.

Definition InsertInto (b : WriteBatch) (memtables : families) (ignore_missing : bool) (log_number : Z)
    : outcome (Status * families) :=
  seq ← WriteBatchInternal_Sequence b;
  x ← Iterate (H := MemTableInserter) b (mkInserter seq memtables ignore_missing log_number);
  mret (fst x, cf_mems_ (snd x)).
End inserter.

(** * Writing, reading and recovering *)

(** ** The queue of writers *)

(** [timeout_hint_us] as [Write] sets it: [kNoTimeOut] for the default. *)
Record WriteRequest := mkRequest {
  w_batch : option WriteBatch; w_sync : bool; w_disableWAL : bool; w_ignore_missing : bool; w_timeout : Z;
}.

Definition kNoTimeOut : Z := 2 ^ 64 - 1.

(** The writers behind the first one that join its group. *)
Fixpoint group_loop (first : WriteRequest) (size max_size : Z) (ws : list WriteRequest) : list WriteBatch :=
  match ws with
  | [] => []
  | w :: ws =>
      if w_sync w && negb (w_sync first) then []
      else if negb (w_disableWAL w) && w_disableWAL first then []
      else if Z.ltb (w_timeout w) (w_timeout first) then []
      else match w_batch w with
           | None => []
           | Some b =>
               let size := (size + Z.of_nat (WriteBatchInternal_ByteSize b))%Z in
               if Z.ltb max_size size then [] else b :: group_loop first size max_size ws
           end
  end.

Definition BuildBatchGroup (writers : list WriteRequest) : outcome (list WriteBatch) :=
  match writers with
  | [] => Err AssertFailed
  | first :: rest =>
      match w_batch first with
      | None => Err AssertFailed
      | Some b =>
          let size := Z.of_nat (WriteBatchInternal_ByteSize b) in
          let max_size := (if Z.leb size (Z.shiftl 128 10) then size + Z.shiftl 128 10 else Z.shiftl 1 20)%Z in
          Ok (b :: group_loop first size max_size rest)
      end
  end.

Fixpoint append_all (dst : WriteBatch) (bs : list WriteBatch) : outcome WriteBatch :=
  match bs with
  | [] => Ok dst
  | b :: bs => dst ← WriteBatchInternal_Append dst b; append_all dst bs
  end.

(** ** The database *)

Record DBImpl (F : Type) := mkDB {
  db_families : families; last_sequence_ : Z; log_ : Writer F; bg_error_ : Status; tmp_batch_ : WriteBatch;
}.
Arguments mkDB {F}.
Arguments db_families {F}.
Arguments last_sequence_ {F}.
Arguments log_ {F}.
Arguments bg_error_ {F}.
Arguments tmp_batch_ {F}.

Section db.
Context (pl : platform) (user_comparator : UserComparator).
Context (merge_operator : option (bytes → option bytes → list bytes → bool * bytes)).
Context (paranoid_checks : bool).
Context {F : Type} `{WritableFile F} (sync_log : F → Status * F).
Abbreviation cmd := (prog (DBImpl F)).

Definition set_tmp_batch (b : WriteBatch) : cmd unit :=
  modify (λ d, mkDB (db_families d) (last_sequence_ d) (log_ d) (bg_error_ d) b).
Definition set_families (fs : families) : cmd unit :=
  modify (λ d, mkDB fs (last_sequence_ d) (log_ d) (bg_error_ d) (tmp_batch_ d)).
Definition SetLastSequence (s : Z) : cmd unit :=
  last ← gets last_sequence_;
  assert (Z.leb last s);;
  modify (λ d, mkDB (db_families d) s (log_ d) (bg_error_ d) (tmp_batch_ d)).
Definition set_bg_error (s : Status) : cmd unit :=
  modify (λ d, mkDB (db_families d) (last_sequence_ d) (log_ d) s (tmp_batch_ d)).

(** A call on the log. *)
Definition on_log {A} (c : prog (Writer F) A) : cmd A := λ d,
  match c (log_ d) with
  | Ok (x, w) => Ok (x, mkDB (db_families d) (last_sequence_ d) w (bg_error_ d) (tmp_batch_ d))
  | Err e => Err e
  end.

Definition sync : prog (Writer F) Status := λ w,
  let '(s, f) := sync_log (dest_ w) in Ok (s, mkWriter f (block_offset_ w) (type_crc_ w)).

(** The updates of the group: one batch is used as it is, several are collected. *)
Definition group_updates (group : list WriteBatch) : cmd WriteBatch :=
  match group with
  | [b] => mret b
  | _ => tmp ← gets tmp_batch_; b ← lift (append_all tmp group); set_tmp_batch b;; mret b
  end.

(** Appends the updates to the log. *)
Definition write_log (first : WriteRequest) (updates : WriteBatch) : cmd Status :=
  if w_disableWAL first then mret StatusOK else
  s ← on_log (AddRecord pl (WriteBatchInternal_Contents updates));
  if ok s && w_sync first then on_log sync else mret s.

(** Applies the updates to the memtables. *)
Definition write_memtables (first : WriteRequest) (updates : WriteBatch) : cmd Status :=
  d ← gets id;
  x ← lift (InsertInto user_comparator updates (db_families d) (w_ignore_missing first) 0);
  let '(s, fs) := x in
  set_families fs;;
  mret s.

Definition write_group (first : WriteRequest) (group : list WriteBatch) : cmd Status :=
  last_sequence ← gets last_sequence_;
  updates ← group_updates group;
  updates ← lift (WriteBatchInternal_SetSequence updates (u64 (last_sequence + 1)));
  count ← lift (WriteBatchInternal_Count updates);
  s ← write_log first updates;
  s ← (if ok s then write_memtables first updates else mret s);
  (if decide (length group = 1) then mret tt else set_tmp_batch (WriteBatch_Clear updates));;
  (if ok s then SetLastSequence (u64 (last_sequence + count)) else mret tt);;
  mret s.

(** The turn of the writer at the front of the queue: its status, and how many writers
    are done with it. *)
Definition Write_front (writers : list WriteRequest) : cmd (Status * nat) :=
  match writers with
  | [] => fail AssertFailed
  | first :: _ =>
      d ← gets id;
      x ← (if ok (bg_error_ d) then
             group ← lift (BuildBatchGroup writers);
             s ← write_group first group;
             mret (s, length group)
           else mret (bg_error_ d, 1));
      let '(s, served) := x in
      (if paranoid_checks && negb (ok s) && negb (bool_decide (code s = kTimedOut)) && ok (bg_error_ d)
       then set_bg_error s else mret tt);;
      mret (s, served)
  end.

(** [Write] when no other writer is waiting. *)
Definition Write (write_sync disableWAL ignore_missing : bool) (my_batch : option WriteBatch) : cmd Status :=
  match my_batch with
  | None => mret (Corruption "Batch is nullptr!")
  | Some b =>
      x ← Write_front [mkRequest (Some b) write_sync disableWAL ignore_missing kNoTimeOut];
      mret (fst x)
  end.

(** With [WriteOptions()]. *)
Definition DB_Put (key value : bytes) : cmd Status :=
  b ← lift (WriteBatch_Put WriteBatch_new (Some 0%Z) key value); Write false false false (Some b).
Definition DBImpl_Delete (key : bytes) : cmd Status :=
  b ← lift (WriteBatch_Delete WriteBatch_new (Some 0%Z) key); Write false false false (Some b).

(** ** Reading *)

(** What [imm->Get] and [current->Get] make of the value, the status and the operands. *)
Context (older : LookupKey → bytes → Status → list bytes → Status * bytes).

Definition GetImpl (snapshot : option Z) (column_family : Z) (key value : bytes) : cmd (Status * bytes) :=
  d ← gets id;
  let snapshot := match snapshot with Some s => s | None => last_sequence_ d end in
  lkey ← lift (LookupKey_new key snapshot);
  cf ← lift (of_option NullDeref (db_families d !! column_family));
  x ← lift (MemTable_Get user_comparator merge_operator lkey value StatusOK [] (cf_mem cf));
  let '(done, (value, s, operands), _) := x in
  if done : bool then mret (s, value) else mret (older lkey value s operands).
End db.

(** ** Recovery *)

Section recovery.
Context (pl : platform) (user_comparator : UserComparator) (paranoid_checks : bool).
Context {F : Type} `{SequentialFile F}.

Definition MaybeIgnoreError (s : Status) : Status := if ok s || paranoid_checks then s else StatusOK.

(** [reporter.status] after the reports: the first one, if the checks are on. *)
Definition reported (s : Status) (reports : list (Z * Status)) : Status :=
  if paranoid_checks && ok s then match reports with r :: _ => snd r | [] => s end else s.

Record recovering := mkRecovering { rc_families : families; max_sequence : Z }.

(** The loop over the records of a log; [log_number] is that of the file.  The reports of
    the reader are in the order they were made. *)
Fixpoint recover_loop (n fuel : nat) (log_number : Z) (status : Status) (r : Reader F) (st : recovering)
    : outcome (Status * recovering) :=
  match n with
  | O => Err OutOfFuel
  | S n =>
      x ← ReadRecord pl (mkReaderOptions true true 0) fuel r;
      let '(rec, r) := x in
      let status := reported status (reports r) in
      match rec with
      | None => Ok (status, st)
      | Some record =>
          if negb (ok status) then Ok (status, st)
          else if decide (length record < 12) then
            recover_loop n fuel log_number (reported status [(0%Z, Corruption "log record too small")]) r st
          else
            batch ← WriteBatchInternal_SetContents WriteBatch_new record;
            y ← InsertInto user_comparator batch (rc_families st) true log_number;
            let '(s, fs) := y in
            let s := MaybeIgnoreError s in
            if negb (ok s) then Ok (s, mkRecovering fs (max_sequence st)) else
            seq ← WriteBatchInternal_Sequence batch;
            count ← WriteBatchInternal_Count batch;
            let last_seq := u64 (seq + count - 1) in
            recover_loop n fuel log_number s r
              (mkRecovering fs (if Z.ltb (max_sequence st) last_seq then last_seq else max_sequence st))
      end
  end.

(** The log files in order, each with its number, for a database that is opened for reading
    only: the memtables are kept.  [last_sequence] is that of the database. *)
Fixpoint RecoverLogFiles (n fuel : nat) (logs : list (Z * F)) (last_sequence : Z) (st : recovering)
    : outcome (Status * recovering * Z) :=
  match logs with
  | [] => Ok (StatusOK, st, last_sequence)
  | (log_number, file) :: logs =>
      x ← recover_loop n fuel log_number StatusOK (Reader_new file) st;
      let '(s, st) := x in
      if negb (ok s) then Ok (s, st, last_sequence) else
      RecoverLogFiles n fuel logs (if Z.ltb last_sequence (max_sequence st) then max_sequence st else last_sequence) st
  end.
End recovery.
