(* ===== verification/DbWrite.v ===== *)
(** * RocksDB: what a write does

    The updates of a batch become versions with consecutive sequence numbers; [apply_updates]
    is the list they are put in front of, for every column family.

    [db_holds d A recs] says that the memtables of the database hold the versions [A] and
    its log the records [recs].  A group of batches becomes one record and consecutive
    versions. *)

From S2P Require Import Prelude Varint Coding Crc32c Env WriteBatch WriteBatchSpec Log LogLaws SkipList SkipListLaws.
From S2P Require Import DbFormat DbFormatLaws MemTable MemTableSpec DbImpl.
From stdpp Require Import gmap sorting.

(** ** Versions of a batch *)

(** For every family the number of its log and its versions, the newest first. *)
Abbreviation histories := (gmap Z (Z * list version)).

Definition version_of (seq : Z) (u : update) : option (Z * version) :=
  match u with
  | OpPut cf k v => Some (cf, mkVersion seq kTypeValue k v)
  | OpDelete cf k => Some (cf, mkVersion seq kTypeDeletion k [])
  | OpMerge cf k v => Some (cf, mkVersion seq kTypeMerge k v)
  | OpLog _ => None
  end.

(** One version: a missing family is an error unless it is to be ignored; in recovery a
    family that has already been written to a later log is left alone. *)
Definition apply_version (ignore : bool) (log cf : Z) (v : version) (A : histories) : Status * histories :=
  match A !! cf with
  | None => (if ignore then StatusOK else InvalidArgument "Invalid column family specified in write batch", A)
  | Some (ln, h) =>
      if negb (Z.eqb log 0) && Z.ltb log ln then (StatusOK, A) else (StatusOK, <[cf := (ln, v :: h)]> A)
  end.

Fixpoint apply_updates (ignore : bool) (log seq : Z) (us : list update) (A : histories) : Status * histories :=
  match us with
  | [] => (StatusOK, A)
  | u :: us =>
      match version_of seq u with
      | None => apply_updates ignore log seq us A
      | Some (cf, v) =>
          let '(s, A) := apply_version ignore log cf v A in
          if ok s then apply_updates ignore log (seq + 1) us A else (s, A)
      end
  end.

(** The key and the value of an update fit an entry. *)
Definition small_update (u : update) : Prop :=
  match u with
  | OpPut _ k v | OpMerge _ k v => small_entry k v
  | OpDelete _ k => small_entry k []
  | OpLog _ => True
  end.

(** All sequence numbers are below [seq]. *)
Definition below (seq : Z) (A : histories) : Prop :=
  ∀ cf ln h, A !! cf = Some (ln, h) → Forall (λ v, v_seq v < seq)%Z h.

Section spec.
Context (c : UserComparator) `{!UserComparatorLaws c}.
Implicit Types (A : histories) (i : MemTableInserter).

Definition fam_holds (cfs : families) A : Prop :=
  ∀ cf, match cfs !! cf, A !! cf with
        | Some f, Some (ln, h) => cf_log_number f = ln ∧ mem_holds c (cf_mem f) h
        | None, None => True
        | _, _ => False
        end.

Lemma fam_holds_insert cfs A cf ln m h :
  fam_holds cfs A → mem_holds c m h → fam_holds (<[cf := mkFamily ln m]> cfs) (<[cf := (ln, h)]> A).
Proof.
  intros Hf Hm cf'. destruct (decide (cf = cf')) as [<-|]; [by rewrite !lookup_insert_eq|].
  rewrite !lookup_insert_ne by done. apply Hf.
Qed.

Lemma below_next seq A : below seq A → below (seq + 1) A.
Proof. intros Hb cf ln h E. eapply Forall_impl; [by eapply Hb|]. cbn. lia. Qed.

Lemma below_insert seq A cf ln v h :
  below seq A → A !! cf = Some (ln, h) → v_seq v = seq → below (seq + 1) (<[cf := (ln, v :: h)]> A).
Proof.
  intros Hb E Hv cf' ln' h'. destruct (decide (cf = cf')) as [<-|].
  - rewrite lookup_insert_eq. intros [= <- <-]. constructor; [lia|]. eapply Forall_impl; [by eapply Hb|]. cbn. lia.
  - rewrite lookup_insert_ne by done. by apply below_next.
Qed.

(** The state of the inserter that stands for [A]. *)
Record inserting i A : Prop := {
  in_holds : fam_holds (cf_mems_ i) A;
  in_below : below (sequence_ i) A;
  in_seq : (1 ≤ sequence_ i)%Z;
}.

Lemma run_next i :
  (0 ≤ sequence_ i < kMaxSequenceNumber + 1)%Z →
  next_sequence i = Ok (tt, mkInserter (sequence_ i + 1) (cf_mems_ i) (ignore_missing_column_families_ i) (log_number_ i)).
Proof. unfold next_sequence, modify, kMaxSequenceNumber. intros Hi. by rewrite Z.mod_small by lia. Qed.

Lemma insert_update_spec i A t cf k v :
  inserting i A → (sequence_ i ≤ kMaxSequenceNumber)%Z → (0 ≤ t ≤ kTypeMerge)%Z → small_entry k v →
  let r := apply_version (ignore_missing_column_families_ i) (log_number_ i) cf (mkVersion (sequence_ i) t k v) A in
  ∃ i', insert_update c t cf k v i = Ok (fst r, i') ∧ inserting i' (snd r) ∧ sequence_ i' = (sequence_ i + 1)%Z ∧
    ignore_missing_column_families_ i' = ignore_missing_column_families_ i ∧ log_number_ i' = log_number_ i.
Proof.
  intros [Hf Hb Hs] Hmax Ht Hz. pose proof (run_next i ltac:(lia)) as Hnx. cbn zeta. unfold apply_version, insert_update, SeekToColumnFamily.
  pose proof (Hf cf) as Hcf. rewrite bind_assoc, (bind_Ok _ _ _ i i) by done. destruct (cf_mems_ i !! cf) as [f|] eqn:Ef.
  2:{ destruct (A !! cf) as [[]|] eqn:EA; [done|]. cbn. rewrite (bind_Ok _ _ _ _ i) by done. cbn [negb]. step Hnx.
      eexists. split_and!; [done| |done..]. constructor; cbn; [done|by apply below_next|lia]. }
  destruct (A !! cf) as [[ln h]|] eqn:EA; [|done]. destruct Hcf as [<- Hm]. rewrite (bind_Ok _ _ _ _ i) by done.
  destruct (negb (Z.eqb (log_number_ i) 0) && _); cbn [fst snd negb].
  { step Hnx. eexists. split_and!; [done| |done..]. constructor; cbn; [done|by apply below_next|lia]. }
  destruct (Add_spec c (cf_mem f) h (mkVersion (sequence_ i) t k v) Hm) as (m' & Hadd & Hm').
  { constructor; [cbn; lia|done..]. }
  { eapply Forall_impl; [by eapply Hb|]. done. }
  cbn [v_seq v_type v_key v_value] in Hadd. rewrite (bind_Ok _ _ _ (sequence_ i) i) by done.
  set (i1 := mkInserter (sequence_ i) (<[cf := mkFamily (cf_log_number f) m']> (cf_mems_ i))
    (ignore_missing_column_families_ i) (log_number_ i)).
  rewrite (bind_Ok _ _ _ tt i1) by (unfold on_family; by rewrite Ef, Hadd).
  rewrite (bind_Ok _ _ _ _ _ (run_next i1 ltac:(cbn; lia))). eexists. split_and!; [done| |done..].
  constructor; cbn; [by apply fam_holds_insert|by apply below_insert|lia].
Qed.

(** The updates one after the other. *)
Lemma run_updates_spec us : ∀ i A,
  inserting i A → Forall small_update us → (sequence_ i + count_updates us ≤ kMaxSequenceNumber + 1)%Z →
  let r := apply_updates (ignore_missing_column_families_ i) (log_number_ i) (sequence_ i) us A in
  ∃ i', run_updates (H := MemTableInserter) (H0 := inserter_Handler c) us i = Ok (fst r, i') ∧ fam_holds (cf_mems_ i') (snd r) ∧
    below (sequence_ i + count_updates us) (snd r).
Proof.
  induction us as [|u us IH]; intros i A Hi Hz Hn; cbn zeta.
  { exists i. destruct Hi. split_and!; [done..|]. cbn. by rewrite Z.add_0_r. }
  apply Forall_cons in Hz as [Hu Hz]. rewrite count_updates_cons in *. pose proof (count_updates_nonneg us).
  cbn [run_updates apply_updates]. destruct (version_of (sequence_ i) u) as [[cf v]|] eqn:Ev.
  2:{ destruct u; try done. cbn [handle_update counted] in *. unfold LogData. cbn. by apply IH. }
  assert (counted u = 1%Z) as Hc by (by destruct u).
  assert (∃ i', handle_update (H0 := inserter_Handler c) u i =
      Ok (fst (apply_version (ignore_missing_column_families_ i) (log_number_ i) cf v A), i') ∧
      inserting i' (snd (apply_version (ignore_missing_column_families_ i) (log_number_ i) cf v A)) ∧
      sequence_ i' = (sequence_ i + 1)%Z ∧
      ignore_missing_column_families_ i' = ignore_missing_column_families_ i ∧ log_number_ i' = log_number_ i)
    as (i' & Hu' & Hi' & Es & Eg & El).
  { destruct u; try done; injection Ev as <- <-; apply insert_update_spec; try done; unfold kTypeValue, kTypeDeletion, kTypeMerge; lia. }
  step Hu'. destruct (apply_version _ _ _ _ _) as [s A'] eqn:Ea. cbn [fst snd] in *. destruct (ok s) eqn:Eok.
  - destruct (IH i' A' Hi' Hz ltac:(lia)) as (i2 & Hr & Hf & Hb). rewrite Es, Eg, El in *. exists i2. split_and!; [done..|].
    rewrite Hc. by rewrite Z.add_assoc.
  - exists i'. destruct Hi' as [Hf Hb _]. split_and!; [done..|]. intros cf' ln h E. eapply Forall_impl; [by eapply Hb|]. cbn. lia.
Qed.

Lemma InsertInto_spec b seq us cfs A ignore log :
  holds_updates b seq us → Forall update_ok us → Forall small_update us → (count_updates us < 2 ^ 31)%Z →
  fam_holds cfs A → below seq A → (1 ≤ seq)%Z → (seq + count_updates us ≤ kMaxSequenceNumber + 1)%Z →
  let r := apply_updates ignore log seq us A in
  ∃ cfs', InsertInto c b cfs ignore log = Ok (fst r, cfs') ∧ fam_holds cfs' (snd r) ∧ below (seq + count_updates us) (snd r).
Proof.
  intros Hb Hok Hz Hc Hf Hbl Hs Hmax. pose proof (count_updates_nonneg us). cbn zeta. unfold InsertInto.
  rewrite (holds_eq _ _ _ Hb), header_Sequence by (unfold kMaxSequenceNumber in Hmax; lia). mred.
  rewrite <-(holds_eq _ _ _ Hb).
  rewrite (Iterate_runs_updates (H0 := inserter_Handler c) ltac:(done) b seq us) by done.
  destruct (run_updates_spec us (mkInserter seq cfs ignore log) A) as (i' & Hr & Hf' & Hb'); [by constructor|done|done|].
  cbn [sequence_ ignore_missing_column_families_ log_number_] in Hr, Hf', Hb'. rewrite Hr. mred. eexists. by split_and!.
Qed.
End spec.

(** ** Sequences of updates *)

Lemma apply_updates_app ignore log seq us vs A :
  apply_updates ignore log seq (us ++ vs) A =
    let r := apply_updates ignore log seq us A in
    if ok (fst r) then apply_updates ignore log (seq + count_updates us) vs (snd r) else r.
Proof.
  revert seq A. induction us as [|u us IH]; intros seq A; cbn [apply_updates app]; cbn zeta.
  - cbn. by rewrite Z.add_0_r.
  - rewrite count_updates_cons. destruct (version_of seq u) as [[cf v]|] eqn:Ev.
    + assert (counted u = 1%Z) as -> by (by destruct u). destruct (apply_version _ _ _ _ _) as [s A']. destruct (ok s) eqn:Es; [|cbn; by rewrite Es].
      rewrite IH, Z.add_assoc. done.
    + assert (counted u = 0%Z) as -> by (by destruct u). apply IH.
Qed.

(** The family of an update exists. *)
Definition known (A : histories) (u : update) : Prop :=
  match version_of 0 u with Some (cf, _) => is_Some (A !! cf) | None => True end.

Lemma known_at A u seq cf v : known A u → version_of seq u = Some (cf, v) → is_Some (A !! cf).
Proof. unfold known. by destruct u; cbn; intros Hk [= <- <-]. Qed.

Lemma known_insert A cf x u : known A u → known (<[cf := x]> A) u.
Proof.
  unfold known. destruct (version_of 0 u) as [[cf' v]|]; [|done]. intros Hk. destruct (decide (cf = cf')) as [<-|].
  - rewrite lookup_insert_eq. eauto.
  - by rewrite lookup_insert_ne.
Qed.

(** The versions after updates of known families, outside recovery. *)
Definition added (seq : Z) (us : list update) (A : histories) : histories := snd (apply_updates false 0 seq us A).

Lemma apply_known ignore us : ∀ seq A, Forall (known A) us →
  apply_updates ignore 0 seq us A = (StatusOK, added seq us A) ∧ ∀ u, known A u → known (added seq us A) u.
Proof.
  unfold added. induction us as [|u us IH]; intros seq A Hk; [done|]. apply Forall_cons in Hk as [Hu Hk]. cbn [apply_updates].
  destruct (version_of seq u) as [[cf v]|] eqn:Ev; [|by apply IH]. destruct (known_at A u seq cf v Hu Ev) as [[ln h] EA].
  unfold apply_version. rewrite EA. cbn [Z.eqb negb andb].
  destruct (IH (seq + 1)%Z (<[cf := (ln, v :: h)]> A)) as [E Hkn]; [eapply Forall_impl; [done|]; intros; by apply known_insert|].
  split; [exact E|]. intros u' Hu'. by apply Hkn, known_insert.
Qed.

Lemma added_app seq us vs A :
  Forall (known A) us → added seq (us ++ vs) A = added (seq + count_updates us) vs (added seq us A).
Proof.
  intros Hk. unfold added at 1. rewrite apply_updates_app. cbn zeta.
  by rewrite (proj1 (apply_known false us seq A Hk)).
Qed.

(** Applying updates only puts versions in front, numbered from [seq] on. *)
Lemma apply_prefix ignore log us : ∀ seq A cf,
  match A !! cf, snd (apply_updates ignore log seq us A) !! cf with
  | Some (ln, h), Some (ln', h') => ln' = ln ∧ ∃ vs, h' = vs ++ h ∧ Forall (λ v, seq ≤ v_seq v)%Z vs
  | None, None => True
  | _, _ => False
  end.
Proof.
  induction us as [|u us IH]; intros seq A cf; cbn [apply_updates].
  { cbn. destruct (A !! cf) as [[ln h]|]; [|done]. split; [done|]. by exists []. }
  destruct (version_of seq u) as [[cf' v]|] eqn:Ev; [|by apply IH].
  assert (v_seq v = seq) as Hv by (destruct u; cbn in Ev; by simplify_eq).
  assert (∀ A', match A' !! cf, snd (apply_updates ignore log (seq + 1) us A') !! cf with
    | Some (ln, h), Some (ln', h') => ln' = ln ∧ ∃ vs, h' = vs ++ h ∧ Forall (λ v, seq ≤ v_seq v)%Z vs
    | None, None => True | _, _ => False end) as IH'.
  { intros A'. specialize (IH (seq + 1)%Z A' cf). destruct (A' !! cf) as [[ln h]|], (snd _ !! cf) as [[ln' h']|]; try done.
    destruct IH as (-> & vs & -> & Hvs). split; [done|]. exists vs. split; [done|]. eapply Forall_impl; [done|]. cbn. lia. }
  unfold apply_version. destruct (A !! cf') as [[ln h]|] eqn:EA.
  - destruct (_ && _); [by apply IH'|]. specialize (IH' (<[cf' := (ln, v :: h)]> A)). cbn [ok StatusOK].
    change (ok StatusOK) with true. cbv iota. destruct (decide (cf' = cf)) as [->|]; [|by rewrite lookup_insert_ne in IH'].
    rewrite lookup_insert_eq in IH'. rewrite EA. destruct (snd _ !! cf) as [[ln' h']|]; [|done].
    destruct IH' as (-> & vs & -> & Hvs). split; [done|]. exists (vs ++ [v]). rewrite <-app_assoc. split; [done|].
    apply Forall_app. split; [done|]. constructor; [lia|constructor].
  - destruct ignore; [by apply IH'|]. change (ok (InvalidArgument _)) with false. cbv iota. cbn [snd]. destruct (A !! cf) as [[ln h]|]; [|done]. split; [done|]. by exists [].
Qed.

(** * Writes *)

(** ** Batches *)

Definition batch_of (us : list update) (b : WriteBatch) : Prop := ∃ seq, holds_updates b seq us.

Lemma append_all_spec bs : ∀ uss dst seq us,
  holds_updates dst seq us → Forall2 batch_of uss bs → (count_updates (us ++ concat uss) < 2 ^ 31)%Z →
  ∃ b, append_all dst bs = Ok b ∧ holds_updates b seq (us ++ concat uss).
Proof.
  induction bs as [|b bs IH]; intros uss dst seq us Hd Hbs Hn.
  { inversion Hbs; subst. cbn. rewrite app_nil_r. eauto. }
  inversion Hbs as [|us1 ? uss1 ? [seq1 Hb] Hbs1]; subst. cbn [concat append_all] in *. rewrite app_assoc in *.
  pose proof (count_updates_nonneg (concat uss1)). rewrite count_updates_app in Hn.
  destruct (Append_holds dst b seq seq1 us us1 Hd Hb) as (b1 & -> & Hb1); [lia|]. mred.
  destruct (IH uss1 b1 seq (us ++ us1) Hb1 Hbs1) as (b2 & E & Hb2); [rewrite count_updates_app; lia|]. eauto.
Qed.

Lemma SetSequence_holds b seq us m :
  holds_updates b seq us → ∃ b', WriteBatchInternal_SetSequence b m = Ok b' ∧ holds_updates b' m us.
Proof. intros Hb. rewrite (holds_eq _ _ _ Hb), header_SetSequence. eexists. split; [done|]. done. Qed.

(** ** The log *)

Lemma log_layout_app pos rs out pos1 rs' out' pos2 :
  log_layout pos rs out pos1 → log_layout pos1 rs' out' pos2 → log_layout pos (rs ++ rs') (out ++ out') pos2.
Proof.
  induction 1 as [|pos r out1 pos1 rs out2 pos' Hf Hl IH]; intros H2; [done|]. cbn. rewrite <-app_assoc. econstructor; eauto.
Qed.

Section write.
Context (pl : platform) (Hpl : platform_ok pl) (c : UserComparator) `{!UserComparatorLaws c} (paranoid : bool).
Context {F : Type} `{WritableFileLaws F} (sync_log : F → Status * F).
Context (Hsync : ∀ f, ∃ f', sync_log f = (StatusOK, f') ∧ contents f' = contents f).
Implicit Types (d : DBImpl F) (A : histories).

Definition logged (w : Writer F) (recs : list bytes) : Prop :=
  ∃ out pos, log_layout 0 recs out pos ∧ writer_at w pos out.

Lemma run_AddRecord w recs rec :
  logged w recs → ∃ w', AddRecord pl rec w = Ok (StatusOK, w') ∧ logged w' (recs ++ [rec]).
Proof.
  intros (out & pos & Hl & Hw).
  destruct (run_AddRecord_loop pl Hpl (S (S (length rec))) w pos out rec true Hw) as (w' & out' & pos' & E & Hf & Hw'); [case_match; lia|].
  exists w'. split; [exact E|]. exists (out ++ out'), pos'. split; [|done]. eapply log_layout_app; [done|].
  rewrite <-(app_nil_r out'). by repeat econstructor.
Qed.

Lemma run_sync w recs : logged w recs → ∃ w', sync sync_log w = Ok (StatusOK, w') ∧ logged w' recs.
Proof.
  intros (out & pos & Hl & Hw). unfold sync. destruct (Hsync (dest_ w)) as (f & -> & Hf).
  eexists. split; [done|]. exists out, pos. split; [done|]. destruct Hw as (Hc & Hr). split; [cbn; congruence|done].
Qed.

(** ** The database *)

Record db_holds d A (recs : list bytes) : Prop := {
  dh_families : fam_holds c (db_families d) A;
  dh_below : ok (bg_error_ d) = true → below (last_sequence_ d + 1) A;
  dh_sequence : (0 ≤ last_sequence_ d ≤ kMaxSequenceNumber)%Z;
  dh_log : logged (log_ d) recs;
  dh_tmp : tmp_batch_ d = WriteBatch_new;
}.

(** Updates that can be applied. *)
Definition good_updates (us : list update) : Prop := Forall update_ok us ∧ Forall small_update us.

Lemma run_group_updates d uss group :
  tmp_batch_ d = WriteBatch_new → Forall2 batch_of uss group → (count_updates (concat uss) < 2 ^ 31)%Z →
  ∃ b t, group_updates group d = Ok (b, mkDB (db_families d) (last_sequence_ d) (log_ d) (bg_error_ d) t) ∧
    batch_of (concat uss) b ∧ (length group = 1 → t = WriteBatch_new).
Proof.
  intros Ht Hg Hn.
  assert (length group = 1 ∧ (∃ b, group = [b] ∧ batch_of (concat uss) b) ∨
    group_updates group d = (tmp ← gets tmp_batch_; b ← lift (append_all tmp group); set_tmp_batch b;; mret b) d ∧ length group ≠ 1)
    as [(_ & b & -> & Hb)|(-> & Hl)].
  { destruct Hg as [|us b uss' bs Hb Hbs]; [by right|]. destruct Hbs as [|us2 b2 uss2 bs2 Hb2 Hbs2]; [left|by right].
    split; [done|]. exists b. cbn. by rewrite app_nil_r. }
  - exists b, WriteBatch_new. split_and!; [|done..]. rewrite <-Ht. by destruct d.
  - rewrite (bind_Ok _ _ _ (tmp_batch_ d) d) by done. rewrite Ht.
    destruct (append_all_spec group uss WriteBatch_new 0 [] WriteBatch_new_holds Hg Hn) as (b & E & Hb).
    rewrite (bind_Ok _ _ _ _ _ (lift_Ok _ d _ E)). exists b, b. split_and!; [done|by exists 0%Z|done].
Qed.

Lemma run_write_log first b d recs :
  logged (log_ d) recs →
  ∃ w', write_log pl sync_log first b d = Ok (StatusOK, mkDB (db_families d) (last_sequence_ d) w' (bg_error_ d) (tmp_batch_ d)) ∧
    logged w' (if w_disableWAL first then recs else recs ++ [rep_ b]).
Proof.
  intros Hl. unfold write_log. destruct (w_disableWAL first); [exists (log_ d); by destruct d|].
  destruct (run_AddRecord (log_ d) recs (rep_ b) Hl) as (w1 & E & Hl1).
  rewrite (bind_Ok _ _ _ StatusOK (mkDB (db_families d) (last_sequence_ d) w1 (bg_error_ d) (tmp_batch_ d)))
    by (unfold on_log, WriteBatchInternal_Contents; by rewrite E).
  change (ok StatusOK) with true. cbn [andb]. destruct (w_sync first); [|by exists w1].
  destruct (run_sync w1 _ Hl1) as (w2 & E2 & Hl2). exists w2. unfold on_log. cbn [log_]. by rewrite E2.
Qed.

(** The group is one record of the log, and its updates follow the last sequence number. *)
Lemma run_write_group first group uss d A recs :
  db_holds d A recs → ok (bg_error_ d) = true → Forall2 batch_of uss group → good_updates (concat uss) →
  (count_updates (concat uss) < 2 ^ 31)%Z → (last_sequence_ d + count_updates (concat uss) ≤ kMaxSequenceNumber)%Z →
  let r := apply_updates (w_ignore_missing first) 0 (last_sequence_ d + 1) (concat uss) A in
  ∃ b d', write_group pl c sync_log first group d = Ok (fst r, d') ∧
    holds_updates b (last_sequence_ d + 1) (concat uss) ∧ fam_holds c (db_families d') (snd r) ∧
    below (last_sequence_ d + 1 + count_updates (concat uss)) (snd r) ∧
    last_sequence_ d' = (if ok (fst r) then last_sequence_ d + count_updates (concat uss) else last_sequence_ d)%Z ∧
    logged (log_ d') (if w_disableWAL first then recs else recs ++ [rep_ b]) ∧
    tmp_batch_ d' = WriteBatch_new ∧ bg_error_ d' = bg_error_ d.
Proof.
  intros [Hf Hb Hs Hl Ht] Hok Hg [Hu Hz] Hn Hmax. cbn zeta. set (us := concat uss) in *. pose proof (count_updates_nonneg us).
  destruct (run_group_updates d uss group Ht Hg Hn) as (b0 & t & E0 & [seq0 Hb0] & Htmp). unfold write_group.
  rewrite (bind_Ok _ _ _ (last_sequence_ d) d) by done. step E0. set (d0 := mkDB _ _ _ _ t).
  unfold kMaxSequenceNumber in *. rewrite (Z.mod_small (last_sequence_ d + 1)) by lia.
  destruct (SetSequence_holds b0 seq0 us (last_sequence_ d + 1) Hb0) as (b & Eb & Hbh).
  rewrite (bind_Ok _ _ _ _ _ (lift_Ok _ d0 _ Eb)).
  rewrite (bind_Ok _ _ _ (count_updates us) d0) by (apply lift_Ok; rewrite (holds_eq _ _ _ Hbh); apply header_Count; lia).
  destruct (run_write_log first b d0 recs Hl) as (w' & El & Hl'). step El. change (ok StatusOK) with true. cbv iota.
  set (d1 := mkDB _ _ w' _ _).
  destruct (InsertInto_spec c b (last_sequence_ d + 1) us (db_families d) A (w_ignore_missing first) 0 Hbh Hu Hz Hn Hf (Hb Hok))
    as (fs & Ei & Hf' & Hb'); [lia|unfold kMaxSequenceNumber; lia|].
  set (r := apply_updates _ _ _ _ _) in *. set (d2 := mkDB fs (last_sequence_ d) w' (bg_error_ d) t).
  rewrite (bind_Ok _ _ _ (fst r) d2).
  2:{ unfold write_memtables. rewrite (bind_Ok _ _ _ d1 d1) by done. cbn [db_families d1]. 
      by rewrite (bind_Ok _ _ _ _ _ (lift_Ok _ d1 _ Ei)). }
  set (d3 := mkDB fs (last_sequence_ d) w' (bg_error_ d) WriteBatch_new).
  rewrite (bind_Ok _ _ _ tt d3) by (case_decide; [unfold d3; rewrite <-Htmp by done; done|done]).
  rewrite Z.mod_small by lia.
  exists b, (mkDB fs (if ok (fst r) then last_sequence_ d + count_updates us else last_sequence_ d)%Z w' (bg_error_ d) WriteBatch_new).
  split; [|by split_and!]. destruct (ok (fst r)); [|done]. unfold SetLastSequence. rewrite !bind_assoc, (bind_Ok _ _ _ (last_sequence_ d) d3) by done.
  by rewrite (proj2 (Z.leb_le _ _)) by lia.
Qed.
End write.
