(* ===== verification/DbQueue.v ===== *)
(** * RocksDB: the queue of writers

    Writers enter the queue at any time; a turn serves the one at the front and those it
    takes into its group.  [write_step] is the interleaving, and [serial] the state it leads
    to: the one that the batches lead to one by one, in the order of arrival. *)

From S2P Require Import Prelude Varint Coding Crc32c Env WriteBatch WriteBatchSpec DbFormat DbFormatLaws.
From S2P Require Import SkipList SkipListLaws MemTable MemTableSpec DbImpl DbWrite.
From S2P Require Import Log LogLaws.
From stdpp Require Import gmap sorting relations.

(** ** Groups *)

(** A request together with the updates its batch is made of. *)
Record job := mkJob { j_request : WriteRequest; j_updates : list update }.

Record job_ok (j : job) : Prop := {
  jo_batch : ∃ b, w_batch (j_request j) = Some b ∧ batch_of (j_updates j) b;
  jo_good : good_updates (j_updates j);
  jo_wal : w_disableWAL (j_request j) = false;
}.

Definition all_updates (js : list job) : list update := concat (j_updates <$> js).

Lemma all_updates_app js ks : all_updates (js ++ ks) = all_updates js ++ all_updates ks.
Proof. unfold all_updates. by rewrite fmap_app, concat_app. Qed.

(** The group is made of the first writers. *)
Lemma group_loop_spec first js : ∀ size max_size,
  Forall job_ok js →
  ∃ n, n ≤ length js ∧ length (group_loop first size max_size (j_request <$> js)) = n ∧
    Forall2 batch_of (j_updates <$> take n js) (group_loop first size max_size (j_request <$> js)).
Proof.
  induction js as [|j js IH]; intros size max_size Hj; cbn [fmap list_fmap group_loop]; [exists 0; by repeat constructor|].
  apply Forall_cons in Hj as [[(b & Eb & Hb) _ _] Hj]. rewrite Eb.
  repeat match goal with |- context [if ?x then [] else _] => destruct x; [exists 0; cbn; split_and!; [lia|done|constructor]|] end.
  destruct (IH (size + Z.of_nat (WriteBatchInternal_ByteSize b))%Z max_size Hj) as (n & Hn & Hl & Hg).
  exists (S n). cbn. split_and!; [lia|by rewrite Hl|by constructor].
Qed.

Lemma BuildBatchGroup_spec js :
  js ≠ [] → Forall job_ok js →
  ∃ n group, BuildBatchGroup (j_request <$> js) = Ok group ∧ 1 ≤ n ≤ length js ∧ length group = n ∧
    Forall2 batch_of (j_updates <$> take n js) group.
Proof.
  intros Hne Hj. destruct js as [|j js]; [done|]. apply Forall_cons in Hj as [[(b & Eb & Hb) _ _] Hj].
  cbn [fmap list_fmap BuildBatchGroup]. rewrite Eb.
  match goal with |- context [group_loop ?f ?s ?m _] => destruct (group_loop_spec f js s m Hj) as (n & Hn & Hl & Hg) end.
  eexists (S n), _. split; [done|]. cbn. split_and!; [lia|lia|by rewrite Hl|by constructor].
Qed.

Lemma group_loop_length first ws : ∀ size max_size, length (group_loop first size max_size ws) ≤ length ws.
Proof.
  induction ws as [|w ws IH]; intros size max_size; cbn [group_loop length]; [lia|].
  repeat case_match; cbn [length]; try lia. match goal with |- context [group_loop first ?a ?b ws] => specialize (IH a b) end. lia.
Qed.

Section queue.
Context (pl : platform) (Hpl : platform_ok pl) (c : UserComparator) `{!UserComparatorLaws c} (paranoid : bool).
Context {F : Type} `{WritableFileLaws F} (sync_log : F → Status * F).
Context (Hsync : ∀ f, ∃ f', sync_log f = (StatusOK, f') ∧ contents f' = contents f).
Implicit Types (d : DBImpl F) (A : histories) (q : list job).

Abbreviation db_holds := (db_holds c).
Abbreviation Write_front := (Write_front pl c paranoid sync_log).

(** The records of a log: batches with consecutive sequence numbers. *)
Inductive log_of : Z → list (list update) → list bytes → Prop :=
| log_of_nil seq : log_of seq [] []
| log_of_cons seq us uss rec recs :
    holds_updates (mkWriteBatch rec) seq us → good_updates us → (count_updates us < 2 ^ 31)%Z →
    log_of (seq + count_updates us) uss recs → log_of seq (us :: uss) (rec :: recs).

Lemma log_of_snoc seq uss recs us rec :
  log_of seq uss recs → holds_updates (mkWriteBatch rec) (seq + count_updates (concat uss)) us → good_updates us →
  (count_updates us < 2 ^ 31)%Z → log_of seq (uss ++ [us]) (recs ++ [rec]).
Proof.
  induction 1 as [seq|seq us' uss rec' recs Hh Hg Hc Hl IH]; intros Hr Hu Hn; cbn.
  - cbn in Hr. rewrite Z.add_0_r in Hr. repeat constructor; try done; apply Hu.
  - constructor; try done. apply IH; try done. cbn in Hr. by rewrite count_updates_app, Z.add_assoc in Hr.
Qed.

Lemma good_all js : Forall job_ok js → good_updates (all_updates js).
Proof.
  induction 1 as [|j js [_ [Hu Hz] _] _ [IHu IHz]]; [by split|]. unfold all_updates. cbn. split; by apply Forall_app.
Qed.

(** The updates of the queue can be numbered. *)
Definition room d (us : list update) : Prop :=
  (count_updates us < 2 ^ 31)%Z ∧ (last_sequence_ d + count_updates us ≤ kMaxSequenceNumber)%Z.

(** One turn. *)
Lemma run_turn q d A recs :
  db_holds d A recs → ok (bg_error_ d) = true → q ≠ [] → Forall job_ok q → Forall (known A) (all_updates q) → room d (all_updates q) →
  ∃ n d' b, Write_front (j_request <$> q) d = Ok (StatusOK, n, d') ∧ 1 ≤ n ≤ length q ∧
    holds_updates b (last_sequence_ d + 1) (all_updates (take n q)) ∧
    db_holds d' (added (last_sequence_ d + 1) (all_updates (take n q)) A) (recs ++ [rep_ b]) ∧
    ok (bg_error_ d') = true ∧ last_sequence_ d' = (last_sequence_ d + count_updates (all_updates (take n q)))%Z.
Proof.
  intros Hd Hok Hne Hj Hk [Hc Hm]. destruct (BuildBatchGroup_spec q Hne Hj) as (n & group & Eg & Hn & Hlen & Hg).
  rewrite <-(take_drop n q), all_updates_app in Hk, Hc, Hm. rewrite count_updates_app in Hc, Hm.
  apply Forall_app in Hk as [Hk _]. pose proof (count_updates_nonneg (all_updates (drop n q))). pose proof (count_updates_nonneg (all_updates (take n q))).
  destruct q as [|j q]; [done|]. pose proof (jo_wal j ltac:(by inversion Hj)) as Hwal.
  destruct (run_write_group pl Hpl c sync_log Hsync (j_request j) group (j_updates <$> take n (j :: q)) d A recs Hd Hok Hg)
    as (b & d' & Ew & Hb & Hf & Hbl & Hs & Hl & Ht & Hbg).
  { apply good_all. by apply Forall_take. }
  { unfold all_updates in *. lia. }
  { unfold all_updates in *. lia. }
  fold (all_updates (take n (j :: q))) in *. rewrite (proj1 (apply_known _ _ _ _ Hk)) in Ew, Hf, Hbl, Hs. cbn [fst snd] in *.
  change (ok StatusOK) with true in Hs. cbv iota in Hs.
  exists n, d', b. rewrite Hwal in Hl. split_and!; try done; try lia.
  - unfold Write_front. cbn [fmap list_fmap]. rewrite (bind_Ok _ _ _ d d) by done. rewrite Hok.
    change (j_request j :: (j_request <$> q)) with (j_request <$> (j :: q)).
    rewrite (bind_Ok _ _ _ (StatusOK, n) d').
    + change (ok StatusOK) with true. cbn [negb]. by rewrite andb_false_r.
    + rewrite (bind_Ok _ _ _ _ _ (lift_Ok _ d _ Eg)). step Ew. by rewrite Hlen.
  - constructor; try done.
    + intros _. rewrite Hs. by replace (last_sequence_ d + count_updates (all_updates (take n (j :: q))) + 1)%Z
        with (last_sequence_ d + 1 + count_updates (all_updates (take n (j :: q))))%Z by lia.
    + rewrite Hs. pose proof (dh_sequence _ _ _ _ Hd). lia.
  - congruence.
Qed.

(** ** Interleavings *)

(** The database, the jobs that wait and those that are done, with their statuses. *)
Record wstate := mkWState { ws_db : DBImpl F; ws_queue : list job; ws_done : list (job * Status) }.

Inductive write_step : wstate → wstate → Prop :=
| step_enter d q dn j : job_ok j → write_step (mkWState d q dn) (mkWState d (q ++ [j]) dn)
| step_turn d q dn s n d' :
    Write_front (j_request <$> q) d = Ok (s, n, d') →
    write_step (mkWState d q dn) (mkWState d' (drop n q) (dn ++ ((λ j, (j, s)) <$> take n q))).

(** All jobs, in the order of arrival. *)
Definition arrived (w : wstate) : list job := (fst <$> ws_done w) ++ ws_queue w.

Lemma fst_paired (s : Status) (js : list job) : fst <$> ((λ j, (j, s)) <$> js) = js.
Proof. induction js as [|j js IH]; [done|]. cbn. by f_equal. Qed.

Lemma step_arrived w w' : write_step w w' → ∃ js, arrived w' = arrived w ++ js ∧ Forall job_ok js.
Proof.
  intros [d q dn j Hj|d q dn s n d' _]; unfold arrived; cbn.
  - exists [j]. rewrite app_assoc. split; [done|by constructor].
  - exists []. rewrite app_nil_r, fmap_app, fst_paired. by rewrite <-app_assoc, take_drop.
Qed.

(** What the writes lead to from a state with database [d0], which held [A0] and the log
    [recs0], after the jobs [dn0]: the groups served since, in order, all successful. *)
Record serial d0 A0 (recs0 : list bytes) (dn0 : list (job * Status)) (gs : list (list job)) (w : wstate) : Prop := {
  se_done : ws_done w = dn0 ++ ((λ j, (j, StatusOK)) <$> concat gs);
  se_jobs : Forall job_ok (ws_queue w);
  se_ok : ok (bg_error_ (ws_db w)) = true;
  se_last : last_sequence_ (ws_db w) = (last_sequence_ d0 + count_updates (all_updates (concat gs)))%Z;
  se_holds : ∃ recs,
    db_holds (ws_db w) (added (last_sequence_ d0 + 1) (all_updates (concat gs)) A0) (recs0 ++ recs) ∧
    log_of (last_sequence_ d0 + 1) (all_updates <$> gs) recs;
}.

Lemma concat_updates (gs : list (list job)) : concat (all_updates <$> gs) = all_updates (concat gs).
Proof. induction gs as [|g gs IH]; [done|]. cbn [fmap list_fmap concat]. by rewrite IH, all_updates_app. Qed.

Lemma serial_start d0 A0 recs0 q0 dn0 :
  db_holds d0 A0 recs0 → ok (bg_error_ d0) = true → Forall job_ok q0 → serial d0 A0 recs0 dn0 [] (mkWState d0 q0 dn0).
Proof.
  intros Hd Hok Hq. constructor; cbn; try done; [by rewrite app_nil_r|lia|]. exists []. rewrite app_nil_r. split; [done|constructor].
Qed.

Lemma serial_turn d0 A0 recs0 dn0 gs w :
  serial d0 A0 recs0 dn0 gs w → Forall (known A0) (all_updates (concat gs ++ ws_queue w)) →
  room d0 (all_updates (concat gs ++ ws_queue w)) → ws_queue w ≠ [] →
  ∃ n d', Write_front (j_request <$> ws_queue w) (ws_db w) = Ok (StatusOK, n, d') ∧ 1 ≤ n ∧
    serial d0 A0 recs0 dn0 (gs ++ [take n (ws_queue w)])
      (mkWState d' (drop n (ws_queue w)) (ws_done w ++ ((λ j, (j, StatusOK)) <$> take n (ws_queue w)))).
Proof.
  destruct w as [d q dn]. cbn [ws_db ws_queue ws_done]. intros [Hst Hj Hok Hlast (recs & Hd & Hl)] Hk [Hc Hm] Hne.
  cbn [ws_db ws_queue ws_done] in *. rewrite all_updates_app in Hk, Hc, Hm. rewrite count_updates_app in Hc, Hm.
  apply Forall_app in Hk as [Hk1 Hk2]. set (us := all_updates (concat gs)) in *.
  pose proof (count_updates_nonneg us). pose proof (count_updates_nonneg (all_updates q)).
  destruct (run_turn q d _ _ Hd Hok Hne Hj) as (n & d' & b & E & Hn & Hb & Hd' & Hok' & Hs').
  { eapply Forall_impl; [exact Hk2|]. intros u. by apply (apply_known false us). }
  { split; lia. }
  exists n, d'. split; [done|]. split; [lia|].
  assert (last_sequence_ d0 + 1 + count_updates us = last_sequence_ d + 1)%Z as Eseq by lia.
  constructor; cbn [ws_db ws_queue ws_done]; rewrite ?concat_app, ?all_updates_app; cbn [concat]; rewrite ?app_nil_r; fold us.
  - by rewrite Hst, fmap_app, app_assoc.
  - by apply Forall_drop.
  - done.
  - rewrite Hs', Hlast, count_updates_app. lia.
  - exists (recs ++ [rep_ b]). rewrite app_assoc, added_app, Eseq, fmap_app by done. split; [done|].
    apply log_of_snoc; [done| |by apply good_all, Forall_take|].
    + rewrite concat_updates. fold us. rewrite Eseq. by destruct b.
    + rewrite <-(take_drop n q), all_updates_app, count_updates_app in Hc. pose proof (count_updates_nonneg (all_updates (drop n q))). lia.
Qed.

Lemma serial_reachable d0 A0 recs0 q0 dn0 w js :
  db_holds d0 A0 recs0 → ok (bg_error_ d0) = true → Forall job_ok q0 → rtc write_step (mkWState d0 q0 dn0) w →
  arrived w = (fst <$> dn0) ++ js → Forall (known A0) (all_updates js) → room d0 (all_updates js) →
  ∃ gs, serial d0 A0 recs0 dn0 gs w ∧ js = concat gs ++ ws_queue w.
Proof.
  intros Hd Hok Hq Hr. revert js. enough ((∃ js, arrived w = (fst <$> dn0) ++ js) ∧ ∀ js,
    arrived w = (fst <$> dn0) ++ js → Forall (known A0) (all_updates js) → room d0 (all_updates js) →
    ∃ gs, serial d0 A0 recs0 dn0 gs w ∧ js = concat gs ++ ws_queue w) as [_ ?] by done.
  revert w Hr. apply (rtc_ind_r (λ w, (∃ js, arrived w = (fst <$> dn0) ++ js) ∧ ∀ js,
    arrived w = (fst <$> dn0) ++ js → Forall (known A0) (all_updates js) → room d0 (all_updates js) →
    ∃ gs, serial d0 A0 recs0 dn0 gs w ∧ js = concat gs ++ ws_queue w)).
  { split; [by exists q0|]. intros js Ejs _ _. exists []. split; [by apply serial_start|].
    unfold arrived in Ejs. cbn in *. by apply app_inv_head in Ejs. }
  intros w w' _ Hstep [[js1 E1] IH]. destruct (step_arrived w w' Hstep) as (js2 & E2 & _).
  rewrite E2, E1, <-app_assoc. split; [eauto|]. intros js <-%app_inv_head Hk [Hc Hm].
  rewrite all_updates_app in Hk, Hc, Hm. apply Forall_app in Hk as [Hk1 Hk2]. rewrite count_updates_app in Hc, Hm.
  pose proof (count_updates_nonneg (all_updates js2)). destruct (IH js1 E1 Hk1 ltac:(split; lia)) as (gs & Hs & Ejs).
  destruct Hstep as [d q dn j Hj|d q dn s n d' E]; cbn [ws_queue] in *.
  - exists gs. unfold arrived in E1, E2. cbn [ws_done ws_queue] in E1, E2. rewrite app_assoc in E2. apply app_inv_head in E2 as <-.
    split; [|by rewrite Ejs, app_assoc]. destruct Hs. constructor; try done. cbn in *. apply Forall_app. split; [done|by constructor].
  - destruct (decide (q = [])) as [->|Hne]; [done|]. rewrite Ejs in Hk1, Hc, Hm.
    destruct (serial_turn d0 A0 recs0 dn0 gs _ Hs Hk1 ltac:(split; cbn [ws_queue]; lia) Hne) as (n' & d1 & E' & _ & Hs'). cbn [ws_db ws_queue ws_done] in *.
    rewrite E in E'. injection E' as -> -> ->. exists (gs ++ [take n' q]). split; [exact Hs'|].
    unfold arrived in E1, E2. cbn [ws_done ws_queue] in E1, E2. rewrite fmap_app, fst_paired, <-app_assoc, take_drop in E2.
    rewrite <-(app_nil_r ((fst <$> dn) ++ q)) in E2 at 1. apply app_inv_head in E2 as <-.
    rewrite Ejs, concat_app. cbn. by rewrite !app_nil_r, <-app_assoc, take_drop.
Qed.

(** ** Turns *)

(** A run with [n] turns, whatever arrives in between. *)
Inductive turns : nat → wstate → wstate → Prop :=
| turns_none w : turns 0 w w
| turns_enter n w d q dn j : job_ok j → turns n w (mkWState d q dn) → turns n w (mkWState d (q ++ [j]) dn)
| turns_turn n w d q dn s k d' :
    turns n w (mkWState d q dn) → Write_front (j_request <$> q) d = Ok (s, k, d') →
    turns (S n) w (mkWState d' (drop k q) (dn ++ ((λ j, (j, s)) <$> take k q))).

Lemma turns_steps n w w' : turns n w w' → rtc write_step w w'.
Proof.
  induction 1 as [|n w d q dn j Hj _ IH|n w d q dn s k d' _ IH E]; [done|..]; (eapply rtc_r; [exact IH|]); by constructor.
Qed.

(** Every turn serves somebody, and nobody who is not waiting. *)
Lemma Write_front_serves ws d s k d' : Write_front ws d = Ok (s, k, d') → 1 ≤ k ≤ length ws.
Proof.
  unfold Write_front. destruct ws as [|first ws]; [done|]. rewrite (bind_Ok _ _ _ d d) by done.
  intros ([s1 k1] & d3 & Ex & E)%bind_inv.
  assert (k = k1) as -> by (by apply bind_inv in E as (? & ? & _ & [= _ -> _])).
  destruct (ok (bg_error_ d)); [|injection Ex as _ <- _; cbn; lia].
  apply bind_inv in Ex as (group & d4 & Eg & (s2 & d5 & _ & [= _ <- _])%bind_inv).
  unfold lift in Eg. destruct (BuildBatchGroup (first :: ws)) as [g|] eqn:Eb; [|done]. injection Eg as -> _.
  cbn in Eb. destruct (w_batch first); [|done]. injection Eb as <-. cbn [length].
  match goal with |- context [group_loop first ?x ?y ws] => pose proof (group_loop_length first ws x y) end. lia.
Qed.

(** The queue is served in order. *)
Lemma turns_fifo n w w' :
  turns n w w' → ∃ js, arrived w' = arrived w ++ js ∧ length (ws_done w) + n ≤ length (ws_done w').
Proof.
  induction 1 as [w|n w d q dn j Hj _ (js & E & IH)|n w d q dn s k d' _ (js & E & IH) Ew]; unfold arrived in *; cbn [ws_done ws_queue] in *.
  - exists []. by rewrite app_nil_r, Nat.add_0_r.
  - exists (js ++ [j]). split; [|done]. by rewrite app_assoc, E, <-app_assoc.
  - exists js. apply Write_front_serves in Ew. rewrite length_fmap in Ew.
    rewrite fmap_app, fst_paired, <-app_assoc, take_drop, length_app, length_fmap, length_take. split; [done|lia].
Qed.
End queue.
