(* ===== verification/DbRecover.v ===== *)
(** * RocksDB: reading and recovering

    What a read returns in terms of the versions the memtables hold, and what replaying the
    log leads to. *)

From S2P Require Import Prelude Varint Coding Crc32c Env WriteBatch WriteBatchSpec DbFormat DbFormatLaws.
From S2P Require Import SkipList SkipListLaws MemTable MemTableSpec DbImpl DbWrite.
From S2P Require Import Log LogLaws LogSpec DbQueue.
From stdpp Require Import gmap sorting relations.

(** ** Reading *)

Section read.
Context (c : UserComparator) `{!UserComparatorLaws c}.
Context (mo : option (bytes → option bytes → list bytes → bool * bytes)).
Context (older : LookupKey → bytes → Status → list bytes → Status * bytes).
Context {F : Type}.
Implicit Types (d : DBImpl F) (A : histories) (h : list version).

(** What a read of [k] at sequence number [s] gives. *)
Definition read_result h (k : bytes) (s : Z) (value : bytes) : outcome (Status * bytes) :=
  sv ← resolve mo k (versions_at c k s h) (mkSaver StatusOK false false value []);
  Ok (if found_final_value sv then (sv_status sv, sv_value sv)
      else older (lookup_key k s) (sv_value sv) (if merge_in_progress sv then MergeInProgress else sv_status sv) (operands sv)).

Lemma lookup_result_ok h k s value :
  lookup_result c mo h k s value StatusOK [] =
    (sv ← resolve mo k (versions_at c k s h) (mkSaver StatusOK false false value []);
     Ok (found_final_value sv, (sv_value sv,
       if negb (found_final_value sv) && merge_in_progress sv then MergeInProgress else sv_status sv, operands sv))).
Proof. unfold lookup_result. case_bool_decide as E; [by rewrite E|done]. Qed.

Lemma run_GetImpl d A cf ln h snapshot k value :
  fam_holds c (db_families d) A → A !! cf = Some (ln, h) →
  lookup_ok k (default (last_sequence_ d) snapshot) →
  GetImpl c mo older snapshot cf k value d =
    (r ← read_result h k (default (last_sequence_ d) snapshot) value; Ok (r, d)).
Proof.
  intros Hf EA Hk. unfold GetImpl. rewrite (bind_Ok _ _ _ d d) by done.
  change (match snapshot with Some s => s | None => last_sequence_ d end) with (default (last_sequence_ d) snapshot).
  set (s := default _ _) in *. rewrite (bind_Ok _ _ _ _ _ (lift_Ok _ d _ (run_LookupKey k s Hk))).
  specialize (Hf cf). rewrite EA in Hf. destruct (db_families d !! cf) as [f|]; [|done]. destruct Hf as [_ Hm].
  rewrite (bind_Ok _ _ _ f d) by done. rewrite (Get_spec c mo (cf_mem f) h k s value StatusOK [] Hm Hk), lookup_result_ok.
  unfold read_result. destruct (resolve _ _ _ _) as [sv|]; [|done]. mred. unfold lift, mbind, prog_bind. cbn.
  by destruct (found_final_value sv).
Qed.

(** A read does not see what is written later. *)
Lemma versions_at_later k s vs h : Forall (λ v, s < v_seq v)%Z vs → versions_at c k s (vs ++ h) = versions_at c k s h.
Proof.
  intros Hv. unfold versions_at. rewrite filter_app. replace (filter (seen c k s) vs) with (@nil version); [done|].
  symmetry. apply elem_of_nil_inv. intros v [[_ Hs] Hin]%list_elem_of_filter. rewrite Forall_forall in Hv. specialize (Hv v Hin). lia.
Qed.
End read.

(** ** Recovery *)

Lemma log_of_app seq uss1 recs1 uss2 recs2 :
  log_of seq uss1 recs1 → log_of (seq + count_updates (concat uss1)) uss2 recs2 → log_of seq (uss1 ++ uss2) (recs1 ++ recs2).
Proof.
  induction 1 as [seq|seq us uss rec recs Hh Hg Hc Hl IH]; intros H2; cbn in *; [by rewrite Z.add_0_r in H2|].
  constructor; try done. apply IH. by rewrite count_updates_app, Z.add_assoc in H2.
Qed.

Lemma log_of_take seq uss recs n : log_of seq uss recs → log_of seq (take n uss) (take n recs).
Proof.
  intros Hl. revert n. induction Hl as [seq|seq us uss rec recs Hh Hg Hc Hl IH]; intros [|n]; cbn; try constructor; try done.
Qed.

Lemma log_of_length seq uss recs : log_of seq uss recs → length recs = length uss.
Proof. induction 1; cbn; congruence. Qed.

Lemma layout_length pos recs out pos' : log_layout pos recs out pos' → length recs ≤ length out.
Proof.
  induction 1 as [|pos rec out pos1 recs out' pos' Hf _ IH]; [done|]. rewrite length_app. cbn.
  pose proof (fragments_length _ _ _ _ _ Hf). lia.
Qed.

Section recover.
Context (pl : platform) (Hpl : platform_ok pl) (c : UserComparator) `{!UserComparatorLaws c} (paranoid : bool).
Context {F : Type} `{SequentialFileLaws F}.
Implicit Types (A : histories).

(** No family has moved on to a later log. *)
Definition log_current (log : Z) A : Prop := ∀ cf ln h, A !! cf = Some (ln, h) → (ln ≤ log)%Z.

Lemma apply_current ignore log us : ∀ seq A,
  log_current log A → Forall (known A) us →
  apply_updates ignore log seq us A = (StatusOK, added seq us A) ∧ log_current log (added seq us A).
Proof.
  unfold added. induction us as [|u us IH]; intros seq A Hl Hk; [done|]. apply Forall_cons in Hk as [Hu Hk]. cbn [apply_updates].
  destruct (version_of seq u) as [[cf v]|] eqn:Ev; [|by apply IH]. destruct (known_at A u seq cf v Hu Ev) as [[ln h] EA].
  unfold apply_version. rewrite EA. cbn [Z.eqb negb andb]. rewrite (proj2 (Z.ltb_ge log ln) (Hl _ _ _ EA)), andb_false_r.
  change (ok StatusOK) with true. cbv iota. apply IH; [|eapply Forall_impl; [done|]; intros; by apply known_insert].
  intros cf' ln' h'. destruct (decide (cf = cf')) as [<-|]; [rewrite lookup_insert_eq; intros [= <- _]; by eapply Hl|].
  rewrite lookup_insert_ne by done. apply Hl.
Qed.

Lemma holds_length rec seq us : holds_updates (mkWriteBatch rec) seq us → 12 ≤ length rec.
Proof. intros Hb. apply holds_eq in Hb. injection Hb as ->. exact (header_length seq (count_updates us) (updates_bytes us)). Qed.

Lemma run_recover_loop recs : ∀ uss seq r st A n fuel log,
  reads pl (mkReaderOptions true true 0) fuel r recs → reports r = [] → log_of seq uss recs →
  fam_holds c (rc_families st) A → below seq A → log_current log A → Forall (known A) (concat uss) →
  max_sequence st = (seq - 1)%Z → (1 ≤ seq)%Z → (seq + count_updates (concat uss) ≤ kMaxSequenceNumber + 1)%Z → length recs < n →
  ∃ fs, recover_loop pl c paranoid n fuel log StatusOK r st =
      Ok (StatusOK, mkRecovering fs (seq + count_updates (concat uss) - 1)) ∧
    fam_holds c fs (added seq (concat uss) A).
Proof.
  assert (∀ s, reported paranoid s [] = s) as Hrep by (intros s; unfold reported; by destruct (paranoid && ok s)).
  induction recs as [|rec recs IH]; intros uss seq r st A n fuel log Hr Hrs Hlog Hf Hb Hl Hk Hm Hs Hmax Hn;
    (destruct n as [|n]; cbn in Hn; [lia|]); inversion Hr as [? r' E Hrs'|? ? r1 ? E Hrs' Hr1]; subst; cbn [recover_loop]; rewrite E; mred;
    rewrite Hrs', Hrs, Hrep.
  - inversion Hlog; subst. exists (rc_families st). cbn. rewrite Z.add_0_r, <-Hm. by destruct st.
  - inversion Hlog as [|? us uss' ? ? Hh [Hu Hz] Hc Hlog']; subst. cbn [concat] in *. rewrite count_updates_app in *.
    pose proof (count_updates_nonneg us). pose proof (count_updates_nonneg (concat uss')). apply Forall_app in Hk as [Hk1 Hk2].
    pose proof (holds_length _ _ _ Hh) as Hlen. change (ok StatusOK) with true. cbn [negb]. rewrite decide_False by lia.
    unfold WriteBatchInternal_SetContents. rewrite decide_True by done. mred.
    destruct (InsertInto_spec c (mkWriteBatch rec) seq us (rc_families st) A true log Hh Hu Hz Hc Hf Hb Hs ltac:(lia)) as (fs & Ei & Hf' & Hb').
    rewrite (proj1 (apply_current true log us seq A Hl Hk1)) in Ei, Hf', Hb'. cbn [fst snd] in *. rewrite Ei. mred.
    unfold MaybeIgnoreError. change (ok StatusOK) with true. cbn [orb negb]. change (ok StatusOK) with true. cbn [negb].
    pose proof (holds_eq _ _ _ Hh) as Eb. rewrite Eb. unfold kMaxSequenceNumber in *.
    rewrite header_Sequence, header_Count by lia. mred. rewrite (Z.mod_small (seq + _ - 1)) by lia.
    destruct (IH uss' (seq + count_updates us)%Z r1
      (mkRecovering fs (if Z.ltb (max_sequence st) (seq + count_updates us - 1) then (seq + count_updates us - 1)%Z else max_sequence st))
      (added seq us A) n fuel log) as (fs' & E' & Hf2); try done; try lia; [congruence|..].
    + by apply apply_current.
    + eapply Forall_impl; [done|]. intros u. by apply (apply_known false us).
    + cbn [max_sequence]. rewrite Hm. destruct (Z.ltb_spec (seq - 1) (seq + count_updates us - 1)); lia.
    + exists fs'. rewrite E', added_app by done. split; [|done]. do 3 f_equal. lia.
Qed.
End recover.
