(* ===== verification/DbSpec.v ===== *)
(** * RocksDB: properties of the database *)

From S2P Require Import Prelude Varint Coding CrcTables Crc32c Env WriteBatch WriteBatchSpec DbFormat DbFormatLaws.
From S2P Require Import SkipList SkipListLaws SkipListSpec MemTable MemTableSpec DbImpl DbWrite.
From S2P Require Import Log LogLaws LogSpec DbQueue DbRecover.
From stdpp Require Import gmap sorting relations.

(** ** A turn, whatever its result *)

Definition missing_family : Status := InvalidArgument "Invalid column family specified in write batch".

Lemma apply_status ignore log us : ∀ seq A,
  fst (apply_updates ignore log seq us A) = StatusOK ∨ fst (apply_updates ignore log seq us A) = missing_family.
Proof.
  induction us as [|u us IH]; intros seq A; cbn [apply_updates]; [by left|].
  destruct (version_of seq u) as [[cf v]|]; [|by apply IH]. unfold apply_version. destruct (A !! cf) as [[ln h]|].
  - destruct (_ && _); apply IH.
  - destruct ignore; [apply IH|]. by right.
Qed.

(** What a call returns, without the state it leaves. *)
Definition observe {St A} (r : outcome (A * St)) : outcome A := x ← r; mret (fst x).

Section turn.
Context (pl : platform) (Hpl : platform_ok pl) (c : UserComparator) `{!UserComparatorLaws c} (paranoid : bool).
Context {F : Type} `{WritableFileLaws F} (sync_log : F → Status * F).
Context (Hsync : ∀ f, ∃ f', sync_log f = (StatusOK, f') ∧ contents f' = contents f).
Implicit Types (d : DBImpl F) (A : histories) (q : list job).

Lemma run_turn_any q d A recs :
  db_holds c d A recs → ok (bg_error_ d) = true → q ≠ [] → Forall job_ok q → room d (all_updates q) →
  ∃ n d' us ignore, Write_front pl c paranoid sync_log (j_request <$> q) d =
      Ok (fst (apply_updates ignore 0 (last_sequence_ d + 1) us A), n, d') ∧ 1 ≤ n ≤ length q ∧
    fam_holds c (db_families d') (snd (apply_updates ignore 0 (last_sequence_ d + 1) us A)) ∧
    (ok (fst (apply_updates ignore 0 (last_sequence_ d + 1) us A)) = false → last_sequence_ d' = last_sequence_ d ∧
      (paranoid = true → bg_error_ d' = missing_family)).
Proof.
  intros Hd Hok Hne Hj [Hc Hm]. destruct (BuildBatchGroup_spec q Hne Hj) as (n & group & Eg & Hn & Hlen & Hg).
  rewrite <-(take_drop n q), all_updates_app, count_updates_app in Hc, Hm.
  pose proof (count_updates_nonneg (all_updates (drop n q))). destruct q as [|j q]; [done|].
  destruct (run_write_group pl Hpl c sync_log Hsync (j_request j) group (j_updates <$> take n (j :: q)) d A recs Hd Hok Hg)
    as (b & d1 & Ew & Hb & Hf & _ & Hs & _ & _ & Hbg).
  { apply good_all. by apply Forall_take. }
  { unfold all_updates in *. lia. }
  { unfold all_updates in *. lia. }
  fold (all_updates (take n (j :: q))) in *. set (r := apply_updates _ _ _ _ A) in *.
  set (d' := if paranoid && negb (ok (fst r)) then mkDB (db_families d1) (last_sequence_ d1) (log_ d1) (fst r) (tmp_batch_ d1) else d1).
  exists n, d', (all_updates (take n (j :: q))), (w_ignore_missing (j_request j)). fold r. split_and!; try lia.
  - unfold Write_front. cbn [fmap list_fmap]. rewrite (bind_Ok _ _ _ d d) by done. rewrite Hok.
    change (j_request j :: (j_request <$> q)) with (j_request <$> (j :: q)). rewrite (bind_Ok _ _ _ (fst r, n) d1).
    + assert (bool_decide (code (fst r) = kTimedOut) = false) as -> by (unfold r; destruct (apply_status (w_ignore_missing (j_request j)) 0
        (all_updates (take n (j :: q))) (last_sequence_ d + 1) A) as [-> | ->]; done).
      cbn [negb]. rewrite !andb_true_r. unfold d'. by destruct (paranoid && negb (ok (fst r))).
    + rewrite (bind_Ok _ _ _ _ _ (lift_Ok _ d _ Eg)). step Ew. by rewrite Hlen.
  - unfold d'. by destruct (paranoid && negb (ok (fst r))).
  - intros Hnok. rewrite Hnok in Hs. unfold d'. rewrite Hnok. cbn [negb]. split; [by destruct paranoid|].
    intros ->. cbn. destruct (apply_status (w_ignore_missing (j_request j)) 0 (all_updates (take n (j :: q))) (last_sequence_ d + 1) A) as [E|E];
      [|done]. unfold r in Hnok. by rewrite E in Hnok.
Qed.
End turn.

(** ** Properties *)

(** C6: concurrent writers are serialised.  From a database that holds the versions [A0],
    let writers enter the queue and turns be taken in any interleaving.  If the families
    they write to exist, every write that is done was successful, and the database and its
    log hold what the batches give one by one in the order of arrival, whatever groups
    the turns formed; and as long as somebody waits another turn can be taken, which
    serves at least one writer. *)
Theorem writes_are_serial pl c `{!UserComparatorLaws c} paranoid (F : Type) `{WritableFileLaws F} (sync_log : F → Status * F) d0 A0 recs0 w :
  platform_ok pl →
  (∀ f, ∃ f', sync_log f = (StatusOK, f') ∧ contents f' = contents f) →
  db_holds c d0 A0 recs0 → ok (bg_error_ d0) = true →
  rtc (write_step pl c paranoid sync_log) (mkWState d0 [] []) w →
  Forall (known A0) (all_updates (arrived w)) → room d0 (all_updates (arrived w)) →
  Forall (λ x, snd x = StatusOK) (ws_done w) ∧
  last_sequence_ (ws_db w) = (last_sequence_ d0 + count_updates (all_updates (fst <$> ws_done w)))%Z ∧
  (∃ uss recs,
    db_holds c (ws_db w) (added (last_sequence_ d0 + 1) (all_updates (fst <$> ws_done w)) A0) (recs0 ++ recs) ∧
    log_of (last_sequence_ d0 + 1) uss recs ∧ concat uss = all_updates (fst <$> ws_done w)) ∧
  (ws_queue w ≠ [] → ∃ n d', Write_front pl c paranoid sync_log (j_request <$> ws_queue w) (ws_db w) = Ok (StatusOK, n, d') ∧ 1 ≤ n).
Proof.
  intros Hpl Hsync Hd Hok Hr Hk Hroom.
  destruct (serial_reachable pl Hpl c paranoid sync_log Hsync d0 A0 recs0 [] [] w (arrived w) Hd Hok ltac:(constructor) Hr eq_refl Hk Hroom)
    as (gs & Hs & Ejs). pose proof Hs as [Hdn _ _ Hlast (recs & Hh & Hl)]. cbn in Hdn. rewrite Hdn, fst_paired.
  split_and!; [|done|exists (all_updates <$> gs), recs; by rewrite concat_updates|].
  - apply Forall_forall. by intros x (j & -> & _)%list_elem_of_fmap.
  - intros Hne. rewrite Ejs in Hk, Hroom.
    destruct (serial_turn pl Hpl c paranoid sync_log Hsync d0 A0 recs0 [] gs w Hs Hk Hroom Hne) as (n & d' & E & Hn & _). eauto.
Qed.


(** C20: reads are isolated from writes, and a failed write leaves no trace in them.  A read
    at a sequence number that has been reached returns the same before and after a turn of
    the writers, whether the turn succeeds or not.  A turn that fails does not advance the
    sequence number, so ordinary reads do not see any of its updates; with
    [paranoid_checks] every later write then fails with the same status and changes
    nothing. *)
Theorem reads_isolated pl c `{!UserComparatorLaws c} mo older paranoid (F : Type) `{WritableFileLaws F} (sync_log : F → Status * F) d A recs q cf k value s :
  platform_ok pl →
  (∀ f, ∃ f', sync_log f = (StatusOK, f') ∧ contents f' = contents f) →
  db_holds c d A recs → ok (bg_error_ d) = true → q ≠ [] → Forall job_ok q → room d (all_updates q) →
  is_Some (A !! cf) → lookup_ok k s → (s ≤ last_sequence_ d)%Z →
  ∃ st n d', Write_front pl c paranoid sync_log (j_request <$> q) d = Ok (st, n, d') ∧ 1 ≤ n ≤ length q ∧
    observe (GetImpl c mo older (Some s) cf k value d') = observe (GetImpl c mo older (Some s) cf k value d) ∧
    (ok st = false →
      last_sequence_ d' = last_sequence_ d ∧
      (paranoid = true → ∀ ws, ws ≠ [] → Write_front pl c paranoid sync_log ws d' = Ok (st, 1, d'))).
Proof.
  intros Hpl Hsync Hd Hok Hne Hj Hroom [[ln h] EA] Hk Hs.
  destruct (run_turn_any pl Hpl c paranoid sync_log Hsync q d A recs Hd Hok Hne Hj Hroom) as (n & d' & us & ignore & E & Hn & Hf & Hfail).
  eexists _, n, d'. split; [exact E|]. split; [done|]. split.
  - pose proof (apply_prefix ignore 0 us (last_sequence_ d + 1) A cf) as Hp. rewrite EA in Hp.
    destruct (snd _ !! cf) as [[ln' h']|] eqn:EA'; [|done]. destruct Hp as (-> & vs & -> & Hvs).
    rewrite (run_GetImpl c mo older d' _ cf ln (vs ++ h)), (run_GetImpl c mo older d A cf ln h) by (done || apply Hd).
    unfold read_result. cbn [default]. rewrite versions_at_later by (eapply Forall_impl; [done|]; cbn; lia).
    by destruct (resolve _ _ _ _).
  - intros Hst. destruct (Hfail Hst) as [Hl Hb]. split; [done|]. intros Hpar ws Hws. destruct ws as [|first rest]; [done|].
    unfold Write_front. rewrite (bind_Ok _ _ _ d' d') by done. rewrite (Hb Hpar). change (ok missing_family) with false. cbv iota.
    destruct (apply_status ignore 0 us (last_sequence_ d + 1) A) as [E1|E1]; rewrite E1 in *; [done|].
    rewrite (bind_Ok _ _ _ (missing_family, 1) d') by done. by rewrite !andb_false_r.
Qed.

(** ** Crashes *)

Lemma steps_arrived pl c paranoid {F : Type} `{WritableFile F} (sync_log : F → Status * F) w w' :
  rtc (write_step pl c paranoid sync_log) w w' → ∃ js, arrived w' = arrived w ++ js.
Proof.
  induction 1 as [w|w w1 w2 Hs _ [js IH]]; [exists []; by rewrite app_nil_r|].
  destruct (step_arrived pl c paranoid sync_log w w1 Hs) as (js1 & E & _). exists (js1 ++ js). by rewrite IH, E, app_assoc.
Qed.

Section crash.
Context (pl : platform) (Hpl : platform_ok pl) (c : UserComparator) `{!UserComparatorLaws c} (paranoid : bool).
Context {F : Type} `{WritableFileLaws F} (sync_log : F → Status * F).
Context (Hsync : ∀ f, ∃ f', sync_log f = (StatusOK, f') ∧ contents f' = contents f).

(** Two moments of a run from a database with an empty log: what was done before the first
    and between the two, and the records of the log. *)
Lemma two_moments d0 A0 w1 w2 :
  db_holds c d0 A0 [] → ok (bg_error_ d0) = true → last_sequence_ d0 = 0%Z →
  rtc (write_step pl c paranoid sync_log) (mkWState d0 [] []) w1 → rtc (write_step pl c paranoid sync_log) w1 w2 →
  Forall (known A0) (all_updates (arrived w2)) → room d0 (all_updates (arrived w2)) →
  ∃ gs1 gs2 recs1 recs2,
    fst <$> ws_done w1 = concat gs1 ∧ fst <$> ws_done w2 = concat (gs1 ++ gs2) ∧
    log_of 1 (all_updates <$> (gs1 ++ gs2)) (recs1 ++ recs2) ∧ length recs1 = length gs1 ∧
    logged (log_ (ws_db w1)) recs1 ∧ logged (log_ (ws_db w2)) (recs1 ++ recs2) ∧
    concat (gs1 ++ gs2) ++ ws_queue w2 = arrived w2.
Proof.
  intros Hd Hok H0' Hr1 Hr2 Hk [Hc Hm]. destruct (steps_arrived _ _ _ _ _ _ Hr2) as (more & Ea).
  rewrite Ea, all_updates_app in Hk, Hc, Hm. apply Forall_app in Hk as [Hk1 Hk2]. rewrite count_updates_app in Hc, Hm.
  pose proof (count_updates_nonneg (all_updates more)). pose proof (count_updates_nonneg (all_updates (arrived w1))).
  destruct (serial_reachable pl Hpl c paranoid sync_log Hsync d0 A0 [] [] [] w1 (arrived w1) Hd Hok ltac:(constructor) Hr1 eq_refl Hk1)
    as (gs1 & [Hdn1 Hj1 Hok1 Hl1 (recs1 & Hh1 & Hlog1)] & E1); [split; lia|]. rewrite H0' in Hl1, Hh1, Hlog1. cbn [app] in Hh1.
  rewrite E1, all_updates_app in Hk1, Hc, Hm. apply Forall_app in Hk1 as [Hk1 Hkq]. rewrite count_updates_app in Hc, Hm.
  destruct w1 as [d1 q1 dn1]. cbn [ws_db ws_queue ws_done] in *. pose proof (count_updates_nonneg (all_updates (concat gs1))).
  destruct (serial_reachable pl Hpl c paranoid sync_log Hsync d1 _ recs1 q1 dn1 w2 (q1 ++ more) Hh1 Hok1 Hj1 Hr2)
    as (gs2 & [Hdn2 _ _ _ (recs2 & Hh2 & Hlog2)] & E2).
  { rewrite Ea. unfold arrived. cbn. by rewrite app_assoc. }
  { rewrite all_updates_app. apply Forall_app. split; (eapply Forall_impl; [eassumption|]); intros u; by apply (apply_known false). }
  { rewrite all_updates_app. split; rewrite count_updates_app; lia. }
  exists gs1, gs2, recs1, recs2. rewrite Hdn2, Hdn1, !fmap_app, !concat_app. cbn [app]. rewrite !fst_paired. split_and!; try done.
  - rewrite Hl1 in Hlog2. apply log_of_app; [done|]. rewrite concat_updates.
    by replace (1 + count_updates (all_updates (concat gs1)))%Z with (0 + count_updates (all_updates (concat gs1)) + 1)%Z by lia.
  - apply log_of_length in Hlog1. by rewrite length_fmap in Hlog1.
  - apply Hh1.
  - apply Hh2.
  - rewrite Ea, E1, <-!app_assoc, E2. done.
Qed.
End crash.

(** C4: the database recovers from a crash.  Let writers run on a database with an empty
    log, up to a moment [w1] and further to [w2].  If the machine stops between the two, the
    log file holds all that was written at [w1] and any beginning of what was written since.
    Replaying it into fresh memtables succeeds and gives exactly the state after some of the
    writes in their order: all that were done at [w1], and none that was not done at [w2];
    no write is applied in part, and if nothing was cut off none is lost.  The sequence
    number continues after the last recovered write. *)
Theorem crash_recovery pl c `{!UserComparatorLaws c} paranoid (F FR : Type) `{WritableFileLaws F} `{SequentialFileLaws FR}
    (sync_log : F → Status * F) d0 A0 w1 w2 fs0 log :
  platform_ok pl →
  (∀ f, ∃ f', sync_log f = (StatusOK, f') ∧ contents f' = contents f) →
  db_holds c d0 A0 [] → ok (bg_error_ d0) = true → last_sequence_ d0 = 0%Z →
  rtc (write_step pl c paranoid sync_log) (mkWState d0 [] []) w1 → rtc (write_step pl c paranoid sync_log) w1 w2 →
  Forall (known A0) (all_updates (arrived w2)) → room d0 (all_updates (arrived w2)) →
  fam_holds c fs0 A0 → log_current log A0 →
  ∃ tail, contents (dest_ (log_ (ws_db w2))) = contents (dest_ (log_ (ws_db w1))) ++ tail ∧
    ((Log.size (contents (dest_ (log_ (ws_db w2)))) < 2 ^ 63)%Z →
     ∀ (f : FR) k, unread f = contents (dest_ (log_ (ws_db w1))) ++ take k tail →
     ∃ js fs n, (fst <$> ws_done w1) `prefix_of` js ∧ js `prefix_of` (fst <$> ws_done w2) ∧
       (length tail ≤ k → js = fst <$> ws_done w2) ∧
       n = count_updates (all_updates js) ∧
       RecoverLogFiles pl c paranoid (S (length (contents (dest_ (log_ (ws_db w2))))))
         (length (contents (dest_ (log_ (ws_db w2)))) + 13) [(log, f)] 0 (mkRecovering fs0 0) =
         Ok (StatusOK, mkRecovering fs n, n) ∧
       fam_holds c fs (added 1 (all_updates js) A0)).
Proof.
  intros Hpl Hsync Hd Hok H0' Hr1 Hr2 Hk Hroom Hf0 Hcur.
  destruct (two_moments pl Hpl c paranoid sync_log Hsync d0 A0 w1 w2 Hd Hok H0' Hr1 Hr2 Hk Hroom)
    as (gs1 & gs2 & recs1 & recs2 & E1 & E2 & Hlog & Hlen & (out1 & pos1 & Hl1 & Hc1 & _) & (out & pos & Hl2 & Hc2 & _) & Ea).
  destruct (log_layout_split _ _ _ _ _ Hl2) as (out1' & pos1' & tail & -> & Hl1' & Hlt).
  destruct (log_layout_inj _ _ _ _ _ _ Hl1 Hl1') as [<- <-]. exists tail. rewrite Hc1, Hc2. split; [done|].
  intros Hsz f k Hf. destruct (read_cut pl Hpl (mkReaderOptions true true 0) eq_refl recs1 out1 pos1 recs2 tail pos f k Hl1 Hlt Hsz Hf)
    as (m & Hreads & Hm). set (gs := gs1 ++ take m gs2).
  pose proof (log_of_length _ _ _ Hlog) as Hlens. rewrite length_app, length_fmap, length_app in Hlens.
  assert (log_of 1 (all_updates <$> gs) (recs1 ++ take m recs2)) as Hlog'.
  { apply (log_of_take _ _ _ (length gs1 + m)) in Hlog. rewrite <-fmap_take in Hlog. rewrite <-Hlen in Hlog at 2.
    rewrite !take_app_add in Hlog. exact Hlog. }
  assert (concat gs `prefix_of` concat (gs1 ++ gs2)) as Hpre.
  { unfold gs. rewrite !concat_app. apply prefix_app. exists (concat (drop m gs2)). by rewrite <-concat_app, take_drop. }
  assert (concat gs `prefix_of` arrived w2) as (rest & Erest).
  { rewrite <-Ea. etrans; [exact Hpre|]. by apply prefix_app_r. }
  rewrite Erest, all_updates_app in Hk, Hroom. apply Forall_app in Hk as [Hk _]. destruct Hroom as [Hc Hmax].
  rewrite count_updates_app in Hc, Hmax. pose proof (count_updates_nonneg (all_updates rest)). pose proof (count_updates_nonneg (all_updates (concat gs))).
  destruct (run_recover_loop pl c paranoid (recs1 ++ take m recs2) (all_updates <$> gs) 1 (Reader_new f) (mkRecovering fs0 0) A0
    (S (length (out1 ++ tail))) (length (out1 ++ tail) + 13) log Hreads eq_refl Hlog' Hf0) as (fs & Erec & Hfs); rewrite ?concat_updates; try done; try lia.
  { rewrite <-(Z.add_0_l 1), <-H0'. by apply Hd. }
  { apply layout_length in Hl2. rewrite length_app in *. rewrite length_take. lia. }
  exists (concat gs), fs, (count_updates (all_updates (concat gs))). split_and!; try done.
  - rewrite E1. unfold gs. rewrite concat_app. by apply prefix_app_r.
  - by rewrite E2.
  - intros Hk'. rewrite E2. unfold gs. rewrite (Hm Hk'). f_equal. rewrite take_ge; [done|]. lia.
  - cbn [RecoverLogFiles]. rewrite Erec, concat_updates. mred. change (ok StatusOK) with true. cbn [negb max_sequence].
    replace (1 + count_updates (all_updates (concat gs)) - 1)%Z with (count_updates (all_updates (concat gs))) by lia.
    destruct (Z.ltb_spec 0 (count_updates (all_updates (concat gs)))); [done|]. do 2 f_equal. lia.
  - by rewrite concat_updates in Hfs.
Qed.

(** ** A concrete run *)

(** A new database with one family and an empty log. *)
Lemma fresh_db pl c `{!UserComparatorLaws c} {F : Type} `{WritableFileLaws F} (f : F) :
  platform_ok pl → contents f = [] →
  ∃ m w, MemTable_new = Ok m ∧ Writer_new pl f = Ok w ∧
    db_holds c (mkDB {[0%Z := mkFamily 0 m]} 0 w StatusOK WriteBatch_new) {[0%Z := (0%Z, [])]} [] ∧
    fam_holds c {[0%Z := mkFamily 0 m]} {[0%Z := (0%Z, [])]}.
Proof.
  intros Hpl Hf. destruct (mem_new c) as (m & Em & Hm). destruct (Writer_new_at pl Hpl f Hf) as (w & Ew & Hw).
  assert (fam_holds c {[0%Z := mkFamily 0 m]} {[0%Z := (0%Z, [])]}) as Hfam.
  { intros cf. destruct (decide (cf = 0%Z)) as [->|]; [by rewrite !lookup_singleton_eq|]. by rewrite !lookup_singleton_ne. }
  exists m, w. split_and!; try done. constructor; try done; cbn.
  - intros _ cf ln h [<- [= <- <-]]%lookup_singleton_Some. constructor.
  - exists [], 0%Z. split; [constructor|done].
Qed.

Definition ex_sync (f : bytes) : Status * bytes := (StatusOK, f).
Definition ex_batch_of (us : list update) : WriteBatch :=
  match add_updates WriteBatch_new us with Ok b => b | Err _ => WriteBatch_new end.
Definition ex_job (us : list update) : job := mkJob (mkRequest (Some (ex_batch_of us)) false false false kNoTimeOut) us.

Definition ex_job1 : job := ex_job [OpPut 0 (str "a") (str "1"); OpPut 0 (str "b") (str "2")].
Definition ex_job2 : job := ex_job [OpDelete 0 (str "a")].
Definition ex_job3 : job := ex_job [OpPut 0 (str "a") (str "3"); OpPut 7 (str "b") (str "4")].

Lemma ex_jobs_ok : Forall job_ok [ex_job1; ex_job2; ex_job3].
Proof.
  repeat constructor; try (eexists; split; [reflexivity|]; exists 0%Z; vm_compute; reflexivity);
    repeat constructor; unfold update_ok, small_update, small_entry; vm_compute; intuition discriminate.
Qed.

Abbreviation ex_step := (write_step (ex_platform true) BytewiseComparator true ex_sync).
Abbreviation ex_versions := ({[0%Z := (0%Z, [])]} : histories).

Lemma ex_sync_ok (f : bytes) : ∃ f', ex_sync f = (StatusOK, f') ∧ contents f' = contents f.
Proof. by exists f. Qed.

(** Two writers enter and a turn is taken. *)
Lemma ex_db_run : ∃ (d0 : DBImpl bytes) fs0 w,
  db_holds BytewiseComparator d0 ex_versions [] ∧ ok (bg_error_ d0) = true ∧ last_sequence_ d0 = 0%Z ∧
  fam_holds BytewiseComparator fs0 ex_versions ∧
  rtc ex_step (mkWState d0 [] []) w ∧ arrived w = [ex_job1; ex_job2] ∧ ws_done w ≠ [] ∧
  Forall (known ex_versions) (all_updates [ex_job1; ex_job2]) ∧ room d0 (all_updates [ex_job1; ex_job2]).
Proof.
  destruct (fresh_db (H0 := bytes_WritableFileLaws) (ex_platform true) BytewiseComparator [] (ex_platform_ok true) eq_refl) as (m & w0 & _ & _ & Hd & Hf).
  set (d0 := mkDB _ _ _ _ _) in Hd. pose proof ex_jobs_ok as [H1 [H2 _]%Forall_cons]%Forall_cons.
  assert (Forall (known ex_versions) (all_updates [ex_job1; ex_job2])) as Hk by (repeat constructor; vm_compute; eauto).
  assert (room d0 (all_updates [ex_job1; ex_job2])) as Hroom by done.
  destruct (run_turn (ex_platform true) (ex_platform_ok true) BytewiseComparator true ex_sync ex_sync_ok [ex_job1; ex_job2] d0 _ [] Hd)
    as (n & d' & b & E & Hn & _); [done|done|by repeat (apply Forall_cons; split); [..|apply Forall_nil]|done|done|].
  exists d0, {[0%Z := mkFamily 0 m]}, (mkWState d' (drop n [ex_job1; ex_job2]) ([] ++ ((λ j, (j, StatusOK)) <$> take n [ex_job1; ex_job2]))).
  split_and!; try done.
  - eapply rtc_l; [apply (step_enter _ _ _ _ _ _ _ ex_job1 H1)|]. eapply rtc_l; [apply (step_enter _ _ _ _ _ _ _ ex_job2 H2)|].
    apply rtc_once. exact (step_turn _ _ _ _ d0 _ [] _ _ _ E).
  - unfold arrived. cbn [ws_done ws_queue app]. by rewrite fst_paired, take_drop.
  - cbn [ws_done app]. destruct n as [|n]; [lia|]. done.
Qed.

Lemma writes_are_serial_witness : ∃ (d0 : DBImpl bytes) w,
  rtc ex_step (mkWState d0 [] []) w ∧ ws_done w ≠ [] ∧ Forall (λ x, snd x = StatusOK) (ws_done w) ∧
  (∃ uss recs, db_holds BytewiseComparator (ws_db w) (added 1 (all_updates (fst <$> ws_done w)) ex_versions) recs ∧
    log_of 1 uss recs ∧ concat uss = all_updates (fst <$> ws_done w)).
Proof.
  destruct ex_db_run as (d0 & fs0 & w & Hd & Hok & H0 & _ & Hr & Ea & Hne & Hk & Hroom). rewrite <-Ea in Hk, Hroom.
  destruct (writes_are_serial (ex_platform true) BytewiseComparator true bytes ex_sync d0 ex_versions [] w
    (ex_platform_ok true) ex_sync_ok Hd Hok Hr Hk Hroom) as (Hst & _ & Hh & _).
  rewrite H0 in Hh. exists d0, w. split; [exact Hr|]. split; [exact Hne|]. split; [exact Hst|exact Hh].
Defined.


Lemma reads_isolated_witness : ∃ (d : DBImpl bytes) st n d',
  Write_front (ex_platform true) BytewiseComparator true ex_sync [j_request ex_job3] d = Ok (st, n, d') ∧
  observe (GetImpl BytewiseComparator None (λ _ v _ _, (NotFound, v)) (Some 0%Z) 0 (str "a") [] d') =
    observe (GetImpl BytewiseComparator None (λ _ v _ _, (NotFound, v)) (Some 0%Z) 0 (str "a") [] d).
Proof.
  destruct ex_db_run as (d0 & fs0 & w & Hd & Hok & H0 & _). pose proof ex_jobs_ok as [_ [_ H3]%Forall_cons]%Forall_cons.
  assert (room d0 (all_updates [ex_job3])) as Hroom by (unfold room; rewrite H0; done).
  destruct (reads_isolated (ex_platform true) BytewiseComparator None (λ _ v _ _, (NotFound, v)) true bytes ex_sync d0 ex_versions []
    [ex_job3] 0 (str "a") [] 0 (ex_platform_ok true) ex_sync_ok Hd Hok ltac:(done) H3 Hroom) as (st & n & d' & E & _ & Hread & _).
  - eauto.
  - done.
  - rewrite H0. reflexivity.
  - exists d0, st, n, d'. split; [exact E|exact Hread].
Defined.

Lemma crash_recovery_witness : ∃ (w : wstate (F := bytes)) fs0 tail,
  dest_ (log_ (ws_db w)) = tail ∧
  (Log.size tail < 2 ^ 63 →
   ∃ js fs n, js `prefix_of` (fst <$> ws_done w) ∧
     RecoverLogFiles (ex_platform true) BytewiseComparator true (S (length tail)) (length tail + 13) [(5%Z, take 40 tail)] 0 (mkRecovering fs0 0) =
       Ok (StatusOK, mkRecovering fs n, n) ∧
     fam_holds BytewiseComparator fs (added 1 (all_updates js) ex_versions))%Z.
Proof.
  destruct ex_db_run as (d0 & fs0 & w & Hd & Hok & H0 & Hf0 & Hr & Ea & Hne & Hk & Hroom). rewrite <-Ea in Hk, Hroom.
  assert (dest_ (log_ d0) = []) as Hc by (destruct (dh_log _ _ _ _ Hd) as (out & pos & Hl & E & _); by inversion Hl; subst).
  destruct (crash_recovery (ex_platform true) BytewiseComparator true bytes bytes ex_sync d0 ex_versions (mkWState d0 [] []) w fs0 5
    (ex_platform_ok true) ex_sync_ok Hd Hok H0 (rtc_refl _ _) Hr Hk Hroom Hf0) as (tail & Et & Hrec).
  - intros cf ln h [<- [= <- <-]]%lookup_singleton_Some. lia.
  - cbn [ws_db contents bytes_WritableFileLaws] in Et, Hrec. rewrite Hc in Et, Hrec. cbn [app] in Et. exists w, fs0, tail. split; [exact Et|]. intros Hsz.
    rewrite Et in Hrec. destruct (Hrec Hsz (take 40 tail) 40 eq_refl) as (js & fs & n & _ & Hp & _ & _ & Er & Hfs).
    exists js, fs, n. split; [exact Hp|]. split; [exact Er|exact Hfs].
Defined.

(** ** Consequences of how writes fail *)

Definition ex_db : option (DBImpl bytes) :=
  match MemTable_new, Writer_new (ex_platform true) ([] : bytes) with
  | Ok m, Ok w => Some (mkDB {[0%Z := mkFamily 0 m]} 0 w StatusOK WriteBatch_new)
  | _, _ => None
  end.

Definition ex_turn (ws : list WriteRequest) : option (Status * nat * DBImpl bytes) :=
  match ex_db with
  | Some d => match Write_front (ex_platform true) BytewiseComparator true ex_sync ws d with Ok x => Some x | Err _ => None end
  | None => None
  end.

(** [ignore_missing_column_families] is that of the first writer of the group: a writer that
    asked for it fails when it is grouped behind one that did not. *)
Lemma grouped_option_ignored :
  let lenient := mkRequest (Some (ex_batch_of [OpPut 7 (str "b") (str "4")])) false false true kNoTimeOut in
  fst <$> ex_turn [lenient] = Some (StatusOK, 1) ∧
  fst <$> ex_turn [j_request ex_job2; lenient] = Some (missing_family, 2).
Proof. split; by_evaluation. Qed.

(** A write that failed is in the log: after a restart its updates are there. *)
Definition ex_restart (ws : list WriteRequest) (k : bytes) : option (outcome (Status * bytes) * outcome (Status * bytes)) :=
  match ex_turn ws, MemTable_new with
  | Some (_, _, d), Ok m =>
      match RecoverLogFiles (ex_platform true) BytewiseComparator true 10 1000 [(5%Z, dest_ (log_ d))] 0
              (mkRecovering {[0%Z := mkFamily 0 m]} 0) with
      | Ok (_, st, last) =>
          let read (d : DBImpl bytes) := observe (GetImpl BytewiseComparator None (λ _ v _ _, (NotFound, v)) None 0 k [] d) in
          Some (read d, read (mkDB (rc_families st) last (log_ d) StatusOK WriteBatch_new))
      | Err _ => None
      end
  | _, _ => None
  end.

Lemma failed_write_recovered :
  fst <$> ex_turn [j_request ex_job3] = Some (missing_family, 1) ∧
  ex_restart [j_request ex_job3] (str "a") = Some (Ok (NotFound, []), Ok (StatusOK, str "3")).
Proof. split; vm_compute; reflexivity. Qed.

(** Without [paranoid_checks] the numbers of a failed write are used again: the same key then
    gets a second entry with the same number, at which the skip list stops. *)
Definition ex_lax (d : DBImpl bytes) : outcome (Status * nat * DBImpl bytes) :=
  Write_front (ex_platform true) BytewiseComparator false ex_sync [j_request ex_job3] d.

Lemma sequence_reused d s n d' :
  ex_db = Some d → ex_lax d = Ok (s, n, d') → s = missing_family ∧ ex_lax d' = Err AssertFailed.
Proof.
  assert (match ex_db with
          | Some d => x ← ex_lax d; Ok (fst (fst x), match ex_lax (snd x) with Ok _ => None | Err e => Some e end)
          | None => Err NullDeref
          end = Ok (missing_family, Some AssertFailed)) as Hrun by (vm_compute; reflexivity).
  intros Hd E. rewrite Hd, E in Hrun. change (Ok (s, match ex_lax d' with Ok _ => None | Err e => Some e end) = Ok (missing_family, Some AssertFailed)) in Hrun.
  injection Hrun as -> Hrun. split; [done|]. revert Hrun. destruct (ex_lax d'); congruence.
Qed.
