(* ===== verification/DbInstance.v ===== *)
(** * RocksDB: the database keeps the contract of the node store

    The node store of the ledger uses a database through the class [RocksDB].  Here the
    class is implemented by the model of the database, write batches, log and memtable
    included, and its laws are proved.  What was flushed to files before is a function
    [old]; keys and batches the database cannot hold are refused. *)

From S2P Require Import Prelude Varint Coding CrcTables Crc32c Env WriteBatch WriteBatchSpec DbFormat DbFormatLaws.
From S2P Require Import SkipList SkipListLaws SkipListSpec MemTable MemTableSpec DbImpl DbWrite.
From S2P Require Import Log LogLaws LogSpec DbQueue DbRecover DbSpec.
From S2P Require Import BaseUint Serializer MerkleNode Database Instances.
From stdpp Require Import gmap sorting relations.

(** ** Histories without merges *)

Section values.
Context (old : bytes → option bytes).
Abbreviation c := BytewiseComparator.

Definition old_data : LookupKey → bytes → Status → list bytes → Status * bytes := λ lk v _ _,
  match old (lookup_user_key lk) with Some w => (StatusOK, w) | None => (NotFound, v) end.

Definition no_merge (v : version) : Prop := v_type v = kTypeValue ∨ v_type v = kTypeDeletion.

(** The value of a key: that of its newest version. *)
Definition value_of (h : list version) (k : bytes) : option bytes :=
  match head (filter (λ v, v_key v = k) h) with
  | Some v => if Z.eqb (v_type v) kTypeValue then Some (v_value v) else None
  | None => old k
  end.

Lemma bytewise_equal a b : Compare c a b = 0%Z ↔ a = b.
Proof. cbn. rewrite Slice_compare_lex. apply lex_eq. Qed.

Lemma versions_all k s h : Forall (λ v, v_seq v < s + 1)%Z h → versions_at c k s h = filter (λ v, v_key v = k) h.
Proof.
  unfold versions_at. induction 1 as [|v h Hv _ IH]; [done|]. rewrite !filter_cons, IH. unfold seen.
  destruct (decide (v_key v = k)) as [E|E].
  - rewrite decide_True; [done|]. split; [by apply bytewise_equal|lia].
  - rewrite decide_False; [done|]. by intros [?%bytewise_equal _].
Qed.

Lemma read_value h k s :
  Forall no_merge h → Forall (λ v, v_seq v < s + 1)%Z h →
  read_result c None old_data h k s [] =
    Ok (match value_of h k with Some v => (StatusOK, v) | None => (NotFound, []) end).
Proof.
  intros Hm Hs. unfold read_result, value_of. rewrite versions_all by done.
  destruct (filter (λ v, v_key v = k) h) as [|v vs] eqn:E; cbn [head resolve].
  { mred. unfold old_data. cbn [found_final_value merge_in_progress sv_status sv_value]. rewrite lookup_key_user. by destruct (old k). }
  assert (v ∈ h) as Hv by (apply (list_elem_of_filter (λ v, v_key v = k)); rewrite E; by left).
  rewrite Forall_forall in Hm. unfold save_version. destruct (Hm v Hv) as [-> | ->]; done.
Qed.

(** ** Puts and deletes *)

Definition puts (b : list (bytes * bytes)) : list update := (λ kv, OpPut 0 kv.1 kv.2) <$> b.

Lemma value_of_cons v h k :
  value_of (v :: h) k = if decide (v_key v = k) then if Z.eqb (v_type v) kTypeValue then Some (v_value v) else None else value_of h k.
Proof. unfold value_of. rewrite filter_cons. by case_decide. Qed.

Lemma added_puts b : ∀ seq ln h, Forall no_merge h →
  ∃ h', added seq (puts b) {[0%Z := (ln, h)]} = {[0%Z := (ln, h')]} ∧ Forall no_merge h' ∧
    ∀ k, value_of h' k = batch_get b k (value_of h k).
Proof.
  unfold added. induction b as [|[k' v'] b IH]; intros seq ln h Hm; [by exists h|].
  cbn [puts fmap list_fmap apply_updates version_of fst snd]. unfold apply_version. rewrite lookup_singleton_eq. cbn [Z.eqb negb andb].
  change (ok StatusOK) with true. cbv iota. rewrite insert_singleton_eq.
  destruct (IH (seq + 1)%Z ln (mkVersion seq kTypeValue k' v' :: h)) as (h' & E & Hm' & Hv); [constructor; [by left|done]|].
  exists h'. split_and!; [exact E|done|]. intros k. rewrite Hv, value_of_cons. unfold batch_get. done.
Qed.

Lemma added_delete seq ln h k :
  Forall no_merge h → 
  ∃ h', added seq [OpDelete 0 k] {[0%Z := (ln, h)]} = {[0%Z := (ln, h')]} ∧ Forall no_merge h' ∧
    ∀ k', k ≠ k' → value_of h' k' = value_of h k'.
Proof.
  intros Hm. exists (mkVersion seq kTypeDeletion k [] :: h). unfold added. cbn [apply_updates version_of]. unfold apply_version.
  rewrite lookup_singleton_eq. cbn. rewrite insert_singleton_eq. split_and!; [done|constructor; [by right|done]|].
  intros k' Hk. by rewrite value_of_cons, decide_False.
Qed.
End values.

(** ** The store *)

Section store.
Context (pl : platform) (Hpl : platform_ok pl) {F : Type} `{WritableFileLaws F} (old : bytes → option bytes).
Context (sync_log : F → Status * F) (Hsync : ∀ f, ∃ f', sync_log f = (StatusOK, f') ∧ contents f' = contents f).
Context (paranoid : bool).
Implicit Types (d : DBImpl F) (us : list update).
Abbreviation c := BytewiseComparator.

Definition good_db d : Prop :=
  ∃ ln h recs, db_holds c d {[0%Z := (ln, h)]} recs ∧ ok (bg_error_ d) = true ∧ Forall no_merge h.

(** The updates fit the database. *)
Definition writable d us : Prop := good_updates us ∧ room d us.
#[export] Instance writable_dec d us : Decision (writable d us).
Proof.
  unfold writable, good_updates, room. assert (∀ u, Decision (small_update u)) by (intros []; cbn; unfold small_entry; apply _).
  apply _.
Defined.

(** A batch is filled and written with [WriteOptions()]. *)
Definition write_updates us : prog (DBImpl F) Status :=
  b ← lift (add_updates WriteBatch_new us); Write pl c paranoid sync_log false false false (Some b).

(** The value of a key, if the read succeeds. *)
Definition get_value d (k : bytes) : option bytes :=
  match GetImpl c None (old_data old) None 0 k [] d with Ok (s, v, _) => if ok s then Some v else None | Err _ => None end.

Lemma get_value_is d ln h recs k :
  db_holds c d {[0%Z := (ln, h)]} recs → ok (bg_error_ d) = true → Forall no_merge h → (Z.of_nat (length k + 8) < 2 ^ 32)%Z →
  get_value d k = value_of old h k.
Proof.
  intros Hd Hok Hm Hk. unfold get_value. pose proof (dh_sequence _ _ _ _ Hd).
  rewrite (run_GetImpl c None (old_data old) d _ 0 ln h None k [] (dh_families _ _ _ _ Hd)); [|by rewrite lookup_singleton_eq|done].
  cbn [default]. rewrite read_value; [|done|exact (dh_below _ _ _ _ Hd Hok 0%Z ln h ltac:(by rewrite lookup_singleton_eq))].
  by destruct (value_of old h k).
Qed.

Lemma run_write_updates d ln h recs us :
  db_holds c d {[0%Z := (ln, h)]} recs → ok (bg_error_ d) = true → Forall (known {[0%Z := (ln, h)]}) us → writable d us →
  ∃ d' recs', write_updates us d = Ok (StatusOK, d') ∧ ok (bg_error_ d') = true ∧
    db_holds c d' (added (last_sequence_ d + 1) us {[0%Z := (ln, h)]}) recs'.
Proof.
  intros Hd Hok Hk [Hg Hr]. destruct (add_updates_hold WriteBatch_new 0 [] us WriteBatch_new_holds) as (b & Eb & Hb); [apply Hr|].
  set (j := mkJob (mkRequest (Some b) false false false kNoTimeOut) us).
  assert (all_updates [j] = us) as Ej by apply app_nil_r.
  destruct (run_turn pl Hpl c paranoid sync_log Hsync [j] d _ recs Hd Hok ltac:(done)) as (n & d' & b' & Ew & Hn & _ & Hd' & Hok' & _);
    [|by rewrite Ej..|].
  { repeat constructor; try apply Hg; try done. exists b. split; [done|by exists 0%Z]. }
  assert (n = 1) as -> by (cbn in Hn; lia). rewrite firstn_all2, Ej in Hd' by done.
  exists d', (recs ++ [rep_ b']). split_and!; [|done|done].
  unfold write_updates. rewrite (bind_Ok _ _ _ _ _ (lift_Ok _ d _ Eb)). unfold Write. by step Ew.
Qed.
(** Puts, and deletes, leave a good database with the values they should. *)
Lemma put_values d b :
  good_db d → writable d (puts b) →
  ∃ d', write_updates (puts b) d = Ok (StatusOK, d') ∧ good_db d' ∧
    ∀ k, (Z.of_nat (length k + 8) < 2 ^ 32)%Z → get_value d' k = batch_get b k (get_value d k).
Proof.
  intros (ln & h & recs & Hd & Hok & Hm) Hw.
  destruct (run_write_updates d ln h recs (puts b) Hd Hok) as (d' & recs' & E & Hok' & Hd'); [|done|].
  { apply Forall_fmap, Forall_true. intros kv. unfold known. cbn. by rewrite lookup_singleton_eq. }
  destruct (added_puts old b (last_sequence_ d + 1) ln h Hm) as (h' & Ea & Hm' & Hv). rewrite Ea in Hd'.
  exists d'. split_and!; [done|by exists ln, h', recs'|]. intros k Hk.
  by rewrite (get_value_is d' ln h' recs'), (get_value_is d ln h recs), Hv.
Qed.

Lemma delete_values d k :
  good_db d → writable d [OpDelete 0 k] →
  ∃ d', write_updates [OpDelete 0 k] d = Ok (StatusOK, d') ∧ good_db d' ∧
    ∀ k', (Z.of_nat (length k' + 8) < 2 ^ 32)%Z → k ≠ k' → get_value d' k' = get_value d k'.
Proof.
  intros (ln & h & recs & Hd & Hok & Hm) Hw.
  destruct (run_write_updates d ln h recs [OpDelete 0 k] Hd Hok) as (d' & recs' & E & Hok' & Hd'); [|done|].
  { constructor; [|done]. unfold known. cbn. by rewrite lookup_singleton_eq. }
  destruct (added_delete old (last_sequence_ d + 1) ln h k Hm) as (h' & Ea & Hm' & Hv). rewrite Ea in Hd'.
  exists d'. split_and!; [done|by exists ln, h', recs'|]. intros k' Hk Hne.
  rewrite (get_value_is d' ln h' recs'), (get_value_is d ln h recs) by done. by apply Hv.
Qed.

(** ** The interface *)

Record db_store := mkDbStore { st_db : DBImpl F; st_good : good_db st_db }.

(** The state a write leaves. *)
Definition after (r : outcome (Status * DBImpl F)) d : DBImpl F := match r with Ok (_, d') => d' | Err _ => d end.

Lemma put_good d b : good_db d → writable d (puts b) → good_db (after (write_updates (puts b) d) d).
Proof. intros Hd Hw. by destruct (put_values d b Hd Hw) as (d' & -> & Hd' & _). Qed.

Lemma delete_good d k : good_db d → writable d [OpDelete 0 k] → good_db (after (write_updates [OpDelete 0 k] d) d).
Proof. intros Hd Hw. by destruct (delete_values d k Hd Hw) as (d' & -> & Hd' & _). Qed.

Context (opened : bytes → option db_store).

#[export] Instance db_RocksDB : RocksDB db_store := {|
  DB_Open := opened;
  DB_Get s k := if decide (Z.of_nat (length k + 8) < 2 ^ 32)%Z then get_value (st_db s) k else None;
  DB_Write s b :=
    match decide (writable (st_db s) (puts b)) with
    | left Hw => Some (mkDbStore _ (put_good (st_db s) b (st_good s) Hw))
    | right _ => None
    end;
  DB_Delete s k :=
    match decide (writable (st_db s) [OpDelete 0 k]) with
    | left Hw => mkDbStore _ (delete_good (st_db s) k (st_good s) Hw)
    | right _ => s
    end;
|}.

#[export] Instance db_RocksDBLaws : RocksDBLaws db_store.
Proof.
  constructor.
  - intros [d Hd] b s' k. cbn [DB_Write DB_Get db_RocksDB st_db]. destruct (decide (writable d (puts b))) as [Hw|]; [|done].
    intros [= <-]. cbn [st_db]. destruct (put_values d b Hd Hw) as (d' & E & _ & Hv). rewrite E. cbn [after].
    case_decide as Hk; [by apply Hv|]. symmetry. apply batch_get_notin. intros kv Hkv <-. apply Hk.
    destruct Hw as [[_ Hz] _]. rewrite Forall_forall in Hz.
    assert (small_update (OpPut 0 kv.1 kv.2)) as Hs by (apply Hz, list_elem_of_fmap; by exists kv). cbn in Hs. unfold small_entry in Hs. lia.
  - intros [d Hd] k k' Hne. cbn [DB_Delete DB_Get db_RocksDB st_db]. destruct (decide (writable d [OpDelete 0 k])) as [Hw|]; [|done].
    cbn [st_db]. destruct (delete_values d k Hd Hw) as (d' & E & _ & Hv). rewrite E. cbn [after]. case_decide; [by apply Hv|done].
Qed.
End store.

(** ** Properties *)

(** The entry of a node. *)
Definition node_entry (n : RadixMerkleTreeNode) : bytes * bytes := (to_string uint256_bits (hash_ n), stored n).

Section nodes.
Context `{SHA512} `{Indeterminate} (pl : platform) (Hpl : platform_ok pl) (F : Type) `{WritableFileLaws F} (old : bytes → option bytes).
Context (sync_log : F → Status * F) (Hsync : ∀ f, ∃ f', sync_log f = (StatusOK, f') ∧ contents f' = contents f).
Context (paranoid : bool) (opened : bytes → option (@db_store F _ _)).
#[local] Instance rocks : RocksDB (@db_store F _ _) := db_RocksDB pl Hpl old sync_log Hsync paranoid opened.

(** C11: the node store keeps its nodes in the modelled database.  Well-formed nodes whose
    entries fit (with the same content where their hashes are the same) are stored
    successfully, through the write batch, the log and the memtable; reading back any of
    their hashes then gives the node with that content, and every other hash reads what it
    read before. *)
Theorem nodes_kept_in_rocksdb (batch : list RadixMerkleTreeNode) (s : @db_store F _ _) :
  Forall node_wf batch → Forall item_fits batch →
  (∀ n n', n ∈ batch → n' ∈ batch → hash_ n = hash_ n' → stored n = stored n') →
  writable (st_db s) (puts (node_entry <$> batch)) →
  ∃ s', store_batch batch s = Ok s' ∧
    (∀ n, n ∈ batch → fetched (hash_ n) s' = Some (loaded (hash_ n) n)) ∧
    (∀ h, wf256 h → h ∉ (hash_ <$> batch) → fetched h s' = fetched h s).
Proof.
  pose proof (db_RocksDBLaws pl Hpl old sync_log Hsync paranoid opened) as Hlaws. intros Hwf Hfit Hsame Hw.
  rewrite store_batch_spec by (eapply Forall_impl; [exact Hwf|]; apply nwf_typed).
  change (DB_Write s ((λ n, (to_string uint256_bits (hash_ n), stored n)) <$> batch)) with (DB_Write s (node_entry <$> batch)).
  destruct (DB_Write s (node_entry <$> batch)) as [s'|] eqn:E.
  2: { exfalso. cbn in E. by destruct (decide (writable (st_db s) (puts (node_entry <$> batch)))). }
  rewrite Forall_forall in Hwf, Hfit. pose proof (λ k, Get_Write s _ s' k E) as Hget. exists s'. split_and!; [done|..].
  - intros n Hn. unfold fetched. rewrite (fetch_stored (hash_ n) s' n); [done| |by apply Hwf|by apply Hfit].
    rewrite Hget. apply batch_get_in; [apply list_elem_of_fmap; by exists n|].
    intros v (n' & [Eh ->]%pair_eq & Hn')%list_elem_of_fmap. symmetry. apply Hsame; [done..|].
    apply to_string_inj in Eh; [done|by apply nwf_hash, Hwf..].
  - intros h Hh Hni. apply fetched_Get. rewrite Hget. apply batch_get_notin. intros kv (n & -> & Hn)%list_elem_of_fmap.
    cbn. intros Eh%to_string_inj; [|by apply nwf_hash, Hwf|done]. apply Hni, list_elem_of_fmap. eauto.
Qed.
End nodes.

(** ** A concrete node *)

#[local] Existing Instance poly_SHA512.
#[local] Existing Instance zero_Indeterminate.
#[local] Instance ex_rocks : RocksDB (@db_store bytes _ _) :=
  rocks (ex_platform true) (ex_platform_ok true) bytes (λ _, None) ex_sync ex_sync_ok true (λ _, None).

Definition ex_leaf : RadixMerkleTreeNode :=
  mkNode (ex_key Byte.x12 Byte.x34) (replicate 16 uint256_zero) (replicate 16 None) (Some (ex_item Byte.x12 Byte.x34 "abc")) false
    TREE_NODE_TYPE_ACCOUNT_LEAF 0.

Lemma ex_leaf_wf : node_wf ex_leaf ∧ item_fits ex_leaf.
Proof.
  split.
  - constructor; [by eexists|done|split; [done|by apply Forall_replicate]|done|by cbn|by intros item [= <-]].
  - by intros _ item [= <-].
Qed.

Lemma nodes_kept_in_rocksdb_witness :
  ∃ s s' : @db_store bytes _ _, store_batch [ex_leaf] s = Ok s' ∧ ∀ n, n ∈ [ex_leaf] → fetched (hash_ n) s' = Some (loaded (hash_ n) n).
Proof.
  destruct (fresh_db (H0 := bytes_WritableFileLaws) (ex_platform true) BytewiseComparator [] (ex_platform_ok true) eq_refl)
    as (m & w & _ & _ & Hd & _). set (d := mkDB _ _ _ _ _) in Hd.
  assert (good_db d) as Hg by (exists 0%Z, [], []; split_and!; [done|done|constructor]).
  destruct (nodes_kept_in_rocksdb (ex_platform true) (ex_platform_ok true) bytes (λ _, None) ex_sync ex_sync_ok true (λ _, None)
    [ex_leaf] (mkDbStore d Hg)) as (s' & E & Hf & _).
  - apply Forall_singleton, ex_leaf_wf.
  - apply Forall_singleton, ex_leaf_wf.
  - intros n n' ->%list_elem_of_singleton ->%list_elem_of_singleton _. reflexivity.
  - split; [|split; vm_compute; discriminate || reflexivity]. split; apply Forall_singleton; vm_compute; repeat split; discriminate || reflexivity.
  - exists (mkDbStore d Hg), s'. exact (conj E Hf).
Defined.
