(* ===== verification/XxHash.v ===== *)
(** * RocksDB: xxHash

    Models [src/src/rocksdb/util/xxhash.cc], the checksum a table can use instead of CRC-32C:
    the function over a whole buffer and the one that is given the data in parts.  They agree.

    The machine is little-endian.  A [U32] wraps at 2^32; a length is an [int]. *)

From S2P Require Import Prelude Varint Coding.

Definition PRIME32_1 : Z := 2654435761.
Definition PRIME32_2 : Z := 2246822519.
Definition PRIME32_3 : Z := 3266489917.
Definition PRIME32_4 : Z := 668265263.
Definition PRIME32_5 : Z := 374761393.

Definition XXH_rotl32 (x r : Z) : Z := Z.lor (u32 (Z.shiftl x r)) (Z.shiftr x (32 - r)).

Definition XXH_readLE32 (p : bytes) : outcome Z := DecodeFixed32 p.

Record lanes := mkLanes { v1 : Z; v2 : Z; v3 : Z; v4 : Z }.

Definition lanes_new (seed : Z) : lanes :=
  mkLanes (u32 (seed + PRIME32_1 + PRIME32_2)) (u32 (seed + PRIME32_2)) (u32 (seed + 0)) (u32 (seed - PRIME32_1)).

(** [v += word * PRIME32_2; v = XXH_rotl32(v, 13); v *= PRIME32_1] *)
Definition XXH_round (v word : Z) : Z := u32 (XXH_rotl32 (u32 (v + u32 (word * PRIME32_2))) 13 * PRIME32_1).

(** Sixteen bytes. *)
Definition XXH_stripe (v : lanes) (p : bytes) : outcome lanes :=
  w1 ← XXH_readLE32 p;
  w2 ← XXH_readLE32 (drop 4 p);
  w3 ← XXH_readLE32 (drop 8 p);
  w4 ← XXH_readLE32 (drop 12 p);
  Ok (mkLanes (XXH_round (v1 v) w1) (XXH_round (v2 v) w2) (XXH_round (v3 v) w3) (XXH_round (v4 v) w4)).

(** [do … while (p <= limit)]: every turn takes sixteen bytes. *)
Fixpoint stripe_loop (fuel : nat) (v : lanes) (p : bytes) : outcome (lanes * bytes) :=
  match fuel with
  | O => Err OutOfFuel
  | S fuel =>
      v ← XXH_stripe v p;
      let p := drop 16 p in
      if decide (16 ≤ length p) then stripe_loop fuel v p else Ok (v, p)
  end.

Definition XXH_merge (v : lanes) : Z :=
  u32 (XXH_rotl32 (v1 v) 1 + XXH_rotl32 (v2 v) 7 + XXH_rotl32 (v3 v) 12 + XXH_rotl32 (v4 v) 18).

(** [while (p <= bEnd - 4)] *)
Fixpoint word_loop (fuel : nat) (h32 : Z) (p : bytes) : outcome (Z * bytes) :=
  if decide (4 ≤ length p) then
    match fuel with
    | O => Err OutOfFuel
    | S fuel =>
        w ← XXH_readLE32 p;
        let h32 := u32 (h32 + u32 (w * PRIME32_3)) in
        word_loop fuel (u32 (XXH_rotl32 h32 17 * PRIME32_4)) (drop 4 p)
    end
  else Ok (h32, p).

(** [while (p < bEnd)] *)
Fixpoint byte_loop (h32 : Z) (p : bytes) : Z :=
  match p with
  | [] => h32
  | b :: p =>
      let h32 := u32 (h32 + u32 (byte.unsigned b * PRIME32_5)) in
      byte_loop (u32 (XXH_rotl32 h32 11 * PRIME32_1)) p
  end.

Definition XXH_avalanche (h32 : Z) : Z :=
  let h32 := Z.lxor h32 (Z.shiftr h32 15) in
  let h32 := u32 (h32 * PRIME32_2) in
  let h32 := Z.lxor h32 (Z.shiftr h32 13) in
  let h32 := u32 (h32 * PRIME32_3) in
  Z.lxor h32 (Z.shiftr h32 16).

(** What follows the length in both functions. *)
Definition XXH_tail (h32 : Z) (p : bytes) : outcome Z :=
  r ← word_loop (length p) h32 p; Ok (XXH_avalanche (byte_loop (fst r) (snd r))).

(** The first [len] bytes at a pointer. *)
Definition buffer (input : bytes) (len : Z) : outcome bytes :=
  if Z.leb len (Z.of_nat (length input)) then Ok (take (Z.to_nat len) input) else Err OutOfBounds.

Definition XXH32_endian_align (input : bytes) (len seed : Z) : outcome Z :=
  p ← buffer input len;
  r ← (if Z.leb 16 len then
         r ← stripe_loop (length p) (lanes_new seed) p; Ok (XXH_merge (fst r), snd r)
       else Ok (u32 (seed + PRIME32_5), p));
  XXH_tail (u32 (fst r + u32 len)) (snd r).

Definition XXH32 (input : bytes) (len seed : Z) : outcome Z := XXH32_endian_align input len seed.

(** ** In parts *)

(** [memory] is kept up to [memsize]. *)
Record XXH_state32_t := mkXXH { total_len : Z; xxh_seed : Z; xxh_v : lanes; memory : bytes }.

Definition XXH32_init (seed : Z) : XXH_state32_t := mkXXH 0 seed (lanes_new seed) [].

(** A negative length makes [memcpy] run away. *)
Definition XXH32_update (state : XXH_state32_t) (input : bytes) (len : Z) : outcome XXH_state32_t :=
  if Z.ltb len 0 then Err OutOfBounds else
  p ← buffer input len;
  let total := u64 (total_len state + len) in
  if decide (length (memory state) + length p < 16) then Ok (mkXXH total (xxh_seed state) (xxh_v state) (memory state ++ p)) else
  r ← (match memory state with
       | [] => Ok (xxh_v state, p)
       | memory =>
           let n := 16 - length memory in
           v ← XXH_stripe (xxh_v state) (memory ++ take n p); Ok (v, drop n p)
       end);
  r ← (if decide (16 ≤ length (snd r)) then stripe_loop (length (snd r)) (fst r) (snd r) else Ok r);
  Ok (mkXXH total (xxh_seed state) (fst r) (snd r)).

Definition XXH32_digest (state : XXH_state32_t) : outcome Z :=
  let h32 := if Z.leb 16 (total_len state) then XXH_merge (xxh_v state) else u32 (xxh_seed state + PRIME32_5) in
  XXH_tail (u32 (h32 + u32 (total_len state))) (memory state).

(** ** The parts make the whole *)

Definition word (p : bytes) (k : nat) : Z := le_combine (take 4 (drop k p)).
Definition stripe (v : lanes) (p : bytes) : lanes :=
  mkLanes (XXH_round (v1 v) (word p 0)) (XXH_round (v2 v) (word p 4)) (XXH_round (v3 v) (word p 8)) (XXH_round (v4 v) (word p 12)).
Fixpoint stripes (n : nat) (v : lanes) (p : bytes) : lanes :=
  match n with O => v | S n => stripes n (stripe v p) (drop 16 p) end.

Lemma run_readLE32 p k : k + 4 ≤ length p → XXH_readLE32 (drop k p) = Ok (word p k).
Proof. intros Hk. unfold XXH_readLE32, DecodeFixed32. by rewrite has_bytes_true by (rewrite length_drop; lia). Qed.

Lemma run_stripe v p : 16 ≤ length p → XXH_stripe v p = Ok (stripe v p).
Proof.
  intros Hp. unfold XXH_stripe. rewrite <-(drop_0 p) at 1. rewrite !run_readLE32 by lia. done.
Qed.

Lemma stripe_app v p q : 16 ≤ length p → stripe v (p ++ q) = stripe v p.
Proof.
  intros Hp. assert (∀ k, k + 4 ≤ 16 → word (p ++ q) k = word p k) as Hw.
  { intros k Hk. unfold word. rewrite drop_app_le, take_app_le by (rewrite ?length_drop; lia). done. }
  unfold stripe. rewrite !Hw by lia. done.
Qed.

Lemma stripes_add a b v p : stripes (a + b) v p = stripes b (stripes a v p) (drop (16 * a) p).
Proof.
  revert v p. induction a as [|a IH]; intros v p; [by rewrite Nat.mul_0_r, drop_0|].
  cbn [Nat.add stripes]. rewrite IH, drop_drop. do 2 f_equal. lia.
Qed.

Lemma stripes_app n v p q : 16 * n ≤ length p → stripes n v (p ++ q) = stripes n v p.
Proof.
  revert v p. induction n as [|n IH]; intros v p Hn; [done|]. cbn [stripes].
  rewrite stripe_app, drop_app_le, IH by (rewrite ?length_drop; lia). done.
Qed.

Lemma run_stripe_loop fuel v p : 16 ≤ length p → length p ≤ fuel →
  stripe_loop fuel v p = Ok (stripes (length p / 16) v p, drop (16 * (length p / 16)) p).
Proof.
  revert v p. induction fuel as [|fuel IH]; intros v p Hp Hf; [lia|]. cbn [stripe_loop]. rewrite run_stripe by done. mred.
  assert (length p / 16 = S (length (drop 16 p) / 16)) as Hq.
  { rewrite length_drop. replace (length p) with (1 * 16 + (length p - 16)) at 1 by lia. rewrite Nat.div_add_l by lia. lia. }
  rewrite Hq. cbn [stripes]. case_decide as Hd.
  - rewrite IH by (rewrite ?length_drop in *; lia). rewrite drop_drop. do 3 f_equal. lia.
  - rewrite (Nat.div_small (length (drop 16 p))) by lia. done.
Qed.

(** The state of the lanes after [D], and what is left of it. *)
Definition lanes_of (seed : Z) (D : bytes) : lanes := stripes (length D / 16) (lanes_new seed) D.
Definition rest_of (D : bytes) : bytes := drop (16 * (length D / 16)) D.

Lemma rest_small D : length (rest_of D) < 16.
Proof. unfold rest_of. rewrite length_drop. pose proof (Nat.div_mod_eq (length D) 16). pose proof (Nat.mod_upper_bound (length D) 16). lia. Qed.

(** [D] can be taken after any number of whole stripes. *)
Lemma absorb_split seed P R a : length P = 16 * a →
  lanes_of seed (P ++ R) = stripes (length R / 16) (stripes a (lanes_new seed) P) R ∧ rest_of (P ++ R) = drop (16 * (length R / 16)) R.
Proof.
  intros HP. unfold lanes_of, rest_of.
  assert (length (P ++ R) / 16 = a + length R / 16) as ->
    by (rewrite length_app, HP, Nat.mul_comm, Nat.div_add_l by lia; done).
  rewrite stripes_add, stripes_app, <-HP, drop_app_length by lia. split; [done|].
  rewrite drop_app_ge by lia. f_equal. lia.
Qed.

Definition absorbed (seed : Z) (D : bytes) (s : XXH_state32_t) : Prop :=
  s = mkXXH (Z.of_nat (length D)) seed (lanes_of seed D) (rest_of D).

Lemma run_buffer p : buffer p (Z.of_nat (length p)) = Ok p.
Proof. unfold buffer. rewrite Z.leb_refl, Nat2Z.id, firstn_all. done. Qed.

(** What follows the buffer does not matter. *)
Lemma XXH32_prefix p q seed : XXH32 (p ++ q) (Z.of_nat (length p)) seed = XXH32 p (Z.of_nat (length p)) seed.
Proof.
  unfold XXH32, XXH32_endian_align. rewrite run_buffer. unfold buffer.
  rewrite (proj2 (Z.leb_le (Z.of_nat (length p)) (Z.of_nat (length (p ++ q))))) by (rewrite length_app; lia).
  by rewrite Nat2Z.id, take_app_length.
Qed.

Lemma run_update seed D s p : absorbed seed D s → (Z.of_nat (length (D ++ p)) < 2 ^ 64)%Z →
  ∃ s', XXH32_update s p (Z.of_nat (length p)) = Ok s' ∧ absorbed seed (D ++ p) s'.
Proof.
  intros -> Hl. unfold XXH32_update. rewrite (proj2 (Z.ltb_ge _ _)), run_buffer by lia. mred.
  cbn [total_len xxh_seed xxh_v memory]. rewrite length_app in Hl. rewrite Z.mod_small by lia.
  replace (Z.of_nat (length D) + Z.of_nat (length p))%Z with (Z.of_nat (length (D ++ p))) by (rewrite length_app; lia).
  pose proof (rest_small D) as Hr. set (k := length D / 16).
  assert (length (take (16 * k) D) = 16 * k) as Ht by (rewrite length_take; pose proof (Nat.div_mod_eq (length D) 16); lia).
  assert (D = take (16 * k) D ++ rest_of D) as HD by (symmetry; apply take_drop).
  assert (lanes_of seed D = stripes k (lanes_new seed) (take (16 * k) D)) as HL.
  { destruct (absorb_split seed (take (16 * k) D) (rest_of D) k Ht) as [E _]. rewrite <-HD in E. rewrite E.
    by rewrite (Nat.div_small (length (rest_of D))). }
  assert (D ++ p = take (16 * k) D ++ (rest_of D ++ p)) as HDp by (rewrite app_assoc, <-HD; done).
  destruct (absorb_split seed (take (16 * k) D) (rest_of D ++ p) k Ht) as [EL ER]. rewrite <-HDp, <-HL in EL. rewrite <-HDp in ER.
  eexists. split; [|unfold absorbed; reflexivity]. rewrite EL, ER, !length_app. case_decide as Hd.
  { by rewrite (Nat.div_small (length (rest_of D) + length p)) by lia. }
  destruct (rest_of D) as [|b m] eqn:Em; mred.
  - cbn [app length fst snd]. cbn in Hd. rewrite decide_True by lia. by rewrite run_stripe_loop by lia.
  - rewrite <-Em in *. set (n := 16 - length (rest_of D)).
    assert (length (rest_of D ++ take n p) = 16) as H16 by (rewrite length_app, length_take; lia).
    rewrite run_stripe by lia. mred. cbn [fst snd].
    assert ((length (rest_of D) + length p) / 16 = 1 + length (drop n p) / 16) as ->.
    { replace (length (rest_of D) + length p) with (1 * 16 + length (drop n p)) by (rewrite length_drop; lia).
      rewrite Nat.div_add_l by lia. done. }
    assert (rest_of D ++ p = (rest_of D ++ take n p) ++ drop n p) as -> by (rewrite <-app_assoc, take_drop; done).
    rewrite stripes_add. cbn [stripes]. rewrite (stripe_app _ (rest_of D ++ take n p)) by lia. rewrite (drop_app_length' _ _ (16 * 1)) by lia.
    rewrite drop_app_ge, H16 by lia. replace (16 * (1 + length (drop n p) / 16) - 16) with (16 * (length (drop n p) / 16)) by lia.
    case_decide as Hd'; [by rewrite run_stripe_loop by lia|]. by rewrite (Nat.div_small (length (drop n p))) by lia.
Qed.

Lemma init_absorbed seed : absorbed seed [] (XXH32_init seed).
Proof. done. Qed.

Fixpoint update_all (s : XXH_state32_t) (parts : list bytes) : outcome XXH_state32_t :=
  match parts with
  | [] => Ok s
  | p :: parts => s ← XXH32_update s p (Z.of_nat (length p)); update_all s parts
  end.

Lemma run_update_all seed parts D s : absorbed seed D s → (Z.of_nat (length (D ++ mjoin parts)) < 2 ^ 64)%Z →
  ∃ s', update_all s parts = Ok s' ∧ absorbed seed (D ++ mjoin parts) s'.
Proof.
  revert D s. induction parts as [|p parts IH]; intros D s Hs Hl; cbn [update_all].
  { exists s. cbn. by rewrite app_nil_r. }
  cbn [mjoin list_join] in *. rewrite app_assoc in *.
  destruct (run_update seed D s p Hs) as (s1 & E1 & H1); [rewrite !length_app in *; lia|]. rewrite E1. mred. by apply IH.
Qed.

Lemma run_word_loop fuel h p : length p ≤ fuel → ∃ r, word_loop fuel h p = Ok r.
Proof.
  revert h p. induction fuel as [|fuel IH]; intros h p Hf; cbn [word_loop].
  - case_decide; [lia|by eexists].
  - case_decide; [|by eexists]. rewrite (run_readLE32 p 0 : _ → XXH_readLE32 p = _) by lia. mred. apply IH. rewrite length_drop. lia.
Qed.

Lemma run_digest seed D s : absorbed seed D s → ∃ h, XXH32_digest s = Ok h ∧ XXH32 D (Z.of_nat (length D)) seed = Ok h.
Proof.
  intros ->. unfold XXH32, XXH32_endian_align, XXH32_digest, XXH_tail. rewrite run_buffer. mred. cbn [total_len xxh_seed xxh_v memory].
  destruct (run_word_loop (length (rest_of D)) (u32 ((if Z.leb 16 (Z.of_nat (length D)) then XXH_merge (lanes_of seed D)
    else u32 (seed + PRIME32_5)) + u32 (Z.of_nat (length D)))) (rest_of D)) as [r E]; [lia|]. rewrite E. mred. eexists. split; [done|].
  destruct (Z.leb_spec 16 (Z.of_nat (length D))) as [Hle|Hlt].
  - rewrite run_stripe_loop by lia. mred. cbn [fst snd]. fold (rest_of D) (lanes_of seed D). by rewrite E.
  - mred. cbn [fst snd]. assert (rest_of D = D) as HD by (unfold rest_of; by rewrite Nat.div_small by lia). rewrite HD in E. by rewrite E.
Qed.

(** C40: The hash of a buffer does not depend on how it is given: for any parts that make it
    up, the state that was updated with them one after the other gives the digest that the
    function over the whole buffer returns, and neither reads outside the buffer. *)
Theorem xxhash_streaming seed (parts : list bytes) :
  (Z.of_nat (length (mjoin parts)) < 2 ^ 31)%Z →
  ∃ s h, update_all (XXH32_init seed) parts = Ok s ∧ XXH32_digest s = Ok h ∧
    XXH32 (mjoin parts) (Z.of_nat (length (mjoin parts))) seed = Ok h.
Proof.
  intros Hl. destruct (run_update_all seed parts [] _ (init_absorbed seed)) as (s & E & Hs); [cbn; lia|].
  destruct (run_digest seed _ s Hs) as (h & Ed & Eh). by exists s, h.
Qed.

(** The digest of the empty input and of nine bytes, in one and in three parts. *)
Lemma xxhash_streaming_witness :
  XXH32 [] 0 0 = Ok 0x02cc5d05%Z ∧
  ∃ s h, update_all (XXH32_init 0) [str "Nobody inspects"; str " the spammish"; str " repetition"] = Ok s ∧ XXH32_digest s = Ok h ∧
    XXH32 (str "Nobody inspects the spammish repetition") 39 0 = Ok h ∧ h = 0xe2293b2f%Z.
Proof.
  split; [by vm_compute|].
  destruct (xxhash_streaming 0 [str "Nobody inspects"; str " the spammish"; str " repetition"]) as (s & h & E1 & E2 & E3); [by vm_compute|].
  exists s, h. split_and!; [exact E1|exact E2|exact E3|].
  assert (XXH32 (str "Nobody inspects the spammish repetition") 39 0 = Ok 0xe2293b2f%Z) as E4 by by vm_compute.
  change (XXH32 (str "Nobody inspects the spammish repetition") 39 0 = Ok h) in E3. rewrite E4 in E3. by injection E3.
Defined.
