(* ===== verification/Iterator.v ===== *)
(** * RocksDB: iterators

    The interface of [src/src/rocksdb/include/rocksdb/iterator.h], the iterator with no entries
    of [table/iterator.cc], and what an iterator promises: [Cursor kvs] says that it is a
    position in the list [kvs], or none. *)

From S2P Require Import Prelude Env SkipListLaws.
From stdpp Require Import sorting.

(** ** The interface *)

Class IteratorOps (I : Type) := {
  iter_Valid : I → bool;
  iter_key : I → outcome bytes;
  iter_value : I → outcome bytes;
  iter_status : I → Status;
  iter_Seek : bytes → prog I unit;
  iter_SeekToFirst : prog I unit;
  iter_SeekToLast : prog I unit;
  iter_Next : prog I unit;
  iter_Prev : prog I unit;
}.

(** What [NewEmptyIterator] and [NewErrorIterator] make. *)
Record EmptyIterator := mkEmptyIterator { empty_status_ : Status }.

#[export] Instance EmptyIterator_ops : IteratorOps EmptyIterator := {|
  iter_Valid _ := false;
  iter_key _ := Err AssertFailed;
  iter_value _ := Err AssertFailed;
  iter_status := empty_status_;
  iter_Seek _ := mret tt;
  iter_SeekToFirst := mret tt;
  iter_SeekToLast := mret tt;
  iter_Next := fail AssertFailed;
  iter_Prev := fail AssertFailed;
|}.

(** An iterator of either kind behind the same pointer. *)
Section either.
Context {I J : Type} `{IteratorOps I} `{IteratorOps J}.

Definition on_either (p : prog I unit) (q : prog J unit) : prog (I + J) unit := λ s,
  match s with
  | inl i => r ← p i; Ok (tt, inl (snd r))
  | inr j => r ← q j; Ok (tt, inr (snd r))
  end.

#[export] Instance sum_ops : IteratorOps (I + J) := {|
  iter_Valid s := match s with inl i => iter_Valid i | inr j => iter_Valid j end;
  iter_key s := match s with inl i => iter_key i | inr j => iter_key j end;
  iter_value s := match s with inl i => iter_value i | inr j => iter_value j end;
  iter_status s := match s with inl i => iter_status i | inr j => iter_status j end;
  iter_Seek t := on_either (iter_Seek t) (iter_Seek t);
  iter_SeekToFirst := on_either iter_SeekToFirst iter_SeekToFirst;
  iter_SeekToLast := on_either iter_SeekToLast iter_SeekToLast;
  iter_Next := on_either iter_Next iter_Next;
  iter_Prev := on_either iter_Prev iter_Prev;
|}.
End either.

(** ** Using an iterator *)

Inductive iter_op := OpSeekToFirst | OpSeekToLast | OpSeek (target : bytes) | OpNext | OpPrev.

Section usage.
Context {I : Type} `{IteratorOps I}.

Definition iter_move (o : iter_op) : prog I unit :=
  match o with
  | OpSeekToFirst => iter_SeekToFirst
  | OpSeekToLast => iter_SeekToLast
  | OpSeek target => iter_Seek target
  | OpNext => iter_Next
  | OpPrev => iter_Prev
  end.

(** What the iterator shows: its status, and the entry if it is valid. *)
Definition observe : prog I (Status * option (bytes * bytes)) :=
  it ← gets id;
  if iter_Valid it then k ← lift (iter_key it); v ← lift (iter_value it); mret (iter_status it, Some (k, v))
  else mret (iter_status it, None).

Fixpoint walk (ops : list iter_op) : prog I (list (Status * option (bytes * bytes))) :=
  match ops with
  | [] => mret []
  | o :: ops => iter_move o;; x ← observe; xs ← walk ops; mret (x :: xs)
  end.
End usage.

(** ** The contract *)

Section contract.
Context (compare_ : bytes → bytes → outcome Z) `{!Comparator compare_}.

Lemma order_lt_le a b c : (key_order compare_ a b < 0)%Z → (key_order compare_ b c ≤ 0)%Z → (key_order compare_ a c < 0)%Z.
Proof.
  intros Hab Hbc. pose proof (compare_sym (compare_ := compare_) b c). pose proof (compare_sym (compare_ := compare_) a c).
  destruct (Z.lt_trichotomy (key_order compare_ a c) 0) as [?|[Hac|Hac]]; [done|exfalso..].
  - pose proof (compare_equal (compare_ := compare_) c a b). lia.
  - pose proof (compare_trans (compare_ := compare_) c a b). lia.
Qed.

Lemma order_le_lt a b c : (key_order compare_ a b ≤ 0)%Z → (key_order compare_ b c < 0)%Z → (key_order compare_ a c < 0)%Z.
Proof.
  intros Hab Hbc. destruct (Z.eq_dec (key_order compare_ a b) 0%Z) as [E|].
  - by eapply compare_equal.
  - eapply compare_trans; [|exact Hbc]. lia.
Qed.

(** A position in the list, or none.  To move on from none is an error. *)
Definition list_move (kvs : list (bytes * bytes)) (o : iter_op) (pos : option nat) : outcome (option nat) :=
  match o with
  | OpSeekToFirst => Ok (if decide (0 < length kvs) then Some 0 else None)
  | OpSeekToLast => Ok (if decide (0 < length kvs) then Some (length kvs - 1) else None)
  | OpSeek target => Ok (fst <$> list_find (λ kv, 0 ≤ key_order compare_ (fst kv) target)%Z kvs)
  | OpNext => i ← of_option AssertFailed pos; Ok (if decide (S i < length kvs) then Some (S i) else None)
  | OpPrev => i ← of_option AssertFailed pos; Ok (match i with O => None | S j => Some j end)
  end.

Fixpoint list_walk (kvs : list (bytes * bytes)) (ops : list iter_op) (pos : option nat) : outcome (list (Status * option (bytes * bytes))) :=
  match ops with
  | [] => Ok []
  | o :: ops =>
      pos ← list_move kvs o pos;
      xs ← list_walk kvs ops pos;
      Ok ((StatusOK, i ← pos; kvs !! i) :: xs)
  end.

Definition wf_op (o : iter_op) : Prop := match o with OpSeek target => wf_key compare_ target | _ => True end.

(** Keys in strictly increasing order. *)
Definition sorted_keys (kvs : list (bytes * bytes)) : Prop :=
  Forall (λ kv, wf_key compare_ (fst kv)) kvs ∧ StronglySorted (λ a b, key_order compare_ (fst a) (fst b) < 0)%Z kvs.

(** The iterators in the relation [stands] to a position are cursors in [kvs]. *)
Class Cursor {I} `{IteratorOps I} (kvs : list (bytes * bytes)) (stands : I → option nat → Prop) : Prop := {
  cursor_valid it pos : stands it pos → iter_Valid it = bool_decide (is_Some pos);
  cursor_status it pos : stands it pos → iter_status it = StatusOK;
  cursor_entry it i : stands it (Some i) → ∃ k v, kvs !! i = Some (k, v) ∧ iter_key it = Ok k ∧ iter_value it = Ok v;
  cursor_move o it pos : wf_op o → stands it pos →
    match list_move kvs o pos with
    | Ok pos' => ∃ it', iter_move o it = Ok (tt, it') ∧ stands it' pos'
    | Err f => iter_move o it = Err f
    end;
}.

Section cursors.
Context {I} `{IteratorOps I} (kvs : list (bytes * bytes)) (stands : I → option nat → Prop) `{!Cursor kvs stands}.

Lemma run_observe it pos : stands it pos → observe it = Ok ((StatusOK, i ← pos; kvs !! i), it).
Proof.
  intros Hst. unfold observe. rewrite (bind_Ok _ _ it it it) by done. rewrite (cursor_valid _ _ Hst), (cursor_status _ _ Hst).
  destruct pos as [i|]; [|done]. destruct (cursor_entry it i Hst) as (k & v & Hi & Hk & Hv). cbn. rewrite Hi.
  rewrite (bind_Ok _ _ it k it) by (by apply lift_Ok). by rewrite (bind_Ok _ _ it v it) by (by apply lift_Ok).
Qed.

(** A cursor shows what the list does. *)
Lemma walk_refines ops it pos : Forall wf_op ops → stands it pos →
  match list_walk kvs ops pos with
  | Ok xs => ∃ it', walk ops it = Ok (xs, it')
  | Err f => walk ops it = Err f
  end.
Proof.
  intros Hops. revert it pos. induction Hops as [|o ops Ho Hops IH]; intros it pos Hst; cbn [list_walk walk]; [by exists it|].
  pose proof (cursor_move o it pos Ho Hst) as Hm. destruct (list_move kvs o pos) as [pos'|f]; mred; [|by rewrite (bind_Err _ _ _ _ Hm)].
  destruct Hm as (it1 & E1 & Hst1). rewrite (bind_Ok _ _ _ _ _ E1), (bind_Ok _ _ _ _ _ (run_observe it1 pos' Hst1)).
  specialize (IH it1 pos' Hst1). destruct (list_walk kvs ops pos') as [xs|f]; mred; [|by rewrite (bind_Err _ _ _ _ IH)].
  destruct IH as (it2 & E2). rewrite (bind_Ok _ _ _ _ _ E2). by exists it2.
Qed.
End cursors.
End contract.

Lemma sorted_lookup {A} (R : A → A → Prop) l i j x y : StronglySorted R l → i < j → l !! i = Some x → l !! j = Some y → R x y.
Proof.
  intros Hl. revert i j. induction Hl as [|a l Hl IH Ha]; intros [|i] [|j] Hij Hx Hy; [done..|lia| |lia|].
  - cbn in Hx, Hy. simplify_eq. rewrite Forall_lookup in Ha. by apply (Ha j).
  - by apply (IH i j); [lia|..].
Qed.
