(* ===== verification/Block.v ===== *)
(** * RocksDB: blocks of a table file

    Models [src/src/rocksdb/table/block_builder.{h,cc}] and [table/block.{h,cc}], with the
    part of [IterKey] of [db/dbformat.h] they use: sorted entries in which a key shares a
    prefix with the one before it, and restart points at which a key is stored whole.

    An offset into the block is a [uint32_t]; a slice of the block is its offset and its
    length.  The hash index and the prefix index, which only an index block can have, are
    null. *)

From S2P Require Import Prelude Varint Coding Env DbFormat Iterator.

(** ** The builder *)

Record BlockBuilder := mkBuilder {
  block_restart_interval_ : Z; buffer_ : bytes; bb_restarts_ : list Z; counter_ : Z; finished_ : bool; last_key_ : bytes;
}.

Definition BlockBuilder_new (block_restart_interval : Z) : outcome BlockBuilder :=
  if Z.leb 1 block_restart_interval then Ok (mkBuilder block_restart_interval [] [0%Z] 0 false []) else Err AssertFailed.

Definition BlockBuilder_Reset (b : BlockBuilder) : BlockBuilder :=
  mkBuilder (block_restart_interval_ b) [] [0%Z] 0 false [].

Definition CurrentSizeEstimate (b : BlockBuilder) : Z :=
  Z.of_nat (length (buffer_ b)) + Z.of_nat (length (bb_restarts_ b)) * 4 + 4.

Definition EstimateSizeAfterKV (b : BlockBuilder) (key value : bytes) : Z :=
  let estimate := (CurrentSizeEstimate b + Z.of_nat (length key + length value))%Z in
  let estimate := (if Z.leb (block_restart_interval_ b) (counter_ b) then estimate + 4 else estimate)%Z in
  (estimate + 4 + Z.of_nat (VarintLength (Z.of_nat (length key))) + Z.of_nat (VarintLength (Z.of_nat (length value))))%Z.

Definition Finish : prog BlockBuilder bytes :=
  b ← gets id;
  let buffer := foldl PutFixed32 (buffer_ b) (bb_restarts_ b) in
  let buffer := PutFixed32 buffer (u32 (Z.of_nat (length (bb_restarts_ b)))) in
  modify (λ b, mkBuilder (block_restart_interval_ b) buffer (bb_restarts_ b) (counter_ b) true (last_key_ b));;
  mret buffer.

Definition BlockBuilder_Add (key value : bytes) : prog BlockBuilder unit :=
  b ← gets id;
  assert (negb (finished_ b));;
  assert (Z.leb (counter_ b) (block_restart_interval_ b));;
  let restart := negb (Z.ltb (counter_ b) (block_restart_interval_ b)) in
  let shared := if restart then 0 else diff_index (last_key_ b) key in
  let restarts := if restart then bb_restarts_ b ++ [u32 (Z.of_nat (length (buffer_ b)))] else bb_restarts_ b in
  let counter := if restart then 0%Z else counter_ b in
  let non_shared := length key - shared in
  let buffer := PutVarint32 (buffer_ b) (u32 (Z.of_nat shared)) in
  let buffer := PutVarint32 buffer (u32 (Z.of_nat non_shared)) in
  let buffer := PutVarint32 buffer (u32 (Z.of_nat (length value))) in
  let buffer := buffer ++ drop shared key ++ value in
  let last_key := take shared (last_key_ b) ++ drop shared key in
  assert (bool_decide (last_key = key));;
  modify (λ b, mkBuilder (block_restart_interval_ b) buffer restarts (counter + 1) (finished_ b) last_key).

(** One entry after the other. *)
Definition add_all (kvs : list (bytes * bytes)) : prog BlockBuilder unit :=
  foldl (λ p kv, p;; BlockBuilder_Add (fst kv) (snd kv)) (mret tt) kvs.

(** ** Entries *)

(** The bytes of the block from [p] to [limit]. *)
Definition region (data : bytes) (p limit : Z) : bytes := take (Z.to_nat (limit - p)) (drop (Z.to_nat p) data).

(** The lengths of the entry at [p], and where its key begins.  The two lengths are added
    as 32-bit numbers. *)
Definition DecodeEntry (data : bytes) (p limit : Z) : option (Z * Z * Z * Z) :=
  if Z.ltb (limit - p) 3 then None else
  let s := region data p limit in
  r ← match s with
      | b0 :: b1 :: b2 :: _ =>
          let shared := byte.unsigned b0 in
          let non_shared := byte.unsigned b1 in
          let value_length := byte.unsigned b2 in
          if Z.ltb (Z.lor (Z.lor shared non_shared) value_length) 128 then Some (shared, non_shared, value_length, p + 3)%Z
          else '(shared, s) ← GetVarint32Ptr s;
               '(non_shared, s) ← GetVarint32Ptr s;
               '(value_length, s) ← GetVarint32Ptr s;
               Some (shared, non_shared, value_length, limit - Z.of_nat (length s))%Z
      | _ => None
      end;
  let '(shared, non_shared, value_length, p) := r in
  if Z.ltb (u32 (limit - p)) (u32 (non_shared + value_length)) then None else Some (shared, non_shared, value_length, p).

(** A slice of the block: reading it must not leave the block. *)
Definition slice_at (data : bytes) (offset len : Z) : outcome bytes :=
  if Z.leb 0 offset && Z.leb (offset + len) (Z.of_nat (length data))
  then Ok (take (Z.to_nat len) (drop (Z.to_nat offset) data)) else Err OutOfBounds.

(** ** Iterators *)

(** [data_] is null before the iterator is initialised; [value_] is [None] while it is not a
    slice of the block. *)
Record BlockIter := mkBlockIter {
  data_ : option bytes; restarts_ : Z; num_restarts_ : Z; current_ : Z; restart_index_ : Z;
  key_ : bytes; value_ : option (Z * Z); status_ : Status;
}.

Definition BlockIter_new : BlockIter := mkBlockIter None 0 0 0 0 [] None StatusOK.

Section iterator.
Context (comparator_ : bytes → bytes → outcome Z).
Abbreviation cmd := (prog BlockIter).

Definition BlockIter_Initialize (data : bytes) (restarts num_restarts : Z) : cmd unit :=
  it ← gets id;
  assert (bool_decide (data_ it = None));;
  assert (Z.ltb 0 num_restarts);;
  modify (λ it, mkBlockIter (Some data) restarts num_restarts restarts num_restarts (key_ it) (value_ it) (status_ it)).

Definition SetStatus (s : Status) : cmd unit :=
  modify (λ it, mkBlockIter (data_ it) (restarts_ it) (num_restarts_ it) (current_ it) (restart_index_ it) (key_ it) (value_ it) s).

Definition BlockIter_Valid (it : BlockIter) : bool := Z.ltb (current_ it) (restarts_ it).

Definition block_data : cmd bytes := it ← gets id; lift (of_option NullDeref (data_ it)).

Definition BlockIter_key : cmd bytes := it ← gets id; assert (BlockIter_Valid it);; mret (key_ it).
Definition BlockIter_value : cmd bytes :=
  it ← gets id;
  assert (BlockIter_Valid it);;
  data ← block_data;
  v ← lift (of_option OutOfBounds (value_ it));
  lift (slice_at data (fst v) (snd v)).

Definition NextEntryOffset : cmd Z :=
  it ← gets id; v ← lift (of_option OutOfBounds (value_ it)); mret (u32 (fst v + snd v)).

Definition GetRestartPoint (index : Z) : cmd Z :=
  it ← gets id;
  assert (Z.ltb index (num_restarts_ it));;
  data ← block_data;
  x ← lift (slice_at data (restarts_ it + index * 4) 4);
  lift (DecodeFixed32 x).

Definition set_current (current : Z) : cmd unit :=
  modify (λ it, mkBlockIter (data_ it) (restarts_ it) (num_restarts_ it) current (restart_index_ it) (key_ it) (value_ it) (status_ it)).
Definition set_restart_index (i : Z) : cmd unit :=
  modify (λ it, mkBlockIter (data_ it) (restarts_ it) (num_restarts_ it) (current_ it) i (key_ it) (value_ it) (status_ it)).
Definition set_entry (key : bytes) (value : option (Z * Z)) : cmd unit :=
  modify (λ it, mkBlockIter (data_ it) (restarts_ it) (num_restarts_ it) (current_ it) (restart_index_ it) key value (status_ it)).

(** [current_ = restarts_; restart_index_ = num_restarts_] *)
Definition set_invalid : cmd unit :=
  it ← gets id; set_current (restarts_ it);; set_restart_index (num_restarts_ it).

Definition SeekToRestartPoint (index : Z) : cmd unit :=
  set_restart_index index;;
  offset ← GetRestartPoint index;
  set_entry [] (Some (offset, 0%Z)).

Definition CorruptionError : cmd unit :=
  set_invalid;;
  SetStatus (Corruption "bad entry in block");;
  set_entry [] None.

(** [IterKey::TrimAppend] *)
Definition TrimAppend (key : bytes) (shared : Z) (non_shared_data : bytes) : outcome bytes :=
  if Z.leb shared (Z.of_nat (length key)) then Ok (take (Z.to_nat shared) key ++ non_shared_data) else Err AssertFailed.

(** The loop that moves on to the restart point the entry falls in; the restart points are
    in the block, so there are fewer than it has bytes. *)
Fixpoint restart_loop (fuel : nat) : cmd unit :=
  match fuel with
  | O => fail OutOfFuel
  | S fuel =>
      it ← gets id;
      if Z.ltb (u32 (restart_index_ it + 1)) (num_restarts_ it) then
        point ← GetRestartPoint (u32 (restart_index_ it + 1));
        if Z.ltb point (current_ it) then set_restart_index (u32 (restart_index_ it + 1));; restart_loop fuel else mret tt
      else mret tt
  end.

Definition ParseNextKey : cmd bool :=
  current ← NextEntryOffset;
  set_current current;;
  it ← gets id;
  data ← block_data;
  if Z.leb (restarts_ it) current then set_invalid;; mret false else
  match DecodeEntry data current (restarts_ it) with
  | Some (shared, non_shared, value_length, p) =>
      if Z.ltb (Z.of_nat (length (key_ it))) shared then CorruptionError;; mret false else
      delta ← lift (slice_at data p non_shared);
      key ← lift (TrimAppend (key_ it) shared delta);
      set_entry key (Some (p + non_shared, value_length)%Z);;
      restart_loop (S (length data));;
      mret true
  | None => CorruptionError;; mret false
  end.

Definition BlockIter_Next : cmd unit := it ← gets id; assert (BlockIter_Valid it);; ParseNextKey;; mret tt.

(** Whether a restart point before the entry was found. *)
Fixpoint back_loop (fuel : nat) (original : Z) : cmd bool :=
  match fuel with
  | O => fail OutOfFuel
  | S fuel =>
      it ← gets id;
      point ← GetRestartPoint (restart_index_ it);
      if Z.leb original point then
        if Z.eqb (restart_index_ it) 0 then set_invalid;; mret false
        else set_restart_index (restart_index_ it - 1);; back_loop fuel original
      else mret true
  end.

(** [while (ParseNextKey() && NextEntryOffset() < limit)]; every turn reads an entry of
    three bytes at least. *)
Fixpoint skip_loop (fuel : nat) (limit : Z) : cmd unit :=
  match fuel with
  | O => fail OutOfFuel
  | S fuel =>
      b ← ParseNextKey;
      if b : bool then next ← NextEntryOffset; if Z.ltb next limit then skip_loop fuel limit else mret tt
      else mret tt
  end.

Definition BlockIter_Prev : cmd unit :=
  it ← gets id;
  assert (BlockIter_Valid it);;
  data ← block_data;
  let original := current_ it in
  found ← back_loop (S (length data)) original;
  if found : bool then
    it ← gets id;
    SeekToRestartPoint (restart_index_ it);;
    skip_loop (S (length data)) original
  else mret tt.

(** Every turn halves the distance, so 33 are enough for 32-bit numbers. *)
Fixpoint BinarySeek_loop (fuel : nat) (target : bytes) (left right : Z) : cmd (option Z) :=
  if negb (Z.ltb left right) then mret (Some left) else
  match fuel with
  | O => fail OutOfFuel
  | S fuel =>
      let mid := (u32 (left + right + 1) / 2)%Z in
      region_offset ← GetRestartPoint mid;
      it ← gets id;
      data ← block_data;
      match DecodeEntry data region_offset (restarts_ it) with
      | Some (shared, non_shared, _, p) =>
          if negb (Z.eqb shared 0) then CorruptionError;; mret None else
          mid_key ← lift (slice_at data p non_shared);
          r ← lift (comparator_ mid_key target);
          if Z.ltb r 0 then BinarySeek_loop fuel target mid right
          else if Z.ltb 0 r then BinarySeek_loop fuel target left (mid - 1)
          else BinarySeek_loop fuel target mid mid
      | None => CorruptionError;; mret None
      end
  end.
Definition BinarySeek (target : bytes) (left right : Z) : cmd (option Z) :=
  assert (Z.leb left right);; BinarySeek_loop 33 target left right.

Fixpoint linear_loop (fuel : nat) (target : bytes) : cmd unit :=
  match fuel with
  | O => fail OutOfFuel
  | S fuel =>
      b ← ParseNextKey;
      if b : bool then
        it ← gets id;
        r ← lift (comparator_ (key_ it) target);
        if Z.leb 0 r then mret tt else linear_loop fuel target
      else mret tt
  end.

Definition BlockIter_Seek (target : bytes) : cmd unit :=
  it ← gets id;
  match data_ it with
  | None => mret tt
  | Some data =>
      index ← BinarySeek target 0 (u32 (num_restarts_ it - 1));
      match index with
      | None => mret tt
      | Some index => SeekToRestartPoint index;; linear_loop (S (length data)) target
      end
  end.

Definition BlockIter_SeekToFirst : cmd unit :=
  it ← gets id;
  match data_ it with
  | None => mret tt
  | Some _ => SeekToRestartPoint 0;; ParseNextKey;; mret tt
  end.

Definition BlockIter_SeekToLast : cmd unit :=
  it ← gets id;
  match data_ it with
  | None => mret tt
  | Some data => SeekToRestartPoint (u32 (num_restarts_ it - 1));; skip_loop (S (length data)) (restarts_ it)
  end.

#[export] Instance BlockIter_ops : IteratorOps BlockIter := {|
  iter_Valid := BlockIter_Valid;
  iter_key it := r ← BlockIter_key it; Ok (fst r);
  iter_value it := r ← BlockIter_value it; Ok (fst r);
  iter_status := status_;
  iter_Seek := BlockIter_Seek;
  iter_SeekToFirst := BlockIter_SeekToFirst;
  iter_SeekToLast := BlockIter_SeekToLast;
  iter_Next := BlockIter_Next;
  iter_Prev := BlockIter_Prev;
|}.
End iterator.

(** ** Blocks *)

(** [size_] is that of the contents, or zero as a mark of an error. *)
Record Block := mkBlock { contents_ : bytes; size_ : Z; restart_offset_ : Z }.

Definition NumRestarts (data : bytes) (size : Z) : outcome Z :=
  if negb (Z.leb (2 * 4) size) then Err AssertFailed else
  x ← slice_at data (size - 4) 4; DecodeFixed32 x.

(** [1 + NumRestarts()] is a 32-bit number, the rest is computed with 64 bits and cut. *)
Definition Block_new (contents : bytes) : outcome Block :=
  let size := Z.of_nat (length contents) in
  if Z.ltb size 4 then Ok (mkBlock contents 0 0) else
  n ← NumRestarts contents size;
  let restart_offset := u32 (u32 size - u32 (1 + n) * 4) in
  Ok (mkBlock contents (if Z.ltb (size - 4) restart_offset then 0%Z else size) restart_offset).

(** Sets up the iterator it is given. *)
Definition NewIterator (b : Block) : prog BlockIter unit :=
  if Z.ltb (size_ b) (2 * 4) then SetStatus (Corruption "bad block contents") else
  num_restarts ← lift (NumRestarts (contents_ b) (size_ b));
  if Z.eqb num_restarts 0 then SetStatus StatusOK
  else BlockIter_Initialize (contents_ b) (restart_offset_ b) num_restarts.
