(* ===== verification/BlockSpec.v ===== *)
(** * RocksDB: a block gives back its entries

    [block_of data es ps] says that the bytes of a block are the entries [es] with restart
    points at the positions [ps].  The builder makes such a block, and an iterator over it
    moves through the positions. *)

From S2P Require Import Prelude Varint Coding Env DbFormat DbFormatLaws SkipList SkipListLaws Iterator Block.
From stdpp Require Import sorting.

(** ** Encoded entries *)

Record entry := mkEntry { e_shared : nat; e_key : bytes; e_value : bytes }.

Definition entry_header (e : entry) : bytes :=
  EncodeVarint32 (Z.of_nat (e_shared e)) ++ EncodeVarint32 (Z.of_nat (length (e_key e) - e_shared e)) ++
  EncodeVarint32 (Z.of_nat (length (e_value e))).
Definition entry_bytes (e : entry) : bytes := entry_header e ++ drop (e_shared e) (e_key e) ++ e_value e.

(** The lengths are 32-bit numbers. *)
Definition small (e : entry) : Prop := (Z.of_nat (length (e_key e) + length (e_value e)) < 2 ^ 32)%Z ∧ e_shared e ≤ length (e_key e).

(** The first byte of a varint tells whether it is the only one. *)
Lemma varint_head v : is_u32 v →
  (v < 128)%Z ∧ EncodeVarint32 v = [byte.of_Z v] ∨ (128 ≤ v)%Z ∧ ∃ b q, EncodeVarint32 v = b :: q ∧ (128 ≤ byte.unsigned b)%Z.
Proof.
  intros Hv. unfold EncodeVarint32. change (Z.shiftl 1 7) with 128%Z.
  destruct (Z.ltb_spec v 128); [by left|right]. split; [done|].
  repeat case_match; (eexists _, _; split; [done|]); rewrite varint_byte_cont; pose proof (Z.mod_pos_bound v 128); lia.
Qed.

Lemma lor_below a b : (0 ≤ a)%Z → (0 ≤ b)%Z → Z.ltb (Z.lor a b) 128 = Z.ltb a 128 && Z.ltb b 128.
Proof.
  intros Ha Hb. assert (∀ x, 0 ≤ x → Z.ltb x 128 = Z.eqb (Z.shiftr x 7) 0)%Z as Hs.
  { intros x Hx. rewrite shiftr_7. destruct (Z.ltb_spec x 128), (Z.eqb_spec (x / 128) 0); try done; exfalso.
    - rewrite Z.div_small in * by lia. done.
    - pose proof (Z.div_str_pos x 128). lia. }
  rewrite !Hs by (done || by apply Z.lor_nonneg). rewrite Z.shiftr_lor.
  destruct (Z.eqb_spec (Z.lor (Z.shiftr a 7) (Z.shiftr b 7)) 0) as [E|E].
  - apply Z.lor_eq_0_iff in E as [-> ->]. done.
  - destruct (Z.eqb_spec (Z.shiftr a 7) 0) as [Ea|], (Z.eqb_spec (Z.shiftr b 7) 0) as [Eb|]; try done.
    exfalso. apply E. by rewrite Ea, Eb.
Qed.

(** The fast path of [DecodeEntry] is taken for single bytes only. *)
Lemma decode_lengths a b c rest s : is_u32 a → is_u32 b → is_u32 c →
  EncodeVarint32 a ++ EncodeVarint32 b ++ EncodeVarint32 c ++ rest = s →
  ∃ b0 b1 b2 s', s = b0 :: b1 :: b2 :: s' ∧
    (Z.lor (Z.lor (byte.unsigned b0) (byte.unsigned b1)) (byte.unsigned b2) < 128 →
     a = byte.unsigned b0 ∧ b = byte.unsigned b1 ∧ c = byte.unsigned b2 ∧ s' = rest)%Z.
Proof.
  intros Ha Hb Hc <-. 
  assert (∀ v, ∃ x q, EncodeVarint32 v = x :: q) as Hne by apply EncodeVarint32_nonempty.
  assert (∀ x y z, Z.lor (Z.lor (byte.unsigned x) (byte.unsigned y)) (byte.unsigned z) < 128 →
    byte.unsigned x < 128 ∧ byte.unsigned y < 128 ∧ byte.unsigned z < 128)%Z as Hlor.
  { intros x y z. pose proof (byte.unsigned_range x). pose proof (byte.unsigned_range y). pose proof (byte.unsigned_range z).
    rewrite <-Z.ltb_lt, !lor_below by (lia || (apply Z.lor_nonneg; lia)). rewrite !andb_true_iff, !Z.ltb_lt. lia. }
  destruct (varint_head a Ha) as [[La Ea]|(La & x & q & Ea & Hx)]; rewrite Ea; cbn [app].
  2:{ destruct (q ++ _) as [|y [|z s']] eqn:Eq; [exfalso..|exists x, y, z, s'; split; [done|]; intros [? _]%Hlor; lia];
      apply (f_equal length) in Eq; rewrite !length_app in Eq; destruct (Hne b) as (? & ? & Eb), (Hne c) as (? & ? & Ec);
      rewrite Eb, Ec in Eq; cbn in Eq; lia. }
  destruct (varint_head b Hb) as [[Lb Eb]|(Lb & y & q & Eb & Hy)]; rewrite Eb; cbn [app].
  2:{ destruct (q ++ _) as [|z s'] eqn:Eq; [exfalso|exists (byte.of_Z a), y, z, s'; split; [done|]; intros (_ & ? & _)%Hlor; lia].
      apply (f_equal length) in Eq. rewrite !length_app in Eq. destruct (Hne c) as (? & ? & Ec). rewrite Ec in Eq. cbn in Eq. lia. }
  destruct (varint_head c Hc) as [[Lc Ec]|(Lc & z & q & Ec & Hz)]; rewrite Ec; cbn [app].
  - eexists _, _, _, _. split; [done|]. rewrite !varint_byte_last by lia. done.
  - eexists _, _, _, _. split; [done|]. intros (_ & _ & ?)%Hlor. lia.
Qed.

Lemma region_app A B C : region (A ++ B ++ C) (Z.of_nat (length A)) (Z.of_nat (length A + length B)) = B.
Proof.
  unfold region. rewrite Nat2Z.id, drop_app_length. replace (Z.to_nat _) with (length B) by lia. apply take_app_length.
Qed.

Lemma run_DecodeEntry data p limit e A B C :
  data = A ++ entry_bytes e ++ B ++ C → p = Z.of_nat (length A) → limit = (p + Z.of_nat (length (entry_bytes e) + length B))%Z →
  (limit < 2 ^ 32)%Z → small e →
  DecodeEntry data p limit =
    Some (Z.of_nat (e_shared e), Z.of_nat (length (e_key e) - e_shared e), Z.of_nat (length (e_value e)),
          p + Z.of_nat (length (entry_header e)))%Z.
Proof.
  intros -> -> -> Hlim [Hs Hsh]. unfold DecodeEntry.
  assert (region (A ++ entry_bytes e ++ B ++ C) (Z.of_nat (length A)) (Z.of_nat (length A) + Z.of_nat (length (entry_bytes e) + length B)) =
    entry_bytes e ++ B) as ->.
  { rewrite (app_assoc (entry_bytes e)). replace (_ + _)%Z with (Z.of_nat (length A + length (entry_bytes e ++ B))) by (rewrite length_app; lia).
    apply region_app. }
  set (tl := (drop (e_shared e) (e_key e) ++ e_value e) ++ B).
  assert (entry_bytes e ++ B = EncodeVarint32 (Z.of_nat (e_shared e)) ++ EncodeVarint32 (Z.of_nat (length (e_key e) - e_shared e)) ++
    EncodeVarint32 (Z.of_nat (length (e_value e))) ++ tl) as Es by (unfold entry_bytes, entry_header, tl; by rewrite <-!app_assoc).
  assert (Z.of_nat (length (entry_bytes e ++ B)) = Z.of_nat (length (entry_header e)) + Z.of_nat (length tl))%Z as Hl
    by (unfold entry_bytes, tl; rewrite !length_app; lia).
  assert (Z.of_nat (length (e_key e) - e_shared e) + Z.of_nat (length (e_value e)) ≤ Z.of_nat (length tl))%Z as Htl
    by (unfold tl; rewrite !length_app, length_drop; lia).
  rewrite length_app in Hl.
  edestruct decode_lengths as (b0 & b1 & b2 & s' & E3 & Hfast); [| | |exact (eq_sym Es)|]; [lia..|].
  assert (3 ≤ length (entry_bytes e ++ B)) as H3 by (rewrite E3; cbn; lia). rewrite length_app in H3.
  rewrite (proj2 (Z.ltb_ge _ _)) by lia. rewrite E3.
  set (r := (if Z.ltb (Z.lor _ _) 128 then _ else _)).
  assert (r = Some (Z.of_nat (e_shared e), Z.of_nat (length (e_key e) - e_shared e), Z.of_nat (length (e_value e)),
    Z.of_nat (length A) + Z.of_nat (length (entry_header e)))%Z) as ->.
  { unfold r. destruct (Z.ltb_spec (Z.lor (Z.lor (byte.unsigned b0) (byte.unsigned b1)) (byte.unsigned b2)) 128) as [Hlt|].
    - destruct (Hfast Hlt) as (-> & -> & -> & ->). do 2 f_equal. apply (f_equal length) in E3. rewrite length_app in E3. cbn in E3. lia.
    - rewrite <-E3, Es. rewrite GetVarint32Ptr_write by lia. cbn. rewrite GetVarint32Ptr_write by lia. cbn.
      rewrite GetVarint32Ptr_write by lia. cbn. do 2 f_equal. lia. }
  cbn. rewrite (proj2 (Z.ltb_ge _ _)); [done|]. rewrite !Z.mod_small by lia. lia.
Qed.

(** ** The layout of a block *)

Definition bytes_of (es : list entry) : bytes := mjoin (entry_bytes <$> es).
Definition off (es : list entry) (i : nat) : nat := length (bytes_of (take i es)).
Definition prev_key (es : list entry) (i : nat) : bytes := match i with O => [] | S j => from_option e_key [] (es !! j) end.

(** The key can be made from the one before it. *)
Definition follows (key : bytes) (e : entry) : Prop :=
  e_shared e ≤ length key ∧ take (e_shared e) key ++ drop (e_shared e) (e_key e) = e_key e.
Definition linked (es : list entry) : Prop := ∀ i e, es !! i = Some e → small e ∧ follows (prev_key es i) e.

Definition restart_bytes (es : list entry) (ps : list nat) : bytes := mjoin ((λ p, EncodeFixed32 (Z.of_nat (off es p))) <$> ps).

(** The keys at the restart points are stored whole. *)
Record restart_points (es : list entry) (ps : list nat) : Prop := mkRestartPoints {
  rp_first : ps !! 0 = Some 0;
  rp_sorted : ∀ i j p q, i < j → ps !! i = Some p → ps !! j = Some q → p < q;
  rp_whole : ∀ i p, ps !! i = Some p → p = 0 ∨ ∃ e, es !! p = Some e ∧ e_shared e = 0;
}.

Record block_of (data : bytes) (es : list entry) (ps : list nat) : Prop := mkBlockOf {
  bo_data : data = bytes_of es ++ restart_bytes es ps ++ EncodeFixed32 (Z.of_nat (length ps));
  bo_size : (Z.of_nat (length data) < 2 ^ 32)%Z;
  bo_linked : linked es;
  bo_points : restart_points es ps;
}.

Lemma mjoin_split {A B} (f : A → list B) l i x : l !! i = Some x →
  mjoin (f <$> l) = mjoin (f <$> take i l) ++ f x ++ mjoin (f <$> drop (S i) l).
Proof. intros Hx. rewrite <-(take_drop_middle l i x Hx) at 1. rewrite fmap_app, join_app. done. Qed.

Lemma slice_at_app A B C : slice_at (A ++ B ++ C) (Z.of_nat (length A)) (Z.of_nat (length B)) = Ok B.
Proof.
  unfold slice_at. rewrite !length_app, (proj2 (Z.leb_le _ _)), (proj2 (Z.leb_le _ _)) by lia. cbn [andb].
  by rewrite !Nat2Z.id, drop_app_length, take_app_length.
Qed.

Lemma entry_length e : 3 ≤ length (entry_bytes e).
Proof.
  unfold entry_bytes, entry_header. rewrite !length_app.
  destruct (EncodeVarint32_nonempty (Z.of_nat (e_shared e))) as (? & ? & ->),
    (EncodeVarint32_nonempty (Z.of_nat (length (e_key e) - e_shared e))) as (? & ? & ->),
    (EncodeVarint32_nonempty (Z.of_nat (length (e_value e)))) as (? & ? & ->). cbn. lia.
Qed.

Lemma off_succ es i e : es !! i = Some e → off es (S i) = off es i + length (entry_bytes e).
Proof.
  intros He. unfold off. rewrite (take_S_r es i e He). unfold bytes_of.
  rewrite fmap_app, join_app. cbn. by rewrite !length_app, Nat.add_0_r.
Qed.

Lemma off_lt es i j : i < j → j ≤ length es → off es i < off es j.
Proof.
  intros Hij Hj. induction Hij as [|j Hij IH].
  - destruct (lookup_lt_is_Some_2 es i) as [e He]; [lia|]. rewrite (off_succ _ _ _ He). pose proof (entry_length e). lia.
  - destruct (lookup_lt_is_Some_2 es j) as [e He]; [lia|]. rewrite (off_succ _ _ _ He). pose proof (entry_length e).
    specialize (IH ltac:(lia)). lia.
Qed.

Lemma off_ltb es i j : i ≤ length es → j ≤ length es → Z.ltb (Z.of_nat (off es i)) (Z.of_nat (off es j)) = bool_decide (i < j).
Proof.
  intros Hi Hj. destruct (decide (i < j)) as [Hij|Hij].
  - rewrite bool_decide_true by done. apply Z.ltb_lt. pose proof (off_lt es i j Hij Hj). lia.
  - rewrite bool_decide_false by done. apply Z.ltb_ge. destruct (decide (i = j)) as [->|]; [lia|].
    pose proof (off_lt es j i ltac:(lia) Hi). lia.
Qed.

Lemma off_leb es i j : i ≤ length es → j ≤ length es → Z.leb (Z.of_nat (off es i)) (Z.of_nat (off es j)) = bool_decide (i ≤ j).
Proof.
  intros Hi Hj. rewrite Z.leb_antisym, off_ltb by done. do 2 case_bool_decide; cbn; (done || lia).
Qed.

Lemma off_end es : off es (length es) = length (bytes_of es).
Proof. unfold off. by rewrite firstn_all. Qed.

Lemma count_off es : length es ≤ length (bytes_of es).
Proof.
  unfold bytes_of. induction es as [|e es IH]; csimpl; [lia|]. rewrite length_app. pose proof (entry_length e). lia.
Qed.

(** ** The iterator over a block *)

Section iterating.
Context (data : bytes) (es : list entry) (ps : list nat) (B : block_of data es ps).
Let points := bo_points _ _ _ B.

Lemma data_bounds : (Z.of_nat (length data) = Z.of_nat (off es (length es)) + 4 * Z.of_nat (length ps) + 4)%Z.
Proof.
  rewrite (bo_data _ _ _ B), !length_app, length_EncodeFixed32, off_end. unfold restart_bytes.
  rewrite (length_mjoin_blocks _ 4) by (intros; apply length_EncodeFixed32). lia.
Qed.

Lemma off_bound i : i ≤ length es → (Z.of_nat (off es i) ≤ Z.of_nat (off es (length es)))%Z.
Proof. intros Hi. apply Z.leb_le. rewrite off_leb by lia. by apply bool_decide_eq_true_2. Qed.

Lemma restart_in ri p : ps !! ri = Some p → p ≤ length es.
Proof. intros Hp. destruct (rp_whole _ _ points _ _ Hp) as [->|(e & He & _)]; [lia|]. apply lookup_lt_Some in He. lia. Qed.

(** The iterator has been set up on this block. *)
Definition over (it : BlockIter) : Prop :=
  data_ it = Some data ∧ restarts_ it = Z.of_nat (off es (length es)) ∧ num_restarts_ it = Z.of_nat (length ps) ∧ status_ it = StatusOK.

Definition at_end (it : BlockIter) : Prop := over it ∧ current_ it = restarts_ it.

(** The next entry to parse is [i]. *)
Definition ready (it : BlockIter) (i : nat) : Prop :=
  over it ∧ (∃ a b, value_ it = Some (a, b) ∧ u32 (a + b) = Z.of_nat (off es i)) ∧
  (∃ ri p, restart_index_ it = Z.of_nat ri ∧ ps !! ri = Some p ∧ p ≤ i) ∧
  (∀ e, es !! i = Some e → follows (key_ it) e).

(** The entry [i] has been parsed. *)
Definition at_entry (it : BlockIter) (i : nat) : Prop :=
  over it ∧ ∃ e ri p, es !! i = Some e ∧ current_ it = Z.of_nat (off es i) ∧ key_ it = e_key e ∧
    value_ it = Some (Z.of_nat (off es (S i)) - Z.of_nat (length (e_value e)), Z.of_nat (length (e_value e)))%Z ∧
    restart_index_ it = Z.of_nat ri ∧ ps !! ri = Some p ∧ p ≤ i.

Lemma run_GetRestartPoint it ri p : over it → ps !! ri = Some p →
  GetRestartPoint (Z.of_nat ri) it = Ok (Z.of_nat (off es p), it).
Proof.
  intros (Hd & Hr & Hn & _) Hp. pose proof data_bounds as Hb. pose proof (bo_size _ _ _ B) as Hs.
  pose proof (off_bound p (restart_in _ _ Hp)) as Ho.
  unfold GetRestartPoint, block_data. mred. rewrite (bind_Ok _ _ it it it) by done.
  rewrite (bind_Ok _ _ it tt it) by (apply assert_true, Z.ltb_lt; apply lookup_lt_Some in Hp; lia).
  rewrite (bind_Ok _ _ it data it).
  2:{ rewrite (bind_Ok _ _ it it it) by done. apply lift_Ok. by rewrite Hd. }
  rewrite (bind_Ok _ _ it (EncodeFixed32 (Z.of_nat (off es p))) it).
  - apply lift_Ok. rewrite <-(app_nil_r (EncodeFixed32 _)). apply DecodeFixed32_write. lia.
  - apply lift_Ok. rewrite Hr, (bo_data _ _ _ B). unfold restart_bytes. rewrite (mjoin_split _ _ _ _ Hp).
    rewrite <-!app_assoc, (app_assoc (bytes_of es)).
    replace (_ + _)%Z with (Z.of_nat (length (bytes_of es ++ mjoin ((λ p, EncodeFixed32 (Z.of_nat (off es p))) <$> take ri ps)))).
    + change 4%Z with (Z.of_nat 4). rewrite <-(length_EncodeFixed32 (Z.of_nat (off es p))) at 1. apply slice_at_app.
    + apply lookup_lt_Some in Hp.
      rewrite length_app, (length_mjoin_blocks _ 4), length_take by (intros; apply length_EncodeFixed32). rewrite off_end. lia.
Qed.

Definition put_index (it : BlockIter) (r : Z) : BlockIter :=
  mkBlockIter (data_ it) (restarts_ it) (num_restarts_ it) (current_ it) r (key_ it) (value_ it) (status_ it).

Lemma few_restarts : (Z.of_nat (length ps) < 2 ^ 30)%Z ∧ length ps ≤ length data ∧ length es ≤ length data.
Proof.
  pose proof data_bounds. pose proof (bo_size _ _ _ B). pose proof (count_off es). rewrite off_end in *. lia.
Qed.

Lemma run_restart_loop i it ri p fuel :
  over it → current_ it = Z.of_nat (off es i) → i < length es →
  restart_index_ it = Z.of_nat ri → ps !! ri = Some p → p ≤ i → length ps - ri ≤ fuel →
  ∃ ri' p', restart_loop fuel it = Ok (tt, put_index it (Z.of_nat ri')) ∧ ps !! ri' = Some p' ∧ p' ≤ i.
Proof.
  revert it ri p. induction fuel as [|fuel IH]; intros it ri p Ho Hc Hi Hri Hp Hpi Hf; pose proof (lookup_lt_Some _ _ _ Hp); [lia|].
  cbn [restart_loop]. rewrite (bind_Ok _ _ it it it) by done.
  pose proof few_restarts. destruct Ho as (Hd & Hr & Hn & Hs).
  assert (u32 (restart_index_ it + 1) = Z.of_nat (S ri)) as -> by (rewrite Hri, Z.mod_small; lia). rewrite Hn.
  assert (put_index it (Z.of_nat ri) = it) as Hit by (rewrite <-Hri; by destruct it).
  destruct (Z.ltb_spec (Z.of_nat (S ri)) (Z.of_nat (length ps))) as [Hlt|]; [|exists ri, p; by rewrite Hit].
  destruct (lookup_lt_is_Some_2 ps (S ri)) as [q Hq]; [lia|].
  rewrite (bind_Ok _ _ _ _ _ (run_GetRestartPoint it (S ri) q (conj Hd (conj Hr (conj Hn Hs))) Hq)).
  rewrite Hc, off_ltb by (eauto using restart_in with lia || lia).
  case_bool_decide as Hqi; [|exists ri, p; by rewrite Hit].
  rewrite (bind_Ok _ _ it tt (put_index it (Z.of_nat (S ri)))) by done.
  destruct (IH (put_index it (Z.of_nat (S ri))) (S ri) q) as (ri' & p' & E & ?); [done..|lia|lia|]. by exists ri', p'.
Qed.

Lemma data_split i e : es !! i = Some e →
  data = bytes_of (take i es) ++ entry_bytes e ++ bytes_of (drop (S i) es) ++ restart_bytes es ps ++ EncodeFixed32 (Z.of_nat (length ps)).
Proof. intros He. rewrite (bo_data _ _ _ B) at 1. unfold bytes_of at 1. rewrite (mjoin_split _ _ _ _ He), <-!app_assoc. done. Qed.

(** Where the parts of an entry are. *)
Lemma run_DecodeEntry_at i e : es !! i = Some e →
  DecodeEntry data (Z.of_nat (off es i)) (Z.of_nat (off es (length es))) =
    Some (Z.of_nat (e_shared e), Z.of_nat (length (e_key e) - e_shared e), Z.of_nat (length (e_value e)),
          Z.of_nat (off es i + length (entry_header e))).
Proof.
  intros He. destruct (bo_linked _ _ _ B i e He) as [Hsm _]. pose proof data_bounds. pose proof (bo_size _ _ _ B).
  erewrite run_DecodeEntry; [f_equal; f_equal; lia|by apply data_split|done| |lia|done].
  rewrite off_end. unfold bytes_of at 1. rewrite (mjoin_split _ _ _ _ He), !length_app. unfold off, bytes_of. lia.
Qed.

Lemma key_slice i e : es !! i = Some e →
  slice_at data (Z.of_nat (off es i + length (entry_header e))) (Z.of_nat (length (e_key e) - e_shared e)) = Ok (drop (e_shared e) (e_key e)).
Proof.
  intros He. rewrite (data_split i e He). unfold entry_bytes. rewrite <-!app_assoc, (app_assoc (bytes_of (take i es))).
  unfold off. rewrite <-length_app, <-length_drop. apply slice_at_app.
Qed.

Lemma value_slice i e : es !! i = Some e →
  slice_at data (Z.of_nat (off es (S i)) - Z.of_nat (length (e_value e))) (Z.of_nat (length (e_value e))) = Ok (e_value e).
Proof.
  intros He. rewrite (data_split i e He). unfold entry_bytes.
  rewrite <-!app_assoc, (app_assoc (bytes_of (take i es))), (app_assoc (_ ++ _)).
  replace (_ - _)%Z with (Z.of_nat (length ((bytes_of (take i es) ++ entry_header e) ++ drop (e_shared e) (e_key e)))); [apply slice_at_app|].
  rewrite (off_succ _ _ _ He). unfold entry_bytes, off. rewrite !length_app. lia.
Qed.

Lemma run_NextEntryOffset it i : ready it i → NextEntryOffset it = Ok (Z.of_nat (off es i), it).
Proof.
  intros (_ & (a & b & Hv & Hab) & _). unfold NextEntryOffset. rewrite (bind_Ok _ _ it it it) by done. rewrite Hv. mred.
  rewrite (bind_Ok _ _ it (a, b) it) by done. cbn [fst snd]. by rewrite Hab.
Qed.

Lemma run_ParseNextKey it i : ready it i → i < length es → ∃ it', ParseNextKey it = Ok (true, it') ∧ at_entry it' i.
Proof.
  intros Hready Hi. pose proof (run_NextEntryOffset it i Hready) as En.
  destruct Hready as ((Hd & Hr & Hn & Hs) & _ & (ri & p & Hri & Hp & Hpi) & Hfol).
  destruct (lookup_lt_is_Some_2 es i) as [e He]; [lia|]. destruct (Hfol e He) as [Hle Hkey].
  unfold ParseNextKey, block_data. rewrite (bind_Ok _ _ _ _ _ En).
  set (it1 := mkBlockIter (data_ it) (restarts_ it) (num_restarts_ it) (Z.of_nat (off es i)) (restart_index_ it) (key_ it) (value_ it) (status_ it)).
  rewrite (bind_Ok _ _ it tt it1) by done. rewrite (bind_Ok _ _ it1 it1 it1) by done.
  rewrite (bind_Ok _ _ it1 data it1).
  2:{ rewrite (bind_Ok _ _ it1 it1 it1) by done. apply lift_Ok. cbn. by rewrite Hd. }
  change (restarts_ it1) with (restarts_ it). change (key_ it1) with (key_ it). rewrite Hr.
  rewrite (off_leb es (length es) i), bool_decide_false by lia.
  rewrite (run_DecodeEntry_at i e He). rewrite (proj2 (Z.ltb_ge _ _)) by lia.
  rewrite (bind_Ok _ _ it1 _ it1 (lift_Ok _ _ _ (key_slice i e He))).
  rewrite (bind_Ok _ _ it1 (e_key e) it1).
  2:{ apply lift_Ok. unfold TrimAppend. rewrite (proj2 (Z.leb_le _ _)), Nat2Z.id by lia. by rewrite Hkey. }
  set (v := Some _). set (it2 := mkBlockIter (data_ it) (restarts_ it) (num_restarts_ it) (Z.of_nat (off es i)) (restart_index_ it) (e_key e) v (status_ it)).
  rewrite (bind_Ok _ _ it1 tt it2) by done. pose proof few_restarts.
  destruct (run_restart_loop i it2 ri p (S (length data))) as (ri' & p' & E & Hp' & Hpi'); [done|done|lia|done..|lia|].
  rewrite (bind_Ok _ _ _ _ _ E). eexists. split; [done|]. split; [done|]. exists e, ri', p'. split_and!; try done.
  cbn. unfold v. do 2 f_equal. destruct (bo_linked _ _ _ B i e He) as [[_ ?] _]. rewrite (off_succ _ _ _ He). unfold entry_bytes.
  rewrite !length_app, length_drop. lia.
Qed.

Lemma run_ParseNextKey_end it : ready it (length es) → ∃ it', ParseNextKey it = Ok (false, it') ∧ at_end it'.
Proof.
  intros Hready. pose proof (run_NextEntryOffset it _ Hready) as En. destruct Hready as ((Hd & Hr & Hn & Hs) & _).
  unfold ParseNextKey, block_data. rewrite (bind_Ok _ _ _ _ _ En).
  set (it1 := mkBlockIter (data_ it) (restarts_ it) (num_restarts_ it) (Z.of_nat (off es (length es))) (restart_index_ it) (key_ it) (value_ it) (status_ it)).
  rewrite (bind_Ok _ _ it tt it1) by done. rewrite (bind_Ok _ _ it1 it1 it1) by done.
  rewrite (bind_Ok _ _ it1 data it1).
  2:{ rewrite (bind_Ok _ _ it1 it1 it1) by done. apply lift_Ok. cbn. by rewrite Hd. }
  change (restarts_ it1) with (restarts_ it). rewrite Hr, Z.leb_refl. eexists. split; [done|]. done.
Qed.

Lemma at_entry_ready it i : at_entry it i → i < length es ∧ ready it (S i).
Proof.
  intros (Ho & e & ri & p & He & Hc & Hk & Hv & Hri & Hp & Hpi). pose proof (lookup_lt_Some _ _ _ He).
  split; [done|]. split; [done|]. split_and!.
  - eexists _, _. split; [done|]. pose proof data_bounds. pose proof (bo_size _ _ _ B). pose proof (off_bound (S i) ltac:(lia)).
    rewrite Z.sub_add, Z.mod_small; lia.
  - exists ri, p. split_and!; [done..|lia].
  - intros e' He'. destruct (bo_linked _ _ _ B _ _ He') as [_ Hfol]. cbn in Hfol. rewrite He in Hfol. cbn in Hfol. by rewrite Hk.
Qed.

Lemma at_entry_valid it i : at_entry it i → BlockIter_Valid it = true.
Proof.
  intros ((_ & Hr & _) & e & ri & p & He & Hc & _). apply lookup_lt_Some in He. unfold BlockIter_Valid.
  rewrite Hr, Hc, off_ltb by lia. by apply bool_decide_eq_true_2.
Qed.

Lemma at_end_invalid it : at_end it → BlockIter_Valid it = false.
Proof. intros [_ Hc]. unfold BlockIter_Valid. rewrite Hc. apply Z.ltb_irrefl. Qed.

Lemma run_SeekToRestartPoint it ri p : over it → ps !! ri = Some p →
  ∃ it', SeekToRestartPoint (Z.of_nat ri) it = Ok (tt, it') ∧ ready it' p.
Proof.
  intros Ho Hp. unfold SeekToRestartPoint. rewrite (bind_Ok _ _ it tt (put_index it (Z.of_nat ri))) by done.
  rewrite (bind_Ok _ _ _ _ _ (run_GetRestartPoint (put_index it (Z.of_nat ri)) ri p Ho Hp)).
  eexists. split; [done|]. split; [done|]. split_and!.
  - eexists _, _. split; [done|]. pose proof data_bounds. pose proof (bo_size _ _ _ B).
    pose proof (off_bound p (restart_in _ _ Hp)). rewrite Z.add_0_r, Z.mod_small; lia.
  - by exists ri, p.
  - intros e He. cbn. unfold follows. assert (e_shared e = 0) as ->; [|split; [cbn; lia|done]].
    destruct (rp_whole _ _ points _ _ Hp) as [->|(e' & He' & ?)]; [|congruence].
    destruct (bo_linked _ _ _ B _ _ He) as [_ [Hl _]]. cbn in Hl. lia.
Qed.

Lemma run_skip_loop fuel it k m : ready it k → k < m → m ≤ length es → m - k ≤ fuel →
  ∃ it', skip_loop fuel (Z.of_nat (off es m)) it = Ok (tt, it') ∧ at_entry it' (m - 1).
Proof.
  revert it k. induction fuel as [|fuel IH]; intros it k Hready Hkm Hm Hf; [lia|]. cbn [skip_loop].
  destruct (run_ParseNextKey it k Hready ltac:(lia)) as (it1 & E1 & Hat). rewrite (bind_Ok _ _ _ _ _ E1). cbn iota.
  destruct (at_entry_ready _ _ Hat) as [_ Hr1].
  rewrite (bind_Ok _ _ _ _ _ (run_NextEntryOffset _ _ Hr1)), off_ltb by lia.
  case_bool_decide as Hlt; [apply (IH it1 (S k)); (done || lia)|].
  exists it1. replace (m - 1) with k by lia. done.
Qed.

Lemma run_back_loop fuel it i ri p : over it → i < length es →
  restart_index_ it = Z.of_nat ri → ps !! ri = Some p → p ≤ i → ri < fuel →
  (i = 0 ∧ ∃ it', back_loop fuel (Z.of_nat (off es i)) it = Ok (false, it') ∧ at_end it') ∨
  (∃ ri' p', back_loop fuel (Z.of_nat (off es i)) it = Ok (true, put_index it (Z.of_nat ri')) ∧ ps !! ri' = Some p' ∧ p' < i).
Proof.
  revert it ri p. induction fuel as [|fuel IH]; intros it ri p Ho Hi Hri Hp Hpi Hf; [lia|]. cbn [back_loop].
  rewrite (bind_Ok _ _ it it it) by done. rewrite Hri.
  rewrite (bind_Ok _ _ _ _ _ (run_GetRestartPoint it ri p Ho Hp)), off_leb by (eauto using restart_in with lia || lia).
  case_bool_decide as Hle.
  - assert (p = i) as -> by lia. destruct (Z.eqb_spec (Z.of_nat ri) 0) as [E|E].
    + left. assert (ri = 0) as -> by lia. rewrite (rp_first _ _ points) in Hp. simplify_eq. split; [done|]. eexists. split; [done|]. done.
    + destruct ri as [|ri]; [done|]. destruct (lookup_lt_is_Some_2 ps ri) as [q Hq]; [apply lookup_lt_Some in Hp; lia|].
      pose proof (rp_sorted _ _ points ri (S ri) _ _ ltac:(lia) Hq Hp). replace (Z.of_nat (S ri) - 1)%Z with (Z.of_nat ri) by lia.
      rewrite (bind_Ok _ _ it tt (put_index it (Z.of_nat ri))) by done. apply (IH (put_index it (Z.of_nat ri)) ri q); (done || lia).
  - right. exists ri, p. split_and!; [|done|lia]. rewrite <-Hri. by destruct it.
Qed.

(** Where the iterator is: at an entry, or not valid. *)
Definition stands (it : BlockIter) (pos : option nat) : Prop := match pos with Some i => at_entry it i | None => at_end it end.

Lemma stands_valid it pos : stands it pos → BlockIter_Valid it = bool_decide (is_Some pos).
Proof.
  destruct pos as [i|]; cbn; intros H.
  - by rewrite (at_entry_valid _ _ H).
  - by rewrite (at_end_invalid _ H).
Qed.

Lemma stands_over it pos : stands it pos → over it.
Proof. destruct pos; intros [? _]; done. Qed.

Lemma run_BlockNext it i : at_entry it i →
  ∃ it', BlockIter_Next it = Ok (tt, it') ∧ stands it' (if decide (S i < length es) then Some (S i) else None).
Proof.
  intros Hat. unfold BlockIter_Next. rewrite (bind_Ok _ _ it it it) by done.
  rewrite (bind_Ok _ _ it tt it) by (apply assert_true, (at_entry_valid _ _ Hat)).
  destruct (at_entry_ready _ _ Hat) as [Hi Hr]. case_decide as Hs.
  - destruct (run_ParseNextKey it (S i) Hr Hs) as (it' & E & ?). rewrite (bind_Ok _ _ _ _ _ E). by exists it'.
  - replace (S i) with (length es) in Hr by lia. destruct (run_ParseNextKey_end it Hr) as (it' & E & ?).
    rewrite (bind_Ok _ _ _ _ _ E). by exists it'.
Qed.

Lemma run_BlockPrev it i : at_entry it i →
  ∃ it', BlockIter_Prev it = Ok (tt, it') ∧ stands it' (match i with O => None | S j => Some j end).
Proof.
  intros Hat. destruct (at_entry_ready _ _ Hat) as [Hi _]. pose proof (at_entry_valid _ _ Hat) as Hv.
  destruct Hat as (Ho & e & ri & p & He & Hc & _ & _ & Hri & Hp & Hpi).
  unfold BlockIter_Prev, block_data. rewrite (bind_Ok _ _ it it it) by done. rewrite (bind_Ok _ _ it tt it) by by apply assert_true.
  rewrite (bind_Ok _ _ it data it).
  2:{ rewrite (bind_Ok _ _ it it it) by done. apply lift_Ok. destruct Ho as [-> _]. done. }
  cbv zeta. rewrite Hc. pose proof few_restarts. pose proof (lookup_lt_Some _ _ _ Hp).
  destruct (run_back_loop (S (length data)) it i ri p Ho Hi Hri Hp Hpi ltac:(lia)) as [(-> & it' & E & ?)|(ri' & p' & E & Hp' & Hlt)];
    rewrite (bind_Ok _ _ _ _ _ E); cbn iota; [by exists it'|].
  rewrite (bind_Ok _ _ (put_index it (Z.of_nat ri')) (put_index it (Z.of_nat ri')) (put_index it (Z.of_nat ri'))) by done.
  change (restart_index_ (put_index it (Z.of_nat ri'))) with (Z.of_nat ri').
  destruct (run_SeekToRestartPoint (put_index it (Z.of_nat ri')) ri' p' Ho Hp') as (it1 & E1 & Hr1). rewrite (bind_Ok _ _ _ _ _ E1).
  destruct (run_skip_loop (S (length data)) it1 p' i Hr1 Hlt ltac:(lia) ltac:(lia)) as (it2 & E2 & Hat2).
  exists it2. split; [done|]. destruct i as [|j]; [lia|]. by replace (S j - 1) with j in Hat2 by lia.
Qed.

Lemma run_SeekToFirst it : over it →
  ∃ it', BlockIter_SeekToFirst it = Ok (tt, it') ∧ stands it' (if decide (0 < length es) then Some 0 else None).
Proof.
  intros Ho. unfold BlockIter_SeekToFirst. rewrite (bind_Ok _ _ it it it) by done. destruct (Ho) as (-> & _).
  destruct (run_SeekToRestartPoint it 0 0 Ho (rp_first _ _ points)) as (it1 & E1 & Hr1). change 0%Z with (Z.of_nat 0).
  rewrite (bind_Ok _ _ _ _ _ E1). case_decide as Hs.
  - destruct (run_ParseNextKey it1 0 Hr1 Hs) as (it' & E & ?). rewrite (bind_Ok _ _ _ _ _ E). by exists it'.
  - replace 0 with (length es) in Hr1 by lia. destruct (run_ParseNextKey_end it1 Hr1) as (it' & E & ?).
    rewrite (bind_Ok _ _ _ _ _ E). by exists it'.
Qed.

Lemma run_SeekToLast it : over it →
  ∃ it', BlockIter_SeekToLast it = Ok (tt, it') ∧ stands it' (if decide (0 < length es) then Some (length es - 1) else None).
Proof.
  intros Ho. unfold BlockIter_SeekToLast. rewrite (bind_Ok _ _ it it it) by done. destruct (Ho) as (-> & -> & -> & _).
  pose proof few_restarts. pose proof (lookup_lt_Some _ _ _ (rp_first _ _ points)).
  destruct (lookup_lt_is_Some_2 ps (length ps - 1)) as [p Hp]; [lia|].
  assert (u32 (Z.of_nat (length ps) - 1) = Z.of_nat (length ps - 1)) as -> by (rewrite Z.mod_small; lia).
  destruct (run_SeekToRestartPoint it _ p Ho Hp) as (it1 & E1 & Hr1). rewrite (bind_Ok _ _ _ _ _ E1). case_decide as Hs.
  - apply (run_skip_loop _ _ p); [done| |lia..].
    destruct (rp_whole _ _ points _ _ Hp) as [->|(e & He & _)]; [done|]. by apply lookup_lt_Some in He.
  - pose proof (restart_in _ _ Hp). replace p with (length es) in Hr1 by lia. destruct (run_ParseNextKey_end it1 Hr1) as (it' & E & ?).
    cbn [skip_loop]. rewrite (bind_Ok _ _ _ _ _ E). by exists it'.
Qed.

(** *** Binary search *)

Section seeking.
Context (comparator_ : bytes → bytes → outcome Z) `{!Comparator comparator_} (target : bytes) (wf_target : wf_key comparator_ target).
Context (wf_keys : ∀ i e, es !! i = Some e → wf_key comparator_ (e_key e)).
Context (increasing : ∀ i j e e', i < j → es !! i = Some e → es !! j = Some e' → (key_order comparator_ (e_key e) (e_key e') < 0)%Z).

(** A restart point from which a forward scan finds the target. *)
Definition left_of (ri : nat) : Prop :=
  ∃ p, ps !! ri = Some p ∧ (p = 0 ∨ ∃ e, es !! p = Some e ∧ (key_order comparator_ (e_key e) target ≤ 0)%Z).

Lemma run_BinarySeek_loop fuel it l r : over it → l ≤ r → r < length ps → (Z.of_nat (r - l) < 2 ^ Z.of_nat fuel)%Z → left_of l →
  ∃ ri, BinarySeek_loop comparator_ fuel target (Z.of_nat l) (Z.of_nat r) it = Ok (Some (Z.of_nat ri), it) ∧ left_of ri.
Proof.
  intros Ho. revert l r. induction fuel as [|fuel IH]; intros l r Hlr Hr Hf Hl; cbn [BinarySeek_loop];
    (destruct (Z.ltb_spec (Z.of_nat l) (Z.of_nat r)) as [Hlt|]; cbn [negb]; [|exists l; split; [done|exact Hl]]).
  { exfalso. cbn in Hf. lia. }
  rewrite Nat2Z.inj_succ, Z.pow_succ_r in Hf by lia. pose proof few_restarts.
  set (m := (l + r + 1) / 2). assert (l < m ≤ r) as Hm by (unfold m; pose proof (Nat.div_mod_eq (l + r + 1) 2);
    pose proof (Nat.mod_upper_bound (l + r + 1) 2); lia).
  assert (u32 (Z.of_nat l + Z.of_nat r + 1) / 2 = Z.of_nat m)%Z as ->.
  { rewrite Z.mod_small by lia. unfold m. rewrite Nat2Z.inj_div. f_equal. lia. }
  assert (2 * m ≤ l + r + 1 ≤ 2 * m + 1) as Hmid by (unfold m; pose proof (Nat.div_mod_eq (l + r + 1) 2);
    pose proof (Nat.mod_upper_bound (l + r + 1) 2); lia).
  destruct (lookup_lt_is_Some_2 ps m) as [p Hp]; [lia|]. cbv zeta. clearbody m.
  assert (∃ e, es !! p = Some e ∧ e_shared e = 0) as (e & He & Hsh).
  { destruct (rp_whole _ _ points _ _ Hp) as [->|]; [|done]. pose proof (rp_sorted _ _ points 0 m _ _ ltac:(lia) (rp_first _ _ points) Hp). lia. }
  rewrite (bind_Ok _ _ _ _ _ (run_GetRestartPoint it m p Ho Hp)), (bind_Ok _ _ it it it) by done.
  rewrite (bind_Ok _ _ it data it).
  2:{ unfold block_data. rewrite (bind_Ok _ _ it it it) by done. apply lift_Ok. by rewrite (proj1 Ho). }
  destruct (Ho) as (_ & -> & _). rewrite (run_DecodeEntry_at p e He). cbn iota. rewrite (proj2 (Z.eqb_eq (Z.of_nat (e_shared e)) 0)) by lia. cbn [negb].
  rewrite (bind_Ok _ _ it _ it (lift_Ok _ _ _ (key_slice p e He))). rewrite Hsh, drop_0.
  rewrite (bind_Ok _ _ it _ it (lift_Ok _ _ _ (compare_runs _ _ (wf_keys _ _ He) wf_target))).
  replace (Z.of_nat m - 1)%Z with (Z.of_nat (m - 1)) by lia.
  repeat case_match; rewrite ?Z.ltb_lt, ?Z.ltb_ge in *; apply IH; try lia; try done; exists p; (split; [done|]; right; exists e; split; [done|lia]).
Qed.

Abbreviation reached := (λ e, 0 ≤ key_order comparator_ (e_key e) target)%Z.

Lemma run_linear_loop fuel it k : ready it k → k ≤ length es → length es - k < fuel →
  (∀ j e, j < k → es !! j = Some e → ¬ reached e) →
  ∃ it', linear_loop comparator_ fuel target it = Ok (tt, it') ∧ stands it' (fst <$> list_find reached es).
Proof.
  revert it k. induction fuel as [|fuel IH]; intros it k Hr Hk Hf Hbelow; [lia|]. cbn [linear_loop].
  destruct (decide (k = length es)) as [->|].
  - destruct (run_ParseNextKey_end it Hr) as (it' & E & ?). rewrite (bind_Ok _ _ _ _ _ E). exists it'. split; [done|].
    assert (list_find reached es = None) as ->; [|done]. apply list_find_None, Forall_lookup. intros j e He.
    apply (Hbelow j); [by apply lookup_lt_Some in He|done].
  - destruct (run_ParseNextKey it k Hr ltac:(lia)) as (it1 & E & Hat). rewrite (bind_Ok _ _ _ _ _ E). cbn iota.
    rewrite (bind_Ok _ _ it1 it1 it1) by done. destruct (at_entry_ready _ _ Hat) as [_ Hr1].
    pose proof Hat as (_ & e & _ & _ & He & _ & -> & _).
    rewrite (bind_Ok _ _ it1 _ it1 (lift_Ok _ _ _ (compare_runs _ _ (wf_keys _ _ He) wf_target))).
    destruct (Z.leb_spec 0 (key_order comparator_ (e_key e) target)) as [Hge|Hlt].
    + exists it1. split; [done|]. assert (list_find reached es = Some (k, e)) as ->; [|done].
      apply list_find_Some. split_and!; [done..|]. intros j e' ? ?. by apply (Hbelow j).
    + apply (IH it1 (S k)); [done|lia..|]. intros j e' Hj He'. destruct (decide (j = k)) as [->|]; [|apply (Hbelow j); [lia|done]].
      simplify_eq. lia.
Qed.

Lemma run_Seek it : over it →
  ∃ it', BlockIter_Seek comparator_ target it = Ok (tt, it') ∧ stands it' (fst <$> list_find reached es).
Proof.
  intros Ho. unfold BlockIter_Seek. rewrite (bind_Ok _ _ it it it) by done. destruct (Ho) as (-> & _ & -> & _).
  pose proof few_restarts. pose proof (lookup_lt_Some _ _ _ (rp_first _ _ points)).
  assert (u32 (Z.of_nat (length ps) - 1) = Z.of_nat (length ps - 1)) as -> by (rewrite Z.mod_small; lia).
  destruct (run_BinarySeek_loop 33 it 0 (length ps - 1) Ho) as (ri & E & p & Hp & Hleft); [lia|lia| |by exists 0; split; [apply points|left]|].
  { change (2 ^ Z.of_nat 33)%Z with (2 ^ 33)%Z. lia. }
  unfold BinarySeek. rewrite (bind_Ok _ _ it (Some (Z.of_nat ri)) it); [|rewrite (bind_Ok _ _ it tt it); [done|apply assert_true, Z.leb_le; lia]].
  destruct (run_SeekToRestartPoint it ri p Ho Hp) as (it1 & E1 & Hr1). rewrite (bind_Ok _ _ _ _ _ E1).
  pose proof (restart_in _ _ Hp). apply (run_linear_loop _ it1 p); [done|lia|lia|].
  intros j e Hj He Hge. destruct Hleft as [->|(e' & He' & Hle)]; [lia|]. pose proof (increasing _ _ _ _ Hj He He') as Hlt.
  assert (key_order comparator_ (e_key e) target < 0)%Z; [|lia].
  by apply (order_lt_le comparator_ _ (e_key e')).
Qed.
End seeking.
End iterating.

(** ** The builder makes a block *)

Lemma diff_index_common a b :
  diff_index a b ≤ length a ∧ diff_index a b ≤ length b ∧ take (diff_index a b) a = take (diff_index a b) b.
Proof.
  revert b. induction a as [|x a IH]; intros [|y b]; cbn [diff_index length]; [repeat split; (lia || done)..|].
  destruct (Z.eqb_spec (byte.unsigned x) (byte.unsigned y)) as [E%byte.unsigned_inj|E]; [|repeat split; lia].
  destruct (IH b) as (? & ? & Ht). cbn [take]. rewrite Ht, E. repeat split; lia.
Qed.

Lemma prev_key_app es e i : i ≤ length es → prev_key (es ++ [e]) i = prev_key es i.
Proof. intros Hi. destruct i as [|j]; [done|]. cbn. by rewrite lookup_app_l by lia. Qed.

Lemma off_app es e i : i ≤ length es → off (es ++ [e]) i = off es i.
Proof. intros Hi. unfold off. by rewrite take_app_le by done. Qed.

Lemma bytes_of_snoc es e : bytes_of (es ++ [e]) = bytes_of es ++ entry_bytes e.
Proof. unfold bytes_of. rewrite fmap_app, join_app. cbn. by rewrite app_nil_r. Qed.

Lemma linked_snoc es e : linked es → small e → follows (prev_key es (length es)) e → linked (es ++ [e]).
Proof.
  intros Hl Hs Hf i e' [[? He]|[-> <-]]%lookup_snoc_Some.
  - rewrite prev_key_app by lia. apply Hl, He.
  - by rewrite prev_key_app.
Qed.

(** What the builder has when it was given the entries [es]. *)
Record building (interval : Z) (b : BlockBuilder) (es : list entry) (ps : list nat) : Prop := mkBuilding {
  bu_interval : block_restart_interval_ b = interval;
  bu_buffer : buffer_ b = bytes_of es;
  bu_restarts : bb_restarts_ b = (λ p, Z.of_nat (off es p)) <$> ps;
  bu_open : finished_ b = false;
  bu_last_key : last_key_ b = prev_key es (length es);
  bu_linked : linked es;
  bu_points : restart_points es ps;
  bu_counter : ∃ p, last ps = Some p ∧ p ≤ length es ∧ counter_ b = Z.of_nat (length es - p) ∧ (counter_ b ≤ interval)%Z;
}.

Lemma new_building interval : (1 ≤ interval)%Z →
  ∃ b, BlockBuilder_new interval = Ok b ∧ building interval b [] [0].
Proof.
  intros Hi. unfold BlockBuilder_new. rewrite (proj2 (Z.leb_le _ _)) by done. eexists. split; [done|]. split; try done.
  - split; [done|intros i j p q ? Hp Hq; destruct j; [lia|done]|]. intros [|i] p Hp; [cbn in Hp; simplify_eq; by left|done].
  - exists 0. cbn. split_and!; (done || lia).
Qed.

Lemma points_below es ps p i q : restart_points es ps → last ps = Some p → ps !! i = Some q → q ≤ p.
Proof.
  intros R Hl Hq. rewrite last_lookup in Hl. pose proof (lookup_lt_Some _ _ _ Hq).
  destruct (decide (i = pred (length ps))) as [->|]; [naive_solver|].
  pose proof (rp_sorted _ _ R i (pred (length ps)) q p ltac:(lia) Hq Hl). lia.
Qed.

Lemma points_snoc es ps e : restart_points es ps → restart_points (es ++ [e]) ps.
Proof.
  intros R. split; [apply R..|]. intros i p Hp. destruct (rp_whole _ _ R i p Hp) as [->|(e' & He & ?)]; [by left|right].
  exists e'. by rewrite lookup_app_l by (by apply lookup_lt_Some in He).
Qed.

Lemma points_restart es ps e p : restart_points es ps → last ps = Some p → p < length es → e_shared e = 0 →
  restart_points (es ++ [e]) (ps ++ [length es]).
Proof.
  intros R Hl Hp He. split.
  - rewrite lookup_app_l; [apply R|]. eapply lookup_lt_Some, R.
  - intros i j x y Hij [[_ Hx]|[-> <-]]%lookup_snoc_Some [[_ Hy]|[-> <-]]%lookup_snoc_Some.
    + by eapply (rp_sorted _ _ R i j).
    + pose proof (points_below _ _ _ _ _ R Hl Hx). lia.
    + apply lookup_lt_Some in Hy. lia.
    + lia.
  - intros i x [[_ Hx]|[_ <-]]%lookup_snoc_Some; [by apply (rp_whole _ _ (points_snoc es ps e R) i)|].
    right. exists e. by rewrite lookup_app_r, Nat.sub_diag by lia.
Qed.

Lemma restarts_snoc es ps e : restart_points es ps →
  (λ p, Z.of_nat (off es p)) <$> ps = (λ p, Z.of_nat (off (es ++ [e]) p)) <$> ps.
Proof.
  intros R. apply list_fmap_ext. intros i p Hp. rewrite off_app; [done|].
  destruct (rp_whole _ _ R i p Hp) as [->|(e' & He & _)]; [lia|]. apply lookup_lt_Some in He. lia.
Qed.

Lemma entry_estimate e : small e →
  length (entry_bytes e) ≤ length (e_key e) + length (e_value e) + 4 +
    VarintLength (Z.of_nat (length (e_key e))) + VarintLength (Z.of_nat (length (e_value e))).
Proof.
  intros [Hs1 Hs2]. rewrite !VarintLength_32 by lia. unfold entry_bytes, entry_header. rewrite !length_app, length_drop.
  pose proof (length_EncodeVarint32_mono (Z.of_nat (length (e_key e) - e_shared e)) (Z.of_nat (length (e_key e))) ltac:(lia)).
  assert (length (EncodeVarint32 (Z.of_nat (e_shared e))) ≤ 4 + e_shared e); [|lia].
  destruct (e_shared e) eqn:E; [vm_compute; lia|]. pose proof (length_EncodeVarint32 (Z.of_nat (S n))). lia.
Qed.

(** The bytes an entry can take. *)
Definition cost (kv : bytes * bytes) : nat := length (fst kv) + length (snd kv) + 19.

Lemma run_Add interval b es ps key value : (1 ≤ interval)%Z → building interval b es ps →
  (Z.of_nat (length (bytes_of es) + length key + length value) < 2 ^ 32)%Z →
  ∃ b' e ps', BlockBuilder_Add key value b = Ok (tt, b') ∧ e_key e = key ∧ e_value e = value ∧
    building interval b' (es ++ [e]) ps' ∧
    (CurrentSizeEstimate b' ≤ EstimateSizeAfterKV b key value)%Z ∧
    length (entry_bytes e) + 4 * length ps' ≤ 4 * length ps + cost (key, value).
Proof.
  intros Hi [Hint Hbuf Hrs Hop Hlk Hlink R (p & Hlast & Hple & Hcnt & Hci)] Hsize.
  set (restart := negb (Z.ltb (counter_ b) interval)).
  set (e := mkEntry (if restart then 0 else diff_index (last_key_ b) key) key value).
  destruct (diff_index_common (last_key_ b) key) as (Hd1 & Hd2 & Hd3).
  assert (small e) as Hsm by (unfold small; cbn; destruct restart; lia).
  assert (follows (last_key_ b) e) as [Hf1 Hf2].
  { unfold follows. cbn. destruct restart; [split; [lia|done]|]. split; [done|]. by rewrite Hd3, take_drop. }
  unfold BlockBuilder_Add. rewrite (bind_Ok _ _ b b b) by done. rewrite Hint. fold restart.
  rewrite (bind_Ok _ _ b tt b) by (apply assert_true; by rewrite Hop).
  rewrite (bind_Ok _ _ b tt b) by (apply assert_true, Z.leb_le; done). cbv zeta.
  change (if restart then 0 else diff_index (last_key_ b) key) with (e_shared e).
  assert (take (e_shared e) (last_key_ b) ++ drop (e_shared e) key = key) as -> by exact Hf2.
  rewrite (bind_Ok _ _ b tt b) by (apply assert_true; by apply bool_decide_eq_true_2).
  destruct Hsm as [Hsm1 Hsm2]. rewrite !(Z.mod_small (Z.of_nat _)) by (cbn in *; lia).
  set (ps' := if restart then ps ++ [length es] else ps).
  eexists _, e, ps'. split; [reflexivity|]. split_and!; [done..| | |].
  - split; cbn; [done| | |done|by rewrite length_app, Nat.add_comm; cbn; rewrite lookup_app_r, Nat.sub_diag by lia|..].
    + rewrite Hbuf. rewrite bytes_of_snoc. unfold PutVarint32, entry_bytes, entry_header. by rewrite <-!app_assoc.
    + rewrite Hrs, (restarts_snoc es ps e R), Hbuf. unfold ps'. rewrite Z.mod_small by lia.
      destruct restart; [|done]. rewrite fmap_app. cbn. by rewrite off_app, off_end by lia.
    + by apply linked_snoc; [|split|rewrite <-Hlk; split].
    + unfold ps'. destruct restart eqn:Er; [|by apply points_snoc]. apply (points_restart _ _ _ p); try done.
      unfold restart in Er. apply negb_true_iff, Z.ltb_ge in Er. lia.
    + rewrite length_app. cbn. unfold ps'. destruct restart eqn:Er.
      * exists (length es). rewrite last_snoc. split_and!; [done|lia..].
      * exists p. apply negb_false_iff, Z.ltb_lt in Er. split_and!; [done|lia..].
  - pose proof (entry_estimate e (conj Hsm1 Hsm2)) as He. unfold entry_bytes, entry_header in He. rewrite !length_app, length_drop in He.
    unfold CurrentSizeEstimate, EstimateSizeAfterKV, PutVarint32. cbn [buffer_ bb_restarts_]. rewrite !length_app, length_drop, Hint.
    change (e_key e) with key in *. change (e_value e) with value in *.
    rewrite Z.leb_antisym. fold restart. clearbody e. unfold CurrentSizeEstimate. clearbody restart.
    destruct restart; rewrite ?length_app; cbn [length]; lia.
  - unfold cost, ps', entry_bytes, entry_header. rewrite !length_app, length_drop. cbn [fst snd].
    change (e_key e) with key in *. change (e_value e) with value in *.
    pose proof (length_EncodeVarint32 (Z.of_nat (e_shared e))). pose proof (length_EncodeVarint32 (Z.of_nat (length key - e_shared e))).
    pose proof (length_EncodeVarint32 (Z.of_nat (length value))). 
    generalize dependent (e_shared e). intros. destruct restart; rewrite ?length_app; cbn [length]; lia.
Qed.

(** The contents of a block with the given entries. *)
Definition build (interval : Z) (kvs : list (bytes * bytes)) : outcome bytes :=
  b ← BlockBuilder_new interval;
  r ← (add_all kvs;; Finish) b;
  Ok (fst r).

Definition pair_of (e : entry) : bytes * bytes := (e_key e, e_value e).
Definition total_cost (kvs : list (bytes * bytes)) : nat := sum_list_with cost kvs.

(** The block is addressed with 32 bits. *)
Definition fits (kvs : list (bytes * bytes)) : Prop := (Z.of_nat (total_cost kvs) + 8 < 2 ^ 32)%Z.

Lemma run_add_all interval kvs b0 : (1 ≤ interval)%Z → fits kvs → building interval b0 [] [0] →
  ∃ b es ps, add_all kvs b0 = Ok (tt, b) ∧ building interval b es ps ∧ pair_of <$> es = kvs ∧
    length (bytes_of es) + 4 * length ps ≤ total_cost kvs + 4.
Proof.
  intros Hi. unfold add_all, fits. induction kvs as [|kv kvs IH] using rev_ind; intros Hf H0.
  { by exists b0, [], [0]. }
  unfold total_cost in *. rewrite foldl_app. cbn [foldl]. rewrite sum_list_with_app in *. cbn [sum_list_with] in *.
  destruct (IH ltac:(lia) H0) as (b & es & ps & E & Hb & <- & Hsz). rewrite (bind_Ok _ _ _ _ _ E). destruct kv as [k v].
  destruct (run_Add interval b es ps k v Hi Hb) as (b' & e & ps' & E' & <- & <- & Hb' & _ & Hsz'); [unfold cost in *; cbn [fst snd] in *; lia|].
  exists b', (es ++ [e]), ps'. split_and!; [done..|by rewrite fmap_app|]. rewrite bytes_of_snoc, length_app. lia.
Qed.

Lemma put_restarts buf l : foldl PutFixed32 buf l = buf ++ mjoin (EncodeFixed32 <$> l).
Proof.
  revert buf. induction l as [|x l IH]; intros buf; cbn [foldl]; [by rewrite app_nil_r|].
  rewrite IH. unfold PutFixed32. csimpl. by rewrite <-app_assoc.
Qed.

Lemma run_Finish interval b es ps : building interval b es ps → (Z.of_nat (length (bytes_of es) + 4 * length ps) + 4 < 2 ^ 32)%Z →
  ∃ data b', Finish b = Ok (data, b') ∧ block_of data es ps ∧ Z.of_nat (length data) = CurrentSizeEstimate b.
Proof.
  intros [_ Hbuf Hrs _ _ Hlink R _] Hs. unfold Finish. rewrite (bind_Ok _ _ b b b) by done. cbv zeta.
  rewrite put_restarts, Hbuf, Hrs, length_fmap, <-list_fmap_compose, Z.mod_small by lia. unfold PutFixed32.
  rewrite <-app_assoc. change (mjoin _) with (restart_bytes es ps). eexists _, _. split; [done|].
  assert (length (restart_bytes es ps) = 4 * length ps) as Hl by (apply length_mjoin_blocks; intros; apply length_EncodeFixed32).
  split; [split; [done| |done..]|]; rewrite !length_app, length_EncodeFixed32, Hl; [lia|].
  unfold CurrentSizeEstimate. rewrite Hbuf, Hrs, length_fmap. lia.
Qed.

(** ** Opening a block *)

Lemma run_NumRestarts data es ps : block_of data es ps → NumRestarts data (Z.of_nat (length data)) = Ok (Z.of_nat (length ps)).
Proof.
  intros B. pose proof (data_bounds _ _ _ B) as Hb. pose proof (bo_size _ _ _ B).
  pose proof (lookup_lt_Some _ _ _ (rp_first _ _ (bo_points _ _ _ B))).
  unfold NumRestarts. rewrite (proj2 (Z.leb_le _ _)) by lia. cbn [negb].
  assert (slice_at data (Z.of_nat (length data) - 4) 4 = Ok (EncodeFixed32 (Z.of_nat (length ps)))) as ->.
  { rewrite (bo_data _ _ _ B) at 1. rewrite app_assoc, <-(app_nil_r (EncodeFixed32 _)).
    change 4%Z with (Z.of_nat 4) at 2. rewrite <-(length_EncodeFixed32 (Z.of_nat (length ps))).
    replace (_ - _)%Z with (Z.of_nat (length (bytes_of es ++ restart_bytes es ps))); [apply slice_at_app|].
    rewrite Hb, length_app, off_end. unfold restart_bytes.
    rewrite (length_mjoin_blocks _ 4) by (intros; apply length_EncodeFixed32). lia. }
  mred. rewrite <-(app_nil_r (EncodeFixed32 _)). apply DecodeFixed32_write. lia.
Qed.

Lemma run_open data es ps : block_of data es ps →
  ∃ b it, Block_new data = Ok b ∧ contents_ b = data ∧ size_ b = Z.of_nat (length data) ∧
    NewIterator b BlockIter_new = Ok (tt, it) ∧ at_end data es ps it.
Proof.
  intros B. pose proof (data_bounds _ _ _ B) as Hb. pose proof (bo_size _ _ _ B).
  pose proof (lookup_lt_Some _ _ _ (rp_first _ _ (bo_points _ _ _ B))).
  unfold Block_new. cbv zeta. rewrite (proj2 (Z.ltb_ge _ _)), (run_NumRestarts _ _ _ B) by lia. mred.
  assert (u32 (u32 (Z.of_nat (length data)) - u32 (1 + Z.of_nat (length ps)) * 4) = Z.of_nat (off es (length es))) as ->
    by (rewrite !(Z.mod_small) by (rewrite ?Z.mod_small by lia; lia); lia).
  rewrite (proj2 (Z.ltb_ge _ _)) by lia. eexists _, _. do 3 (split; [done|]). unfold NewIterator. cbn [size_ contents_ restart_offset_].
  rewrite (proj2 (Z.ltb_ge _ _)) by lia. rewrite (bind_Ok _ _ _ _ _ (lift_Ok _ _ _ (run_NumRestarts _ _ _ B))).
  rewrite (proj2 (Z.eqb_neq _ _)) by lia. split.
  - unfold BlockIter_Initialize. rewrite (bind_Ok _ _ BlockIter_new BlockIter_new BlockIter_new) by done.
    rewrite (bind_Ok _ _ BlockIter_new tt BlockIter_new) by done.
    rewrite (bind_Ok _ _ BlockIter_new tt BlockIter_new) by (apply assert_true, Z.ltb_lt; lia). done.
  - done.
Qed.

Lemma build_block interval kvs : (1 ≤ interval)%Z → fits kvs →
  ∃ data es ps, build interval kvs = Ok data ∧ block_of data es ps ∧ pair_of <$> es = kvs.
Proof.
  intros Hi Hf. destruct (new_building interval Hi) as (b0 & E0 & H0).
  destruct (run_add_all interval kvs b0 Hi Hf H0) as (b & es & ps & E & Hb & Hes & Hsz). unfold fits in Hf.
  destruct (run_Finish interval b es ps Hb) as (data & b' & Ef & B & _); [lia|].
  exists data, es, ps. unfold build. rewrite E0. mred. by rewrite (bind_Ok _ _ _ _ _ E), Ef.
Qed.

(** ** An iterator is a cursor in the list of entries *)

Section refinement.
Context (comparator_ : bytes → bytes → outcome Z) `{!Comparator comparator_}.
Context (data : bytes) (es : list entry) (ps : list nat) (B : block_of data es ps) (Hkeys : sorted_keys comparator_ (pair_of <$> es)).
Abbreviation kvs := (pair_of <$> es).

Lemma run_shown it i : at_entry data es ps it i →
  ∃ k v, kvs !! i = Some (k, v) ∧ BlockIter_key it = Ok (k, it) ∧ BlockIter_value it = Ok (v, it).
Proof.
  intros Hat. pose proof (at_entry_valid _ _ _ _ _ Hat) as Hv. destruct Hat as ((Hd & _) & e & ri & p & He & _ & Hk & Hval & _).
  exists (e_key e), (e_value e). rewrite list_lookup_fmap, He. split; [done|]. split.
  - unfold BlockIter_key. rewrite (bind_Ok _ _ it it it) by done. rewrite (bind_Ok _ _ it tt it) by by apply assert_true. by rewrite Hk.
  - unfold BlockIter_value, block_data. rewrite (bind_Ok _ _ it it it) by done. rewrite (bind_Ok _ _ it tt it) by by apply assert_true.
    rewrite (bind_Ok _ _ it data it) by (rewrite (bind_Ok _ _ it it it) by done; apply lift_Ok; by rewrite Hd).
    rewrite Hval. mred. rewrite (bind_Ok _ _ it _ it (lift_Ok _ _ _ eq_refl)). cbn [fst snd].
    apply lift_Ok, (value_slice _ _ _ B _ _ He).
Qed.

Lemma move_invalid it : at_end data es ps it → BlockIter_Next it = Err AssertFailed ∧ BlockIter_Prev it = Err AssertFailed.
Proof.
  intros Hv%at_end_invalid. unfold BlockIter_Next, BlockIter_Prev. rewrite !(bind_Ok _ _ it it it) by done. by rewrite Hv.
Qed.

Lemma move_refines o it pos : wf_op comparator_ o → stands data es ps it pos →
  match list_move comparator_ kvs o pos with
  | Ok pos' => ∃ it', iter_move (H := BlockIter_ops comparator_) o it = Ok (tt, it') ∧ stands data es ps it' pos'
  | Err f => iter_move (H := BlockIter_ops comparator_) o it = Err f
  end.
Proof.
  intros Ho Hst. pose proof (stands_over _ _ _ _ _ Hst) as Hov.
  destruct o as [| |target| |]; cbn [list_move iter_move iter_Seek iter_SeekToFirst iter_SeekToLast iter_Next iter_Prev BlockIter_ops]; rewrite ?length_fmap.
  - by apply run_SeekToFirst.
  - by apply run_SeekToLast.
  - rewrite list_find_fmap, <-option_fmap_compose. apply (run_Seek data es ps B comparator_); try done; destruct Hkeys as [Hwf Hss].
    + intros i e He. rewrite Forall_fmap, Forall_lookup in Hwf. by apply (Hwf i).
    + intros i j e e' Hij He He'. apply (sorted_lookup _ kvs i j (pair_of e) (pair_of e') Hss Hij); rewrite list_lookup_fmap.
      * by rewrite He.
      * by rewrite He'.
  - destruct pos as [i|]; [by apply run_BlockNext|by apply move_invalid].
  - destruct pos as [i|]; [by apply run_BlockPrev|by apply move_invalid].
Qed.

Lemma block_cursor : Cursor (H := BlockIter_ops comparator_) comparator_ kvs (stands data es ps).
Proof.
  split.
  - apply stands_valid.
  - intros it pos Hst. by destruct (stands_over _ _ _ _ _ Hst) as (_ & _ & _ & ?).
  - intros it i Hat. destruct (run_shown it i Hat) as (k & v & Hi & Hk & Hv). exists k, v. split; [done|]. cbn. by rewrite Hk, Hv.
  - apply move_refines.
Qed.
End refinement.

(** C39: What a block builder was given is what an iterator over the finished block shows.  For
    keys in strictly increasing order, any restart interval and any sequence of seeks and moves,
    forward and back, the iterator behaves as a cursor in the list of entries: it shows the same
    entries with a good status, [Seek] stops at the first key that is not below the target, and
    a move from an invalid position fails its assertion. *)
Theorem block_iterator_refines_list (comparator_ : bytes → bytes → outcome Z) `{!Comparator comparator_} interval kvs :
  (1 ≤ interval)%Z → fits kvs → sorted_keys comparator_ kvs →
  ∃ data b it, build interval kvs = Ok data ∧ Block_new data = Ok b ∧ NewIterator b BlockIter_new = Ok (tt, it) ∧
    ∀ ops, Forall (wf_op comparator_) ops →
      match list_walk comparator_ kvs ops None with
      | Ok xs => ∃ it', walk (H := BlockIter_ops comparator_) ops it = Ok (xs, it')
      | Err f => walk (H := BlockIter_ops comparator_) ops it = Err f
      end.
Proof.
  intros Hi Hf Hk. destruct (build_block interval kvs Hi Hf) as (data & es & ps & E & B & <-).
  destruct (run_open data es ps B) as (b & it & Eb & _ & _ & Ei & Hend). exists data, b, it. split_and!; [done..|].
  intros ops Hops. by apply (walk_refines comparator_ _ (stands data es ps) (Cursor0 := block_cursor comparator_ data es ps B Hk) ops it None).
Qed.

(** The sizes the builder reports are right: a finished block has the size
    [CurrentSizeEstimate] gave, and [EstimateSizeAfterKV] never gives less than the size the
    block has after that entry is added. *)
Theorem block_size_estimates interval kvs key value :
  (1 ≤ interval)%Z → fits (kvs ++ [(key, value)]) →
  ∃ b0 b b' data b'', BlockBuilder_new interval = Ok b0 ∧ add_all kvs b0 = Ok (tt, b) ∧
    BlockBuilder_Add key value b = Ok (tt, b') ∧ Finish b' = Ok (data, b'') ∧
    Z.of_nat (length data) = CurrentSizeEstimate b' ∧ (CurrentSizeEstimate b' ≤ EstimateSizeAfterKV b key value)%Z.
Proof.
  intros Hi Hf. unfold fits, total_cost in Hf. rewrite sum_list_with_app in Hf. cbn [sum_list_with] in Hf.
  destruct (new_building interval Hi) as (b0 & E0 & H0).
  destruct (run_add_all interval kvs b0 Hi) as (b & es & ps & E & Hb & Hes & Hsz); [unfold fits, total_cost; lia|done|].
  unfold total_cost in Hsz. assert (cost (key, value) = length key + length value + 19) as Hc by done.
  destruct (run_Add interval b es ps key value Hi Hb) as (b' & e & ps' & E' & _ & _ & Hb' & Hest & Hsz'); [lia|].
  destruct (run_Finish interval b' _ _ Hb') as (data & b'' & Ef & _ & Hl); [rewrite bytes_of_snoc, length_app; lia|].
  by exists b0, b, b', data, b''.
Qed.

(** ** The comparator of a table *)

#[export] Instance InternalKeyComparator_laws c `{!UserComparatorLaws c} : Comparator (InternalKeyComparator_Compare c).
Proof.
  exists is_internal (internal_order c).
  - intros a b Ha Hb. by apply run_Compare.
  - intros a b. by apply internal_order_sym.
  - intros a b d. by apply internal_order_trans.
  - intros a b d. by apply internal_order_equal.
Defined.

(** ** A concrete block *)

Definition ex_key (k : string) (n : Z) : bytes := internal (str k) (n * 256 + 1).
Definition ex_entries : list (bytes * bytes) :=
  [(ex_key "apple" 9, str "red"); (ex_key "applet" 4, []); (ex_key "applet" 2, str "small");
   (ex_key "banana" 7, str "yellow")].

Lemma ex_block_fits : fits ex_entries.
Proof. by vm_compute. Qed.

Lemma ex_sorted : sorted_keys (InternalKeyComparator_Compare BytewiseComparator) ex_entries.
Proof.
  split.
  - unfold ex_entries. repeat (constructor; [cbn; unfold is_internal; vm_compute; lia|]). constructor.
  - unfold ex_entries. repeat (constructor; [|repeat constructor; by vm_compute]). constructor.
Qed.

Lemma block_iterator_refines_list_witness :
  ∃ data b it, build 2 ex_entries = Ok data ∧ Block_new data = Ok b ∧ NewIterator b BlockIter_new = Ok (tt, it) ∧
    ∃ it', walk (H := BlockIter_ops (InternalKeyComparator_Compare BytewiseComparator))
      [OpSeek (ex_key "applet" 3); OpPrev; OpSeekToLast; OpNext] it =
      Ok ([(StatusOK, Some (ex_key "applet" 2, str "small")); (StatusOK, Some (ex_key "applet" 4, []));
           (StatusOK, Some (ex_key "banana" 7, str "yellow")); (StatusOK, None)], it').
Proof.
  destruct (block_iterator_refines_list (InternalKeyComparator_Compare BytewiseComparator) 2 ex_entries ltac:(lia) ex_block_fits ex_sorted)
    as (data & b & it & E1 & E2 & E3 & Hw).
  exists data, b, it. split_and!; [exact E1|exact E2|exact E3|].
  apply (Hw [OpSeek (ex_key "applet" 3); OpPrev; OpSeekToLast; OpNext]).
  repeat constructor.
Defined.

Lemma block_size_estimates_witness :
  ∃ b0 b b' data b'', BlockBuilder_new 1 = Ok b0 ∧ add_all (take 3 ex_entries) b0 = Ok (tt, b) ∧
    BlockBuilder_Add (ex_key "banana" 7) (str "yellow") b = Ok (tt, b') ∧ Finish b' = Ok (data, b'') ∧
    Z.of_nat (length data) = CurrentSizeEstimate b' ∧
    (CurrentSizeEstimate b' ≤ EstimateSizeAfterKV b (ex_key "banana" 7) (str "yellow"))%Z.
Proof. exact (block_size_estimates 1 (take 3 ex_entries) (ex_key "banana" 7) (str "yellow") ltac:(lia) ex_block_fits). Defined.

(** ** Damaged blocks *)

Definition bytes_of_Z (l : list Z) : bytes := byte.of_Z <$> l.

(** The lengths 2^32 - 1 and 1 add up to zero, so the entry passes the check of its lengths,
    and its key is read past the end of the block. *)
Definition ex_long_entry : bytes := bytes_of_Z [0; 255; 255; 255; 255; 15; 1; 0; 0; 0; 0; 1; 0; 0; 0]%Z.

Lemma long_entry_read_out_of_bounds :
  ∃ b it, Block_new ex_long_entry = Ok b ∧ NewIterator b BlockIter_new = Ok (tt, it) ∧ BlockIter_SeekToFirst it = Err OutOfBounds.
Proof. eexists _, _. split; [by vm_compute|]. split; [by vm_compute|by vm_compute]. Qed.

(** A block of four to seven bytes fails the assertion of [NumRestarts] before [NewIterator]
    can report it. *)
Lemma short_block_asserts contents : 4 ≤ length contents < 8 → Block_new contents = Err AssertFailed.
Proof.
  intros Hl. unfold Block_new, NumRestarts. cbv zeta. rewrite (proj2 (Z.ltb_ge _ _)) by lia.
  rewrite (proj2 (Z.leb_gt _ _)) by lia. done.
Qed.

(** With 2^30 + 1 restart points the offset of the first one wraps around to a valid one, and
    the last one is read past the end of the block. *)
Definition ex_many_restarts : bytes := bytes_of_Z [0; 0; 0; 0; 1; 0; 0; 64]%Z.

Lemma many_restarts_read_out_of_bounds :
  ∃ b it, Block_new ex_many_restarts = Ok b ∧ NewIterator b BlockIter_new = Ok (tt, it) ∧ BlockIter_SeekToLast it = Err OutOfBounds.
Proof. eexists _, _. split; [by vm_compute|]. split; [by vm_compute|by vm_compute]. Qed.
