(* ===== verification/TwoLevel.v ===== *)
(** * RocksDB: two-level iterators

    Models [src/src/rocksdb/table/iterator_wrapper.h] and [table/two_level_iterator.{h,cc}]: an
    iterator over an index, whose values are handles of blocks, and an iterator over the block
    the index stands at.  If the entries of the blocks lie in order around the keys of the
    index, the two together are a cursor in all entries. *)

From S2P Require Import Prelude Env SkipListLaws Iterator.
From stdpp Require Import sorting.

(** ** The wrapper *)

(** Keeps what the iterator said last. *)
Record IteratorWrapper (I : Type) := mkWrapper { iter_ : option I; valid_ : bool; wkey_ : bytes }.
Arguments mkWrapper {I}.
Arguments iter_ {I}.
Arguments valid_ {I}.
Arguments wkey_ {I}.

Section wrapper.
Context {I : Type} `{IteratorOps I}.
Abbreviation cmd := (prog (IteratorWrapper I)).

Definition wrapper_Update : cmd unit :=
  w ← gets id;
  it ← lift (of_option NullDeref (iter_ w));
  if iter_Valid it then k ← lift (iter_key it); modify (λ w, mkWrapper (iter_ w) true k)
  else modify (λ w, mkWrapper (iter_ w) false (wkey_ w)).

Definition wrapper_Set (it : option I) : cmd unit :=
  modify (λ w, mkWrapper it (valid_ w) (wkey_ w));;
  match it with
  | None => modify (λ w, mkWrapper (iter_ w) false (wkey_ w))
  | Some _ => wrapper_Update
  end.

(** [IteratorWrapper()] *)
Definition wrapper_null : IteratorWrapper I := mkWrapper None false [].

(** [IteratorWrapper(iter)] *)
Definition wrapper_new (it : I) : outcome (IteratorWrapper I) := r ← wrapper_Set (Some it) wrapper_null; Ok (snd r).

Definition wrapper_key (w : IteratorWrapper I) : outcome bytes := if valid_ w then Ok (wkey_ w) else Err AssertFailed.
Definition wrapper_value (w : IteratorWrapper I) : outcome bytes :=
  if valid_ w then it ← of_option NullDeref (iter_ w); iter_value it else Err AssertFailed.
Definition wrapper_status (w : IteratorWrapper I) : outcome Status :=
  it ← of_option AssertFailed (iter_ w); Ok (iter_status it).

(** [Next], [Prev], [Seek], [SeekToFirst] and [SeekToLast] *)
Definition wrapper_move (o : iter_op) : cmd unit :=
  w ← gets id;
  it ← lift (of_option AssertFailed (iter_ w));
  r ← lift (iter_move o it);
  modify (λ w, mkWrapper (Some (snd r)) (valid_ w) (wkey_ w));;
  wrapper_Update.
End wrapper.

(** ** The iterator *)

Record TwoLevelIterator (I J : Type) := mkTwoLevel {
  first_level_iter_ : IteratorWrapper I; second_level_iter_ : IteratorWrapper J; tl_status_ : Status; data_block_handle_ : bytes;
}.
Arguments mkTwoLevel {I J}.
Arguments first_level_iter_ {I J}.
Arguments second_level_iter_ {I J}.
Arguments tl_status_ {I J}.
Arguments data_block_handle_ {I J}.

(** The part of [TwoLevelIteratorState] that a table fills in. *)
Record TwoLevelIteratorState (J : Type) := mkTwoLevelState {
  check_prefix_may_match : bool; PrefixMayMatch : bytes → outcome bool; NewSecondaryIterator : bytes → outcome J;
}.
Arguments mkTwoLevelState {J}.
Arguments check_prefix_may_match {J}.
Arguments PrefixMayMatch {J}.
Arguments NewSecondaryIterator {J}.

(** [Status::IsIncomplete] *)
Definition IsIncomplete (s : Status) : bool := bool_decide (code s = kIncomplete).

Section two_level.
Context {I J : Type} `{IteratorOps I} `{IteratorOps J} (state_ : TwoLevelIteratorState J).

(** More turns than the index has entries. *)
Context (turns : nat).
Abbreviation cmd := (prog (TwoLevelIterator I J)).

Definition on_first {A} (p : prog (IteratorWrapper I) A) : cmd A := λ t,
  r ← p (first_level_iter_ t); Ok (fst r, mkTwoLevel (snd r) (second_level_iter_ t) (tl_status_ t) (data_block_handle_ t)).
Definition on_second {A} (p : prog (IteratorWrapper J) A) : cmd A := λ t,
  r ← p (second_level_iter_ t); Ok (fst r, mkTwoLevel (first_level_iter_ t) (snd r) (tl_status_ t) (data_block_handle_ t)).

Definition NewTwoLevelIterator (first_level_iter : I) : outcome (TwoLevelIterator I J) :=
  w ← wrapper_new first_level_iter; Ok (mkTwoLevel w wrapper_null StatusOK []).

Definition TwoLevel_Valid (t : TwoLevelIterator I J) : bool := valid_ (second_level_iter_ t).
Definition TwoLevel_key (t : TwoLevelIterator I J) : outcome bytes :=
  if TwoLevel_Valid t then wrapper_key (second_level_iter_ t) else Err AssertFailed.
Definition TwoLevel_value (t : TwoLevelIterator I J) : outcome bytes :=
  if TwoLevel_Valid t then wrapper_value (second_level_iter_ t) else Err AssertFailed.

(** The wrapper of the first level never holds a null pointer. *)
Definition TwoLevel_status (t : TwoLevelIterator I J) : Status :=
  match iter_ (first_level_iter_ t) with
  | Some it => if negb (ok (iter_status it)) then iter_status it else
      match iter_ (second_level_iter_ t) with
      | Some it => if negb (ok (iter_status it)) then iter_status it else tl_status_ t
      | None => tl_status_ t
      end
  | None => tl_status_ t
  end.

Definition SaveError (s : Status) : cmd unit :=
  modify (λ t, if ok (tl_status_ t) && negb (ok s) then mkTwoLevel (first_level_iter_ t) (second_level_iter_ t) s (data_block_handle_ t) else t).

Definition SetSecondLevelIterator (it : option J) : cmd unit :=
  t ← gets id;
  match iter_ (second_level_iter_ t) with
  | Some _ => s ← lift (wrapper_status (second_level_iter_ t)); SaveError s
  | None => mret tt
  end;;
  on_second (wrapper_Set it).

Definition InitDataBlock : cmd unit :=
  t ← gets id;
  if negb (valid_ (first_level_iter_ t)) then SetSecondLevelIterator None else
  handle ← lift (wrapper_value (first_level_iter_ t));
  let same :=
    match iter_ (second_level_iter_ t) with
    | Some it => negb (IsIncomplete (iter_status it)) && bool_decide (handle = data_block_handle_ t)
    | None => false
    end in
  if same then mret tt else
  it ← lift (NewSecondaryIterator state_ handle);
  modify (λ t, mkTwoLevel (first_level_iter_ t) (second_level_iter_ t) (tl_status_ t) handle);;
  SetSecondLevelIterator (Some it).

(** [if (second_level_iter_.iter() != nullptr) …] *)
Definition second_move (o : iter_op) : cmd unit :=
  t ← gets id;
  match iter_ (second_level_iter_ t) with Some _ => on_second (wrapper_move o) | None => mret tt end.

(** The condition of both loops. *)
Definition block_done (t : TwoLevelIterator I J) : bool :=
  match iter_ (second_level_iter_ t) with
  | None => true
  | Some it => negb (valid_ (second_level_iter_ t)) && negb (IsIncomplete (iter_status it))
  end.

(** The two loops: [Next] to the first entry of a block, or [Prev] to the last one. *)
Fixpoint skip_blocks (fuel : nat) (step start : iter_op) : cmd unit :=
  t ← gets id;
  if negb (block_done t) then mret tt else
  match fuel with
  | O => fail OutOfFuel
  | S fuel =>
      if negb (valid_ (first_level_iter_ t)) then SetSecondLevelIterator None else
      on_first (wrapper_move step);;
      InitDataBlock;;
      second_move start;;
      skip_blocks fuel step start
  end.
Definition SkipEmptyDataBlocksForward : cmd unit := skip_blocks turns OpNext OpSeekToFirst.
Definition SkipEmptyDataBlocksBackward : cmd unit := skip_blocks turns OpPrev OpSeekToLast.

Definition TwoLevel_Seek (target : bytes) : cmd unit :=
  may ← (if check_prefix_may_match state_ then lift (PrefixMayMatch state_ target) else mret true);
  if negb may then SetSecondLevelIterator None else
  on_first (wrapper_move (OpSeek target));;
  InitDataBlock;;
  second_move (OpSeek target);;
  SkipEmptyDataBlocksForward.

Definition TwoLevel_SeekToFirst : cmd unit :=
  on_first (wrapper_move OpSeekToFirst);; InitDataBlock;; second_move OpSeekToFirst;; SkipEmptyDataBlocksForward.

Definition TwoLevel_SeekToLast : cmd unit :=
  on_first (wrapper_move OpSeekToLast);; InitDataBlock;; second_move OpSeekToLast;; SkipEmptyDataBlocksBackward.

Definition TwoLevel_Next : cmd unit :=
  t ← gets id;
  assert (TwoLevel_Valid t);;
  on_second (wrapper_move OpNext);;
  SkipEmptyDataBlocksForward.

Definition TwoLevel_Prev : cmd unit :=
  t ← gets id;
  assert (TwoLevel_Valid t);;
  on_second (wrapper_move OpPrev);;
  SkipEmptyDataBlocksBackward.

#[export] Instance TwoLevel_ops : IteratorOps (TwoLevelIterator I J) := {|
  iter_Valid := TwoLevel_Valid;
  iter_key := TwoLevel_key;
  iter_value := TwoLevel_value;
  iter_status := TwoLevel_status;
  iter_Seek := TwoLevel_Seek;
  iter_SeekToFirst := TwoLevel_SeekToFirst;
  iter_SeekToLast := TwoLevel_SeekToLast;
  iter_Next := TwoLevel_Next;
  iter_Prev := TwoLevel_Prev;
|}.
End two_level.

(** ** Two levels are one list *)

Section spec.
Context (compare_ : bytes → bytes → outcome Z) `{!Comparator compare_}.
Context {I J : Type} `{HI : IteratorOps I} `{HJ : IteratorOps J} (state_ : TwoLevelIteratorState J) (turns : nat).

(** The index and the blocks its handles stand for. *)
Context (index : list (bytes * bytes)) (blocks : list (list (bytes * bytes))).
Context (stands1 : I → option nat → Prop) (stands2 : nat → J → option nat → Prop).
Abbreviation all := (mjoin blocks).
Abbreviation less a b := (key_order compare_ a b < 0)%Z.

Record two_levels : Prop := {
  tl_first : Cursor compare_ index stands1;
  tl_second j b : blocks !! j = Some b → Cursor compare_ b (stands2 j);
  tl_length : length index = length blocks;
  tl_new j k h : index !! j = Some (k, h) → ∃ it pos, NewSecondaryIterator state_ h = Ok it ∧ stands2 j it pos;
  tl_handles j j' k k' h : index !! j = Some (k, h) → index !! j' = Some (k', h) → j = j';
  tl_nonempty j b : blocks !! j = Some b → b ≠ [];
  tl_last j k h b kv : index !! j = Some (k, h) → blocks !! j = Some b → kv ∈ b → ¬ less k (fst kv);
  tl_next j k h b kv : index !! j = Some (k, h) → blocks !! S j = Some b → kv ∈ b → less k (fst kv);
  tl_no_prefix : check_prefix_may_match state_ = false;
  tl_turns : 2 ≤ turns;
}.
Context (T : two_levels).
#[local] Existing Instance tl_first.
Implicit Types (t : TwoLevelIterator I J).

(** What the wrapper of the second level holds: a block and a position in it, or nothing. *)
Definition holds (w : IteratorWrapper J) (handle : bytes) (sec : option (nat * option nat)) : Prop :=
  match sec with
  | None => iter_ w = None ∧ valid_ w = false
  | Some (j, p) => ∃ it, iter_ w = Some it ∧ stands2 j it p ∧ valid_ w = bool_decide (is_Some p) ∧
      (is_Some p → iter_key it = Ok (wkey_ w)) ∧ ∃ k, index !! j = Some (k, handle)
  end.

Definition level (t : TwoLevelIterator I J) (fpos : option nat) (sec : option (nat * option nat)) : Prop :=
  (∃ it, iter_ (first_level_iter_ t) = Some it ∧ stands1 it fpos ∧ valid_ (first_level_iter_ t) = bool_decide (is_Some fpos)) ∧
  holds (second_level_iter_ t) (data_block_handle_ t) sec ∧ tl_status_ t = StatusOK.

Section wrapped.
Context {K : Type} `{HK : IteratorOps K} (kvs : list (bytes * bytes)) (stands : K → option nat → Prop) `{!Cursor compare_ kvs stands}.

Lemma run_wrapper_Update w it p : iter_ w = Some it → stands it p →
  ∃ w', wrapper_Update w = Ok (tt, w') ∧ iter_ w' = Some it ∧ valid_ w' = bool_decide (is_Some p) ∧ (is_Some p → iter_key it = Ok (wkey_ w')).
Proof.
  intros Hit Hst. unfold wrapper_Update. rewrite (bind_Ok _ _ w w w) by done. rewrite Hit. mred. rewrite (bind_Ok _ _ w it w) by done.
  rewrite (cursor_valid compare_ _ _ Hst). destruct p as [i|].
  - destruct (cursor_entry compare_ _ _ Hst) as (k & v & _ & Hk & _). cbn. rewrite (bind_Ok _ _ w k w) by (by apply lift_Ok).
    eexists. split; [done|]. by rewrite Hit.
  - eexists. split; [done|]. cbn. rewrite Hit. split_and!; [done..|]. by intros [? [=]].
Qed.

Lemma run_wrapper_move w it p o p' : wf_op compare_ o → iter_ w = Some it → stands it p → list_move compare_ kvs o p = Ok p' →
  ∃ w' it', wrapper_move o w = Ok (tt, w') ∧ iter_ w' = Some it' ∧ stands it' p' ∧ valid_ w' = bool_decide (is_Some p') ∧
    (is_Some p' → iter_key it' = Ok (wkey_ w')).
Proof.
  intros Ho Hit Hst Hm. pose proof (cursor_move compare_ o it p Ho Hst) as Hmv. rewrite Hm in Hmv. destruct Hmv as (it' & E & Hst').
  unfold wrapper_move. rewrite (bind_Ok _ _ w w w) by done. rewrite Hit. mred. rewrite (bind_Ok _ _ w it w) by done.
  rewrite E. rewrite (bind_Ok _ _ w _ w (lift_Ok _ _ _ eq_refl)). cbn [snd].
  set (w1 := mkWrapper (Some it') (valid_ w) (wkey_ w)). rewrite (bind_Ok _ _ w tt w1) by done.
  destruct (run_wrapper_Update w1 it' p' eq_refl Hst') as (w' & E' & Hit' & Hv & Hk). exists w', it'. by rewrite E'.
Qed.
End wrapped.

Lemma holds_cursor w h j p : holds w h (Some (j, p)) → ∃ b, blocks !! j = Some b ∧ Cursor compare_ b (stands2 j).
Proof.
  intros (it & _ & _ & _ & _ & k & Hk). apply lookup_lt_Some in Hk. rewrite (tl_length T) in Hk.
  destruct (lookup_lt_is_Some_2 blocks j Hk) as [b Hb]. exists b. split; [done|]. by apply (tl_second T).
Qed.

Lemma holds_status w h sec it : holds w h sec → iter_ w = Some it → iter_status it = StatusOK.
Proof.
  destruct sec as [[j p]|]; [|intros [E _] ?; congruence]. intros Hh Hit. destruct (holds_cursor _ _ _ _ Hh) as (b & _ & C).
  destruct Hh as (it' & Hit' & Hst & _). assert (it' = it) as -> by congruence. apply (cursor_status compare_ _ _ Hst).
Qed.

Lemma run_first t fpos sec o fpos' : wf_op compare_ o → level t fpos sec → list_move compare_ index o fpos = Ok fpos' →
  ∃ t', on_first (wrapper_move o) t = Ok (tt, t') ∧ level t' fpos' sec.
Proof.
  intros Ho ((it & Hit & Hst & Hv) & Hh & Hs) Hm.
  destruct (run_wrapper_move index stands1 (Cursor0 := tl_first T) _ it fpos o fpos' Ho Hit Hst Hm) as (w' & it' & E & Hit' & Hst' & Hv' & _).
  unfold on_first. rewrite E. eexists. split; [done|]. split; [by exists it'|done].
Qed.

Lemma run_second t fpos j p b o p' : wf_op compare_ o → level t fpos (Some (j, p)) → blocks !! j = Some b → list_move compare_ b o p = Ok p' →
  ∃ t', on_second (wrapper_move o) t = Ok (tt, t') ∧ level t' fpos (Some (j, p')).
Proof.
  intros Ho (Hf & Hh & Hs) Hb Hm. pose proof (tl_second T j b Hb) as C. destruct Hh as (it & Hit & Hst & Hv & _ & Hk).
  destruct (run_wrapper_move b (stands2 j) _ it p o p' Ho Hit Hst Hm) as (w' & it' & E & Hit' & Hst' & Hv' & Hk').
  unfold on_second. rewrite E. eexists. split; [done|]. split; [done|]. split; [|done]. by exists it'.
Qed.

Lemma run_second_move t fpos sec o : wf_op compare_ o → level t fpos sec →
  match sec with
  | None => second_move o t = Ok (tt, t)
  | Some (j, p) => ∀ b p', blocks !! j = Some b → list_move compare_ b o p = Ok p' →
      ∃ t', second_move o t = Ok (tt, t') ∧ level t' fpos (Some (j, p'))
  end.
Proof.
  intros Ho Hl. unfold second_move. destruct sec as [[j p]|].
  - intros b p' Hb Hm. rewrite (bind_Ok _ _ t t t) by done. destruct (Hl) as (_ & (it & -> & _) & _). by apply (run_second t fpos j p b).
  - rewrite (bind_Ok _ _ t t t) by done. destruct Hl as (_ & [-> _] & _). done.
Qed.

Lemma run_SetSecond t o : tl_status_ t = StatusOK → (∀ it, iter_ (second_level_iter_ t) = Some it → iter_status it = StatusOK) →
  SetSecondLevelIterator o t = on_second (wrapper_Set o) t.
Proof.
  intros Hs Hok. unfold SetSecondLevelIterator. rewrite (bind_Ok _ _ t t t) by done.
  destruct (iter_ (second_level_iter_ t)) as [it|] eqn:E; [|by rewrite (bind_Ok _ _ t tt t) by done].
  rewrite (bind_Ok _ _ t tt t); [done|]. unfold wrapper_status. rewrite E. mred. rewrite (bind_Ok _ _ t _ t (lift_Ok _ _ _ eq_refl)).
  rewrite (Hok it eq_refl). unfold SaveError, modify. by rewrite Hs.
Qed.

Lemma run_SetSecond_None t fpos sec : level t fpos sec → ∃ t', SetSecondLevelIterator None t = Ok (tt, t') ∧ level t' fpos None.
Proof.
  intros (Hf & Hh & Hs). rewrite run_SetSecond by (eauto using holds_status). eexists. split; [done|]. split; [done|]. done.
Qed.

Lemma run_InitDataBlock t fpos sec : level t fpos sec →
  ∃ t', InitDataBlock state_ t = Ok (tt, t') ∧
    match fpos with None => level t' None None | Some j => ∃ p, level t' (Some j) (Some (j, p)) end.
Proof.
  intros Hl. unfold InitDataBlock. rewrite (bind_Ok _ _ t t t) by done. pose proof Hl as ((it1 & Hit1 & Hst1 & Hv1) & Hh & Hs).
  rewrite Hv1. destruct fpos as [j|]; [|apply (run_SetSecond_None t None sec Hl)]. cbn [negb bool_decide].
  destruct (cursor_entry compare_ (Cursor := tl_first T) _ _ Hst1) as (k & h & Hi & _ & Hval).
  rewrite bool_decide_true by (by eexists). cbn [negb].
  rewrite (bind_Ok _ _ t h t).
  2:{ apply lift_Ok. unfold wrapper_value. rewrite Hv1, Hit1, bool_decide_true by (by eexists). done. }
  cbv zeta. destruct (match iter_ (second_level_iter_ t) with Some _ => _ | None => false end) eqn:Esame.
  - exists t. split; [done|]. destruct sec as [[j' p]|]; [|by destruct Hh as [E _]; rewrite E in Esame].
    destruct Hh as (it & Hit & Hrest). pose proof Hrest as (_ & _ & _ & k' & Hk'). rewrite Hit in Esame.
    apply andb_true_iff in Esame as [_ Eh%bool_decide_eq_true_1]. rewrite Eh in Hi.
    rewrite <-(tl_handles T _ _ _ _ _ Hk' Hi) in *. exists p. split; [by exists it1|]. split; [by exists it|done].
  - destruct (tl_new T j k h Hi) as (it & p & Enew & Hst). rewrite (bind_Ok _ _ t it t) by (by apply lift_Ok).
    set (t1 := mkTwoLevel (first_level_iter_ t) (second_level_iter_ t) (tl_status_ t) h). rewrite (bind_Ok _ _ t tt t1) by done.
    rewrite run_SetSecond by (done || (intros it' Hit'; by eapply holds_status)).
    destruct (lookup_lt_is_Some_2 blocks j) as [b Hb]; [rewrite <-(tl_length T); by eapply lookup_lt_Some|].
    pose proof (tl_second T j b Hb) as C. set (w := second_level_iter_ t).
    destruct (run_wrapper_Update b (stands2 j) (mkWrapper (Some it) (valid_ w) (wkey_ w)) it p eq_refl Hst) as (w' & E & Hit' & Hv' & Hk').
    unfold on_second, wrapper_Set. change (second_level_iter_ t1) with w.
    rewrite (bind_Ok _ _ w tt (mkWrapper (Some it) (valid_ w) (wkey_ w))) by done. rewrite E.
    eexists. split; [done|]. exists p. split; [by exists it1|]. split; [|done]. exists it. split_and!; [done..|by exists k].
Qed.

Lemma run_block_done t fpos sec : level t fpos sec →
  block_done t = match sec with Some (_, Some _) => false | _ => true end.
Proof.
  intros (_ & Hh & _). unfold block_done. destruct sec as [[j p]|]; [|by destruct Hh as [-> _]].
  destruct Hh as (it & Hit & Hrest). rewrite Hit. pose proof Hrest as (_ & -> & _).
  rewrite (holds_status (second_level_iter_ t) (data_block_handle_ t) (Some (j, p)) it) by (done || by exists it). by destruct p.
Qed.

(** One turn of a loop, and the loop where it stops. *)
Lemma skip_stop fuel step start t fpos j i : level t fpos (Some (j, Some i)) → skip_blocks state_ fuel step start t = Ok (tt, t).
Proof.
  intros Hl. pose proof (run_block_done _ _ _ Hl) as Hd. destruct fuel; cbn [skip_blocks]; rewrite (bind_Ok _ _ t t t) by done; by rewrite Hd.
Qed.

Lemma skip_exhausted fuel step start t sec : level t None sec → match sec with Some (_, Some _) => False | _ => True end →
  ∃ t', skip_blocks state_ (S fuel) step start t = Ok (tt, t') ∧ level t' None None.
Proof.
  intros Hl Hsec. pose proof (run_block_done _ _ _ Hl) as Hd. cbn [skip_blocks]. rewrite (bind_Ok _ _ t t t) by done.
  rewrite Hd. destruct sec as [[j [i|]]|]; [done|..]; cbn [negb];
    (destruct (Hl) as ((it & _ & _ & ->) & _); rewrite bool_decide_false by (by intros []); by eapply run_SetSecond_None).
Qed.

Lemma run_skip step start t j fpos' (sp : list (bytes * bytes) → nat) :
  wf_op compare_ step → wf_op compare_ start → level t (Some j) (Some (j, None)) → list_move compare_ index step (Some j) = Ok fpos' →
  (∀ b p, b ≠ [] → list_move compare_ b start p = Ok (Some (sp b))) →
  ∃ t', skip_blocks state_ turns step start t = Ok (tt, t') ∧
    match fpos' with None => level t' None None | Some j' => ∃ b, blocks !! j' = Some b ∧ level t' (Some j') (Some (j', Some (sp b))) end.
Proof.
  intros Hstep Hstart Hl Hm Hsp. pose proof (tl_turns T). destruct turns as [|[|n]]; [lia..|]. cbn [skip_blocks].
  rewrite (bind_Ok _ _ t t t) by done. rewrite (run_block_done _ _ _ Hl). cbn [negb].
  destruct (Hl) as ((it & _ & _ & ->) & _). rewrite bool_decide_true by (by eexists). cbn [negb].
  destruct (run_first t (Some j) _ step fpos' Hstep Hl Hm) as (t1 & E1 & Hl1). rewrite (bind_Ok _ _ _ _ _ E1).
  destruct (run_InitDataBlock t1 fpos' _ Hl1) as (t2 & E2 & Hl2). rewrite (bind_Ok _ _ _ _ _ E2). destruct fpos' as [j'|].
  - destruct Hl2 as (p & Hl2). destruct (holds_cursor _ _ _ _ (proj1 (proj2 Hl2))) as (b & Hb & _).
    destruct (run_second_move t2 _ _ start Hstart Hl2 b (Some (sp b)) Hb) as (t3 & E3 & Hl3); [apply Hsp, (tl_nonempty T _ _ Hb)|].
    rewrite (bind_Ok _ _ _ _ _ E3). exists t3. split; [|by exists b]. apply (skip_stop (S n) step start t3 _ _ _ Hl3).
  - rewrite (bind_Ok _ _ _ _ _ (run_second_move t2 _ _ start Hstart Hl2)). by apply (skip_exhausted n step start t2 None).
Qed.

(** *** Positions *)

Definition base (j : nat) : nat := length (mjoin (take j blocks)).

Lemma base_succ j b : blocks !! j = Some b → base (S j) = base j + length b.
Proof. intros Hb. unfold base. rewrite (take_S_r _ _ _ Hb), join_app. cbn. by rewrite !length_app, Nat.add_0_r. Qed.

Lemma base_end : base (length blocks) = length all.
Proof. unfold base. by rewrite firstn_all. Qed.

Lemma all_split j b : blocks !! j = Some b → all = mjoin (take j blocks) ++ b ++ mjoin (drop (S j) blocks).
Proof. intros Hb. rewrite <-(take_drop_middle blocks j b Hb) at 1. by rewrite join_app. Qed.

Lemma all_lookup j b i : blocks !! j = Some b → i < length b → all !! (base j + i) = b !! i.
Proof. intros Hb Hi. rewrite (all_split j b Hb), lookup_app_r, Nat.add_comm, Nat.add_sub, lookup_app_l by (unfold base; lia). done. Qed.

Lemma base_le j : j ≤ length blocks → base j ≤ length all.
Proof. intros Hj. rewrite <-(take_drop j blocks) at 1. rewrite join_app, length_app. unfold base. lia. Qed.

Lemma block_length j b : blocks !! j = Some b → 0 < length b.
Proof. intros Hb. pose proof (tl_nonempty T _ _ Hb). destruct b; [done|cbn; lia]. Qed.

Definition tl_stands t (pos : option nat) : Prop :=
  match pos with
  | None => ∃ fpos, level t fpos None
  | Some g => ∃ j i b, blocks !! j = Some b ∧ i < length b ∧ g = base j + i ∧ level t (Some j) (Some (j, Some i))
  end.

Lemma tl_stands_valid t pos : tl_stands t pos → TwoLevel_Valid t = bool_decide (is_Some pos).
Proof.
  unfold TwoLevel_Valid. destruct pos as [g|].
  - intros (j & i & b & _ & _ & _ & _ & (it & _ & _ & -> & _) & _). by rewrite !bool_decide_true by (by eexists).
  - intros (fpos & _ & [_ ->] & _). rewrite bool_decide_false by (by intros []). done.
Qed.

Lemma tl_stands_level t pos : tl_stands t pos → ∃ fpos sec, level t fpos sec.
Proof. destruct pos; [intros (j & i & b & _ & _ & _ & ?)|intros (fpos & ?)]; eauto. Qed.

(** The beginning of the three ways to seek. *)
Lemma run_enter t fpos sec o fpos' (sp : list (bytes * bytes) → option nat) (k : prog (TwoLevelIterator I J) unit) :
  level t fpos sec → wf_op compare_ o → list_move compare_ index o fpos = Ok fpos' → (∀ b p, list_move compare_ b o p = Ok (sp b)) →
  ∃ t', (on_first (wrapper_move o);; InitDataBlock state_;; second_move o;; k) t = k t' ∧
    match fpos' with None => level t' None None | Some j => ∃ b, blocks !! j = Some b ∧ level t' (Some j) (Some (j, sp b)) end.
Proof.
  intros Hl Ho Hm Hsp. destruct (run_first t fpos sec o fpos' Ho Hl Hm) as (t1 & E1 & Hl1). rewrite (bind_Ok _ _ _ _ _ E1).
  destruct (run_InitDataBlock t1 fpos' _ Hl1) as (t2 & E2 & Hl2). rewrite (bind_Ok _ _ _ _ _ E2). destruct fpos' as [j|].
  - destruct Hl2 as (p & Hl2). destruct (holds_cursor _ _ _ _ (proj1 (proj2 Hl2))) as (b & Hb & _).
    destruct (run_second_move t2 _ _ o Ho Hl2 b (sp b) Hb) as (t3 & E3 & Hl3); [apply Hsp|].
    rewrite (bind_Ok _ _ _ _ _ E3). exists t3. split; [done|]. by exists b.
  - rewrite (bind_Ok _ _ _ _ _ (run_second_move t2 _ _ o Ho Hl2)). by exists t2.
Qed.

(** [SkipEmptyDataBlocksForward] and [SkipEmptyDataBlocksBackward], where they may stand. *)
Lemma run_stay step start t j b i : blocks !! j = Some b → i < length b → level t (Some j) (Some (j, Some i)) →
  ∃ t', skip_blocks state_ turns step start t = Ok (tt, t') ∧ tl_stands t' (Some (base j + i)).
Proof. intros Hb Hi Hl. exists t. rewrite (skip_stop _ _ _ _ _ _ _ Hl). split; [done|]. by exists j, i, b. Qed.

Lemma run_nowhere step start t : level t None None → ∃ t', skip_blocks state_ turns step start t = Ok (tt, t') ∧ tl_stands t' None.
Proof.
  intros Hl. pose proof (tl_turns T). destruct turns as [|n]; [lia|].
  destruct (skip_exhausted n step start t None Hl Logic.I) as (t' & E & Hl'). exists t'. split; [done|]. by exists None.
Qed.

Lemma run_forward t j b : blocks !! j = Some b → level t (Some j) (Some (j, None)) →
  ∃ t', SkipEmptyDataBlocksForward state_ turns t = Ok (tt, t') ∧
    tl_stands t' (if decide (base (S j) < length all) then Some (base (S j)) else None).
Proof.
  intros Hb Hl. unfold SkipEmptyDataBlocksForward. pose proof (lookup_lt_Some _ _ _ Hb).
  destruct (run_skip OpNext OpSeekToFirst t j (if decide (S j < length index) then Some (S j) else None) (λ _, 0)) as (t' & E & Hl'); [done..| |].
  { intros b' p Hne. cbn. rewrite decide_True; [done|]. destruct b'; [done|cbn; lia]. }
  exists t'. split; [done|]. rewrite (tl_length T) in Hl'. destruct (decide (S j < length blocks)) as [Hlt|Hge].
  - destruct Hl' as (b' & Hb' & Hl'). pose proof (block_length _ _ Hb'). pose proof (base_succ _ _ Hb'). pose proof (base_le (S (S j)) ltac:(lia)).
    rewrite decide_True by lia. exists (S j), 0, b'. split_and!; [done..|lia|done].
  - replace (S j) with (length blocks) by lia. rewrite base_end, decide_False by lia. by exists None.
Qed.

Lemma run_backward t j b : blocks !! j = Some b → level t (Some j) (Some (j, None)) →
  ∃ t', SkipEmptyDataBlocksBackward state_ turns t = Ok (tt, t') ∧ tl_stands t' (match base j with O => None | S g => Some g end).
Proof.
  intros Hb Hl. unfold SkipEmptyDataBlocksBackward. pose proof (lookup_lt_Some _ _ _ Hb).
  destruct (run_skip OpPrev OpSeekToLast t j (match j with O => None | S j => Some j end) (λ b, length b - 1)) as (t' & E & Hl'); [done..| |].
  { intros b' p Hne. cbn. rewrite decide_True; [done|]. destruct b'; [done|cbn; lia]. }
  exists t'. split; [done|]. destruct j as [|j]; [by exists None|].
  destruct Hl' as (b' & Hb' & Hl'). pose proof (block_length _ _ Hb'). rewrite (base_succ _ _ Hb').
  replace (base j + length b') with (S (base j + (length b' - 1))) by lia. exists j, (length b' - 1), b'. split_and!; [done|lia|done|done].
Qed.

Lemma run_tl_SeekToFirst t pos : tl_stands t pos →
  ∃ t', TwoLevel_SeekToFirst state_ turns t = Ok (tt, t') ∧ tl_stands t' (if decide (0 < length all) then Some 0 else None).
Proof.
  intros (fpos & sec & Hl)%tl_stands_level. unfold TwoLevel_SeekToFirst.
  destruct (run_enter t fpos sec OpSeekToFirst _ (λ b, if decide (0 < length b) then Some 0 else None) (SkipEmptyDataBlocksForward state_ turns)
    Hl Logic.I eq_refl ltac:(done)) as (t1 & -> & Hl1). rewrite (tl_length T) in Hl1. destruct (decide (0 < length blocks)) as [Hlt|Hge].
  - destruct Hl1 as (b & Hb & Hl1). pose proof (block_length _ _ Hb). rewrite decide_True in Hl1 by done.
    pose proof (base_succ _ _ Hb). pose proof (base_le 1 ltac:(lia)). rewrite decide_True by lia.
    apply (run_stay _ _ t1 0 b 0 Hb ltac:(done) Hl1).
  - destruct blocks as [|]; [|cbn in Hge; lia]. by apply run_nowhere.
Qed.

Lemma run_tl_SeekToLast t pos : tl_stands t pos →
  ∃ t', TwoLevel_SeekToLast state_ turns t = Ok (tt, t') ∧ tl_stands t' (if decide (0 < length all) then Some (length all - 1) else None).
Proof.
  intros (fpos & sec & Hl)%tl_stands_level. unfold TwoLevel_SeekToLast.
  destruct (run_enter t fpos sec OpSeekToLast _ (λ b, if decide (0 < length b) then Some (length b - 1) else None) (SkipEmptyDataBlocksBackward state_ turns)
    Hl Logic.I eq_refl ltac:(done)) as (t1 & -> & Hl1). rewrite (tl_length T) in Hl1. destruct (decide (0 < length blocks)) as [Hlt|Hge].
  - destruct Hl1 as (b & Hb & Hl1). pose proof (block_length _ _ Hb). rewrite decide_True in Hl1 by done.
    pose proof (base_succ _ _ Hb) as Hs. replace (S (length blocks - 1)) with (length blocks) in Hs by lia. rewrite base_end in Hs.
    rewrite decide_True by lia. replace (length all - 1) with (base (length blocks - 1) + (length b - 1)) by lia.
    apply (run_stay _ _ t1 (length blocks - 1) b (length b - 1) Hb ltac:(lia) Hl1).
  - destruct blocks as [|]; [|cbn in Hge; lia]. by apply run_nowhere.
Qed.

Lemma run_tl_Next t g : tl_stands t (Some g) →
  ∃ t', TwoLevel_Next state_ turns t = Ok (tt, t') ∧ tl_stands t' (if decide (S g < length all) then Some (S g) else None).
Proof.
  intros Hst. unfold TwoLevel_Next. rewrite (bind_Ok _ _ t t t) by done.
  rewrite (bind_Ok _ _ t tt t) by (apply assert_true; by rewrite (tl_stands_valid _ _ Hst), bool_decide_true by (by eexists)).
  destruct Hst as (j & i & b & Hb & Hi & -> & Hl). pose proof (base_succ _ _ Hb) as Hbs. pose proof (lookup_lt_Some _ _ _ Hb).
  destruct (run_second t (Some j) j (Some i) b OpNext _ Logic.I Hl Hb eq_refl) as (t1 & E1 & Hl1). rewrite (bind_Ok _ _ _ _ _ E1).
  case_decide as Hd.
  - pose proof (base_le (S j) ltac:(lia)). rewrite decide_True by lia. rewrite <-Nat.add_succ_r. by apply (run_stay _ _ t1 j b).
  - destruct (run_forward t1 j b Hb Hl1) as (t2 & E2 & Hst2). exists t2. split; [done|]. by replace (S (base j + i)) with (base (S j)) by lia.
Qed.

Lemma run_tl_Prev t g : tl_stands t (Some g) →
  ∃ t', TwoLevel_Prev state_ turns t = Ok (tt, t') ∧ tl_stands t' (match g with O => None | S g => Some g end).
Proof.
  intros Hst. unfold TwoLevel_Prev. rewrite (bind_Ok _ _ t t t) by done.
  rewrite (bind_Ok _ _ t tt t) by (apply assert_true; by rewrite (tl_stands_valid _ _ Hst), bool_decide_true by (by eexists)).
  destruct Hst as (j & i & b & Hb & Hi & -> & Hl).
  destruct (run_second t (Some j) j (Some i) b OpPrev _ Logic.I Hl Hb eq_refl) as (t1 & E1 & Hl1). rewrite (bind_Ok _ _ _ _ _ E1).
  destruct i as [|i].
  - rewrite Nat.add_0_r. by apply (run_backward t1 j b).
  - rewrite Nat.add_succ_r. apply (run_stay _ _ t1 j b i Hb ltac:(lia) Hl1).
Qed.

(** *** Seeking *)

Section seek.
Context (target : bytes).
Abbreviation reached := (λ kv : bytes * bytes, 0 ≤ key_order compare_ (fst kv) target)%Z.

(** The blocks before the one whose key in the index reaches the target are below it. *)
Lemma below_index j : j ≤ length blocks → (∀ j' k h, j' < j → index !! j' = Some (k, h) → less k target) →
  list_find reached (mjoin (take j blocks)) = None.
Proof.
  intros Hj Hbelow. apply list_find_None, Forall_forall. intros kv (b & Hkv & Hb)%list_elem_of_join Hre.
  apply list_elem_of_lookup in Hb as (j' & Hb). apply lookup_take_Some in Hb as [Hb Hlt].
  destruct (lookup_lt_is_Some_2 index j') as [[k h] Hk]; [rewrite (tl_length T); lia|].
  pose proof (tl_last T j' k h b kv Hk Hb Hkv) as Hnl. pose proof (Hbelow j' k h Hlt Hk) as Hkt.
  pose proof (compare_sym (compare_ := compare_) k (fst kv)). pose proof (order_le_lt compare_ (fst kv) k target). lia.
Qed.

(** The block after it begins at the target or above. *)
Lemma next_reaches j k h b kv : index !! j = Some (k, h) → ¬ less k target → blocks !! S j = Some b → kv ∈ b → reached kv.
Proof.
  intros Hk Hre Hb Hkv. pose proof (tl_next T j k h b kv Hk Hb Hkv). pose proof (compare_trans (compare_ := compare_) k (fst kv) target). cbn. lia.
Qed.

Lemma run_tl_Seek t pos : wf_key compare_ target → tl_stands t pos →
  ∃ t', TwoLevel_Seek state_ turns target t = Ok (tt, t') ∧ tl_stands t' (fst <$> list_find reached all).
Proof.
  intros Hwf (fpos & sec & Hl)%tl_stands_level. unfold TwoLevel_Seek. rewrite (tl_no_prefix T), (bind_Ok _ _ t true t) by done. cbn [negb].
  destruct (run_enter t fpos sec (OpSeek target) _ (λ b, fst <$> list_find reached b) (SkipEmptyDataBlocksForward state_ turns)
    Hl Hwf eq_refl ltac:(done)) as (t1 & -> & Hl1).
  destruct (list_find _ index) as [[j [k h]]|] eqn:Ef; cbn in Hl1.
  - apply list_find_Some in Ef as (Hk & Hre & Hbefore). cbn in Hre. destruct Hl1 as (b & Hb & Hl1). pose proof (lookup_lt_Some _ _ _ Hb).
    rewrite (all_split j b Hb), list_find_app_r.
    2:{ apply below_index; [lia|]. intros j' k' h' Hlt Hk'. specialize (Hbefore j' (k', h') Hk' Hlt). cbn in Hbefore. lia. }
    destruct (list_find reached b) as [[i kv]|] eqn:Eb; cbn in Hl1.
    + rewrite (list_find_app_l _ _ _ _ _ Eb). cbn. rewrite Nat.add_comm. apply list_find_Some in Eb as [Hi _].
      apply (run_stay _ _ t1 j b i Hb); [by eapply lookup_lt_Some|done].
    + destruct (run_forward t1 j b Hb Hl1) as (t2 & E2 & Hst2). exists t2. split; [done|].
      rewrite list_find_app_r by done. rewrite (base_succ _ _ Hb) in Hst2.
      destruct (blocks !! S j) as [b'|] eqn:Hb'.
      * rewrite (drop_S _ _ _ Hb'). cbn [mjoin list_join]. destruct b' as [|kv b']; [by pose proof (tl_nonempty T _ _ Hb')|].
        rewrite decide_True in Hst2.
        2:{ rewrite <-(base_succ _ _ Hb), (all_split _ _ Hb'), !length_app. unfold base. cbn. lia. }
        cbn [app list_find]. rewrite decide_True by (apply (next_reaches j k h (kv :: b')); [done|lia|done|left]). cbn. by rewrite Nat.add_comm.
      * rewrite (drop_ge blocks (S j)) by (by apply lookup_ge_None_1). cbn.
        apply lookup_ge_None_1 in Hb'. rewrite <-(base_succ _ _ Hb) in Hst2. replace (S j) with (length blocks) in Hst2 by lia.
        by rewrite base_end, decide_False in Hst2 by lia.
  - pose proof (below_index (length blocks) ltac:(lia)) as Hn. rewrite firstn_all in Hn. rewrite Hn; [by apply run_nowhere|].
    intros j k h _ Hk. apply list_find_None in Ef. rewrite Forall_lookup in Ef. specialize (Ef j (k, h) Hk). cbn in Ef. lia.
Qed.
End seek.

Lemma two_level_cursor : Cursor (H := TwoLevel_ops state_ turns) compare_ all tl_stands.
Proof.
  split.
  - apply tl_stands_valid.
  - intros t pos Hst. cbn. unfold TwoLevel_status. destruct (tl_stands_level t pos Hst) as (fpos & sec & (it & -> & Hst1 & _) & Hh & Hs).
    rewrite (cursor_status compare_ (Cursor := tl_first T) _ _ Hst1). change (negb (ok StatusOK)) with false. cbn iota.
    destruct (iter_ (second_level_iter_ t)) as [it2|] eqn:E; [|done]. rewrite (holds_status _ _ _ _ Hh E). done.
  - intros t g Hst. pose proof (tl_stands_valid _ _ Hst) as Hv. destruct Hst as (j & i & b & Hb & Hi & -> & _ & Hh & _).
    pose proof (tl_second T j b Hb) as C. destruct Hh as (it & Hit & Hst2 & Hv2 & Hk2 & _).
    destruct (cursor_entry compare_ _ _ Hst2) as (k & v & Hkv & Hk & Hval). exists k, v. rewrite (all_lookup j b i Hb Hi). split; [done|].
    cbn. unfold TwoLevel_key, TwoLevel_value, wrapper_key, wrapper_value. rewrite Hv, Hv2, Hit, !bool_decide_true by (by eexists).
    mred. rewrite Hval. rewrite Hk in Hk2. split; [|done]. by destruct (Hk2 ltac:(by eexists)).
  - intros o t pos Ho Hst. destruct o as [| |target| |]; cbn [list_move iter_move iter_Seek iter_SeekToFirst iter_SeekToLast iter_Next iter_Prev TwoLevel_ops].
    + by eapply run_tl_SeekToFirst.
    + by eapply run_tl_SeekToLast.
    + by eapply run_tl_Seek.
    + destruct pos as [g|]; [by apply run_tl_Next|]. unfold TwoLevel_Next. rewrite (bind_Ok _ _ t t t) by done. by rewrite (tl_stands_valid _ _ Hst).
    + destruct pos as [g|]; [by apply run_tl_Prev|]. unfold TwoLevel_Prev. rewrite (bind_Ok _ _ t t t) by done. by rewrite (tl_stands_valid _ _ Hst).
Qed.

(** A new iterator stands at no entry. *)
Lemma run_NewTwoLevelIterator it fpos : stands1 it fpos → ∃ t, NewTwoLevelIterator (J := J) it = Ok t ∧ tl_stands t None.
Proof.
  intros Hst. unfold NewTwoLevelIterator, wrapper_new, wrapper_Set. set (w0 := mkWrapper (Some it) false []).
  rewrite (bind_Ok _ _ wrapper_null tt w0) by done.
  destruct (run_wrapper_Update index stands1 (Cursor0 := tl_first T) w0 it fpos eq_refl Hst) as (w & -> & Hit & Hv & _). mred.
  eexists. split; [reflexivity|]. exists fpos. split; [by exists it|]. by split.
Qed.
End spec.
