(* ===== verification/TableFormat.v ===== *)
(** * RocksDB: the format of a table file

    Models [src/src/rocksdb/table/format.{h,cc}] and [CompressBlock] of
    [table/block_based_table_builder.cc]: handles of blocks, the footer, and blocks with their
    trailer of a type and a checksum.

    The compression libraries are parameters, with the law that what was compressed can be
    uncompressed.  Whether a block may be cached is left out, as there is no cache. *)

From S2P Require Import Prelude Varint BaseUint Coding CrcTables Crc32c Env XxHash.

(** ** Files *)

Class RandomAccessFile (F : Type) := { file_ReadAt : Z → Z → F → Status * bytes }.

(** A file that can be read anywhere: [stored] is what it holds. *)
Class RandomAccessFileLaws (F : Type) `{RandomAccessFile F} := {
  stored : F → bytes;
  ReadAt_stored offset n f : (0 ≤ offset)%Z → (0 ≤ n)%Z →
    file_ReadAt offset n f = (StatusOK, take (Z.to_nat n) (drop (Z.to_nat offset) (stored f)));
}.

#[export] Instance bytes_RandomAccessFile : RandomAccessFile bytes := {|
  file_ReadAt offset n f := (StatusOK, take (Z.to_nat n) (drop (Z.to_nat offset) f));
|}.
#[export, program] Instance bytes_RandomAccessFileLaws : RandomAccessFileLaws bytes := {| stored f := f |}.
Solve Obligations with done.

(** ** Compression *)

Definition kNoCompression : Z := 0.
Definition kSnappyCompression : Z := 1.
Definition kZlibCompression : Z := 2.
Definition kBZip2Compression : Z := 3.
Definition kLZ4Compression : Z := 4.
Definition kLZ4HCCompression : Z := 5.

(** The functions of [util/compression.h], with the options they are called with; [None] if
    they do not succeed or the library is not there. *)
Record compression_library := mkCompression {
  Snappy_Compress : bytes → option bytes;
  Snappy_GetUncompressedLength : bytes → option Z;
  Snappy_Uncompress : bytes → option bytes;
  Zlib_Compress : Z → bytes → option bytes;
  Zlib_Uncompress : Z → bytes → option bytes;
  BZip2_Compress : Z → bytes → option bytes;
  BZip2_Uncompress : Z → bytes → option bytes;
  LZ4_Compress : Z → bytes → option bytes;
  LZ4HC_Compress : Z → bytes → option bytes;
  LZ4_Uncompress : Z → bytes → option bytes;
}.

Record compression_ok (lib : compression_library) : Prop := {
  snappy_length raw x : Snappy_Compress lib raw = Some x → Snappy_GetUncompressedLength lib x = Some (Z.of_nat (length raw));
  snappy_back raw x : Snappy_Compress lib raw = Some x → Snappy_Uncompress lib x = Some raw;
  zlib_back v raw x : Zlib_Compress lib v raw = Some x → Zlib_Uncompress lib v x = Some raw;
  bzip2_back v raw x : BZip2_Compress lib v raw = Some x → BZip2_Uncompress lib v x = Some raw;
  lz4_back v raw x : LZ4_Compress lib v raw = Some x → LZ4_Uncompress lib v x = Some raw;
  lz4hc_back v raw x : LZ4HC_Compress lib v raw = Some x → LZ4_Uncompress lib v x = Some raw;
}.

Definition GetCompressFormatForVersion (compression_type version : Z) : outcome Z :=
  if negb (Z.eqb compression_type kSnappyCompression) && negb (Z.eqb compression_type kNoCompression)
  then Ok (if Z.leb 2 version then 2%Z else 1%Z) else Err AssertFailed.

Definition GoodCompressionRatio (compressed_size raw_size : Z) : bool := Z.ltb compressed_size (raw_size - raw_size / 8).

Section compression.
Context (lib : compression_library).

(** What was compressed well, or the raw contents. *)
Definition keep_good (raw : bytes) (type : Z) (o : option bytes) : bytes * Z :=
  match o with
  | Some x => if GoodCompressionRatio (Z.of_nat (length x)) (Z.of_nat (length raw)) then (x, type) else (raw, kNoCompression)
  | None => (raw, kNoCompression)
  end.

(** The contents to write, and their type. *)
Definition CompressBlock (raw : bytes) (type format_version : Z) : outcome (bytes * Z) :=
  if Z.eqb type kNoCompression then Ok (raw, type) else
  let good := keep_good raw type in
  if Z.eqb type kSnappyCompression then Ok (good (Snappy_Compress lib raw)) else
  if Z.eqb type kZlibCompression then
    v ← GetCompressFormatForVersion kZlibCompression format_version; Ok (good (Zlib_Compress lib v raw)) else
  if Z.eqb type kBZip2Compression then
    v ← GetCompressFormatForVersion kBZip2Compression format_version; Ok (good (BZip2_Compress lib v raw)) else
  if Z.eqb type kLZ4Compression then
    v ← GetCompressFormatForVersion kLZ4Compression format_version; Ok (good (LZ4_Compress lib v raw)) else
  if Z.eqb type kLZ4HCCompression then
    v ← GetCompressFormatForVersion kLZ4HCCompression format_version; Ok (good (LZ4HC_Compress lib v raw)) else
  Ok (raw, kNoCompression).

Definition uncompressed (o : option bytes) (msg : string) : Status * bytes :=
  match o with Some x => (StatusOK, x) | None => (Corruption msg, []) end.

(** [type] is the byte after the data. *)
Definition UncompressBlockContents (data : bytes) (type format_version : Z) : outcome (Status * bytes) :=
  if Z.eqb type kNoCompression then Err AssertFailed else
  if Z.eqb type kSnappyCompression then
    let snappy_corrupt_msg := "Snappy not supported or corrupted Snappy compressed block contents" in
    match Snappy_GetUncompressedLength lib data with
    | None => Ok (Corruption snappy_corrupt_msg, [])
    | Some ulength =>
        match Snappy_Uncompress lib data with
        | None => Ok (Corruption snappy_corrupt_msg, [])
        | Some ubuf => Ok (StatusOK, take (Z.to_nat ulength) ubuf)
        end
    end else
  if Z.eqb type kZlibCompression then
    v ← GetCompressFormatForVersion kZlibCompression format_version;
    Ok (uncompressed (Zlib_Uncompress lib v data) "Zlib not supported or corrupted Zlib compressed block contents") else
  if Z.eqb type kBZip2Compression then
    v ← GetCompressFormatForVersion kBZip2Compression format_version;
    Ok (uncompressed (BZip2_Uncompress lib v data) "Bzip2 not supported or corrupted Bzip2 compressed block contents") else
  if Z.eqb type kLZ4Compression then
    v ← GetCompressFormatForVersion kLZ4Compression format_version;
    Ok (uncompressed (LZ4_Uncompress lib v data) "LZ4 not supported or corrupted LZ4 compressed block contents") else
  if Z.eqb type kLZ4HCCompression then
    v ← GetCompressFormatForVersion kLZ4HCCompression format_version;
    Ok (uncompressed (LZ4_Uncompress lib v data) "LZ4HC not supported or corrupted LZ4HC compressed block contents") else
  Ok (Corruption "bad block type", []).
End compression.

(** ** Handles *)

Record BlockHandle := mkHandle { h_offset : Z; h_size : Z }.

#[export] Instance BlockHandle_eq_dec : EqDecision BlockHandle.
Proof. solve_decision. Defined.

Definition BlockHandle_new : BlockHandle := mkHandle (2 ^ 64 - 1) (2 ^ 64 - 1).

Definition BlockHandle_EncodeTo (h : BlockHandle) (dst : bytes) : outcome bytes :=
  if Z.eqb (h_offset h) (2 ^ 64 - 1) || Z.eqb (h_size h) (2 ^ 64 - 1) then Err AssertFailed
  else Ok (PutVarint64 (PutVarint64 dst (h_offset h)) (h_size h)).

(** The status, the handle, and what is left of the input; an offset that could be read is
    kept when the size cannot. *)
Definition BlockHandle_DecodeFrom (h : BlockHandle) (input : bytes) : Status * BlockHandle * bytes :=
  match GetVarint64 input with
  | (None, input) => (Corruption "bad block handle", h, input)
  | (Some offset, input) =>
      match GetVarint64 input with
      | (None, input) => (Corruption "bad block handle", mkHandle offset (h_size h), input)
      | (Some size, input) => (StatusOK, mkHandle offset size, input)
      end
  end.

(** ** The footer *)

Definition kBlockBasedTableMagicNumber : Z := 0x88e241b785f4cff7.
Definition kLegacyBlockBasedTableMagicNumber : Z := 0xdb4775248b80fb57.
Definition kPlainTableMagicNumber : Z := 0x8242229663bf9564.
Definition kLegacyPlainTableMagicNumber : Z := 0x4f3418eb7a8f13b8.

Definition kNoChecksum : Z := 0.
Definition kCRC32c : Z := 1.
Definition kxxHash : Z := 2.

Definition kMaxEncodedLength : nat := 10 + 10.
Definition kVersion0EncodedLength : nat := 2 * kMaxEncodedLength + 8.
Definition kNewVersionsEncodedLength : nat := 1 + 2 * kMaxEncodedLength + 4 + 8.
Definition kBlockTrailerSize : Z := 5.

Record Footer := mkFooter {
  f_version : Z; f_checksum : Z; metaindex_handle_ : BlockHandle; index_handle_ : BlockHandle; table_magic_number_ : Z;
}.

Definition IsLegacyFooterFormat (magic_number : Z) : bool :=
  Z.eqb magic_number kLegacyBlockBasedTableMagicNumber || Z.eqb magic_number kLegacyPlainTableMagicNumber.
Definition UpconvertLegacyFooterFormat (magic_number : Z) : outcome Z :=
  if Z.eqb magic_number kLegacyBlockBasedTableMagicNumber then Ok kBlockBasedTableMagicNumber else
  if Z.eqb magic_number kLegacyPlainTableMagicNumber then Ok kPlainTableMagicNumber else Err AssertFailed.

Definition Footer_new (table_magic_number version : Z) : outcome Footer :=
  if negb (IsLegacyFooterFormat table_magic_number) || Z.eqb version 0
  then Ok (mkFooter version kCRC32c BlockHandle_new BlockHandle_new table_magic_number) else Err AssertFailed.

(** [std::string::resize] *)
Definition resize (n : nat) (s : bytes) : bytes := take n s ++ replicate (n - length s) Byte.x00.

Definition Footer_EncodeTo (f : Footer) (dst : bytes) : outcome bytes :=
  let magic := table_magic_number_ f in
  if Z.eqb magic 0 then Err AssertFailed else
  let original_size := length dst in
  if IsLegacyFooterFormat magic then
    if negb (Z.eqb (f_checksum f) kCRC32c) then Err AssertFailed else
    dst ← BlockHandle_EncodeTo (metaindex_handle_ f) dst;
    dst ← BlockHandle_EncodeTo (index_handle_ f) dst;
    let dst := resize (original_size + 2 * kMaxEncodedLength) dst in
    let dst := PutFixed32 dst (Z.land magic 0xffffffff) in
    let dst := PutFixed32 dst (Z.shiftr magic 32) in
    if decide (length dst = original_size + kVersion0EncodedLength) then Ok dst else Err AssertFailed
  else
    let dst := dst ++ [byte.of_Z (f_checksum f)] in
    dst ← BlockHandle_EncodeTo (metaindex_handle_ f) dst;
    dst ← BlockHandle_EncodeTo (index_handle_ f) dst;
    let dst := resize (original_size + kNewVersionsEncodedLength - 12) dst in
    let dst := PutFixed32 dst (f_version f) in
    let dst := PutFixed32 dst (Z.land magic 0xffffffff) in
    let dst := PutFixed32 dst (Z.shiftr magic 32) in
    if decide (length dst = original_size + kNewVersionsEncodedLength) then Ok dst else Err AssertFailed.

(** A number as a [char], which is what [ChecksumType] and [CompressionType] are. *)
Definition to_char (c : Z) : Z := let c := (c mod 256)%Z in if Z.ltb c 128 then c else (c - 256)%Z.

(** The two handles, and what is left of the input. *)
Definition decode_handles (f : Footer) (input : bytes) : Status * Footer * bytes :=
  let '(result, metaindex, input) := BlockHandle_DecodeFrom (metaindex_handle_ f) input in
  let f := mkFooter (f_version f) (f_checksum f) metaindex (index_handle_ f) (table_magic_number_ f) in
  if ok result then
    let '(result, index, input) := BlockHandle_DecodeFrom (index_handle_ f) input in
    (result, mkFooter (f_version f) (f_checksum f) metaindex index (table_magic_number_ f), if ok result then [] else input)
  else (result, f, input).

Definition Footer_DecodeFrom (f : Footer) (input : bytes) : outcome (Status * Footer * bytes) :=
  if negb (Z.eqb (table_magic_number_ f) 0) then Err AssertFailed else
  if negb (Nat.leb kVersion0EncodedLength (length input)) then Err AssertFailed else
  let magic_ptr := length input - 8 in
  magic_lo ← DecodeFixed32 (drop magic_ptr input);
  magic_hi ← DecodeFixed32 (drop (magic_ptr + 4) input);
  let magic := Z.lor (Z.shiftl magic_hi 32) magic_lo in
  let legacy := IsLegacyFooterFormat magic in
  magic ← (if legacy then UpconvertLegacyFooterFormat magic else Ok magic);
  if legacy then
    let input := drop (length input - kVersion0EncodedLength) input in
    Ok (decode_handles (mkFooter 0 kCRC32c (metaindex_handle_ f) (index_handle_ f) magic) input)
  else
    version ← DecodeFixed32 (drop (magic_ptr - 4) input);
    let f := mkFooter version (f_checksum f) (metaindex_handle_ f) (index_handle_ f) magic in
    if Nat.ltb (length input) kNewVersionsEncodedLength then Ok (Corruption "input is too short to be an sstable", f, input) else
    let input := drop (length input - kNewVersionsEncodedLength) input in
    match GetVarint32 input with
    | (None, input) => Ok (Corruption "bad checksum type", f, input)
    | (Some chksum, input) =>
        Ok (decode_handles (mkFooter version (to_char chksum) (metaindex_handle_ f) (index_handle_ f) magic) input)
    end.

Definition BlockBasedTableSupportedVersion (version : Z) : bool := Z.leb version 2.

(** ** Reading *)

Section reading.
Context (pl : platform) (lib : compression_library) {F : Type} `{RandomAccessFile F}.

Definition ReadFooterFromFile (file : F) (file_size : Z) (footer : Footer) (enforce_table_magic_number : Z) : outcome (Status * Footer) :=
  if Z.ltb file_size (Z.of_nat kVersion0EncodedLength) then Ok (Corruption "file is too short to be an sstable", footer) else
  let max := Z.of_nat kNewVersionsEncodedLength in
  let read_offset := (if Z.ltb max file_size then file_size - max else 0)%Z in
  let '(s, footer_input) := file_ReadAt read_offset max file in
  if negb (ok s) then Ok (s, footer) else
  if Nat.ltb (length footer_input) kVersion0EncodedLength then Ok (Corruption "file is too short to be an sstable", footer) else
  r ← Footer_DecodeFrom footer footer_input;
  let '(s, footer, _) := r in
  if negb (ok s) then Ok (s, footer) else
  if negb (Z.eqb enforce_table_magic_number 0) && negb (Z.eqb enforce_table_magic_number (table_magic_number_ footer))
  then Ok (Corruption "Bad table magic number", footer) else Ok (StatusOK, footer).

(** The block with its trailer. *)
Definition ReadBlock (file : F) (footer : Footer) (verify_checksums : bool) (handle : BlockHandle) : outcome (Status * bytes) :=
  let n := h_size handle in
  let '(s, contents) := file_ReadAt (h_offset handle) (u64 (n + kBlockTrailerSize)) file in
  if negb (ok s) then Ok (s, contents) else
  if negb (Z.eqb (Z.of_nat (length contents)) (u64 (n + kBlockTrailerSize))) then Ok (Corruption "truncated block read", contents) else
  if negb verify_checksums then Ok (s, contents) else
  value ← DecodeFixed32 (drop (Z.to_nat (n + 1)) contents);
  if Z.eqb (f_checksum footer) kCRC32c then
    actual ← Value pl (take (Z.to_nat (n + 1)) contents);
    Ok (if Z.eqb actual (Unmask value) then s else Corruption "block checksum mismatch", contents)
  else if Z.eqb (f_checksum footer) kxxHash then
    actual ← XXH32 contents (to_int32 (u32 (n + 1))) 0;
    Ok (if Z.eqb actual value then s else Corruption "block checksum mismatch", contents)
  else Ok (Corruption "unknown checksum type", contents).

(** The data and its compression type. *)
Definition ReadBlockContents (file : F) (footer : Footer) (verify_checksums : bool) (handle : BlockHandle)
    (decompression_requested : bool) : outcome (Status * (bytes * Z)) :=
  r ← ReadBlock file footer verify_checksums handle;
  let '(status, slice) := r in
  if negb (ok status) then Ok (status, ([], kNoCompression)) else
  let n := Z.to_nat (h_size handle) in
  type ← of_option OutOfBounds (slice !! n);
  let compression_type := to_char (byte.unsigned type) in
  if decompression_requested && negb (Z.eqb compression_type kNoCompression) then
    r ← UncompressBlockContents lib (take n slice) compression_type (f_version footer);
    Ok (fst r, (snd r, kNoCompression))
  else Ok (status, (take n slice, compression_type)).
End reading.

(** ** Handles are read back *)

Definition handle_ok (h : BlockHandle) : Prop := (0 ≤ h_offset h < 2 ^ 64 - 1)%Z ∧ (0 ≤ h_size h < 2 ^ 64 - 1)%Z.
Definition handle_bytes (h : BlockHandle) : bytes := EncodeVarint64 (h_offset h) ++ EncodeVarint64 (h_size h).

Lemma length_EncodeVarint64 v : length (EncodeVarint64 v) ≤ 10.
Proof.
  unfold EncodeVarint64. generalize 10 as n. intros n. revert v. induction n as [|n IH]; intros v; cbn [EncodeVarint64_loop]; [cbn; lia|].
  destruct (Z.leb 128 v); cbn [length]; [specialize (IH (Z.shiftr v 7))|]; lia.
Qed.

Lemma length_handle_bytes h : length (handle_bytes h) ≤ 20.
Proof.
  unfold handle_bytes. rewrite length_app. pose proof (length_EncodeVarint64 (h_offset h)). pose proof (length_EncodeVarint64 (h_size h)). lia.
Qed.

Lemma run_handle_EncodeTo h dst : handle_ok h → BlockHandle_EncodeTo h dst = Ok (dst ++ handle_bytes h).
Proof.
  intros [Ho Hs]. unfold BlockHandle_EncodeTo. rewrite (proj2 (Z.eqb_neq _ _)), (proj2 (Z.eqb_neq _ _)) by lia.
  unfold PutVarint64, handle_bytes. by rewrite <-app_assoc.
Qed.

Lemma run_handle_DecodeFrom h h0 rest : handle_ok h → BlockHandle_DecodeFrom h0 (handle_bytes h ++ rest) = (StatusOK, h, rest).
Proof.
  intros [Ho Hs]. unfold BlockHandle_DecodeFrom, handle_bytes. rewrite <-app_assoc.
  rewrite (GetVarint64_write (h_offset h)) by lia. rewrite (GetVarint64_write (h_size h)) by lia. by destruct h.
Qed.

(** The encoding is injective, so that a handle can stand for its block. *)
Lemma handle_bytes_inj h h' : handle_ok h → handle_ok h' → handle_bytes h = handle_bytes h' → h = h'.
Proof.
  intros Hh Hh' E. pose proof (run_handle_DecodeFrom h h [] Hh) as E1. pose proof (run_handle_DecodeFrom h' h [] Hh') as E2.
  rewrite E in E1. congruence.
Qed.

(** ** The footer is read back *)

(** A footer a table is written with. *)
Definition footer_ok (f : Footer) : Prop :=
  handle_ok (metaindex_handle_ f) ∧ handle_ok (index_handle_ f) ∧ (f_checksum f = kCRC32c ∨ f_checksum f = kxxHash) ∧
  is_u32 (f_version f) ∧
  (table_magic_number_ f = kBlockBasedTableMagicNumber ∨
   table_magic_number_ f = kLegacyBlockBasedTableMagicNumber ∧ f_version f = 0%Z ∧ f_checksum f = kCRC32c).

(** The old magic number is replaced by the new one. *)
Definition upconverted (f : Footer) : Footer :=
  mkFooter (f_version f) (f_checksum f) (metaindex_handle_ f) (index_handle_ f) kBlockBasedTableMagicNumber.

Definition magic_bytes (m : Z) : bytes := EncodeFixed32 (Z.land m 0xffffffff) ++ EncodeFixed32 (Z.shiftr m 32).

Lemma length_magic m : length (magic_bytes m) = 8.
Proof. unfold magic_bytes. by rewrite length_app, !length_EncodeFixed32. Qed.

Definition padded (n : nat) (s : bytes) : bytes := s ++ replicate (n - length s) Byte.x00.

Lemma length_padded n s : length s ≤ n → length (padded n s) = n.
Proof. intros Hs. unfold padded. rewrite length_app, length_replicate. lia. Qed.

Lemma resize_padded n s t : length t ≤ n → resize (length s + n) (s ++ t) = s ++ padded n t.
Proof.
  intros Ht. unfold resize, padded. rewrite take_ge by (rewrite length_app; lia). rewrite <-app_assoc, length_app.
  do 3 f_equal. lia.
Qed.

Definition handles_bytes (f : Footer) : bytes := handle_bytes (metaindex_handle_ f) ++ handle_bytes (index_handle_ f).

Definition footer_bytes (f : Footer) : bytes :=
  if IsLegacyFooterFormat (table_magic_number_ f) then padded 40 (handles_bytes f) ++ magic_bytes (table_magic_number_ f)
  else padded 41 (byte.of_Z (f_checksum f) :: handles_bytes f) ++ EncodeFixed32 (f_version f) ++ magic_bytes (table_magic_number_ f).

Lemma length_handles f : length (handles_bytes f) ≤ 40.
Proof.
  unfold handles_bytes. rewrite length_app. pose proof (length_handle_bytes (metaindex_handle_ f)).
  pose proof (length_handle_bytes (index_handle_ f)). lia.
Qed.

Lemma length_footer_bytes f : length (footer_bytes f) = if IsLegacyFooterFormat (table_magic_number_ f) then 48 else 53.
Proof.
  unfold footer_bytes. pose proof (length_handles f).
  destruct (IsLegacyFooterFormat _); rewrite !length_app, length_padded, length_magic, ?length_EncodeFixed32 by (cbn [length]; lia); done.
Qed.

Lemma run_Footer_EncodeTo f dst : footer_ok f → Footer_EncodeTo f dst = Ok (dst ++ footer_bytes f).
Proof.
  intros (Hm & Hi & _ & _ & Hmag). unfold Footer_EncodeTo. pose proof (length_handles f) as Hl. pose proof (length_footer_bytes f) as Hfl.
  assert (Z.eqb (table_magic_number_ f) 0 = false) as -> by (destruct Hmag as [->|[-> _]]; done). cbv zeta.
  unfold footer_bytes in *. destruct (IsLegacyFooterFormat (table_magic_number_ f)) eqn:El.
  - assert (f_checksum f = kCRC32c) as -> by (destruct Hmag as [E|(_ & _ & ?)]; [by rewrite E in El|done]).
    cbn [Z.eqb kCRC32c negb]. rewrite run_handle_EncodeTo by done. mred. rewrite run_handle_EncodeTo by done. mred.
    rewrite <-(app_assoc dst). fold (handles_bytes f). change (2 * kMaxEncodedLength) with 40. rewrite resize_padded by done.
    unfold PutFixed32. rewrite <-!app_assoc. fold (magic_bytes (table_magic_number_ f)).
    rewrite decide_True; [done|]. rewrite length_app, Hfl. done.
  - rewrite run_handle_EncodeTo by done. mred. rewrite run_handle_EncodeTo by done. mred.
    rewrite <-!(app_assoc dst). rewrite <-app_assoc. change ([byte.of_Z (f_checksum f)] ++ ?x) with (byte.of_Z (f_checksum f) :: x).
    fold (handles_bytes f). replace (length dst + kNewVersionsEncodedLength - 12) with (length dst + 41) by (unfold kNewVersionsEncodedLength, kMaxEncodedLength; lia).
    rewrite resize_padded by (cbn [length]; lia). unfold PutFixed32. rewrite <-!app_assoc. fold (magic_bytes (table_magic_number_ f)).
    rewrite decide_True; [done|]. rewrite length_app, Hfl. done.
Qed.

Lemma run_decode_handles f f0 pad : handle_ok (metaindex_handle_ f) → handle_ok (index_handle_ f) →
  decode_handles f0 (handles_bytes f ++ pad) =
    (StatusOK, mkFooter (f_version f0) (f_checksum f0) (metaindex_handle_ f) (index_handle_ f) (table_magic_number_ f0), []).
Proof.
  intros Hm Hi. unfold decode_handles, handles_bytes. rewrite <-app_assoc, run_handle_DecodeFrom by done. cbn [index_handle_].
  change (ok StatusOK) with true. cbn iota. rewrite run_handle_DecodeFrom by done. done.
Qed.

Lemma run_magic X m : is_u64 m →
  DecodeFixed32 (drop (length (X ++ magic_bytes m) - 8) (X ++ magic_bytes m)) = Ok (Z.land m 0xffffffff) ∧
  DecodeFixed32 (drop (length (X ++ magic_bytes m) - 8 + 4) (X ++ magic_bytes m)) = Ok (Z.shiftr m 32).
Proof.
  intros Hm. assert (Z.land m 0xffffffff = m mod 2 ^ 32)%Z as Hlo by (change 0xffffffff%Z with (Z.ones 32); apply Z.land_ones; lia).
  rewrite length_app, length_magic, Nat.add_sub. rewrite drop_app_length. split.
  - apply DecodeFixed32_write. rewrite Hlo. apply Z.mod_pos_bound. lia.
  - rewrite <-drop_drop, drop_app_length. unfold magic_bytes. rewrite drop_app_length' by (by rewrite length_EncodeFixed32).
    rewrite <-(app_nil_r (EncodeFixed32 _)). apply DecodeFixed32_write. rewrite Z.shiftr_div_pow2 by lia.
    split; [apply Z.div_pos; lia|]. apply Z.div_lt_upper_bound; lia.
Qed.

Lemma run_Footer_DecodeFrom B f f0 : footer_ok f → table_magic_number_ f0 = 0%Z →
  Footer_DecodeFrom f0 (B ++ footer_bytes f) = Ok (StatusOK, upconverted f, []).
Proof.
  intros (Hm & Hi & Hck & Hv & Hmag) H0. unfold Footer_DecodeFrom. rewrite H0. cbn [Z.eqb negb].
  pose proof (length_footer_bytes f) as Hfl. pose proof (length_handles f) as Hhl.
  rewrite (proj2 (Nat.leb_le _ _)) by (rewrite length_app, Hfl; unfold kVersion0EncodedLength, kMaxEncodedLength; destruct (IsLegacyFooterFormat _); lia).
  cbn [negb]. cbv zeta. unfold footer_bytes in *. destruct Hmag as [Hmg|(Hmg & Hv0 & Hc0)]; rewrite Hmg in *.
  - cbn [IsLegacyFooterFormat] in *. change (IsLegacyFooterFormat kBlockBasedTableMagicNumber) with false in *. cbn iota in *.
    set (P := padded 41 (byte.of_Z (f_checksum f) :: handles_bytes f)) in *. set (V := EncodeFixed32 (f_version f)) in *.
    set (M := magic_bytes kBlockBasedTableMagicNumber) in *.
    assert (B ++ P ++ V ++ M = (B ++ P ++ V) ++ M) as HX by by rewrite <-!app_assoc.
    rewrite HX. destruct (run_magic (B ++ P ++ V) kBlockBasedTableMagicNumber ltac:(done)) as [E1 E2]. fold M in E1, E2. rewrite E1. mred. rewrite E2. mred.
    change (Z.lor _ _) with kBlockBasedTableMagicNumber. change (IsLegacyFooterFormat kBlockBasedTableMagicNumber) with false. mred. cbn iota.
    assert (length V = 4 ∧ length M = 8 ∧ length P = 41) as (HV & HM & HP).
    { split_and!; [apply length_EncodeFixed32|apply length_magic|apply length_padded; cbn [length]; lia]. }
    replace (length ((B ++ P ++ V) ++ M) - 8 - 4) with (length (B ++ P)) by (rewrite !length_app; lia).
    assert (DecodeFixed32 (drop (length (B ++ P)) ((B ++ P ++ V) ++ M)) = Ok (f_version f)) as ->.
    { rewrite <-HX, app_assoc, drop_app_length. by apply DecodeFixed32_write. }
    mred. rewrite <-HX. rewrite (proj2 (Nat.ltb_ge _ _)) by (rewrite !length_app; unfold kNewVersionsEncodedLength, kMaxEncodedLength; lia).
    replace (length (B ++ P ++ V ++ M) - kNewVersionsEncodedLength) with (length B)
      by (rewrite !length_app; unfold kNewVersionsEncodedLength, kMaxEncodedLength; lia).
    rewrite drop_app_length. unfold P, padded. rewrite <-app_assoc. cbn [app].
    assert (byte.of_Z (f_checksum f) :: ?[x] = EncodeVarint32 (f_checksum f) ++ ?x) as -> by (destruct Hck as [->| ->]; reflexivity).
    rewrite GetVarint32_write by (destruct Hck as [->| ->]; done). rewrite (run_decode_handles f) by done.
    cbn [f_version f_checksum table_magic_number_]. unfold upconverted. destruct Hck as [->| ->]; done.
  - change (IsLegacyFooterFormat kLegacyBlockBasedTableMagicNumber) with true in *. cbn iota in *.
    set (P := padded 40 (handles_bytes f)) in *. set (M := magic_bytes kLegacyBlockBasedTableMagicNumber) in *.
    rewrite (app_assoc B). destruct (run_magic (B ++ P) kLegacyBlockBasedTableMagicNumber ltac:(done)) as [E1 E2]. fold M in E1, E2. rewrite E1. mred. rewrite E2. mred.
    change (Z.lor _ _) with kLegacyBlockBasedTableMagicNumber. change (IsLegacyFooterFormat kLegacyBlockBasedTableMagicNumber) with true. cbn iota.
    change (UpconvertLegacyFooterFormat kLegacyBlockBasedTableMagicNumber) with (Ok kBlockBasedTableMagicNumber). mred.
    assert (length M = 8 ∧ length P = 40) as (HM & HP) by (split; [apply length_magic|apply length_padded; lia]).
    rewrite <-app_assoc. replace (length (B ++ P ++ M) - kVersion0EncodedLength) with (length B)
      by (rewrite !length_app; unfold kVersion0EncodedLength, kMaxEncodedLength; lia).
    rewrite drop_app_length. unfold P, padded. rewrite <-app_assoc. rewrite (run_decode_handles f) by done.
    cbn [f_version f_checksum table_magic_number_]. unfold upconverted. by rewrite Hv0, Hc0.
Qed.

(** ** Blocks are read back *)

(** The trailer of a block of the given type. *)
Definition sealed (checksum : Z) (contents : bytes) (type : Z) (trailer : bytes) : Prop :=
  ∃ sum, trailer = byte.of_Z type :: EncodeFixed32 sum ∧ is_u32 sum ∧
    (checksum = kCRC32c ∧ sum = Mask (crc32c 0 (contents ++ [byte.of_Z type])) ∨
     checksum = kxxHash ∧ XXH32 (contents ++ [byte.of_Z type]) (Z.of_nat (length contents + 1)) 0 = Ok sum).

Lemma length_sealed checksum contents type trailer : sealed checksum contents type trailer → length trailer = 5.
Proof. intros (sum & -> & _). cbn [length]. by rewrite length_EncodeFixed32. Qed.

Section reads.
Context (pl : platform) (Hpl : platform_ok pl) (lib : compression_library) (Hlib : compression_ok lib).
Context {F : Type} `{RandomAccessFileLaws F}.

Lemma run_ReadFooterFromFile file A f f0 : stored file = A ++ footer_bytes f → footer_ok f → table_magic_number_ f0 = 0%Z →
  ReadFooterFromFile file (Z.of_nat (length (stored file))) f0 kBlockBasedTableMagicNumber = Ok (StatusOK, upconverted f).
Proof.
  intros Hst Hf H0'. pose proof (length_footer_bytes f) as Hl. unfold ReadFooterFromFile. rewrite Hst, length_app.
  change (Z.of_nat kVersion0EncodedLength) with 48%Z. change (Z.of_nat kNewVersionsEncodedLength) with 53%Z.
  rewrite (proj2 (Z.ltb_ge _ _)) by (destruct (IsLegacyFooterFormat _); lia). cbv zeta.
  set (o := (if Z.ltb 53 _ then _ else _)%Z).
  assert (Z.to_nat o ≤ length A ∧ (0 ≤ o)%Z ∧ length A + length (footer_bytes f) - Z.to_nat o ≤ 53) as (Ho & Ho0 & Hn)
    by (unfold o; destruct (Z.ltb_spec 53 (Z.of_nat (length A + length (footer_bytes f)))); destruct (IsLegacyFooterFormat _); lia).
  rewrite ReadAt_stored, Hst by lia. rewrite drop_app_le by lia.
  rewrite take_ge by (rewrite length_app, length_drop; lia). change (ok StatusOK) with true. cbn [negb].
  rewrite (proj2 (Nat.ltb_ge _ _)) by (rewrite length_app, Hl; unfold kVersion0EncodedLength, kMaxEncodedLength; destruct (IsLegacyFooterFormat _); lia).
  rewrite run_Footer_DecodeFrom by done. mred. done.
Qed.

Lemma run_ReadBlock file footer verify handle A contents type trailer B :
  stored file = A ++ contents ++ trailer ++ B → handle = mkHandle (Z.of_nat (length A)) (Z.of_nat (length contents)) →
  sealed (f_checksum footer) contents type trailer → (Z.of_nat (length contents) < 2 ^ 31 - 1)%Z →
  ReadBlock pl file footer verify handle = Ok (StatusOK, contents ++ trailer).
Proof.
  intros Hst -> Hseal Hlen. pose proof (length_sealed _ _ _ _ Hseal) as Ht. unfold ReadBlock. cbn [h_offset h_size].
  unfold kBlockTrailerSize. rewrite (Z.mod_small (_ + 5)) by lia. rewrite ReadAt_stored, Hst by lia.
  replace (Z.to_nat (Z.of_nat (length contents) + 5)) with (length (contents ++ trailer)) by (rewrite length_app; lia).
  rewrite Nat2Z.id, drop_app_length, (app_assoc contents), take_app_length. change (ok StatusOK) with true. cbn [negb].
  rewrite (proj2 (Z.eqb_eq _ _)) by (rewrite length_app; lia). cbn [negb]. destruct verify; [|done]. cbn [negb].
  destruct Hseal as (sum & -> & Hsum & Hck).
  replace (Z.to_nat (Z.of_nat (length contents) + 1)) with (length (contents ++ [byte.of_Z type])) by (rewrite length_app; cbn; lia).
  assert (contents ++ byte.of_Z type :: EncodeFixed32 sum = (contents ++ [byte.of_Z type]) ++ EncodeFixed32 sum) as Hs by by rewrite <-app_assoc.
  rewrite Hs, drop_app_length, <-(app_nil_r (EncodeFixed32 sum)) at 1. rewrite DecodeFixed32_write by done. mred.
  rewrite Hs, take_app_length. destruct Hck as [(-> & Esum)|(-> & Ex)]; cbn [Z.eqb Pos.eqb kCRC32c kxxHash].
  - unfold Value. rewrite Extend_crc32c by (done || (rewrite length_app; cbn; lia)). mred. rewrite Esum, Unmask_masked by (by apply crc32c_u32).
    by rewrite Z.eqb_refl.
  - rewrite Z.mod_small, to_int32_small by lia.
    replace (Z.of_nat (length contents) + 1)%Z with (Z.of_nat (length (contents ++ [byte.of_Z type]))) by (rewrite length_app; cbn; lia).
    rewrite XXH32_prefix, length_app. cbn [length]. rewrite Ex. mred. by rewrite Z.eqb_refl.
Qed.

(** A type of compression there is. *)
Definition compression_type (t : Z) : Prop := (0 ≤ t ≤ 5)%Z.

Lemma run_GetCompressFormat t v : (2 ≤ t)%Z → GetCompressFormatForVersion t v = Ok (if Z.leb 2 v then 2 else 1)%Z.
Proof.
  intros Ht. unfold GetCompressFormatForVersion, kSnappyCompression, kNoCompression.
  by rewrite (proj2 (Z.eqb_neq _ _)), (proj2 (Z.eqb_neq _ _)) by lia.
Qed.

(** [contents] of type [t] stand for [raw]. *)
Definition stands_for (v : Z) (raw contents : bytes) (t : Z) : Prop :=
  compression_type t ∧
  (t = kNoCompression ∧ contents = raw ∨
   t ≠ kNoCompression ∧ length contents ≤ length raw ∧ UncompressBlockContents lib contents t v = Ok (StatusOK, raw)).

Lemma keep_good_back v raw t o : compression_type t → t ≠ kNoCompression →
  (∀ x, o = Some x → UncompressBlockContents lib x t v = Ok (StatusOK, raw)) →
  stands_for v raw (fst (keep_good raw t o)) (snd (keep_good raw t o)).
Proof.
  intros Ht Hne Hx. unfold keep_good. destruct o as [x|]; [|by split; [|left]].
  destruct (GoodCompressionRatio _ _) eqn:Eg; [|by split; [|left]]. split; [done|right]. split_and!; [done| |by apply Hx].
  unfold GoodCompressionRatio in Eg. apply Z.ltb_lt in Eg. pose proof (Z.div_pos (Z.of_nat (length raw)) 8). cbn. lia.
Qed.

(** What [CompressBlock] did, [UncompressBlockContents] undoes. *)
Lemma compress_back raw t v : compression_type t →
  ∃ contents t', CompressBlock lib raw t v = Ok (contents, t') ∧ stands_for v raw contents t'.
Proof.
  intros Ht. unfold CompressBlock. cbv zeta. destruct (Z.eqb_spec t kNoCompression) as [->|Hn].
  { exists raw, kNoCompression. split; [done|]. by split; [|left]. }
  assert (∀ o, (∀ x, o = Some x → UncompressBlockContents lib x t v = Ok (StatusOK, raw)) →
    ∃ contents t', Ok (keep_good raw t o) = Ok (contents, t') ∧ stands_for v raw contents t') as Hk.
  { intros o Ho. pose proof (keep_good_back v raw t o Ht Hn Ho) as Hs. destruct (keep_good raw t o) as [c t']. by exists c, t'. }
  assert (t = 1 ∨ t = 2 ∨ t = 3 ∨ t = 4 ∨ t = 5)%Z as Hc by (unfold compression_type, kNoCompression in *; lia).
  destruct Hlib. destruct Hc as [->|[->|[->|[->| ->]]]]; cbn; apply Hk; intros x Ex; cbn.
  - rewrite (snappy_length0 _ _ Ex), (snappy_back0 _ _ Ex), Nat2Z.id, firstn_all. done.
  - by rewrite (zlib_back0 _ _ _ Ex).
  - by rewrite (bzip2_back0 _ _ _ Ex).
  - by rewrite (lz4_back0 _ _ _ Ex).
  - by rewrite (lz4hc_back0 _ _ _ Ex).
Qed.

Lemma run_ReadBlockContents file footer verify handle A raw contents t trailer B :
  stored file = A ++ contents ++ trailer ++ B → handle = mkHandle (Z.of_nat (length A)) (Z.of_nat (length contents)) →
  sealed (f_checksum footer) contents t trailer → (Z.of_nat (length raw) < 2 ^ 31 - 1)%Z →
  stands_for (f_version footer) raw contents t →
  ReadBlockContents pl lib file footer verify handle true = Ok (StatusOK, (raw, kNoCompression)) ∧
  (t = kNoCompression → ReadBlockContents pl lib file footer verify handle false = Ok (StatusOK, (raw, kNoCompression))).
Proof.
  intros Hst Hh Hseal Hlen [Ht Hc]. unfold ReadBlockContents.
  rewrite (run_ReadBlock file footer verify handle A contents t trailer B) by (done || destruct Hc as [[_ ->]|(_ & ? & _)]; lia). mred.
  change (ok StatusOK) with true. cbn [negb]. rewrite Hh. cbn [h_size]. rewrite Nat2Z.id, take_app_length.
  assert ((contents ++ trailer) !! length contents = Some (byte.of_Z t)) as ->
    by (rewrite lookup_app_r, Nat.sub_diag by lia; by destruct Hseal as (sum & -> & _)).
  mred. assert (to_char (byte.unsigned (byte.of_Z t)) = t) as ->.
  { assert (t = 0 ∨ t = 1 ∨ t = 2 ∨ t = 3 ∨ t = 4 ∨ t = 5)%Z as Hc' by (unfold compression_type in *; lia).
    destruct Hc' as [->|[->|[->|[->|[->| ->]]]]]; done. }
  destruct Hc as [[-> ->]|(Hn & _ & Eu)]; [done|]. split; [|done]. rewrite (proj2 (Z.eqb_neq _ _)) by done. cbn [negb andb].
  rewrite Eu. done.
Qed.
End reads.
