(* ===== verification/Table.v ===== *)
(** * RocksDB: table files

    Models [src/src/rocksdb/table/flush_block_policy.cc], [table/meta_blocks.cc],
    [table/table_properties.cc], [table/block_based_table_builder.{h,cc}], [table/get_context.{h,cc}] and
    [table/block_based_table_reader.{h,cc}] with the binary-search index and without filters
    and caches, which are null pointers: a table file is written with its entries in order,
    opened again, and read through an iterator or by key. *)

From S2P Require Import Prelude Varint BaseUint Coding CrcTables Crc32c Env WriteBatch XxHash DbFormat Iterator Block TwoLevel TableFormat.

(** ** Options *)

Record BlockBasedTableOptions := mkTableOptions {
  block_size : Z; block_size_deviation : Z; block_restart_interval : Z; checksum : Z; format_version : Z; whole_key_filtering : bool;
}.

(** ** When a block is full *)

Definition BlockBuilder_empty (b : BlockBuilder) : bool := match buffer_ b with [] => true | _ => false end.

Definition BlockAlmostFull (opts : BlockBasedTableOptions) (b : BlockBuilder) (key value : bytes) : bool :=
  let curr_size := CurrentSizeEstimate b in
  let estimated_size_after := EstimateSizeAfterKV b key value in
  Z.ltb (block_size opts) estimated_size_after && Z.ltb 0 (block_size_deviation opts) &&
  Z.ltb (u64 (block_size opts * u64 (100 - block_size_deviation opts))) (u64 (curr_size * 100)).

(** [FlushBlockBySizePolicy::Update] *)
Definition Update (opts : BlockBasedTableOptions) (b : BlockBuilder) (key value : bytes) : bool :=
  if BlockBuilder_empty b then false else
  Z.leb (block_size opts) (CurrentSizeEstimate b) || BlockAlmostFull opts b key value.

(** ** Properties *)

Record TableProperties := mkProps {
  data_size : Z; index_size : Z; filter_size : Z; raw_key_size : Z; raw_value_size : Z; num_data_blocks : Z; num_entries : Z;
  props_format_version : Z; fixed_key_len : Z; filter_policy_name : bytes; user_collected_properties : list (bytes * bytes);
}.

Definition TableProperties_new : TableProperties := mkProps 0 0 0 0 0 0 0 0 0 [] [].

Definition kDataSize : bytes := str "rocksdb.data.size".
Definition kIndexSize : bytes := str "rocksdb.index.size".
Definition kFilterSize : bytes := str "rocksdb.filter.size".
Definition kRawKeySize : bytes := str "rocksdb.raw.key.size".
Definition kRawValueSize : bytes := str "rocksdb.raw.value.size".
Definition kNumDataBlocks : bytes := str "rocksdb.num.data.blocks".
Definition kNumEntries : bytes := str "rocksdb.num.entries".
Definition kFilterPolicy : bytes := str "rocksdb.filter.policy".
Definition kFormatVersion : bytes := str "rocksdb.format.version".
Definition kFixedKeyLen : bytes := str "rocksdb.fixed.key.length".
Definition kPropertiesBlock : bytes := str "rocksdb.properties".
Definition kPropertiesBlockOldName : bytes := str "rocksdb.stats".
Definition kIndexType : bytes := str "rocksdb.block.based.table.index.type".
Definition kWholeKeyFiltering : bytes := str "rocksdb.block.based.table.whole.key.filtering".
Definition kPrefixFiltering : bytes := str "rocksdb.block.based.table.prefix.filtering".
Definition kPropTrue : bytes := str "1".
Definition kPropFalse : bytes := str "0".

(** [BlockBasedTableOptions::IndexType] *)
Definition kBinarySearch : Z := 0.
Definition kHashSearch : Z := 1.

(** [BytewiseSortedMap], in the order of its comparator.  That comparator is not strict, so an
    equal name is put before the one that is there. *)
Abbreviation BytewiseSortedMap := (list (bytes * bytes)).
Definition BytewiseLessThan (key1 key2 : bytes) : bool := Z.leb (Compare BytewiseComparator key1 key2) 0.
Fixpoint map_insert (key value : bytes) (m : BytewiseSortedMap) : BytewiseSortedMap :=
  match m with
  | [] => [(key, value)]
  | kv :: m' => if BytewiseLessThan key (fst kv) then (key, value) :: m else kv :: map_insert key value m'
  end.

(** [find] of such a map: the first key above the given one, which is then asked for again. *)
Fixpoint map_find (key : bytes) (m : BytewiseSortedMap) : option bytes :=
  match m with
  | [] => None
  | kv :: m' => if BytewiseLessThan (fst kv) key then map_find key m' else if BytewiseLessThan key (fst kv) then None else Some (snd kv)
  end.

(** [PropertyBlockBuilder::Add] of a number *)
Definition add_number (name : bytes) (val : Z) (m : BytewiseSortedMap) : outcome BytewiseSortedMap :=
  match map_find name m with Some _ => Err AssertFailed | None => Ok (map_insert name (PutVarint64 [] val) m) end.

Definition AddTableProperty (p : TableProperties) (m : BytewiseSortedMap) : outcome BytewiseSortedMap :=
  m ← add_number kRawKeySize (raw_key_size p) m;
  m ← add_number kRawValueSize (raw_value_size p) m;
  m ← add_number kDataSize (data_size p) m;
  m ← add_number kIndexSize (index_size p) m;
  m ← add_number kNumEntries (num_entries p) m;
  m ← add_number kNumDataBlocks (num_data_blocks p) m;
  m ← add_number kFilterSize (filter_size p) m;
  m ← add_number kFormatVersion (props_format_version p) m;
  m ← add_number kFixedKeyLen (fixed_key_len p) m;
  Ok (match filter_policy_name p with [] => m | name => map_insert kFilterPolicy name m end).

(** [BlockBasedTablePropertiesCollector::Finish], with no prefix extractor *)
Definition collector_Finish (opts : BlockBasedTableOptions) : list (bytes * bytes) :=
  [(kIndexType, PutFixed32 [] kBinarySearch); (kPrefixFiltering, kPropFalse);
   (kWholeKeyFiltering, if whole_key_filtering opts then kPropTrue else kPropFalse)].

(** The block of a sorted map, for [PropertyBlockBuilder] and [MetaIndexBuilder]. *)
Definition block_of_map (m : BytewiseSortedMap) : outcome bytes :=
  b ← BlockBuilder_new 1;
  r ← (add_all m;; Finish) b;
  Ok (fst r).

(** ** The builder *)

Record Rep (F : Type) := mkRep {
  r_options : BlockBasedTableOptions; r_file : F; r_offset : Z; r_status : Status; data_block : BlockBuilder;
  index_block_builder_ : BlockBuilder; last_key : bytes; props : TableProperties; closed : bool; pending_handle : BlockHandle;
}.
Arguments mkRep {F}.
Arguments r_options {F}.
Arguments r_file {F}.
Arguments r_offset {F}.
Arguments r_status {F}.
Arguments data_block {F}.
Arguments index_block_builder_ {F}.
Arguments last_key {F}.
Arguments props {F}.
Arguments closed {F}.
Arguments pending_handle {F}.

Section builder.
Context (pl : platform) (lib : compression_library) (c : UserComparator) (compression_type : Z).

(** What the collectors of the user return in the end. *)
Context (collected : list (bytes * bytes)).
Context {F : Type} `{WritableFile F}.
Abbreviation cmd := (prog (Rep F)).

(** A checksum other than the default one needs the new footer. *)
Definition BlockBasedTableBuilder_new (o : BlockBasedTableOptions) (file : F) : outcome (Rep F) :=
  let o := if Z.eqb (format_version o) 0 && negb (Z.eqb (checksum o) kCRC32c)
           then mkTableOptions (block_size o) (block_size_deviation o) (block_restart_interval o) (checksum o) 1 (whole_key_filtering o) else o in
  b ← BlockBuilder_new (block_restart_interval o);
  i ← BlockBuilder_new 1;
  Ok (mkRep o file 0 StatusOK b i [] TableProperties_new false BlockHandle_new).

Definition set_file (f : F) (s : Status) : cmd unit := modify (λ r,
  mkRep (r_options r) f (r_offset r) s (data_block r) (index_block_builder_ r) (last_key r) (props r) (closed r) (pending_handle r)).
Definition set_offset (o : Z) : cmd unit := modify (λ r,
  mkRep (r_options r) (r_file r) o (r_status r) (data_block r) (index_block_builder_ r) (last_key r) (props r) (closed r) (pending_handle r)).
Definition set_data_block (b : BlockBuilder) : cmd unit := modify (λ r,
  mkRep (r_options r) (r_file r) (r_offset r) (r_status r) b (index_block_builder_ r) (last_key r) (props r) (closed r) (pending_handle r)).
Definition set_index_builder (b : BlockBuilder) : cmd unit := modify (λ r,
  mkRep (r_options r) (r_file r) (r_offset r) (r_status r) (data_block r) b (last_key r) (props r) (closed r) (pending_handle r)).
Definition set_last_key (k : bytes) : cmd unit := modify (λ r,
  mkRep (r_options r) (r_file r) (r_offset r) (r_status r) (data_block r) (index_block_builder_ r) k (props r) (closed r) (pending_handle r)).
Definition set_props (p : TableProperties) : cmd unit := modify (λ r,
  mkRep (r_options r) (r_file r) (r_offset r) (r_status r) (data_block r) (index_block_builder_ r) (last_key r) p (closed r) (pending_handle r)).
Definition set_closed : cmd unit := modify (λ r,
  mkRep (r_options r) (r_file r) (r_offset r) (r_status r) (data_block r) (index_block_builder_ r) (last_key r) (props r) true (pending_handle r)).
Definition set_pending_handle (h : BlockHandle) : cmd unit := modify (λ r,
  mkRep (r_options r) (r_file r) (r_offset r) (r_status r) (data_block r) (index_block_builder_ r) (last_key r) (props r) (closed r) h).

(** [r->status = r->file->Append(data)] *)
Definition append (data : bytes) : cmd unit :=
  r ← gets id; let '(s, f) := file_Append data (r_file r) in set_file f s.

(** [trailer] after its type *)
Definition trailer_checksum (checksum : Z) (contents : bytes) (type : byte) : outcome Z :=
  if Z.eqb checksum kCRC32c then
    crc ← Value pl contents;
    crc ← Extend pl crc [type];
    Ok (Mask crc)
  else if Z.eqb checksum kxxHash then
    s ← XXH32_update (XXH32_init 0) contents (to_int32 (u32 (Z.of_nat (length contents))));
    s ← XXH32_update s [type] 1;
    XXH32_digest s
  else Err AssertFailed.

(** The handle of the block. *)
Definition WriteRawBlock (block_contents : bytes) (type : Z) : cmd BlockHandle :=
  r ← gets id;
  let handle := mkHandle (r_offset r) (Z.of_nat (length block_contents)) in
  append block_contents;;
  r ← gets id;
  if ok (r_status r) then
    sum ← lift (trailer_checksum (checksum (r_options r)) block_contents (byte.of_Z type));
    append (byte.of_Z type :: EncodeFixed32 sum);;
    r ← gets id;
    (if ok (r_status r) then set_offset (u64 (r_offset r + Z.of_nat (length block_contents) + kBlockTrailerSize)) else mret tt);;
    mret handle
  else mret handle.

Definition kCompressionSizeLimit : Z := 2 ^ 31 - 1.

(** [WriteBlock] of the contents of a block *)
Definition WriteBlock (raw_block_contents : bytes) : cmd BlockHandle :=
  r ← gets id;
  assert (ok (r_status r));;
  x ← lift (if Z.ltb (Z.of_nat (length raw_block_contents)) kCompressionSizeLimit
            then CompressBlock lib raw_block_contents compression_type (format_version (r_options r))
            else Ok (raw_block_contents, kNoCompression));
  WriteRawBlock (fst x) (snd x).

(** [ShortenedIndexBuilder::AddIndexEntry]; the last key of the block is replaced by the key
    of the entry. *)
Definition AddIndexEntry (first_key_in_next_block : option bytes) : cmd unit :=
  r ← gets id;
  key ← lift (match first_key_in_next_block with
              | Some next => InternalKeyComparator_FindShortestSeparator c (last_key r) next
              | None => InternalKeyComparator_FindShortSuccessor c (last_key r)
              end);
  set_last_key key;;
  handle_encoding ← lift (BlockHandle_EncodeTo (pending_handle r) []);
  x ← lift (BlockBuilder_Add key handle_encoding (index_block_builder_ r));
  set_index_builder (snd x).

Definition Flush : cmd unit :=
  r ← gets id;
  assert (negb (closed r));;
  if negb (ok (r_status r)) then mret tt else
  if BlockBuilder_empty (data_block r) then mret tt else
  x ← lift (Finish (data_block r));
  handle ← WriteBlock (fst x);
  set_pending_handle handle;;
  set_data_block (BlockBuilder_Reset (snd x));;
  r ← gets id;
  (if ok (r_status r) then let '(s, f) := file_Flush (r_file r) in set_file f s else mret tt);;
  r ← gets id;
  let p := props r in
  set_props (mkProps (r_offset r) (index_size p) (filter_size p) (raw_key_size p) (raw_value_size p) (u64 (num_data_blocks p + 1))
    (num_entries p) (props_format_version p) (fixed_key_len p) (filter_policy_name p) (user_collected_properties p)).

Definition TableBuilder_Add (key value : bytes) : cmd unit :=
  r ← gets id;
  assert (negb (closed r));;
  if negb (ok (r_status r)) then mret tt else
  (if Z.ltb 0 (num_entries (props r))
   then x ← lift (InternalKeyComparator_Compare c key (last_key r)); assert (Z.ltb 0 x) else mret tt);;
  (if Update (r_options r) (data_block r) key value then
     assert (negb (BlockBuilder_empty (data_block r)));;
     Flush;;
     r ← gets id;
     if ok (r_status r) then AddIndexEntry (Some key) else mret tt
   else mret tt);;
  set_last_key key;;
  r ← gets id;
  x ← lift (BlockBuilder_Add key value (data_block r));
  set_data_block (snd x);;
  let p := props r in
  set_props (mkProps (data_size p) (index_size p) (filter_size p) (u64 (raw_key_size p + Z.of_nat (length key)))
    (u64 (raw_value_size p + Z.of_nat (length value))) (num_data_blocks p) (u64 (num_entries p + 1)) (props_format_version p)
    (fixed_key_len p) (filter_policy_name p) (user_collected_properties p)).

(** The properties block and the metaindex block, which names it. *)
Definition WriteProperties : cmd BytewiseSortedMap :=
  r ← gets id;
  let p := props r in
  let p := mkProps (data_size p) (CurrentSizeEstimate (index_block_builder_ r) + kBlockTrailerSize) (filter_size p) (raw_key_size p)
    (raw_value_size p) (num_data_blocks p) (num_entries p) (props_format_version p) (fixed_key_len p) [] (user_collected_properties p) in
  set_props p;;
  m ← lift (AddTableProperty p []);
  let m := foldl (λ m kv, map_insert (fst kv) (snd kv) m) m (collected ++ collector_Finish (r_options r)) in
  contents ← lift (block_of_map m);
  properties_block_handle ← WriteRawBlock contents kNoCompression;
  handle_encoding ← lift (BlockHandle_EncodeTo properties_block_handle []);
  mret [(kPropertiesBlock, handle_encoding)].

Definition WriteFooter (metaindex_block_handle index_block_handle : BlockHandle) : cmd unit :=
  r ← gets id;
  let o := r_options r in
  let legacy := Z.eqb (format_version o) 0 in
  assert (Z.eqb (checksum o) kCRC32c || negb (Z.eqb (format_version o) 0));;
  footer ← lift (Footer_new (if legacy then kLegacyBlockBasedTableMagicNumber else kBlockBasedTableMagicNumber) (format_version o));
  let footer := mkFooter (f_version footer) (checksum o) metaindex_block_handle index_block_handle (table_magic_number_ footer) in
  footer_encoding ← lift (Footer_EncodeTo footer []);
  append footer_encoding;;
  r ← gets id;
  if ok (r_status r) then set_offset (u64 (r_offset r + Z.of_nat (length footer_encoding))) else mret tt.

Definition TableBuilder_Finish : cmd Status :=
  r ← gets id;
  let empty_data_block := BlockBuilder_empty (data_block r) in
  Flush;;
  r ← gets id;
  assert (negb (closed r));;
  set_closed;;
  (if ok (r_status r) && negb empty_data_block then AddIndexEntry None else mret tt);;
  r ← gets id;
  x ← lift (Finish (index_block_builder_ r));
  set_index_builder (snd x);;
  r ← gets id;
  meta_index ← (if ok (r_status r) then WriteProperties else mret []);
  r ← gets id;
  handles ← (if ok (r_status r) then
               contents ← lift (block_of_map meta_index);
               metaindex ← WriteRawBlock contents kNoCompression;
               index ← WriteBlock (fst x);
               mret (metaindex, index)
             else mret (BlockHandle_new, BlockHandle_new));
  r ← gets id;
  (if ok (r_status r) then WriteFooter (fst handles) (snd handles) else mret tt);;
  r ← gets id;
  mret (r_status r).

Definition Abandon : cmd unit := r ← gets id; assert (negb (closed r));; set_closed.
Definition NumEntries (r : Rep F) : Z := num_entries (props r).
Definition FileSize (r : Rep F) : Z := r_offset r.
End builder.

(** ** Reading a table *)

(** What [Block::NewIterator] makes when it is not given an iterator. *)
Abbreviation block_iterator := (BlockIter + EmptyIterator)%type.
Definition Block_NewIterator (b : Block) : outcome block_iterator :=
  if Z.ltb (size_ b) (2 * 4) then Ok (inr (mkEmptyIterator (Corruption "bad block contents"))) else
  n ← NumRestarts (contents_ b) (size_ b);
  if Z.eqb n 0 then Ok (inr (mkEmptyIterator StatusOK)) else
  r ← NewIterator b BlockIter_new;
  Ok (inl (snd r)).

Definition bytewise (a b : bytes) : outcome Z := Ok (Compare BytewiseComparator a b).

(** The operations of an iterator over a block with this comparator. *)
#[local] Instance bytewise_ops : IteratorOps block_iterator := sum_ops (H := BlockIter_ops bytewise).

Definition Incomplete (msg : string) : Status := Status_new kIncomplete (str msg) [].

Record ReadOptions := mkReadOptions { verify_checksums : bool; no_io : bool (** [read_tier == kBlockCacheTier] *) }.
Definition ReadOptions_new : ReadOptions := mkReadOptions true false.

Section reader.
Context (pl : platform) (lib : compression_library) (c : UserComparator) {F : Type} `{RandomAccessFile F}.

(** Opened without properties if they cannot be read. *)
Record BlockBasedTable := mkTable {
  t_file : F; t_footer : Footer; t_properties : option TableProperties; t_index : option Block;
  t_whole_key_filtering : bool; t_prefix_filtering : bool;
}.

Definition ReadBlockFromFile (file : F) (footer : Footer) (ro : ReadOptions) (handle : BlockHandle) : outcome (Status * option Block) :=
  r ← ReadBlockContents pl lib file footer (verify_checksums ro) handle true;
  if ok (fst r) then b ← Block_new (fst (snd r)); Ok (fst r, Some b) else Ok (fst r, None).

(** The metaindex block, with an iterator over it. *)
Definition ReadMetaBlock (file : F) (footer : Footer) : outcome (Status * option (Block * block_iterator)) :=
  r ← ReadBlockFromFile file footer ReadOptions_new (metaindex_handle_ footer);
  match r with
  | (s, Some b) => it ← Block_NewIterator b; Ok (StatusOK, Some (b, it))
  | (s, None) => Ok (s, None)
  end.

(** [!meta_iter->Valid() || meta_iter->key() != name] *)
Definition not_at (name : bytes) (it : block_iterator) : outcome bool :=
  if iter_Valid it then k ← iter_key it; Ok (negb (bool_decide (k = name))) else Ok true.

Definition SeekToPropertiesBlock (it : block_iterator) : outcome (Status * bool * block_iterator) :=
  r ← iter_Seek kPropertiesBlock it;
  let it := snd r in
  x ← not_at kPropertiesBlock it;
  if ok (iter_status it) && x then
    r ← iter_Seek kPropertiesBlockOldName it;
    let it := snd r in
    x ← not_at kPropertiesBlockOldName it;
    Ok (iter_status it, negb (ok (iter_status it) && x), it)
  else Ok (iter_status it, true, it).

(** [predefined_uint64_properties] *)
Definition set_number (key : bytes) (v : Z) (p : TableProperties) : option TableProperties :=
  let '(mkProps d i f rk rv nb ne fv fk fp u) := p in
  if bool_decide (key = kDataSize) then Some (mkProps v i f rk rv nb ne fv fk fp u) else
  if bool_decide (key = kIndexSize) then Some (mkProps d v f rk rv nb ne fv fk fp u) else
  if bool_decide (key = kFilterSize) then Some (mkProps d i v rk rv nb ne fv fk fp u) else
  if bool_decide (key = kRawKeySize) then Some (mkProps d i f v rv nb ne fv fk fp u) else
  if bool_decide (key = kRawValueSize) then Some (mkProps d i f rk v nb ne fv fk fp u) else
  if bool_decide (key = kNumDataBlocks) then Some (mkProps d i f rk rv v ne fv fk fp u) else
  if bool_decide (key = kNumEntries) then Some (mkProps d i f rk rv nb v fv fk fp u) else
  if bool_decide (key = kFormatVersion) then Some (mkProps d i f rk rv nb ne v fk fp u) else
  if bool_decide (key = kFixedKeyLen) then Some (mkProps d i f rk rv nb ne fv v fp u) else None.

(** One property; a number that cannot be read is left out. *)
Definition read_property (key raw_val : bytes) (p : TableProperties) : TableProperties :=
  match set_number key 0 p with
  | Some _ => match GetVarint64 raw_val with (Some v, _) => default p (set_number key v p) | (None, _) => p end
  | None =>
      let '(mkProps d i f rk rv nb ne fv fk fp u) := p in
      if bool_decide (key = kFilterPolicy) then mkProps d i f rk rv nb ne fv fk raw_val u
      else mkProps d i f rk rv nb ne fv fk fp (if decide (key ∈ fst <$> u) then u else u ++ [(key, raw_val)])
  end.

(** [for (iter->SeekToFirst(); iter->Valid(); iter->Next())]; every turn reads an entry. *)
Fixpoint property_loop (fuel : nat) (it : block_iterator) (last_key : bytes) (p : TableProperties) : outcome (Status * TableProperties) :=
  if negb (iter_Valid it) then Ok (StatusOK, p) else
  match fuel with
  | O => Err OutOfFuel
  | S fuel =>
      if negb (ok (iter_status it)) then Ok (iter_status it, p) else
      key ← iter_key it;
      if negb (bool_decide (last_key = [])) && negb (Z.ltb 0 (Compare BytewiseComparator key last_key)) then Err AssertFailed else
      raw_val ← iter_value it;
      r ← iter_Next it;
      property_loop fuel (snd r) key (read_property key raw_val p)
  end.

Definition ReadProperties (handle_value : bytes) (file : F) (footer : Footer) : outcome (Status * option TableProperties) :=
  let '(s, handle, _) := BlockHandle_DecodeFrom BlockHandle_new handle_value in
  if negb (ok s) then Ok (InvalidArgument "Failed to decode properties block handle", None) else
  r ← ReadBlockContents pl lib file footer false handle false;
  if negb (ok (fst r)) then Ok (fst r, None) else
  let contents := fst (snd r) in
  b ← Block_new contents;
  it ← Block_NewIterator b;
  x ← iter_SeekToFirst it;
  r ← property_loop (S (length contents)) (snd x) [] TableProperties_new;
  Ok (fst r, if ok (fst r) then Some (snd r) else None).

(** True if the property has this value or is not there. *)
Definition IsFeatureSupported (p : TableProperties) (name : bytes) : bool :=
  match list_find (λ kv, fst kv = name) (user_collected_properties p) with
  | Some (_, kv) => negb (bool_decide (snd kv = kPropFalse))
  | None => true
  end.

(** [BinarySearchIndexReader::Create] *)
Definition CreateBinarySearchIndex (file : F) (footer : Footer) : outcome (Status * option Block) :=
  ReadBlockFromFile file footer ReadOptions_new (index_handle_ footer).

(** There is no prefix extractor, so a hash index is read as a binary-search one. *)
Definition CreateIndexReader (file : F) (footer : Footer) (p : option TableProperties) : outcome (Status * option Block) :=
  index_type_on_file ←
    (match p with
     | Some p => match list_find (λ kv, fst kv = kIndexType) (user_collected_properties p) with
                 | Some (_, kv) => DecodeFixed32 (snd kv)
                 | None => Ok kBinarySearch
                 end
     | None => Ok kBinarySearch
     end);
  let index_type_on_file := if Z.eqb index_type_on_file kHashSearch then kBinarySearch else index_type_on_file in
  if Z.eqb index_type_on_file kBinarySearch then CreateBinarySearchIndex file footer
  else Ok (InvalidArgument "Unrecognized index type: 0", None).

(** The properties of the table, if they can be read. *)
Definition read_table_properties (file : F) (footer : Footer) (meta_iter : block_iterator) : outcome (Status * option TableProperties) :=
  r ← SeekToPropertiesBlock meta_iter;
  let '(s, found_properties_block, meta_iter) := r in
  if negb (ok s) then Ok (s, None) else
  if found_properties_block : bool then
    let s := iter_status meta_iter in
    if ok s then v ← iter_value meta_iter; ReadProperties v file footer else Ok (s, None)
  else Ok (s, None).

Definition BlockBasedTable_Open (o : BlockBasedTableOptions) (file : F) (file_size : Z) (prefetch_index_and_filter : bool)
    : outcome (Status * option BlockBasedTable) :=
  footer ← Footer_new 0 0;
  r ← ReadFooterFromFile file file_size footer kBlockBasedTableMagicNumber;
  let '(s, footer) := r in
  if negb (ok s) then Ok (s, None) else
  if negb (BlockBasedTableSupportedVersion (f_version footer))
  then Ok (Corruption "Unknown Footer version. Maybe this file was created with newer version of RocksDB?", None) else
  r ← ReadMetaBlock file footer;
  match r with
  | (s, None) => Ok (s, None)
  | (_, Some (_, meta_iter)) =>
      x ← read_table_properties file footer meta_iter;
      let p := snd x in
      let whole := match p with Some p => whole_key_filtering o && IsFeatureSupported p kWholeKeyFiltering | None => whole_key_filtering o end in
      let prefix := match p with Some p => IsFeatureSupported p kPrefixFiltering | None => true end in
      if prefetch_index_and_filter then
        r ← CreateIndexReader file footer p;
        Ok (if ok (fst r) then (fst r, Some (mkTable file footer p (snd r) whole prefix)) else (fst r, None))
      else Ok (if ok (fst x) then (fst x, Some (mkTable file footer p None whole prefix)) else (fst x, None))
  end.

(** Without a cache there must be an index reader. *)
Definition NewIndexIterator (t : BlockBasedTable) : outcome block_iterator :=
  match t_index t with Some b => Block_NewIterator b | None => Err AssertFailed end.

(** The block of a handle. *)
Definition read_data_block (t : BlockBasedTable) (ro : ReadOptions) (index_value : bytes) : outcome (Status * option Block) :=
  let '(s, handle, _) := BlockHandle_DecodeFrom BlockHandle_new index_value in
  if negb (ok s) then Ok (s, None) else
  if no_io ro then Ok (Incomplete "no blocking io", None) else
  ReadBlockFromFile (t_file t) (t_footer t) ro handle.

Definition NewDataBlockIterator (t : BlockBasedTable) (ro : ReadOptions) (index_value : bytes) : outcome block_iterator :=
  r ← read_data_block t ro index_value;
  match r with
  | (_, Some b) => Block_NewIterator b
  | (s, None) => Ok (inr (mkEmptyIterator s))
  end.

(** [BlockEntryIteratorState], with no prefix extractor *)
Definition BlockEntryIteratorState (t : BlockBasedTable) (ro : ReadOptions) : TwoLevelIteratorState block_iterator :=
  mkTwoLevelState false (λ _, Ok true) (NewDataBlockIterator t ro).

Definition BlockBasedTable_NewIterator (t : BlockBasedTable) (ro : ReadOptions) : outcome (TwoLevelIterator block_iterator block_iterator) :=
  it ← NewIndexIterator t;
  NewTwoLevelIterator (H := sum_ops (H := BlockIter_ops (InternalKeyComparator_Compare c))) it.
End reader.
Arguments BlockBasedTable F : clear implicits.
Arguments mkTable {F}.
Arguments t_file {F}.
Arguments t_footer {F}.
Arguments t_properties {F}.
Arguments t_index {F}.

(** ** Looking a key up *)

Module Get.

Inductive GetState := kNotFound | kFound | kDeleted | kCorrupt | kMerge.

(** [merge_context_] is null or has operands. *)
Record GetContext := mkGet {
  gc_state : GetState; gc_user_key : bytes; gc_value : bytes; gc_value_found : option bool; merge_context_ : option (list bytes);
}.

#[export] Instance GetState_eq_dec : EqDecision GetState.
Proof. solve_decision. Defined.

Definition MarkKeyMayExist (g : GetContext) : GetContext :=
  mkGet kFound (gc_user_key g) (gc_value g) (match gc_value_found g with Some _ => Some false | None => None end) (merge_context_ g).

Section get_context.
Context (ucmp_ : UserComparator) (merge_operator_ : option (bytes → option bytes → list bytes → bool * bytes)).

(** [FullMerge] into the value; without an operator [e] happens. *)
Definition merge_value (e : fault) (existing : option bytes) (g : GetContext) : outcome GetContext :=
  FullMerge ← of_option e merge_operator_;
  let '(merge_success, value) := FullMerge (gc_user_key g) existing (default [] (merge_context_ g)) in
  Ok (mkGet (if merge_success : bool then kFound else kCorrupt) (gc_user_key g) value (gc_value_found g) (merge_context_ g)).

(** [GetContext::SaveValue]: whether to go on, and the context afterwards. *)
Definition GetContext_SaveValue (parsed_key : ParsedInternalKey) (value : bytes) (g : GetContext) : outcome (bool * GetContext) :=
  let '(mkGet state_ user_key_ value_ value_found_ merge_context) := g in
  if negb (negb (bool_decide (state_ = kMerge)) && negb (Z.eqb (type parsed_key) kTypeMerge) || bool_decide (is_Some merge_context)) then Err AssertFailed else
  if Z.eqb (Compare ucmp_ (user_key parsed_key) user_key_) 0 then
    if Z.eqb (type parsed_key) kTypeValue then
      match state_ with
      | kNotFound => Ok (false, mkGet kFound user_key_ value value_found_ merge_context)
      | kMerge => g ← merge_value AssertFailed (Some value) g; Ok (false, g)
      | _ => Err AssertFailed
      end
    else if Z.eqb (type parsed_key) kTypeDeletion then
      match state_ with
      | kNotFound => Ok (false, mkGet kDeleted user_key_ value_ value_found_ merge_context)
      | kMerge => g ← merge_value NullDeref None g; Ok (false, g)
      | _ => Err AssertFailed
      end
    else if Z.eqb (type parsed_key) kTypeMerge then
      match state_ with
      | kNotFound | kMerge =>
          ops ← of_option NullDeref merge_context;
          Ok (true, mkGet kMerge user_key_ value_ value_found_ (Some (value :: ops)))
      | _ => Err AssertFailed
      end
    else Err AssertFailed
  else Ok (false, g).

Section lookup.
Context (pl : platform) (lib : compression_library) {F : Type} `{RandomAccessFile F}.
Abbreviation cmp := (InternalKeyComparator_Compare ucmp_).
#[local] Instance block_ops : IteratorOps BlockIter := BlockIter_ops cmp.

(** [NewIndexIterator] and [NewDataBlockIterator] with an iterator they set up. *)
Definition set_index_iterator (t : BlockBasedTable F) : outcome BlockIter :=
  b ← of_option AssertFailed (t_index t); r ← NewIterator b BlockIter_new; Ok (snd r).

Definition set_data_iterator (t : BlockBasedTable F) (ro : ReadOptions) (index_value : bytes) : outcome BlockIter :=
  r ← read_data_block pl lib t ro index_value;
  x ← match r with (_, Some b) => NewIterator b BlockIter_new | (s, None) => SetStatus s BlockIter_new end;
  Ok (snd x).

(** The entries of a block: whether the lookup is done.  A key that cannot be parsed only sets
    a status that is overwritten after the loop. *)
Fixpoint block_loop (fuel : nat) (biter : BlockIter) (g : GetContext) : outcome (bool * BlockIter * GetContext) :=
  if negb (iter_Valid biter) then Ok (false, biter, g) else
  match fuel with
  | O => Err OutOfFuel
  | S fuel =>
      k ← iter_key biter;
      x ← ParseInternalKey k;
      parsed_key ← of_option OutOfBounds (snd x);
      v ← iter_value biter;
      r ← GetContext_SaveValue parsed_key v g;
      if fst r : bool then y ← iter_Next biter; block_loop fuel (snd y) (snd r) else Ok (true, biter, snd r)
  end.

(** Every turn is an entry of the block. *)
Definition entries_bound (it : BlockIter) : nat := length (default [] (data_ it)).

(** The blocks from where the index iterator stands. *)
Fixpoint index_loop (fuel : nat) (t : BlockBasedTable F) (ro : ReadOptions) (key : bytes) (done : bool) (s : Status) (iiter : BlockIter) (g : GetContext)
    : outcome (Status * BlockIter * GetContext) :=
  if iter_Valid iiter && negb done then
    match fuel with
    | O => Err OutOfFuel
    | S fuel =>
        handle_value ← iter_value iiter;
        biter ← set_data_iterator t ro handle_value;
        if no_io ro && IsIncomplete (iter_status biter) then Ok (s, iiter, MarkKeyMayExist g) else
        if negb (ok (iter_status biter)) then Ok (iter_status biter, iiter, g) else
        x ← iter_Seek key biter;
        y ← block_loop (entries_bound (snd x)) (snd x) g;
        let '(done, biter, g) := y in
        z ← iter_Next iiter;
        index_loop fuel t ro key done (iter_status biter) (snd z) g
    end
  else Ok (s, iiter, g).

(** [BlockBasedTable::Get] *)
Definition BlockBasedTable_Get (t : BlockBasedTable F) (ro : ReadOptions) (key : bytes) (g : GetContext) : outcome (Status * GetContext) :=
  iiter ← set_index_iterator t;
  x ← iter_Seek key iiter;
  y ← index_loop (entries_bound (snd x)) t ro key false StatusOK (snd x) g;
  let '(s, iiter, g) := y in
  Ok (if ok s then iter_status iiter else s, g).
End lookup.
End get_context.
End Get.
