(* ===== verification/TableSpec.v ===== *)
(** * RocksDB: building a table file

    The builder writes blocks one after the other ([written]); each can be read back through
    its handle.  [adding] is what holds between two calls of [Add]: the blocks in the file, an
    index whose keys separate them, and the entries of the block that is not yet written. *)

From S2P Require Import Prelude Varint BaseUint Coding CrcTables Crc32c Env XxHash DbFormat DbFormatLaws SkipListLaws Iterator Block BlockSpec TwoLevel TableFormat Table.
From stdpp Require Import sorting.

(** ** Block builders *)

(** The builder was given [kvs]. *)
Definition given (interval : Z) (b : BlockBuilder) (kvs : list (bytes * bytes)) : Prop :=
  ∃ es ps, building interval b es ps ∧ pair_of <$> es = kvs ∧ length (bytes_of es) + 4 * length ps ≤ total_cost kvs + 4.

(** The bytes of a block with these entries. *)
Definition block_with (data : bytes) (kvs : list (bytes * bytes)) : Prop := ∃ es ps, block_of data es ps ∧ pair_of <$> es = kvs.

Lemma total_cost_app l1 l2 : total_cost (l1 ++ l2) = total_cost l1 + total_cost l2.
Proof. apply sum_list_with_app. Qed.

Lemma given_new interval : (1 ≤ interval)%Z → ∃ b, BlockBuilder_new interval = Ok b ∧ given interval b [].
Proof. intros Hi. destruct (new_building interval Hi) as (b & E & Hb). exists b. split; [done|]. by exists [], [0]. Qed.

Lemma given_Reset interval b kvs : given interval b kvs → given interval (BlockBuilder_Reset b) [].
Proof.
  intros (es & ps & [Hi _ _ _ _ _ _ (p & _ & _ & Hc & Hle)] & _). exists [], [0]. split_and!; [|done|done].
  split; [done..| | |]; [by intros [] ?| |exists 0; cbn; split_and!; (done || lia)].
  split; [done|intros i j x y ? Hx Hy; destruct j; [lia|done]|]. intros [|i] x Hx; [cbn in Hx; simplify_eq; by left|done].
Qed.

Lemma given_Add interval b kvs k v : (1 ≤ interval)%Z → given interval b kvs → fits (kvs ++ [(k, v)]) →
  ∃ b', BlockBuilder_Add k v b = Ok (tt, b') ∧ given interval b' (kvs ++ [(k, v)]).
Proof.
  intros Hi (es & ps & Hb & <- & Hsz) Hf. unfold fits in Hf. rewrite total_cost_app in Hf. cbn in Hf. unfold cost in Hf. cbn in Hf.
  destruct (run_Add interval b es ps k v Hi Hb) as (b' & e & ps' & E & <- & <- & Hb' & _ & Hsz'); [lia|].
  exists b'. split; [done|]. exists (es ++ [e]), ps'. split_and!; [done|by rewrite fmap_app|].
  rewrite bytes_of_snoc, length_app, total_cost_app. cbn [total_cost sum_list_with]. unfold pair_of in *. lia.
Qed.

Lemma given_Finish interval b kvs : given interval b kvs → fits kvs →
  ∃ data b', Finish b = Ok (data, b') ∧ block_with data kvs ∧ length data ≤ total_cost kvs + 8 ∧ BlockBuilder_Reset b' = BlockBuilder_Reset b.
Proof.
  intros (es & ps & Hb & <- & Hsz) Hf. unfold fits in Hf.
  destruct (run_Finish interval b es ps Hb) as (data & b' & E & B & Hl); [lia|]. exists data, b'. split_and!; [done|by exists es, ps| |].
  - unfold CurrentSizeEstimate in Hl. destruct Hb as [_ Hbuf Hrs _ _ _ _ _]. rewrite Hbuf, Hrs, length_fmap in Hl. lia.
  - unfold Finish in E. cbn in E. by injection E as <- <-.
Qed.

Lemma given_empty interval b kvs : given interval b kvs → BlockBuilder_empty b = bool_decide (kvs = []).
Proof.
  intros (es & ps & [_ Hbuf _ _ _ _ _ _] & <- & _). unfold BlockBuilder_empty. rewrite Hbuf. destruct es as [|e es]; [done|].
  cbn. pose proof (entry_length e). destruct (entry_bytes e); [cbn in *; lia|]. done.
Qed.

(** The builder of a whole block at once. *)
Lemma run_block_of_map m : fits m → ∃ data, block_of_map m = Ok data ∧ block_with data m ∧ length data ≤ total_cost m + 8.
Proof.
  intros Hf. unfold block_of_map. destruct (new_building 1 ltac:(lia)) as (b0 & -> & H0). mred.
  destruct (run_add_all 1 m b0 ltac:(lia) Hf H0) as (b & es & ps & E & Hb & Hes & Hsz). rewrite (bind_Ok _ _ _ _ _ E).
  destruct (given_Finish 1 b m) as (data & b' & Ef & Hd & Hl & _); [by exists es, ps|done|]. rewrite Ef. mred. by exists data.
Qed.

(** ** Blocks in the file *)

Record written := mkWritten { w_kvs : list (bytes * bytes); w_raw : bytes; w_contents : bytes; w_type : Z; w_trailer : bytes }.

Definition file_bytes (ws : list written) : bytes := mjoin ((λ w, w_contents w ++ w_trailer w) <$> ws).
Definition handle_at (ws : list written) (w : written) : BlockHandle :=
  mkHandle (Z.of_nat (length (file_bytes ws))) (Z.of_nat (length (w_contents w))).

Lemma file_bytes_app ws ws' : file_bytes (ws ++ ws') = file_bytes ws ++ file_bytes ws'.
Proof. unfold file_bytes. by rewrite fmap_app, join_app. Qed.

Lemma file_bytes_one w : file_bytes [w] = w_contents w ++ w_trailer w.
Proof. unfold file_bytes. cbn. by rewrite app_nil_r. Qed.

Lemma XXH_avalanche_u32 h : is_u32 (XXH_avalanche h).
Proof.
  assert (∀ x n, is_u32 x → (0 ≤ n)%Z → is_u32 (Z.shiftr x n)) as Hs.
  { intros x n Hx Hn. rewrite Z.shiftr_div_pow2 by done. pose proof (Z.pow_pos_nonneg 2 n ltac:(lia) Hn).
    split; [apply Z.div_pos; lia|]. apply Z.div_lt_upper_bound; nia. }
  unfold XXH_avalanche. apply lxor_bound; [lia|..].
  - apply Z.mod_pos_bound. lia.
  - apply Hs; [|lia]. apply Z.mod_pos_bound. lia.
Qed.

Section writing.
Context (pl : platform) (Hpl : platform_ok pl) (lib : compression_library) (Hlib : compression_ok lib).

Lemma run_trailer ck data type : ck = kCRC32c ∨ ck = kxxHash → (Z.of_nat (length data) < 2 ^ 31 - 1)%Z →
  ∃ sum, trailer_checksum pl ck data (byte.of_Z type) = Ok sum ∧ sealed ck data type (byte.of_Z type :: EncodeFixed32 sum).
Proof.
  intros [->| ->] Hl; unfold trailer_checksum; cbn [Z.eqb Pos.eqb kCRC32c kxxHash].
  - unfold Value. rewrite Extend_crc32c by (done || lia). mred. rewrite Extend_crc32c; [|done|by apply crc32c_u32|cbn; lia]. mred.
    eexists. split; [done|]. eexists. split_and!; [done|apply Mask_u32..|]. left. by rewrite crc32c_app.
  - rewrite Z.mod_small, to_int32_small by lia.
    destruct (run_update 0 [] _ data (init_absorbed 0)) as (s1 & E1 & H1); [cbn; lia|]. rewrite E1. mred.
    destruct (run_update 0 _ s1 [byte.of_Z type] H1) as (s2 & E2 & H2); [rewrite length_app; cbn; lia|].
    change (Z.of_nat (length [byte.of_Z type])) with 1%Z in E2. rewrite E2. mred.
    destruct (run_digest 0 _ s2 H2) as (h & Ed & Ex). rewrite Ed. exists h. split; [done|]. exists h. split_and!; [done|..].
    1,2: unfold XXH32_digest, XXH_tail in Ed; destruct (word_loop _ _ _) as [r|]; [|done]; cbn in Ed; injection Ed as <-; apply XXH_avalanche_u32.
    right. split; [done|]. rewrite app_nil_l, length_app in Ex. done.
Qed.

Context (c : UserComparator) `{!UserComparatorLaws c} (compression : Z) (Hcomp : compression_type compression).
Context {F : Type} `{WritableFileLaws F}.
Implicit Types (r : Rep F).

(** The file has grown by [d], and nothing else has changed. *)
Definition grown r (d : bytes) r' : Prop := ∃ f,
  contents f = contents (r_file r) ++ d ∧
  r' = mkRep (r_options r) f (r_offset r + Z.of_nat (length d)) StatusOK (data_block r) (index_block_builder_ r) (last_key r)
    (props r) (closed r) (pending_handle r).

Lemma run_append d r : r_status r = StatusOK →
  ∃ f, append d r = Ok (tt, mkRep (r_options r) f (r_offset r) StatusOK (data_block r) (index_block_builder_ r) (last_key r) (props r) (closed r)
    (pending_handle r)) ∧ contents f = contents (r_file r) ++ d.
Proof.
  intros Hs. unfold append. rewrite (bind_Ok _ _ r r r) by done. destruct (Append_contents d (r_file r)) as (f & -> & Hf). by exists f.
Qed.

Lemma run_WriteRawBlock d type r : r_status r = StatusOK → checksum (r_options r) = kCRC32c ∨ checksum (r_options r) = kxxHash →
  (Z.of_nat (length d) < 2 ^ 31 - 1)%Z → (0 ≤ r_offset r < 2 ^ 63)%Z →
  ∃ trailer r', WriteRawBlock pl d type r = Ok (mkHandle (r_offset r) (Z.of_nat (length d)), r') ∧
    sealed (checksum (r_options r)) d type trailer ∧ grown r (d ++ trailer) r'.
Proof.
  intros Hs Hck Hl Ho. unfold WriteRawBlock. rewrite (bind_Ok _ _ r r r) by done. cbv zeta.
  destruct (run_append d r Hs) as (f1 & E1 & Hf1). rewrite (bind_Ok _ _ _ _ _ E1). set (r1 := mkRep _ f1 _ _ _ _ _ _ _ _).
  rewrite (bind_Ok _ _ r1 r1 r1) by done. change (ok (r_status r1)) with true. cbn iota. change (r_options r1) with (r_options r).
  destruct (run_trailer (checksum (r_options r)) d type Hck Hl) as (sum & Esum & Hseal).
  rewrite (bind_Ok _ _ r1 sum r1) by (by apply lift_Ok). set (trailer := byte.of_Z type :: EncodeFixed32 sum).
  destruct (run_append trailer r1 eq_refl) as (f2 & E2 & Hf2). rewrite (bind_Ok _ _ _ _ _ E2). set (r2 := mkRep _ f2 _ _ _ _ _ _ _ _).
  rewrite (bind_Ok _ _ r2 r2 r2) by done. change (ok (r_status r2)) with true. cbn iota.
  pose proof (length_sealed _ _ _ _ Hseal) as Ht. exists trailer. eexists. split; [reflexivity|]. split; [done|]. exists f2. split.
  - change (contents f2 = contents f1 ++ trailer) in Hf2. by rewrite Hf2, Hf1, <-app_assoc.
  - unfold set_offset, modify. cbn. f_equal. rewrite Z.mod_small; rewrite ?length_app; unfold kBlockTrailerSize; fold trailer in Ht; lia.
Qed.

Lemma run_WriteBlock raw r : r_status r = StatusOK → checksum (r_options r) = kCRC32c ∨ checksum (r_options r) = kxxHash →
  (Z.of_nat (length raw) < 2 ^ 31 - 1)%Z → (0 ≤ r_offset r < 2 ^ 63)%Z →
  ∃ d type trailer r', WriteBlock pl lib compression raw r = Ok (mkHandle (r_offset r) (Z.of_nat (length d)), r') ∧
    stands_for lib (format_version (r_options r)) raw d type ∧ sealed (checksum (r_options r)) d type trailer ∧ grown r (d ++ trailer) r'.
Proof.
  intros Hs Hck Hl Ho. unfold WriteBlock. rewrite (bind_Ok _ _ r r r) by done. rewrite (bind_Ok _ _ r tt r) by (apply assert_true; by rewrite Hs).
  rewrite (proj2 (Z.ltb_lt _ _)) by (unfold kCompressionSizeLimit; lia).
  destruct (compress_back lib Hlib raw compression (format_version (r_options r)) Hcomp) as (d & type & E & Hst).
  rewrite (bind_Ok _ _ r (d, type) r) by (by apply lift_Ok). cbn [fst snd].
  destruct (run_WriteRawBlock d type r Hs Hck) as (trailer & r' & E' & Hseal & Hg); [|done|].
  { destruct Hst as [_ [[_ ->]|(_ & ? & _)]]; lia. }
  by exists d, type, trailer, r'.
Qed.
End writing.

(** ** What the builder has *)

(** Reads the fields of a record. *)
Ltac rep := cbn [r_options r_file r_offset r_status data_block index_block_builder_ last_key props closed pending_handle].

Abbreviation entries := (list (bytes * bytes)).

(** The entries of the blocks in the file. *)
Definition flushed (ws : list written) : entries := mjoin (w_kvs <$> ws).

Lemma flushed_app ws ws' : flushed (ws ++ ws') = flushed ws ++ flushed ws'.
Proof. unfold flushed. by rewrite fmap_app, join_app. Qed.

Lemma flushed_one w : flushed [w] = w_kvs w.
Proof. unfold flushed. cbn. by rewrite app_nil_r. Qed.

Section table.
Context (pl : platform) (Hpl : platform_ok pl) (lib : compression_library) (Hlib : compression_ok lib).
Context (c : UserComparator) `{!UserComparatorLaws c} (compression : Z) (Hcomp : compression_type compression) (collected : entries).
Context {F : Type} `{WritableFileLaws F}.
Implicit Types (r : Rep F) (o : BlockBasedTableOptions).
Abbreviation less a b := (internal_order c a b < 0)%Z.
Abbreviation cmp := (InternalKeyComparator_Compare c).

(** A block that can be read back. *)
Record stored_block o (w : written) : Prop := {
  sb_block : block_with (w_raw w) (w_kvs w);
  sb_stands : stands_for lib (format_version o) (w_raw w) (w_contents w) (w_type w);
  sb_sealed : sealed (checksum o) (w_contents w) (w_type w) (w_trailer w);
  sb_size : (Z.of_nat (length (w_raw w)) < 2 ^ 31 - 1)%Z;
}.

(** Every key of the index lies between the blocks up to its own and the entries after it. *)
Definition fences (ix : entries) (ws : list written) (cur : entries) : Prop :=
  ∀ j k h, ix !! j = Some (k, h) → is_internal k ∧
    (∀ kv, kv ∈ flushed (take (S j) ws) → ¬ less k (fst kv)) ∧ (∀ kv, kv ∈ flushed (drop (S j) ws) ++ cur → less k (fst kv)).

Definition handles (ix : entries) (ws : list written) : Prop :=
  ∀ j k h, ix !! j = Some (k, h) → ∃ w, ws !! j = Some w ∧ h = handle_bytes (handle_at (take j ws) w).

Record builder_ok o r ws ix cur : Prop := {
  tb_options : r_options r = o;
  tb_file : contents (r_file r) = file_bytes ws;
  tb_offset : r_offset r = Z.of_nat (length (file_bytes ws));
  tb_status : r_status r = StatusOK;
  tb_blocks : Forall (stored_block o) ws;
  tb_nonempty : Forall (λ w, w_kvs w ≠ []) ws;
  tb_data : given (block_restart_interval o) (data_block r) cur;
  tb_index : given 1 (index_block_builder_ r) ix;
  tb_handles : handles ix ws;
  tb_fences : fences ix ws cur;
  tb_file_size : length (file_bytes ws) ≤ 2 * total_cost (flushed ws);
  tb_index_size : total_cost ix ≤ 3 * total_cost (flushed (take (length ix) ws));
}.

(** The options a table is written with. *)
Definition options_ok o : Prop :=
  (1 ≤ block_restart_interval o)%Z ∧ (checksum o = kCRC32c ∨ checksum o = kxxHash) ∧ (0 ≤ format_version o ≤ 2)%Z ∧
  (format_version o = 0 → checksum o = kCRC32c)%Z.

(** Few enough entries for 32-bit offsets. *)
Definition table_fits (kvs : entries) : Prop := (Z.of_nat (4 * (total_cost kvs + total_cost collected)) + 4096 < 2 ^ 31)%Z.

Lemma table_fits_app l1 l2 : table_fits (l1 ++ l2) → table_fits l1 ∧ table_fits l2.
Proof. unfold table_fits. rewrite total_cost_app. lia. Qed.

Lemma table_fits_fits kvs : table_fits kvs → fits kvs.
Proof. unfold table_fits, fits. lia. Qed.

(** *** Flushing a block *)

Lemma fences_flush ix ws w : length ix ≤ length ws → fences ix ws (w_kvs w) → fences ix (ws ++ [w]) [].
Proof.
  intros Hl Hf j k h Hj. destruct (Hf j k h Hj) as (Hk & Hlast & Hnext). apply lookup_lt_Some in Hj. split_and!; [done|..].
  - intros kv. rewrite take_app_le by lia. apply Hlast.
  - intros kv. rewrite drop_app_le, flushed_app, flushed_one, app_nil_r by lia. apply Hnext.
Qed.

Lemma handles_app ix ws ws' : handles ix ws → handles ix (ws ++ ws').
Proof.
  intros Hh j k h Hj. destruct (Hh j k h Hj) as (w & Hw & ->). exists w. pose proof (lookup_lt_Some _ _ _ Hw).
  rewrite lookup_app_l, take_app_le by lia. done.
Qed.

Lemma total_cost_nonempty kvs : kvs ≠ [] → 19 ≤ total_cost kvs.
Proof. destruct kvs as [|kv kvs]; [done|]. intros _. unfold total_cost. cbn. unfold cost. lia. Qed.

Lemma run_Flush o r ws ix cur : options_ok o → builder_ok o r ws ix cur → closed r = false → length ix ≤ length ws → cur ≠ [] → table_fits (flushed ws ++ cur) →
  ∃ w r', Flush pl lib compression r = Ok (tt, r') ∧ w_kvs w = cur ∧ builder_ok o r' (ws ++ [w]) ix [] ∧
    pending_handle r' = handle_at ws w ∧ last_key r' = last_key r ∧ num_entries (props r') = num_entries (props r) ∧ closed r' = false.
Proof.
  intros (Hint & Hck & _) Hb Hopen Hix Hcur Hf. pose proof (table_fits_app _ _ Hf) as [Hf1 Hf2]. destruct Hb.
  pose proof (total_cost_nonempty _ Hcur). unfold table_fits in Hf, Hf1. rewrite total_cost_app in Hf.
  unfold Flush. rewrite (bind_Ok _ _ r r r) by done. rewrite (bind_Ok _ _ r tt r) by (apply assert_true; by rewrite Hopen).
  rewrite tb_status0, (given_empty _ _ _ tb_data0), bool_decide_false by done. change (negb (ok StatusOK)) with false. cbn iota.
  destruct (given_Finish _ _ _ tb_data0 (table_fits_fits _ Hf2)) as (data & b' & Efin & Hd & Hdl & Hreset).
  rewrite (bind_Ok _ _ r (data, b') r) by (by apply lift_Ok). cbn [fst snd].
  destruct (run_WriteBlock pl Hpl lib Hlib compression Hcomp data r tb_status0) as (d & type & trailer & r1 & Ew & Hst & Hseal & f1 & Hf1' & ->);
    [by rewrite tb_options0|lia|lia|].
  rewrite (bind_Ok _ _ _ _ _ Ew). rewrite tb_options0 in Hst, Hseal.
  set (w := mkWritten cur data d type trailer). set (h := mkHandle (r_offset r) (Z.of_nat (length d))).
  destruct (Flush_contents f1) as (f & Ef & Hf'). exists w. eexists. split.
  { unfold set_pending_handle, set_data_block, set_props, gets, modify, mbind, prog_bind. cbn. rewrite Ef. cbn. reflexivity. }
  split; [done|]. split; [|cbn; split_and!; [unfold h, handle_at; by rewrite tb_offset0|done..]]. pose proof (length_sealed _ _ _ _ Hseal) as Htl.
  assert (length d ≤ length data) as Hdd by (destruct Hst as [_ [[_ ->]|(_ & ? & _)]]; lia).
  split; cbn; try done.
  - by rewrite Hf', Hf1', tb_file0, file_bytes_app, file_bytes_one.
  - rewrite tb_offset0, file_bytes_app, file_bytes_one, !length_app. cbn [w w_contents w_trailer]. lia.
  - apply Forall_app. split; [done|]. apply Forall_singleton. split; cbn; try done; lia.
  - apply Forall_app. split; [done|]. by apply Forall_singleton.
  - rewrite Hreset. by eapply given_Reset.
  - by apply handles_app.
  - by apply fences_flush.
  - rewrite file_bytes_app, file_bytes_one, flushed_app, flushed_one, total_cost_app, !length_app.
    change (w_kvs w) with cur. change (w_contents w) with d. change (w_trailer w) with trailer. lia.
  - rewrite take_app_le by done. lia.
Qed.

(** *** The index *)

Lemma fences_snoc ix ws sep h : length ws = S (length ix) → fences ix ws [] → is_internal sep →
  (∀ kv, kv ∈ flushed ws → ¬ less sep (fst kv)) → fences (ix ++ [(sep, h)]) ws [].
Proof.
  intros Hl Hf Hsep Hall j k h' [[_ Hj]|[-> [= <- <-]]]%lookup_snoc_Some; [by apply (Hf j k h')|]. split_and!; [done|..].
  - by rewrite take_ge by lia.
  - rewrite drop_ge by lia. intros kv Hkv. by apply elem_of_nil in Hkv.
Qed.

Lemma handles_snoc ix ws w sep : length ix = length ws → handles ix (ws ++ [w]) →
  handles (ix ++ [(sep, handle_bytes (handle_at ws w))]) (ws ++ [w]).
Proof.
  intros Hl Hh j k h [[_ Hj]|[-> [= <- <-]]]%lookup_snoc_Some; [by apply (Hh j k h)|].
  exists w. rewrite Hl, take_app_length, lookup_app_r, Nat.sub_diag by lia. done.
Qed.

Lemma run_AddIndexEntry o r ws w ix lk next : builder_ok o r (ws ++ [w]) ix [] → length ix = length ws → pending_handle r = handle_at ws w →
  last_key r = lk → is_internal lk → (∀ kv, kv ∈ flushed (ws ++ [w]) → ¬ less lk (fst kv)) → length lk + 19 ≤ total_cost (w_kvs w) →
  match next with Some key => is_internal key ∧ less lk key | None => True end → table_fits (flushed (ws ++ [w])) →
  ∃ r' sep, AddIndexEntry c next r = Ok (tt, r') ∧ builder_ok o r' (ws ++ [w]) (ix ++ [(sep, handle_bytes (handle_at ws w))]) [] ∧
    match next with Some key => less sep key | None => True end ∧ num_entries (props r') = num_entries (props r) ∧
    closed r' = closed r.
Proof.
  intros Hb Hix Hpend Hlk Hint Hall Hcost Hnext Hf. unfold AddIndexEntry. rewrite (bind_Ok _ _ r r r) by done. rewrite Hlk, Hpend.
  assert (∃ sep, match next with Some n => InternalKeyComparator_FindShortestSeparator c lk n | None => InternalKeyComparator_FindShortSuccessor c lk end
    = Ok sep ∧ is_internal sep ∧ (internal_order c lk sep ≤ 0)%Z ∧ match next with Some key => less sep key | None => True end ∧ length sep ≤ length lk)
    as (sep & Esep & Hsi & Hle & Hsn & Hsl).
  { destruct next as [key|].
    - destruct Hnext as [Hki Hlt]. destruct (separator_spec c lk key Hint Hki Hlt) as (sep & ? & ? & ? & ? & ?). by exists sep.
    - destruct (successor_spec c lk Hint) as (sep & ? & ? & ? & ?). by exists sep. }
  rewrite (bind_Ok _ _ r sep r) by (by apply lift_Ok). destruct Hb. unfold table_fits in Hf. rewrite Hix, take_app_length in tb_index_size0.
  pose proof tb_file_size0 as Hsz. rewrite flushed_app, flushed_one, total_cost_app in Hf, Hsz. rewrite file_bytes_app, file_bytes_one, !length_app in Hsz.
  assert (handle_ok (handle_at ws w)) as Hho by (unfold handle_ok, handle_at; cbn [h_offset h_size]; lia).
  pose proof (length_handle_bytes (handle_at ws w)) as Hhl. set (h := handle_bytes (handle_at ws w)) in *.
  assert (total_cost [(sep, h)] ≤ length lk + 39) as Hc1 by (unfold total_cost, cost; cbn [sum_list_with fst snd]; lia).
  destruct (given_Add 1 (index_block_builder_ r) ix sep h ltac:(lia) tb_index0) as (ib & Ei & Hi').
  { unfold fits. rewrite total_cost_app. lia. }
  set (r1 := mkRep (r_options r) (r_file r) (r_offset r) (r_status r) (data_block r) (index_block_builder_ r) sep (props r) (closed r) (pending_handle r)).
  rewrite (bind_Ok _ _ r tt r1), (bind_Ok _ _ r1 h r1) by (done || (apply lift_Ok; by rewrite run_handle_EncodeTo)).
  rewrite (bind_Ok _ _ r1 (tt, ib) r1) by (by apply lift_Ok). eexists. exists sep. split; [reflexivity|]. split; [|done]. split; rep; try done.
  - by apply handles_snoc.
  - apply fences_snoc; [rewrite length_app; cbn; lia|done..|]. intros kv Hkv Hlt.
    exact (Hall kv Hkv (order_le_lt cmp lk sep (fst kv) Hle Hlt)).
  - rewrite take_ge by (rewrite !length_app; cbn [length]; lia). rewrite flushed_app, flushed_one, !total_cost_app. lia.
Qed.

(** *** Adding an entry *)

Lemma total_cost_elem kv l : kv ∈ l → cost kv ≤ total_cost l.
Proof. intros (l1 & l2 & ->)%list_elem_of_split. rewrite total_cost_app. unfold total_cost. cbn. lia. Qed.

Lemma sorted_snoc kvs kv : sorted_keys cmp (kvs ++ [kv]) →
  sorted_keys cmp kvs ∧ is_internal (fst kv) ∧ ∀ x, x ∈ kvs → less (fst x) (fst kv).
Proof.
  intros [Hwf Hss]. apply Forall_app in Hwf as [Hwf Hkv]. rewrite Forall_singleton in Hkv.
  split; [split; [exact Hwf|exact (StronglySorted_app_1_l _ _ _ Hss)]|]. split; [exact Hkv|].
  intros x Hx. by eapply (StronglySorted_app_1_elem_of _ _ _ _ _ Hss Hx); left.
Qed.

Lemma sorted_last kvs l x : sorted_keys cmp kvs → last kvs = Some l → x ∈ kvs → ¬ less (fst l) (fst x).
Proof.
  intros Hs Hl Hx Hlt. apply last_Some in Hl as [kvs' ->]. apply sorted_snoc in Hs as (_ & _ & Hbelow).
  apply elem_of_app in Hx as [Hx|Hx%list_elem_of_singleton].
  - pose proof (Hbelow x Hx). pose proof (internal_order_sym c (fst x) (fst l)). lia.
  - subst x. rewrite internal_order_self in Hlt; [lia|done].
Qed.

Record adding o r (kvs : entries) ws ix cur : Prop := {
  ad_builder : builder_ok o r ws ix cur;
  ad_open : closed r = false;
  ad_length : length ix = length ws;
  ad_kvs : flushed ws ++ cur = kvs;
  ad_cur : kvs ≠ [] → cur ≠ [];
  ad_last kv : last kvs = Some kv → last_key r = fst kv;
  ad_entries : num_entries (props r) = Z.of_nat (length kvs);
}.

(** The keys of the index are below a key that comes after all entries. *)
Lemma index_below o r kvs ws ix cur k j sep h : adding o r kvs ws ix cur → (∀ x, x ∈ kvs → less (fst x) k) → ix !! j = Some (sep, h) → less sep k.
Proof.
  intros [Hb _ Hl <- Hcur _ _] Hbelow Hj. destruct (tb_fences _ _ _ _ _ Hb j sep h Hj) as (_ & _ & Hnext).
  destruct cur as [|x cur].
  - exfalso. apply Hcur; [|done]. apply lookup_lt_Some in Hj. rewrite Hl in Hj. pose proof (tb_nonempty _ _ _ _ _ Hb) as Hne.
    destruct ws as [|w ws]; [cbn in Hj; lia|]. apply Forall_cons in Hne as [Hw _]. unfold flushed. cbn. by destruct (w_kvs w).
  - apply (internal_order_trans c _ (fst x)); [apply Hnext|apply Hbelow]; apply elem_of_app; right; left.
Qed.

Definition flush_if (b : bool) (key : bytes) : prog (Rep F) unit :=
  if b then
    r ← gets id;
    assert (negb (BlockBuilder_empty (data_block r)));;
    Flush pl lib compression;;
    r ← gets id;
    if ok (r_status r) then AddIndexEntry c (Some key) else mret tt
  else mret tt.

Lemma run_flush_if o r kvs ws ix cur k v (b : bool) : options_ok o → adding o r kvs ws ix cur → sorted_keys cmp (kvs ++ [(k, v)]) → table_fits kvs →
  (b = true → cur ≠ []) →
  ∃ r' ws' ix' cur', flush_if b k r = Ok (tt, r') ∧ builder_ok o r' ws' ix' cur' ∧ length ix' = length ws' ∧ flushed ws' ++ cur' = kvs ∧
    (∀ j sep h, ix' !! j = Some (sep, h) → less sep k) ∧ num_entries (props r') = num_entries (props r) ∧ closed r' = false.
Proof.
  intros Ho Had Hs Hf Hne. apply sorted_snoc in Hs as (Hs & Hk & Hbelow). cbn [fst] in Hk, Hbelow.
  pose proof (λ j sep h, index_below o r kvs ws ix cur k j sep h Had Hbelow) as Hix. unfold flush_if. destruct b.
  2:{ destruct Had. exists r, ws, ix, cur. split_and!; try done. }
  specialize (Hne eq_refl). pose proof Had as [Hb Hopen Hl Hkvs _ Hlast _]. rewrite (bind_Ok _ _ r r r) by done.
  rewrite (bind_Ok _ _ r tt r).
  2:{ apply assert_true. rewrite (given_empty _ _ _ (tb_data _ _ _ _ _ Hb)), bool_decide_false by done. done. }
  destruct (run_Flush o r ws ix cur Ho Hb Hopen) as (w & r1 & E1 & Hw & Hb1 & Hp1 & Hlk1 & Hn1 & Hc1); [lia|done|by rewrite Hkvs|].
  rewrite (bind_Ok _ _ _ _ _ E1), (bind_Ok _ _ r1 r1 r1), (tb_status _ _ _ _ _ Hb1) by done. change (ok StatusOK) with true. cbn iota.
  assert (flushed (ws ++ [w]) = kvs) as Hfl by by rewrite flushed_app, flushed_one, Hw.
  destruct (last cur) as [l|] eqn:Hlc; [|by apply last_None in Hlc]. assert (last kvs = Some l) as Hlk by (by rewrite <-Hkvs, last_app, Hlc).
  assert (l ∈ cur) as Hlin by (apply last_Some in Hlc as [? ->]; apply elem_of_app; right; left).
  destruct (run_AddIndexEntry o r1 ws w ix (fst l) (Some k) Hb1 Hl Hp1) as (r2 & sep & E2 & Hb2 & Hsep & Hn2 & Hc2).
  - rewrite Hlk1. by apply Hlast.
  - apply (proj1 (Forall_forall _ _) (proj1 Hs)). rewrite <-Hkvs. apply elem_of_app. by right.
  - rewrite Hfl. intros kv Hkv. by apply (sorted_last kvs).
  - rewrite Hw. pose proof (total_cost_elem _ _ Hlin). unfold cost in *. lia.
  - split; [done|]. apply Hbelow. rewrite <-Hkvs. apply elem_of_app. by right.
  - by rewrite Hfl.
  - exists r2, (ws ++ [w]), (ix ++ [(sep, handle_bytes (handle_at ws w))]), []. split_and!; [done..| | | | |].
    + rewrite !length_app. cbn. lia.
    + by rewrite app_nil_r.
    + intros j sep' h' [[_ Hj]|[_ [= <- <-]]]%lookup_snoc_Some; [by apply (Hix j sep' h')|done].
    + by rewrite Hn2.
    + by rewrite Hc2.
Qed.

Lemma length_cost kvs : length kvs ≤ total_cost kvs.
Proof. induction kvs as [|kv kvs IH]; [done|]. unfold total_cost, cost in *. cbn. lia. Qed.

Lemma fences_add ix ws cur kv : fences ix ws cur → (∀ j k h, ix !! j = Some (k, h) → less k (fst kv)) → fences ix ws (cur ++ [kv]).
Proof.
  intros Hf Hk j k h Hj. destruct (Hf j k h Hj) as (? & ? & Hnext). split_and!; [done..|]. intros x.
  rewrite app_assoc. intros [Hx|Hx%list_elem_of_singleton]%elem_of_app; [by apply Hnext|subst x; by apply (Hk j k h)].
Qed.

Lemma run_TableBuilder_Add o r kvs ws ix cur k v : options_ok o → adding o r kvs ws ix cur → sorted_keys cmp (kvs ++ [(k, v)]) →
  table_fits (kvs ++ [(k, v)]) →
  ∃ r' ws' ix' cur', TableBuilder_Add pl lib c compression k v r = Ok (tt, r') ∧ adding o r' (kvs ++ [(k, v)]) ws' ix' cur'.
Proof.
  intros Ho Had Hs Hf. pose proof (table_fits_app _ _ Hf) as [Hf1 _]. pose proof (sorted_snoc _ _ Hs) as (_ & Hk & Hbelow). cbn [fst] in Hk, Hbelow.
  pose proof Had as [Hb Hopen Hl Hkvs Hcur Hlast Hn]. unfold TableBuilder_Add. rewrite (bind_Ok _ _ r r r) by done.
  rewrite (bind_Ok _ _ r tt r) by (apply assert_true; by rewrite Hopen).
  rewrite (tb_status _ _ _ _ _ Hb). change (negb (ok StatusOK)) with false. cbn iota.
  rewrite (bind_Ok _ _ r tt r).
  2:{ rewrite Hn. destruct (Z.ltb_spec 0 (Z.of_nat (length kvs))) as [Hlt|]; [|done].
      destruct (last kvs) as [l|] eqn:El; [|apply last_None in El; subst kvs; rewrite El in Hlt; cbn in Hlt; lia].
      assert (l ∈ kvs) as Hin by (apply last_Some in El as [? ->]; apply elem_of_app; right; left).
      rewrite (Hlast l eq_refl). destruct Hs as [Hwf _]. apply Forall_app in Hwf as [Hwf _].
      rewrite (bind_Ok _ _ r (internal_order c k (fst l)) r).
      - apply assert_true, Z.ltb_lt. pose proof (Hbelow l Hin). pose proof (internal_order_sym c k (fst l)). lia.
      - apply lift_Ok, run_Compare; [done|]. apply (proj1 (Forall_forall _ _) Hwf l Hin). }
  destruct (run_flush_if o r kvs ws ix cur k v (Update (r_options r) (data_block r) k v) Ho Had Hs Hf1) as
    (r1 & ws1 & ix1 & cur1 & E1 & Hb1 & Hl1 & Hkvs1 & Hix1 & Hn1 & Hc1).
  { unfold Update. rewrite (given_empty _ _ _ (tb_data _ _ _ _ _ Hb)). by case_bool_decide. }
  rewrite (bind_Ok _ _ r tt r1).
  2:{ revert E1. unfold flush_if. destruct (Update _ _ _ _); [|done]. by rewrite (bind_Ok _ _ r r r) by done. }
  set (r2 := mkRep (r_options r1) (r_file r1) (r_offset r1) (r_status r1) (data_block r1) (index_block_builder_ r1) k (props r1) (closed r1) (pending_handle r1)).
  rewrite (bind_Ok _ _ r1 tt r2), (bind_Ok _ _ r2 r2 r2) by done.
  destruct (given_Add _ _ _ k v (proj1 Ho) (tb_data _ _ _ _ _ Hb1)) as (b' & Eb & Hb').
  { apply table_fits_fits. rewrite <-Hkvs1, <-app_assoc in Hf. by apply table_fits_app in Hf as [_ ?]. }
  rewrite (bind_Ok _ _ r2 (tt, b') r2) by (by apply lift_Ok). eexists _, ws1, ix1, (cur1 ++ [(k, v)]). split; [reflexivity|].
  pose proof (length_cost kvs). unfold table_fits in Hf1. destruct Hb1. split; rep.
  - split; rep; try done. by apply fences_add.
  - exact Hc1.
  - done.
  - by rewrite app_assoc, Hkvs1.
  - intros _ ?%app_nil. naive_solver.
  - rewrite last_snoc. by intros kv [= <-].
  - cbn [num_entries]. change (props r2) with (props r1). rewrite Hn1, Hn, length_app, Z.mod_small by lia. cbn [length]. lia.
Qed.
End table.
