(* ===== verification/TableRead.v ===== *)
(** * RocksDB: reading a finished table

    The end of a table file, its properties, and the iterator over the opened file: a cursor
    in the entries that were added. *)

From S2P Require Import Prelude Varint BaseUint Coding CrcTables Crc32c Env XxHash DbFormat DbFormatLaws SkipListLaws Iterator Block BlockSpec TwoLevel TableFormat Table TableSpec.
From stdpp Require Import sorting.

(** ** Sorted maps *)

Definition before (a b : bytes * bytes) : Prop := (lex (fst a) (fst b) < 0)%Z.

Lemma BytewiseLessThan_lex a b : BytewiseLessThan a b = Z.leb (lex a b) 0.
Proof. unfold BytewiseLessThan. cbn. by rewrite Slice_compare_lex. Qed.

(** The comparator is not strict, so nothing is ever found. *)
Lemma map_find_None k m : map_find k m = None.
Proof.
  induction m as [|kv m IH]; [done|]. cbn. rewrite !BytewiseLessThan_lex. destruct (Z.leb_spec (lex (fst kv) k) 0); [done|].
  rewrite (lex_sym k). by rewrite (proj2 (Z.leb_le _ _)) by lia.
Qed.

Lemma map_insert_perm k v m : map_insert k v m ≡ₚ (k, v) :: m.
Proof. induction m as [|kv m IH]; cbn; [done|]. case_match; [done|]. rewrite IH. apply Permutation_swap. Qed.

Lemma map_insert_sorted k v m : StronglySorted before m → k ∉ fst <$> m → StronglySorted before (map_insert k v m).
Proof.
  intros Hm. induction Hm as [|kv m Hm IH Hall]; intros Hk; cbn [map_insert]; [repeat constructor|].
  rewrite BytewiseLessThan_lex. rewrite fmap_cons, not_elem_of_cons in Hk. destruct Hk as [Hne Hk].
  destruct (Z.leb_spec (lex k (fst kv)) 0) as [Hle|Hgt].
  - assert (lex k (fst kv) < 0)%Z as Hlt by (pose proof (lex_eq k (fst kv)); destruct (Z.eq_dec (lex k (fst kv)) 0%Z); [naive_solver|lia]).
    constructor; [by constructor|]. constructor; [done|]. eapply Forall_impl; [exact Hall|]. intros x Hx. by apply (lex_trans _ (fst kv)).
  - constructor; [by apply IH|]. apply Forall_forall. intros x Hx. rewrite map_insert_perm in Hx.
    apply elem_of_cons in Hx as [->|Hx]; [|by eapply Forall_forall in Hall]. unfold before. cbn. rewrite lex_sym. lia.
Qed.

Definition insert_all (m l : BytewiseSortedMap) : BytewiseSortedMap := foldl (λ m kv, map_insert (fst kv) (snd kv) m) m l.

Lemma insert_all_perm l m : insert_all m l ≡ₚ l ++ m.
Proof.
  unfold insert_all. revert m. induction l as [|kv l IH]; intros m; cbn; [done|]. rewrite IH, map_insert_perm, <-Permutation_middle. by destruct kv.
Qed.

Lemma insert_all_sorted l m : StronglySorted before m → NoDup (fst <$> (l ++ m)) → StronglySorted before (insert_all m l).
Proof.
  unfold insert_all. revert m. induction l as [|kv l IH]; intros m Hm Hnd; cbn; [done|]. cbn in Hnd. apply NoDup_cons in Hnd as [Hk Hnd].
  apply IH.
  - apply map_insert_sorted; [done|]. intros Hin. apply Hk. rewrite fmap_app. apply elem_of_app. by right.
  - rewrite map_insert_perm, <-Permutation_middle. cbn. by constructor.
Qed.

(** ** Properties *)

(** The numbers, in the order they are added. *)
Definition numbers (p : TableProperties) : BytewiseSortedMap :=
  (λ nv, (fst nv, EncodeVarint64 (snd nv))) <$>
  [(kRawKeySize, raw_key_size p); (kRawValueSize, raw_value_size p); (kDataSize, data_size p); (kIndexSize, index_size p);
   (kNumEntries, num_entries p); (kNumDataBlocks, num_data_blocks p); (kFilterSize, filter_size p); (kFormatVersion, props_format_version p);
   (kFixedKeyLen, fixed_key_len p)].

Lemma run_add_number name v m : add_number name v m = Ok (map_insert name (EncodeVarint64 v) m).
Proof. unfold add_number. by rewrite map_find_None. Qed.

Lemma run_AddTableProperty p m : filter_policy_name p = [] → AddTableProperty p m = Ok (insert_all m (numbers p)).
Proof. intros Hf. unfold AddTableProperty. repeat (rewrite run_add_number; mred). by rewrite Hf. Qed.

(** The names the table itself uses. *)
Definition own_names : list bytes :=
  [kRawKeySize; kRawValueSize; kDataSize; kIndexSize; kNumEntries; kNumDataBlocks; kFilterSize; kFormatVersion; kFixedKeyLen;
   kIndexType; kPrefixFiltering; kWholeKeyFiltering].

(** The other collectors use other names, and no name twice. *)
Definition names_ok (collected : BytewiseSortedMap) : Prop := NoDup ((fst <$> collected) ++ own_names).

Definition property_map (o : BlockBasedTableOptions) (collected : BytewiseSortedMap) (p : TableProperties) : BytewiseSortedMap :=
  insert_all [] (numbers p ++ collected ++ collector_Finish o).

Lemma property_map_sorted o collected p : names_ok collected → StronglySorted before (property_map o collected p).
Proof.
  intros Hn. apply insert_all_sorted; [constructor|]. rewrite app_nil_r. unfold names_ok in Hn.
  rewrite !fmap_app, (Permutation_app_comm (fst <$> numbers p)), <-!(assoc (++)).
  rewrite (Permutation_app_comm (fst <$> collector_Finish o)). done.
Qed.

Lemma property_map_index o collected p : (kIndexType, EncodeFixed32 0) ∈ property_map o collected p.
Proof. unfold property_map. rewrite insert_all_perm, app_nil_r, !elem_of_app. right. right. left. Qed.

(** ** The end of the file *)

Section finishing.
Context (pl : platform) (Hpl : platform_ok pl) (lib : compression_library) (Hlib : compression_ok lib).
Context (c : UserComparator) `{!UserComparatorLaws c} (compression : Z) (Hcomp : compression_type compression) (collected : entries).
Context {F : Type} `{WritableFileLaws F}.
Implicit Types (r : Rep F) (o : BlockBasedTableOptions).
Abbreviation cmp := (InternalKeyComparator_Compare c).

(** The file holds these blocks. *)
Record filed o r ws : Prop := {
  fl_options : r_options r = o;
  fl_file : contents (r_file r) = file_bytes ws;
  fl_offset : r_offset r = Z.of_nat (length (file_bytes ws));
  fl_status : r_status r = StatusOK;
  fl_blocks : Forall (stored_block lib o) ws;
}.

(** One more block of entries [kvs] was written. *)
Record one_more o r ws (raw : bytes) (kvs : entries) (w : written) r' : Prop := {
  om_filed : filed o r' (ws ++ [w]);
  om_kvs : w_kvs w = kvs;
  om_size : length (file_bytes (ws ++ [w])) ≤ length (file_bytes ws) + length raw + 5;
  om_entries : num_entries (props r') = num_entries (props r);
}.

Lemma grown_one_more o r ws raw kvs d type trailer r' : filed o r ws → block_with raw kvs → (Z.of_nat (length raw) < 2 ^ 31 - 1)%Z →
  stands_for lib (format_version o) raw d type → sealed (checksum o) d type trailer → grown r (d ++ trailer) r' →
  one_more o r ws raw kvs (mkWritten kvs raw d type trailer) r'.
Proof.
  intros [] Hblk Hl Hst Hseal (f & Hf & ->). pose proof (length_sealed _ _ _ _ Hseal).
  assert (length d ≤ length raw) by (destruct Hst as [_ [[_ ->]|(_ & ? & _)]]; lia).
  assert (file_bytes (ws ++ [mkWritten kvs raw d type trailer]) = file_bytes ws ++ d ++ trailer) as E by by rewrite file_bytes_app, file_bytes_one.
  split; [split; rep|done| |done]; rewrite ?E, ?length_app; [done|congruence|lia|done| |lia].
  apply Forall_app. split; [done|]. apply Forall_singleton. by split.
Qed.

Lemma filed_raw o r ws raw kvs : options_ok o → filed o r ws → block_with raw kvs → (Z.of_nat (length raw) < 2 ^ 31 - 1)%Z →
  (Z.of_nat (length (file_bytes ws)) < 2 ^ 63)%Z →
  ∃ w r', WriteRawBlock pl raw kNoCompression r = Ok (handle_at ws w, r') ∧ one_more o r ws raw kvs w r' ∧ w_type w = kNoCompression.
Proof.
  intros (_ & Hck & _) Hfl Hblk Hl Hsz. pose proof Hfl as [Ho _ Hoff Hs _].
  destruct (run_WriteRawBlock pl Hpl raw kNoCompression r Hs) as (trailer & r' & E & Hseal & Hg); [by rewrite Ho|done|lia|].
  rewrite Ho in Hseal. exists (mkWritten kvs raw raw kNoCompression trailer), r'. unfold handle_at. rewrite E, Hoff. split_and!; [done| |done].
  eapply grown_one_more; try done. by split; [|left].
Qed.

Lemma filed_block o r ws raw kvs : options_ok o → filed o r ws → block_with raw kvs → (Z.of_nat (length raw) < 2 ^ 31 - 1)%Z →
  (Z.of_nat (length (file_bytes ws)) < 2 ^ 63)%Z →
  ∃ w r', WriteBlock pl lib compression raw r = Ok (handle_at ws w, r') ∧ one_more o r ws raw kvs w r'.
Proof.
  intros (_ & Hck & _) Hfl Hblk Hl Hsz. pose proof Hfl as [Ho _ Hoff Hs _].
  destruct (run_WriteBlock pl Hpl lib Hlib compression Hcomp raw r Hs) as (d & type & trailer & r' & E & Hst & Hseal & Hg); [by rewrite Ho|done|lia|].
  rewrite Ho in Hst, Hseal. exists (mkWritten kvs raw d type trailer), r'. unfold handle_at. rewrite E, Hoff. split; [done|].
  by eapply grown_one_more.
Qed.

(** *** The properties *)

Lemma property_map_cost o p : total_cost (property_map o collected p) ≤ total_cost collected + 1000.
Proof.
  unfold property_map. assert (∀ l l', l ≡ₚ l' → total_cost l = total_cost l') as Hperm by (intros l l' E; unfold total_cost; by rewrite E).
  rewrite (Hperm _ _ (insert_all_perm _ _)), app_nil_r, !total_cost_app.
  assert (total_cost (collector_Finish o) ≤ 250) by (unfold collector_Finish, total_cost; by destruct (whole_key_filtering o); vm_compute; lia).
  assert (total_cost (numbers p) ≤ 700); [|lia]. unfold numbers, total_cost, cost. cbn [fmap list_fmap sum_list_with fst snd].
  repeat match goal with |- context [length (EncodeVarint64 ?v)] => pose proof (length_EncodeVarint64 v); generalize dependent (length (EncodeVarint64 v)); intros end.
  change (length kRawKeySize) with 20. change (length kRawValueSize) with 22. change (length kDataSize) with 17. change (length kIndexSize) with 18.
  change (length kNumEntries) with 19. change (length kNumDataBlocks) with 23. change (length kFilterSize) with 19.
  change (length kFormatVersion) with 22. change (length kFixedKeyLen) with 24. lia.
Qed.

Lemma run_WriteProperties o r ws : options_ok o → filed o r ws → names_ok collected → table_fits collected [] →
  (Z.of_nat (length (file_bytes ws)) < 2 ^ 62)%Z →
  ∃ p raw w r', WriteProperties pl collected r = Ok ([(kPropertiesBlock, handle_bytes (handle_at ws w))], r') ∧
    one_more o r ws raw (property_map o collected p) w r' ∧ w_type w = kNoCompression ∧ length raw ≤ total_cost collected + 1008.
Proof.
  intros Ho Hfl Hn Hf Hsz. unfold table_fits in Hf. cbn [total_cost sum_list_with] in Hf. unfold WriteProperties. rewrite (bind_Ok _ _ r r r) by done. cbv zeta.
  set (p := mkProps _ _ _ _ _ _ _ _ _ _ _).
  set (r1 := mkRep (r_options r) (r_file r) (r_offset r) (r_status r) (data_block r) (index_block_builder_ r) (last_key r) p (closed r) (pending_handle r)).
  rewrite (bind_Ok _ _ r tt r1) by done. rewrite (bind_Ok _ _ r1 (insert_all [] (numbers p)) r1) by (apply lift_Ok; by rewrite run_AddTableProperty).
  fold (insert_all (insert_all [] (numbers p)) (collected ++ collector_Finish (r_options r))).
  replace (insert_all (insert_all [] (numbers p)) _) with (property_map o collected p)
    by (unfold property_map, insert_all; by rewrite foldl_app, (fl_options _ _ _ Hfl)).
  pose proof (property_map_cost o p) as Hc. destruct (run_block_of_map (property_map o collected p)) as (raw & Eraw & Hraw & Hrl); [unfold fits; lia|].
  rewrite (bind_Ok _ _ r1 raw r1) by (by apply lift_Ok).
  destruct (filed_raw o r1 ws raw (property_map o collected p) Ho) as (w & r2 & E2 & Hom & Ht); [by destruct Hfl|done|lia|lia|].
  rewrite (bind_Ok _ _ _ _ _ E2). exists p, raw, w, r2. split; [|split_and!; [by destruct Hom|done|lia]].
  rewrite (bind_Ok _ _ r2 (handle_bytes (handle_at ws w)) r2); [done|]. apply lift_Ok. rewrite run_handle_EncodeTo; [done|].
  pose proof (om_size _ _ _ _ _ _ _ Hom) as Hs. rewrite file_bytes_app, file_bytes_one, !length_app in Hs.
  unfold handle_ok, handle_at. cbn [h_offset h_size]. lia.
Qed.

(** *** The last block *)

Definition close r : Rep F :=
  mkRep (r_options r) (r_file r) (r_offset r) (r_status r) (data_block r) (index_block_builder_ r) (last_key r) (props r) true (pending_handle r).

Lemma builder_close o r ws ix cur : builder_ok lib c o r ws ix cur → builder_ok lib c o (close r) ws ix cur.
Proof. intros []. by split. Qed.

Lemma run_last_block o r kvs ws ix cur : options_ok o → adding lib c o r kvs ws ix cur → sorted_keys cmp kvs → table_fits collected kvs →
  ∃ r1 r2 ws' ix', Flush pl lib compression r = Ok (tt, r1) ∧ closed r1 = false ∧ r_status r1 = StatusOK ∧
    (if negb (BlockBuilder_empty (data_block r)) then AddIndexEntry c None else mret tt) (close r1) = Ok (tt, r2) ∧
    builder_ok lib c o r2 ws' ix' [] ∧ length ix' = length ws' ∧ flushed ws' = kvs ∧ num_entries (props r2) = num_entries (props r).
Proof.
  intros Ho [Hb Hopen Hl Hkvs Hcur Hlast _] Hs Hf. rewrite (given_empty _ _ _ (tb_data _ _ _ _ _ _ _ Hb)). destruct (decide (cur = [])) as [->|Hne].
  { exists r, (close r), ws, ix. rewrite app_nil_r in Hkvs. split_and!; try done; [|apply Hb|by apply builder_close].
    unfold Flush. rewrite (bind_Ok _ _ r r r) by done. rewrite (bind_Ok _ _ r tt r) by (apply assert_true; by rewrite Hopen).
    rewrite (tb_status _ _ _ _ _ _ _ Hb), (given_empty _ _ _ (tb_data _ _ _ _ _ _ _ Hb)). done. }
  rewrite bool_decide_false by done. cbn [negb].
  destruct (run_Flush pl Hpl lib Hlib c compression Hcomp collected o r ws ix cur Ho Hb Hopen) as (w & r1 & E1 & Hw & Hb1 & Hp1 & Hlk1 & Hn1 & Hc1);
    [lia|done|by rewrite Hkvs|].
  assert (flushed (ws ++ [w]) = kvs) as Hfl by by rewrite flushed_app, flushed_one, Hw.
  destruct (last cur) as [l|] eqn:Hlc; [|by apply last_None in Hlc]. assert (last kvs = Some l) as Hlk by (by rewrite <-Hkvs, last_app, Hlc).
  assert (l ∈ cur) as Hlin by (apply last_Some in Hlc as [? ->]; apply elem_of_app; right; left).
  destruct (run_AddIndexEntry lib c collected o (close r1) ws w ix (fst l) None (builder_close _ _ _ _ _ Hb1) Hl Hp1) as (r2 & sep & E2 & Hb2 & _ & Hn2 & _).
  - cbn. rewrite Hlk1. by apply Hlast.
  - apply (proj1 (Forall_forall _ _) (proj1 Hs)). rewrite <-Hkvs. apply elem_of_app. by right.
  - rewrite Hfl. intros kv Hkv. by apply (sorted_last c kvs).
  - rewrite Hw. pose proof (total_cost_elem _ _ Hlin). unfold cost in *. lia.
  - done.
  - by rewrite Hfl.
  - exists r1, r2, (ws ++ [w]), (ix ++ [(sep, handle_bytes (handle_at ws w))]). split_and!; try done; [apply Hb1| |by rewrite Hn2].
    rewrite !length_app. cbn. lia.
Qed.

(** ** The finished file *)

Record finished o (kvs : entries) (data : bytes) ws ix p wp wm wi footer : Prop := {
  fin_data : data = file_bytes (ws ++ [wp; wm; wi]) ++ footer_bytes footer;
  fin_blocks : Forall (stored_block lib o) (ws ++ [wp; wm; wi]);
  fin_kvs : flushed ws = kvs;
  fin_nonempty : Forall (λ w, w_kvs w ≠ []) ws;
  fin_index : w_kvs wi = ix;
  fin_length : length ix = length ws;
  fin_handles : handles ix ws;
  fin_fences : fences c ix ws [];
  fin_props : w_kvs wp = property_map o collected p ∧ w_type wp = kNoCompression;
  fin_meta : w_kvs wm = [(kPropertiesBlock, handle_bytes (handle_at ws wp))];
  fin_footer : footer_ok footer ∧ f_version footer = format_version o ∧ f_checksum footer = checksum o ∧
    metaindex_handle_ footer = handle_at (ws ++ [wp]) wm ∧ index_handle_ footer = handle_at (ws ++ [wp; wm]) wi;
  fin_size : (Z.of_nat (length data) < 2 ^ 62)%Z;
}.

Lemma run_WriteFooter o r ws hm hi : options_ok o → filed o r ws → handle_ok hm → handle_ok hi → (Z.of_nat (length (file_bytes ws)) < 2 ^ 61)%Z →
  ∃ footer r', WriteFooter hm hi r = Ok (tt, r') ∧ r_status r' = StatusOK ∧ contents (r_file r') = file_bytes ws ++ footer_bytes footer ∧
    FileSize r' = Z.of_nat (length (contents (r_file r'))) ∧ NumEntries r' = NumEntries r ∧ footer_ok footer ∧ f_version footer = format_version o ∧ f_checksum footer = checksum o ∧ metaindex_handle_ footer = hm ∧
    index_handle_ footer = hi.
Proof.
  intros (_ & Hck & Hv & Hv0) [Ho Hfile Hoff Hs _] Hm Hi Hsz. unfold WriteFooter. rewrite (bind_Ok _ _ r r r) by done. cbv zeta. rewrite Ho.
  rewrite (bind_Ok _ _ r tt r).
  2:{ apply assert_true. destruct (Z.eqb_spec (format_version o) 0) as [E|]; [by rewrite (Hv0 E)|by destruct (Z.eqb _ _)]. }
  set (m := if Z.eqb (format_version o) 0 then kLegacyBlockBasedTableMagicNumber else kBlockBasedTableMagicNumber).
  assert (∃ f0, Footer_new m (format_version o) = Ok f0 ∧ f_version f0 = format_version o ∧ table_magic_number_ f0 = m) as (f0 & Ef0 & Hf0 & Hm0).
  { unfold m. destruct (Z.eqb_spec (format_version o) 0) as [E|E].
    - rewrite E. unfold Footer_new. eexists. split; [reflexivity|done].
    - unfold Footer_new. eexists. split; [reflexivity|done]. }
  rewrite (bind_Ok _ _ r f0 r) by (by apply lift_Ok). rewrite Hf0, Hm0. set (footer := mkFooter (format_version o) (checksum o) hm hi m).
  assert (footer_ok footer) as Hok.
  { unfold footer_ok, footer. cbn [metaindex_handle_ index_handle_ f_checksum f_version table_magic_number_]. split_and!; [done|done|done|lia|lia|].
    unfold m. destruct (Z.eqb_spec (format_version o) 0) as [E|]; [right|by left]. rewrite E. by rewrite (Hv0 E). }
  rewrite (bind_Ok _ _ r (footer_bytes footer) r) by (apply lift_Ok; by rewrite run_Footer_EncodeTo).
  destruct (run_append (footer_bytes footer) r Hs) as (f & Ef & Hf). rewrite (bind_Ok _ _ _ _ _ Ef). set (r1 := mkRep _ f _ _ _ _ _ _ _ _).
  rewrite (bind_Ok _ _ r1 r1 r1) by done. change (ok (r_status r1)) with true. cbn iota. exists footer. eexists. split; [reflexivity|].
  assert (contents f = file_bytes ws ++ footer_bytes footer) as Hd by by rewrite Hf, Hfile. pose proof (length_footer_bytes footer) as Hfl.
  split_and!; try done. change (u64 (r_offset r + Z.of_nat (length (footer_bytes footer))) = Z.of_nat (length (contents f)))%Z. rewrite Hd, length_app, Hoff.
  destruct (IsLegacyFooterFormat _); rewrite Z.mod_small; lia.
Qed.

Lemma handle_at_ok ws w bound : (Z.of_nat (length (file_bytes (ws ++ [w]))) < bound)%Z → (bound ≤ 2 ^ 62)%Z → handle_ok (handle_at ws w).
Proof. rewrite file_bytes_app, file_bytes_one, !length_app. unfold handle_ok, handle_at. cbn [h_offset h_size]. lia. Qed.

Lemma run_TableBuilder_Finish o r kvs ws ix cur : options_ok o → adding lib c o r kvs ws ix cur → sorted_keys cmp kvs → table_fits collected kvs →
  names_ok collected →
  ∃ r' ws' ix' p wp wm wi footer, TableBuilder_Finish pl lib c compression collected r = Ok (StatusOK, r') ∧
    FileSize r' = Z.of_nat (length (contents (r_file r'))) ∧ NumEntries r' = Z.of_nat (length kvs) ∧
    finished o kvs (contents (r_file r')) ws' ix' p wp wm wi footer.
Proof.
  intros Ho Had Hs Hf Hn. destruct (run_last_block o r kvs ws ix cur Ho Had Hs Hf) as (r1 & r2 & ws' & ix' & E1 & Hc1 & Hs1 & E2 & Hb2 & Hl & Hkvs & Hn2).
  unfold TableBuilder_Finish. rewrite (bind_Ok _ _ r r r) by done. cbv zeta. rewrite (bind_Ok _ _ _ _ _ E1), (bind_Ok _ _ r1 r1 r1) by done.
  rewrite (bind_Ok _ _ r1 tt r1) by (apply assert_true; by rewrite Hc1). rewrite (bind_Ok _ _ r1 tt (close r1)) by done.
  rewrite Hs1. change (ok StatusOK) with true. rewrite andb_true_l, (bind_Ok _ _ _ _ _ E2), (bind_Ok _ _ r2 r2 r2) by done.
  pose proof Hf as Hsz. unfold table_fits in Hsz. pose proof Hb2 as [].
  rewrite Hkvs in tb_file_size. rewrite take_ge, Hkvs in tb_index_size by lia.
  destruct (given_Finish 1 _ _ tb_index) as (iraw & ib & Ei & Hiblk & Hil & _); [unfold fits; lia|].
  rewrite (bind_Ok _ _ r2 (iraw, ib) r2) by (by apply lift_Ok). cbn [fst snd].
  set (r3 := mkRep (r_options r2) (r_file r2) (r_offset r2) (r_status r2) (data_block r2) ib (last_key r2) (props r2) (closed r2) (pending_handle r2)).
  rewrite (bind_Ok _ _ r2 tt r3), (bind_Ok _ _ r3 r3 r3) by done. change (r_status r3) with (r_status r2). rewrite tb_status. change (ok StatusOK) with true. cbn iota.
  assert (filed o r3 ws') as Hfl3 by by split.
  destruct (run_WriteProperties o r3 ws' Ho Hfl3 Hn) as (p & praw & wp & r4 & E4 & [Hfl4 Hp Hsz4 Hn4] & Hpt & Hpl'); [unfold table_fits; cbn; lia|lia|].
  rewrite (bind_Ok _ _ _ _ _ E4), (bind_Ok _ _ r4 r4 r4), (fl_status _ _ _ Hfl4) by done. change (ok StatusOK) with true. cbn iota.
  set (meta := [(kPropertiesBlock, handle_bytes (handle_at ws' wp))]). pose proof (length_handle_bytes (handle_at ws' wp)).
  assert (total_cost meta ≤ 100) by (unfold meta, total_cost, cost; cbn [sum_list_with fst snd]; change (length kPropertiesBlock) with 18; lia).
  destruct (run_block_of_map meta) as (mraw & Em & Hmblk & Hml); [unfold fits; lia|].
  destruct (filed_raw o r4 (ws' ++ [wp]) mraw meta Ho Hfl4 Hmblk) as (wm & r5 & E5 & [Hfl5 Hm Hsz5 Hn5] & _); [lia|lia|].
  destruct (filed_block o r5 ((ws' ++ [wp]) ++ [wm]) iraw ix' Ho Hfl5 Hiblk) as (wi & r6 & E6 & [Hfl6 Hi Hsz6 Hn6]); [lia|lia|].
  rewrite (bind_Ok _ _ r4 (handle_at (ws' ++ [wp]) wm, handle_at ((ws' ++ [wp]) ++ [wm]) wi) r6).
  2:{ rewrite (bind_Ok _ _ r4 mraw r4) by (by apply lift_Ok). by rewrite (bind_Ok _ _ _ _ _ E5), (bind_Ok _ _ _ _ _ E6). }
  rewrite (bind_Ok _ _ r6 r6 r6), (fl_status _ _ _ Hfl6) by done. change (ok StatusOK) with true. cbn iota. cbn [fst snd].
  destruct (run_WriteFooter o r6 _ (handle_at (ws' ++ [wp]) wm) (handle_at ((ws' ++ [wp]) ++ [wm]) wi) Ho Hfl6) as (footer & r7 & E7 & Hs7 & Hd7 & Hfs & Hn7 & Hok & Hv & Hck & Hhm & Hhi);
    [eapply handle_at_ok; [|reflexivity]; lia|eapply handle_at_ok; [|reflexivity]; lia|lia|].
  rewrite (bind_Ok _ _ _ _ _ E7), (bind_Ok _ _ r7 r7 r7) by done. exists r7, ws', ix', p, wp, wm, wi, footer. rewrite Hs7. split; [done|]. split; [done|].
  split; [rewrite Hn7; unfold NumEntries; rewrite Hn6, Hn5, Hn4; change (props r3) with (props r2); by rewrite Hn2, (ad_entries _ _ _ _ _ _ _ _ Had)|].
  assert (((ws' ++ [wp]) ++ [wm]) ++ [wi] = ws' ++ [wp; wm; wi]) as Eapp by by rewrite <-!app_assoc.
  rewrite <-app_assoc in Hhi. rewrite Eapp in *. cbn [app] in *. destruct Hfl6. pose proof (length_footer_bytes footer).
  split; [assumption..|by split|assumption|by split_and!|]. rewrite Hd7, length_app. destruct (IsLegacyFooterFormat _); lia.
Qed.
End finishing.

(** ** Iterators over the blocks of a file *)

#[export] Program Instance bytewise_laws : Comparator bytewise := {|
  wf_key := λ _, True;
  key_order := lex;
|}.
Next Obligation. intros a b _ _. unfold bytewise. cbn. by rewrite Slice_compare_lex. Qed.
Next Obligation. intros a b. cbn. rewrite (lex_sym a). lia. Qed.
Next Obligation. intros a b c. apply lex_trans. Qed.
Next Obligation. intros a b c E%lex_eq. by subst. Qed.

(** An iterator over the block [data] with entries [kvs]. *)
Definition over_iter (data : bytes) (kvs : entries) (it : BlockIter) (pos : option nat) : Prop :=
  ∃ es ps, block_of data es ps ∧ pair_of <$> es = kvs ∧ stands data es ps it pos.

Definition over_block (data : bytes) (kvs : entries) (s : block_iterator) (pos : option nat) : Prop :=
  match s with inl it => over_iter data kvs it pos | inr _ => False end.

Section cursors.
Context (compare_ : bytes → bytes → outcome Z) `{!Comparator compare_} (data : bytes) (kvs : entries) (Hs : sorted_keys compare_ kvs).

Lemma over_iter_cursor : Cursor (H := BlockIter_ops compare_) compare_ kvs (over_iter data kvs).
Proof.
  revert Hs. intros Hs. split; intros *.
  - intros (es & ps & B & <- & Hst). exact (cursor_valid compare_ (Cursor := block_cursor compare_ data es ps B Hs) _ _ Hst).
  - intros (es & ps & B & <- & Hst). exact (cursor_status compare_ (Cursor := block_cursor compare_ data es ps B Hs) _ _ Hst).
  - intros (es & ps & B & <- & Hst). exact (cursor_entry compare_ (Cursor := block_cursor compare_ data es ps B Hs) _ _ Hst).
  - intros Ho (es & ps & B & <- & Hst). pose proof (cursor_move compare_ (Cursor := block_cursor compare_ data es ps B Hs) o it pos Ho Hst) as Hm.
    destruct (list_move compare_ _ o pos); [|done]. destruct Hm as (it' & E & Hst'). exists it'. split; [done|]. by exists es, ps.
Qed.

Lemma over_block_cursor : Cursor (H := sum_ops (H := BlockIter_ops compare_)) compare_ kvs (over_block data kvs).
Proof.
  split.
  - intros [it|e] pos Hst; [exact (cursor_valid compare_ (Cursor := over_iter_cursor) it pos Hst)|done].
  - intros [it|e] pos Hst; [exact (cursor_status compare_ (Cursor := over_iter_cursor) it pos Hst)|done].
  - intros [it|e] i Hst; [exact (cursor_entry compare_ (Cursor := over_iter_cursor) it i Hst)|done].
  - intros o [it|e] pos Ho Hst; [|done]. pose proof (cursor_move compare_ (Cursor := over_iter_cursor) o it pos Ho Hst) as Hm.
    destruct (list_move compare_ _ o pos) as [pos'|f].
    + destruct Hm as (it' & E & Hst'). exists (inl it'). split; [|done]. destruct o; cbn in E |- *; unfold on_either; by rewrite E.
    + destruct o; cbn in Hm |- *; unfold on_either; by rewrite Hm.
Qed.
End cursors.

(** Where an iterator is when only [rest] is left. *)
Definition at_rest (m rest : entries) : option nat := match rest with [] => None | _ => Some (length m) end.

Section rest.
Context (compare_ : bytes → bytes → outcome Z) `{!Comparator compare_} {I} `{!IteratorOps I} (kvs : entries) (st : I → option nat → Prop)
  (C : Cursor compare_ kvs st) (l1 : entries) (kv : bytes * bytes) (l2 : entries) (Hkvs : kvs = l1 ++ kv :: l2).

Lemma entry_rest it : st it (at_rest l1 (kv :: l2)) → iter_Valid it = true ∧ iter_status it = StatusOK ∧ iter_key it = Ok (fst kv) ∧ iter_value it = Ok (snd kv).
Proof.
  intros Hst. split; [exact (cursor_valid compare_ (Cursor := C) it _ Hst)|]. split; [exact (cursor_status compare_ (Cursor := C) it _ Hst)|].
  destruct (cursor_entry compare_ (Cursor := C) it _ Hst) as (k & v & Hlook & Hk & Hv). rewrite Hkvs, lookup_app_r, Nat.sub_diag in Hlook by lia.
  cbn [lookup list_lookup] in Hlook. assert (kv = (k, v)) as -> by congruence. done.
Qed.

Lemma next_rest it : st it (at_rest l1 (kv :: l2)) → ∃ it', iter_Next it = Ok (tt, it') ∧ st it' (at_rest (l1 ++ [kv]) l2).
Proof.
  intros Hst. pose proof (cursor_move compare_ (Cursor := C) OpNext it _ Logic.I Hst) as Hm.
  assert (list_move compare_ kvs OpNext (at_rest l1 (kv :: l2)) = Ok (at_rest (l1 ++ [kv]) l2)) as E; [|by rewrite E in Hm].
  cbn [list_move at_rest of_option mbind outcome_bind]. rewrite Hkvs, !length_app. unfold at_rest. cbn [length]. f_equal.
  destruct l2; cbn [length]; [by rewrite decide_False by lia|]. rewrite decide_True, length_app by lia. cbn [length]. f_equal. lia.
Qed.
End rest.

(** Both ways to get an iterator over a block. *)
Definition opens (b : Block) (it : BlockIter) : Prop := NewIterator b BlockIter_new = Ok (tt, it) ∧ Block_NewIterator b = Ok (inl it).

Lemma run_open_block data kvs : block_with data kvs → (Z.of_nat (length data) < 2 ^ 31 - 1)%Z →
  ∃ b it, Block_new data = Ok b ∧ opens b it ∧ over_iter data kvs it None.
Proof.
  intros (es & ps & B & Hkvs) Hl. destruct (run_open data es ps B) as (b & it & Eb & Hc & Hsz & En & Hend).
  exists b, it. split; [done|]. pose proof (lookup_lt_Some _ _ _ (rp_first _ _ (bo_points _ _ _ B))). pose proof (data_bounds _ _ _ B).
  split; [|by exists es, ps]. split; [done|]. unfold Block_NewIterator. rewrite En, Hc, Hsz, (run_NumRestarts _ _ _ B), (proj2 (Z.ltb_ge _ _)) by lia. mred.
  by rewrite (proj2 (Z.eqb_neq _ _)) by lia.
Qed.

(** ** Reading the properties *)

(** The name is a collected property, not one of the table's own numbers. *)
Definition is_collected (name : bytes) : Prop := set_number name 0 TableProperties_new = None ∧ name ≠ kFilterPolicy.

Lemma set_number_user key v p : match set_number key v p with
  | Some p' => user_collected_properties p' = user_collected_properties p ∧ ¬ is_collected key
  | None => set_number key 0 TableProperties_new = None
  end.
Proof.
  destruct p. unfold is_collected, set_number. cbn. repeat (case_bool_decide; [subst; cbn; split; [done|intros [Hn _]; vm_compute in Hn; done]|]). done.
Qed.

Lemma read_property_user key v p :
  user_collected_properties (read_property key v p) = user_collected_properties p ∧ (is_collected key → key ∈ fst <$> user_collected_properties p) ∨
  user_collected_properties (read_property key v p) = user_collected_properties p ++ [(key, v)].
Proof.
  unfold read_property. pose proof (set_number_user key 0 p) as H0. destruct (set_number key 0 p).
  - destruct H0 as [_ Hn]. left. split; [|done]. destruct (GetVarint64 v) as [[x|] ?]; [|done].
    pose proof (set_number_user key x p) as H1. by destruct (set_number key x p); [destruct H1|].
  - destruct p as [d i f rk rv nb ne fv fk fp u]. case_bool_decide as Hk; [left; split; [done|by intros [_ ?]]|]. cbn. destruct (decide _); [by left|by right].
Qed.

(** The properties with these entries read one after the other. *)
Definition read_all (m : entries) (p : TableProperties) : TableProperties := foldl (λ p kv, read_property (fst kv) (snd kv) p) p m.

Lemma read_all_user m p :
  (∀ kv, kv ∈ user_collected_properties (read_all m p) → kv ∈ user_collected_properties p ∨ kv ∈ m) ∧
  (∀ name, is_collected name → name ∈ fst <$> user_collected_properties p ∨ name ∈ fst <$> m →
    name ∈ fst <$> user_collected_properties (read_all m p)).
Proof.
  revert p. induction m as [|[k v] m IH]; intros p; cbn; [split; [by left|intros name _ [|[]%elem_of_nil]; done]|].
  destruct (IH (read_property k v p)) as [IH1 IH2]. split.
  - intros kv Hkv. rewrite elem_of_cons. destruct (read_property_user k v p) as [[E _]|E]; apply IH1 in Hkv; rewrite E in Hkv; [naive_solver|].
    rewrite elem_of_app, list_elem_of_singleton in Hkv. naive_solver.
  - intros name Hname Hin. apply IH2; [done|]. destruct (read_property_user k v p) as [[E Hk]|E]; rewrite E.
    + rewrite elem_of_cons in Hin. naive_solver.
    + rewrite fmap_app, elem_of_app. cbn. rewrite list_elem_of_singleton. rewrite elem_of_cons in Hin. naive_solver.
Qed.

Lemma sorted_unique (m : entries) k v v' : StronglySorted before m → (k, v) ∈ m → (k, v') ∈ m → v = v'.
Proof.
  intros Hs. induction Hs as [|x m Hs IH Hall]; [by intros []%elem_of_nil|]. rewrite !elem_of_cons. rewrite Forall_forall in Hall.
  pose proof (lex_eq k k). intros [<-|Hv] [E|Hv']; [congruence| | |by apply IH].
  - pose proof (Hall _ Hv') as Hlt. unfold before in Hlt. cbn in Hlt. naive_solver lia.
  - subst x. pose proof (Hall _ Hv) as Hlt. unfold before in Hlt. cbn in Hlt. naive_solver lia.
Qed.

(** The value of a collected property is found. *)
Lemma find_property m k v : StronglySorted before m → is_collected k → (k, v) ∈ m →
  ∃ i, list_find (λ kv, fst kv = k) (user_collected_properties (read_all m TableProperties_new)) = Some (i, (k, v)).
Proof.
  intros Hs Hk Hin. destruct (read_all_user m TableProperties_new) as [H1 H2].
  destruct (list_elem_of_fmap_1 fst _ k (H2 k Hk (or_intror (list_elem_of_fmap_2' fst m (k, v) k Hin eq_refl)))) as ([k' v'] & -> & Hel). cbn in *.
  destruct (list_find_elem_of (λ kv, fst kv = k') _ _ Hel) as ([i [k'' v'']] & Hfind); [done|]. exists i. rewrite Hfind.
  apply list_find_Some in Hfind as (Hlook & Hfst & _). cbn in Hfst. subst k''. apply list_elem_of_lookup_2 in Hlook.
  destruct (H1 _ Hlook) as [[]%elem_of_nil|Hm]. by rewrite (sorted_unique m k' v v'').
Qed.

Lemma bytewise_sorted m : StronglySorted before m → sorted_keys bytewise m.
Proof. intros Hs. split; [|exact Hs]. by apply Forall_forall. Qed.

Lemma above_last m1 k v m2 : StronglySorted before (m1 ++ (k, v) :: m2) →
  negb (bool_decide (default [] (fst <$> last m1) = [])) && negb (Z.ltb 0 (Compare BytewiseComparator k (default [] (fst <$> last m1)))) = false.
Proof.
  intros Hs. destruct (last m1) as [[k' v']|] eqn:Hl; [|by rewrite bool_decide_true]. cbn [fmap option_fmap option_map default from_option id fst].
  apply last_Some in Hl as [m ->]. assert (before (k', v') (k, v)) as Hlt by (eapply (StronglySorted_app_1_elem_of _ _ _ _ _ Hs); [apply elem_of_app; right; left|left]).
  unfold before in Hlt. cbn in Hlt. apply andb_false_iff. right. apply negb_false_iff, Z.ltb_lt. cbn. rewrite Slice_compare_lex, lex_sym. lia.
Qed.

Lemma run_property_loop data m2 : ∀ m1 fuel it p, StronglySorted before (m1 ++ m2) → over_block data (m1 ++ m2) it (at_rest m1 m2) →
  length m2 ≤ fuel → property_loop fuel it (default [] (fst <$> last m1)) p = Ok (StatusOK, read_all m2 p).
Proof.
  induction m2 as [|[k v] m2 IH]; intros m1 fuel it p Hs Hov Hfuel; pose proof (over_block_cursor bytewise data _ (bytewise_sorted _ Hs)) as C.
  { assert (iter_Valid (IteratorOps := bytewise_ops) it = false) as Hv by exact (cursor_valid bytewise it None Hov). by destruct fuel; cbn [property_loop]; rewrite Hv. }
  destruct fuel as [|fuel]; [cbn in Hfuel; lia|]. cbn [property_loop].
  destruct (entry_rest bytewise _ _ C m1 (k, v) m2 eq_refl it Hov) as (Hval & Hst & Hk & Hv).
  change (iter_Valid (IteratorOps := bytewise_ops) it = true) in Hval. change (iter_status (IteratorOps := bytewise_ops) it = StatusOK) in Hst.
  change (iter_key (IteratorOps := bytewise_ops) it = Ok k) in Hk. change (iter_value (IteratorOps := bytewise_ops) it = Ok v) in Hv. rewrite Hval, Hst, Hk.
  change (negb true) with false. change (negb (ok StatusOK)) with false. cbn iota. mred. rewrite (above_last _ _ _ _ Hs), Hv. mred.
  destruct (next_rest bytewise _ _ C m1 (k, v) m2 eq_refl it Hov) as (it' & Em & Hov'). change (iter_Next (IteratorOps := bytewise_ops) it = Ok (tt, it')) in Em.
  rewrite Em. mred. assert (m1 ++ (k, v) :: m2 = (m1 ++ [(k, v)]) ++ m2) as Ea by by rewrite <-app_assoc. rewrite Ea in Hs, Hov'.
  specialize (IH (m1 ++ [(k, v)]) fuel it' (read_property k v p) Hs Hov' ltac:(cbn in Hfuel; lia)). rewrite last_snoc in IH. cbn in IH. exact IH.
Qed.

(** ** What a table can be read as *)

(** The index of [t] has the entries [ix]; its handles stand for [blocks], whose contents are
    [kvs], and its keys lie between the blocks. *)
Record readable pl lib c `{!UserComparatorLaws c} {F} `{RandomAccessFile F} (t : BlockBasedTable F) (ro : ReadOptions) (kvs : entries)
    (raw : bytes) (ix : entries) (blocks : list (bytes * entries)) : Prop := {
  rd_index : ∃ b it, t_index t = Some b ∧ opens b it ∧ over_iter raw ix it None;
  rd_index_sorted : sorted_keys (InternalKeyComparator_Compare c) ix;
  rd_sorted : sorted_keys (InternalKeyComparator_Compare c) kvs;
  rd_kvs : mjoin (snd <$> blocks) = kvs;
  rd_length : length ix = length blocks;
  rd_nonempty : Forall (λ blk, snd blk ≠ []) blocks;
  rd_read j kh blk : ix !! j = Some kh → blocks !! j = Some blk →
    ∃ b it, read_data_block pl lib t ro (snd kh) = Ok (StatusOK, Some b) ∧ opens b it ∧ over_iter (fst blk) (snd blk) it None;
  rd_handles j j' k k' h : ix !! j = Some (k, h) → ix !! j' = Some (k', h) → j = j';
  rd_last j k h kv : ix !! j = Some (k, h) → kv ∈ mjoin (snd <$> take (S j) blocks) → ¬ (internal_order c k (fst kv) < 0)%Z;
  rd_next j k h kv : ix !! j = Some (k, h) → kv ∈ mjoin (snd <$> drop (S j) blocks) → (internal_order c k (fst kv) < 0)%Z;
}.

(** ** Opening the file *)

Section opening.
Context (pl : platform) (Hpl : platform_ok pl) (lib : compression_library) (Hlib : compression_ok lib).
Context (c : UserComparator) `{!UserComparatorLaws c} (collected : entries) (Hnames : names_ok collected).
Context (o : BlockBasedTableOptions) (kvs : entries) (data : bytes) (ws : list written) (ix : entries) (p : TableProperties) (wp wm wi : written)
  (footer : Footer) (Fin : finished lib c collected o kvs data ws ix p wp wm wi footer).
Context {F : Type} `{RandomAccessFileLaws F} (file : F) (Hfile : stored file = data).
Abbreviation cmp := (InternalKeyComparator_Compare c).
Abbreviation less a b := (internal_order c a b < 0)%Z.
Abbreviation footer' := (upconverted footer).

(** A block in the file is read back. *)
Lemma run_contents pre w post verify : ws ++ [wp; wm; wi] = pre ++ w :: post →
  ReadBlockContents pl lib file footer' verify (handle_at pre w) true = Ok (StatusOK, (w_raw w, kNoCompression)) ∧
  (w_type w = kNoCompression → ReadBlockContents pl lib file footer' verify (handle_at pre w) false = Ok (StatusOK, (w_raw w, kNoCompression))).
Proof.
  intros E. destruct Fin. destruct fin_footer0 as (_ & Hv & Hck & _). rewrite E in fin_data0, fin_blocks0.
  apply Forall_app in fin_blocks0 as [_ [Hw _]%Forall_cons]. destruct Hw as [_ Hst Hseal Hl]. rewrite <-Hv in Hst. rewrite <-Hck in Hseal.
  eapply (run_ReadBlockContents pl Hpl lib file footer' verify _ (file_bytes pre) (w_raw w) (w_contents w) (w_type w) (w_trailer w)
    (file_bytes post ++ footer_bytes footer)); try done.
  rewrite Hfile, fin_data0. change (w :: post) with ([w] ++ post). by rewrite !file_bytes_app, file_bytes_one, <-!app_assoc.
Qed.

Lemma run_read pre w post ro : ws ++ [wp; wm; wi] = pre ++ w :: post →
  ∃ b it, ReadBlockFromFile pl lib file footer' ro (handle_at pre w) = Ok (StatusOK, Some b) ∧ opens b it ∧
    over_iter (w_raw w) (w_kvs w) it None.
Proof.
  intros E. pose proof (fin_blocks _ _ _ _ _ _ _ _ _ _ _ _ _ Fin) as Hb. rewrite E in Hb. apply Forall_app in Hb as [_ [[Hblk _ _ Hl] _]%Forall_cons].
  destruct (run_open_block _ _ Hblk Hl) as (b & it & Eb & En & Hov). exists b, it. split; [|done].
  unfold ReadBlockFromFile. rewrite (proj1 (run_contents pre w post _ E)). mred. cbn [fst snd]. change (ok StatusOK) with true. cbn iota. by rewrite Eb.
Qed.

Lemma run_ReadMetaBlock : ∃ b it, ReadMetaBlock pl lib file footer' = Ok (StatusOK, Some (b, it)) ∧ over_block (w_raw wm) (w_kvs wm) it None.
Proof.
  destruct (run_read (ws ++ [wp]) wm [wi] ReadOptions_new) as (b & it & E & En & Hov); [by rewrite <-app_assoc|].
  exists b, (inl it). split; [|done]. unfold ReadMetaBlock. destruct (fin_footer _ _ _ _ _ _ _ _ _ _ _ _ _ Fin) as (_ & _ & _ & Hm & _).
  change (metaindex_handle_ footer') with (metaindex_handle_ footer). rewrite Hm, E. mred. by rewrite (proj2 En).
Qed.

Lemma run_CreateBinarySearchIndex :
  ∃ b it, CreateBinarySearchIndex pl lib file footer' = Ok (StatusOK, Some b) ∧ opens b it ∧ over_iter (w_raw wi) ix it None.
Proof.
  destruct (run_read (ws ++ [wp; wm]) wi [] ReadOptions_new) as (b & it & E & En & Hov); [by rewrite <-app_assoc|].
  exists b, it. rewrite (fin_index _ _ _ _ _ _ _ _ _ _ _ _ _ Fin) in Hov. split; [|done]. unfold CreateBinarySearchIndex.
  destruct (fin_footer _ _ _ _ _ _ _ _ _ _ _ _ _ Fin) as (_ & _ & _ & _ & Hi). by change (index_handle_ footer') with (index_handle_ footer); rewrite Hi.
Qed.

(** Every handle stands for a block of the file. *)
Lemma stored_handle pre w post : ws ++ [wp; wm; wi] = pre ++ w :: post → handle_ok (handle_at pre w).
Proof.
  intros E. pose proof (fin_size _ _ _ _ _ _ _ _ _ _ _ _ _ Fin) as Hs. rewrite (fin_data _ _ _ _ _ _ _ _ _ _ _ _ _ Fin), E in Hs.
  apply (handle_at_ok _ _ (2 ^ 62)); [|done]. change (w :: post) with ([w] ++ post) in Hs. rewrite !file_bytes_app, !length_app in Hs.
  rewrite file_bytes_app, length_app. lia.
Qed.

Lemma block_entries raw l : block_with raw l → length l ≤ length raw.
Proof.
  intros (es & ps & B & <-). rewrite length_fmap. pose proof (data_bounds _ _ _ B). rewrite off_end in *.
  assert (length es ≤ length (bytes_of es)); [|lia]. clear. induction es as [|e es IH]; [done|]. change (bytes_of (e :: es)) with (entry_bytes e ++ bytes_of es). rewrite length_app. pose proof (entry_length e). cbn [length]. lia.
Qed.

Lemma run_ReadProperties :
  ReadProperties pl lib (handle_bytes (handle_at ws wp)) file footer' = Ok (StatusOK, Some (read_all (property_map o collected p) TableProperties_new)).
Proof.
  assert (ws ++ [wp; wm; wi] = ws ++ wp :: [wm; wi]) as E by done. destruct (fin_props _ _ _ _ _ _ _ _ _ _ _ _ _ Fin) as [Hkvs Ht].
  unfold ReadProperties. rewrite <-(app_nil_r (handle_bytes _)), run_handle_DecodeFrom by (by eapply stored_handle). change (negb (ok StatusOK)) with false. cbn iota.
  rewrite (proj2 (run_contents ws wp _ false E) Ht). mred. cbn [fst snd]. change (negb (ok StatusOK)) with false. cbn iota.
  pose proof (fin_blocks _ _ _ _ _ _ _ _ _ _ _ _ _ Fin) as Hb. apply Forall_app in Hb as [_ [[Hblk _ _ Hl] _]%Forall_cons]. rewrite Hkvs in Hblk.
  destruct (run_open_block _ _ Hblk Hl) as (b & it & Eb & En & Hov). rewrite Eb. mred. rewrite (proj2 En). mred.
  pose proof (property_map_sorted o collected p Hnames) as Hs. pose proof (over_block_cursor bytewise (w_raw wp) _ (bytewise_sorted _ Hs)) as C.
  destruct (cursor_move bytewise (Cursor := C) OpSeekToFirst (inl it) None Logic.I Hov) as (it' & Em & Hov').
  change (iter_SeekToFirst (IteratorOps := bytewise_ops) (inl it) = Ok (tt, it')) in Em. rewrite Em. mred. cbn [snd].
  pose proof (block_entries _ _ Hblk).
  assert ((if decide (0 < length (property_map o collected p)) then Some 0 else None) = at_rest [] (property_map o collected p)) as Er
    by (destruct (property_map o collected p); [done|cbn [length]; by rewrite decide_True by lia]).
  rewrite Er in Hov'. assert (property_loop (S (length (w_raw wp))) it' [] TableProperties_new = Ok (StatusOK, read_all (property_map o collected p) TableProperties_new)) as ->
    by (apply (run_property_loop (w_raw wp) _ []); [done|done|lia]). done.
Qed.

Abbreviation found_properties := (read_all (property_map o collected p) TableProperties_new).

Lemma run_read_table_properties it : over_block (w_raw wm) (w_kvs wm) it None →
  read_table_properties pl lib file footer' it = Ok (StatusOK, Some found_properties).
Proof.
  rewrite (fin_meta _ _ _ _ _ _ _ _ _ _ _ _ _ Fin). set (h := handle_bytes _). intros Hov. pose proof (run_ReadProperties) as Hread. fold h in Hread.
  assert (StronglySorted before [(kPropertiesBlock, h)]) as Hs by repeat constructor.
  pose proof (over_block_cursor bytewise (w_raw wm) _ (bytewise_sorted _ Hs)) as C.
  pose proof (cursor_move bytewise (Cursor := C) (OpSeek kPropertiesBlock) it None Logic.I Hov) as Hm. cbn [list_move] in Hm.
  assert (list_find (λ kv : bytes * bytes, 0 ≤ key_order bytewise (fst kv) kPropertiesBlock)%Z [(kPropertiesBlock, h)] = Some (0, (kPropertiesBlock, h))) as Ef.
  { cbn [list_find]. rewrite decide_True; [done|]. change (0 ≤ lex kPropertiesBlock kPropertiesBlock)%Z. by rewrite (proj2 (lex_eq _ _)). }
  rewrite Ef in Hm. destruct Hm as (it' & Em & Hov'). change (iter_Seek (IteratorOps := bytewise_ops) kPropertiesBlock it = Ok (tt, it')) in Em.
  destruct (cursor_entry bytewise (Cursor := C) it' 0 Hov') as (k & v & Hlook & Hk & Hv).
  change (Some (kPropertiesBlock, h) = Some (k, v)) in Hlook. assert (k = kPropertiesBlock ∧ v = h) as [-> ->] by (split; congruence).
  change (iter_key (IteratorOps := bytewise_ops) it' = Ok kPropertiesBlock) in Hk. change (iter_value (IteratorOps := bytewise_ops) it' = Ok h) in Hv.
  assert (iter_Valid (IteratorOps := bytewise_ops) it' = true) as Hval by exact (cursor_valid bytewise it' _ Hov').
  assert (iter_status (IteratorOps := bytewise_ops) it' = StatusOK) as Hst by exact (cursor_status bytewise it' _ Hov').
  unfold read_table_properties, SeekToPropertiesBlock. rewrite Em. mred. cbn [snd]. unfold not_at. rewrite Hval, Hk. mred. rewrite bool_decide_true by done.
  rewrite Hst. change (ok StatusOK && negb true) with false. cbn iota. mred. change (negb (ok StatusOK)) with false. cbn iota.
  rewrite Hst. change (ok StatusOK) with true. cbn iota. rewrite Hv. mred. exact Hread.
Qed.

Lemma run_CreateIndexReader :
  ∃ b it, CreateIndexReader pl lib file footer' (Some found_properties) = Ok (StatusOK, Some b) ∧ opens b it ∧ over_iter (w_raw wi) ix it None.
Proof.
  destruct run_CreateBinarySearchIndex as (b & it & E & Hrest). exists b, it. split; [|done]. unfold CreateIndexReader.
  destruct (find_property (property_map o collected p) kIndexType (EncodeFixed32 0)) as (i & ->);
    [by apply property_map_sorted|by split; vm_compute|apply property_map_index|]. exact E.
Qed.

Hypothesis Ho : options_ok o.

Lemma run_Open o0 : ∃ b it t, BlockBasedTable_Open pl lib o0 file (Z.of_nat (length data)) true = Ok (StatusOK, Some t) ∧
  t_file t = file ∧ t_footer t = footer' ∧ t_index t = Some b ∧ opens b it ∧ over_iter (w_raw wi) ix it None.
Proof.
  destruct (fin_footer _ _ _ _ _ _ _ _ _ _ _ _ _ Fin) as (Hok & Hv & _). unfold BlockBasedTable_Open.
  assert (∃ f0, Footer_new 0 0 = Ok f0 ∧ table_magic_number_ f0 = 0%Z) as (f0 & -> & Hf0) by (eexists; split; reflexivity). mred.
  rewrite <-Hfile, (run_ReadFooterFromFile file (file_bytes (ws ++ [wp; wm; wi])) footer) by (rewrite ?Hfile; done || apply Fin). mred.
  change (negb (ok StatusOK)) with false. cbn iota. assert (BlockBasedTableSupportedVersion (f_version footer') = true) as ->.
  { change (f_version footer') with (f_version footer). rewrite Hv. apply Z.leb_le. apply Ho. }
  change (negb true) with false. cbn iota. destruct run_ReadMetaBlock as (mb & mit & Em & Hmov). rewrite Em. mred.
  rewrite (run_read_table_properties mit Hmov). mred. cbv zeta. cbn [fst snd].
  destruct run_CreateIndexReader as (b & it & Eb & En & Hov). rewrite Eb. mred. cbn [fst snd]. change (ok StatusOK) with true. cbn iota.
  eexists b, it, _. by split_and!.
Qed.

(** *** The index and its blocks *)

Lemma fin_at j kh : ix !! j = Some kh → ∃ w, ws !! j = Some w ∧ snd kh = handle_bytes (handle_at (take j ws) w) ∧
  ws ++ [wp; wm; wi] = take j ws ++ w :: (drop (S j) ws ++ [wp; wm; wi]).
Proof.
  destruct kh as [k h]. intros Hj. destruct (fin_handles _ _ _ _ _ _ _ _ _ _ _ _ _ Fin j k h Hj) as (w & Hw & ->). exists w. split_and!; [done..|].
  by rewrite <-(take_drop_middle ws j w Hw) at 1; rewrite <-app_assoc.
Qed.

Lemma elem_of_flushed j w kv : ws !! j = Some w → kv ∈ w_kvs w →
  (∀ n, j < n → kv ∈ flushed (take n ws)) ∧ (∀ n, n ≤ j → kv ∈ flushed (drop n ws)).
Proof.
  intros Hw Hkv. assert (∀ l i, l !! i = Some w → kv ∈ flushed l) as Hin.
  { intros l i Hi. unfold flushed. apply list_elem_of_join. exists (w_kvs w). split; [done|]. apply (list_elem_of_fmap_2 w_kvs). by eapply list_elem_of_lookup_2. }
  split; intros n Hn; [apply (Hin _ j)|apply (Hin _ (j - n))]; [by rewrite lookup_take_lt|].
  rewrite lookup_drop. by replace (n + (j - n)) with j by lia.
Qed.

Lemma index_sorted : sorted_keys cmp ix.
Proof.
  pose proof (fin_fences _ _ _ _ _ _ _ _ _ _ _ _ _ Fin) as Hf. split.
  - apply Forall_lookup. intros j [k h] Hj. apply (Hf j k h Hj).
  - apply StronglySorted_lookup. intros i j [k h] [k' h'] Hij Hi Hj. cbn. destruct (fin_at j _ Hj) as (w & Hw & _).
    pose proof (fin_nonempty _ _ _ _ _ _ _ _ _ _ _ _ _ Fin) as Hne. rewrite Forall_lookup in Hne. specialize (Hne j w Hw).
    destruct (w_kvs w) as [|x l] eqn:Ew; [done|]. destruct (elem_of_flushed j w x Hw) as [Ht Hd]; [rewrite Ew; left|].
    destruct (Hf i k h Hi) as (_ & _ & Hnext). destruct (Hf j k' h' Hj) as (_ & Hlast & _).
    assert (less k (fst x)) as Hlt by (apply Hnext, elem_of_app; left; apply Hd; lia).
    assert (internal_order c (fst x) k' ≤ 0)%Z as Hle by (specialize (Hlast x (Ht (S j) ltac:(lia))); pose proof (internal_order_sym c (fst x) k'); lia).
    exact (order_lt_le cmp k (fst x) k' Hlt Hle).
Qed.

Lemma file_bytes_mono j j' : j < j' → j' ≤ length ws → length (file_bytes (take j ws)) < length (file_bytes (take j' ws)).
Proof.
  intros Hj Hl. destruct (lookup_lt_is_Some_2 ws j ltac:(lia)) as [w Hw]. assert (take j' ws = take j ws ++ [w] ++ drop (S j) (take j' ws)) as ->.
  { rewrite <-(take_drop_middle (take j' ws) j w) at 1 by (by rewrite lookup_take_lt by lia). by rewrite take_take, Nat.min_l by lia. }
  rewrite !file_bytes_app, file_bytes_one, !length_app. pose proof (fin_blocks _ _ _ _ _ _ _ _ _ _ _ _ _ Fin) as Hb. apply Forall_app in Hb as [Hb _].
  rewrite Forall_lookup in Hb. destruct (Hb j w Hw) as [_ _ Hs _]. rewrite (length_sealed _ _ _ _ Hs). lia.
Qed.

Lemma handles_differ j j' k k' h : ix !! j = Some (k, h) → ix !! j' = Some (k', h) → j = j'.
Proof.
  intros Hj Hj'. destruct (fin_at j _ Hj) as (w & Hw & Eh & E), (fin_at j' _ Hj') as (w' & Hw' & Eh' & E'). cbn [snd] in Eh, Eh'. rewrite Eh in Eh'.
  apply handle_bytes_inj in Eh' as [= Eo _]; [|by eapply stored_handle..]. apply lookup_lt_Some in Hw, Hw'.
  destruct (Nat.lt_trichotomy j j') as [Hlt|[?|Hlt]]; [|done|]; apply file_bytes_mono in Hlt; lia.
Qed.

(** *** The opened table *)

Lemma opened_readable t ro b it : sorted_keys cmp kvs → t_file t = file → t_footer t = footer' → t_index t = Some b → opens b it →
  over_iter (w_raw wi) ix it None → no_io ro = false →
  readable pl lib c t ro kvs (w_raw wi) ix ((λ w, (w_raw w, w_kvs w)) <$> ws).
Proof.
  intros Hs Hf Hfo Hb Hop Hov Hro. pose proof (fin_fences _ _ _ _ _ _ _ _ _ _ _ _ _ Fin) as Hfe. split.
  - by exists b, it.
  - apply index_sorted.
  - done.
  - rewrite <-list_fmap_compose. apply Fin.
  - by rewrite length_fmap, (fin_length _ _ _ _ _ _ _ _ _ _ _ _ _ Fin).
  - apply Forall_fmap. apply (fin_nonempty _ _ _ _ _ _ _ _ _ _ _ _ _ Fin).
  - intros j kh blk Hj (w & -> & Hw)%list_lookup_fmap_Some. destruct (fin_at j kh Hj) as (w' & Hw' & Eh & E). assert (w' = w) as -> by congruence.
    destruct (run_read _ _ _ ro E) as (b' & it' & Er & Hop' & Hov'). exists b', it'. split_and!; [|done..].
    unfold read_data_block. rewrite Eh, <-(app_nil_r (handle_bytes _)), run_handle_DecodeFrom by (by eapply stored_handle).
    change (negb (ok StatusOK)) with false. cbn iota. by rewrite Hro, Hf, Hfo.
  - apply handles_differ.
  - intros j k h kv Hj Hkv. rewrite <-fmap_take, <-list_fmap_compose in Hkv. by apply (Hfe j k h Hj).
  - intros j k h kv Hj Hkv. rewrite <-fmap_drop, <-list_fmap_compose in Hkv. apply (Hfe j k h Hj), elem_of_app. by left.
Qed.
End opening.

(** ** The iterator over a table *)

Section iterator.
Context (pl : platform) (lib : compression_library) (c : UserComparator) `{!UserComparatorLaws c} {F : Type} `{RandomAccessFile F}.
Context (t : BlockBasedTable F) (ro : ReadOptions) (kvs : entries) (raw : bytes) (ix : entries) (blocks : list (bytes * entries))
  (Rd : readable pl lib c t ro kvs raw ix blocks).
Abbreviation cmp := (InternalKeyComparator_Compare c).

Definition over_data (j : nat) : block_iterator → option nat → Prop :=
  match blocks !! j with Some blk => over_block (fst blk) (snd blk) | None => λ _ _, False end.

Lemma elem_of_blocks j blk kv : blocks !! j = Some blk → kv ∈ snd blk →
  (∀ n, j < n → kv ∈ mjoin (snd <$> take n blocks)) ∧ (∀ n, n ≤ j → kv ∈ mjoin (snd <$> drop n blocks)).
Proof.
  intros Hblk Hkv. assert (∀ (l : list (bytes * entries)) i, l !! i = Some blk → kv ∈ mjoin (snd <$> l)) as Hin.
  { intros l i Hi. apply list_elem_of_join. exists (snd blk). split; [done|]. apply (list_elem_of_fmap_2 snd). by eapply list_elem_of_lookup_2. }
  split; intros n Hn; [apply (Hin _ j)|apply (Hin _ (j - n))]; [by rewrite lookup_take_lt|].
  rewrite lookup_drop. by replace (n + (j - n)) with j by lia.
Qed.

Lemma data_sorted j blk : blocks !! j = Some blk → sorted_keys cmp (snd blk).
Proof.
  intros Hblk. destruct (rd_sorted _ _ _ _ _ _ _ _ _ Rd) as [Hwf Hs]. rewrite <-(rd_kvs _ _ _ _ _ _ _ _ _ Rd), <-(take_drop_middle blocks j blk Hblk) in Hwf, Hs.
  rewrite fmap_app, join_app in Hwf, Hs. cbn in Hwf, Hs. split.
  - apply Forall_app in Hwf as [_ Hwf]. by apply Forall_app in Hwf as [Hwf _].
  - apply StronglySorted_app_1_r in Hs. by apply StronglySorted_app_1_l in Hs.
Qed.

Lemma table_two_levels turns : 2 ≤ turns →
  two_levels (HI := sum_ops (H := BlockIter_ops cmp)) (HJ := sum_ops (H := BlockIter_ops cmp)) cmp (BlockEntryIteratorState pl lib t ro) turns
    ix (snd <$> blocks) (over_block raw ix) over_data.
Proof.
  intros Hturns. split.
  - apply over_block_cursor, Rd.
  - intros j b (blk & -> & Hblk)%list_lookup_fmap_Some. unfold over_data. rewrite Hblk. apply over_block_cursor. by eapply data_sorted.
  - rewrite length_fmap. apply Rd.
  - intros j k h Hj. destruct (lookup_lt_is_Some_2 blocks j) as [blk Hblk].
    { rewrite <-(rd_length _ _ _ _ _ _ _ _ _ Rd). by eapply lookup_lt_Some. }
    destruct (rd_read _ _ _ _ _ _ _ _ _ Rd j (k, h) blk Hj Hblk) as (b & it & Er & Hop & Hov). exists (inl it), None.
    unfold over_data. rewrite Hblk. split; [|done]. cbn [NewSecondaryIterator BlockEntryIteratorState]. unfold NewDataBlockIterator. change h with (snd (k, h)). rewrite Er. apply Hop.
  - apply (rd_handles _ _ _ _ _ _ _ _ _ Rd).
  - intros j b (blk & -> & Hblk)%list_lookup_fmap_Some. pose proof (rd_nonempty _ _ _ _ _ _ _ _ _ Rd) as Hne. rewrite Forall_lookup in Hne. by apply (Hne j).
  - intros j k h b kv Hj (blk & -> & Hblk)%list_lookup_fmap_Some Hkv. apply (rd_last _ _ _ _ _ _ _ _ _ Rd j k h kv Hj). by apply (elem_of_blocks j blk); [..|lia].
  - intros j k h b kv Hj (blk & -> & Hblk)%list_lookup_fmap_Some Hkv. apply (rd_next _ _ _ _ _ _ _ _ _ Rd j k h kv Hj). by apply (elem_of_blocks (S j) blk).
  - done.
  - done.
Qed.
End iterator.

(** ** Writing and reading a table *)

(** The options as the builder changes them. *)
Definition builder_options (o : BlockBasedTableOptions) : BlockBasedTableOptions :=
  if Z.eqb (format_version o) 0 && negb (Z.eqb (checksum o) kCRC32c)
  then mkTableOptions (block_size o) (block_size_deviation o) (block_restart_interval o) (checksum o) 1 (whole_key_filtering o) else o.

(** A client that adds entries and finishes. *)
Fixpoint table_add_all pl lib c compression {F} `{WritableFile F} (kvs : entries) : prog (Rep F) unit :=
  match kvs with
  | [] => mret tt
  | (k, v) :: kvs => TableBuilder_Add pl lib c compression k v;; table_add_all pl lib c compression kvs
  end.

Definition write_table pl lib c compression collected {F} `{WritableFile F} (o : BlockBasedTableOptions) (kvs : entries) (file : F) : outcome (Status * Rep F) :=
  r ← BlockBasedTableBuilder_new o file;
  (table_add_all pl lib c compression kvs;; TableBuilder_Finish pl lib c compression collected) r.

Section round_trip.
Context (pl : platform) (Hpl : platform_ok pl) (lib : compression_library) (Hlib : compression_ok lib).
Context (c : UserComparator) `{!UserComparatorLaws c} (compression : Z) (Hcomp : compression_type compression) (collected : entries).
Context {W : Type} `{WritableFileLaws W}.
Abbreviation cmp := (InternalKeyComparator_Compare c).

Lemma run_builder_new o (file : W) : options_ok (builder_options o) → contents file = [] →
  ∃ r, BlockBasedTableBuilder_new o file = Ok r ∧ adding lib c (builder_options o) r [] [] [] [].
Proof.
  intros Ho Hfile. unfold BlockBasedTableBuilder_new. fold (builder_options o). set (o' := builder_options o) in *.
  destruct (given_new (block_restart_interval o') (proj1 Ho)) as (b & Eb & Hb), (given_new 1 ltac:(lia)) as (i & Ei & Hi).
  rewrite Eb. mred. rewrite Ei. mred. eexists. split; [reflexivity|]. split; rep; try done.
Qed.

Lemma run_table_add_all o kvs2 : ∀ (r : Rep W) kvs1 ws ix cur, options_ok o → adding lib c o r kvs1 ws ix cur → sorted_keys cmp (kvs1 ++ kvs2) →
  table_fits collected (kvs1 ++ kvs2) →
  ∃ r' ws' ix' cur', table_add_all pl lib c compression kvs2 r = Ok (tt, r') ∧ adding lib c o r' (kvs1 ++ kvs2) ws' ix' cur'.
Proof.
  induction kvs2 as [|[k v] kvs2 IH]; intros r kvs1 ws ix cur Ho Had Hs Hf.
  { exists r, ws, ix, cur. by rewrite app_nil_r. }
  assert (kvs1 ++ (k, v) :: kvs2 = (kvs1 ++ [(k, v)]) ++ kvs2) as E by by rewrite <-app_assoc. rewrite E in *.
  destruct (run_TableBuilder_Add pl Hpl lib Hlib c compression Hcomp collected o r kvs1 ws ix cur k v Ho Had) as (r1 & ws1 & ix1 & cur1 & E1 & Had1).
  - destruct Hs as [Hwf Hss]. apply Forall_app in Hwf as [Hwf _]. split; [done|]. exact (StronglySorted_app_1_l _ _ _ Hss).
  - by apply table_fits_app in Hf as [Hf _].
  - destruct (IH r1 _ ws1 ix1 cur1 Ho Had1 Hs Hf) as (r2 & ws2 & ix2 & cur2 & E2 & Had2). exists r2, ws2, ix2, cur2. split; [|done].
    cbn [table_add_all]. by rewrite (bind_Ok _ _ _ _ _ E1).
Qed.

Context {F : Type} `{RandomAccessFileLaws F}.

(** A table with these entries is written, opened and can be read. *)
Lemma write_and_open o kvs (wf : W) ro :
  options_ok (builder_options o) → names_ok collected → sorted_keys cmp kvs → table_fits collected kvs → contents wf = [] → no_io ro = false →
  ∃ r, write_table pl lib c compression collected o kvs wf = Ok (StatusOK, r) ∧ NumEntries r = Z.of_nat (length kvs) ∧
    FileSize r = Z.of_nat (length (contents (r_file r))) ∧
    ∀ o' (rf : F), stored rf = contents (r_file r) →
      ∃ t raw ix blocks, BlockBasedTable_Open pl lib o' rf (FileSize r) true = Ok (StatusOK, Some t) ∧ readable pl lib c t ro kvs raw ix blocks.
Proof.
  intros Ho Hn Hs Hf Hwf Hro. destruct (run_builder_new o wf Ho Hwf) as (r0 & E0 & Had0).
  destruct (run_table_add_all _ kvs r0 [] [] [] [] Ho Had0 Hs Hf) as (r1 & ws1 & ix1 & cur1 & E1 & Had1). cbn [app] in Had1.
  destruct (run_TableBuilder_Finish pl Hpl lib Hlib c compression Hcomp collected _ r1 kvs ws1 ix1 cur1 Ho Had1 Hs Hf Hn)
    as (r & ws & ix & p & wp & wm & wi & footer & Ef & Hsz & Hne & Fin).
  exists r. unfold write_table. rewrite E0. mred. rewrite (bind_Ok _ _ _ _ _ E1). split; [done|]. split; [done|]. split; [done|].
  intros o' rf Hst. rewrite Hsz.
  destruct (run_Open pl Hpl lib c collected Hn _ kvs _ ws ix p wp wm wi footer Fin rf Hst Ho o') as (b & it & t & Eo & Ht & Hft & Hix & En & Hov).
  eexists t, _, _, _. split; [exact Eo|]. by eapply opened_readable.
Qed.

End round_trip.

(** ** A concrete table *)

(** A library that stores what it is given. *)
Definition ex_compression : compression_library :=
  let keep := λ (_ : Z) (x : bytes), Some x in
  mkCompression Some (λ x, Some (Z.of_nat (length x))) Some keep keep keep keep keep keep keep.

Lemma ex_compression_ok : compression_ok ex_compression.
Proof. split; intros; cbn in *; congruence. Qed.

(** Small blocks, the second checksum, and an old version the builder changes. *)
Definition ex_options : BlockBasedTableOptions := mkTableOptions 40 10 2 kxxHash 0 true.

Definition ex_collected : entries := [(str "test.property", str "yes")].

Lemma ex_names_ok : names_ok ex_collected.
Proof. apply (bool_decide_unpack _). by vm_compute. Qed.

Definition ex_ops : list iter_op := [OpSeekToLast; OpPrev; OpSeek (ex_key "applet" 5); OpNext].
Definition ex_shown : list (Status * option (bytes * bytes)) :=
  (λ kv, (StatusOK, Some kv)) <$>
  [(ex_key "banana" 7, str "yellow"); (ex_key "applet" 2, str "small"); (ex_key "applet" 4, []); (ex_key "applet" 2, str "small")].

Lemma ex_walk : list_walk (InternalKeyComparator_Compare BytewiseComparator) ex_entries ex_ops None = Ok ex_shown.
Proof. by vm_compute. Qed.

Lemma ex_ops_wf : Forall (wf_op (InternalKeyComparator_Compare BytewiseComparator)) ex_ops.
Proof. repeat constructor; vm_compute; lia. Qed.

