(* ===== verification/TableGet.v ===== *)
(** * RocksDB: looking a key up in a table

    [BlockBasedTable::Get] hands the entries from the key on to the context, block by block,
    until the context has what it needs.  What it finds is decided by the versions of the key
    alone, as in a memtable with the same history. *)

From S2P Require Import Prelude Varint BaseUint Coding CrcTables Crc32c Env WriteBatch XxHash SkipList SkipListLaws SkipListSpec DbFormat DbFormatLaws.
From S2P Require Import MemTable MemTableSpec Iterator Block BlockSpec TwoLevel TableFormat Table TableSpec TableRead.
From stdpp Require Import sorting.

(** The part of a sorted list from the first element with an upward closed property. *)
Lemma seek_split (R : relation (bytes * bytes)) (P : bytes * bytes → Prop) `{∀ x, Decision (P x)} (l : entries) :
  (∀ x y, R x y → P x → P y) → StronglySorted R l →
  ∃ l1 l2, l = l1 ++ l2 ∧ fst <$> list_find P l = at_rest l1 l2 ∧ l2 = filter P l ∧ Forall (λ x, ¬ P x) l1.
Proof.
  intros Hup Hs. induction Hs as [|x l Hs IH Hall]; [by exists [], []|]. cbn [list_find]. rewrite filter_cons. destruct (decide (P x)) as [Hx|Hx].
  - exists [], (x :: l). split_and!; [done..| |done]. f_equal. symmetry. apply filter_all. eapply Forall_impl; [exact Hall|]. intros y Hy. by eapply Hup.
  - destruct IH as (l1 & l2 & -> & Hf & Hl2 & Hno). exists (x :: l1), l2. split_and!; [done| |done|by constructor].
    destruct (list_find P (l1 ++ l2)) as [[i y]|]; cbn in *; destruct l2; cbn in *; congruence.
Qed.

Section get.
Context (c : UserComparator) `{!UserComparatorLaws c} (mo : option (bytes → option bytes → list bytes → bool * bytes)).
Abbreviation cmp := (InternalKeyComparator_Compare c).

(** What the context makes of entries given to it one by one, and whether it stopped. *)
Fixpoint save_run (l : entries) (g : Get.GetContext) : outcome (bool * Get.GetContext) :=
  match l with
  | [] => Ok (false, g)
  | kv :: l =>
      x ← ParseInternalKey (fst kv);
      parsed_key ← of_option OutOfBounds (snd x);
      r ← Get.GetContext_SaveValue c mo parsed_key (snd kv) g;
      if fst r : bool then save_run l (snd r) else Ok (true, snd r)
  end.

Lemma save_run_app l1 l2 g : save_run (l1 ++ l2) g = (r ← save_run l1 g; if fst r : bool then Ok r else save_run l2 (snd r)).
Proof.
  revert g. induction l1 as [|kv l1 IH]; intros g; [done|]. cbn [app save_run]. destruct (ParseInternalKey _) as [x|]; mred; [|done].
  destruct (of_option _ _) as [p|]; mred; [|done]. destruct (Get.GetContext_SaveValue _ _ _ _ _) as [[go g']|]; mred; [|done]. cbn [fst snd]. by destruct go; [apply IH|].
Qed.

Lemma run_block_loop data b l2 : sorted_keys cmp b → ∀ l1 fuel it g, b = l1 ++ l2 → over_iter data b it (at_rest l1 l2) → length l2 ≤ fuel →
  match save_run l2 g with
  | Ok (stop, g') => ∃ it' pos, Get.block_loop c mo fuel it g = Ok (stop, it', g') ∧ over_iter data b it' pos
  | Err e => Get.block_loop c mo fuel it g = Err e
  end.
Proof.
  intros Hs. pose proof (over_iter_cursor cmp data b Hs) as C. induction l2 as [|kv l2 IH]; intros l1 fuel it g Hb Hov Hfuel.
  { cbn [save_run]. exists it, None. split; [|done]. assert (iter_Valid (IteratorOps := Get.block_ops c) it = false) as Hv by exact (cursor_valid cmp (Cursor := C) it None Hov).
    by destruct fuel; cbn [Get.block_loop]; rewrite Hv. }
  destruct fuel as [|fuel]; [cbn in Hfuel; lia|]. cbn [Get.block_loop save_run].
  destruct (entry_rest cmp _ _ C l1 kv l2 Hb it Hov) as (Hval & _ & Hk & Hv).
  change (iter_Valid (IteratorOps := Get.block_ops c) it = true) in Hval. change (iter_key (IteratorOps := Get.block_ops c) it = Ok (fst kv)) in Hk.
  change (iter_value (IteratorOps := Get.block_ops c) it = Ok (snd kv)) in Hv. rewrite Hval, Hk, Hv. cbn [negb]. mred.
  destruct (ParseInternalKey _) as [x|]; mred; [|done]. destruct (of_option _ _) as [p|]; mred; [|done].
  destruct (Get.GetContext_SaveValue _ _ _ _ _) as [[go g']|]; mred; [|done]. cbn [fst snd]. destruct go; [|by exists it, (at_rest l1 (kv :: l2))].
  destruct (next_rest cmp _ _ C l1 kv l2 Hb it Hov) as (it' & En & Hov'). change (iter_Next (IteratorOps := Get.block_ops c) it = Ok (tt, it')) in En.
  rewrite En. mred. apply (IH (l1 ++ [kv])); [by rewrite <-app_assoc|done|cbn in Hfuel; lia].
Qed.

Lemma run_bound data b it pos : over_iter data b it pos → length b ≤ Get.entries_bound it.
Proof.
  intros (es & ps & B & Hb & Hst). assert (block_with data b) as Hw by by exists es, ps. apply block_entries in Hw.
  destruct (stands_over _ _ _ _ _ Hst) as (Hd & _). unfold Get.entries_bound. rewrite Hd. done.
Qed.

Context (pl : platform) (lib : compression_library) {F : Type} `{RandomAccessFile F}.
Context (t : BlockBasedTable F) (ro : ReadOptions) (kvs : entries) (raw : bytes) (ix : entries) (blocks : list (bytes * entries))
  (Rd : readable pl lib c t ro kvs raw ix blocks) (Hro : no_io ro = false).
Context (key : bytes) (Hkey : is_internal key).
Abbreviation reached := (λ kv : bytes * bytes, 0 ≤ internal_order c (fst kv) key)%Z.

Lemma reached_up x y : (internal_order c (fst x) (fst y) < 0)%Z → reached x → reached y.
Proof.
  cbn. intros Hlt Hx. pose proof (internal_order_sym c key (fst x)). assert (internal_order c key (fst y) < 0)%Z; [|pose proof (internal_order_sym c key (fst y)); lia].
  assert (internal_order c key (fst x) ≤ 0)%Z as Hle by lia. exact (order_le_lt cmp key (fst x) (fst y) Hle Hlt).
Qed.

(** What is found in one block. *)
Lemma run_seek_block data b it g : sorted_keys cmp b → over_iter data b it None →
  ∃ it1, iter_Seek (IteratorOps := Get.block_ops c) key it = Ok (tt, it1) ∧
    match save_run (filter reached b) g with
    | Ok (stop, g') => ∃ it' pos, Get.block_loop c mo (Get.entries_bound it1) it1 g = Ok (stop, it', g') ∧ over_iter data b it' pos
    | Err e => Get.block_loop c mo (Get.entries_bound it1) it1 g = Err e
    end.
Proof.
  intros Hs Hov. pose proof (over_iter_cursor cmp data b Hs) as C.
  pose proof (cursor_move cmp (Cursor := C) (OpSeek key) it None Hkey Hov) as (it1 & E & Hov1). exists it1. split; [exact E|].
  destruct (seek_split _ reached b reached_up (proj2 Hs)) as (l1 & l2 & Hb & Hf & <- & _). cbn [list_move] in Hov1.
  change (over_iter data b it1 (fst <$> list_find reached b)) in Hov1. rewrite Hf in Hov1. pose proof (run_bound _ _ _ _ Hov1) as Hl. rewrite Hb, length_app in Hl.
  apply (run_block_loop data b l2 Hs l1); [done|done|]. lia.
Qed.

Lemma run_index_loop ix2 : ∀ ix1 bl1 bl2 fuel iiter g, ix = ix1 ++ ix2 → blocks = bl1 ++ bl2 → length ix1 = length bl1 → over_iter raw ix iiter (at_rest ix1 ix2) →
  length ix2 ≤ fuel →
  match save_run (filter reached (mjoin (snd <$> bl2))) g with
  | Ok (stop, g') => ∃ iiter' pos, Get.index_loop c mo pl lib fuel t ro key false StatusOK iiter g = Ok (StatusOK, iiter', g') ∧ over_iter raw ix iiter' pos
  | Err e => Get.index_loop c mo pl lib fuel t ro key false StatusOK iiter g = Err e
  end.
Proof.
  pose proof (over_iter_cursor cmp raw ix (rd_index_sorted _ _ _ _ _ _ _ _ _ Rd)) as C. pose proof (rd_length _ _ _ _ _ _ _ _ _ Rd) as Hlen.
  induction ix2 as [|[k h] ix2 IH]; intros ix1 bl1 bl2 fuel iiter g Hix Hbl Hl Hov Hfuel.
  { destruct bl2 as [|blk bl2]; [|rewrite Hix, Hbl, !length_app in Hlen; cbn in Hlen; lia]. cbn. exists iiter, None. split; [|done].
    assert (iter_Valid (IteratorOps := Get.block_ops c) iiter = false) as Hv by exact (cursor_valid cmp (Cursor := C) iiter None Hov).
    by destruct fuel; cbn [Get.index_loop]; rewrite Hv. }
  destruct bl2 as [|blk bl2]; [rewrite Hix, Hbl, !length_app in Hlen; cbn in Hlen; lia|].
  destruct fuel as [|fuel]; [cbn in Hfuel; lia|]. cbn [Get.index_loop].
  destruct (entry_rest cmp _ _ C ix1 (k, h) ix2 Hix iiter Hov) as (Hval & _ & _ & Hv). cbn [snd] in Hv.
  change (iter_Valid (IteratorOps := Get.block_ops c) iiter = true) in Hval. change (iter_value (IteratorOps := Get.block_ops c) iiter = Ok h) in Hv.
  rewrite Hval, Hv. cbn [negb andb]. mred.
  assert (blocks !! length ix1 = Some blk) as Hblk by (rewrite Hbl, Hl, lookup_app_r, Nat.sub_diag by lia; done).
  assert (ix !! length ix1 = Some (k, h)) as Hkh by (rewrite Hix, lookup_app_r, Nat.sub_diag by lia; done).
  destruct (rd_read _ _ _ _ _ _ _ _ _ Rd _ _ _ Hkh Hblk) as (b & it & Er & Hop & Hbov). cbn [snd] in Er.
  unfold Get.set_data_iterator. rewrite Er. mred. rewrite (proj1 Hop). mred. cbn [snd].
  pose proof (data_sorted pl lib c t ro kvs raw ix blocks Rd _ _ Hblk) as Hbs. pose proof (over_iter_cursor cmp (fst blk) (snd blk) Hbs) as Cb.
  assert (iter_status (IteratorOps := Get.block_ops c) it = StatusOK) as -> by exact (cursor_status cmp (Cursor := Cb) it None Hbov).
  rewrite Hro. change (false && IsIncomplete StatusOK) with false. change (negb (ok StatusOK)) with false. cbn iota.
  destruct (run_seek_block (fst blk) (snd blk) it g Hbs Hbov) as (it1 & Es & Hloop). rewrite Es. mred. cbn [snd].
  cbn [fmap list_fmap mjoin list_join]. rewrite filter_app, save_run_app.
  destruct (save_run (filter reached (snd blk)) g) as [[stop g']|e]; mred; [|by rewrite Hloop].
  destruct Hloop as (it' & pos & -> & Hov'). mred. cbn [fst snd].
  assert (iter_status (IteratorOps := Get.block_ops c) it' = StatusOK) as -> by exact (cursor_status cmp (Cursor := Cb) it' pos Hov').
  destruct (next_rest cmp _ _ C ix1 (k, h) ix2 Hix iiter Hov) as (ii & En & Hov2). change (iter_Next (IteratorOps := Get.block_ops c) iiter = Ok (tt, ii)) in En.
  rewrite En. mred. cbn [snd]. destruct stop.
  - eexists ii, _. split; [|exact Hov2]. by destruct fuel; cbn [Get.index_loop]; rewrite andb_false_r.
  - apply (IH (ix1 ++ [(k, h)]) (bl1 ++ [blk])); [by rewrite <-app_assoc..|rewrite !length_app; cbn; lia|done|cbn in Hfuel; lia].
Qed.

(** The blocks before the one the index gives have nothing to find. *)
Lemma earlier_blocks ix1 ix2 : ix = ix1 ++ ix2 → Forall (λ kv, ¬ reached kv) ix1 → filter reached (mjoin (snd <$> take (length ix1) blocks)) = [].
Proof.
  intros Hix Hno. destruct ix1 as [|kh ix1 _] using rev_ind; [done|]. apply filter_none. intros kv Hkv Hr.
  destruct kh as [k h]. apply Forall_app in Hno as [_ Hk]. rewrite Forall_singleton in Hk. cbn [fst] in Hk.
  assert (ix !! length ix1 = Some (k, h)) as Hkh by (rewrite Hix, <-app_assoc, lookup_app_r, Nat.sub_diag by lia; done).
  rewrite length_app in Hkv. cbn [length] in Hkv. rewrite Nat.add_1_r in Hkv.
  apply (rd_last _ _ _ _ _ _ _ _ _ Rd _ k h kv Hkh Hkv). pose proof (internal_order_sym c (fst kv) key).
  assert (internal_order c k key < 0)%Z as Hlt by lia. assert (internal_order c key (fst kv) ≤ 0)%Z as Hle by lia.
  exact (order_lt_le cmp k key (fst kv) Hlt Hle).
Qed.

Lemma run_Get g : Get.BlockBasedTable_Get c mo pl lib t ro key g = (r ← save_run (filter reached kvs) g; Ok (StatusOK, snd r)).
Proof.
  destruct (rd_index _ _ _ _ _ _ _ _ _ Rd) as (b & it & Hb & Hop & Hov). pose proof (rd_index_sorted _ _ _ _ _ _ _ _ _ Rd) as Hs.
  pose proof (over_iter_cursor cmp raw ix Hs) as C. unfold Get.BlockBasedTable_Get, Get.set_index_iterator. rewrite Hb. cbn [of_option]. mred. rewrite (proj1 Hop). mred. cbn [snd].
  pose proof (cursor_move cmp (Cursor := C) (OpSeek key) it None Hkey Hov) as (it1 & E & Hov1). cbn [list_move] in Hov1.
  change (iter_Seek (IteratorOps := Get.block_ops c) key it = Ok (tt, it1)) in E. rewrite E. mred. cbn [snd].
  destruct (seek_split _ reached ix reached_up (proj2 Hs)) as (ix1 & ix2 & Hix & Hf & _ & Hno). change (over_iter raw ix it1 (fst <$> list_find reached ix)) in Hov1.
  rewrite Hf in Hov1. pose proof (run_bound _ _ _ _ Hov1) as Hl. pose proof (rd_length _ _ _ _ _ _ _ _ _ Rd) as Hlen. rewrite Hix, length_app in Hl, Hlen.
  assert (filter reached kvs = filter reached (mjoin (snd <$> drop (length ix1) blocks))) as ->.
  { rewrite <-(rd_kvs _ _ _ _ _ _ _ _ _ Rd), <-(take_drop (length ix1) blocks) at 1. rewrite fmap_app, join_app, filter_app.
    by rewrite (earlier_blocks ix1 ix2 Hix Hno). }
  pose proof (run_index_loop ix2 ix1 (take (length ix1) blocks) (drop (length ix1) blocks) (Get.entries_bound it1) it1 g Hix ltac:(by rewrite take_drop)) as Hloop.
  rewrite length_take in Hloop. specialize (Hloop ltac:(lia) Hov1 ltac:(lia)).
  destruct (save_run _ g) as [[stop g']|e]; mred; [|by rewrite Hloop]. destruct Hloop as (ii & pos & -> & Hov2). mred. cbn [fst snd].
  change (ok StatusOK) with true. cbn iota. do 2 f_equal. exact (cursor_status cmp (Cursor := C) ii pos Hov2).
Qed.
End get.

(** ** Versions in a table *)

Definition table_entry (v : version) : bytes * bytes := (version_key v, v_value v).

Section versions.
Context (c : UserComparator) `{!UserComparatorLaws c} (mo : option (bytes → option bytes → list bytes → bool * bytes)).
Abbreviation cmp := (InternalKeyComparator_Compare c).

(** What the context makes of versions given to it, the newest first. *)
Fixpoint gather (vs : list version) (g : Get.GetContext) : outcome Get.GetContext :=
  match vs with
  | [] => Ok g
  | v :: vs =>
      r ← Get.GetContext_SaveValue c mo (mkParsed (v_key v) (v_seq v) (v_type v)) (v_value v) g;
      if fst r : bool then gather vs (snd r) else Ok (snd r)
  end.

Lemma run_parse_version v : valid_version v → ParseInternalKey (version_key v) = Ok (true, Some (mkParsed (v_key v) (v_seq v) (v_type v))).
Proof. intros [Hs Ht _]. apply (run_Parse (mkParsed (v_key v) (v_seq v) (v_type v))). split; cbn [sequence type]; unfold kValueTypeForSeek; lia. Qed.

(** A context that is not for this key stays as it is. *)
Lemma SaveValue_other p v g : Compare c (user_key p) (Get.gc_user_key g) ≠ 0%Z → is_Some (Get.merge_context_ g) → Get.GetContext_SaveValue c mo p v g = Ok (false, g).
Proof.
  intros Hne Hm. unfold Get.GetContext_SaveValue. destruct g as [st uk val vf mc]. cbn in Hne, Hm. rewrite (bool_decide_true (is_Some mc)), orb_true_r by done. cbn [negb].
  by rewrite (proj2 (Z.eqb_neq _ _)).
Qed.

(** The key and the context for operands are kept. *)
Lemma SaveValue_keeps p v g r : Get.GetContext_SaveValue c mo p v g = Ok r → is_Some (Get.merge_context_ g) →
  Get.gc_user_key (snd r) = Get.gc_user_key g ∧ is_Some (Get.merge_context_ (snd r)).
Proof.
  unfold Get.GetContext_SaveValue, Get.merge_value. destruct g as [st uk val vf [mc|]]; [|by intros _ [? [=]]]. cbn [Get.gc_user_key Get.merge_context_ of_option].
  intros E _. destruct st, (Z.eqb (Compare c (user_key p) uk) 0), (Z.eqb (type p) kTypeValue), (Z.eqb (type p) kTypeDeletion), (Z.eqb (type p) kTypeMerge), mo as [f|];
    cbn in E; try discriminate E; repeat (destruct (f _ _ _) as [[] ?]; cbn in E); injection E as <-; by cbn.
Qed.

Lemma run_save_versions k X : Forall valid_version X → StronglySorted (vlt c) X → ∀ s g, Forall (not_before c k s) X →
  Get.gc_user_key g = k → is_Some (Get.merge_context_ g) →
  (r ← save_run c mo (table_entry <$> X) g; Ok (snd r)) = gather (filter (λ v, Compare c (v_key v) k = 0%Z) X) g.
Proof.
  intros Hv Hs s. induction Hs as [|v X Hs IH Hvx]; intros g Hb Hk Hm; [done|]. apply Forall_cons in Hv as [Hvv Hv]. apply Forall_cons in Hb as [Hbv Hb].
  cbn [fmap list_fmap save_run table_entry fst snd]. rewrite run_parse_version by done. mred. cbn [snd of_option]. mred. rewrite filter_cons.
  destruct (decide (Compare c (v_key v) k = 0%Z)) as [E|E].
  - cbn [gather]. destruct (Get.GetContext_SaveValue _ _ _ _ g) as [[go g']|] eqn:Es; mred; [|done]. cbn [fst snd]. destruct go; [|done].
    destruct (SaveValue_keeps _ _ _ _ Es Hm) as [Hk' Hm']. cbn [snd] in Hk', Hm'. apply IH; [done..|by rewrite Hk'|done].
  - rewrite SaveValue_other by (cbn [user_key]; subst k; done). mred. cbn [fst snd]. rewrite filter_none; [done|].
    intros w Hw E'. rewrite Forall_forall in Hv, Hvx. destruct Hbv as [Hp|[? _]]; [|done]. pose proof (larger_after c k v w Hvv (Hv w Hw) (Hvx w Hw) Hp). lia.
Qed.

(** *** The entries of a history *)

Lemma vlt_keys v w : valid_version v → valid_version w → vlt c v w ↔ (internal_order c (version_key v) (version_key w) < 0)%Z.
Proof. intros Hv Hw. unfold vlt, entry_order. by rewrite !entry_of_key. Qed.

Lemma history_sorted W : Forall valid_version W → StronglySorted (vlt c) W → sorted_keys cmp (table_entry <$> W).
Proof.
  intros Hv Hs. split; [apply Forall_fmap, Forall_true; intros v; apply internal_is|].
  induction Hs as [|v W Hs IH Hvx]; cbn; constructor; apply Forall_cons in Hv as [Hvv Hv]; [by apply IH|].
  apply Forall_fmap, Forall_forall. intros w Hw. rewrite Forall_forall in Hv, Hvx. apply (vlt_keys v w Hvv (Hv w Hw)). by apply Hvx.
Qed.

Lemma reached_not_before k s v : lookup_ok k s → valid_version v →
  (0 ≤ internal_order c (fst (table_entry v)) (internal k (s * 256 + kValueTypeForSeek)))%Z ↔ not_before c k s v.
Proof.
  intros [Hs _] Hv. cbn [table_entry fst]. unfold internal_order, version_key, not_before.
  rewrite !internal_user, !internal_num by (by apply version_num_u64) || (unfold kMaxSequenceNumber, kValueTypeForSeek, kTypeMerge in *; lia).
  destruct Hv as [_ Ht _]. unfold version_num, kValueTypeForSeek, kTypeMerge in *.
  destruct (Z.eqb_spec (Compare c (v_key v) k) 0); [|lia]. repeat case_match; lia.
Qed.

#[local] Instance not_before_dec k s v : Decision (not_before c k s v).
Proof. unfold not_before. apply _. Defined.

Lemma filter_reached k s W : lookup_ok k s → Forall valid_version W →
  filter (λ kv, 0 ≤ internal_order c (fst kv) (internal k (s * 256 + kValueTypeForSeek)))%Z (table_entry <$> W) = table_entry <$> filter (not_before c k s) W.
Proof.
  intros Hk Hv. induction Hv as [|v W Hv _ IH]; [done|]. cbn [fmap list_fmap]. rewrite !filter_cons. pose proof (reached_not_before k s v Hk Hv).
  case_decide; case_decide; try tauto. cbn [fmap list_fmap]. by rewrite IH.
Qed.

Lemma filter_seen k s (W : list version) :
  filter (λ v, Compare c (v_key v) k = 0%Z) (filter (not_before c k s) W) = filter (seen c k s) W.
Proof.
  rewrite (seen_not_before c k s) by (apply Forall_forall; by intros v [? _]%list_elem_of_filter). induction W as [|v W IH]; [done|].
  rewrite !(filter_cons _ v). destruct (decide (not_before c k s v)) as [Hn|Hn].
  - rewrite filter_cons. by rewrite IH.
  - rewrite (decide_False (P := seen c k s v)); [done|]. intros [? ?]. apply Hn. by right.
Qed.

(** A table with the entries of a history gives its versions to the context. *)
Lemma Get_history pl lib {F} `{RandomAccessFile F} (t : BlockBasedTable F) ro W h raw ix blocks k s g :
  readable pl lib c t ro (table_entry <$> W) raw ix blocks → no_io ro = false → Forall valid_version h → StronglySorted newer h →
  StronglySorted (vlt c) W → W ≡ₚ h → lookup_ok k s → Get.gc_user_key g = k → is_Some (Get.merge_context_ g) →
  Get.BlockBasedTable_Get c mo pl lib t ro (internal_key (lookup_key k s)) g = (g' ← gather (versions_at c k s h) g; Ok (StatusOK, g')).
Proof.
  intros Rd Hro Hv Hn Hs HW Hk Hg Hm. assert (Forall valid_version W) as HvW by by rewrite HW.
  rewrite internal_lookup_key, (run_Get c mo pl lib t ro _ raw ix blocks Rd Hro _ (internal_is _ _) g), filter_reached by done.
  rewrite <-(versions_table c k s h W), <-filter_seen, <-(run_save_versions k _) with (s := s); try done.
  - by destruct (save_run _ _ _ g).
  - apply Forall_forall. intros v [_ Hin]%list_elem_of_filter. by eapply Forall_forall.
  - by apply sorted_filter.
  - apply Forall_forall. by intros v [? _]%list_elem_of_filter.
Qed.

(** *** Tables and memtables *)

(** The context that says what a lookup in a memtable returned: [fin] if the value is final. *)
Definition context_of (k : bytes) (vf : option bool) (r : bool * (bytes * Status * list bytes)) : Get.GetContext :=
  let '(fin, (value, st, ops)) := r in
  Get.mkGet (if fin : bool then if ok st then Get.kFound else if bool_decide (st = NotFound) then Get.kDeleted else Get.kCorrupt
             else if IsMergeInProgress st then Get.kMerge else Get.kNotFound) k value vf (Some ops).

(** A lookup so far: nothing found, or operands. *)
Definition pending (sv : Saver) : Prop := found_final_value sv = false ∧ (merge_in_progress sv = false → sv_status sv = StatusOK).

Definition result_of (sv : Saver) : bool * (bytes * Status * list bytes) :=
  (found_final_value sv, (sv_value sv, if negb (found_final_value sv) && merge_in_progress sv then MergeInProgress else sv_status sv, operands sv)).

Lemma SaveValue_version k vf v sv : valid_version v → Compare c (v_key v) k = 0%Z → pending sv →
  is_Some mo ∨ v_type v ≠ kTypeMerge ∧ merge_in_progress sv = false →
  Get.GetContext_SaveValue c mo (mkParsed (v_key v) (v_seq v) (v_type v)) (v_value v) (context_of k vf (result_of sv)) =
    (x ← save_version mo k sv v; Ok (fst x, context_of k vf (result_of (snd x)))).
Proof.
  intros [_ Ht _] Hk [Hfin Hst] Hm. destruct sv as [st fin mp value ops]. cbn in Hfin, Hst, Hm. subst fin.
  unfold save_version, full_merge, context_of at 1, result_of at 1, Get.GetContext_SaveValue, Get.merge_value.
  cbn [found_final_value merge_in_progress sv_value sv_status operands user_key type sequence negb andb].
  rewrite (bool_decide_true (is_Some (Some ops))), orb_true_r by (by eexists). rewrite Hk. change (Z.eqb 0 0) with true.
  assert (v_type v = 0 ∨ v_type v = 1 ∨ v_type v = 2)%Z as [E|[E|E]] by (unfold kTypeMerge in Ht; lia); rewrite E in *.
  - destruct mp; [|by rewrite (Hst eq_refl)]. destruct mo as [f|]; [|by destruct Hm as [[? [=]]|[_ [=]]]]. cbn. by destruct (f k None ops) as [[] ?].
  - destruct mp; [|by rewrite (Hst eq_refl)]. destruct mo as [f|]; [|by destruct Hm as [[? [=]]|[_ [=]]]]. cbn. by destruct (f k _ ops) as [[] ?].
  - destruct mo as [f|]; [|by destruct Hm as [[? [=]]|[? _]]]. destruct mp; [done|by rewrite (Hst eq_refl)].
Qed.

Lemma gather_resolve k vf vs : ∀ sv, Forall valid_version vs → Forall (λ v, Compare c (v_key v) k = 0%Z) vs → pending sv →
  is_Some mo ∨ Forall (λ v, v_type v ≠ kTypeMerge) vs ∧ merge_in_progress sv = false →
  gather vs (context_of k vf (result_of sv)) = (sv' ← resolve mo k vs sv; Ok (context_of k vf (result_of sv'))).
Proof.
  induction vs as [|v vs IH]; intros sv Hv Hk Hp Hm; [done|]. apply Forall_cons in Hv as [Hvv Hv]. apply Forall_cons in Hk as [Hkv Hk].
  cbn [gather resolve]. rewrite (SaveValue_version k vf v sv) by (done || (destruct Hm as [|[[? _]%Forall_cons ?]]; [by left|by right])).
  destruct (save_version mo k sv v) as [[go sv']|] eqn:E; mred; [|done]. cbn [fst snd]. destruct go; [|done].
  assert (pending sv' ∧ is_Some mo) as [Hp' Hmo]; [|by apply IH; [..|left]].
  revert E. unfold save_version. destruct (Z.eqb _ _); [by destruct (merge_in_progress sv); [destruct (full_merge _ _ _ _)|]|].
  destruct (Z.eqb _ _); [by destruct (merge_in_progress sv); [destruct (full_merge _ _ _ _)|]|].
  destruct mo as [f|]; [|done]. intros [= <-]. split; [|by eexists]. destruct Hp as [Hf _]. by split.
Qed.

(** A lookup in the table of a history finds what a memtable with the history finds. *)
Lemma versions_agree h k s value st ops vf : Forall valid_version h → st = StatusOK ∨ st = MergeInProgress →
  is_Some mo ∨ Forall (λ v, v_type v ≠ kTypeMerge) h ∧ st = StatusOK →
  gather (versions_at c k s h) (context_of k vf (false, (value, st, ops))) =
    (r ← lookup_result c mo h k s value st ops; Ok (context_of k vf r)).
Proof.
  intros Hv Hst Hm. unfold lookup_result. case_bool_decide as Hh; [by subst h|].
  set (sv := mkSaver st false (IsMergeInProgress st) value ops).
  assert (context_of k vf (false, (value, st, ops)) = context_of k vf (result_of sv)) as -> by by destruct Hst as [-> | ->].
  rewrite gather_resolve; [by destruct (resolve mo k _ sv)|..].
  - apply Forall_forall. intros v [_ Hin]%list_elem_of_filter. by eapply Forall_forall.
  - apply Forall_forall. by intros v [[? _] _]%list_elem_of_filter.
  - split; [done|]. by destruct Hst as [-> | ->].
  - destruct Hm as [|[Hn ->]]; [by left|right]. split; [|done]. apply Forall_forall. intros v [_ Hin]%list_elem_of_filter. rewrite Forall_forall in Hn. by apply Hn.
Qed.
End versions.

(** A lookup in a memtable with these versions. *)
Lemma added_lookup c `{!UserComparatorLaws c} mo vs m0 m k s value st ops : Forall valid_version vs → StronglySorted newer (reverse vs) →
  MemTable_new = Ok m0 → add_versions c vs m0 = Ok (tt, m) → lookup_ok k s →
  MemTable_Get c mo (lookup_key k s) value st ops m = (r ← lookup_result c mo (reverse vs) k s value st ops; Ok (r, m)).
Proof.
  intros Hv Hs E0 E Hk. destruct (mem_new c) as (m0' & E0' & Hm0). assert (m0' = m0) as -> by congruence.
  destruct (run_add_versions c vs m0 [] Hm0 Hv) as (m' & E' & Hm); rewrite app_nil_r in *; [done|].
  assert (m' = m) as -> by congruence. by apply (Get_spec c).
Qed.

(** ** Properties *)

(** C17: A table finds what the memtable it was written from finds.  Versions with increasing
    sequence numbers are added to a memtable; the same versions, in the order of the
    memtable, are written to a table file.  The file opens, and [BlockBasedTable::Get] for any
    key and sequence number ends with an ok status and the context that [MemTable::Get]
    describes: found with the same value, deleted, merge operands collected in the same order,
    merge failed, or nothing found.  This holds whatever the blocks the versions of a key are
    spread over, and for a lookup that starts with operands from elsewhere. *)
Theorem table_lookup_agrees pl lib c `{!UserComparatorLaws c} mo compression collected {W} `{WritableFileLaws W} {F} `{RandomAccessFileLaws F}
    o vs sorted (wf : W) ro :
  platform_ok pl → compression_ok lib → compression_type compression → options_ok (builder_options o) → names_ok collected →
  Forall valid_version vs → StronglySorted newer (reverse vs) → sorted ≡ₚ vs → StronglySorted (vlt c) sorted →
  table_fits collected (table_entry <$> sorted) → contents wf = [] → no_io ro = false →
  ∃ m0 m r, MemTable_new = Ok m0 ∧ add_versions c vs m0 = Ok (tt, m) ∧
    write_table pl lib c compression collected o (table_entry <$> sorted) wf = Ok (StatusOK, r) ∧
    ∀ o' (rf : F), stored rf = contents (r_file r) →
      ∃ t, BlockBasedTable_Open pl lib o' rf (FileSize r) true = Ok (StatusOK, Some t) ∧
        ∀ k s value st ops vf, lookup_ok k s → st = StatusOK ∨ st = MergeInProgress →
          is_Some mo ∨ Forall (λ v, v_type v ≠ kTypeMerge) vs ∧ st = StatusOK →
          Get.BlockBasedTable_Get c mo pl lib t ro (internal_key (lookup_key k s)) (context_of k vf (false, (value, st, ops))) =
            (x ← MemTable_Get c mo (lookup_key k s) value st ops m; Ok (StatusOK, context_of k vf (fst x))).
Proof.
  intros Hpl Hlib Hcomp Ho Hn Hv Hnew Hperm Hs Hf Hwf Hro. assert (sorted ≡ₚ reverse vs) as Hrev by by rewrite reverse_Permutation.
  assert (Forall valid_version (reverse vs)) as Hvr by by rewrite reverse_Permutation. assert (Forall valid_version sorted) as Hvs by by rewrite Hperm.
  destruct (mem_new c) as (m0 & E0 & Hm0). destruct (run_add_versions c vs m0 [] Hm0 Hv) as (m & E & Hm); rewrite app_nil_r in *; [done|].
  destruct (write_and_open (F := F) pl Hpl lib Hlib c compression Hcomp collected o (table_entry <$> sorted) wf ro Ho Hn (history_sorted c sorted Hvs Hs) Hf Hwf Hro)
    as (r & Ew & _ & _ & Hr).
  exists m0, m, r. do 3 (split; [done|]). intros o' rf Hst. destruct (Hr o' rf Hst) as (t & raw & ix & blocks & Eo & Rd). exists t. split; [done|].
  intros k s value st ops vf Hk Hstat Hmerge. rewrite (Get_history c mo pl lib t ro sorted (reverse vs) raw ix blocks) by (done || by eexists).
  rewrite (Get_spec c mo m (reverse vs)) by done. rewrite versions_agree; [by destruct (lookup_result _ _ _ _ _ _ _ _)|done|done|].
  destruct Hmerge as [|[Hnm ->]]; [by left|right]. split; [by rewrite reverse_Permutation|done].
Qed.

(** [ex_history] in the order of the table. *)
Definition ex_history_sorted : list version :=
  [mkVersion 2 kTypeMerge (str "a") (str "y"); mkVersion 1 kTypeValue (str "a") (str "x"); mkVersion 3 kTypeDeletion (str "b") []].

(** A merge operator that appends the operands. *)
Definition ex_append (_ : bytes) (existing : option bytes) (ops : list bytes) : bool * bytes := (true, default [] existing ++ mjoin ops).

Lemma ex_result : lookup_result BytewiseComparator (Some ex_append) (reverse ex_history) (str "a") 7 [] StatusOK [] = Ok (true, (str "xy", StatusOK, [str "y"])).
Proof. by vm_compute. Qed.

Lemma ex_lookup_ok : lookup_ok (str "a") 7.
Proof. split; by vm_compute. Qed.

Lemma table_lookup_agrees_witness :
  ∃ r t, write_table (ex_platform true) ex_compression BytewiseComparator kSnappyCompression ex_collected ex_options
      (table_entry <$> ex_history_sorted) ([] : bytes) = Ok (StatusOK, r) ∧
    BlockBasedTable_Open (ex_platform true) ex_compression ex_options (contents (r_file r)) (FileSize r) true = Ok (StatusOK, Some t) ∧
    Get.BlockBasedTable_Get BytewiseComparator (Some ex_append) (ex_platform true) ex_compression t ReadOptions_new (internal_key (lookup_key (str "a") 7))
      (Get.mkGet Get.kNotFound (str "a") [] None (Some [])) = Ok (StatusOK, Get.mkGet Get.kFound (str "a") (str "xy") None (Some [str "y"])).
Proof.
  assert (Forall valid_version ex_history) as Hv by (repeat (apply Forall_cons; split); [constructor; vm_compute; repeat split; discriminate..|by apply Forall_nil]).
  assert (StronglySorted newer (reverse ex_history)) as Hs by (vm_compute; repeat constructor).
  destruct (table_lookup_agrees (ex_platform true) ex_compression BytewiseComparator (Some ex_append) kSnappyCompression ex_collected (W := bytes) (F := bytes)
    ex_options ex_history ex_history_sorted [] ReadOptions_new (ex_platform_ok true) ex_compression_ok) as (m0 & m & r & E0 & E & Ew & Hr).
  - split; discriminate.
  - split_and!; [done|by right|done..].
  - exact ex_names_ok.
  - exact Hv.
  - exact Hs.
  - apply Permutation_swap.
  - repeat constructor; by vm_compute.
  - by vm_compute.
  - reflexivity.
  - reflexivity.
  - destruct (Hr ex_options (contents (r_file r)) ltac:(reflexivity)) as (t & Eo & Hget). exists r, t. split; [exact Ew|]. split; [exact Eo|].
    refine (eq_trans (Hget (str "a") 7%Z [] StatusOK [] None ex_lookup_ok (or_introl eq_refl) (or_introl (mk_is_Some _ _ eq_refl))) _).
    rewrite (added_lookup BytewiseComparator _ ex_history m0 m _ _ _ _ _ Hv Hs E0 E ex_lookup_ok), ex_result. reflexivity.
Defined.

(** ** What the code does not handle *)

(** A lookup that meets an operand and then a value or a deletion fails without a merge
    operator: on an assertion, or on a null pointer where no assertion checks.  A memtable
    with the same versions reports an invalid argument. *)
Lemma operands_without_operator c k v ops vf : Compare c k k = 0%Z →
  let g := Get.mkGet Get.kMerge k v vf (Some ops) in
  Get.GetContext_SaveValue c None (mkParsed k 1 kTypeValue) v g = Err AssertFailed ∧
  Get.GetContext_SaveValue c None (mkParsed k 1 kTypeDeletion) v g = Err NullDeref ∧
  ∃ sv, resolve None k [mkVersion 2 kTypeMerge k v; mkVersion 1 kTypeValue k v] (mkSaver StatusOK false false [] []) = Ok sv ∧
    sv_status sv = InvalidArgument "merge_operator is not properly initialized.".
Proof.
  intros Hk. unfold Get.GetContext_SaveValue. cbn [user_key]. rewrite Hk. split; [done|]. split; [done|]. by eexists.
Qed.

(** A file that takes [n] pieces and fails from then on. *)
Definition full_disk : Type := nat.
#[local] Instance full_disk_WritableFile : WritableFile full_disk := {|
  file_Append _ n := match n with O => (Status_new kIOError (str "full") [], 0) | S n => (StatusOK, n) end;
  file_Flush n := (StatusOK, n);
|}.

(** If the metaindex block cannot be written, [Finish] goes on to the index block and fails the
    assertion of [WriteBlock] that all is well; a failure before or after is reported. *)
Lemma failed_metaindex_asserts :
  (λ n : full_disk, r ← write_table (ex_platform true) ex_compression BytewiseComparator kNoCompression [] ex_options [] n; Ok (ok (fst r))) <$> [1; 2; 4; 7]
    = [Ok false; Err AssertFailed; Ok false; Ok true].
Proof. by vm_compute. Qed.

(** The size of the index in the properties is taken after the index block is finished, and
    counts its restart points twice. *)
Lemma index_size_counts_twice b data b' : Finish b = Ok (data, b') →
  CurrentSizeEstimate b' = (Z.of_nat (length data) + Z.of_nat (length (bb_restarts_ b)) * 4 + 4)%Z.
Proof. by intros [= <- <-]. Qed.
