(* ===== verification/Iostream.v ===== *)
(** * Numbers as text

    What the node uses of the C++ streams: [ss >> x] and [ss << x] for a [double], and
    [ss << n] for an integer, in the default format and locale. *)

From S2P Require Import Prelude Double.
From Stdlib Require Import SpecFloat.
From stdpp Require Import pretty.

(** ** Reading a [double] *)

Definition is_digit (b : byte) : bool :=
  Z.leb 48 (byte.unsigned b) && Z.leb (byte.unsigned b) 57.
Definition digit (b : byte) : Z := byte.unsigned b - 48.
Definition is_space (b : byte) : bool :=
  Z.eqb (byte.unsigned b) 32 || (Z.leb 9 (byte.unsigned b) && Z.leb (byte.unsigned b) 13).

Fixpoint skip_space (t : bytes) : bytes :=
  match t with b :: t' => if is_space b then skip_space t' else t | [] => [] end.

Definition take_sign (t : bytes) : bool * bytes :=
  match t with
  | b :: t' =>
      if Z.eqb (byte.unsigned b) 45 then (true, t')
      else if Z.eqb (byte.unsigned b) 43 then (false, t') else (false, t)
  | [] => (false, [])
  end.

(** The digits at the front: their value continued from [v], their number and the rest. *)
Fixpoint take_digits (t : bytes) (v : Z) (n : nat) : Z * nat * bytes :=
  match t with
  | b :: t' => if is_digit b then take_digits t' (v * 10 + digit b)%Z (S n) else (v, n, t)
  | [] => (v, n, [])
  end.

(** The double nearest to [m * 10 ^ e]. *)
Definition decimal_value (s : bool) (m e : Z) : spec_float :=
  match m with
  | Zpos p =>
      if Z.leb 0 e then binary_round prec emax s (Z.to_pos (m * 10 ^ e)) 0
      else
        let '(q, x, l) := SFdiv_core_binary prec emax m 0 (10 ^ (- e)) 0 in
        binary_round_aux prec emax s q x l
  | _ => S754_zero s
  end.

(** Too large a number is read as the largest. *)
Definition saturate (s : bool) (f : spec_float) : double :=
  match f with
  | S754_infinity _ => if s then 0xffefffffffffffff else 0x7fefffffffffffff
  | _ => bits_of 0 f
  end%Z.

(** The characters that can belong to a number are collected and must form one; if they
    do not the value is zero. *)
Definition read_double (text : bytes) : double :=
  let '(s, t) := take_sign (skip_space text) in
  let '(v, n, t) := take_digits t 0 0 in
  let '(v, k, t) :=
    match t with
    | b :: t' =>
        if Z.eqb (byte.unsigned b) 46 then
          let '(v, n', t') := take_digits t' v n in (v, (n' - n)%nat, t')
        else (v, 0, t)
    | [] => (v, 0, [])
    end in
  if Nat.eqb (n + k) 0 then bits_of 0 (S754_zero false)
  else
    let value e := saturate s (decimal_value s v (e - Z.of_nat k)) in
    match t with
    | b :: t' =>
        if Z.eqb (byte.unsigned b) 101 || Z.eqb (byte.unsigned b) 69 then
          let '(es, t') := take_sign t' in
          let '(e, d, _) := take_digits t' 0 0 in
          if Nat.eqb d 0 then bits_of 0 (S754_zero false)
          else value (if es then - e else e)%Z
        else value 0%Z
    | [] => value 0%Z
    end.

(** ** Reading an unsigned integer *)

(** [scin >> val] for a [std::uint32_t]: a negative number wraps around, a number that is
    too large is read as the largest, and without digits the value is zero. *)
Definition read_uint32 (text : bytes) : Z :=
  let '(s, t) := take_sign (skip_space text) in
  let '(v, n, _) := take_digits t 0 0 in
  if Nat.eqb n 0 then 0
  else if Z.ltb v (2 ^ 32) then (if s then u32 (- v) else v) else (2 ^ 32 - 1)%Z.

(** ** Writing *)

Definition write_int (n : Z) : bytes :=
  if Z.ltb n 0 then str "-" ++ str (pretty (Z.to_N (- n))) else str (pretty (Z.to_N n)).

(** [a / b] rounded to the nearest integer, ties to even. *)
Definition div_nearest (a b : Z) : Z :=
  let q := (a / b)%Z in
  let r := (a mod b)%Z in
  if Z.ltb (2 * r) b then q
  else if Z.ltb b (2 * r) then (q + 1)%Z
  else if Z.even q then q else (q + 1)%Z.

(** [m * 2 ^ e / 10 ^ k], rounded. *)
Definition scaled (m e k : Z) : Z :=
  div_nearest (m * 2 ^ Z.max e 0 * 10 ^ Z.max (- k) 0) (2 ^ Z.max (- e) 0 * 10 ^ Z.max k 0).

(** The number of decimal digits of a positive number. *)
Fixpoint decimal_length (fuel : nat) (n : Z) : Z :=
  match fuel with
  | O => 0
  | S fuel => if Z.ltb n 10 then 1 else (1 + decimal_length fuel (n / 10))%Z
  end.

(** The exponent [x] and the six digits [d], [10 ^ 5 <= d < 10 ^ 6], of a positive
    number.  [x0] is at most one below the exponent. *)
Definition six_digits (m e : Z) : Z * Z :=
  let x0 :=
    if Z.leb 1 (m * 2 ^ Z.max e 0 / 2 ^ Z.max (- e) 0)
    then (decimal_length 320 (m * 2 ^ Z.max e 0 / 2 ^ Z.max (- e) 0) - 1)%Z
    else (decimal_length 1100 (m * 10 ^ 330 / 2 ^ (- e)) - 331)%Z in
  let d := scaled m e (x0 - 5) in
  if Z.leb (10 ^ 6) d then (x0 + 1, d / 10)%Z else (x0, d).

Fixpoint strip_zeros (fuel : nat) (d k : Z) : Z * Z :=
  match fuel with
  | O => (d, k)
  | S fuel => if Z.eqb (d mod 10) 0 && Z.ltb 0 k then strip_zeros fuel (d / 10)%Z (k - 1)%Z else (d, k)
  end.

(** [n] with at least [w] digits. *)
Definition pad_left (w : nat) (n : Z) : bytes :=
  let t := write_int n in replicate (w - length t) (byte.of_Z 48) ++ t.

(** The digits of [d / 10 ^ k], without a point when [k] is zero. *)
Definition fixed (d k : Z) : bytes :=
  if Z.eqb k 0 then write_int d
  else write_int (d / 10 ^ k) ++ str "." ++ pad_left (Z.to_nat k) (d mod 10 ^ k).

(** The format [%g] with six digits. *)
Definition write_double (x : double) : bytes :=
  let sign (s : bool) := if s then str "-" else [] in
  match spec_of x with
  | S754_nan => sign (sign_bit x) ++ str "nan"
  | S754_infinity s => sign s ++ str "inf"
  | S754_zero s => sign s ++ str "0"
  | S754_finite s m e =>
      let '(x, d) := six_digits (Zpos m) e in
      if Z.ltb x (-4) || Z.leb 6 x then
        let '(d, k) := strip_zeros 5 d 5 in
        sign s ++ fixed d k ++ str "e" ++ (if Z.ltb x 0 then str "-" else str "+") ++ pad_left 2 (Z.abs x)
      else if Z.leb 0 (5 - x) then
        let '(d, k) := strip_zeros 10 d (5 - x) in sign s ++ fixed d k
      else sign s ++ fixed d 0
  end.
