(* ===== verification/NetBase.v ===== *)
(** * Sockets and messages

    Models [src/src/p2p/netbase.{h,cpp}].  The operating system is a parameter: a
    class of the system calls the node makes, each a function of the state of the
    system, which returns what the call returns and leaves a new state.  A [SOCKET] is
    an unsigned number; what a system call returns is an [int].

    Models [BNetMessageHeader] and [BNetMessage] of [src/src/p2p/net.{h,cpp}]: a
    command with its data, sent as a protocol buffer. *)

From S2P Require Import Prelude Varint BaseUint CodedStream WireFormat WireLemmas PbMessage PbRound TransactionPb.
From S2P Require Import TransactionPbLaws BubiPb BubiPbLaws.

(** ** Addresses *)

(** An address is the number [s_addr], a port is in network order. *)
Record BService := mkBService { port_ : Z; ip_ : Z }.

#[export] Instance BService_eq_dec : EqDecision BService.
Proof. solve_decision. Defined.

(** The two bytes of a port exchanged, on a little-endian machine. *)
Definition htons (p : Z) : Z := Z.lor (Z.shiftl (Z.land p 0xff) 8) (Z.shiftr p 8).
Definition ntohs (p : Z) : Z := htons p.

Definition timeval : Type := Z * Z.
Definition MillisToTimeval (nTimeout : Z) : timeval :=
  (Z.quot nTimeout 1000, Z.rem nTimeout 1000 * 1000)%Z.

Definition in_addr_eqb (ip1 ip2 : Z) : bool := Z.eqb ip1 ip2.
Definition BService_eqb (s1 s2 : BService) : bool :=
  Z.eqb (port_ s1) (port_ s2) && in_addr_eqb (ip_ s1) (ip_ s2).

(** ** The operating system *)

Class System (E : Type) := {
  sys_socket : E → Z * E;
  sys_close : Z → E → Z * E;
  sys_fcntl_getfl : Z → E → Z * E;
  sys_fcntl_setfl : Z → Z → E → Z * E;
  sys_setsockopt_reuseaddr : Z → E → Z * E;
  sys_connect : Z → BService → E → Z * E;
  sys_getsockopt_error : Z → E → Z * Z * E;
  sys_bind : Z → BService → E → Z * E;
  sys_listen : Z → E → Z * E;
  (** the descriptor and the address of the peer *)
  sys_accept : Z → E → Z * BService * E;
  (** the result and the sockets left in the two sets *)
  sys_select : Z → list Z → list Z → timeval → E → Z * list Z * list Z * E;
  sys_send : Z → bytes → E → Z * E;
  (** the result and the bytes received *)
  sys_recv : Z → nat → E → Z * bytes * E;
  sys_errno : E → Z;
  sys_time : E → Z * E;
  (** whether the lock is free is up to the other threads *)
  sys_try_lock : E → bool * E;
  (** the text of an address *)
  inet_pton : bytes → option Z;
  inet_ntoa : Z → bytes;
}.

Definition SOCKET_ERROR : Z := -1.
Definition INVALID_SOCKET : Z := 0xffffffff.
Definition MAXINBOUND : Z := 10.
Definition MAXRECVSIZE : Z := 5 * 1024 * 1024.
Definition nConnectTimeout : Z := 5000.

Definition EINTR : Z := 4.
Definition EBADF : Z := 9.
Definition EWOULDBLOCK : Z := 11.
Definition EMSGSIZE : Z := 90.
Definition EINPROGRESS : Z := 115.
Definition O_NONBLOCK : Z := 2048.

(** An [int] as a [SOCKET]. *)
Definition to_socket (fd : Z) : Z := u32 fd.

(** An [fd_set] has room for [FD_SETSIZE] descriptors; the macros do not check. *)
Definition FD_SETSIZE : Z := 1024.
Definition FD_SET (s : Z) (fds : list Z) : outcome (list Z) :=
  if Z.ltb s FD_SETSIZE then Ok (fds ++ [s]) else Err OutOfBounds.
Definition FD_ISSET (s : Z) (fds : list Z) : outcome bool :=
  if Z.ltb s FD_SETSIZE then Ok (bool_decide (s ∈ fds)) else Err OutOfBounds.

Section netbase.
Context {E : Type} `{System E}.

(** [memory]: what [ip_] holds before [inet_pton], which leaves it when the text is not
    an address. *)
Definition BService_of_string (memory : Z) (bip : bytes) (bport : Z) : BService :=
  mkBService (htons bport) (default memory (inet_pton bip)).

(** A call as a command on the system. *)
Definition call {A} (f : E → A * E) : prog E A := λ e, let '(a, e) := f e in Ok (a, e).

(** The result, and the variable after the call. *)
Definition CloseSocket (bSocket : Z) : prog E (bool * Z) :=
  if Z.eqb bSocket INVALID_SOCKET then mret (false, bSocket)
  else
    ret ← call (sys_close (to_int32 bSocket));
    mret (negb (Z.eqb ret SOCKET_ERROR), INVALID_SOCKET).

Definition SetSocketNonBlocking (bSocket : Z) (fNonBlocking : bool) : prog E (bool * Z) :=
  flag ← call (sys_fcntl_getfl (to_int32 bSocket));
  let flag := if fNonBlocking then Z.lor flag O_NONBLOCK else Z.land flag (Z.lnot O_NONBLOCK) in
  ret ← call (sys_fcntl_setfl (to_int32 bSocket) flag);
  if Z.eqb ret SOCKET_ERROR then
    r ← CloseSocket bSocket; mret (false, r.2)
  else mret (true, bSocket).

(** The failing ends of [ConnectSocket]. *)
Definition close_and_fail (bSocket : Z) : prog E (bool * Z) :=
  CloseSocket bSocket;; mret (false, INVALID_SOCKET).

Definition ConnectSocket (bService : BService) (btimeout : Z) : prog E (bool * Z) :=
  fd ← call sys_socket;
  let bSocket := to_socket fd in
  if Z.eqb bSocket INVALID_SOCKET then mret (false, INVALID_SOCKET)
  else
    r ← SetSocketNonBlocking bSocket true;
    let bSocket := r.2 in
    ret ← call (sys_connect (to_int32 bSocket) bService);
    if Z.eqb ret SOCKET_ERROR then
      errno ← gets sys_errno;
      if Z.eqb errno EINPROGRESS then
        fdSet ← lift (FD_SET bSocket []);
        s ← call (λ e, let '(n, _, _, e) :=
                         sys_select (to_int32 (u32 (bSocket + 1))) [] fdSet (MillisToTimeval btimeout) e in (n, e));
        if Z.eqb s 0 then close_and_fail bSocket
        else if Z.eqb s SOCKET_ERROR then close_and_fail bSocket
        else
          g ← call (λ e, let '(n, v, e) := sys_getsockopt_error (to_int32 bSocket) e in ((n, v), e));
          if Z.eqb g.1 SOCKET_ERROR then close_and_fail bSocket
          else if negb (Z.eqb g.2 0) then close_and_fail bSocket
          else mret (true, bSocket)
      else close_and_fail bSocket
    else mret (true, bSocket).

(** [BindListenPort] up to its end: the result, and the socket that is put into
    [bgListenSocket]. *)
Definition bind_listen (bService : BService) : prog E (bool * option Z) :=
  fd ← call sys_socket;
  let bListenSocket := to_socket fd in
  if Z.eqb bListenSocket INVALID_SOCKET then mret (false, None)
  else
    call (sys_setsockopt_reuseaddr (to_int32 bListenSocket));;
    r ← SetSocketNonBlocking bListenSocket true;
    let bListenSocket := r.2 in
    if negb r.1 then mret (false, None)
    else
      ret ← call (sys_bind (to_int32 bListenSocket) bService);
      if Z.eqb ret SOCKET_ERROR then CloseSocket bListenSocket;; mret (false, None)
      else
        ret ← call (sys_listen (to_int32 bListenSocket));
        if Z.eqb ret SOCKET_ERROR then CloseSocket bListenSocket;; mret (false, None)
        else mret (true, Some bListenSocket).
End netbase.

(** ** Descriptors *)

(** A new descriptor is the lowest that is not in use. *)
Record lowest (fd : Z) (used : gset Z) : Prop := {
  lowest_fd : (0 ≤ fd < 2 ^ 31)%Z;
  lowest_free : fd ∉ used;
  lowest_used k : (0 ≤ k < fd)%Z → k ∈ used;
}.

(** What the system does with descriptors: [open_fds] are those in use.  A call on a
    descriptor that is not valid fails. *)
Class SystemLaws (E : Type) `{System E} := {
  open_fds : E → gset Z;
  socket_opens e fd e' : sys_socket e = (fd, e') →
    (fd = SOCKET_ERROR ∧ open_fds e' = open_fds e) ∨
    (lowest fd (open_fds e) ∧ open_fds e' = {[fd]} ∪ open_fds e);
  accept_opens l e fd peer e' : sys_accept l e = (fd, peer, e') →
    (fd = SOCKET_ERROR ∧ open_fds e' = open_fds e) ∨
    (lowest fd (open_fds e) ∧ open_fds e' = {[fd]} ∪ open_fds e);
  close_closes fd e r e' : sys_close fd e = (r, e') → open_fds e' = open_fds e ∖ {[fd]};
  connect_bad b e r e' : sys_connect (-1) b e = (r, e') →
    r = SOCKET_ERROR ∧ sys_errno e' = EBADF;
  getfl_keeps fd e r e' : sys_fcntl_getfl fd e = (r, e') → open_fds e' = open_fds e;
  setfl_keeps fd v e r e' : sys_fcntl_setfl fd v e = (r, e') → open_fds e' = open_fds e;
  setsockopt_keeps fd e r e' : sys_setsockopt_reuseaddr fd e = (r, e') → open_fds e' = open_fds e;
  connect_keeps fd b e r e' : sys_connect fd b e = (r, e') → open_fds e' = open_fds e;
  getsockopt_keeps fd e r v e' : sys_getsockopt_error fd e = (r, v, e') → open_fds e' = open_fds e;
  bind_keeps fd b e r e' : sys_bind fd b e = (r, e') → open_fds e' = open_fds e;
  listen_keeps fd e r e' : sys_listen fd e = (r, e') → open_fds e' = open_fds e;
  select_keeps n rs ws t e r rs' ws' e' : sys_select n rs ws t e = (r, rs', ws', e') →
    open_fds e' = open_fds e;
  send_keeps fd d e r e' : sys_send fd d e = (r, e') → open_fds e' = open_fds e;
  send_bad d e r e' : sys_send (-1) d e = (r, e') → r = SOCKET_ERROR ∧ sys_errno e' = EBADF;
  send_bound fd d e r e' : sys_send fd d e = (r, e') → (-1 ≤ r ≤ Z.of_nat (length d))%Z;
  recv_keeps fd n e r d e' : sys_recv fd n e = (r, d, e') → open_fds e' = open_fds e;
  recv_length fd n e r d e' : sys_recv fd n e = (r, d, e') →
    (-1 ≤ r)%Z ∧ length d = Z.to_nat r ∧ length d ≤ n;
  time_keeps e t e' : sys_time e = (t, e') → open_fds e' = open_fds e;
  try_lock_keeps e b e' : sys_try_lock e = (b, e') → open_fds e' = open_fds e;
}.

(** * Messages between nodes *)

Record BNetMessageHeader := mkNetHeader {
  nChecksum_ : Z; nMessageSize_ : Z; bchCommand_ : bytes;
}.
Record BNetMessage := mkNetMessage { header_ : BNetMessageHeader; data_ : bytes }.

#[export] Instance BNetMessageHeader_eq_dec : EqDecision BNetMessageHeader.
Proof. solve_decision. Defined.
#[export] Instance BNetMessage_eq_dec : EqDecision BNetMessage.
Proof. solve_decision. Defined.

Definition BNetMessageHeader_new (command : bytes) (msize : Z) : BNetMessageHeader :=
  mkNetHeader 0 msize command.
Definition BNetMessage_new (command : bytes) (msize : Z) (data : bytes) : BNetMessage :=
  mkNetMessage (BNetMessageHeader_new command msize) data.

(** Sizes are [unsigned int]. *)
Definition BNetMessageHeader_size (h : BNetMessageHeader) : Z :=
  u32 (8 + Z.of_nat (length (bchCommand_ h))).
Definition BNetMessage_size (m : BNetMessage) : Z :=
  u32 (Z.of_nat (length (data_ m)) + BNetMessageHeader_size (header_ m)).

Definition header_message (h : BNetMessageHeader) : bubiMsgHeader :=
  let bmh := bubiMsgHeader_new in
  let bmh := set hd_checksum (nChecksum_ h) bmh in
  let bmh := set hd_command (bchCommand_ h) bmh in
  set hd_msgsize (nMessageSize_ h) bmh.

(** A failure is only printed. *)
Definition BNetMessageHeader_serializer (h : BNetMessageHeader) : outcome bytes :=
  r ← SerializeToString (header_message h); mret r.2.
Definition BNetMessageHeader_unserializer (str : bytes) : outcome BNetMessageHeader :=
  r ← ParseFromString str bubiMsgHeader_new;
  let bmh := r.2 in
  mret (mkNetHeader (get hd_checksum bmh) (get hd_msgsize bmh) (get hd_command bmh)).

Definition peer_message (m : BNetMessage) : bubiMsg :=
  set_allocated_header (Some (header_message (header_ m))) (set bm_data (data_ m) bubiMsg_new).

Definition BNetMessage_serializer (m : BNetMessage) : outcome bytes :=
  r ← SerializeToString (peer_message m); mret r.2.
Definition BNetMessage_unserializer (str : bytes) : outcome BNetMessage :=
  r ← ParseFromString str bubiMsg_new;
  let bm := r.2 in
  let bmh := bubiMsgHeader_CopyFrom (get bm_header bm) bubiMsgHeader_new in
  mret (mkNetMessage (mkNetHeader (get hd_checksum bmh) (get hd_msgsize bmh) (get hd_command bmh))
          (get bm_data bm)).

(** ** Lemmas *)

(** A message that can be sent: its numbers are 32-bit and it is not too long. *)
Record sendable (m : BNetMessage) : Prop := {
  sendable_checksum : is_u32 (nChecksum_ (header_ m));
  sendable_size : is_u32 (nMessageSize_ (header_ m));
  sendable_fits : fits (peer_message m);
}.

Lemma header_message_eq h :
  header_message h = mkHeaderPb 7 (bchCommand_ h) (nMessageSize_ h) (nChecksum_ h) [].
Proof. done. Qed.

Lemma peer_message_eq m :
  peer_message m = mkMsgPb 3 (Some (header_message (header_ m))) (data_ m) [].
Proof. done. Qed.

Lemma header_message_wf h : is_u32 (nChecksum_ h) → is_u32 (nMessageSize_ h) →
  bubiMsgHeader_wf (header_message h).
Proof. intros Hc Hs. rewrite header_message_eq. split; cbn; [lia|done|done|done]. Qed.

Lemma peer_message_wf m : sendable m → bubiMsg_wf (peer_message m).
Proof.
  intros [Hc Hs _]. rewrite peer_message_eq. split; cbn; [lia| |done|done].
  change (has bm_header _) with true. cbv iota. eexists; split; [done|]. by apply header_message_wf.
Qed.

(** A message that is sent arrives. *)
Lemma BNetMessage_round m : sendable m →
  ∃ data, BNetMessage_serializer m = Ok data ∧ BNetMessage_unserializer data = Ok m.
Proof.
  intros Hm. destruct (bubiMsg_round (peer_message m)) as (data & Hs & Hp);
    [by apply peer_message_wf|apply Hm|].
  exists data. unfold BNetMessage_serializer, BNetMessage_unserializer. rewrite Hs, Hp.
  split; [done|]. mred. cbn [snd]. rewrite peer_message_eq. by destruct m as [[] ?].
Qed.

(** A message starts with the tag of its header. *)
Lemma BNetMessage_bytes m data : sendable m → BNetMessage_serializer m = Ok data →
  head data = Some Byte.x0a ∧ length data = ByteSize (peer_message m).
Proof.
  intros Hm. pose proof (bubiMsg_size _ (peer_message_wf m Hm)) as Hs. unfold BNetMessage_serializer.
  rewrite SerializeToString_writes; [|done|destruct Hm as [_ _ Hf]; change kDefaultTotalBytesLimit with 67108864%Z in Hf; lia].
  intros [= <-]. split; [|by symmetry]. done.
Qed.

Lemma VarintSize32_le v : VarintSize32 v ≤ 5.
Proof. unfold VarintSize32. repeat case_match; lia. Qed.

Lemma peer_size m :
  ByteSize (peer_message m) ≤ 40 + length (bchCommand_ (header_ m)) + length (data_ m).
Proof.
  set (h := header_ m). set (d := data_ m).
  change (ByteSize (peer_message m)) with
    ((1 + (VarintSize32 (u32 (Z.of_nat (ByteSize (header_message h)))) + ByteSize (header_message h)) +
      (1 + (VarintSize32 (u32 (Z.of_nat (length d))) + length d))) + 0).
  change (ByteSize (header_message h)) with
    ((1 + (VarintSize32 (u32 (Z.of_nat (length (bchCommand_ h)))) + length (bchCommand_ h)) +
      (1 + VarintSize32 (nMessageSize_ h))) + (1 + VarintSize32 (nChecksum_ h)) + 0).
  repeat match goal with |- context [VarintSize32 ?v] => pose proof (VarintSize32_le v); generalize dependent (VarintSize32 v) end.
  lia.
Qed.

Lemma BNetMessageHeader_round h : is_u32 (nChecksum_ h) → is_u32 (nMessageSize_ h) →
  fits (header_message h) →
  ∃ data, BNetMessageHeader_serializer h = Ok data ∧ BNetMessageHeader_unserializer data = Ok h.
Proof.
  intros Hc Hs Hf. destruct (bubiMsgHeader_round (header_message h)) as (data & E & Hp);
    [by apply header_message_wf|done|].
  exists data. unfold BNetMessageHeader_serializer, BNetMessageHeader_unserializer. rewrite E, Hp.
  split; [done|]. mred. cbn [snd]. rewrite header_message_eq. by destruct h.
Qed.
