(* ===== verification/Net.v ===== *)
(** * The network of the node

    Models [src/src/p2p/net.{h,cpp}]: the nodes a node is connected to, the messages it
    exchanges with them, and the requests of its clients.

    A [BNode] object is at a location of [nodes]; [vNodes] has the locations.  The
    locks are not represented, except that [try_lock] may fail when another thread has
    the lock; a turn of a thread's loop is one command.  What is printed is left out.
    JSON text is read and written by a library, a parameter. *)

From S2P Require Import Prelude Varint BaseUint Double Serializer MerkleNode Database MerkleTree.
From S2P Require Import CodedStream WireFormat WireLemmas PbMessage PbRound.
From S2P Require Import TransactionPb TransactionPbLaws BubiPb BubiPbLaws NetBase.
From S2P Require Import Entries Ledger LedgerInv LedgerOps Interface Iostream.

(** ** JSON values

    [None]: the library throws an exception. *)

Class Json (J : Type) := {
  json_parse : bytes → option J;
  json_member : J → bytes → option J;
  json_asString : J → option bytes;
  json_null : J;
  json_string : bytes → J;
  (** [v[k1][k2]... = x], for a [v] built that way *)
  json_put : list bytes → J → J → J;
  json_write : J → bytes;
}.

(** ** Nodes *)

Record BNode := mkBNode {
  bSocket_ : Z;
  vSendMsg_ : list bytes;
  nSendOffset_ : nat;
  nSendSize_ : Z;
  nSendBytes_ : Z;
  vRecvMsg_ : list BNetMessage;
  nRecvBytes_ : Z;
  bService_ : BService;
  nTimeConnected_ : Z;
  nLastSend_ : Z;
  nLastRecv_ : Z;
  fDisconnect_ : bool;
  fInbound_ : bool;
  fNetworkNode_ : bool;
  nRefCount_ : Z;
}.

Definition set_socket (s : Z) (d : bool) (n : BNode) : BNode :=
  mkBNode s (vSendMsg_ n) (nSendOffset_ n) (nSendSize_ n) (nSendBytes_ n) (vRecvMsg_ n) (nRecvBytes_ n)
    (bService_ n) (nTimeConnected_ n) (nLastSend_ n) (nLastRecv_ n) d (fInbound_ n) (fNetworkNode_ n) (nRefCount_ n).
Definition set_send (q : list bytes) (off : nat) (b t : Z) (n : BNode) : BNode :=
  mkBNode (bSocket_ n) q off (nSendSize_ n) b (vRecvMsg_ n) (nRecvBytes_ n)
    (bService_ n) (nTimeConnected_ n) t (nLastRecv_ n) (fDisconnect_ n) (fInbound_ n) (fNetworkNode_ n) (nRefCount_ n).
Definition set_recv (q : list BNetMessage) (b t : Z) (n : BNode) : BNode :=
  mkBNode (bSocket_ n) (vSendMsg_ n) (nSendOffset_ n) (nSendSize_ n) (nSendBytes_ n) q b
    (bService_ n) (nTimeConnected_ n) (nLastSend_ n) t (fDisconnect_ n) (fInbound_ n) (fNetworkNode_ n) (nRefCount_ n).
Definition add_ref (n : BNode) : BNode :=
  mkBNode (bSocket_ n) (vSendMsg_ n) (nSendOffset_ n) (nSendSize_ n) (nSendBytes_ n) (vRecvMsg_ n) (nRecvBytes_ n)
    (bService_ n) (nTimeConnected_ n) (nLastSend_ n) (nLastRecv_ n) (fDisconnect_ n) (fInbound_ n) (fNetworkNode_ n)
    (nRefCount_ n + 1).

(** [unsigned int] sums. *)
Definition getTotalRecvSize (n : BNode) : Z :=
  foldl (λ total msg, u32 (total + BNetMessage_size msg)) 0%Z (vRecvMsg_ n).

(** ** The state of the process *)

Record net (E W : Type) := mkNet {
  os : E;
  bgListenSocket : list Z;
  vNodes : list positive;
  nodes : gmap positive BNode;
  next_node : positive;
  hostAddr : list Z;
  vAddrToConnect : list BService;
  app : W;
}.
Arguments mkNet {E W}.
Arguments os {E W}.
Arguments bgListenSocket {E W}.
Arguments vNodes {E W}.
Arguments nodes {E W}.
Arguments next_node {E W}.
Arguments hostAddr {E W}.
Arguments vAddrToConnect {E W}.
Arguments app {E W}.

Section net.
Context `{SHA512} `{Indeterminate} `{NaNs} {D Q : Type} `{RocksDB D} `{Sqlite Q}.
Context {E : Type} `{System E} {J : Type} `{Json J}.
(** What members that no constructor sets happen to hold. *)
Context (ref_memory ip_memory : Z) (tx_memory : Transaction).

Abbreviation W := (world D Q).
Abbreviation ncmd := (prog (net E W)).

Definition set_nodes (f : gmap positive BNode → gmap positive BNode) : ncmd unit :=
  modify (λ s, mkNet (os s) (bgListenSocket s) (vNodes s) (f (nodes s)) (next_node s) (hostAddr s)
                 (vAddrToConnect s) (app s)).
Definition set_vNodes (l : list positive) : ncmd unit :=
  modify (λ s, mkNet (os s) (bgListenSocket s) l (nodes s) (next_node s) (hostAddr s)
                 (vAddrToConnect s) (app s)).

Definition on_os {A} (c : prog E A) : ncmd A := λ s,
  match c (os s) with
  | Ok (a, e) => Ok (a, mkNet e (bgListenSocket s) (vNodes s) (nodes s) (next_node s) (hostAddr s)
                          (vAddrToConnect s) (app s))
  | Err e => Err e
  end.
Definition on_app {A} (c : prog W A) : ncmd A := λ s,
  match c (app s) with
  | Ok (a, w) => Ok (a, mkNet (os s) (bgListenSocket s) (vNodes s) (nodes s) (next_node s) (hostAddr s)
                          (vAddrToConnect s) w)
  | Err e => Err e
  end.
Definition get_node (l : positive) : ncmd BNode := λ s,
  match nodes s !! l with Some n => Ok (n, s) | None => Err NullDeref end.
Definition put_node (l : positive) (n : BNode) : ncmd unit := set_nodes <[l := n]>.

Definition BindListenPort (bService : BService) : ncmd bool :=
  r ← on_os (bind_listen bService);
  match r.2 with
  | Some bListenSocket =>
      modify (λ s, mkNet (os s) (bgListenSocket s ++ [bListenSocket]) (vNodes s) (nodes s) (next_node s) (hostAddr s)
                     (vAddrToConnect s) (app s));;
      mret r.1
  | None => mret r.1
  end.

(** ** [BNode] *)

(** [new BNode(...)] *)
Definition BNode_new (bSocket : Z) (bService : BService) (fInbound : bool) : ncmd positive :=
  t ← on_os (call sys_time);
  l ← gets next_node;
  modify (λ s, mkNet (os s) (bgListenSocket s) (vNodes s)
    (<[l := mkBNode bSocket [] 0 0 0 [] 0 bService t 0 0 false fInbound false ref_memory]> (nodes s))
    (Pos.succ l) (hostAddr s) (vAddrToConnect s) (app s));;
  mret l.

Definition CloseSocketDisconnect (l : positive) : ncmd unit :=
  n ← get_node l;
  if Z.eqb (bSocket_ n) INVALID_SOCKET then put_node l (set_socket (bSocket_ n) true n)
  else
    r ← on_os (CloseSocket (bSocket_ n));
    put_node l (set_socket r.2 true n).

(** [delete]: the destructor closes the socket. *)
Definition BNode_delete (l : positive) : ncmd unit :=
  n ← get_node l;
  on_os (CloseSocket (bSocket_ n));;
  set_nodes (delete l).

Definition PushMessage (l : positive) (command data : bytes) : ncmd unit :=
  msg ← lift (BNetMessage_serializer (BNetMessage_new command 0 data));
  n ← get_node l;
  put_node l (set_send (vSendMsg_ n ++ [msg]) (nSendOffset_ n) (nSendBytes_ n) (nLastSend_ n) n).

(** ** Connections *)

Fixpoint find_node (ls : list positive) (bService : BService) : ncmd (option positive) :=
  match ls with
  | [] => mret None
  | l :: ls =>
      n ← get_node l;
      if BService_eqb (bService_ n) bService then mret (Some l) else find_node ls bService
  end.
Definition FindNode (bService : BService) : ncmd (option positive) :=
  ls ← gets vNodes; find_node ls bService.

(** A new node, with a reference, at the end of [vNodes]. *)
Definition push_node (bSocket : Z) (bService : BService) (fInbound : bool) : ncmd positive :=
  l ← BNode_new bSocket bService fInbound;
  n ← get_node l;
  put_node l (add_ref n);;
  ls ← gets vNodes;
  set_vNodes (ls ++ [l]);;
  mret l.

Definition ConnectNode (bService : BService) : ncmd (option positive) :=
  pnode ← FindNode bService;
  match pnode with
  | Some l => n ← get_node l; put_node l (add_ref n);; mret (Some l)
  | None =>
      r ← on_os (ConnectSocket bService nConnectTimeout);
      if r.1 : bool then l ← push_node r.2 bService false; mret (Some l)
      else mret None
  end.

Fixpoint count_nodes (p : BNode → bool) (ls : list positive) (c : Z) : ncmd Z :=
  match ls with
  | [] => mret c
  | l :: ls => n ← get_node l; count_nodes p ls (if p n then c + 1 else c)%Z
  end.

(** The loop over the listening sockets: the first that is ready is served. *)
Fixpoint accept_loop (ready listening : list Z) : ncmd bool :=
  match listening with
  | [] => mret false
  | ls :: rest =>
      isset ← lift (if Z.eqb ls INVALID_SOCKET then Ok false else FD_ISSET ls ready);
      if isset : bool then
        r ← on_os (call (λ e, let '(fd, peer, e) := sys_accept (to_int32 ls) e in ((fd, peer), e)));
        let hSocket := to_socket r.1 in
        all ← gets vNodes;
        nInbound ← count_nodes fInbound_ all 0;
        if Z.eqb hSocket INVALID_SOCKET then mret false
        else if Z.ltb MAXINBOUND nInbound then on_os (CloseSocket hSocket);; mret false
        else push_node hSocket r.2 true;; mret true
      else accept_loop ready rest
  end.

(** The set of the listening sockets and the largest of them. *)
Fixpoint listening_set (listening fdSetRecv : list Z) (hSocketMax : Z) : outcome (list Z * Z) :=
  match listening with
  | [] => mret (fdSetRecv, hSocketMax)
  | ls :: rest => fds ← FD_SET ls fdSetRecv; listening_set rest fds (Z.max hSocketMax ls)
  end.

Definition AcceptSocket : ncmd bool :=
  listening ← gets bgListenSocket;
  c ← lift (listening_set listening [] 0);
  let '(fdSetRecv, hSocketMax) := c in
  r ← on_os (call (λ e, let '(n, rs, _, e) :=
        sys_select (to_int32 (u32 (hSocketMax + 1))) fdSetRecv [] (MillisToTimeval 1000) e in ((n, rs), e)));
  if Z.eqb r.1 SOCKET_ERROR then mret false
  else accept_loop r.2 listening.

(** ** Requests of clients *)

(** An exception that nobody catches ends the process. *)
Definition member (v : J) (k : string) : ncmd J := lift (of_option Terminate (json_member v (str k))).
Definition asString (v : J) : ncmd bytes := lift (of_option Terminate (json_asString v)).

(** The loops that send a message to the nodes this node has connected to. *)
Fixpoint push_to_peers (ls : list positive) (command data : bytes) : ncmd unit :=
  match ls with
  | [] => mret tt
  | l :: ls =>
      n ← get_node l;
      (if fInbound_ n then mret tt else PushMessage l command data);;
      push_to_peers ls command data
  end.
Definition SendMessages (command data : bytes) : ncmd unit :=
  ls ← gets vNodes; push_to_peers ls command data.

Definition result_fields (ok : bool) (output : J) : J :=
  json_put [str "msg"] (json_string (str (if ok then "success" else "fail")))
    (json_put [str "errCode"] (json_string (str (if ok then "1" else "0"))) output).

Definition ParseHandleJsonData (data : bytes) : ncmd bytes :=
  match json_parse data with
  | None => fail NoReturnValue
  | Some root =>
      v ← member root "versionClient"; v ← asString v;
      if negb (bool_decide (v = str "1.0")) then fail NoReturnValue else
      m ← member root "methodType"; method ← asString m;
      if bool_decide (method = str "1000") then
        p ← member root "params"; a ← member p "bubiAddr"; addr ← asString a;
        balance ← on_app (get_balance addr);
        let output := result_fields true json_null in
        let output := json_put [str "data"; str "bubiAddr"] a output in
        let output := json_put [str "data"; str "balance"] (json_string (write_double balance)) output in
        mret (json_write output)
      else if bool_decide (method = str "1001") then
        p ← member root "params";
        x ← member p "sendAddr"; sendAddr ← asString x;
        x ← member p "fee"; fee ← asString x;
        x ← member p "receive_addr"; recvAddr ← asString x;
        let amount := read_double fee in
        let source := get_sha512_half (Serializer_of_string sendAddr) in
        let dest := get_sha512_half (Serializer_of_string recvAddr) in
        let tx := Transaction_new tx_memory source dest amount in
        txserialize ← lift (Transaction_serializer tx);
        r ← on_app (add_transaction_entry tx);
        let output := result_fields (Z.eqb r.1 0) json_null in
        tm ← on_os (call sys_time);
        let output := json_put [str "data"; str "transNo"] (json_string (write_int tm)) output in
        ls ← gets vNodes;
        push_to_peers ls (str "transaction") txserialize;;
        mret (json_write output)
      else if bool_decide (method = str "1002") then fail NoReturnValue
      else if bool_decide (method = str "1003") then fail NoReturnValue
      else if bool_decide (method = str "1004") then
        p ← member root "params"; a ← member p "bubiAddr"; bubiAddr ← asString a;
        r ← on_app (create_account bubiAddr);
        let output := result_fields (Z.eqb r 0) json_null in
        let output := json_put [str "data"] json_null output in
        ls ← gets vNodes;
        push_to_peers ls (str "account") bubiAddr;;
        mret (json_write output)
      else
        let output := json_put [str "errCode"] (json_string (str "0")) json_null in
        let output := json_put [str "msg"] (json_string (str "the methodType does not exits")) output in
        mret (json_write output)
  end.

(** ** Sending and receiving *)

(** [&data[offset]] with [data.size()] bytes from there; a string has a byte after its end. *)
Definition send_region (data : bytes) (offset : nat) : outcome bytes :=
  if decide (offset + length data ≤ length data + 1)
  then Ok (take (length data) (drop offset (data ++ [Byte.x00]))) else Err OutOfBounds.

(** An error after which the connection can still be used. *)
Definition soft_error (errno : Z) : bool :=
  Z.eqb errno EINPROGRESS || Z.eqb errno EMSGSIZE || Z.eqb errno EINTR || Z.eqb errno EWOULDBLOCK.

(** The loop over the messages to send; the result is what [it] is at afterwards.  The
    code repeats a call that did not send anything without end. *)
Fixpoint send_loop (fuel : nat) (l : positive) (it : list bytes) : ncmd (list bytes) :=
  match it with
  | [] => mret []
  | data :: it' =>
      match fuel with
      | O => fail OutOfFuel
      | S fuel =>
          n ← get_node l;
          assert (bool_decide (nSendOffset_ n < length data));;
          d ← lift (send_region data (nSendOffset_ n));
          nBytes ← on_os (call (sys_send (to_int32 (bSocket_ n)) d));
          if Z.ltb 0 nBytes then
            t ← on_os (call sys_time);
            let off := nSendOffset_ n + Z.to_nat nBytes in
            let sent := u64 (nSendBytes_ n + nBytes) in
            if Nat.eqb off (length data) then
              put_node l (set_send (vSendMsg_ n) 0 sent t n);;
              send_loop fuel l it'
            else
              put_node l (set_send (vSendMsg_ n) off sent t n);;
              mret it
          else
            errno ← gets (λ s, sys_errno (os s));
            (if Z.ltb nBytes 0 && negb (soft_error errno) then CloseSocketDisconnect l else mret tt);;
            send_loop fuel l it
      end
  end.

Definition SocketSendData (fuel : nat) (l : positive) : ncmd unit :=
  n ← get_node l;
  it ← send_loop fuel l (vSendMsg_ n);
  n ← get_node l;
  (if decide (it = []) then assert (Nat.eqb (nSendOffset_ n) 0) else mret tt);;
  put_node l (set_send it (nSendOffset_ n) (nSendBytes_ n) (nLastSend_ n) n).

Definition SocketRecvData (l : positive) : ncmd unit :=
  n ← get_node l;
  r ← on_os (call (λ e, let '(k, d, e) := sys_recv (to_int32 (bSocket_ n)) (Z.to_nat 0x10000) e in ((k, d), e)));
  let nBytes := r.1 in
  let data := r.2 in
  if Z.ltb 0 nBytes then
    t ← on_os (call sys_time);
    let n := set_recv (vRecvMsg_ n) (u64 (nRecvBytes_ n + nBytes)) t n in
    put_node l n;;
    if negb (bool_decide (head data = Some (byte.of_Z 123))) then
      message ← lift (BNetMessage_unserializer data);
      put_node l (set_recv (vRecvMsg_ n ++ [message]) (nRecvBytes_ n) (nLastRecv_ n) n)
    else
      jsondata ← ParseHandleJsonData data;
      n ← get_node l;
      on_os (call (sys_send (to_int32 (bSocket_ n)) jsondata));;
      mret tt
  else if Z.eqb nBytes 0 then CloseSocketDisconnect l
  else
    errno ← gets (λ s, sys_errno (os s));
    if negb (soft_error errno) then CloseSocketDisconnect l else mret tt.

Fixpoint process_loop (l : positive) (it : list BNetMessage) : ncmd unit :=
  match it with
  | [] => mret tt
  | m :: it =>
      (if bool_decide (bchCommand_ (header_ m) = str "transaction") then
         tx ← lift (Transaction_unserializer (data_ m));
         on_app (add_transaction_entry tx);;
         PushMessage l (str "tx-reply") (str "i have got your tx message......")
       else if bool_decide (bchCommand_ (header_ m) = str "account") then
         on_app (create_account (data_ m));;
         PushMessage l (str "account-reply") (str "i have got your account message......")
       else mret tt);;
      process_loop l it
  end.
Definition ProcessMessages (l : positive) : ncmd unit :=
  n ← get_node l;
  process_loop l (vRecvMsg_ n);;
  n ← get_node l;
  put_node l (set_recv [] (nRecvBytes_ n) (nLastRecv_ n) n).

(** ** The threads *)

(** Every turn starts with the nodes that are done. *)
Fixpoint disconnect_nodes (copy : list positive) : ncmd unit :=
  match copy with
  | [] => mret tt
  | l :: copy =>
      n ← get_node l;
      (if fDisconnect_ n && bool_decide (vSendMsg_ n = []) && bool_decide (vRecvMsg_ n = []) then
         ls ← gets vNodes;
         set_vNodes (filter (λ l', l' ≠ l) ls);;
         CloseSocketDisconnect l;;
         BNode_delete l
       else mret tt);;
      disconnect_nodes copy
  end.

Definition try_lock : ncmd bool := on_os (call sys_try_lock).

(** The two sets and the largest socket.  A node with messages to send waits for
    sending, another for receiving unless too much is waiting to be processed. *)
Fixpoint collect_sockets (ls : list positive) (recv send : list Z) (maxSocket : Z)
    : ncmd (list Z * list Z * Z) :=
  match ls with
  | [] => mret (recv, send, maxSocket)
  | l :: ls =>
      n ← get_node l;
      if Z.eqb (bSocket_ n) INVALID_SOCKET then collect_sockets ls recv send maxSocket
      else
        send_locked ← try_lock;
        if send_locked && negb (bool_decide (vSendMsg_ n = [])) then
          fds ← lift (FD_SET (bSocket_ n) send);
          collect_sockets ls recv fds (Z.max maxSocket (bSocket_ n))
        else
          recv_locked ← try_lock;
          if recv_locked && (bool_decide (vRecvMsg_ n = []) || Z.leb (getTotalRecvSize n) MAXRECVSIZE) then
            fds ← lift (FD_SET (bSocket_ n) recv);
            collect_sockets ls fds send (Z.max maxSocket (bSocket_ n))
          else collect_sockets ls recv send maxSocket
  end.

Fixpoint service_sockets (fuel : nat) (copy : list positive) (recv send : list Z) : ncmd unit :=
  match copy with
  | [] => mret tt
  | l :: copy =>
      n ← get_node l;
      (if Z.eqb (bSocket_ n) INVALID_SOCKET then mret tt
       else
         readable ← lift (FD_ISSET (bSocket_ n) recv);
         if readable : bool then
           locked ← try_lock;
           if locked : bool then SocketRecvData l else mret tt
         else
           writable ← lift (FD_ISSET (bSocket_ n) send);
           if writable : bool then
             locked ← try_lock;
             if locked : bool then SocketSendData fuel l else mret tt
           else mret tt);;
      service_sockets fuel copy recv send
  end.

(** A turn of [ThreadSocketHandler]. *)
Definition SocketHandler_turn (fuel : nat) : ncmd unit :=
  copy ← gets vNodes;
  disconnect_nodes copy;;
  AcceptSocket;;
  ls ← gets vNodes;
  c ← collect_sockets ls [] [] 0;
  let '(recv, send, maxSocket) := c in
  r ← on_os (call (λ e, let '(k, rs, ws, e) :=
        sys_select (to_int32 (u32 (maxSocket + 1))) recv send (MillisToTimeval 50) e in ((k, rs, ws), e)));
  let '(nSelect, recv, send) := r in
  if Z.eqb nSelect SOCKET_ERROR then mret tt
  else if Z.eqb nSelect 0 then mret tt
  else
    copy ← gets vNodes;
    service_sockets fuel copy recv send.

Fixpoint process_nodes (copy : list positive) : ncmd unit :=
  match copy with
  | [] => mret tt
  | l :: copy =>
      locked ← try_lock;
      (if locked : bool then ProcessMessages l else mret tt);;
      try_lock;;
      process_nodes copy
  end.

(** A turn of [ThreadMessageHandler]. *)
Definition MessageHandler_turn : ncmd unit :=
  copy ← gets vNodes; process_nodes copy.

(** What [getifaddrs] lists: a name and an address with its family. *)
Record ifaddrs := mkIfaddrs { ifa_name : bytes; ifa_addr : option (Z * Z) }.
Definition AF_INET : Z := 2.

Fixpoint discover_loop (myaddrs : list ifaddrs) (hosts : list Z) : list Z :=
  match myaddrs with
  | [] => hosts
  | ifa :: rest =>
      match ifa_addr ifa with
      | None => discover_loop rest hosts
      | Some (sin_family, sin_addr) =>
          if bool_decide (ifa_name ifa = str "lo") then discover_loop rest hosts
          else if Z.eqb sin_family AF_INET then discover_loop rest (hosts ++ [sin_addr])
          else discover_loop rest hosts
      end
  end.

(** [None]: [getifaddrs] fails. *)
Definition Discover (getifaddrs : option (list ifaddrs)) : ncmd unit :=
  match getifaddrs with
  | None => mret tt
  | Some myaddrs =>
      modify (λ s, mkNet (os s) (bgListenSocket s) (vNodes s) (nodes s) (next_node s)
        (discover_loop myaddrs (hostAddr s)) (vAddrToConnect s) (app s))
  end.

(** What [main] of [src/Test/bubi_server.cpp] does before it starts the threads. *)
Fixpoint listen_all (addrs : list Z) : ncmd unit :=
  match addrs with
  | [] => mret tt
  | addr :: addrs => BindListenPort (mkBService (ntohs 30000) addr);; listen_all addrs
  end.
Definition main_listen (getifaddrs : option (list ifaddrs)) : ncmd unit :=
  Discover getifaddrs;;
  hosts ← gets hostAddr;
  listen_all hosts.

(** The addresses of the file of peers, without those of this host. *)
Definition read_peers (ips : list bytes) : ncmd unit :=
  hosts ← gets hostAddr;
  let others := filter (λ ip, ip ∉ inet_ntoa <$> hosts) ips in
  modify (λ s, mkNet (os s) (bgListenSocket s) (vNodes s) (nodes s) (next_node s) (hostAddr s)
    (vAddrToConnect s ++ ((λ ip, BService_of_string ip_memory ip 30000) <$> others)) (app s)).

Fixpoint connect_all (services : list BService) : ncmd unit :=
  match services with
  | [] => mret tt
  | b :: services => ConnectNode b;; connect_all services
  end.

(** A turn of the loop of [ThreadOpenConnections]: whether it was the last. *)
Definition OpenConnections_turn : ncmd bool :=
  services ← gets vAddrToConnect;
  connect_all services;;
  ls ← gets vNodes;
  n ← count_nodes (λ n, negb (fInbound_ n)) ls 0;
  mret (Z.eqb n (Z.of_nat (length services))).
End net.
