(* ===== verification/NetConns.v ===== *)
(** * The network: connections

    Which descriptors are open: the functions of [NetBase] return a new descriptor or leave
    the open ones as they were.  The part of the state of the process that says who is
    connected, what it means that it is in order, and that opening, closing and removing
    connections keeps it so. *)

From S2P Require Import Prelude Varint BaseUint Double Serializer MerkleNode Database MerkleTree CodedStream WireFormat.
From S2P Require Import WireLemmas PbMessage PbRound TransactionPb TransactionPbLaws BubiPb BubiPbLaws Entries.
From S2P Require Import Ledger LedgerInv LedgerOps Interface Iostream NetBase.
From S2P Require Import Net.

(** ** Sockets *)

(** A valid socket is the number of a descriptor. *)
Abbreviation is_fd s := (0 ≤ s < 2 ^ 31)%Z.

Lemma to_int32_fd s : is_fd s → to_int32 s = s.
Proof. intros Hs. apply to_int32_small. lia. Qed.
Lemma to_socket_fd s : is_fd s → to_socket s = s.
Proof. intros Hs. apply Z.mod_small. lia. Qed.
Lemma fd_valid s : is_fd s → s ≠ INVALID_SOCKET.
Proof. unfold INVALID_SOCKET. lia. Qed.
Lemma fd_valid_eqb s : is_fd s → Z.eqb s INVALID_SOCKET = false.
Proof. intros Hs. by apply Z.eqb_neq, fd_valid. Qed.

Section sockets.
Context {E : Type} `{SystemLaws E}.
Implicit Type e : E.

Lemma run_call {A} (f : E → A * E) e a e' : f e = (a, e') → call f e = Ok (a, e').
Proof. intros Hf. unfold call. by rewrite Hf. Qed.

Lemma run_CloseSocket s e : is_fd s →
  ∃ b e', CloseSocket s e = Ok ((b, INVALID_SOCKET), e') ∧ open_fds e' = open_fds e ∖ {[s]}.
Proof.
  intros Hs. unfold CloseSocket. rewrite fd_valid_eqb, to_int32_fd by done.
  destruct (sys_close s e) as [r e'] eqn:Ec. step (run_call _ _ _ _ Ec).
  eexists _, e'. split; [done|]. exact (close_closes s e r e' Ec).
Qed.

Lemma run_CloseSocket_invalid e : CloseSocket INVALID_SOCKET e = Ok ((false, INVALID_SOCKET), e).
Proof. done. Qed.

Lemma run_SetSocketNonBlocking s b e : is_fd s →
  ∃ r e', SetSocketNonBlocking s b e = Ok (r, e') ∧
    (r = (true, s) ∧ open_fds e' = open_fds e ∨
     r = (false, INVALID_SOCKET) ∧ open_fds e' = open_fds e ∖ {[s]}).
Proof.
  intros Hs. unfold SetSocketNonBlocking. rewrite to_int32_fd by done.
  destruct (sys_fcntl_getfl s e) as [flag e1] eqn:E1. step (run_call _ _ _ _ E1).
  match goal with |- context [sys_fcntl_setfl s ?f] => destruct (sys_fcntl_setfl s f e1) as [ret e2] eqn:E2 end.
  step (run_call _ _ _ _ E2). apply getfl_keeps in E1. apply setfl_keeps in E2.
  destruct (Z.eqb ret SOCKET_ERROR).
  - destruct (run_CloseSocket s e2 Hs) as (r & e3 & E3 & Hc). step E3.
    eexists _, e3. split; [done|right]. split; [done|congruence].
  - eexists _, e2. split; [done|left]. split; [done|congruence].
Qed.

(** A socket was opened, or nothing changed. *)
Definition opened (r : bool) (s : Z) e e' : Prop :=
  if r then lowest s (open_fds e) ∧ open_fds e' = {[s]} ∪ open_fds e
  else open_fds e' = open_fds e.

Lemma run_close_and_fail s e : is_fd s →
  ∃ e', close_and_fail s e = Ok ((false, INVALID_SOCKET), e') ∧ open_fds e' = open_fds e ∖ {[s]}.
Proof.
  intros Hs. unfold close_and_fail. destruct (run_CloseSocket s e Hs) as (b & e' & Ec & Hc). step Ec. eauto.
Qed.

Lemma opened_closed s e e1 e2 :
  s ∉ open_fds e → open_fds e1 = {[s]} ∪ open_fds e → open_fds e2 = open_fds e1 ∖ {[s]} →
  open_fds e2 = open_fds e.
Proof. intros Hs -> ->. set_solver. Qed.

Lemma lowest_size fd (used : gset Z) : lowest fd used → (fd ≤ Z.of_nat (size used))%Z.
Proof.
  intros [Hfd _ Hu]. set (ks := Z.of_nat <$> seq 0 (Z.to_nat fd)).
  assert (NoDup ks) as Hd by (apply NoDup_fmap_2; [apply _|apply NoDup_seq]).
  assert (list_to_set ks ⊆ used) as Hs.
  { intros k Hk. apply elem_of_list_to_set, list_elem_of_fmap in Hk as (i & -> & Hi%elem_of_seq). apply Hu. lia. }
  apply subseteq_size in Hs. rewrite size_list_to_set in Hs by done. unfold ks in Hs.
  rewrite length_fmap, length_seq in Hs. lia.
Qed.

(** [ConnectSocket] returns, and a socket it does not return is closed; only when as many
    descriptors are in use as a set has room for does it write beyond the set. *)
Lemma run_ConnectSocket b t e :
  (∃ r s e', ConnectSocket b t e = Ok ((r, s), e') ∧ opened r s e e') ∨
  (FD_SETSIZE ≤ Z.of_nat (size (open_fds e)))%Z ∧ ConnectSocket b t e = Err OutOfBounds.
Proof.
  unfold ConnectSocket. destruct (sys_socket e) as [fd e1] eqn:E1. step (run_call _ _ _ _ E1).
  destruct (socket_opens e fd e1 E1) as [[-> Ho]|[Hlow Ho]]; [left; by eexists _, _, e1|].
  pose proof Hlow as [Hfd Hnew _]. rewrite to_socket_fd, fd_valid_eqb by done.
  destruct (run_SetSocketNonBlocking fd true e1 Hfd) as (r & e2 & E2 & Hr). step E2.
  destruct Hr as [[-> H2]|[-> H2]]; cbn [fst snd].
  - rewrite to_int32_fd by done. destruct (sys_connect fd b e2) as [ret e3] eqn:E3.
    step (run_call _ _ _ _ E3). apply connect_keeps in E3.
    assert (∀ e4, open_fds e4 = {[fd]} ∪ open_fds e → ∃ r s e', close_and_fail fd e4 = Ok ((r, s), e') ∧ opened r s e e')
      as Hfail.
    { intros e4 H4. destruct (run_close_and_fail fd e4 Hfd) as (e5 & -> & H5).
      eexists _, _, e5. split; [done|]. exact (opened_closed fd e e4 e5 Hnew H4 H5). }
    destruct (Z.eqb ret SOCKET_ERROR); [|left; eexists _, _, e3; split; [done|]; split; [done|congruence]].
    step (eq_refl : gets sys_errno e3 = _). destruct (Z.eqb _ EINPROGRESS); [|left; apply Hfail; congruence].
    unfold FD_SET. destruct (Z.ltb_spec fd FD_SETSIZE) as [Hlt|Hge].
    2: { right. pose proof (lowest_size fd _ Hlow). split; [lia|done]. }
    step (eq_refl : lift (Ok ([] ++ [fd])) e3 = _).
    left. match goal with |- context [sys_select ?x ?y ?z ?u] =>
      destruct (sys_select x y z u e3) as [[[n rs] ws] e4] eqn:E4 end.
    rewrite (bind_Ok _ _ e3 n e4) by (unfold call; by rewrite E4). apply select_keeps in E4.
    destruct (Z.eqb n 0); [apply Hfail; congruence|]. destruct (Z.eqb n SOCKET_ERROR); [apply Hfail; congruence|].
    destruct (sys_getsockopt_error fd e4) as [[g v] e5] eqn:E5.
    rewrite (bind_Ok _ _ e4 (g, v) e5) by (unfold call; by rewrite E5). apply getsockopt_keeps in E5. cbn [fst snd].
    destruct (Z.eqb g SOCKET_ERROR); [apply Hfail; congruence|].
    destruct (negb (Z.eqb v 0)); [apply Hfail; congruence|].
    eexists _, _, e5. split; [done|]. split; [done|congruence].
  - change (to_int32 INVALID_SOCKET) with (-1)%Z. destruct (sys_connect (-1) b e2) as [ret e3] eqn:E3.
    step (run_call _ _ _ _ E3). destruct (connect_bad b e2 ret e3 E3) as [-> Hbad]. apply connect_keeps in E3.
    change (Z.eqb SOCKET_ERROR SOCKET_ERROR) with true. cbv iota.
    step (eq_refl : gets sys_errno e3 = _). rewrite Hbad. change (Z.eqb EBADF EINPROGRESS) with false. cbv iota.
    left. eexists _, _, e3. split; [done|]. apply (opened_closed fd e e1 e3 Hnew Ho). congruence.
Qed.

Lemma run_bind_listen b e :
  ∃ r s e', bind_listen b e = Ok ((r, s), e') ∧
    match s with Some s => r = true ∧ opened true s e e' | None => r = false ∧ open_fds e' = open_fds e end.
Proof.
  unfold bind_listen. destruct (sys_socket e) as [fd e1] eqn:E1. step (run_call _ _ _ _ E1).
  destruct (socket_opens e fd e1 E1) as [[-> Ho]|[Hlow Ho]]; [by eexists _, _, e1|].
  pose proof Hlow as [Hfd Hnew _]. rewrite to_socket_fd, fd_valid_eqb, to_int32_fd by done.
  destruct (sys_setsockopt_reuseaddr fd e1) as [r1 e2] eqn:E2. step (run_call _ _ _ _ E2). apply setsockopt_keeps in E2.
  destruct (run_SetSocketNonBlocking fd true e2 Hfd) as (r & e3 & E3 & Hr). step E3.
  destruct Hr as [[-> H3]|[-> H3]]; cbn [fst snd negb].
  - rewrite to_int32_fd by done. destruct (sys_bind fd b e3) as [r2 e4] eqn:E4. step (run_call _ _ _ _ E4). apply bind_keeps in E4.
    assert (∀ e5, open_fds e5 = {[fd]} ∪ open_fds e → ∃ r s e',
      (CloseSocket fd;; mret (false, @None Z)) e5 = Ok ((r, s), e') ∧
      match s with Some s => r = true ∧ opened true s e e' | None => r = false ∧ open_fds e' = open_fds e end) as Hfail.
    { intros e5 H5. destruct (run_CloseSocket fd e5 Hfd) as (c & e6 & E6 & H6). step E6.
      eexists _, _, e6. split; [done|]. split; [done|]. exact (opened_closed fd e e5 e6 Hnew H5 H6). }
    destruct (Z.eqb r2 SOCKET_ERROR); [apply Hfail; congruence|].
    destruct (sys_listen fd e4) as [r3 e5] eqn:E5. step (run_call _ _ _ _ E5). apply listen_keeps in E5.
    destruct (Z.eqb r3 SOCKET_ERROR); [apply Hfail; congruence|].
    eexists _, _, e5. split; [done|]. split; [done|]. split; [done|congruence].
  - eexists _, _, e3. split; [done|]. split; [done|]. apply (opened_closed fd e e1 e3 Hnew Ho). congruence.
Qed.
End sockets.

(** * Connections *)

(** The socket of a node, whether the peer has opened the connection, and its address. *)
Abbreviation link_t := (Z * bool * BService)%type.

Record conns := mkConns {
  c_links : gmap positive link_t;
  c_list : list positive;
  c_next : positive;
  c_open : gset Z;
  c_listen : gset Z;
  c_targets : list BService;
}.
Implicit Types (c : conns) (base : gset Z).

Definition is_inbound c (l : positive) : Prop := (λ x : link_t, x.1.2) <$> c_links c !! l = Some true.
#[export] Instance is_inbound_dec c l : Decision (is_inbound c l).
Proof. unfold is_inbound. apply _. Defined.
Definition inbound c : nat := length (filter (is_inbound c) (c_list c)).

(** The descriptors that do not belong to nodes: [base] and those listening. *)
Definition others base c : gset Z := base ∪ c_listen c.

(** The sockets of nodes are below this number. *)
Definition fd_bound base c : Z := Z.of_nat (size (others base c) + 11 + length (c_targets c)).

Record conns_ok base c : Prop := {
  ok_nodes l : l ∈ c_list c ↔ is_Some (c_links c !! l);
  ok_nodup : NoDup (c_list c);
  ok_fresh l : is_Some (c_links c !! l) → (l < c_next c)%positive;
  ok_inbound : inbound c ≤ 11;
  ok_open fd : fd ∈ c_open c ↔
    fd ∈ others base c ∨ ∃ l b svc, c_links c !! l = Some (fd, b, svc) ∧ fd ≠ INVALID_SOCKET;
  ok_socket l fd b svc : c_links c !! l = Some (fd, b, svc) → fd ≠ INVALID_SOCKET →
    is_fd fd ∧ (fd ∉ others base c) ∧ (fd < fd_bound base c)%Z;
  ok_inj l1 l2 fd b1 b2 v1 v2 : c_links c !! l1 = Some (fd, b1, v1) → c_links c !! l2 = Some (fd, b2, v2) →
    fd ≠ INVALID_SOCKET → l1 = l2;
  ok_target l fd svc : c_links c !! l = Some (fd, false, svc) → svc ∈ c_targets c;
  ok_service l1 l2 fd1 fd2 svc : c_links c !! l1 = Some (fd1, false, svc) →
    c_links c !! l2 = Some (fd2, false, svc) → l1 = l2;
}.

(** ** Counting *)

Lemma filter_ext_in {A} (P Q : A → Prop) `{!∀ x, Decision (P x), !∀ x, Decision (Q x)} (l : list A) :
  (∀ x, x ∈ l → P x ↔ Q x) → filter P l = filter Q l.
Proof.
  induction l as [|x l IH]; intros Hl; [done|].
  rewrite !filter_cons, IH by (intros y Hy; apply Hl; by right).
  assert (P x ↔ Q x) by (apply Hl; left). repeat case_decide; tauto.
Qed.

Lemma length_filter_mono {A} (P Q : A → Prop) `{!∀ x, Decision (P x), !∀ x, Decision (Q x)} (l : list A) :
  (∀ x, P x → Q x) → length (filter P l) ≤ length (filter Q l).
Proof.
  intros HPQ. induction l as [|x l IH]; [done|]. rewrite !filter_cons.
  specialize (HPQ x). repeat case_decide; cbn; tauto || lia.
Qed.

Lemma length_filter_split {A} (P : A → Prop) `{!∀ x, Decision (P x)} (l : list A) :
  length l = length (filter P l) + length (filter (λ x, ¬ P x) l).
Proof. induction l as [|x l IH]; [done|]. rewrite !filter_cons. repeat case_decide; cbn; tauto || lia. Qed.

(** Different elements have different images in [ys]. *)
Lemma length_le_inj {A B} (f : A → B) (l : list A) (ys : list B) :
  NoDup l → (∀ x, x ∈ l → f x ∈ ys) → (∀ x y, x ∈ l → y ∈ l → f x = f y → x = y) → length l ≤ length ys.
Proof.
  intros Hd Hin Hinj. rewrite <- (length_fmap f l). apply submseteq_length, NoDup_submseteq.
  - apply NoDup_fmap_2_strong; [|done]. intros x y Hx Hy. by apply Hinj.
  - intros y (x & -> & Hx)%list_elem_of_fmap. by apply Hin.
Qed.

Lemma size_list_to_set_le (l : list Z) : size (list_to_set l : gset Z) ≤ length l.
Proof.
  apply submseteq_length, NoDup_submseteq; [apply NoDup_elements|].
  intros x Hx%elem_of_elements. by apply elem_of_list_to_set in Hx.
Qed.

Lemma c_next_free base c : conns_ok base c → c_links c !! c_next c = None.
Proof.
  intros Hc. destruct (c_links c !! c_next c) eqn:E; [|done].
  assert (c_next c < c_next c)%positive by (apply (ok_fresh _ _ Hc); rewrite E; eauto). lia.
Qed.

Definition outbound_nodes c : list positive := filter (λ l, ¬ is_inbound c l) (c_list c).

Lemma outbound_link base c l : conns_ok base c → l ∈ outbound_nodes c →
  ∃ fd svc, c_links c !! l = Some (fd, false, svc).
Proof.
  intros Hc [Hl Hin]%list_elem_of_filter. apply (ok_nodes _ _ Hc) in Hin as [[[fd b] svc] E].
  exists fd, svc. unfold is_inbound in Hl. rewrite E in *. destruct b; [by destruct Hl|done].
Qed.

(** The address of a node. *)
Definition address c (l : positive) : BService := default (mkBService 0 0) (snd <$> c_links c !! l).

Lemma outbound_le base c : conns_ok base c → length (outbound_nodes c) ≤ length (c_targets c).
Proof.
  intros Hc. apply (length_le_inj (address c)).
  - apply NoDup_filter, Hc.
  - intros l Hl. destruct (outbound_link _ _ _ Hc Hl) as (fd & svc & E). unfold address. rewrite E. cbn.
    by eapply ok_target.
  - intros l1 l2 H1 H2. destruct (outbound_link _ _ _ Hc H1) as (fd1 & svc1 & E1).
    destruct (outbound_link _ _ _ Hc H2) as (fd2 & svc2 & E2). unfold address. rewrite E1, E2. cbn. intros ->.
    by eapply ok_service.
Qed.

(** There is room for another node with a new address. *)
Lemma outbound_lt base c svc : conns_ok base c → svc ∈ c_targets c →
  (∀ l fd, c_links c !! l ≠ Some (fd, false, svc)) → length (outbound_nodes c) < length (c_targets c).
Proof.
  intros Hc Hsvc Hnew. pose proof (ok_nodup _ _ Hc) as Hd.
  assert (length (svc :: (address c <$> outbound_nodes c)) ≤ length (c_targets c)) as Hl;
    [|cbn in Hl; rewrite length_fmap in Hl; lia].
  apply submseteq_length, NoDup_submseteq.
  - apply NoDup_cons. split.
    + intros (l & -> & Hl)%list_elem_of_fmap. destruct (outbound_link _ _ _ Hc Hl) as (fd & svc & E).
      apply (Hnew l fd). unfold address. by rewrite E.
    + apply NoDup_fmap_2_strong; [|by apply NoDup_filter]. intros l1 l2 H1 H2.
      destruct (outbound_link _ _ _ Hc H1) as (fd1 & svc1 & E1).
      destruct (outbound_link _ _ _ Hc H2) as (fd2 & svc2 & E2). unfold address. rewrite E1, E2. cbn. intros ->.
      by eapply ok_service.
  - intros x [->|(l & -> & Hl)%list_elem_of_fmap]%elem_of_cons; [done|].
    destruct (outbound_link _ _ _ Hc Hl) as (fd & svc' & E). unfold address. rewrite E. by eapply ok_target.
Qed.

Lemma open_size base c : conns_ok base c →
  size (c_open c) ≤ size (others base c) + inbound c + length (outbound_nodes c).
Proof.
  intros Hc. set (sock l := default 0%Z ((λ x : link_t, x.1.1) <$> c_links c !! l)).
  assert (c_open c ⊆ others base c ∪ list_to_set (sock <$> c_list c)) as Hs.
  { intros fd [Ho|(l & b & svc & E & _)]%(ok_open _ _ Hc); [set_solver|].
    apply elem_of_union_r, elem_of_list_to_set, list_elem_of_fmap. exists l. unfold sock. rewrite E.
    split; [done|]. apply (ok_nodes _ _ Hc). eauto. }
  apply subseteq_size in Hs. etrans; [exact Hs|]. rewrite size_union_alt.
  assert (size (list_to_set (sock <$> c_list c) ∖ others base c) ≤ length (c_list c)) as Hl.
  { etrans; [apply (subseteq_size _ (list_to_set (sock <$> c_list c))); set_solver|].
    etrans; [apply size_list_to_set_le|]. by rewrite length_fmap. }
  rewrite (length_filter_split (is_inbound c)) in Hl. fold (inbound c) (outbound_nodes c) in Hl. lia.
Qed.

(** ** Changes of the connections *)

Definition pushed (fd : Z) (b : bool) (svc : BService) c : conns :=
  mkConns (<[c_next c := (fd, b, svc)]> (c_links c)) (c_list c ++ [c_next c]) (Pos.succ (c_next c))
    ({[fd]} ∪ c_open c) (c_listen c) (c_targets c).

Lemma inbound_pushed fd (b : bool) svc c :
  c_next c ∉ c_list c → inbound (pushed fd b svc c) = inbound c + (if b then 1 else 0).
Proof.
  intros Hnl. unfold inbound. cbn. rewrite filter_app, length_app, filter_cons, filter_nil.
  rewrite (filter_ext_in _ (is_inbound c)).
  - f_equal. case_decide as Hb; unfold is_inbound in Hb; cbn in Hb; rewrite lookup_insert_eq in Hb; cbn in Hb;
      destruct b; done.
  - intros l Hl. unfold is_inbound. cbn. by rewrite lookup_insert_ne by (intros <-; done).
Qed.

Ltac link_cases := repeat match goal with
  | H : <[_ := _]> _ !! _ = Some _ |- _ => apply lookup_insert_Some in H as [[<- H]|[? H]]; simplify_eq
  end.

(** A new descriptor becomes the socket of a new node. *)
Lemma conns_push base c fd b svc :
  conns_ok base c → lowest fd (c_open c) → (b = true → inbound c ≤ 10) →
  (b = false → svc ∈ c_targets c ∧ ∀ l fd', c_links c !! l ≠ Some (fd', false, svc)) →
  conns_ok base (pushed fd b svc c).
Proof.
  intros Hc Hlow Hin Hout. pose proof (c_next_free _ _ Hc) as Hnew.
  assert (fd < fd_bound base c)%Z as Hsmall.
  { pose proof (lowest_size _ _ Hlow). pose proof (open_size _ _ Hc). pose proof (outbound_le _ _ Hc).
    pose proof (ok_inbound _ _ Hc). unfold fd_bound. destruct b; [specialize (Hin eq_refl); lia|].
    destruct (Hout eq_refl) as [Ht Hnew']. pose proof (outbound_lt _ _ svc Hc Ht Hnew'). lia. }
  destruct Hlow as [Hfd Hfree _]. pose proof Hc as [Hn Hd Hf Hi Ho Hs Hj Ht Hv].
  assert (fd ∉ others base c) as Hfb by (intros ?; apply Hfree, Ho; by left).
  assert (c_next c ∉ c_list c) as Hnl by (rewrite Hn, Hnew; by intros [? ?]).
  constructor; unfold pushed, fd_bound, others in *; cbn [c_links c_list c_next c_open c_listen c_targets].
  - intros l. rewrite elem_of_app, list_elem_of_singleton, Hn, lookup_insert_is_Some'. naive_solver.
  - apply NoDup_app. split_and!; [done|set_solver|apply NoDup_singleton].
  - intros l [->|Hl%Hf]%lookup_insert_is_Some'; lia.
  - fold (pushed fd b svc c). rewrite inbound_pushed by done. destruct b; [specialize (Hin eq_refl)|]; lia.
  - intros x. rewrite elem_of_union, elem_of_singleton, Ho. split.
    + intros [->|[Hx|(l & b' & v & Hl & Hx)]]; [|by left|].
      * right. exists (c_next c), b, svc. rewrite lookup_insert_eq. by split; [|apply fd_valid].
      * right. exists l, b', v. rewrite lookup_insert_ne; [done|congruence].
    + intros [?|(l & b' & v & Hl & Hx)]; [by right; left|]. link_cases; [by left|].
      right. right. eauto.
  - intros l x b' v Hl Hx. link_cases; [done|eauto].
  - intros l1 l2 x b1 b2 v1 v2 H1 H2 Hx. link_cases; [done| | |eauto]; exfalso; apply Hfree, Ho; right; eauto.
  - intros l x v Hl. link_cases; [by apply Hout|eauto].
  - intros l1 l2 x1 x2 v H1 H2. link_cases; [done| | |eauto]; exfalso;
      destruct (Hout eq_refl) as [_ Hne]; by eapply Hne.
Qed.

(** The socket of a node is closed. *)
Definition closed (l : positive) c : conns :=
  match c_links c !! l with
  | Some (fd, b, svc) => if Z.eqb fd INVALID_SOCKET then c else
      mkConns (<[l := (INVALID_SOCKET, b, svc)]> (c_links c)) (c_list c) (c_next c) (c_open c ∖ {[fd]})
        (c_listen c) (c_targets c)
  | None => c
  end.

Lemma closed_ok base l c : conns_ok base c → conns_ok base (closed l c).
Proof.
  intros Hc. unfold closed. destruct (c_links c !! l) as [[[fd b] svc]|] eqn:Hl; [|done].
  destruct (Z.eqb_spec fd INVALID_SOCKET) as [|Hv]; [done|].
  destruct Hc as [Hn Hd Hf Hi Ho Hs Hj Ht Hsv].
  constructor; unfold fd_bound, others in *; cbn [c_links c_list c_next c_open c_listen c_targets]; auto.
  - intros k. rewrite Hn, lookup_insert_is_Some'. naive_solver.
  - intros k [<-|Hk]%lookup_insert_is_Some'; eauto.
  - etrans; [|exact Hi]. apply length_filter_mono. intros k. unfold is_inbound. cbn.
    destruct (decide (l = k)) as [->|]; [by rewrite lookup_insert_eq, Hl|by rewrite lookup_insert_ne].
  - intros x. rewrite elem_of_difference, Ho, not_elem_of_singleton. split.
    + intros [[?|(k & b' & v & Hk & Hx)] Hne]; [by left|right; exists k, b', v].
      rewrite lookup_insert_ne; [done|intros <-; congruence].
    + destruct (Hs _ _ _ _ Hl Hv) as (_ & Hb & _). intros [?|(k & b' & v & Hk & Hx)]; [set_solver|].
      link_cases. split; [eauto 6|]. intros ->. naive_solver.
  - intros k x b' v Hk Hx. link_cases; eauto.
  - intros k1 k2 x b1 b2 v1 v2 H1 H2 Hx. link_cases; done || eauto.
  - intros k x v Hk. link_cases; eauto.
  - intros k1 k2 x1 x2 v H1 H2. link_cases; done || eauto.
Qed.

(** A node without a socket is deleted. *)
Lemma conns_drop base c l b svc :
  conns_ok base c → c_links c !! l = Some (INVALID_SOCKET, b, svc) →
  conns_ok base (mkConns (delete l (c_links c)) (filter (λ l', l' ≠ l) (c_list c)) (c_next c) (c_open c)
    (c_listen c) (c_targets c)).
Proof.
  intros [Hn Hd Hf Hi Ho Hs Hj Ht Hsv] Hl.
  constructor; unfold fd_bound, others in *; cbn [c_links c_list c_next c_open c_listen c_targets].
  - intros k. rewrite list_elem_of_filter, Hn, lookup_delete_is_Some. naive_solver.
  - by apply NoDup_filter.
  - intros k [_ Hk]%lookup_delete_is_Some. eauto.
  - etrans; [|exact Hi]. unfold inbound. cbn. rewrite list_filter_filter.
    apply length_filter_mono. unfold is_inbound. cbn. intros k [Hk ?]. by rewrite lookup_delete_ne in Hk.
  - intros x. rewrite Ho. split; intros [?|(k & b' & v & Hk & Hx)]; try (by left); right; exists k, b', v.
    + rewrite lookup_delete_ne; [done|intros <-; congruence].
    + by apply lookup_delete_Some in Hk as [_ Hk].
  - intros k x b' v [_ Hk]%lookup_delete_Some Hx. eauto.
  - intros k1 k2 x b1 b2 v1 v2 [_ H1]%lookup_delete_Some [_ H2]%lookup_delete_Some. eauto.
  - intros k x v [_ Hk]%lookup_delete_Some. eauto.
  - intros k1 k2 x1 x2 v [_ H1]%lookup_delete_Some [_ H2]%lookup_delete_Some. eauto.
Qed.

(** Another socket listens. *)
Lemma conns_listen base c fd : conns_ok base c → lowest fd (c_open c) →
  conns_ok base (mkConns (c_links c) (c_list c) (c_next c) ({[fd]} ∪ c_open c) ({[fd]} ∪ c_listen c) (c_targets c)).
Proof.
  intros Hc [Hfd Hfree _]. pose proof Hc as [Hn Hd Hf Hi Ho Hs Hj Ht Hsv].
  constructor; unfold fd_bound, others in *; cbn [c_links c_list c_next c_open c_listen c_targets]; auto.
  - intros x. rewrite elem_of_union, elem_of_singleton, Ho. set_solver.
  - intros l x b svc Hl Hx. destruct (Hs _ _ _ _ Hl Hx) as (H1 & H2 & H3). split; [done|].
    assert (x ≠ fd) by (intros ->; apply Hfree, Ho; right; eauto). split; [set_solver|].
    assert (size (base ∪ c_listen c) ≤ size (base ∪ ({[fd]} ∪ c_listen c))) by (apply subseteq_size; set_solver). lia.
Qed.

(** More addresses to connect to. *)
Lemma conns_targets base c more : conns_ok base c →
  conns_ok base (mkConns (c_links c) (c_list c) (c_next c) (c_open c) (c_listen c) (c_targets c ++ more)).
Proof.
  intros [Hn Hd Hf Hi Ho Hs Hj Ht Hsv].
  constructor; unfold fd_bound, others in *; cbn [c_links c_list c_next c_open c_listen c_targets]; auto.
  - intros l x b svc Hl Hx. destruct (Hs _ _ _ _ Hl Hx) as (H1 & H2 & H3). rewrite length_app. split; [done|]; split; [done|lia].
  - intros l x svc Hl. rewrite elem_of_app. left. eauto.
Qed.
