(* ===== verification/NetInv.v ===== *)
(** * The network: the invariant

    The code of every thread keeps the connections of the node in order: [net_ok].  Most
    commands do not change the connections at all ([quiet]). *)

From S2P Require Import Prelude Varint BaseUint Double Serializer MerkleNode Database MerkleTree.
From S2P Require Import CodedStream WireFormat WireLemmas PbMessage PbRound.
From S2P Require Import TransactionPb TransactionPbLaws BubiPb BubiPbLaws NetBase.
From S2P Require Import Entries Ledger LedgerInv LedgerOps Interface Iostream Net NetConns.

Section invariant.
Context `{SHA512} `{Indeterminate} `{NaNs} {D Q : Type} `{RocksDB D} `{Sqlite Q}.
Context {E : Type} `{SystemLaws E} {J : Type} `{Json J}.
Context (ref_memory ip_memory : Z) (tx_memory : Transaction).
Abbreviation N := (net E (world D Q)).
Abbreviation ncmd := (prog N).
Implicit Types (s : N) (P : conns → Prop).

(** The connections of the process. *)
Definition link (n : BNode) : link_t := (bSocket_ n, fInbound_ n, bService_ n).
Definition conn s : conns :=
  mkConns (link <$> nodes s) (vNodes s) (next_node s) (open_fds (os s))
    (list_to_set (bgListenSocket s)) (vAddrToConnect s).

Definition net_ok (base : gset Z) s : Prop := conns_ok base (conn s).

(** ** Commands that keep the connections *)

Definition quiet {A} P (c : ncmd A) : Prop := ∀ s a s', P (conn s) → c s = Ok (a, s') → conn s' = conn s.

Lemma quiet_ret {A} P (a : A) : quiet P (mret a).
Proof. intros s a' s' _ [= <- <-]. done. Qed.
Lemma quiet_fail {A} P e : quiet P (fail (A := A) e).
Proof. intros s a' s' _ [=]. Qed.
Lemma quiet_gets {A} P (f : N → A) : quiet P (gets f).
Proof. intros s a' s' _ [= <- <-]. done. Qed.
Lemma quiet_lift {A} P (o : outcome A) : quiet P (lift o).
Proof. intros s a' s' _ Hc. unfold lift in Hc. destruct o; simplify_eq/=; done. Qed.
Lemma quiet_assert P b : quiet P (assert b).
Proof. intros s a' s' _ [_ ->]%assert_inv. done. Qed.
Lemma quiet_on_app {A} P (c : prog (world D Q) A) : quiet P (on_app c).
Proof. intros s a s' _ Hc. unfold on_app in Hc. destruct (c (app s)) as [[? ?]|]; simplify_eq/=; done. Qed.
Lemma quiet_on_os {A} P (c : prog E A) :
  (∀ e a e', c e = Ok (a, e') → open_fds e' = open_fds e) → quiet P (on_os c).
Proof.
  intros Hk s a s' _ Hc. unfold on_os in Hc. destruct (c (os s)) as [[a' e']|] eqn:Ec; simplify_eq/=.
  unfold conn. cbn. by rewrite (Hk _ _ _ Ec).
Qed.
Lemma quiet_bind {A B} P (c : ncmd A) (k : A → ncmd B) :
  quiet P c → (∀ a, quiet P (k a)) → quiet P (c ≫= k).
Proof.
  intros Hc Hk s b s' Hs (a & s1 & E1 & E2)%bind_inv.
  pose proof (Hc _ _ _ Hs E1) as Hq. rewrite <- Hq. eapply Hk; [|exact E2]. by rewrite Hq.
Qed.
Lemma quiet_weaken {A} P (c : ncmd A) : quiet (λ _, True) c → quiet P c.
Proof. intros Hc s a s' _. by apply Hc. Qed.

(** What a node that was read from the state is like. *)
Definition has_link (l : positive) (n : BNode) P : conns → Prop :=
  λ c, P c ∧ c_links c !! l = Some (link n).

Lemma quiet_get {A} P l (k : BNode → ncmd A) :
  (∀ n, quiet (has_link l n P) (k n)) → quiet P (get_node l ≫= k).
Proof.
  intros Hk s b s' Hs (n & s1 & E1 & E2)%bind_inv. unfold get_node in E1.
  destruct (nodes s !! l) eqn:En; simplify_eq/=. eapply Hk; [|exact E2]. split; [done|].
  cbn. by rewrite lookup_fmap, En.
Qed.
Lemma quiet_put P l n :
  (∀ c, P c → c_links c !! l = Some (link n)) → quiet P (put_node l n).
Proof.
  intros Hl s [] s' Hs [= <-]. specialize (Hl _ Hs). unfold conn in *. cbn in *.
  by rewrite fmap_insert, insert_id.
Qed.

Lemma quiet_call {A} P (f : E → A * E) :
  (∀ e a e', f e = (a, e') → open_fds e' = open_fds e) → quiet P (on_os (call f)).
Proof.
  intros Hf. apply quiet_on_os. intros e a e'. unfold call. destruct (f e) as [a1 e1] eqn:Ef. intros [= <- <-].
  exact (Hf _ _ _ Ef).
Qed.

Create HintDb net discriminated.
Hint Resolve getfl_keeps setfl_keeps setsockopt_keeps connect_keeps getsockopt_keeps bind_keeps listen_keeps
  select_keeps send_keeps recv_keeps time_keeps try_lock_keeps : net.

Ltac keeps := intros ? ? ?; first [eassumption | by eauto with net |
  match goal with |- context [let '_ := ?x in _] => destruct x as [[[? ?] ?] ?] eqn:? || destruct x as [[? ?] ?] eqn:? end;
  intros [= <- <-]; by eauto with net].

Ltac quiet_step := match goal with
  | |- quiet _ (mret _) => apply quiet_ret
  | |- quiet _ (fail _) => apply quiet_fail
  | |- quiet _ (gets _) => apply quiet_gets
  | |- quiet _ (lift _) => apply quiet_lift
  | |- quiet _ (assert _) => apply quiet_assert
  | |- quiet _ (on_app _) => apply quiet_on_app
  | |- quiet _ (on_os (call _)) => apply quiet_call; keeps
  | |- quiet _ (put_node _ _) => apply quiet_put; unfold has_link; intros ? ?; destruct_and!; assumption
  | |- quiet _ (get_node _ ≫= _) => apply quiet_get; intros ?
  | |- quiet _ (_ ≫= _) => apply quiet_bind; [|intros ?]
  | |- quiet _ (if ?b then _ else _) => destruct b
  | |- quiet _ (match ?x with _ => _ end) => destruct x
  | |- quiet _ _ => by auto with net
  end.
Ltac quiet := repeat (cbv zeta; quiet_step).

Lemma quiet_PushMessage P l command data : quiet P (PushMessage l command data).
Proof. unfold PushMessage. quiet. Qed.
Hint Resolve quiet_PushMessage : net.

Lemma quiet_find_node P ls b : quiet P (find_node ls b).
Proof. revert P. induction ls; intros P; cbn [find_node]; quiet. Qed.
Hint Resolve quiet_find_node : net.

Lemma quiet_count_nodes P p ls c : quiet P (count_nodes p ls c).
Proof. revert P c. induction ls; intros P c; cbn [count_nodes]; quiet. Qed.
Hint Resolve quiet_count_nodes : net.

Lemma quiet_push_to_peers P ls command data : quiet P (push_to_peers ls command data).
Proof. revert P. induction ls; intros P; cbn [push_to_peers]; quiet. Qed.
Hint Resolve quiet_push_to_peers : net.

Lemma quiet_ParseHandleJsonData P data : quiet P (ParseHandleJsonData tx_memory data).
Proof. unfold ParseHandleJsonData, member, asString. quiet. Qed.
Hint Resolve quiet_ParseHandleJsonData : net.

Lemma quiet_process_loop P l it : quiet P (process_loop l it).
Proof. revert P. induction it; intros P; cbn [process_loop]; quiet. Qed.
Hint Resolve quiet_process_loop : net.

Lemma quiet_ProcessMessages P l : quiet P (ProcessMessages l).
Proof. unfold ProcessMessages. quiet. Qed.
Hint Resolve quiet_ProcessMessages : net.

Lemma quiet_try_lock P : quiet P try_lock.
Proof. unfold try_lock. quiet. Qed.
Hint Resolve quiet_try_lock : net.

Lemma quiet_collect_sockets P ls recv send m : quiet P (collect_sockets ls recv send m).
Proof. revert P recv send m. induction ls; intros P recv send m; cbn [collect_sockets]; quiet. Qed.
Hint Resolve quiet_collect_sockets : net.

Lemma quiet_process_nodes P ls : quiet P (process_nodes ls).
Proof. revert P. induction ls; intros P; cbn [process_nodes]; quiet. Qed.
Hint Resolve quiet_process_nodes : net.

(** ** Commands that keep the invariant *)

Definition holds {A} (base : gset Z) P (c : ncmd A) : Prop :=
  ∀ s a s', net_ok base s → P (conn s) → c s = Ok (a, s') → net_ok base s'.

Lemma holds_quiet {A} base P (c : ncmd A) : quiet P c → holds base P c.
Proof. intros Hc s a s' Hs HP Hr. unfold net_ok. by rewrite (Hc s a s' HP Hr). Qed.
Lemma holds_seq {A B} base P (c : ncmd A) (k : A → ncmd B) :
  quiet P c → (∀ a, holds base P (k a)) → holds base P (c ≫= k).
Proof.
  intros Hc Hk s b s' Hs HP (a & s1 & E1 & E2)%bind_inv.
  pose proof (Hc _ _ _ HP E1) as Hq. eapply Hk; [| |exact E2]; unfold net_ok; by rewrite Hq.
Qed.
Lemma holds_then {A B} base P (c : ncmd A) (k : A → ncmd B) :
  holds base P c → (∀ a, holds base (λ _, True) (k a)) → holds base P (c ≫= k).
Proof. intros Hc Hk s b s' Hs HP (a & s1 & E1 & E2)%bind_inv. eapply Hk; [by eapply Hc|done|exact E2]. Qed.
Lemma holds_get {A} base P l (k : BNode → ncmd A) :
  (∀ n, holds base (has_link l n P) (k n)) → holds base P (get_node l ≫= k).
Proof.
  intros Hk s b s' Hs HP (n & s1 & E1 & E2)%bind_inv. unfold get_node in E1.
  destruct (nodes s !! l) eqn:En; simplify_eq/=. eapply Hk; [done| |exact E2]. split; [done|].
  cbn. by rewrite lookup_fmap, En.
Qed.

Ltac holds_step := match goal with
  | |- holds _ _ (get_node _ ≫= _) => apply holds_get; intros ?
  | |- holds _ _ (_ ≫= _) => apply holds_seq; [solve [quiet]|intros ?]
  | |- holds _ _ (_ ≫= _) => apply holds_then; [|intros ?]
  | |- holds _ _ (if ?b then _ else _) => destruct b
  | |- holds _ _ (match ?x with _ => _ end) => destruct x
  | |- holds _ _ _ => by auto with net
  | |- holds _ _ _ => apply holds_quiet; solve [quiet]
  end.
Ltac holds := repeat (cbv zeta; holds_step).

(** *** Sockets of nodes *)

Definition relist (ls : list positive) (c : conns) : conns := mkConns (c_links c) ls (c_next c) (c_open c) (c_listen c) (c_targets c).

Lemma closed_relist l ls c : closed l (relist ls c) = relist ls (closed l c).
Proof. unfold closed. cbn. destruct (c_links c !! l) as [[[fd b] svc]|]; [|done]. by destruct (Z.eqb fd INVALID_SOCKET). Qed.
Lemma closed_list l c : c_list (closed l c) = c_list c.
Proof. unfold closed. destruct (c_links c !! l) as [[[fd b] svc]|]; [|done]. by destruct (Z.eqb fd INVALID_SOCKET). Qed.

Lemma conn_CloseSocketDisconnect l s a s' :
  (∀ fd b svc, c_links (conn s) !! l = Some (fd, b, svc) → fd ≠ INVALID_SOCKET → is_fd fd) →
  CloseSocketDisconnect l s = Ok (a, s') →
  conn s' = closed l (conn s) ∧ ∃ b svc, c_links (conn s') !! l = Some (INVALID_SOCKET, b, svc).
Proof.
  intros Hs (n & s1 & E1 & E2)%bind_inv. unfold get_node in E1.
  destruct (nodes s !! l) eqn:En; simplify_eq.
  assert (c_links (conn s1) !! l = Some (link n)) as Hl by (cbn; by rewrite lookup_fmap, En).
  unfold closed. rewrite Hl. unfold link at 1.
  destruct (Z.eqb_spec (bSocket_ n) INVALID_SOCKET) as [Hi|Hv].
  - assert (conn s' = conn s1) as Hc.
    { eapply (quiet_put (λ c, c_links c !! l = Some (link n))); [|exact Hl|exact E2]. done. }
    rewrite Hc. unfold link in Hl. rewrite Hi in Hl. eauto.
  - destruct (run_CloseSocket (bSocket_ n) (os s1) (Hs _ _ _ Hl Hv)) as (b & e' & Ec & Ho).
    apply bind_inv in E2 as (r & s2 & E2 & E3). unfold on_os in E2. rewrite Ec in E2.
    unfold put_node, set_nodes, modify in E3. simplify_eq. unfold conn. cbn. rewrite fmap_insert, Ho.
    split; [done|]. exists (fInbound_ n), (bService_ n). by rewrite lookup_insert_eq.
Qed.

Lemma holds_CloseSocketDisconnect base P l : holds base P (CloseSocketDisconnect l).
Proof.
  intros s a s' Hs _ Hc. unfold net_ok. apply conn_CloseSocketDisconnect in Hc as [-> _]; [by apply closed_ok|].
  intros fd b svc Hl Hv. by destruct (ok_socket _ _ Hs _ _ _ _ Hl Hv).
Qed.
Hint Resolve holds_CloseSocketDisconnect : net.

Lemma holds_send_loop base P fuel l it : holds base P (send_loop fuel l it).
Proof. revert P it. induction fuel; intros P it; destruct it; cbn [send_loop]; holds. Qed.
Hint Resolve holds_send_loop : net.

Lemma holds_SocketSendData base P fuel l : holds base P (SocketSendData fuel l).
Proof. unfold SocketSendData. holds. Qed.
Hint Resolve holds_SocketSendData : net.

Lemma holds_SocketRecvData base P l : holds base P (SocketRecvData tx_memory l).
Proof. unfold SocketRecvData. holds. Qed.
Hint Resolve holds_SocketRecvData : net.

Lemma holds_service_sockets base P fuel ls recv send : holds base P (service_sockets tx_memory fuel ls recv send).
Proof. revert P. induction ls; intros P; cbn [service_sockets]; holds. Qed.
Hint Resolve holds_service_sockets : net.

(** *** Nodes that are done *)

(** [disconnect_nodes] on one node. *)
Definition disconnect (l : positive) : ncmd unit :=
  ls ← gets vNodes;
  set_vNodes (filter (λ l', l' ≠ l) ls);;
  CloseSocketDisconnect l;;
  BNode_delete l.

Lemma conn_BNode_delete l b svc s a s' :
  c_links (conn s) !! l = Some (INVALID_SOCKET, b, svc) → BNode_delete l s = Ok (a, s') →
  conn s' = mkConns (delete l (c_links (conn s))) (c_list (conn s)) (c_next (conn s)) (c_open (conn s))
    (c_listen (conn s)) (c_targets (conn s)).
Proof.
  intros Hl (n & s1 & E1 & (r & s2 & E2 & E3)%bind_inv)%bind_inv. unfold get_node in E1.
  destruct (nodes s !! l) eqn:En; simplify_eq. cbn in Hl. rewrite lookup_fmap, En in Hl.
  unfold link in Hl. injection Hl as Hl _ _. unfold on_os in E2. rewrite Hl, run_CloseSocket_invalid in E2.
  unfold set_nodes, modify in E3. simplify_eq. unfold conn. cbn. by rewrite fmap_delete.
Qed.

Lemma holds_disconnect base P l : holds base P (disconnect l).
Proof.
  intros s a s' Hs _ (ls & s1 & E1 & (u & s2 & E2 & (u' & s3 & E3 & E4)%bind_inv)%bind_inv)%bind_inv.
  unfold gets in E1. unfold set_vNodes, modify in E2. simplify_eq.
  apply conn_CloseSocketDisconnect in E3 as [Hc (b & svc & Hb)].
  2: { intros fd b svc Hl Hv. by destruct (ok_socket _ _ Hs _ _ _ _ Hl Hv). }
  apply (conn_BNode_delete _ b svc) in E4; [|done].
  change (conn s3 = closed l (relist (filter (λ l', l' ≠ l) (c_list (conn s1))) (conn s1))) in Hc.
  rewrite closed_relist in Hc. rewrite Hc in Hb, E4. unfold net_ok. rewrite E4.
  rewrite <- (closed_list l (conn s1)). apply (conns_drop _ (closed l (conn s1)) _ b svc); [by apply closed_ok|exact Hb].
Qed.
Hint Resolve holds_disconnect : net.

Lemma holds_disconnect_nodes base P ls : holds base P (disconnect_nodes ls).
Proof.
  revert P. induction ls as [|l ls IH]; intros P; [cbn; holds|].
  cbn [disconnect_nodes]. fold (disconnect l). holds.
Qed.
Hint Resolve holds_disconnect_nodes : net.

(** *** New descriptors *)

Definition reopen (fds : gset Z) (c : conns) : conns :=
  mkConns (c_links c) (c_list c) (c_next c) fds (c_listen c) (c_targets c).

Lemma reopen_same c : reopen (c_open c) c = c.
Proof. by destruct c. Qed.

Lemma on_os_inv {A} (c : prog E A) s a s' : on_os c s = Ok (a, s') →
  c (os s) = Ok (a, os s') ∧ conn s' = reopen (open_fds (os s')) (conn s).
Proof. unfold on_os. destruct (c (os s)) as [[a' e']|]; [|done]. intros [= <- <-]. done. Qed.

Lemma conn_push_node fd svc inb s l s' fds :
  push_node ref_memory fd svc inb s = Ok (l, s') → conn s = reopen ({[fd]} ∪ c_open fds) fds →
  conn s' = pushed fd inb svc fds.
Proof.
  intros Hr Hc. unfold push_node, BNode_new in Hr. invs.
  assert (quiet (λ _, True) (on_os (call sys_time))) as Ht by quiet. rewrite <- (Ht _ _ _ I E5) in Hc.
  unfold get_node in E1. cbn in E1. rewrite lookup_insert_eq in E1. invs.
  unfold put_node, set_nodes, modify in E2. invs. unfold set_vNodes, modify in E4. invs.
  unfold conn in *. cbn in *. rewrite insert_insert_eq, fmap_insert. destruct fds. unfold reopen in Hc.
  cbn in Hc. injection Hc as <- <- <- -> <- <-. done.
Qed.

Lemma quiet_FindNode P b : quiet P (FindNode b).
Proof. unfold FindNode. quiet. Qed.
Hint Resolve quiet_FindNode : net.

Lemma BService_eqb_refl svc : BService_eqb svc svc = true.
Proof. unfold BService_eqb, in_addr_eqb. by rewrite !Z.eqb_refl. Qed.

Lemma find_node_None ls svc s s' : find_node ls svc s = Ok (None, s') →
  ∀ l n, l ∈ ls → nodes s !! l = Some n → bService_ n ≠ svc.
Proof.
  revert s. induction ls as [|k ls IH]; intros s Hr l n Hl Hn; [by apply not_elem_of_nil in Hl|].
  cbn [find_node] in Hr. apply bind_inv in Hr as (m & s1 & E1 & E2). unfold get_node in E1.
  destruct (nodes s !! k) as [m'|] eqn:Ek; [|done]. injection E1 as -> <-.
  destruct (BService_eqb (bService_ m) svc) eqn:Eb; [done|].
  apply elem_of_cons in Hl as [->|Hl]; [|by eapply IH].
  rewrite Ek in Hn. injection Hn as ->. intros <-. by rewrite BService_eqb_refl in Eb.
Qed.

Lemma FindNode_None base svc s s' : net_ok base s → FindNode svc s = Ok (None, s') →
  ∀ l fd b, c_links (conn s) !! l ≠ Some (fd, b, svc).
Proof.
  intros Hs Hr l fd b Hl. unfold FindNode in Hr. apply bind_inv in Hr as (ls & s1 & [= <- <-] & Hr).
  assert (l ∈ vNodes s) as Hin by (apply (ok_nodes _ _ Hs); eauto).
  cbn in Hl. rewrite lookup_fmap in Hl. destruct (nodes s !! l) as [n|] eqn:En; [|done].
  apply (find_node_None _ _ _ _ Hr l n Hin En). unfold link in Hl. cbn in Hl. by simplify_eq.
Qed.

(** A connection to an address of the list. *)
Lemma ConnectNode_ok base svc s a s' :
  net_ok base s → svc ∈ c_targets (conn s) → ConnectNode ref_memory svc s = Ok (a, s') →
  net_ok base s' ∧ c_targets (conn s') = c_targets (conn s).
Proof.
  intros Hs Ht (r & s0 & E0 & E2)%bind_inv.
  assert (conn s0 = conn s) as Hc0 by by eapply (quiet_FindNode (λ _, True)).
  destruct r as [l|].
  - enough (conn s' = conn s0) as Hc' by (unfold net_ok; by rewrite Hc', Hc0).
    match type of E2 with ?c s0 = _ => assert (quiet (λ _, True) c) as Hq by quiet end.
    exact (Hq s0 a s' I E2).
  - pose proof (FindNode_None base svc s s0 Hs E0) as Hnew.
    apply bind_inv in E2 as (r & s1 & E1 & E2). apply on_os_inv in E1 as (E1 & Hc1).
    destruct (run_ConnectSocket svc nConnectTimeout (os s0)) as [(ok & fd & e' & Ec & Ho)|[_ Ec]];
      rewrite Ec in E1; [|done].
    injection E1 as <- He. subst e'. cbn [fst snd] in E2. destruct ok; cbn in Ho.
    + destruct Ho as [Hlow Ho]. apply bind_inv in E2 as (l & s2 & E2 & [= _ <-]).
      rewrite Hc0, Ho in Hc1. unfold net_ok.
      change (open_fds (os s0)) with (c_open (conn s0)) in Hc1, Hlow. rewrite Hc0 in Hc1, Hlow.
      rewrite (conn_push_node _ _ _ _ _ _ _ E2 Hc1). split; [by apply conns_push|done].
    + invs. unfold net_ok. rewrite Hc1, Ho.
      change (open_fds (os s0)) with (c_open (conn s0)). by rewrite Hc0, reopen_same.
Qed.

Lemma holds_connect_all base svcs :
  holds base (λ c, ∀ svc, svc ∈ svcs → svc ∈ c_targets c) (connect_all ref_memory svcs).
Proof.
  induction svcs as [|svc svcs IH]; intros s a s' Hs Ht Hr; cbn [connect_all] in Hr.
  - by injection Hr as _ <-.
  - apply bind_inv in Hr as (x & s1 & E1 & E2).
    destruct (ConnectNode_ok base svc s x s1 Hs) as [Hs1 Ht1]; [apply Ht; left|done|].
    eapply IH; [exact Hs1| |exact E2]. intros v Hv. rewrite Ht1. apply Ht. by right.
Qed.

(** *** Incoming connections *)

Lemma count_inbound ls c s k s' : count_nodes fInbound_ ls c s = Ok (k, s') →
  s' = s ∧ k = (c + Z.of_nat (length (filter (is_inbound (conn s)) ls)))%Z.
Proof.
  revert c s. induction ls as [|l ls IH]; intros c s Hr; cbn [count_nodes] in Hr; invs.
  { split; [done|]. cbn. lia. }
  unfold get_node in E0. destruct (nodes s !! l) as [n|] eqn:En; invs.
  apply IH in Hr as [-> ->]. split; [done|]. rewrite filter_cons.
  case_decide as Hd; unfold is_inbound in Hd; cbn [conn c_links] in Hd; rewrite lookup_fmap, En in Hd; cbn in Hd;
    destruct (fInbound_ a); cbn; lia || naive_solver.
Qed.

(** The descriptor of an incoming connection becomes a node, or is closed. *)
Lemma holds_accept_loop base P ready listening : holds base P (accept_loop ref_memory ready listening).
Proof.
  revert P. induction listening as [|l rest IH]; intros P; cbn [accept_loop]; [holds|].
  apply holds_seq; [quiet|]. intros [|]; [|apply IH].
  intros s a s' Hs _ (r & s1 & E1 & E2)%bind_inv. apply on_os_inv in E1 as (E1 & Hc1).
  unfold call in E1. destruct (sys_accept (to_int32 l) (os s)) as [[fd peer] e'] eqn:Ea.
  injection E1 as <- He. subst e'. cbn [fst snd] in E2.
  apply bind_inv in E2 as (all & s2 & [= <- <-] & (k & s3 & [-> ->]%count_inbound & E2)%bind_inv).
  destruct (accept_opens _ _ _ _ _ Ea) as [[-> Ho]|[Hlow Ho]]; rewrite Ho in Hc1.
  - injection E2 as _ <-. unfold net_ok. rewrite Hc1.
    change (open_fds (os s)) with (c_open (conn s)). by rewrite reopen_same.
  - pose proof Hlow as [Hfd Hfree _]. rewrite to_socket_fd, fd_valid_eqb in E2 by done.
    change (vNodes s1) with (c_list (conn s1)) in E2. fold (inbound (conn s1)) in E2.
    assert (inbound (conn s1) = inbound (conn s)) as Hi by by rewrite Hc1.
    destruct (Z.ltb_spec MAXINBOUND (0 + Z.of_nat (inbound (conn s1)))) as [Hlt|Hle].
    + apply bind_inv in E2 as (r & s2 & E2 & [= _ <-]). apply on_os_inv in E2 as (E2 & Hc2).
      destruct (run_CloseSocket fd (os s1) Hfd) as (b & e' & Ec & Hcl). rewrite Ec in E2. injection E2 as _ ->.
      rewrite (opened_closed fd _ _ _ Hfree Ho Hcl), Hc1 in Hc2. unfold net_ok. rewrite Hc2.
      change (conns_ok base (reopen (c_open (conn s)) (conn s))). by rewrite reopen_same.
    + apply bind_inv in E2 as (r & s2 & E2 & [= _ <-]). unfold net_ok.
      rewrite (conn_push_node _ _ _ _ _ _ _ E2 Hc1). apply conns_push; [done|done| |done].
      unfold MAXINBOUND in Hle. lia.
Qed.
Hint Resolve holds_accept_loop : net.

Lemma holds_AcceptSocket base P : holds base P (AcceptSocket ref_memory).
Proof. unfold AcceptSocket. holds. Qed.
Hint Resolve holds_AcceptSocket : net.

(** ** The threads *)

Lemma holds_SocketHandler_turn base P fuel : holds base P (SocketHandler_turn ref_memory tx_memory fuel).
Proof. unfold SocketHandler_turn. holds. Qed.

Lemma holds_MessageHandler_turn base P : holds base P MessageHandler_turn.
Proof. unfold MessageHandler_turn. holds. Qed.

Lemma holds_OpenConnections_turn base P : holds base P (OpenConnections_turn ref_memory).
Proof.
  intros s a s' Hs _ (svcs & s1 & [= <- <-] & (x & s2 & E1 & E2)%bind_inv)%bind_inv.
  apply (holds_connect_all base) in E1; [|done|done].
  eapply (holds_quiet base (λ _, True)); [|exact E1|done|exact E2]. quiet.
Qed.

Lemma holds_SendMessages base P command data : holds base P (SendMessages command data).
Proof. unfold SendMessages. holds. Qed.

Lemma holds_Discover base P ifas : holds base P (Discover ifas).
Proof. intros s a s' Hs _ Hr. unfold Discover in Hr. destruct ifas; invs; exact Hs. Qed.

Lemma holds_read_peers base P ips : holds base P (read_peers ip_memory ips).
Proof. intros s a s' Hs _ Hr. unfold read_peers in Hr. invs. exact (conns_targets base _ _ Hs). Qed.

Lemma holds_BindListenPort base P svc : holds base P (BindListenPort svc).
Proof.
  intros s a s' Hs _ (r & s1 & E1 & E2)%bind_inv. apply on_os_inv in E1 as (E1 & Hc1).
  destruct (run_bind_listen svc (os s)) as (ok & fd & e' & Ec & Ho). rewrite Ec in E1.
  injection E1 as <- He. subst e'. cbn [snd fst] in E2. destruct fd as [fd|]; invs.
  - destruct Ho as [_ [Hlow Ho]]. rewrite Ho in Hc1. pose proof (conns_listen base _ fd Hs Hlow) as Hk.
    unfold net_ok, conn in *. cbn in *. injection Hc1 as -> -> -> Ho' Hli ->. rewrite Ho'.
    rewrite list_to_set_app_L, Hli, list_to_set_singleton_L, (union_comm_L _ {[fd]}). exact Hk.
  - destruct Ho as [_ Ho]. unfold net_ok. rewrite Hc1, Ho.
    change (open_fds (os s)) with (c_open (conn s)). by rewrite reopen_same.
Qed.
End invariant.
