(* ===== verification/NetRun.v ===== *)
(** * The network: sending, receiving and descriptors

    What [SocketSendData], [SocketRecvData] and [ProcessMessages] do with the messages of
    a node.

    As long as the node has few enough peers, every socket it has is small enough for an
    [fd_set], so that accepting, connecting and collecting sockets always return. *)

From S2P Require Import Prelude Varint BaseUint Double Serializer MerkleNode Database MerkleTree CodedStream WireFormat.
From S2P Require Import WireLemmas PbMessage PbRound TransactionPb TransactionPbLaws BubiPb BubiPbLaws Entries.
From S2P Require Import Ledger LedgerInv LedgerOps Interface Iostream NetBase Net NetConns NetInv.

Section run.
Context `{SHA512} `{Indeterminate} `{NaNs} {D Q : Type} `{RocksDB D} `{Sqlite Q}.
Context {E : Type} `{SystemLaws E} {J : Type} `{Json J}.
Context (tx_memory : Transaction).
Abbreviation N := (net E (world D Q)).
Abbreviation ncmd := (prog N).
Implicit Types (s : N) (e : E).

Definition with_os (e : E) s : N :=
  mkNet e (bgListenSocket s) (vNodes s) (nodes s) (next_node s) (hostAddr s) (vAddrToConnect s) (app s).
Definition with_nodes (m : gmap positive BNode) s : N :=
  mkNet (os s) (bgListenSocket s) (vNodes s) m (next_node s) (hostAddr s) (vAddrToConnect s) (app s).
Definition with_app (w : world D Q) s : N :=
  mkNet (os s) (bgListenSocket s) (vNodes s) (nodes s) (next_node s) (hostAddr s) (vAddrToConnect s) w.

Lemma run_get_node l s n : nodes s !! l = Some n → get_node l s = Ok (n, s).
Proof. intros E1. unfold get_node. by rewrite E1. Qed.
Lemma run_put_node l n s : put_node l n s = Ok (tt, with_nodes (<[l := n]> (nodes s)) s).
Proof. done. Qed.
Lemma run_on_os {A} (f : E → A * E) s a e' : f (os s) = (a, e') → on_os (call f) s = Ok (a, with_os e' s).
Proof. intros E1. unfold on_os, call. by rewrite E1. Qed.
Lemma run_on_app {A} (c : prog (world D Q) A) s a w : c (app s) = Ok (a, w) → on_app c s = Ok (a, with_app w s).
Proof. intros E1. unfold on_app. by rewrite E1. Qed.

(** ** Sending *)

Lemma send_region_whole data : send_region data 0 = Ok data.
Proof. unfold send_region. rewrite decide_True by lia. rewrite drop_0. by rewrite take_app_length. Qed.

(** A system that takes everything that is sent, and what it has taken. *)
Section takes.
Context (fd : Z) (takes : E → Prop) (wire : E → bytes).
Context (Hsend : ∀ d e, takes e →
  ∃ e', sys_send fd d e = (Z.of_nat (length d), e') ∧ takes e' ∧ wire e' = wire e ++ d).
Context (Htime : ∀ e t e', takes e → sys_time e = (t, e') → takes e' ∧ wire e' = wire e).

Lemma run_send_loop l q fuel s n :
  takes (os s) → length q ≤ fuel → Forall (λ d, d ≠ []) q →
  nodes s !! l = Some n → to_int32 (bSocket_ n) = fd → nSendOffset_ n = 0 → is_u64 (nSendBytes_ n) →
  ∃ t e', send_loop fuel l q s =
      Ok ([], with_nodes (<[l := set_send (vSendMsg_ n) 0 (u64 (nSendBytes_ n + Z.of_nat (length (concat q)))) t n]>
                            (nodes s)) (with_os e' s)) ∧
    wire e' = wire (os s) ++ concat q.
Proof.
  revert fuel s n. induction q as [|d q IH]; intros fuel s n Ht Hf Hq Hn Hfd Hoff Hb.
  - exists (nLastSend_ n), (os s). cbn [concat length]. rewrite app_nil_r, Z.add_0_r, Z.mod_small by done.
    split; [|done]. rewrite insert_id; [by destruct fuel, s|]. rewrite Hn. destruct n. cbn in *. by subst.
  - destruct fuel as [|fuel]; [cbn in Hf; lia|]. apply Forall_cons in Hq as [Hd Hq]. cbn [send_loop].
    assert (0 < length d) as Hd' by (destruct d; [done|cbn; lia]).
    step (run_get_node l s n Hn). rewrite Hoff. rewrite bool_decide_true by done.
    step (eq_refl : assert true s = _). step (lift_Ok _ s _ (send_region_whole d)). rewrite Hfd.
    destruct (Hsend d (os s) Ht) as (e1 & E1 & Ht1 & W1). step (run_on_os _ s _ e1 E1).
    rewrite (proj2 (Z.ltb_lt 0 (Z.of_nat (length d)))) by lia.
    destruct (sys_time e1) as [t e2] eqn:E2. step (run_on_os _ (with_os e1 s) t e2 E2).
    destruct (Htime _ _ _ Ht1 E2) as [Ht2 W2]. rewrite Nat2Z.id, Nat.add_0_l, Nat.eqb_refl. step (run_put_node l _ (with_os e2 (with_os e1 s))).
    edestruct (IH fuel) as (t' & e' & -> & W'); [done|cbn in Hf; lia|done|apply lookup_insert_eq|done|done|
      apply Z.mod_pos_bound; lia|].
    exists t', e'. cbn [os with_nodes with_os nodes] in *. rewrite insert_insert_eq, W', W2, W1.
    split; [|cbn [concat]; by rewrite <- app_assoc].
    assert (u64 (u64 (nSendBytes_ n + Z.of_nat (length d)) + Z.of_nat (length (concat q))) =
      u64 (nSendBytes_ n + Z.of_nat (length (concat (d :: q))))) as <-; [|done].
    cbn [concat]. rewrite length_app, Z.add_mod_idemp_l by lia. f_equal. lia.
Qed.

Lemma run_SocketSendData l fuel s n :
  takes (os s) → length (vSendMsg_ n) ≤ fuel → Forall (λ d, d ≠ []) (vSendMsg_ n) →
  nodes s !! l = Some n → to_int32 (bSocket_ n) = fd → nSendOffset_ n = 0 → is_u64 (nSendBytes_ n) →
  ∃ t e', SocketSendData fuel l s =
      Ok (tt, with_nodes (<[l := set_send [] 0 (u64 (nSendBytes_ n + Z.of_nat (length (concat (vSendMsg_ n))))) t n]>
                            (nodes s)) (with_os e' s)) ∧
    wire e' = wire (os s) ++ concat (vSendMsg_ n).
Proof.
  intros Ht Hf Hq Hn Hfd Hoff Hb. unfold SocketSendData. step (run_get_node l s n Hn).
  destruct (run_send_loop l (vSendMsg_ n) fuel s n) as (t & e' & Er & Hw); [done..|].
  step Er. step (run_get_node l _ _ (lookup_insert_eq _ _ _)). exists t, e'. split; [|done].
  rewrite decide_True by done. step (assert_true _ _ eq_refl).
  rewrite run_put_node. cbn [with_nodes nodes]. by rewrite insert_insert_eq.
Qed.
End takes.

(** ** Failures *)

Lemma send_region_beyond data off : 2 ≤ off → send_region data off = Err OutOfBounds.
Proof. intros Ho. unfold send_region. by rewrite decide_False by lia. Qed.

(** A call on a node without a socket fails, whatever the number of attempts. *)
Lemma run_CloseSocketDisconnect_invalid l s n :
  nodes s !! l = Some n → bSocket_ n = INVALID_SOCKET →
  CloseSocketDisconnect l s = Ok (tt, with_nodes (<[l := set_socket INVALID_SOCKET true n]> (nodes s)) s).
Proof.
  intros Hn Hs. unfold CloseSocketDisconnect. step (run_get_node l s n Hn). by rewrite Hs.
Qed.

Lemma send_loop_invalid fuel l d q s n :
  nodes s !! l = Some n → bSocket_ n = INVALID_SOCKET → nSendOffset_ n = 0 → d ≠ [] →
  send_loop fuel l (d :: q) s = Err OutOfFuel.
Proof.
  intros Hn Hs Ho Hd. revert s n Hn Hs Ho. induction fuel as [|fuel IH]; intros s n Hn Hs Ho; [done|].
  assert (0 < length d) as Hd' by (destruct d; [done|cbn; lia]).
  cbn [send_loop]. step (run_get_node l s n Hn). rewrite Ho, bool_decide_true by done.
  step (assert_true true s eq_refl). step (lift_Ok _ s _ (send_region_whole d)). rewrite Hs.
  change (to_int32 INVALID_SOCKET) with (-1)%Z. destruct (sys_send (-1) d (os s)) as [r e1] eqn:E1.
  step (run_on_os _ s _ e1 E1). destruct (send_bad _ _ _ _ E1) as [-> He]. cbv iota.
  change (Z.ltb 0 SOCKET_ERROR) with false. cbv iota. step (eq_refl : gets _ (with_os e1 s) = _).
  cbn [with_os os]. rewrite He. change (_ && _) with true. cbv iota.
  step (run_CloseSocketDisconnect_invalid l (with_os e1 s) n Hn Hs).
  by eapply IH; [apply lookup_insert_eq|..].
Qed.

Lemma run_CloseSocketDisconnect_valid l s n :
  nodes s !! l = Some n → is_fd (bSocket_ n) →
  ∃ e', CloseSocketDisconnect l s =
    Ok (tt, with_nodes (<[l := set_socket INVALID_SOCKET true n]> (nodes s)) (with_os e' s)).
Proof.
  intros Hn Hs. unfold CloseSocketDisconnect. step (run_get_node l s n Hn). rewrite fd_valid_eqb by done.
  destruct (run_CloseSocket (bSocket_ n) (os s) Hs) as (b & e' & Ec & _). exists e'.
  rewrite (bind_Ok _ _ s (b, INVALID_SOCKET) (with_os e' s)) by (unfold on_os; by rewrite Ec). done.
Qed.

(** After an error that closes the socket, the loop goes on with the invalid socket. *)
Lemma send_loop_fatal fuel l d q s n e1 :
  nodes s !! l = Some n → is_fd (bSocket_ n) → nSendOffset_ n = 0 → d ≠ [] →
  sys_send (bSocket_ n) d (os s) = (SOCKET_ERROR, e1) → soft_error (sys_errno e1) = false →
  send_loop fuel l (d :: q) s = Err OutOfFuel.
Proof.
  intros Hn Hs Ho Hd E1 He. destruct fuel as [|fuel]; [done|].
  assert (0 < length d) as Hd' by (destruct d; [done|cbn; lia]).
  cbn [send_loop]. step (run_get_node l s n Hn). rewrite Ho, bool_decide_true by done.
  step (assert_true true s eq_refl). step (lift_Ok _ s _ (send_region_whole d)). rewrite to_int32_fd by done.
  step (run_on_os _ s _ e1 E1). change (Z.ltb 0 SOCKET_ERROR) with false. cbv iota.
  step (eq_refl : gets _ (with_os e1 s) = _). cbn [with_os os]. rewrite He.
  change (_ && _) with true. cbv iota.
  destruct (run_CloseSocketDisconnect_valid l (with_os e1 s) n Hn Hs) as (e2 & E2). step E2.
  by eapply send_loop_invalid; [apply lookup_insert_eq|..].
Qed.

Lemma SocketSendData_fatal fuel l d q s n e1 :
  nodes s !! l = Some n → is_fd (bSocket_ n) → nSendOffset_ n = 0 → vSendMsg_ n = d :: q → d ≠ [] →
  sys_send (bSocket_ n) d (os s) = (SOCKET_ERROR, e1) → soft_error (sys_errno e1) = false →
  SocketSendData fuel l s = Err OutOfFuel.
Proof.
  intros Hn Hs Ho Hq Hd E1 He. unfold SocketSendData. step (run_get_node l s n Hn). rewrite Hq.
  apply bind_Err. by eapply send_loop_fatal.
Qed.

Lemma send_loop_partial fuel l d q s n k e1 :
  nodes s !! l = Some n → is_fd (bSocket_ n) → nSendOffset_ n = 0 →
  0 < k < length d → sys_send (bSocket_ n) d (os s) = (Z.of_nat k, e1) →
  ∃ b t e2, send_loop (S fuel) l (d :: q) s =
    Ok (d :: q, with_nodes (<[l := set_send (vSendMsg_ n) k b t n]> (nodes s)) (with_os e2 s)).
Proof.
  intros Hn Hs Ho Hk E1. cbn [send_loop]. step (run_get_node l s n Hn). rewrite Ho, bool_decide_true by lia.
  step (assert_true true s eq_refl). step (lift_Ok _ s _ (send_region_whole d)). rewrite to_int32_fd by done.
  step (run_on_os _ s _ e1 E1). rewrite (proj2 (Z.ltb_lt 0 (Z.of_nat k))) by lia.
  destruct (sys_time e1) as [t e2] eqn:E2. step (run_on_os _ (with_os e1 s) t e2 E2).
  rewrite Nat2Z.id, Nat.add_0_l, (proj2 (Nat.eqb_neq k (length d))) by lia. eauto.
Qed.

(** A message that was sent in part is left in the queue with its offset. *)
Lemma SocketSendData_partial fuel l d q s n k e1 :
  nodes s !! l = Some n → is_fd (bSocket_ n) → nSendOffset_ n = 0 → vSendMsg_ n = d :: q →
  0 < k < length d → sys_send (bSocket_ n) d (os s) = (Z.of_nat k, e1) →
  ∃ b t e2, SocketSendData (S fuel) l s =
    Ok (tt, with_nodes (<[l := set_send (d :: q) k b t n]> (nodes s)) (with_os e2 s)).
Proof.
  intros Hn Hs Ho Hq Hk E1. unfold SocketSendData. step (run_get_node l s n Hn). rewrite Hq.
  destruct (send_loop_partial fuel l d q s n k e1) as (b & t & e2 & Er); [done..|]. step Er.
  step (run_get_node l _ _ (lookup_insert_eq _ _ _)). rewrite decide_False by done.
  exists b, t, e2. rewrite (bind_Ok (mret tt) _ _ tt _ eq_refl). rewrite run_put_node.
  cbn [with_nodes nodes]. by rewrite insert_insert_eq.
Qed.

Lemma SocketSendData_beyond fuel l d q s n :
  nodes s !! l = Some n → vSendMsg_ n = d :: q → 2 ≤ nSendOffset_ n < length d →
  SocketSendData (S fuel) l s = Err OutOfBounds.
Proof.
  intros Hn Hq Ho. unfold SocketSendData. step (run_get_node l s n Hn). rewrite Hq. apply bind_Err.
  cbn [send_loop]. step (run_get_node l s n Hn). rewrite bool_decide_true by lia.
  step (assert_true true s eq_refl). apply bind_Err. by rewrite send_region_beyond by lia.
Qed.

(** ** Messages for the nodes this node has connected to *)

Definition enqueue (msg : bytes) (n : BNode) : BNode :=
  set_send (vSendMsg_ n ++ [msg]) (nSendOffset_ n) (nSendBytes_ n) (nLastSend_ n) n.
Definition offer (ls : list positive) (msg : bytes) (l : positive) (n : BNode) : BNode :=
  if bool_decide (l ∈ ls) && negb (fInbound_ n) then enqueue msg n else n.

Lemma run_PushMessage l command data msg s n :
  BNetMessage_serializer (BNetMessage_new command 0 data) = Ok msg → nodes s !! l = Some n →
  PushMessage l command data s = Ok (tt, with_nodes (<[l := enqueue msg n]> (nodes s)) s).
Proof. intros Hm Hn. unfold PushMessage. step (lift_Ok _ s _ Hm). step (run_get_node l s n Hn). done. Qed.

Lemma run_push_to_peers ls command data msg s :
  BNetMessage_serializer (BNetMessage_new command 0 data) = Ok msg →
  NoDup ls → (∀ l, l ∈ ls → is_Some (nodes s !! l)) →
  push_to_peers ls command data s =
    Ok (tt, with_nodes (map_imap (λ l n, Some (offer ls msg l n)) (nodes s)) s).
Proof.
  intros Hm. revert s. induction ls as [|l ls IH]; intros s Hd Hs.
  - cbn [push_to_peers]. assert (map_imap (λ l n, Some (offer [] msg l n)) (nodes s) = nodes s) as ->; [|by destruct s].
    apply map_eq. intros l. rewrite map_lookup_imap. by destruct (nodes s !! l).
  - apply NoDup_cons in Hd as [Hl Hd]. destruct (Hs l) as [n Hn]; [by left|].
    cbn [push_to_peers]. step (run_get_node l s n Hn).
    set (s1 := if fInbound_ n then s else with_nodes (<[l := enqueue msg n]> (nodes s)) s).
    rewrite (bind_Ok _ _ s tt s1) by (unfold s1; destruct (fInbound_ n); [done|by apply run_PushMessage]).
    assert (vNodes s1 = vNodes s ∧ ∀ m, with_nodes m s1 = with_nodes m s) as [_ Hw]
      by (unfold s1; by destruct (fInbound_ n)).
    assert (∀ k, nodes s1 !! k = if decide (k = l) then Some (offer [l] msg l n) else nodes s !! k) as Hk.
    { intros k. unfold s1, offer. rewrite bool_decide_true by set_solver.
      destruct (decide (k = l)) as [->|]; destruct (fInbound_ n); try done; cbn.
      - by rewrite lookup_insert_eq.
      - by rewrite lookup_insert_ne. }
    rewrite IH; [|done|].
    + rewrite Hw. do 3 f_equal. apply map_eq. intros k. rewrite !map_lookup_imap, Hk.
      unfold offer. destruct (decide (k = l)) as [->|Hne].
      * rewrite Hn. cbn. rewrite (bool_decide_false (l ∈ ls)), !bool_decide_true by set_solver. done.
      * destruct (nodes s !! k); [|done]. cbn. by rewrite (bool_decide_ext (k ∈ l :: ls) (k ∈ ls)) by set_solver.
    + intros k Hin. rewrite Hk. destruct (decide (k = l)); [eauto|]. apply Hs. by right.
Qed.

(** ** Messages that arrive *)

Lemma run_SocketRecvData l s n data msg e1 :
  nodes s !! l = Some n →
  sys_recv (to_int32 (bSocket_ n)) (Z.to_nat 0x10000) (os s) = (Z.of_nat (length data), data, e1) →
  head data = Some Byte.x0a → BNetMessage_unserializer data = Ok msg →
  ∃ b t e2, SocketRecvData tx_memory l s =
    Ok (tt, with_nodes (<[l := set_recv (vRecvMsg_ n ++ [msg]) b t n]> (nodes s)) (with_os e2 s)).
Proof.
  intros Hn E1 Hh Hm. unfold SocketRecvData. step (run_get_node l s n Hn).
  rewrite (bind_Ok _ _ s (Z.of_nat (length data), data) (with_os e1 s))
    by (apply run_on_os; by rewrite E1).
  assert (0 < length data) by (destruct data; [done|cbn; lia]). cbn [fst snd].
  rewrite (proj2 (Z.ltb_lt 0 (Z.of_nat (length data)))) by lia.
  destruct (sys_time e1) as [t e2] eqn:E2. step (run_on_os _ (with_os e1 s) t e2 E2).
  step (run_put_node l (set_recv (vRecvMsg_ n) (u64 (nRecvBytes_ n + Z.of_nat (length data))) t n) (with_os e2 (with_os e1 s))).
  rewrite Hh. change (negb (bool_decide (Some Byte.x0a = Some (byte.of_Z 123)))) with true. cbv iota.
  step (lift_Ok _ (with_nodes (<[l := set_recv (vRecvMsg_ n) (u64 (nRecvBytes_ n + Z.of_nat (length data))) t n]> (nodes s)) (with_os e2 s)) _ Hm).
  rewrite run_put_node. eexists _, t, e2. cbn [with_nodes nodes with_os]. by rewrite insert_insert_eq.
Qed.

(** A transaction is applied and answered. *)
Lemma run_ProcessMessages_transaction l s n txs tx r w reply :
  nodes s !! l = Some n → vRecvMsg_ n = [BNetMessage_new (str "transaction") 0 txs] →
  Transaction_unserializer txs = Ok tx → add_transaction_entry tx (app s) = Ok (r, w) →
  BNetMessage_serializer (BNetMessage_new (str "tx-reply") 0 (str "i have got your tx message......")) = Ok reply →
  ∃ b t, ProcessMessages l s =
    Ok (tt, with_app w (with_nodes (<[l := set_recv [] b t (enqueue reply n)]> (nodes s)) s)).
Proof.
  intros Hn Hq Htx Hr Hreply. unfold ProcessMessages. step (run_get_node l s n Hn). rewrite Hq.
  rewrite (bind_Ok _ _ s tt (with_nodes (<[l := enqueue reply n]> (nodes s)) (with_app w s))).
  - step (run_get_node l _ _ (lookup_insert_eq _ _ _)). eexists _, _. rewrite run_put_node.
    cbn [with_nodes nodes with_app]. rewrite insert_insert_eq. done.
  - cbn [process_loop]. change (bool_decide (bchCommand_ _ = str "transaction")) with true. cbv iota.
    rewrite bind_assoc. step (lift_Ok _ s _ Htx). rewrite bind_assoc. step (run_on_app _ s r w Hr).
    rewrite (bind_Ok _ _ (with_app w s) tt _ (run_PushMessage l _ _ reply (with_app w s) n Hreply Hn)). done.
Qed.
End run.

(** * Descriptors fit into their sets *)

Section bound.
Context `{SHA512} `{Indeterminate} `{NaNs} {D Q : Type} `{RocksDB D} `{Sqlite Q}.
Context {E : Type} `{SystemLaws E} {J : Type} `{Json J}.
Context (ref_memory ip_memory : Z) (tx_memory : Transaction).
Abbreviation N := (net E (world D Q)).
Implicit Types (s : N) (e : E).

(** All sockets fit. *)
Definition fits_sets (base : gset Z) s : Prop :=
  (fd_bound base (conn s) ≤ FD_SETSIZE)%Z ∧ Forall (λ fd, (fd < FD_SETSIZE)%Z) (bgListenSocket s).

Lemma node_present base l s : net_ok base s → l ∈ vNodes s → ∃ n, nodes s !! l = Some n.
Proof.
  intros Hs Hl%(ok_nodes _ _ Hs). cbn in Hl. rewrite lookup_fmap in Hl. by apply fmap_is_Some in Hl.
Qed.

Lemma node_fits base l s n : net_ok base s → fits_sets base s →
  nodes s !! l = Some n → bSocket_ n ≠ INVALID_SOCKET → (bSocket_ n < FD_SETSIZE)%Z.
Proof.
  intros Hs [Hf _] Hn Hv. destruct (ok_socket _ _ Hs l (bSocket_ n) (fInbound_ n) (bService_ n)) as (_ & _ & Hb);
    [cbn; by rewrite lookup_fmap, Hn|done|lia].
Qed.

Lemma run_FD_SET fd fds s : (fd < FD_SETSIZE)%Z → lift (FD_SET fd fds) s = Ok (fds ++ [fd], s).
Proof. intros Hf. unfold FD_SET. by rewrite (proj2 (Z.ltb_lt fd FD_SETSIZE) Hf). Qed.

Lemma run_try_lock s : ∃ b e, try_lock s = Ok (b, with_os e s) ∧ open_fds e = open_fds (os s).
Proof.
  unfold try_lock. destruct (sys_try_lock (os s)) as [b e] eqn:Eb. exists b, e.
  split; [by apply run_on_os|by eapply try_lock_keeps].
Qed.

Lemma net_ok_os base e s : open_fds e = open_fds (os s) → net_ok base s → net_ok base (with_os e s).
Proof. intros He. unfold net_ok, conn. cbn. by rewrite He. Qed.

Lemma run_collect_sockets base ls recv send m s :
  net_ok base s → fits_sets base s → (∀ l, l ∈ ls → l ∈ vNodes s) →
  ∃ r s', collect_sockets ls recv send m s = Ok (r, s').
Proof.
  revert recv send m s. induction ls as [|l ls IH]; intros recv send m s Hs Hf Hl; cbn [collect_sockets]; [by eexists _, _|].
  destruct (node_present base l s Hs) as [n Hn]; [apply Hl; left|]. step (run_get_node l s n Hn).
  assert (∀ l, l ∈ ls → l ∈ vNodes s) as Hl' by (intros k Hk; apply Hl; by right).
  destruct (Z.eqb_spec (bSocket_ n) INVALID_SOCKET) as [_|Hv]; [by apply IH|].
  pose proof (node_fits base l s n Hs Hf Hn Hv) as Hsmall.
  destruct (run_try_lock s) as (b1 & e1 & E1 & Ho1). step E1. apply (net_ok_os base e1 s Ho1) in Hs.
  assert (fits_sets base (with_os e1 s)) as Hf1 by exact Hf.
  destruct (b1 && _).
  { step (run_FD_SET (bSocket_ n) send (with_os e1 s) Hsmall). by apply IH. }
  destruct (run_try_lock (with_os e1 s)) as (b2 & e2 & E2 & Ho2). step E2. apply (net_ok_os base e2 _ Ho2) in Hs.
  destruct (b2 && _); [|by apply IH].
  step (run_FD_SET (bSocket_ n) recv (with_os e2 (with_os e1 s)) Hsmall). by apply IH.
Qed.

(** *** Connecting *)

Lemma run_find_node base ls svc s : net_ok base s → (∀ l, l ∈ ls → l ∈ vNodes s) →
  ∃ r, find_node ls svc s = Ok (r, s) ∧ ∀ l, r = Some l → l ∈ vNodes s.
Proof.
  intros Hs. induction ls as [|l ls IH]; intros Hl; cbn [find_node]; [by exists None|].
  destruct (node_present base l s Hs) as [n Hn]; [apply Hl; left|]. step (run_get_node l s n Hn).
  destruct (BService_eqb (bService_ n) svc); [|apply IH; intros k Hk; apply Hl; by right].
  exists (Some l). split; [done|]. intros k [= <-]. apply Hl. left.
Qed.

Lemma run_push_node fd svc b s : ∃ l s', push_node ref_memory fd svc b s = Ok (l, s').
Proof.
  assert (∃ l s' n, BNode_new ref_memory fd svc b s = Ok (l, s') ∧ nodes s' !! l = Some n) as (l & s' & n & En & Hn).
  { unfold BNode_new. destruct (sys_time (os s)) as [t e] eqn:Et. step (run_on_os _ s t e Et).
    eexists _, _, _. split; [reflexivity|]. cbn. apply lookup_insert_eq. }
  unfold push_node. step En. step (run_get_node l s' n Hn). by eexists _, _.
Qed.

(** Connecting to an address of the list returns. *)
Lemma run_ConnectNode base svc s :
  net_ok base s → fits_sets base s → svc ∈ vAddrToConnect s →
  ∃ r s', ConnectNode ref_memory svc s = Ok (r, s').
Proof.
  intros Hs [Hf _] Ht. unfold ConnectNode.
  destruct (run_find_node base (vNodes s) svc s Hs) as (r & Er & Hr); [done|].
  assert (FindNode svc s = Ok (r, s)) as Efind by exact Er. step Efind. destruct r as [l|].
  - destruct (node_present base l s Hs) as [n Hn]; [by apply Hr|]. step (run_get_node l s n Hn).
    by eexists _, _.
  - destruct (run_ConnectSocket svc nConnectTimeout (os s)) as [(ok & fd & e' & Ec & _)|[Hbig _]].
    + rewrite (bind_Ok _ _ s (ok, fd) (with_os e' s)) by (unfold on_os; by rewrite Ec). cbn [fst snd].
      destruct ok; [|by eexists _, _]. destruct (run_push_node fd svc false (with_os e' s)) as (l & s' & El). step El.
      by eexists _, _.
    + exfalso. change (open_fds (os s)) with (c_open (conn s)) in Hbig.
      pose proof (open_size _ _ Hs). pose proof (ok_inbound _ _ Hs).
      pose proof (outbound_lt _ _ svc Hs Ht (λ l fd, FindNode_None base svc s s Hs Efind l fd false)).
      unfold fd_bound in Hf. cbn [conn c_targets] in *. lia.
Qed.

(** *** Accepting *)

Lemma run_listening_set ls fds m :
  Forall (λ fd, (fd < FD_SETSIZE)%Z) ls → ∃ m', listening_set ls fds m = Ok (fds ++ ls, m').
Proof.
  intros Hls. revert fds m. induction Hls as [|fd ls Hfd _ IH]; intros fds m; cbn [listening_set].
  - exists m. by rewrite app_nil_r.
  - unfold FD_SET. rewrite (proj2 (Z.ltb_lt fd FD_SETSIZE) Hfd). mred.
    destruct (IH (fds ++ [fd]) (Z.max m fd)) as [m' ->]. exists m'. by rewrite <- app_assoc.
Qed.

Lemma run_count_nodes p ls c s : (∀ l, l ∈ ls → is_Some (nodes s !! l)) →
  ∃ k, count_nodes p ls c s = Ok (k, s).
Proof.
  revert c. induction ls as [|l ls IH]; intros c Hl; cbn [count_nodes]; [by eexists|].
  destruct (Hl l) as [n Hn]; [left|]. step (run_get_node l s n Hn). apply IH. intros k Hk. apply Hl. by right.
Qed.

Lemma run_accept_loop base ready ls s : net_ok base s → Forall (λ fd, (fd < FD_SETSIZE)%Z) ls →
  ∃ r s', accept_loop ref_memory ready ls s = Ok (r, s').
Proof.
  intros Hs Hls. induction Hls as [|fd ls Hfd _ IH]; cbn [accept_loop]; [by eexists _, _|].
  assert (∃ b, (if Z.eqb fd INVALID_SOCKET then Ok false else FD_ISSET fd ready) = Ok b) as [b Eb].
  { destruct (Z.eqb fd INVALID_SOCKET); [by eexists|]. unfold FD_ISSET. rewrite (proj2 (Z.ltb_lt fd FD_SETSIZE) Hfd). by eexists. }
  step (lift_Ok _ s b Eb). destruct b; [|exact IH].
  destruct (sys_accept (to_int32 fd) (os s)) as [[h peer] e] eqn:Ea.
  rewrite (bind_Ok _ _ s (h, peer) (with_os e s)) by (apply run_on_os; by rewrite Ea). cbn [fst snd].
  step (eq_refl : gets vNodes (with_os e s) = _).
  assert (∃ k, count_nodes fInbound_ (vNodes s) 0 (with_os e s) = Ok (k, with_os e s)) as [k Ek].
  { apply run_count_nodes. intros l Hl. exact (node_present base l s Hs Hl). }
  step Ek. destruct (Z.eqb_spec (to_socket h) INVALID_SOCKET) as [|Hv]; [by eexists _, _|].
  destruct (Z.ltb MAXINBOUND k).
  - destruct (accept_opens _ _ _ _ _ Ea) as [[-> _]|[Hlow _]]; [done|]. destruct Hlow as [Hfd' _ _].
    rewrite to_socket_fd by done. destruct (run_CloseSocket h e Hfd') as (c & e' & Ec & _).
    rewrite (bind_Ok _ _ (with_os e s) (c, INVALID_SOCKET) (with_os e' s)) by (unfold on_os; cbn; by rewrite Ec).
    by eexists _, _.
  - destruct (run_push_node (to_socket h) peer true (with_os e s)) as (l & s' & El). step El. by eexists _, _.
Qed.

Lemma run_AcceptSocket base s : net_ok base s → fits_sets base s →
  ∃ r s', AcceptSocket ref_memory s = Ok (r, s').
Proof.
  intros Hs [_ Hl]. unfold AcceptSocket. step (eq_refl : gets bgListenSocket s = _).
  destruct (run_listening_set (bgListenSocket s) [] 0 Hl) as [m Em]. step (lift_Ok _ s _ Em).
  match goal with |- context [sys_select ?x ?y ?z ?u] =>
    destruct (sys_select x y z u (os s)) as [[[n rs] ws] e] eqn:Es end.
  rewrite (bind_Ok _ _ s (n, rs) (with_os e s)) by (apply run_on_os; by rewrite Es). cbn [fst snd].
  destruct (Z.eqb n SOCKET_ERROR); [by eexists _, _|].
  apply (run_accept_loop base); [|done]. apply net_ok_os; [by eapply select_keeps|done].
Qed.
End bound.
