(* ===== verification/NetSpec.v ===== *)
(** * The network: specification

    What the threads of the node keep, what sending does with a system that takes
    everything and with one that does not, and how a transaction gets from one node to
    another. *)

From S2P Require Import Prelude Varint BaseUint Double Serializer MerkleNode Database MerkleTree.
From S2P Require Import CodedStream WireFormat WireLemmas PbMessage PbRound.
From S2P Require Import TransactionPb TransactionPbLaws BubiPb BubiPbLaws NetBase.
From S2P Require Import Entries Ledger LedgerInv LedgerOps Interface Iostream Net NetConns NetInv NetRun.
From S2P Require Import Instances Node LedgerSpec.

Section spec.
Context `{SHA512} `{Indeterminate} `{NaNs} {D Q : Type} `{RocksDB D} `{Sqlite Q}.
Context {E : Type} `{SystemLaws E} {J : Type} `{Json J}.
Context (ref_memory ip_memory : Z) (tx_memory : Transaction).
Abbreviation N := (net E (world D Q)).
Implicit Types (s : N) (e : E).

(** ** The process *)

(** What the threads do, one turn at a time, in any order. *)
Inductive net_step : N → N → Prop :=
  | step_sockets fuel s s' :
      SocketHandler_turn ref_memory tx_memory fuel s = Ok (tt, s') → net_step s s'
  | step_messages s s' : MessageHandler_turn s = Ok (tt, s') → net_step s s'
  | step_connections last s s' : OpenConnections_turn ref_memory s = Ok (last, s') → net_step s s'
  | step_peers ips s s' : read_peers ip_memory ips s = Ok (tt, s') → net_step s s'
  | step_discover ifas s s' : Discover ifas s = Ok (tt, s') → net_step s s'
  | step_listen svc b s s' : BindListenPort svc s = Ok (b, s') → net_step s s'
  | step_main ifas s s' : main_listen ifas s = Ok (tt, s') → net_step s s'
  | step_send command data s s' : SendMessages command data s = Ok (tt, s') → net_step s s'.

Lemma holds_listen_all base addrs s s' : listen_all addrs s = Ok (tt, s') → net_ok base s → net_ok base s'.
Proof.
  revert s. induction addrs as [|a addrs IH]; intros s; [by intros [= <-]|]. cbn [listen_all].
  intros (b & s1 & Hb & Hr)%bind_inv Hs. eapply IH; [done|]. by eapply (holds_BindListenPort base (λ _, True)).
Qed.
Lemma holds_main_listen base ifas s s' : main_listen ifas s = Ok (tt, s') → net_ok base s → net_ok base s'.
Proof.
  unfold main_listen. intros ([] & s1 & Hd & Hr)%bind_inv Hs. apply bind_inv in Hr as (hosts & s2 & [= <- <-] & Hl).
  eapply holds_listen_all; [done|]. by eapply (holds_Discover base (λ _, True)).
Qed.

Lemma net_step_ok base s s' : net_step s s' → net_ok base s → net_ok base s'.
Proof.
  intros Hstep Hs. destruct Hstep as [fuel s s' Hr|s s' Hr|x s s' Hr|ips s s' Hr|ifas s s' Hr|svc b s s' Hr|ifas s s' Hr|x d s s' Hr].
  - by eapply (holds_SocketHandler_turn _ _ base (λ _, True)).
  - by eapply (holds_MessageHandler_turn base (λ _, True)).
  - by eapply (holds_OpenConnections_turn _ base (λ _, True)).
  - by eapply (holds_read_peers _ base (λ _, True)).
  - by eapply (holds_Discover base (λ _, True)).
  - by eapply (holds_BindListenPort base (λ _, True)).
  - by eapply holds_main_listen.
  - by eapply (holds_SendMessages base (λ _, True)).
Qed.

Lemma net_ok_start s : vNodes s = [] → nodes s = ∅ → list_to_set (bgListenSocket s) ⊆ open_fds (os s) →
  net_ok (open_fds (os s)) s.
Proof.
  intros Hv Hn Hl. unfold net_ok.
  assert (conn s = mkConns ∅ [] (next_node s) (open_fds (os s)) (list_to_set (bgListenSocket s)) (vAddrToConnect s)) as ->
    by (unfold conn; by rewrite Hv, Hn, fmap_empty).
  constructor; unfold others, inbound; cbn [c_links c_list c_next c_open c_listen c_targets].
  - intros l. rewrite lookup_empty. split; [by intros ?%elem_of_nil|by intros [? ?]].
  - constructor.
  - intros l. rewrite lookup_empty. by intros [? ?].
  - cbn. lia.
  - intros fd. split; [intros Hfd; left; set_solver|]. intros [?|(l & b & svc & Hx & _)]; [set_solver|].
    by rewrite lookup_empty in Hx.
  - intros l fd b svc. by rewrite lookup_empty.
  - intros l1 l2 fd b1 b2 v1 v2. by rewrite lookup_empty.
  - intros l fd svc. by rewrite lookup_empty.
  - intros l1 l2 fd1 fd2 svc. by rewrite lookup_empty.
Qed.

(** A process that has not connected to anybody yet. *)
Definition net_start s : Prop :=
  vNodes s = [] ∧ nodes s = ∅ ∧ list_to_set (bgListenSocket s) ⊆ open_fds (os s).

Lemma net_steps_ok s0 s : net_start s0 → rtc net_step s0 s → net_ok (open_fds (os s0)) s.
Proof.
  intros (Hv & Hn & Hl) Hr. pose proof (net_ok_start s0 Hv Hn Hl) as Hok. revert Hok.
  generalize (open_fds (os s0)). intros base. clear Hv Hn Hl.
  induction Hr as [s|s1 s2 s3 Hs _ IH]; [done|]. eauto using net_step_ok.
Qed.

(** C14: the connections of the node stay in order.  From a state without nodes, after any
    number of turns of the threads in any order and against any system and any peers,
    [net_ok] holds: [vNodes] has every node once; at most eleven connections are
    incoming; those the node has opened itself go to different addresses of its list;
    the open descriptors are those that were open at the start, the listening sockets
    and the sockets of the nodes, no two nodes with the same one, so that no descriptor
    leaks and none is used after it was closed. *)
Theorem connections_in_order s0 s : net_start s0 → rtc net_step s0 s → net_ok (open_fds (os s0)) s.
Proof. apply net_steps_ok. Qed.


(** ** Sending *)

(** C36: when the system takes what it is given, [SocketSendData] with at least as many
    turns as there are messages returns with an empty queue, and what the system has
    been given is the messages in order, each once and whole. *)
Theorem SocketSendData_sends (takes : E → Prop) (wire : E → bytes) fuel l s n :
  (∀ d e, takes e →
    ∃ e', sys_send (bSocket_ n) d e = (Z.of_nat (length d), e') ∧ takes e' ∧ wire e' = wire e ++ d) →
  (∀ e t e', takes e → sys_time e = (t, e') → takes e' ∧ wire e' = wire e) →
  takes (os s) → nodes s !! l = Some n → is_fd (bSocket_ n) → nSendOffset_ n = 0 → is_u64 (nSendBytes_ n) →
  Forall (λ d, d ≠ []) (vSendMsg_ n) → length (vSendMsg_ n) ≤ fuel →
  ∃ s' n', SocketSendData fuel l s = Ok (tt, s') ∧ nodes s' = <[l := n']> (nodes s) ∧
    vSendMsg_ n' = [] ∧ nSendOffset_ n' = 0 ∧ link n' = link n ∧
    nSendBytes_ n' = u64 (nSendBytes_ n + Z.of_nat (length (concat (vSendMsg_ n)))) ∧
    wire (os s') = wire (os s) ++ concat (vSendMsg_ n) ∧ app s' = app s.
Proof.
  intros Hsend Htime Ht Hn Hfd Ho Hb Hq Hf.
  destruct (run_SocketSendData (bSocket_ n) takes wire Hsend Htime l fuel s n) as (t & e' & Hr & Hw);
    try done; [by apply to_int32_fd|].
  eexists _, _. split; [exact Hr|]. split; [done|]. by rewrite <- Hw.
Qed.

(** C37: two ways in which [SocketSendData] does not handle a message the system does not
    take whole.  If the first call of [send] fails for good, the socket is closed but
    the loop repeats the call with the invalid socket for ever: no number of turns is
    enough.  If it takes [k] bytes, at least two but not all, the next
    [SocketSendData] passes a region beyond the end of the string to [send]. *)
Theorem SocketSendData_fails l s n d q e1 :
  nodes s !! l = Some n → is_fd (bSocket_ n) → nSendOffset_ n = 0 → vSendMsg_ n = d :: q → d ≠ [] →
  (sys_send (bSocket_ n) d (os s) = (SOCKET_ERROR, e1) → soft_error (sys_errno e1) = false →
   ∀ fuel, SocketSendData fuel l s = Err OutOfFuel) ∧
  (∀ k, sys_send (bSocket_ n) d (os s) = (Z.of_nat k, e1) → 2 ≤ k < length d →
   ∀ fuel, (SocketSendData (S fuel) l;; SocketSendData (S fuel) l) s = Err OutOfBounds).
Proof.
  intros Hn Hfd Ho Hq Hd. split.
  - intros E1 He fuel. by eapply SocketSendData_fatal.
  - intros k E1 Hk fuel. destruct (SocketSendData_partial fuel l d q s n k e1) as (b & t & e2 & Hr); try done; [lia|].
    step Hr. eapply SocketSendData_beyond; [apply lookup_insert_eq|done|done].
Qed.

(** ** A transaction between nodes *)

(** The message that tells other nodes of a transaction. *)
Definition transaction_message (tx : Transaction) : outcome (bytes * bytes) :=
  txs ← Transaction_serializer tx;
  msg ← BNetMessage_serializer (BNetMessage_new (str "transaction") 0 txs);
  mret (txs, msg).

Lemma small_sendable command data :
  length command + length data ≤ 1000 → sendable (BNetMessage_new command 0 data).
Proof.
  intros Hl. split; [done|done|]. pose proof (peer_size (BNetMessage_new command 0 data)) as Hs.
  cbn [BNetMessage_new header_ data_ BNetMessageHeader_new bchCommand_] in Hs.
  change kDefaultTotalBytesLimit with 67108864%Z. lia.
Qed.

Lemma small_round command data msg :
  length command + length data ≤ 1000 → BNetMessage_serializer (BNetMessage_new command 0 data) = Ok msg →
  BNetMessage_unserializer msg = Ok (BNetMessage_new command 0 data) ∧ head msg = Some Byte.x0a ∧
  length msg ≤ 1040.
Proof.
  intros Hl Hm. pose proof (small_sendable command data Hl) as Hs.
  destruct (BNetMessage_round _ Hs) as (msg' & Hm' & Hu). rewrite Hm in Hm'. injection Hm' as <-.
  destruct (BNetMessage_bytes _ _ Hs Hm) as [Hh Hlen]. split_and!; [done|done|].
  rewrite Hlen. etrans; [apply peer_size|]. cbn. lia.
Qed.

Definition tx_reply : BNetMessage := BNetMessage_new (str "tx-reply") 0 (str "i have got your tx message......").

(** C18: a transaction gets from one node to another.  When a node sends a transaction,
    the same message is put once at the end of the queue of every node it has
    connected to, and of no other; the message fits into the buffer of the receiver.
    When another node, with nothing else waiting, has received it and processes its
    messages, its ledger is as after [add_transaction_entry] of the very same
    transaction, and a reply waits to be sent. *)
Theorem transaction_relayed base tx txs msg (a b : N) l n e1 r w :
  Transaction_wf tx → transaction_message tx = Ok (txs, msg) → net_ok base a →
  nodes b !! l = Some n → vRecvMsg_ n = [] →
  sys_recv (to_int32 (bSocket_ n)) (Z.to_nat 0x10000) (os b) = (Z.of_nat (length msg), msg, e1) →
  add_transaction_entry tx (app b) = Ok (r, w) →
  SendMessages (str "transaction") txs a =
    Ok (tt, with_nodes (map_imap (λ l n, Some (offer (vNodes a) msg l n)) (nodes a)) a) ∧
  length msg ≤ Z.to_nat 0x10000 ∧
  ∃ b' n' reply, (SocketRecvData tx_memory l;; ProcessMessages l) b = Ok (tt, b') ∧ app b' = w ∧
    nodes b' = <[l := n']> (nodes b) ∧ vRecvMsg_ n' = [] ∧ vSendMsg_ n' = vSendMsg_ n ++ [reply] ∧
    BNetMessage_unserializer reply = Ok tx_reply.
Proof.
  intros Htx Hmsg Ha Hn Hq E1 Hr. unfold transaction_message in Hmsg.
  destruct (Transaction_round tx Htx) as (txs' & Hs & Hu & _). rewrite Hs in Hmsg. cbn in Hmsg.
  destruct (BNetMessage_serializer _) as [msg'|] eqn:Hm in Hmsg; [|done]. injection Hmsg as -> ->.
  pose proof (Transaction_serializer_length _ _ Hs) as Hlen.
  destruct (small_round (str "transaction") txs msg) as (Hum & Hh & Hl); [cbn; lia|done|].
  split_and!.
  - unfold SendMessages. step (eq_refl : gets vNodes a = _). apply run_push_to_peers; [done|apply Ha|].
    intros k Hk%(ok_nodes _ _ Ha). cbn in Hk. rewrite lookup_fmap in Hk. by apply fmap_is_Some in Hk.
  - lia.
  - destruct (run_SocketRecvData tx_memory l b n msg _ e1 Hn E1 Hh Hum) as (c & t & e2 & Hrecv). step Hrecv.
    assert (∃ reply, BNetMessage_serializer tx_reply = Ok reply ∧ BNetMessage_unserializer reply = Ok tx_reply)
      as (reply & Hrs & Hru) by (apply BNetMessage_round, small_sendable; cbn; lia).
    match type of Hrecv with _ = Ok (_, ?s1) =>
      edestruct (run_ProcessMessages_transaction l s1) as (c' & t' & Hp) end;
      [apply lookup_insert_eq|cbn; by rewrite Hq|exact Hu|exact Hr|exact Hrs|].
    eexists _, _, reply. split; [exact Hp|]. cbn [with_nodes with_app with_os nodes app]. rewrite insert_insert_eq.
    split_and!; done.
Qed.
End spec.

(** ** A concrete system *)

(** [ex_limit] is how much [send] takes of a message,
    [None] for all, and a negative number for an error. *)
Record ex_os := mkOs {
  ex_fds : gset Z; ex_inbox : list bytes; ex_wire : bytes; ex_errno : Z; ex_limit : option Z;
}.

Fixpoint first_free (fuel : nat) (k : Z) (used : gset Z) : Z :=
  match fuel with
  | O => k
  | S fuel => if decide (k ∈ used) then first_free fuel (k + 1) used else k
  end.
Definition ex_open (o : ex_os) : Z * ex_os :=
  let fd := first_free (size (ex_fds o)) 0 (ex_fds o) in
  if decide ((fd ∉ ex_fds o) ∧ is_fd fd)
  then (fd, mkOs ({[fd]} ∪ ex_fds o) (ex_inbox o) (ex_wire o) (ex_errno o) (ex_limit o))
  else (SOCKET_ERROR, o).
Definition ex_fail (errno : Z) (o : ex_os) : Z * ex_os :=
  (SOCKET_ERROR, mkOs (ex_fds o) (ex_inbox o) (ex_wire o) errno (ex_limit o)).
Definition ex_send (fd : Z) (d : bytes) (o : ex_os) : Z * ex_os :=
  if Z.ltb fd 0 then ex_fail EBADF o
  else match ex_limit o with
  | None => (Z.of_nat (length d), mkOs (ex_fds o) (ex_inbox o) (ex_wire o ++ d) (ex_errno o) (ex_limit o))
  | Some k => if Z.ltb k 0 then ex_fail 32 o else (Z.min k (Z.of_nat (length d)), o)
  end.
Definition ex_recv (fd : Z) (n : nat) (o : ex_os) : Z * bytes * ex_os :=
  match ex_inbox o with
  | [] => (0%Z, [], o)
  | d :: ds => (Z.of_nat (length (take n d)), take n d,
                mkOs (ex_fds o) ds (ex_wire o) (ex_errno o) (ex_limit o))
  end.

#[local] Instance ex_System : System ex_os := {|
  sys_socket := ex_open;
  sys_close fd o := (0%Z, mkOs (ex_fds o ∖ {[fd]}) (ex_inbox o) (ex_wire o) (ex_errno o) (ex_limit o));
  sys_fcntl_getfl _ o := (0%Z, o);
  sys_fcntl_setfl _ _ o := (0%Z, o);
  sys_setsockopt_reuseaddr _ o := (0%Z, o);
  sys_connect fd _ o := if Z.ltb fd 0 then ex_fail EBADF o else (0%Z, o);
  sys_getsockopt_error _ o := (0%Z, 0%Z, o);
  sys_bind _ _ o := (0%Z, o);
  sys_listen _ o := (0%Z, o);
  sys_accept _ o := let '(fd, o) := ex_open o in (fd, mkBService 30000 1, o);
  sys_select _ rs ws _ o := (Z.of_nat (length rs + length ws), rs, ws, o);
  sys_send := ex_send;
  sys_recv := ex_recv;
  sys_errno := ex_errno;
  sys_time o := (1700000000%Z, o);
  sys_try_lock o := (true, o);
  inet_pton ip := Some (Z.of_nat (length ip));
  inet_ntoa _ := [];
|}.

Lemma first_free_below fuel k used j : (k ≤ j < first_free fuel k used)%Z → j ∈ used.
Proof.
  revert k. induction fuel as [|fuel IH]; intros k; cbn; [lia|]. case_decide as Hk; [|lia].
  intros Hj. destruct (decide (j = k)) as [->|]; [done|]. apply (IH (k + 1)%Z). lia.
Qed.

Lemma ex_open_opens o fd o' : ex_open o = (fd, o') →
  (fd = SOCKET_ERROR ∧ ex_fds o' = ex_fds o) ∨ (lowest fd (ex_fds o) ∧ ex_fds o' = {[fd]} ∪ ex_fds o).
Proof.
  unfold ex_open. case_decide as Hd; intros [= <- <-]; [right|by left]. destruct Hd as [Hfree Hfd].
  split; [|done]. split; [done|done|]. intros k. apply first_free_below.
Qed.

Lemma ex_send_spec fd d o r o' : ex_send fd d o = (r, o') →
  ex_fds o' = ex_fds o ∧ (-1 ≤ r ≤ Z.of_nat (length d))%Z ∧ ((fd < 0)%Z → r = SOCKET_ERROR ∧ ex_errno o' = EBADF).
Proof.
  unfold ex_send, ex_fail, SOCKET_ERROR. destruct (Z.ltb_spec fd 0); [intros [= <- <-]; cbn; split_and!; done || lia|].
  destruct (ex_limit o) as [k|]; [destruct (Z.ltb_spec k 0)|]; intros [= <- <-]; cbn; split_and!; done || lia.
Qed.

#[local] Instance ex_SystemLaws : SystemLaws ex_os.
Proof.
  refine {| open_fds := ex_fds |}; cbn [sys_socket sys_close sys_fcntl_getfl sys_fcntl_setfl sys_setsockopt_reuseaddr
    sys_connect sys_getsockopt_error sys_bind sys_listen sys_accept sys_select sys_send sys_recv sys_errno sys_time
    sys_try_lock ex_System].
  - exact ex_open_opens.
  - intros l o fd peer o'. destruct (ex_open o) as [fd' o1] eqn:Eo. intros [= <- <- <-]. by apply ex_open_opens.
  - by intros fd o r o' [= <- <-].
  - by intros b o r o' [= <- <-].
  - by intros fd o r o' [= <- <-].
  - by intros fd v o r o' [= <- <-].
  - by intros fd o r o' [= <- <-].
  - intros fd b o r o'. unfold ex_fail. destruct (Z.ltb fd 0); by intros [= <- <-].
  - by intros fd o r v o' [= <- <- <-].
  - by intros fd b o r o' [= <- <-].
  - by intros fd o r o' [= <- <-].
  - by intros n rs ws t o r rs' ws' o' [= <- <- <- <-].
  - by intros fd d o r o' (? & _)%ex_send_spec.
  - intros d o r o' (_ & _ & Hb)%ex_send_spec. by apply Hb.
  - by intros fd d o r o' (_ & ? & _)%ex_send_spec.
  - intros fd n o r d o'. unfold ex_recv. by destruct (ex_inbox o); intros [= <- <- <-].
  - intros fd n o r d o'. unfold ex_recv. destruct (ex_inbox o); intros [= <- <- <-]; cbn; [lia|].
    rewrite length_take. lia.
  - by intros o t o' [= <- <-].
  - by intros o b o' [= <- <-].
Defined.

(** A JSON library that rejects every text. *)
#[local] Instance ex_Json : Json unit := {|
  json_parse _ := None; json_member _ _ := None; json_asString _ := None; json_null := tt;
  json_string _ := tt; json_put _ _ _ := tt; json_write _ := [];
|}.

Section example.
#[local] Existing Instance poly_SHA512.
#[local] Existing Instance zero_Indeterminate.
#[local] Existing Instance quiet_NaNs.
#[local] Existing Instance statements.

Abbreviation ex_net := (net ex_os (world (gmap bytes bytes) (list bytes))).

Definition run_net {A} (c : prog ex_net A) (s : ex_net) : ex_net :=
  match c s with Ok (_, s') => s' | Err _ => s end.
Definition result {A} (c : prog ex_net A) (s : ex_net) : option A :=
  match c s with Ok (a, _) => Some a | Err _ => None end.

Lemma result_run {A} (c : prog ex_net A) (a : A) s : result c s = Some a → c s = Ok (a, run_net c s).
Proof. unfold result, run_net. destruct (c s) as [[a' s']|]; by intros [= ->]. Qed.

(** A process that listens on descriptor 3 and has one address to connect to. *)
Definition ex_base : gset Z := {[0%Z; 1%Z; 2%Z; 3%Z]}.
Definition ex_os0 : ex_os := mkOs ex_base [] [] 0 None.
Definition ex_net0 : ex_net := mkNet ex_os0 [3%Z] [] ∅ 1 [] [mkBService 30000 7] ex_world.

Definition ex_turn : prog ex_net unit := SocketHandler_turn 0 (J := unit) ex_memory 1.
Definition ex_net1 : ex_net := run_net ex_turn ex_net0.
Definition ex_net2 : ex_net := run_net ex_turn ex_net1.
Definition ex_net3 : ex_net := run_net (OpenConnections_turn 0) ex_net2.

Lemma ex_run : rtc (net_step 0 0 ex_memory) ex_net0 ex_net3.
Proof.
  eapply rtc_l; [apply (step_sockets _ _ _ 1), (result_run ex_turn tt ex_net0); vm_compute; reflexivity|].
  eapply rtc_l; [apply (step_sockets _ _ _ 1), (result_run ex_turn tt ex_net1); vm_compute; reflexivity|].
  eapply rtc_l; [|reflexivity].
  apply (step_connections _ _ _ true), (result_run (OpenConnections_turn 0) true ex_net2). vm_compute. reflexivity.
Qed.

Lemma ex_start : net_start ex_net0.
Proof. split; [done|]. split; [done|]. cbn. set_solver. Qed.

Lemma connections_in_order_witness :
  vNodes ex_net3 = [2; 3]%positive ∧ open_fds (os ex_net3) = {[4%Z]} ∪ ex_base ∧
  net_ok ex_base ex_net3.
Proof.
  split; [vm_compute; reflexivity|]. split; [by_evaluation|].
  exact (connections_in_order 0 0 ex_memory ex_net0 ex_net3 ex_start ex_run).
Defined.

Lemma ex_fits : fits_sets ex_base ex_net3.
Proof.
  split; [vm_compute; discriminate|].
  assert (bgListenSocket ex_net3 = [3%Z]) as -> by (vm_compute; reflexivity). by repeat constructor.
Qed.


(** A process with one node, on descriptor 4. *)
Definition ex_peer (q : list bytes) : BNode :=
  mkBNode 4 q 0 0 0 [] 0 (mkBService 30000 7) 0 0 0 false false false 1.
Definition ex_peered (limit : option Z) (q inbox : list bytes) : ex_net :=
  mkNet (mkOs {[4%Z]} inbox [] 0 limit) [] [1%positive] {[1%positive := ex_peer q]} 2 [] [] ex_world.

Lemma ex_peered_node limit q inbox : nodes (ex_peered limit q inbox) !! 1%positive = Some (ex_peer q).
Proof. apply lookup_singleton_eq. Qed.

Lemma SocketSendData_sends_witness :
  ∃ s' n', SocketSendData 2 1%positive (ex_peered None [str "ab"; str "cde"] []) = Ok (tt, s') ∧
    nodes s' = {[1%positive := n']} ∧ vSendMsg_ n' = [] ∧ nSendBytes_ n' = 5%Z ∧ ex_wire (os s') = str "abcde".
Proof.
  destruct (SocketSendData_sends (λ o, ex_limit o = None) ex_wire 2 1%positive
    (ex_peered None [str "ab"; str "cde"] []) (ex_peer [str "ab"; str "cde"])) as (s' & n' & Hr & Hn & Hq & _ & _ & Hb & Hw & _).
  - intros d o Ho. cbn. unfold ex_send. cbn. rewrite Ho. eauto.
  - by intros o t o' Ho [= <- <-].
  - done.
  - apply ex_peered_node.
  - cbn. lia.
  - done.
  - cbn. lia.
  - by repeat constructor.
  - done.
  - exists s', n'. split_and!; [done| |done|done|done]. rewrite Hn. apply insert_singleton_eq.
Defined.

Lemma SocketSendData_fails_witness :
  (∀ fuel, SocketSendData fuel 1%positive (ex_peered (Some (-1)%Z) [str "ab"] []) = Err OutOfFuel) ∧
  (∀ fuel, (SocketSendData (S fuel) 1%positive;; SocketSendData (S fuel) 1%positive)
     (ex_peered (Some 2%Z) [str "abcd"] []) = Err OutOfBounds).
Proof.
  split.
  - refine (proj1 (SocketSendData_fails 1%positive (ex_peered (Some (-1)%Z) [str "ab"] []) (ex_peer [str "ab"]) (str "ab") []
      (mkOs {[4%Z]} [] [] 32 (Some (-1)%Z)) (ex_peered_node _ _ _) _ eq_refl eq_refl _) eq_refl eq_refl); cbn; [lia|done].
  - refine (proj2 (SocketSendData_fails 1%positive (ex_peered (Some 2%Z) [str "abcd"] []) (ex_peer [str "abcd"]) (str "abcd") []
      (mkOs {[4%Z]} [] [] 0 (Some 2%Z)) (ex_peered_node _ _ _) _ eq_refl eq_refl _) 2 eq_refl _); cbn; [lia|done|lia].
Defined.

Definition ex_tx : Transaction :=
  mkTransaction alice_key bob_key (double_of_int 300) 0 uint256_zero 0 uint256_zero.
Definition ex_message : bytes * bytes :=
  match transaction_message ex_tx with Ok m => m | Err _ => ([], []) end.
Definition ex_added := run_world (add_transaction_entry ex_tx) ex_world.

Lemma ex_tx_wf : Transaction_wf ex_tx.
Proof.
  constructor; [apply length_sha512_half|apply length_sha512_half| |cbn; lia|reflexivity|cbn; lia|reflexivity].
  by vm_compute.
Qed.

Lemma ex_message_ok : transaction_message ex_tx = Ok (ex_message.1, ex_message.2).
Proof. vm_compute. reflexivity. Qed.

Lemma ex_added_ok : ∃ r, add_transaction_entry ex_tx ex_world = Ok (r, ex_added).
Proof.
  unfold ex_added, run_world. destruct (add_transaction_entry ex_tx ex_world) as [[r w]|] eqn:Er; [eauto|].
  exfalso. assert (match add_transaction_entry ex_tx ex_world with Ok _ => true | Err _ => false end = true) as Hb
    by (vm_compute; reflexivity). rewrite Er in Hb. discriminate.
Qed.

(** Alice's payment to Bob, received from a peer. *)
Lemma transaction_relayed_witness :
  ∃ b' n' reply, (SocketRecvData (J := unit) ex_memory 1%positive;; ProcessMessages 1%positive)
      (ex_peered None [] [ex_message.2]) = Ok (tt, b') ∧
    app b' = ex_added ∧ nodes b' = {[1%positive := n']} ∧ vSendMsg_ n' = [reply] ∧
    BNetMessage_unserializer reply = Ok tx_reply.
Proof.
  destruct ex_added_ok as [r Hr].
  destruct (transaction_relayed ex_memory ex_base ex_tx ex_message.1 ex_message.2 ex_net3
    (ex_peered None [] [ex_message.2]) 1%positive (ex_peer []) (mkOs {[4%Z]} [] [] 0 None) r ex_added)
    as (_ & _ & b' & n' & reply & Hp & Ha & Hn & _ & Hq & Hu).
  - exact ex_tx_wf.
  - exact ex_message_ok.
  - exact (net_steps_ok 0 0 ex_memory ex_net0 ex_net3 ex_start ex_run).
  - apply ex_peered_node.
  - done.
  - cbn [sys_recv ex_System ex_peered os]. unfold ex_recv. cbn [ex_inbox].
    rewrite take_ge; [reflexivity|]. apply Nat2Z.inj_le. vm_compute. discriminate.
  - exact Hr.
  - exists b', n', reply. split_and!; [exact Hp|exact Ha| |exact Hq|exact Hu]. rewrite Hn. apply insert_singleton_eq.
Defined.
End example.
