(* ===== verification/LedgerSaved.v ===== *)
(** * A ledger in the databases

    The destructor of a ledger writes both its trees to the node database.  [persisted]
    says that a database holds the trees of a ledger; a ledger that is opened from such
    a database has the same accounts, transactions and hashes. *)

From S2P Require Import Prelude BaseUint Double Serializer MerkleNode Database MerkleTree MerkleInv.
From S2P Require Import MerkleLoad MerkleMap MerkleAdd MerkleInsert MerkleBackup.
From S2P Require Import Entries Ledger LedgerInv.

Section trees.
Context `{SHA512} `{Indeterminate} {D : Type} `{RocksDBLaws D}.
Implicit Types (s : store_t D) (G : gmap path place) (p q : path) (n : RadixMerkleTreeNode) (d : D).

(** No node of one tree has the hash of a node of the other. *)
Definition disjoint_hashes s G1 G2 : Prop :=
  ∀ p q n n', nd s G1 p = Some n → nd s G2 q = Some n' → hash_ n ≠ hash_ n'.

Lemma disjoint_hashes_sym s G1 G2 : disjoint_hashes s G1 G2 → disjoint_hashes s G2 G1.
Proof. intros Hd p q n n' Hn Hn' E. by eapply Hd. Qed.

Lemma in_node_hashes s G p n : nd s G p = Some n → hash_ n ∈ node_hashes s G.
Proof.
  intros (pl & Hp & Hn)%nd_Some. apply list_elem_of_omap. exists (p, pl).
  split; [by apply elem_of_map_to_list|]. cbn. by rewrite Hn.
Qed.

Lemma node_hashes_disjoint s G1 G2 :
  NoDup (node_hashes s G1 ++ node_hashes s G2) →
  unique_hashes s G1 ∧ unique_hashes s G2 ∧ disjoint_hashes s G1 G2.
Proof.
  intros (N1 & Hd & N2)%NoDup_app. split_and!; [by apply node_hashes_unique..|].
  intros p q n n' Hn%in_node_hashes Hn'%in_node_hashes E. rewrite E in Hn. by eapply Hd.
Qed.

(** A tree that is only in the database is apart from one with other hashes. *)
Lemma disk_apart s G1 G2 : disjoint_hashes s G1 G2 → apart (disk_ghost s G1) (disk_ghost s G2).
Proof.
  intros Hd p q pl (n & Hn & ->)%disk_ghost_Some (n' & Hn' & [= E])%disk_ghost_Some. by eapply Hd.
Qed.

Lemma disk_apart_tree r s G1 G2 :
  tree_inv r [] 0 G2 s → disjoint_hashes s G1 G2 → apart (disk_ghost s G1) G2.
Proof.
  intros Hinv Hd p q pl (n & Hn & ->)%disk_ghost_Some Hq.
  destruct (ti_total _ _ _ _ _ Hinv _ _ Hq) as [n' Hn'].
  assert (nd s G2 q = Some n') as Hnd by (apply nd_Some; eauto).
  eapply Hd; [done..|]. symmetry. by eapply disk_hash.
Qed.

Lemma reload_apart s G1 G2 s0 :
  disjoint_hashes s G1 G2 → apart (disk_ghost s G1) (reload_ghost G2 s s0).
Proof.
  intros Hd p q pl (n & Hn & ->)%disk_ghost_Some. rewrite reload_lookup.
  destruct (nd s G2 q) as [n'|] eqn:Hn'; cbn; [|done]. case_decide; [done|].
  intros [= E]. by eapply Hd.
Qed.

(** [saved] depends on the nodes and on what can be read only. *)
Lemma saved_frame s s' G d d' :
  (∀ p, nd s' G p = nd s G p) →
  (∀ p n, nd s G p = Some n → fetched (hash_ n) d' = fetched (hash_ n) d) →
  saved s G d → saved s' G d'.
Proof. intros Hnd Hf Hs p n Hn. rewrite Hnd in Hn. rewrite (Hf _ _ Hn). exact (Hs p n Hn). Qed.

(** Writing a tree back touches the entries of its own nodes only. *)
Lemma backup_frame root G s P d' :
  tree_inv root [] 0 G s → DB_Write (rocks s) (entry <$> omap (nd s G) P) = Some d' →
  step_frame (disk_ghost s G) (disk_ghost s G) s (mkStore (heap s) (next_loc s) d').
Proof.
  intros Hinv Hw. constructor; cbn [heap next_loc]; [done| |lia|eauto].
  intros h Hh Hn. apply fetched_Get. cbn [rocks]. rewrite (Get_Write _ _ _ _ Hw). apply batch_get_notin.
  intros kv (x & -> & (p & _ & Hx)%list_elem_of_omap)%list_elem_of_fmap E. cbn in E.
  apply to_string_inj in E; [|by apply (ti_node _ _ _ _ _ Hinv _ _ Hx)|done]. subst h.
  apply (Hn p), disk_ghost_Some. eauto.
Qed.

Lemma run_dtor t G s :
  tree_inv (root_ t) [] 0 G s → unique_hashes s G → (∀ p n, nd s G p = Some n → item_fits n) →
  (∀ batch, is_Some (DB_Write (rocks s) batch)) →
  ∃ d', RadixMerkleTree_dtor t s = Ok (tt, mkStore (heap s) (next_loc s) d') ∧ saved s G d' ∧
    step_frame (disk_ghost s G) (disk_ghost s G) s (mkStore (heap s) (next_loc s) d').
Proof.
  intros Hinv Hu Hfit Hdb. destruct (backup_spec t [] G s Hinv) as (P & Hv & Hrun).
  destruct (Hdb (entry <$> omap (nd s G) P)) as [d' Hw]. rewrite Hw in Hrun. exists d'.
  split_and!; [done|by eapply backup_saved|by eapply backup_frame].
Qed.

(** What is saved stays saved while the entries of other nodes change. *)
Lemma saved_other s G1 G2 G1' s1 s2 :
  disjoint_hashes s G1 G2 → (∀ p n, nd s G2 p = Some n → wf256 (hash_ n)) →
  step_frame (disk_ghost s G1) G1' s1 s2 → saved s G2 (rocks s1) → saved s G2 (rocks s2).
Proof.
  intros Hd Hwf Hfr. apply saved_frame; [done|]. intros p n Hn.
  apply (sf_disk _ _ _ _ Hfr); [eauto|]. intros q (n' & Hn' & [= E])%disk_ghost_Some.
  eapply Hd; [done..|]. done.
Qed.

Lemma disk_ghost_nd s s' G : (∀ p, nd s' G p = nd s G p) → disk_ghost s' G = disk_ghost s G.
Proof.
  intros Hnd. apply map_eq. intros p. apply option_eq. intros pl. rewrite !disk_ghost_Some.
  by rewrite Hnd.
Qed.
Lemma unique_hashes_nd s s' G : (∀ p, nd s' G p = nd s G p) → unique_hashes s G → unique_hashes s' G.
Proof. intros Hnd Hu p q n n'. rewrite !Hnd. apply Hu. Qed.

Lemma tree_hash_wf root G s p n : tree_inv root [] 0 G s → nd s G p = Some n → wf256 (hash_ n).
Proof. intros Hinv Hn. apply (ti_node _ _ _ _ _ Hinv _ _ Hn). Qed.
End trees.

(** ** Two trees *)

Section both.
Context `{SHA512} `{Indeterminate} `{NaNs} {D Q : Type} `{RocksDBLaws D} `{Sqlite Q}.
Implicit Types (s : store_t D) (w : world D Q) (G : gmap path place) (b : bank) (d : D) (l : Ledger).

(** The objects of a well-formed bank fit into the lengths of [decode]. *)
Lemma leaves_fit {A} (f : uint256 → A → RadixMerkleTreeLeaf) (m : gmap uint256 A) s G :
  (∀ key a, m !! key = Some a → (Z.of_nat (length (leaf_peek_data (f key a))) < 2 ^ 31)%Z) →
  abs s G (leaves f m) → ∀ p n, nd s G p = Some n → item_fits n.
Proof.
  intros Hm Ha p n Hn Hi item Hit.
  assert (leaves f m !! index_ item = Some item) as Hl by (apply Ha; by exists p, n).
  rewrite lookup_leaves in Hl. destruct (m !! index_ item) as [a|] eqn:E; [|done].
  injection Hl as <-. eauto.
Qed.

Lemma accounts_fit s G b :
  bank_wf b → abs s G (leaves account_leaf (accounts b)) → ∀ p n, nd s G p = Some n → item_fits n.
Proof.
  intros Hwf. apply leaves_fit. intros key a Ha. destruct (bw_accounts _ Hwf _ _ Ha) as [Hw _].
  destruct (Account_round a Hw) as (data & E & _ & Hs). cbn. by rewrite E.
Qed.
Lemma transactions_fit s G b :
  bank_wf b → abs s G (leaves transaction_leaf (transactions b)) → ∀ p n, nd s G p = Some n → item_fits n.
Proof.
  intros Hwf. apply leaves_fit. intros key t Ht. destruct (bw_transactions _ Hwf _ _ Ht) as [Hw _].
  destruct (Transaction_round t Hw) as (data & E & _ & Hs). cbn. by rewrite E.
Qed.

(** The database holds the trees of a ledger with header [l] and contents [b]. *)
Definition persisted l b d : Prop :=
  ∃ Gt Ga s, trees_ok Gt Ga l s b ∧ header_ok (mkWorld l s (@mkSqliteInstance Q [] None)) ∧
    unique_hashes s Gt ∧ unique_hashes s Ga ∧ disjoint_hashes s Ga Gt ∧
    saved s Gt d ∧ saved s Ga d.

(** Only the entries under the hashes of nodes matter. *)
Lemma persisted_get l b d d' :
  (∀ k, length k = 64 → DB_Get d' k = DB_Get d k) → persisted l b d → persisted l b d'.
Proof.
  intros Hg (Gt & Ga & s & Hok & Hho & Ut & Ua & Hd & St & Sa). exists Gt, Ga, s.
  split_and!; try done; (eapply saved_frame; [done| |done]); intros p n Hn; apply fetched_Get, Hg;
    apply (length_to_string uint256_bits).
Qed.

(** What the destructors of both trees write. *)
Lemma run_dtors Gt Ga w b :
  ledger_state Gt Ga w b → NoDup (node_hashes (objects w) Gt ++ node_hashes (objects w) Ga) →
  (∀ d batch, is_Some (DB_Write d batch)) →
  ∃ d', (on_objects (RadixMerkleTree_dtor (account_tree_ (ledger w)));;
         on_objects (RadixMerkleTree_dtor (transaction_tree_ (ledger w)))) w =
          Ok (tt, with_objects (mkStore (heap (objects w)) (next_loc (objects w)) d') w) ∧
    persisted (ledger w) b d'.
Proof.
  intros [[Ht Ha Hap Hta Haa Hwf] Hho _] (Ut & Ua & Hd)%node_hashes_disjoint Hdb.
  apply disjoint_hashes_sym in Hd.
  destruct (run_dtor (account_tree_ (ledger w)) Ga (objects w)) as (d1 & E1 & Sa & F1);
    [done..|by eapply accounts_fit|done|].
  set (s := objects w) in *. set (s1 := mkStore (heap s) (next_loc s) d1) in *.
  destruct (other_tree_fresh _ _ _ _ s s1 (ti_fresh _ _ _ _ _ Ht) F1 Ht) as (Ht1 & _ & Hnd);
    [by eapply disk_apart_tree|].
  destruct (run_dtor (transaction_tree_ (ledger w)) Gt s1) as (d2 & E2 & St & F2);
    [done|by eapply unique_hashes_nd| |done|].
  { eapply transactions_fit; [done|]. by eapply abs_nd. }
  exists d2. split.
  - step (run_on_objects (S := Q) _ _ _ _ E1). exact (run_on_objects _ (with_objects s1 w) _ _ E2).
  - exists Gt, Ga, s. split_and!; [by constructor|by destruct Hho; constructor|done..| |].
    + eapply saved_frame; [|done|exact St]. done.
    + rewrite (disk_ghost_nd s s1 Gt Hnd) in F2. refine (saved_other s Gt Ga _ s1 _ _ _ F2 Sa);
        [by apply disjoint_hashes_sym|by eauto using tree_hash_wf].
Qed.

Lemma root_of t G s r :
  tree_inv (root_ t) [] 0 G s → tree_get_hash t s = Ok (r, s) → root_hash t s = r.
Proof.
  intros Hinv. rewrite (run_tree_get_hash t s (root_in_heap _ _ _ Hinv)). by intros [= ->].
Qed.

Lemma root_node t G s :
  tree_inv (root_ t) [] 0 G s → ∃ r, nd s G [] = Some r ∧ root_hash t s = hash_ r.
Proof.
  intros Hinv. pose proof (root_hash_nd _ _ _ Hinv) as E. destruct (nd s G []) as [r|]; [|done].
  injection E as E. eauto.
Qed.

(** The header of a ledger without its trees. *)
Definition same_header_data l l' : Prop :=
  ledger_hash_ l' = ledger_hash_ l ∧ parent_hash_ l' = parent_hash_ l ∧
  transaction_tree_hash_ l' = transaction_tree_hash_ l ∧ account_tree_hash_ l' = account_tree_hash_ l ∧
  total_coins_ l' = total_coins_ l ∧ ledger_sequence_ l' = ledger_sequence_ l ∧ close_time_ l' = close_time_ l.

(** A ledger opened from its header and such a database. *)
Lemma run_Ledger_load l b s0 (q : SqliteInstance Q) :
  persisted l b (rocks s0) → is_u32 (ledger_sequence_ l) →
  (∀ x, is_Some (heap s0 !! x) → (x < next_loc s0)%positive) →
  ∃ Gt Ga w, Ledger_load (ledger_hash_ l) (parent_hash_ l) (transaction_tree_hash_ l) (account_tree_hash_ l)
      (total_coins_ l) (ledger_sequence_ l) (close_time_ l) s0 q = Ok w ∧
    ledger_state Gt Ga w b ∧ same_header_data l (ledger w) ∧ sqlite w = q.
Proof.
  intros (Gt & Ga & s & [Ht Ha Hap Hta Haa Hwf] & [Eht Eha Eh] & Ut & Ua & Hd & St & Sa) Hseq Hf.
  cbn [ledger objects] in *.
  destruct (root_node _ _ _ Ht) as (rt & Hrt & Ert). destruct (root_node _ _ _ Ha) as (ra & Hra & Era).
  destruct (load_saved _ Ga s s0 ra _ false (ledger_sequence_ l) Ha Haa Ua Sa Hra Hf)
    as (ta & s1 & E1 & Hi1 & Ha1 & Hh1 & F1).
  assert (saved s Gt (rocks s1)) as St1.
  { refine (saved_other s Ga Gt _ s0 _ Hd _ F1 St). eauto using tree_hash_wf. }
  destruct (load_saved _ Gt s s1 rt _ true (ledger_sequence_ l) Ht Hta Ut St1 Hrt (ti_fresh _ _ _ _ _ Hi1))
    as (tr & s2 & E2 & Hi2 & Ha2 & Hh2 & F2).
  destruct (other_tree _ _ _ _ _ s1 s2 Hi2 F2 Hi1) as (Hi1' & Hap' & Hnd).
  { apply reload_apart. by apply disjoint_hashes_sym. }
  assert (root_hash ta s2 = hash_ ra) as Ra.
  { rewrite <-(root_of _ _ _ _ Hi1 Hh1). eapply root_hash_view; [done..|]. by apply nd_view_eq. }
  pose proof (root_of _ _ _ _ Hi2 Hh2) as Rt.
  unfold Ledger_load. rewrite Eha, Era, E1. mred. rewrite Eht, Ert, E2. mred.
  eexists _, _, _. split_and!; [done| |unfold same_header_data; cbn; split_and!; congruence|done].
  constructor; [constructor; cbn; try done; by eapply abs_nd|constructor; cbn; try congruence|done].
  rewrite Eh. unfold header_digest. cbn. congruence.
Qed.
End both.
