(* ===== verification/Server.v ===== *)
(** * The server program

    Models [src/Test/bubi_server.cpp]: how the server finds its last ledger again when it
    starts.  The header of a ledger is a row of the table [BubiLedger]; the nodes of its
    trees are in the node database.  What the functions print is not represented. *)

From S2P Require Import Prelude BaseUint Double Serializer MerkleNode Database MerkleTree Entries Ledger Iostream.

(** The objects of the program: [last_ledger], which may be null, the nodes of trees with
    the node database, and SQLite. *)
Record server (D Q : Type) := mkServer {
  last_ledger : option Ledger;
  srv_objects : store_t D;
  srv_sqlite : SqliteInstance Q;
}.
Arguments mkServer {D Q}.
Arguments last_ledger {D Q}.
Arguments srv_objects {D Q}.
Arguments srv_sqlite {D Q}.

Definition create_sql : bytes :=
  str "create table BubiLedger(ledger_sequence	INT	PRIMARY KEY	NOT NULL,hash	varchar(70),phash	varchar(70),txhash	varchar(70),accounthash	varchar(70),total_coins	INT,close_time	INT);".
Definition select_sql : bytes :=
  str "select * from BubiLedger order by ledger_sequence desc limit 1;".

Definition char_to_uint32_t (ch : bytes) : Z := read_uint32 ch.

Section server.
Context `{SHA512} `{Indeterminate} `{NaNs} {D Q : Type} `{RocksDB D} `{Sqlite Q}.
Abbreviation scmd := (prog (server D Q)).

(** [ledger_db->exec_sql (sql, f)]: the code and the rows for the callback. *)
Definition server_sql (sql : bytes) : scmd (Z * list row) := λ v,
  match sqlite_instance (srv_sqlite v) with
  | Ok (db, i) =>
      let '(ret, rows, db) := exec_sql sql db in
      Ok ((ret, rows), mkServer (last_ledger v) (srv_objects v) (mkSqliteInstance (sqlite_db_name_ i) (Some db)))
  | Err e => Err e
  end.

Definition create_if_not_exist : scmd Z :=
  r ← server_sql create_sql; mret r.1.

(** [argv[i]], which must not be null. *)
Definition column (argv : row) (i : nat) : scmd bytes :=
  lift (p ← of_option OutOfBounds (argv !! i); of_option NullDeref p).

(** [last_ledger->...]: a method of the ledger. *)
Definition on_ledger {A} (c : prog (world D Q) A) : scmd A := λ v,
  match last_ledger v with
  | Some l =>
      match c (mkWorld l (srv_objects v) (srv_sqlite v)) with
      | Ok (a, w) => Ok (a, mkServer (Some (ledger w)) (objects w) (sqlite w))
      | Err e => Err e
      end
  | None => Err NullDeref
  end.

(** [last_ledger = ...]: the ledger that was there before is destroyed. *)
Definition set_last_ledger (w : world D Q) : scmd unit := λ v,
  match last_ledger v with
  | Some l =>
      r ← Ledger_dtor (mkWorld l (objects w) (sqlite w));
      mret (tt, mkServer (Some (ledger w)) (objects r.2) (sqlite r.2))
  | None => mret (tt, mkServer (Some (ledger w)) (objects w) (sqlite w))
  end.

Definition load_last_ledger_call_back (argv : row) : scmd Z :=
  assert (bool_decide (length argv = 7));;
  c ← column argv 0; let ledger_sequence := char_to_uint32_t c in
  c ← column argv 1; hash ← lift (unhex c);
  c ← column argv 2; parent_hash ← lift (unhex c);
  c ← column argv 3; transaction_tree_hash ← lift (unhex c);
  c ← column argv 4; account_tree_hash ← lift (unhex c);
  c ← column argv 5; let total_coin := char_to_uint32_t c in
  c ← column argv 6; let close_time := char_to_uint32_t c in
  v ← gets id;
  w ← lift (Ledger_load hash parent_hash transaction_tree_hash account_tree_hash total_coin ledger_sequence
              close_time (srv_objects v) (srv_sqlite v));
  set_last_ledger w;;
  mret 0%Z.

(** The callback is called on each row. *)
Fixpoint call_back (rows : list row) : scmd unit :=
  match rows with
  | [] => mret tt
  | argv :: rows => load_last_ledger_call_back argv;; call_back rows
  end.

Definition load_last_ledger : scmd Z :=
  r ← server_sql select_sql;
  call_back r.2;;
  if negb (Z.eqb r.1 0) then mret 1%Z
  else
    v ← gets id;
    match last_ledger v with
    | Some _ => mret r.1
    | None =>
        w ← lift (Ledger_new (srv_objects v) (srv_sqlite v));
        set_last_ledger w;;
        mret r.1
    end.

(** [None]: the function ends without a [return]. *)
Definition recover_ledger : scmd (option Z) :=
  create_if_not_exist;;
  r ← load_last_ledger;
  if negb (Z.eqb r 0) then mret (Some 1%Z) else mret None.

(** ** Reading the trees into memory *)

(** The loop over the branches of one node: the children that go into the queue. *)
Fixpoint fetch_branches (now : loc) (bs : list nat) : prog (store_t D) (list loc) :=
  match bs with
  | [] => mret []
  | i :: bs =>
      e ← view now (λ n, is_empty_branch n i);
      if e : bool then fetch_branches now bs
      else tmp ← descend now i; ls ← fetch_branches now bs; mret (tmp :: ls)
  end.
Fixpoint fetch_loop (fuel : nat) (que : list loc) : prog (store_t D) unit :=
  match que with
  | [] => mret tt
  | now :: que =>
      match fuel with
      | O => fail OutOfFuel
      | S fuel => ls ← fetch_branches now (seq 0 16); fetch_loop fuel (que ++ ls)
      end
  end.
Definition fetch_from_db (fuel : nat) : scmd unit := on_ledger (
  t ← get_account_tree;
  on_objects (fetch_loop fuel [root_ t]);;
  t ← get_transaction_tree;
  on_objects (fetch_loop fuel [root_ t])).

(** ** The balances *)

(** What [dfs] prints: address and balance of the accounts below a node. *)
Abbreviation lines := (list (uint256 * double)).
Fixpoint dfs_branches (dfs : loc → prog (store_t D) lines) (node : loc) (bs : list nat)
    : prog (store_t D) lines :=
  match bs with
  | [] => mret []
  | i :: bs =>
      e ← view node (λ n, is_empty_branch n i);
      if e : bool then dfs_branches dfs node bs
      else
        c ← view node (get_child i);
        c ← lift c;
        c ← lift (of_option NullDeref c);
        o ← dfs c;
        os ← dfs_branches dfs node bs;
        mret (o ++ os)
  end.
Fixpoint dfs (fuel : nat) (node : loc) : prog (store_t D) lines :=
  match fuel with
  | O => fail OutOfFuel
  | S fuel =>
      b ← view node is_inner;
      if negb b then
        item ← leaf_of node;
        acc ← lift (Account_unserializer (peek_string item));
        mret [(get_account_address acc, get_account_balance acc)]
      else dfs_branches (dfs fuel) node (seq 0 16)
  end.
Definition auto_print_account_balance : scmd lines := on_ledger (
  t ← get_account_tree; on_objects (dfs depth_fuel (root_ t))).

(** ** Starting *)

Definition ledger_db_name : bytes := str "/var/bubi_ledger.db".

(** The value of [recover_ledger] decides.  Signal handlers and the timer are not
    represented, and the node database is open from the start. *)
Definition server_init (fuel : nat) : scmd Z :=
  modify (λ v, mkServer (last_ledger v) (srv_objects v) (sqlite_set_db_name ledger_db_name (srv_sqlite v)));;
  r ← recover_ledger;
  r ← lift (of_option NoReturnValue r);
  if negb (Z.eqb r 0) then mret 1%Z
  else fetch_from_db fuel;; mret 0%Z.
End server.
