(* ===== verification/ServerLaws.v ===== *)
(** * The server: the header of a ledger and its trees

    [SqliteLaws] states what the four statements of the program do to the table
    [BubiLedger] in a database that is not short of space.  With it the row that the
    destructor of a ledger leaves is the row that the server reads when it starts, and its
    columns read back as the header.

    [fetch_from_db] visits every node of a tree and leaves the whole tree in memory.
    [dfs], which follows the pointers in memory only, then meets every leaf once. *)

From S2P Require Import Prelude BaseUint Double Serializer MerkleNode Database MerkleTree MerkleInv.
From S2P Require Import MerkleLoad MerkleMap MerkleAdd MerkleInsert MerkleBackup Entries Ledger.
From S2P Require Import LedgerInv Iostream LedgerSaved Server.
From Stdlib Require Import DecimalString DecimalN.

(** ** Numbers *)

Fixpoint uint_value (d : Decimal.uint) (v : Z) : Z :=
  match d with
  | Decimal.Nil => v
  | Decimal.D0 d => uint_value d (v * 10) | Decimal.D1 d => uint_value d (v * 10 + 1)
  | Decimal.D2 d => uint_value d (v * 10 + 2) | Decimal.D3 d => uint_value d (v * 10 + 3)
  | Decimal.D4 d => uint_value d (v * 10 + 4) | Decimal.D5 d => uint_value d (v * 10 + 5)
  | Decimal.D6 d => uint_value d (v * 10 + 6) | Decimal.D7 d => uint_value d (v * 10 + 7)
  | Decimal.D8 d => uint_value d (v * 10 + 8) | Decimal.D9 d => uint_value d (v * 10 + 9)
  end%Z.

Lemma uint_value_acc d p : Zpos (Pos.of_uint_acc d p) = uint_value d (Zpos p).
Proof.
  revert p. induction d as [|d IH|d IH|d IH|d IH|d IH|d IH|d IH|d IH|d IH|d IH]; intros p; [done|..];
    cbn [Pos.of_uint_acc uint_value]; rewrite IH; f_equal; lia.
Qed.

Lemma uint_value_N d : uint_value d 0 = Z.of_N (N.of_uint d).
Proof.
  unfold N.of_uint. induction d as [|d IH|d IH|d IH|d IH|d IH|d IH|d IH|d IH|d IH|d IH]; [done|done|..];
    cbn [Pos.of_uint Z.of_N]; by rewrite uint_value_acc.
Qed.

Lemma str_cons a s : str (String a s) = Ascii.byte_of_ascii a :: str s.
Proof. done. Qed.

Lemma take_digits_uint d v n :
  take_digits (str (NilEmpty.string_of_uint d)) v n =
    (uint_value d v, n + length (str (NilEmpty.string_of_uint d)), []).
Proof.
  revert v n. induction d as [|d IH|d IH|d IH|d IH|d IH|d IH|d IH|d IH|d IH|d IH]; intros v n;
    cbn [NilEmpty.string_of_uint uint_value]; [by rewrite Nat.add_0_r|..]; rewrite str_cons;
    cbn [take_digits]; (change (is_digit _) with true at 1); cbn iota; cbn [length];
    rewrite IH, <-Nat.add_succ_comm; do 3 f_equal; match goal with |- context [digit ?b] =>
      let k := eval vm_compute in (digit b) in change (digit b) with k end; lia.
Qed.

(** The digits of a number: no space, no sign. *)
Lemma digits_of_uint d : Forall (λ b, is_digit b = true) (str (NilEmpty.string_of_uint d)).
Proof.
  induction d; cbn [NilEmpty.string_of_uint]; [constructor|..]; rewrite str_cons; by constructor.
Qed.

Lemma int_to_string_digits a :
  ∃ d, int_to_string a = str (NilEmpty.string_of_uint d) ∧ uint_value d 0 = Z.of_N (Z.to_N a) ∧ d ≠ Decimal.Nil.
Proof.
  unfold int_to_string. pose proof (DecimalN.Unsigned.of_to (Z.to_N a)) as E.
  destruct (N.to_uint (Z.to_N a)) as [|u|u|u|u|u|u|u|u|u|u] eqn:Eu; [exists (Decimal.D0 Decimal.Nil); by rewrite <-E|..];
    eexists; (split_and!; [reflexivity|by rewrite uint_value_N, E|done]).
Qed.

Lemma is_digit_skip b t : is_digit b = true → skip_space (b :: t) = b :: t ∧ take_sign (b :: t) = (false, b :: t).
Proof.
  unfold is_digit. intros [Hl Hu]%andb_prop. apply Z.leb_le in Hl, Hu. cbn. unfold is_space.
  rewrite (proj2 (Z.eqb_neq _ 32)), (proj2 (Z.leb_gt (byte.unsigned b) 13)), andb_false_r by lia. cbn.
  by rewrite (proj2 (Z.eqb_neq _ 45)), (proj2 (Z.eqb_neq _ 43)) by lia.
Qed.

Lemma read_uint32_print a : is_u32 a → read_uint32 (int_to_string a) = a.
Proof.
  intros Ha. destruct (int_to_string_digits a) as (d & -> & E & Hd). rewrite Z2N.id in E by lia.
  pose proof (digits_of_uint d) as Hds. unfold read_uint32.
  assert (length (str (NilEmpty.string_of_uint d)) ≠ 0) as Hl by (by destruct d).
  pose proof (take_digits_uint d 0 0) as Ht. destruct (str _) as [|b t]; [done|].
  apply Forall_cons in Hds as [Hb _]. destruct (is_digit_skip b t Hb) as [-> ->].
  rewrite Ht, E. cbn -[Z.ltb Z.pow Z.modulo]. by rewrite (proj2 (Z.ltb_lt a _)) by lia.
Qed.

(** ** The table *)

(** The columns of a header, in the order in which the table was created. *)
Definition header_row (l : Ledger) : row :=
  Some <$> [int_to_string (ledger_sequence_ l); hex (ledger_hash_ l); hex (parent_hash_ l);
            hex (transaction_tree_hash_ l); hex (account_tree_hash_ l); int_to_string (total_coins_ l);
            int_to_string (close_time_ l)].

(** The values have the range of their C++ types. *)
Record header_wf (l : Ledger) : Prop := {
  hw_seq : is_u32 (ledger_sequence_ l);
  hw_coins : is_u32 (total_coins_ l);
  hw_time : is_u32 (close_time_ l);
  hw_hash : wf256 (ledger_hash_ l);
  hw_parent : wf256 (parent_hash_ l);
  hw_transactions : wf256 (transaction_tree_hash_ l);
  hw_accounts : wf256 (account_tree_hash_ l);
}.

(** [r] is the row with the greatest key. *)
Definition newest (T : gmap Z row) (r : row) : Prop :=
  ∃ k, T !! k = Some r ∧ ∀ k', is_Some (T !! k') → (k' ≤ k)%Z.

(** The rows of the table [BubiLedger] by their primary key; [None] without the table. *)
Class SqliteLaws (Q : Type) `{Sqlite Q} := {
  table : Q → option (gmap Z row);
  exec_create db ret rows db' :
    sqlite3_exec db create_sql = (ret, rows, db') →
    rows = [] ∧ table db' = Some (default ∅ (table db));
  exec_insert db T l ret rows db' :
    table db = Some T → header_wf l → sqlite3_exec db (insert_sql l) = (ret, rows, db') →
    match T !! ledger_sequence_ l with
    | None => ret = SQLITE_OK ∧ table db' = Some (<[ledger_sequence_ l := header_row l]> T)
    | Some _ => ret ≠ SQLITE_OK ∧ table db' = Some T
    end;
  exec_update db T l ret rows db' :
    table db = Some T → header_wf l → is_Some (T !! ledger_sequence_ l) →
    sqlite3_exec db (update_sql l) = (ret, rows, db') →
    ret = SQLITE_OK ∧ table db' = Some (<[ledger_sequence_ l := header_row l]> T);
  exec_select db T ret rows db' :
    table db = Some T → sqlite3_exec db select_sql = (ret, rows, db') →
    ret = SQLITE_OK ∧ table db' = Some T ∧
    (T = ∅ ∧ rows = [] ∨ ∃ r, newest T r ∧ rows = [r]);
}.

Section header.
Context `{SHA512} `{Indeterminate} `{NaNs} {D Q : Type} `{RocksDBLaws D} `{SqliteLaws Q}.
Implicit Types (w : world D Q) (v : server D Q) (l : Ledger) (db : Q) (T : gmap Z row).

(** The handle is open, or opens, on a database with this table. *)
Definition sql_table (i : SqliteInstance Q) (T : option (gmap Z row)) : Prop :=
  ∃ db i', sqlite_instance i = Ok (db, i') ∧ table db = T.

Lemma sql_table_unique (i : SqliteInstance Q) (T T' : option (gmap Z row)) : sql_table i T → sql_table i T' → T = T'.
Proof. intros (db & i1 & E1 & <-) (db' & i2 & E2 & <-). congruence. Qed.

Lemma run_run_sql sql w db i' ret rows db' :
  sqlite_instance (sqlite w) = Ok (db, i') → sqlite3_exec db sql = (ret, rows, db') →
  run_sql sql w = Ok (if Z.eqb ret SQLITE_OK then 0 else 1,
    mkWorld (ledger w) (objects w) (mkSqliteInstance (sqlite_db_name_ i') (Some db')))%Z.
Proof. intros Ei Ee. unfold run_sql, exec_sql. rewrite Ei, Ee. by destruct (Z.eqb ret _). Qed.

Lemma run_server_sql sql v db i' ret rows db' :
  sqlite_instance (srv_sqlite v) = Ok (db, i') → sqlite3_exec db sql = (ret, rows, db') →
  server_sql sql v = Ok ((if Z.eqb ret SQLITE_OK then 0 else 1, rows)%Z,
    mkServer (last_ledger v) (srv_objects v) (mkSqliteInstance (sqlite_db_name_ i') (Some db'))).
Proof. intros Ei Ee. unfold server_sql, exec_sql. rewrite Ei, Ee. by destruct (Z.eqb ret _). Qed.

(** The header is in the table afterwards, whether it was there before or not. *)
Lemma run_add_ledger_to_database w T :
  header_wf (ledger w) → sql_table (sqlite w) (Some T) →
  ∃ q, add_ledger_to_database w = Ok (0%Z, mkWorld (ledger w) (objects w) q) ∧
    sql_table q (Some (<[ledger_sequence_ (ledger w) := header_row (ledger w)]> T)).
Proof.
  intros Hwf (db & i & Ei & ET). set (l := ledger w) in *.
  destruct (sqlite3_exec db (insert_sql l)) as [[ret rows] db1] eqn:E1.
  pose proof (exec_insert _ _ _ _ _ _ ET Hwf E1) as Hins. unfold add_ledger_to_database.
  step (eq_refl : gets ledger w = Ok (l, w)). step (run_run_sql _ _ _ _ _ _ _ Ei E1).
  destruct (T !! ledger_sequence_ l) as [r|] eqn:El; destruct Hins as [Hr HT].
  - rewrite (proj2 (Z.eqb_neq _ _) Hr). cbn [Z.eqb SQLITE_OK].
    set (w1 := mkWorld _ _ _). assert (sqlite_instance (sqlite w1) = Ok (db1, sqlite w1)) as Ei1 by done.
    destruct (sqlite3_exec db1 (update_sql l)) as [[ret2 rows2] db2] eqn:E2.
    destruct (exec_update _ _ _ _ _ _ HT Hwf ltac:(eauto) E2) as [Hr2 HT2].
    step (run_run_sql _ _ _ _ _ _ _ Ei1 E2). rewrite Hr2. eexists. split; [done|]. by eexists _, _.
  - rewrite Hr. eexists. split; [done|]. by eexists _, _.
Qed.

Lemma run_column argv i c v : argv !! i = Some (Some c) → column argv i v = Ok (c, v).
Proof. intros E. unfold column. apply lift_Ok. by rewrite E. Qed.

Lemma run_hash_column {A} l i u v (k : uint256 → prog (server D Q) A) :
  header_row l !! i = Some (Some (hex u)) → wf256 u →
  (c ← column (header_row l) i; h ← lift (unhex c); k h) v = k u v.
Proof.
  intros E Hu. rewrite (bind_Ok _ _ _ _ v (run_column _ _ _ _ E)).
  by rewrite (bind_Ok _ _ _ u v (lift_Ok _ _ _ (unhex_hex u Hu))).
Qed.

(** The columns of a header read back as its fields. *)
Lemma run_call_back l v :
  header_wf l → last_ledger v = None →
  load_last_ledger_call_back (header_row l) v =
    match Ledger_load (ledger_hash_ l) (parent_hash_ l) (transaction_tree_hash_ l) (account_tree_hash_ l)
            (total_coins_ l) (ledger_sequence_ l) (close_time_ l) (srv_objects v) (srv_sqlite v) with
    | Ok w => Ok (0%Z, mkServer (Some (ledger w)) (objects w) (sqlite w))
    | Err e => Err e
    end.
Proof.
  intros [Hs Hc Ht Hh Hp Htx Ha] Hl. unfold load_last_ledger_call_back.
  rewrite (bind_Ok _ _ _ tt v) by done.
  rewrite (bind_Ok _ _ _ _ v (run_column (header_row l) 0 _ v eq_refl)).
  rewrite (run_hash_column l 1 _ v _ eq_refl Hh), (run_hash_column l 2 _ v _ eq_refl Hp).
  rewrite (run_hash_column l 3 _ v _ eq_refl Htx), (run_hash_column l 4 _ v _ eq_refl Ha).
  rewrite (bind_Ok _ _ _ _ v (run_column (header_row l) 5 _ v eq_refl)).
  rewrite (bind_Ok _ _ _ _ v (run_column (header_row l) 6 _ v eq_refl)).
  rewrite (bind_Ok _ _ _ v v) by done. unfold char_to_uint32_t. rewrite !read_uint32_print by done.
  unfold lift, mbind, prog_bind. destruct (Ledger_load _ _ _ _ _ _ _ _ _) as [w|e]; [|done].
  unfold set_last_ledger. by rewrite Hl.
Qed.
End header.

(** * The trees in memory *)

Section fetch.
Context `{SHA512} `{Indeterminate} {D : Type} `{RocksDBLaws D}.
Implicit Types (s : store_t D) (G : gmap path place) (p q : path) (n : RadixMerkleTreeNode).

(** ** Shapes *)

Lemma nd_exists root k m G s q : tree_inv root k m G s → is_Some (nd s G q) ↔ is_Some (G !! q).
Proof.
  intros Hinv. unfold nd. destruct (G !! q) as [pl|] eqn:E; [|split; by intros [? [=]]].
  cbn. split; [eauto|]. intros _. by eapply ti_total.
Qed.

Lemma reads_exists root G s G' s' q :
  tree_inv root [] 0 G s → reads root G s G' s' → is_Some (G' !! q) ↔ is_Some (G !! q).
Proof.
  intros Hinv Hr. rewrite <-!(nd_exists root [] 0) by (done || apply Hr).
  pose proof (rd_view _ _ _ _ _ Hr q) as E. destruct (nd s' G' q), (nd s G q); try done; split; eauto.
Qed.

Lemma reads_size root G s G' s' : tree_inv root [] 0 G s → reads root G s G' s' → size G' = size G.
Proof.
  intros Hinv Hr. rewrite <-!size_dom. f_equal. apply leibniz_equiv. intros q. rewrite !elem_of_dom.
  by eapply reads_exists.
Qed.

Lemma reads_mem_at root G s G' s' q :
  reads root G s G' s' → is_Some (mem_at G q) → is_Some (mem_at G' q).
Proof. intros Hr [l Hl%mem_at_Some]. exists l. by apply mem_at_Some, Hr. Qed.

(** The mask of a node tells which children it has; a leaf has none. *)
Lemma branch_exists root G s p n i :
  tree_inv root [] 0 G s → nd s G p = Some n → i < 16 →
  is_empty_branch n i = false ↔ is_Some (G !! (p ++ [i])).
Proof.
  intros Hinv Hn Hi. destruct (is_inner n) eqn:Hin.
  - assert (¬ stale [] 0 (p ++ [i])) as Hs by (unfold stale; lia).
    destruct (is_empty_branch n i) eqn:He; split; try done.
    + destruct (ti_empty _ _ _ _ _ Hinv _ _ _ Hn Hin Hi Hs He) as [-> _]. by intros [? ?].
    + destruct (ti_child _ _ _ _ _ Hinv _ _ _ Hn Hin Hi Hs He) as (c & h & _ & _ & -> & _). eauto.
  - destruct (ti_node _ _ _ _ _ Hinv _ _ Hn) as [_ Hl]. rewrite Hin in Hl.
    destruct Hl as (_ & _ & _ & _ & Hm). rewrite is_empty_branch_testbit, Hm, Z.bits_0. split; [done|].
    rewrite (ghost_closed _ _ _ _ _ _ _ Hinv); [by intros [? ?]|]. intros x Hx. congruence.
Qed.

(** ** One node *)

Abbreviation below p bs := ((λ i : nat, p ++ [i]) <$> bs).
Abbreviation locs G := (omap (mem_at G)).

(** The children of [p] in the branches [bs] are in memory. *)
Definition fetched_at G p (bs : list nat) : Prop :=
  ∀ i, i ∈ bs → is_Some (G !! (p ++ [i])) → is_Some (mem_at G (p ++ [i])).

Lemma fetched_at_reads root G s G' s' p bs :
  tree_inv root [] 0 G s → reads root G s G' s' → fetched_at G p bs → fetched_at G' p bs.
Proof.
  intros Hinv Hr Hf i Hi Hg. eapply reads_mem_at; [done|]. apply Hf; [done|].
  by rewrite <-(reads_exists root G s G' s').
Qed.

Lemma locs_mono root G s G' s' (ps : list path) :
  tree_inv root [] 0 G s → reads root G s G' s' →
  (∀ q, q ∈ ps → is_Some (G !! q) → is_Some (mem_at G q)) →
  omap (mem_at G') ps = omap (mem_at G) ps.
Proof.
  intros Hinv Hr Hm. induction ps as [|q ps IH]; [done|]. csimpl.
  rewrite IH by (intros; apply Hm; [by right|done]). enough (mem_at G' q = mem_at G q) as -> by done.
  assert (q ∈ q :: ps) as Hq by (by left). destruct (mem_at G q) as [l|] eqn:E.
  - apply mem_at_Some, Hr, mem_at_Some, E.
  - destruct (mem_at G' q) as [l|] eqn:E'; [|done]. apply mem_at_Some in E'.
    destruct (Hm q Hq) as [? ?]; [|congruence]. rewrite <-(reads_exists root G s G' s') by done. eauto.
Qed.

Lemma run_fetch_branches root p l (bs : list nat) : ∀ G s,
  tree_inv root [] 0 G s → G !! p = Some (Mem l) → (∀ i, i ∈ bs → i < 16) →
  ∃ G' s', fetch_branches l bs s = Ok (omap (mem_at G') (below p bs), s') ∧
    reads root G s G' s' ∧ fetched_at G' p bs.
Proof.
  induction bs as [|i bs IH]; intros G s Hinv Hl Hbs.
  { exists G, s. split_and!; [done|by apply reads_refl|]. by intros i ?%not_elem_of_nil. }
  destruct (ti_total _ _ _ _ _ Hinv _ _ Hl) as [n Hn]. cbn in Hn.
  assert (nd s G p = Some n) as Hnd by (by rewrite (nd_Mem _ _ _ _ Hl)).
  assert (i < 16) as Hi by (apply Hbs; by left).
  pose proof (branch_exists _ _ _ _ _ _ Hinv Hnd Hi) as Hex.
  cbn [fetch_branches fmap list_fmap]. csimpl.
  step (run_view s l n (λ n, is_empty_branch n i) Hn). destruct (is_empty_branch n i) eqn:He.
  - destruct (IH G s Hinv Hl) as (G' & s' & Hrun & Hr & Hf); [intros; apply Hbs; by right|].
    exists G', s'. assert (¬ is_Some (G' !! (p ++ [i]))) as Hno.
    { rewrite (reads_exists _ _ _ _ _ _ Hinv Hr), <-Hex. done. }
    split_and!; [|done|by intros j [->|Hj]%elem_of_cons Hg; [|apply Hf]].
    rewrite Hrun. enough (mem_at G' (p ++ [i]) = None) as -> by done.
    unfold mem_at. destruct (G' !! (p ++ [i])); [|done]. destruct Hno. eauto.
  - assert (is_inner n = true) as Hin.
    { destruct (proj1 Hex eq_refl) as [pl Hpl]. destruct (ti_parent _ _ _ _ _ Hinv p i) as (x & Hx & ? & _); [eauto|].
      congruence. }
    destruct (descend_spec _ _ _ _ _ _ _ _ Hinv Hl Hn Hin Hi He) as (lc & s1 & G1 & Hd & Hi1 & Hv & Hfr & Hc & Hm).
    assert (reads root G s G1 s1) as Hr1 by (by constructor).
    destruct (IH G1 s1 Hi1 (Hm _ _ Hl)) as (G' & s' & Hrun & Hr & Hf); [intros; apply Hbs; by right|].
    exists G', s'. pose proof (rd_mem _ _ _ _ _ Hr _ _ Hc) as Hc'.
    assert (mem_at G' (p ++ [i]) = Some lc) as Hma by (by apply mem_at_Some).
    split_and!; [|by eapply reads_trans|].
    + step Hd. step Hrun. by rewrite Hma.
    + intros j [->|Hj]%elem_of_cons Hg; [eauto|by apply Hf].
Qed.

(** ** The traversal *)

(** Every existing child of a visited node is in memory. *)
Definition fetched_all G (P : list path) : Prop := ∀ p, p ∈ P → fetched_at G p (seq 0 16).

Lemma visiting_reads root G s G' s' P Q :
  tree_inv root [] 0 G s → reads root G s G' s' → fetched_all G P → visiting G P Q → visiting G' P Q.
Proof.
  intros Hinv Hr Hf [Hnd Hm Hroot Hc Hp]. constructor; try done.
  - intros q Hq. by eapply reads_mem_at, Hm.
  - intros p q Hin (i & Hi & -> & Hmem)%elem_of_kids. apply (Hc p); [done|]. apply elem_of_kids.
    exists i. split_and!; [done..|]. apply Hf; [done|apply elem_of_seq; lia|].
    rewrite <-(reads_exists root G s G' s') by done. destruct Hmem as [l Hl%mem_at_Some]. eauto.
Qed.

Lemma visiting_size G P Q : visiting G P Q → length P + length Q ≤ size G.
Proof.
  intros [Hnd Hm _ _ _]. rewrite <-length_app, <-(size_list_to_set (C := gset path)), <-size_dom by done.
  apply subseteq_size. intros q Hq%elem_of_list_to_set. apply elem_of_dom.
  destruct (Hm q Hq) as [l Hl%mem_at_Some]. eauto.
Qed.

Lemma kids_locs G p : locs G (kids G p) = locs G (below p (seq 0 16)).
Proof. apply locs_filter. Qed.

Lemma run_fetch_loop root fuel : ∀ G s P Q,
  tree_inv root [] 0 G s → visiting G P Q → fetched_all G P → size G ≤ fuel + length P →
  ∃ G' s' P', fetch_loop fuel (locs G Q) s = Ok (tt, s') ∧ reads root G s G' s' ∧
    visiting G' P' [] ∧ fetched_all G' P'.
Proof.
  induction fuel as [|fuel IH]; intros G s P [|p Q] Hinv Hv Hf Hs.
  1,3: exists G, s, P; eauto using reads_refl.
  { pose proof (visiting_size _ _ _ Hv) as Hb. cbn in Hb, Hs. lia. }
  destruct (vi_mem _ _ _ Hv p) as [l Hl]; [apply elem_of_app; right; by left|].
  destruct (run_fetch_branches root p l (seq 0 16) G s Hinv) as (G1 & s1 & Hrun & Hr & Hf1);
    [by apply mem_at_Some|intros i ?%elem_of_seq; lia|].
  assert (fetched_all G1 P) as HfP by (intros q Hq; eapply fetched_at_reads; eauto).
  pose proof (visiting_reads _ _ _ _ _ _ _ Hinv Hr Hf Hv) as Hv1.
  destruct (IH G1 s1 (P ++ [p]) (Q ++ kids G1 p)) as (G' & s' & P' & Hrun' & Hr' & Hv' & Hf').
  - apply Hr.
  - by apply visiting_step.
  - intros q [Hq| ->%list_elem_of_singleton]%elem_of_app; eauto.
  - rewrite (reads_size _ _ _ _ _ Hinv Hr), length_app. cbn. lia.
  - exists G', s', P'. split_and!; [|by eapply reads_trans|done..]. rewrite <-Hrun'.
    assert (locs G (p :: Q) = l :: locs G Q) as -> by (csimpl; by rewrite Hl).
    cbn [fetch_loop]. step Hrun. rewrite omap_app, kids_locs.
    rewrite (locs_mono root G s G1 s1 Q Hinv Hr); [done|]. intros q Hq _.
    apply (vi_mem _ _ _ Hv). apply elem_of_app. right. by right.
Qed.

(** The whole tree is in memory. *)
Definition in_memory G : Prop := ∀ p, is_Some (G !! p) → is_Some (mem_at G p).

Lemma visited_in_memory root G s P :
  tree_inv root [] 0 G s → visiting G P [] → fetched_all G P → in_memory G.
Proof.
  intros Hinv Hv Hf. assert (∀ p, is_Some (G !! p) → p ∈ P ∧ is_Some (mem_at G p)) as Hall; [|naive_solver].
  intros p. induction p as [|i p IH] using rev_ind; intros Hp.
  { pose proof (ti_root _ _ _ _ _ Hinv) as Hr. assert (is_Some (mem_at G [])) by (eexists; by apply mem_at_Some).
    split; [by eapply visited_all|done]. }
  destruct (ti_parent _ _ _ _ _ Hinv p i Hp) as (n & Hn & _ & Hi).
  destruct IH as [Hin _]; [apply (nd_exists root [] 0 G s p Hinv); eauto|].
  assert (is_Some (mem_at G (p ++ [i]))) by (apply Hf; [done|apply elem_of_seq; lia|done]).
  split; [by eapply visited_all|done].
Qed.

(** Fetching a tree ends within one step per node and leaves it in memory. *)
Lemma run_fetch_tree t fuel G s :
  tree_inv (root_ t) [] 0 G s → size G ≤ fuel →
  ∃ G' s', fetch_loop fuel [root_ t] s = Ok (tt, s') ∧ reads (root_ t) G s G' s' ∧ in_memory G'.
Proof.
  intros Hinv Hs. assert (mem_at G [] = Some (root_ t)) as Hr by (apply mem_at_Some, Hinv).
  destruct (run_fetch_loop (root_ t) fuel G s [] [[]] Hinv) as (G' & s' & P & Hrun & Hrd & Hv & Hf).
  - by eapply visiting_start.
  - intros p Hp. by apply not_elem_of_nil in Hp.
  - cbn. lia.
  - exists G', s'. assert (locs G [[]] = [root_ t]) as E by (csimpl; by rewrite Hr).
    rewrite E in Hrun. split_and!; [done..|].
    eapply visited_in_memory; [apply Hrd|done..].
Qed.
End fetch.

(** ** Printing the accounts *)

Section dfs.
Context `{SHA512} `{Indeterminate} {D : Type} `{RocksDBLaws D}.
Context (accs : gmap uint256 Account) (root : loc) (G : gmap path place) (s : store_t D)
  (Hinv : tree_inv root [] 0 G s) (Hmem : in_memory G) (Ha : abs s G (leaves account_leaf accs))
  (Hwf : ∀ key a, accs !! key = Some a → Account_wf a ∧ account_address_ a = key).
Implicit Types (p q : path) (key : uint256).

Definition line key : uint256 * double := (key, default 0%Z (account_balance_ <$> accs !! key)).

(** [ks] are the keys of the leaves below the paths [ps], each once. *)
Record keys_below (ps : list path) (ks : list uint256) : Prop := {
  kb_nodup : NoDup ks;
  kb_keys key : key ∈ ks ↔ ∃ p q it, p ∈ ps ∧ p `prefix_of` q ∧ leaf_at s G q it ∧ index_ it = key;
}.

Lemma child_in_memory p n i :
  nd s G p = Some n → is_inner n = true → i < 16 → is_empty_branch n i = false →
  ∃ lc, get_child i n = Ok (Some lc) ∧ G !! (p ++ [i]) = Some (Mem lc).
Proof.
  intros Hn Hi Hlt He.
  destruct (ti_child _ _ _ _ _ Hinv _ _ i Hn Hi Hlt) as (c & h & Hc & _ & Hg & _); [unfold stale; lia|done|].
  destruct (Hmem (p ++ [i])) as [lc Hl%mem_at_Some]; [eauto|]. rewrite Hg in Hl.
  destruct c as [lc'|]; [|done]. injection Hl as ->. exists lc. split; [|done].
  unfold get_child. by rewrite decide_True, Hi, Hc.
Qed.

Lemma leaf_path_prefix q it : leaf_at s G q it → q `prefix_of` nibbles (index_ it).
Proof.
  intros (n & Hn & Hi & Hit). destruct (ti_node _ _ _ _ _ Hinv _ _ Hn) as [_ Hl]. rewrite Hi in Hl.
  destruct Hl as (it' & Hit' & Hp & _). congruence.
Qed.

Lemma leaf_account q it :
  leaf_at s G q it →
  ∃ a, Account_unserializer (peek_string it) = Ok a ∧ account_address_ a = index_ it ∧
    line (index_ it) = (account_address_ a, account_balance_ a).
Proof.
  intros Hl. assert (leaves account_leaf accs !! index_ it = Some it) as E.
  { apply Ha, holds_leaf_at. eauto. }
  rewrite lookup_leaves in E. destruct (accs !! index_ it) as [a|] eqn:Ea; [|done]. cbn in E.
  destruct (Hwf _ _ Ea) as [Hw Haddr]. exists a. unfold line. rewrite Ea. split_and!; [|done|by rewrite Haddr].
  rewrite peek_string_data. injection E as E. rewrite <-E at 1. cbn. by apply account_stored.
Qed.

(** Two branches of one node do not lead to the same key. *)
Lemma branches_differ p (i j : nat) (k : path) :
  (p ++ [i]) `prefix_of` k → (p ++ [j]) `prefix_of` k → i = j.
Proof.
  intros [k1 E1] [k2 E2]. rewrite E1, <-!app_assoc in E2. apply app_inv_head in E2. by injection E2.
Qed.

(** The nodes above a node exist. *)
Lemma prefix_exists p q : p `prefix_of` q → is_Some (G !! q) → is_Some (G !! p).
Proof.
  intros [k ->]. induction k as [|i k IH] using rev_ind; [by rewrite app_nil_r|].
  rewrite app_assoc. intros (n & Hn & _)%(ti_parent _ _ _ _ _ Hinv). apply IH.
  apply (nd_exists root [] 0 G s _ Hinv). eauto.
Qed.

Lemma keys_below_skip p ps ks : G !! p = None → keys_below ps ks → keys_below (p :: ps) ks.
Proof.
  intros Hp [Hnd Hk]. constructor; [done|]. intros key. rewrite Hk. split.
  - intros (p' & q & it & Hin & Hrest). exists p', q, it. split; [by right|done].
  - intros (p' & q & it & [->|Hin]%elem_of_cons & Hpre & Hl & Hi); [|by exists p', q, it]. exfalso.
    destruct (prefix_exists p q Hpre) as [pl E]; [|congruence]. destruct Hl as (n & Hn & _).
    apply (nd_exists root [] 0 G s q Hinv). eauto.
Qed.

Lemma keys_below_cons p i (bs : list nat) ks ks' :
  i ∉ bs → keys_below [p ++ [i]] ks → keys_below ((λ j, p ++ [j]) <$> bs) ks' →
  keys_below ((λ j, p ++ [j]) <$> (i :: bs)) (ks ++ ks').
Proof.
  intros Hi [N1 K1] [N2 K2]. constructor.
  - apply NoDup_app. split_and!; [done| |done]. intros key.
    rewrite K1, K2. intros (p1 & q1 & it1 & ->%list_elem_of_singleton & P1 & L1 & <-).
    intros (p2 & q2 & it2 & (j & -> & Hj)%list_elem_of_fmap & P2 & L2 & E). apply Hi.
    rewrite (branches_differ p i j (nibbles (index_ it1))); [done|by etrans; [|apply leaf_path_prefix]|].
    rewrite <-E. by etrans; [|apply leaf_path_prefix].
  - intros key. rewrite elem_of_app, K1, K2. cbn. split.
    + intros [(p' & q & it & ->%list_elem_of_singleton & Hr)|(p' & q & it & Hin & Hr)]; eexists _, q, it;
        (split; [|exact Hr]); [by left|by right].
    + intros (p' & q & it & [->|Hin]%elem_of_cons & Hr); [left|right]; eexists _, q, it; (split; [|exact Hr]); [by left|done].
Qed.

(** Below an inner node are the leaves below its children. *)
Lemma below_children p n key :
  nd s G p = Some n → is_inner n = true →
  (∃ p' q it, p' ∈ (λ j, p ++ [j]) <$> seq 0 16 ∧ p' `prefix_of` q ∧ leaf_at s G q it ∧ index_ it = key) ↔
  ∃ p' q it, p' ∈ [p] ∧ p' `prefix_of` q ∧ leaf_at s G q it ∧ index_ it = key.
Proof.
  intros Hn Hi. split.
  - intros (p' & q & it & (j & -> & _)%list_elem_of_fmap & Hpre & Hl). exists p, q, it.
    split; [by left|]. split; [|done]. etrans; [|done]. by eexists.
  - intros (p' & q & it & ->%list_elem_of_singleton & [[|j k] ->] & Hl & E).
    { rewrite app_nil_r in Hl. by destruct (inner_not_leaf _ _ _ _ _ Hn Hi Hl). }
    assert ((p ++ [j]) `prefix_of` p ++ j :: k) as Hpre by (exists k; by rewrite <-app_assoc).
    exists (p ++ [j]), (p ++ j :: k), it. split_and!; [|done..]. apply list_elem_of_fmap. exists j. split; [done|].
    destruct (ti_parent _ _ _ _ _ Hinv p j) as (_ & _ & _ & Hj); [|apply elem_of_seq; lia].
    eapply prefix_exists; [done|]. destruct Hl as (x & Hx & _). apply (nd_exists root [] 0 G s _ Hinv). eauto.
Qed.

(** Nothing is below a leaf but the leaf. *)
Lemma leaf_below p q it it' : leaf_at s G p it → p `prefix_of` q → leaf_at s G q it' → it' = it.
Proof.
  intros (n & Hn & Hi & Hit) [[|j k] ->] (n' & Hn' & Hi' & Hit').
  { rewrite app_nil_r in Hn'. congruence. }
  exfalso. destruct (prefix_exists (p ++ [j]) (p ++ j :: k)) as [pl E].
  - exists k. by rewrite <-app_assoc.
  - apply (nd_exists root [] 0 G s _ Hinv). eauto.
  - rewrite (ghost_closed _ _ _ _ _ _ _ Hinv) in E; [done|]. intros x Hx. congruence.
Qed.

Lemma run_dfs_branches fuel p l n (bs : list nat) :
  G !! p = Some (Mem l) → heap s !! l = Some n → is_inner n = true →
  (∀ i lc, G !! (p ++ [i]) = Some (Mem lc) →
    ∃ ks, dfs fuel lc s = Ok (line <$> ks, s) ∧ keys_below [p ++ [i]] ks) →
  NoDup bs → (∀ i, i ∈ bs → i < 16) →
  ∃ ks, dfs_branches (dfs fuel) l bs s = Ok (line <$> ks, s) ∧ keys_below ((λ j, p ++ [j]) <$> bs) ks.
Proof.
  intros Hl Hn Hi Hdfs. assert (nd s G p = Some n) as Hnd by (by rewrite (nd_Mem _ _ _ _ Hl)).
  induction 1 as [|i bs Hin _ IH]; intros Hbs.
  { exists []. split; [done|]. constructor; [constructor|]. intros key. split; [by intros ?%not_elem_of_nil|].
    by intros (? & ? & ? & ?%not_elem_of_nil & _). }
  destruct IH as (ks' & Hrun & Hk'); [intros; apply Hbs; by right|]. assert (i < 16) as Hlt by (apply Hbs; by left).
  pose proof (branch_exists _ _ _ _ _ _ Hinv Hnd Hlt) as Hex. cbn [dfs_branches].
  step (run_view s l n (λ n, is_empty_branch n i) Hn). destruct (is_empty_branch n i) eqn:He.
  - exists ks'. split; [done|]. apply keys_below_skip; [|done].
    apply eq_None_not_Some. by intros ?%Hex.
  - destruct (child_in_memory _ _ _ Hnd Hi Hlt He) as (lc & Hc & Hg).
    destruct (Hdfs i lc Hg) as (ks & Hr & Hk). exists (ks ++ ks'). split; [|by apply keys_below_cons].
    step (run_view s l n (get_child i) Hn). step (lift_Ok _ s _ Hc). step (lift_Ok (of_option NullDeref (Some lc)) s lc eq_refl).
    step Hr. step Hrun. by rewrite fmap_app.
Qed.

Lemma run_dfs fuel : ∀ p l,
  64 < fuel + length p → G !! p = Some (Mem l) →
  ∃ ks, dfs fuel l s = Ok (line <$> ks, s) ∧ keys_below [p] ks.
Proof.
  induction fuel as [|fuel IH]; intros p l Hf Hl; (destruct (ti_total _ _ _ _ _ Hinv _ _ Hl) as [n Hn]; cbn in Hn;
    assert (nd s G p = Some n) as Hnd by (by rewrite (nd_Mem _ _ _ _ Hl))).
  - exfalso. destruct (ti_node _ _ _ _ _ Hinv _ _ Hnd) as [Hw Hp]. destruct (is_inner n) eqn:Hi; [lia|].
    destruct Hp as (it & Hit & Hpre & _). apply prefix_length in Hpre.
    rewrite (length_nibbles_wf _ (nwf_item _ Hw _ Hit)) in Hpre. lia.
  - cbn [dfs]. step (run_view s l n is_inner Hn). destruct (is_inner n) eqn:Hi; cbn [negb].
    + destruct (run_dfs_branches fuel p l n (seq 0 16)) as (ks & Hr & [Hnk Hk]); [done..| |apply NoDup_seq|intros i ?%elem_of_seq; lia|].
      { intros i lc Hg. apply IH; [|done]. rewrite length_app. cbn. lia. }
      exists ks. split; [done|]. constructor; [done|]. intros key. rewrite Hk. by apply (below_children p n).
    + destruct (ti_node _ _ _ _ _ Hinv _ _ Hnd) as [_ Hp]. rewrite Hi in Hp. destruct Hp as (it & Hit & _).
      assert (leaf_at s G p it) as Hleaf by (by exists n).
      destruct (leaf_account _ _ Hleaf) as (a & Hu & Haddr & Hline).
      exists [index_ it]. step (run_leaf_of s l n it Hn Hit). step (lift_Ok _ s _ Hu). split; [cbn; by rewrite Hline|].
      constructor; [apply NoDup_singleton|]. intros key. rewrite list_elem_of_singleton. split.
      * intros ->. exists p, p, it. by split_and!; [left|..].
      * intros (p' & q & it' & ->%list_elem_of_singleton & Hpre & Hl' & <-). by rewrite (leaf_below _ _ _ _ Hleaf Hpre Hl').
Qed.

(** From the root: one line per account. *)
Lemma run_dfs_root :
  ∃ o, dfs depth_fuel root s = Ok (o, s) ∧
    o ≡ₚ (λ ka, (ka.1, account_balance_ ka.2)) <$> map_to_list accs.
Proof.
  destruct (run_dfs depth_fuel [] root) as (ks & Hr & [Hnd Hk]); [cbn; lia|apply Hinv|].
  exists (line <$> ks). split; [done|].
  assert (∀ key, key ∈ ks ↔ is_Some (accs !! key)) as Hk'.
  { intros key. rewrite Hk. split.
    - intros (p & q & it & _ & _ & Hl & <-). assert (leaves account_leaf accs !! index_ it = Some it) as E.
      { apply Ha, holds_leaf_at. eauto. }
      rewrite lookup_leaves in E. destruct (accs !! index_ it); [eauto|done].
    - intros [a E]. assert (leaves account_leaf accs !! key = Some (account_leaf key a)) as El.
      { by rewrite lookup_leaves, E. }
      apply Ha, holds_leaf_at in El as [[q Hl] Hi]. exists [], q, (account_leaf key a).
      split_and!; [by left|apply prefix_nil|done..]. }
  assert (ks ≡ₚ (map_to_list accs).*1) as ->.
  { apply NoDup_Permutation; [done|apply NoDup_fst_map_to_list|]. intros key. rewrite Hk'. split.
    - intros [a E]. apply list_elem_of_fmap. exists (key, a). split; [done|]. by apply elem_of_map_to_list.
    - intros ([k a] & -> & E%elem_of_map_to_list)%list_elem_of_fmap. eauto. }
  rewrite <-list_fmap_compose. match goal with |- ?a ≡ₚ ?b => enough (a = b) as -> by done end. apply list_fmap_ext. intros i [k a] E%list_elem_of_lookup_2.
  apply elem_of_map_to_list in E. unfold line. cbn. by rewrite E.
Qed.
End dfs.
