(* ===== verification/SqlTable.v ===== *)
(** * A database that satisfies [SqliteLaws]

    The state is the table itself.  A statement is recognised by its text, and the
    values are cut out of it at the punctuation.  It serves to show that the laws can
    hold, and to run the server on concrete data. *)

From S2P Require Import Prelude BaseUint Double Serializer MerkleNode Database MerkleTree.
From S2P Require Import Entries Ledger Iostream Server ServerLaws.

(** ** Cutting *)

(** What is before the first [c], and what is after it. *)
Fixpoint until (c : byte) (t : bytes) : bytes * bytes :=
  match t with
  | [] => ([], [])
  | x :: t => if decide (x = c) then ([], t) else let '(a, r) := until c t in (x :: a, r)
  end.

Definition strip (p t : bytes) : option bytes :=
  if decide (take (length p) t = p) then Some (drop (length p) t) else None.

Lemma until_app c a t : Forall (λ x, x ≠ c) a → until c (a ++ c :: t) = (a, t).
Proof.
  induction 1 as [|x a Hx _ IH]; cbn; [by rewrite decide_True|]. by rewrite decide_False, IH.
Qed.

Lemma strip_app p t : strip p (p ++ t) = Some t.
Proof. unfold strip. by rewrite take_app_length, decide_True, drop_app_length. Qed.

Lemma strip_first x p y t : x ≠ y → strip (x :: p) (y :: t) = None.
Proof. intros Hne. unfold strip. cbn. rewrite decide_False; [done|]. intros [= ? _]. congruence. Qed.

(** Numbers have no punctuation, hashes no quotes. *)
Lemma int_to_string_clean c a : is_digit c = false → Forall (λ x, x ≠ c) (int_to_string a).
Proof.
  intros Hc. destruct (int_to_string_digits a) as (d & -> & _). eapply Forall_impl; [apply digits_of_uint|].
  intros x Hx ->. cbn in Hx. congruence.
Qed.

Lemma hex_clean c u : (∀ v, hex_to_decimal c ≠ Ok v) → Forall (λ x, x ≠ c) (hex u).
Proof.
  intros Hc. apply Forall_forall. intros x Hx. unfold to_string in Hx. apply list_elem_of_join in Hx as (l & Hx & Hl).
  apply list_elem_of_fmap in Hl as (i & -> & _). set (b := u !!! i) in Hx.
  pose proof (byte.unsigned_range b). pose proof (Z.mod_pos_bound (byte.unsigned b) 16 ltac:(lia)).
  pose proof (Z.div_pos (byte.unsigned b) 16). pose proof (Z.div_lt_upper_bound (byte.unsigned b) 16 16).
  intros ->. unfold sprintf_02x in Hx. rewrite !elem_of_cons in Hx. destruct Hx as [->|[->|?%not_elem_of_nil]]; [..|done].
  - eapply Hc, hex_digit_to_decimal. lia.
  - eapply Hc, hex_digit_to_decimal. lia.
Qed.

(** ** The statements *)

Definition insert_head : bytes :=
  str "insert into BubiLedger (ledger_sequence,hash,phash,txhash,accounthash,total_coins,close_time) values (".
Definition update_head : bytes := str "update BubiLedger set hash='".

Definition comma : byte := Byte.x2c.
Definition quote : byte := Byte.x27.

(** The values of a header, in the order of the table. *)
Abbreviation values := (list bytes).

Definition parse_insert (sql : bytes) : option values :=
  t ← strip insert_head sql;
  let '(a0, t) := until comma t in
  let '(a1, t) := until quote (drop 1 t) in
  let '(a2, t) := until quote (drop 2 t) in
  let '(a3, t) := until quote (drop 2 t) in
  let '(a4, t) := until quote (drop 2 t) in
  let '(a5, t) := until comma (drop 1 t) in
  let '(a6, t) := until Byte.x29 t in
  Some [a0; a1; a2; a3; a4; a5; a6].

Definition parse_update (sql : bytes) : option values :=
  t ← strip update_head sql;
  let '(a1, t) := until quote t in
  let '(a2, t) := until quote (drop 8 t) in
  let '(a3, t) := until quote (drop 9 t) in
  let '(a4, t) := until quote (drop 14 t) in
  let '(a5, t) := until comma (drop 13 t) in
  let '(a6, t) := until Byte.x20 (drop 11 t) in
  let '(a0, t) := until Byte.x3b (drop 22 t) in
  Some [a0; a1; a2; a3; a4; a5; a6].

Definition header_values (l : Ledger) : values :=
  [int_to_string (ledger_sequence_ l); hex (ledger_hash_ l); hex (parent_hash_ l);
   hex (transaction_tree_hash_ l); hex (account_tree_hash_ l); int_to_string (total_coins_ l);
   int_to_string (close_time_ l)].

Ltac cut_text :=
  repeat match goal with
  | |- context [until ?c (?a ++ ?x :: ?t)] =>
      rewrite (until_app c a t) by (first [by apply int_to_string_clean | by apply hex_clean]);
      cbn [skipn]; rewrite ?drop_0
  end.

Lemma parse_insert_sql l : parse_insert (insert_sql l) = Some (header_values l).
Proof.
  unfold parse_insert, insert_sql. rewrite strip_app. cbn [mbind option_bind].
  repeat match goal with |- context [str (String ?a ?r)] => let b := eval vm_compute in (str (String a r)) in change (str (String a r)) with b end.
  cbn [app]. change Byte.x2c with comma. change Byte.x27 with quote. cut_text.
  done.
Qed.

Lemma parse_update_sql l : parse_update (update_sql l) = Some (header_values l).
Proof.
  unfold parse_update, update_sql. rewrite strip_app. cbn [mbind option_bind].
  repeat match goal with |- context [str (String ?a ?r)] => let b := eval vm_compute in (str (String a r)) in change (str (String a r)) with b end.
  cbn [app]. change Byte.x2c with comma. change Byte.x27 with quote. cut_text. done.
Qed.

(** ** The table *)

Abbreviation sql_db := (option (gmap Z row)).

(** The row with the greatest key among [l]. *)
Definition greatest (l : list (Z * row)) : option (Z * row) :=
  foldr (λ kr best, match best with
                    | Some kb => if Z.ltb kb.1 kr.1 then Some kr else best
                    | None => Some kr
                    end) None l.

Definition as_row (vs : values) : row := Some <$> vs.

Definition put (replace : bool) (vs : values) (db : sql_db) : Z * list row * sql_db :=
  match db, vs !! 0 with
  | Some T, Some a =>
      let k := read_uint32 a in
      if bool_decide (bool_decide (is_Some (T !! k)) = replace)
      then (0%Z, [], Some (<[k := as_row vs]> T)) else (19%Z, [], db)
  | _, _ => (1%Z, [], db)
  end.

Definition exec_table (db : sql_db) (sql : bytes) : Z * list row * sql_db :=
  if decide (sql = create_sql) then
    match db with None => (0%Z, [], Some ∅) | Some _ => (1%Z, [], db) end
  else if decide (sql = select_sql) then
    match db with
    | None => (1%Z, [], db)
    | Some T => (0%Z, option_list (snd <$> greatest (map_to_list T)), db)
    end
  else
    match parse_insert sql with
    | Some vs => put false vs db
    | None => match parse_update sql with Some vs => put true vs db | None => (1%Z, [], db) end
    end.

#[export] Instance table_Sqlite : Sqlite sql_db :=
  {| sqlite3_open _ := (0%Z, None); sqlite3_exec := exec_table |}.

Lemma greatest_spec l :
  match greatest l with
  | None => l = []
  | Some kr => kr ∈ l ∧ ∀ kr', kr' ∈ l → (kr'.1 ≤ kr.1)%Z
  end.
Proof.
  induction l as [|kr l IH]; [done|]. cbn. fold (greatest l). destruct (greatest l) as [kb|].
  - destruct IH as [Hin Hm]. destruct (Z.ltb_spec kb.1 kr.1) as [Hlt|Hle].
    + split; [by left|]. intros kr' [->|Hk]%elem_of_cons; [lia|]. pose proof (Hm _ Hk). lia.
    + split; [by right|]. intros kr' [->|Hk]%elem_of_cons; [lia|by apply Hm].
  - subst l. split; [by left|]. by intros kr' ->%list_elem_of_singleton.
Qed.

Lemma exec_insert_sql db l :
  exec_table db (insert_sql l) = put false (header_values l) db.
Proof. unfold exec_table. rewrite decide_False, decide_False, parse_insert_sql by done. done. Qed.

Lemma exec_update_sql db l :
  exec_table db (update_sql l) = put true (header_values l) db.
Proof.
  unfold exec_table. rewrite decide_False, decide_False by done.
  assert (parse_insert (update_sql l) = None) as ->; [|by rewrite parse_update_sql].
  assert (strip insert_head (update_sql l) = None) as E by (by apply strip_first).
  unfold parse_insert. by rewrite E.
Qed.

#[export] Instance table_SqliteLaws : SqliteLaws sql_db.
Proof.
  refine {| table db := db |}; cbn [sqlite3_exec table_Sqlite].
  - intros db ret rows db'. unfold exec_table. rewrite decide_True by done.
    destruct db; intros [= <- <- <-]; done.
  - intros db T l ret rows db' -> Hwf. rewrite exec_insert_sql. unfold put. cbn [lookup list_lookup header_values].
    rewrite read_uint32_print by apply Hwf. destruct (T !! _) as [r|] eqn:E.
    + rewrite (bool_decide_true (is_Some _)) by eauto. by intros [= <- <- <-].
    + rewrite (bool_decide_false (is_Some _)) by (by intros [? ?]). by intros [= <- <- <-].
  - intros db T l ret rows db' -> Hwf Hs. rewrite exec_update_sql. unfold put. cbn [lookup list_lookup header_values].
    rewrite read_uint32_print by apply Hwf. rewrite (bool_decide_true (is_Some _)) by done. by intros [= <- <- <-].
  - intros db T ret rows db' ->. unfold exec_table. rewrite decide_False, decide_True by done.
    intros [= <- <- <-]. split_and!; [done..|]. pose proof (greatest_spec (map_to_list T)) as Hg.
    destruct (greatest _) as [[k r]|].
    + right. exists r. split; [|done]. destruct Hg as [Hin%elem_of_map_to_list Hm]. exists k. split; [done|].
      intros k' [r' Hr']. apply (Hm (k', r')). by apply elem_of_map_to_list.
    + left. split; [by apply map_to_list_empty_iff|done].
Defined.
