(* ===== verification/ServerSpec.v ===== *)
(** * The server: specification

    A ledger survives the end of its process: what its destructor leaves in the two
    databases is what the next process recovers.  The tree that the server reads into
    memory is printed account by account. *)

From S2P Require Import Prelude BaseUint Double Serializer MerkleNode Database MerkleTree MerkleInv.
From S2P Require Import MerkleLoad MerkleMap MerkleAdd MerkleInsert MerkleOps MerkleBackup.
From S2P Require Import Entries Ledger LedgerInv LedgerOps Interface Node LedgerSaved.
From S2P Require Import Iostream Server ServerLaws.
From S2P Require Import Instances LedgerSpec SqlTable.

Section spec.
Context `{SHA512} `{Indeterminate} `{NaNs} {D Q : Type} `{RocksDBLaws D} `{SqliteLaws Q}.
Implicit Types (s : store_t D) (w : world D Q) (v : server D Q) (G : gmap path place) (b : bank).

(** A process whose [last_ledger] is that of [w]. *)
Definition serving w : server D Q := mkServer (Some (ledger w)) (objects w) (sqlite w).

(** A process before it has a ledger. *)
Definition starting v : Prop := last_ledger v = None ∧ heap (srv_objects v) = ∅.

Lemma starting_fresh v : starting v → ∀ x, is_Some (heap (srv_objects v) !! x) → (x < next_loc (srv_objects v))%positive.
Proof. intros [_ E] x. rewrite E. by intros [? ?]. Qed.

Lemma run_create v (T : option (gmap Z row)) :
  sql_table (srv_sqlite v) T →
  ∃ r q, create_if_not_exist v = Ok (r, mkServer (last_ledger v) (srv_objects v) q) ∧
    sql_table q (Some (default ∅ T)).
Proof.
  intros (db & i & Ei & ET). destruct (sqlite3_exec db create_sql) as [[ret rows] db'] eqn:E.
  destruct (exec_create _ _ _ _ E) as [_ HT]. rewrite ET in HT. unfold create_if_not_exist.
  step (run_server_sql _ _ _ _ _ _ _ Ei E). eexists _, _. split; [done|]. by eexists _, _.
Qed.

Lemma run_select v T :
  sql_table (srv_sqlite v) (Some T) →
  ∃ rows q, server_sql select_sql v = Ok ((0%Z, rows), mkServer (last_ledger v) (srv_objects v) q) ∧
    sql_table q (Some T) ∧ (T = ∅ ∧ rows = [] ∨ ∃ r, newest T r ∧ rows = [r]).
Proof.
  intros (db & i & Ei & ET). destruct (sqlite3_exec db select_sql) as [[ret rows] db'] eqn:E.
  destruct (exec_select _ _ _ _ _ ET E) as (-> & HT & Hr). eexists _, _.
  split_and!; [exact (run_server_sql _ _ _ _ _ _ _ Ei E)|by eexists _, _|done].
Qed.

(** Without a row a new ledger is made. *)
Lemma run_load_first v :
  starting v → sql_table (srv_sqlite v) (Some ∅) →
  ∃ w, load_last_ledger v = Ok (0%Z, serving w) ∧ node w (mkBank ∅ ∅) [] ∧
    ledger_sequence_ (ledger w) = 1%Z ∧ sql_table (sqlite w) (Some ∅).
Proof.
  intros Hv HT. destruct (run_select v ∅ HT) as (rows & q & Hsel & Hq & [[_ ->]|(r & (k & Hk & _) & _)]); [|done].
  destruct (new_ledger (srv_objects v) q (starting_fresh v Hv)) as (Gt & Ga & w & Hnew & Hls & Hseq & Hsq).
  destruct (new_node (srv_objects v) q (starting_fresh v Hv)) as (w' & Hnew' & Hnode & _).
  rewrite Hnew in Hnew'. injection Hnew' as <-. exists w. split_and!; [|done|done|by rewrite Hsq].
  rewrite (proj1 Hv) in Hsel. unfold load_last_ledger. step Hsel. set (v1 := mkServer _ _ _).
  rewrite (bind_Ok _ _ v1 tt v1) by done. cbn [fst negb Z.eqb].
  rewrite (bind_Ok _ _ v1 v1 v1) by done. cbn [v1 last_ledger srv_objects srv_sqlite].
  rewrite (bind_Ok _ _ v1 w v1) by (by apply lift_Ok). by rewrite (bind_Ok _ _ v1 tt (serving w)).
Qed.

(** With the row of a ledger whose trees are in the database, that ledger is opened. *)
Lemma run_load_saved v l b T :
  starting v → header_wf l → sql_table (srv_sqlite v) (Some T) → newest T (header_row l) →
  (∀ r, newest T r → r = header_row l) → persisted (Q := Q) l b (rocks (srv_objects v)) →
  ∃ Gt Ga w, load_last_ledger v = Ok (0%Z, serving w) ∧ ledger_state Gt Ga w b ∧
    same_header_data l (ledger w) ∧ sql_table (sqlite w) (Some T).
Proof.
  intros Hv Hwf HT Hnew Huniq Hp.
  destruct (run_select v T HT) as (rows & q & Hsel & Hq & [[-> _]|(r & Hr & ->)]); [by destruct Hnew as (? & ? & _)|].
  rewrite (Huniq _ Hr) in Hsel.
  destruct (run_Ledger_load l b (srv_objects v) q Hp (hw_seq _ Hwf) (starting_fresh v Hv)) as (Gt & Ga & w & Hl & Hls & Hh & Hsq).
  exists Gt, Ga, w. split_and!; [|done|done|by rewrite Hsq]. unfold load_last_ledger. step Hsel.
  assert (load_last_ledger_call_back (header_row l) (mkServer (last_ledger v) (srv_objects v) q) = Ok (0%Z, serving w)) as Hcb.
  { rewrite run_call_back by (done || apply Hv). cbn [srv_objects srv_sqlite]. by rewrite Hl. }
  cbn [call_back snd fst Z.eqb negb]. rewrite (bind_Ok _ _ _ tt (serving w)); [done|]. by step Hcb.
Qed.

Lemma newest_unique T r r' : newest T r → newest T r' → r = r'.
Proof.
  intros (k & Hk & Hm) (k' & Hk' & Hm'). assert (k = k') as <-; [|congruence].
  pose proof (Hm k' ltac:(eauto)). pose proof (Hm' k ltac:(eauto)). lia.
Qed.

Lemma run_recover v (T : option (gmap Z row)) :
  starting v → sql_table (srv_sqlite v) T →
  ∃ v1, starting v1 ∧ rocks (srv_objects v1) = rocks (srv_objects v) ∧
    sql_table (srv_sqlite v1) (Some (default ∅ T)) ∧
    ∀ v', load_last_ledger v1 = Ok (0%Z, v') → recover_ledger v = Ok (None, v').
Proof.
  intros Hv HT. destruct (run_create v T HT) as (r & q & Hc & Hq).
  exists (mkServer (last_ledger v) (srv_objects v) q). split_and!; [done..|].
  intros v' Hl. unfold recover_ledger. step Hc. by step Hl.
Qed.

(** ** The end of a process *)

Lemma hash_wf_of_header w Gt Ga b :
  ledger_state Gt Ga w b →
  wf256 (transaction_tree_hash_ (ledger w)) ∧ wf256 (account_tree_hash_ (ledger w)) ∧ wf256 (ledger_hash_ (ledger w)).
Proof.
  intros [[Ht Ha _ _ _ _] [Et Ea Eh] _]. rewrite Et, Ea, Eh.
  destruct (root_node _ _ _ Ht) as (rt & Hrt & ->). destruct (root_node _ _ _ Ha) as (ra & Hra & ->).
  split_and!; [exact (tree_hash_wf _ _ _ _ _ Ht Hrt)|exact (tree_hash_wf _ _ _ _ _ Ha Hra)|apply length_sha512_half].
Qed.

(** The members of a header that the trees do not determine are in range. *)
Definition header_range (l : Ledger) : Prop :=
  wf256 (parent_hash_ l) ∧ is_u32 (total_coins_ l) ∧ is_u32 (close_time_ l).

Lemma header_wf_state w Gt Ga b : ledger_state Gt Ga w b → header_range (ledger w) → header_wf (ledger w).
Proof.
  intros Hls (Hp & Hc & Ht). destruct (hash_wf_of_header _ _ _ _ Hls) as (? & ? & ?).
  constructor; try done. apply Hls.
Qed.

(** The two databases have what the next process needs. *)
Lemma run_Ledger_dtor w Gt Ga b T :
  ledger_state Gt Ga w b → header_range (ledger w) →
  NoDup (node_hashes (objects w) Gt ++ node_hashes (objects w) Ga) →
  (∀ (d : D) batch, is_Some (DB_Write d batch)) → sql_table (sqlite w) (Some T) →
  ∃ w', Ledger_dtor w = Ok (tt, w') ∧ persisted (Q := Q) (ledger w) b (rocks (objects w')) ∧
    sql_table (sqlite w') (Some (<[ledger_sequence_ (ledger w) := header_row (ledger w)]> T)).
Proof.
  intros Hls Hh Hnd Hdb HT.
  destruct (run_add_ledger_to_database w T (header_wf_state _ _ _ _ Hls Hh) HT) as (q & Hadd & Hq).
  set (w1 := mkWorld (ledger w) (objects w) q).
  assert (ledger_state Gt Ga w1 b) as Hls1 by (destruct Hls as [? [] ?]; by constructor).
  destruct (run_dtors Gt Ga w1 b Hls1 Hnd Hdb) as (d' & Hrun & Hp).
  exists (with_objects (mkStore (heap (objects w)) (next_loc (objects w)) d') w1).
  split_and!; [|exact Hp|exact Hq]. unfold Ledger_dtor. step Hadd. fold w1.
  apply bind_inv in Hrun as (u & w2 & E1 & E2).
  rewrite (bind_Ok _ _ w1 (account_tree_ (ledger w1)) w1) by done. step E1.
  assert (ledger w2 = ledger w1) as El.
  { unfold on_objects in E1. destruct (RadixMerkleTree_dtor _ _) as [[? ?]|]; [|done]. by injection E1 as _ <-. }
  by rewrite (bind_Ok _ _ w2 (transaction_tree_ (ledger w1)) w2) by (by rewrite <-El).
Qed.

(** ** The trees in memory *)

Lemma reads_abs root G s G' s' m : reads root G s G' s' → abs s G m → abs s' G' m.
Proof. intros Hr Ha key it. rewrite (Ha key it). apply holds_view, Hr. Qed.

Lemma reads_same_view root G s G' s' : reads root G s G' s' → view_eq (nd s' G') (nd s G).
Proof. intros Hr q. apply (rd_view _ _ _ _ _ Hr q). Qed.

(** [fetch_from_db] changes nothing but where the nodes are. *)
Lemma run_fetch_from_db fuel w Gt Ga b :
  ledger_state Gt Ga w b → size Gt ≤ fuel → size Ga ≤ fuel →
  ∃ Gt' Ga' w', fetch_from_db fuel (serving w) = Ok (tt, serving w') ∧ ledger_state Gt' Ga' w' b ∧
    ledger w' = ledger w ∧ in_memory Gt' ∧ in_memory Ga'.
Proof.
  intros [Hok Hho Hseq] Hst Hsa. destruct (run_fetch_tree (account_tree_ (ledger w)) fuel Ga (objects w))
    as (Ga1 & s1 & E1 & R1 & M1); [apply Hok|done|].
  destruct (accounts_changed Gt Ga Ga1 (ledger w) (objects w) s1 b (accounts b)) as [Hok1 Hnd1];
    [done|apply R1|apply R1|eapply reads_abs, Hok; done|destruct b; apply Hok|].
  rewrite bank_eta in Hok1.
  destruct (run_fetch_tree (transaction_tree_ (ledger w)) fuel Gt s1) as (Gt2 & s2 & E2 & R2 & M2); [apply Hok1|done|].
  destruct (transactions_changed Gt Gt2 Ga1 (ledger w) s1 s2 b (transactions b)) as [Hok2 Hnd2];
    [done|apply R2|apply R2|eapply reads_abs, Hok1; done|destruct b; apply Hok1|].
  rewrite bank_eta in Hok2. exists Gt2, Ga1, (with_objects s2 w). split_and!; [| |done..].
  - unfold fetch_from_db, on_ledger. cbn [last_ledger serving srv_objects srv_sqlite].
    set (w0 := mkWorld (ledger w) (objects w) (sqlite w)).
    rewrite (bind_Ok _ _ w0 (account_tree_ (ledger w)) w0) by done.
    rewrite (bind_Ok _ _ w0 tt (with_objects s1 w0)) by (by apply run_on_objects).
    rewrite (bind_Ok _ _ _ (transaction_tree_ (ledger w)) (with_objects s1 w0)) by done.
    by rewrite (run_on_objects _ (with_objects s1 w0) tt s2).
  - constructor; [done| |done]. eapply (same_header Gt Ga w Gt2 Ga1 (with_objects s2 w)); [done..| |done].
    constructor; [done..| |]; cbn [objects with_objects].
    + rewrite <-(nd_view_eq _ _ _ Hnd1). by eapply reads_same_view.
    + rewrite (nd_view_eq _ _ _ Hnd2). by eapply reads_same_view.
Qed.

Lemma run_print w Gt Ga b :
  ledger_state Gt Ga w b → in_memory Ga →
  ∃ o, auto_print_account_balance (serving w) = Ok (o, serving w) ∧
    o ≡ₚ (λ ka, (ka.1, account_balance_ ka.2)) <$> map_to_list (accounts b).
Proof.
  intros [[Ht Ha _ _ Haa Hwf] _ _] Hm.
  destruct (run_dfs_root (accounts b) _ Ga (objects w) Ha Hm Haa (bw_accounts _ Hwf)) as (o & Hr & Ho).
  exists o. split; [|done]. unfold auto_print_account_balance, on_ledger. cbn [last_ledger serving srv_objects srv_sqlite].
  set (w0 := mkWorld (ledger w) (objects w) (sqlite w)).
  rewrite (bind_Ok _ _ w0 (account_tree_ (ledger w)) w0) by done.
  by rewrite (run_on_objects _ w0 o (objects w) Hr).
Qed.

(** ** Claims *)

(** C5: a ledger survives the end of its process.  Let a ledger hold the bank [b] and the
    log of payments [log], with no two of its nodes having the same hash.  Its destructor
    writes the header to the table and the nodes of both trees to the node database, and
    the destructor of the database its debugging entry.  A new process with an empty heap
    that finds the two databases as they were left then recovers a ledger with the same
    header, which holds the same bank and the same log, and the table is unchanged.
    Assumed are that the databases take what is written, and that no later ledger is in
    the table. *)
Theorem ledger_survives_restart w b log Gt Ga T :
  ledger_state Gt Ga w b → records b log → ledger_sequence_ (ledger w) ≠ 0%Z → header_range (ledger w) →
  NoDup (node_hashes (objects w) Gt ++ node_hashes (objects w) Ga) →
  (∀ (d : D) batch, is_Some (DB_Write d batch)) →
  sql_table (sqlite w) (Some T) → (∀ k, is_Some (T !! k) → (k ≤ ledger_sequence_ (ledger w))%Z) →
  ∃ w1 d', Ledger_dtor w = Ok (tt, w1) ∧ RocksdbImp_dtor (rocks (objects w1)) = Ok d' ∧
    ∀ v, starting v → (∀ k, DB_Get (rocks (srv_objects v)) k = DB_Get d' k) →
      (∀ T', sql_table (sqlite w1) T' → sql_table (srv_sqlite v) T') →
      ∃ w2, recover_ledger v = Ok (None, serving w2) ∧ node w2 b log ∧
        same_header_data (ledger w) (ledger w2) ∧
        (∀ T', sql_table (sqlite w1) T' → sql_table (sqlite w2) T').
Proof.
  intros Hls Hlog Hseq Hh Hnd Hdb HT Hmax.
  destruct (run_Ledger_dtor w Gt Ga b T Hls Hh Hnd Hdb HT) as (w1 & Hrun & Hp & HT1).
  set (T1 := <[_ := _]> T) in *.
  destruct (Hdb (rocks (objects w1)) [(str "asdaf", str "sdfsafdsaf")]) as [d' Hd'].
  exists w1, d'. split_and!; [done|unfold RocksdbImp_dtor; by rewrite Hd'|].
  intros v Hv Hget Hsql. destruct (run_recover v (Some T1) Hv (Hsql _ HT1)) as (v1 & Hv1 & Er & Hq & Hrec).
  assert (newest T1 (header_row (ledger w))) as Hnew.
  { exists (ledger_sequence_ (ledger w)). split; [apply lookup_insert_eq|]. intros k.
    unfold T1. rewrite lookup_insert. case_decide; [lia|apply Hmax]. }
  destruct (run_load_saved v1 (ledger w) b T1) as (Gt' & Ga' & w2 & Hl & Hls2 & Hhd & HT2).
  - done.
  - by eapply header_wf_state.
  - done.
  - done.
  - intros r Hr. by eapply newest_unique.
  - eapply persisted_get; [|exact Hp]. intros k Hk. rewrite Er, Hget, (Get_Write _ _ _ _ Hd').
    apply batch_get_notin. intros kv ->%list_elem_of_singleton E. by rewrite <-E in Hk.
  - exists w2. split_and!; [by apply Hrec| |done|].
    + split; [by exists Gt', Ga'|]. split; [done|]. by destruct Hhd as (_ & _ & _ & _ & _ & -> & _).
    + intros T' HT'. by rewrite (sql_table_unique _ _ _ HT' HT1).
Qed.

(** The first start.  A process that finds no table creates it and starts with an
    empty ledger, number one. *)
Theorem first_start v :
  starting v → sql_table (srv_sqlite v) None →
  ∃ w, recover_ledger v = Ok (None, serving w) ∧ node w (mkBank ∅ ∅) [] ∧
    ledger_sequence_ (ledger w) = 1%Z ∧ sql_table (sqlite w) (Some ∅).
Proof.
  intros Hv HT. destruct (run_recover v None Hv HT) as (v1 & Hv1 & _ & Hq & Hrec).
  destruct (run_load_first v1 Hv1 Hq) as (w & Hl & Hn & Hs & HT1). exists w. split_and!; [by apply Hrec|done..].
Qed.

(** C25: the accounts that the server prints.  [fetch_from_db] ends within one step per node
    of the larger tree; it leaves the header and the contents of the ledger as they are,
    and afterwards printing the accounts meets no null pointer and gives every account
    of the ledger exactly once, with its balance, without changing anything. *)
Theorem balances_printed fuel w b log Gt Ga :
  ledger_state Gt Ga w b → records b log → ledger_sequence_ (ledger w) ≠ 0%Z →
  size Gt ≤ fuel → size Ga ≤ fuel →
  ∃ w' o, fetch_from_db fuel (serving w) = Ok (tt, serving w') ∧ ledger w' = ledger w ∧ node w' b log ∧
    auto_print_account_balance (serving w') = Ok (o, serving w') ∧
    o ≡ₚ (λ ka, (ka.1, account_balance_ ka.2)) <$> map_to_list (accounts b).
Proof.
  intros Hls Hlog Hseq Ht Ha.
  destruct (run_fetch_from_db fuel w Gt Ga b Hls Ht Ha) as (Gt' & Ga' & w' & Hr & Hls' & El & _ & Hm).
  destruct (run_print w' Gt' Ga' b Hls' Hm) as (o & Hp & Ho). exists w', o. split_and!; try done.
  split; [by exists Gt', Ga'|]. by rewrite El.
Qed.

(** When the ledger has been recovered, [init] uses the value of a function that ended
    without a [return]. *)
Lemma init_value_missing fuel v v' :
  recover_ledger (mkServer (last_ledger v) (srv_objects v) (sqlite_set_db_name ledger_db_name (srv_sqlite v))) = Ok (None, v') →
  server_init fuel v = Err NoReturnValue.
Proof.
  intros Hr. unfold server_init. rewrite (bind_Ok _ _ v tt (mkServer (last_ledger v) (srv_objects v)
    (sqlite_set_db_name ledger_db_name (srv_sqlite v)))) by done. by step Hr.
Qed.
End spec.

(** The state of a ledger does not depend on its SQL database. *)
Lemma ledger_state_sqlite `{SHA512} `{Indeterminate} {D Q Q' : Type} `{RocksDBLaws D}
    Gt Ga (w : world D Q) (q : SqliteInstance Q') b :
  ledger_state Gt Ga w b → ledger_state Gt Ga (mkWorld (ledger w) (objects w) q) b.
Proof. intros [Ht [] Hs]. by constructor. Qed.

(** ** A concrete server *)

Section example.
#[local] Existing Instance poly_SHA512.
#[local] Existing Instance zero_Indeterminate.
#[local] Existing Instance quiet_NaNs.

(** The ledger with the accounts of Alice and Bob, on an empty table. *)
Definition ex_served : world (gmap bytes bytes) sql_db :=
  mkWorld (ledger ex_world) (objects ex_world) (mkSqliteInstance ledger_db_name (Some (Some ∅))).

Lemma ex_served_state : ledger_state ex_Gt ex_Ga ex_served ex_bank.
Proof. exact (ledger_state_sqlite _ _ _ _ _ ex_state). Qed.

Lemma ex_served_records : records ex_bank [].
Proof. apply ex_node. Qed.

Lemma ex_served_table : sql_table (sqlite ex_served) (Some ∅).
Proof. by eexists _, _. Qed.

Lemma ex_served_seq : ledger_sequence_ (ledger ex_served) = 1%Z.
Proof. vm_compute. reflexivity. Qed.

Lemma ex_served_header : header_range (ledger ex_served).
Proof.
  assert (parent_hash_ (ledger ex_served) = uint256_zero) as E1 by (vm_compute; reflexivity).
  assert (total_coins_ (ledger ex_served) = 0%Z) as E2 by (vm_compute; reflexivity).
  assert (close_time_ (ledger ex_served) = 0%Z) as E3 by (vm_compute; reflexivity).
  unfold header_range. rewrite E1, E2, E3. split_and!; [apply wf256_zero|lia..].
Qed.

Lemma ex_served_hashes :
  NoDup (node_hashes (objects ex_served) ex_Gt ++ node_hashes (objects ex_served) ex_Ga).
Proof. apply (bool_decide_unpack _). vm_compute. exact I. Qed.

(** The ledger is found again by a process that has nothing but the databases. *)
Lemma ledger_survives_restart_witness :
  ∃ w1 d' w2, Ledger_dtor ex_served = Ok (tt, w1) ∧ RocksdbImp_dtor (rocks (objects w1)) = Ok d' ∧
    recover_ledger (mkServer None (mkStore ∅ 1%positive d') (sqlite w1)) = Ok (None, serving w2) ∧
    node w2 ex_bank [].
Proof.
  destruct (ledger_survives_restart ex_served ex_bank [] ex_Gt ex_Ga ∅) as (w1 & d' & Hd & Hr & Hv).
  - exact ex_served_state.
  - exact ex_served_records.
  - by rewrite ex_served_seq.
  - exact ex_served_header.
  - exact ex_served_hashes.
  - intros d batch. eexists. reflexivity.
  - exact ex_served_table.
  - intros k. rewrite lookup_empty. by intros [? ?].
  - destruct (Hv (mkServer None (mkStore ∅ 1%positive d') (sqlite w1))) as (w2 & Hrec & Hn & _).
    + split; reflexivity.
    + intros k. reflexivity.
    + intros T' HT'. exact HT'.
    + exists w1, d', w2. split; [exact Hd|]. split; [exact Hr|]. split; [exact Hrec|exact Hn].
Defined.

Lemma first_start_witness :
  ∃ w, recover_ledger (D := gmap bytes bytes) (Q := sql_db)
         (mkServer None (mkStore ∅ 1%positive ∅) (mkSqliteInstance ledger_db_name None)) =
         Ok (None, serving w) ∧ node w (mkBank ∅ ∅) [].
Proof.
  destruct (first_start (D := gmap bytes bytes) (Q := sql_db)
    (mkServer None (mkStore ∅ 1%positive ∅) (mkSqliteInstance ledger_db_name None))) as (w & Hr & Hn & _).
  - split; reflexivity.
  - eexists _, _. split; reflexivity.
  - exists w. split; [exact Hr|exact Hn].
Defined.

Lemma balances_printed_witness :
  ∃ w' o, fetch_from_db 3 (serving ex_served) = Ok (tt, serving w') ∧
    auto_print_account_balance (serving w') = Ok (o, serving w') ∧
    o ≡ₚ (λ ka, (ka.1, account_balance_ ka.2)) <$> map_to_list (accounts ex_bank).
Proof.
  destruct (balances_printed 3 ex_served ex_bank [] ex_Gt ex_Ga) as (w' & o & Hf & _ & _ & Hp & Ho).
  - exact ex_served_state.
  - exact ex_served_records.
  - by rewrite ex_served_seq.
  - vm_compute. lia.
  - vm_compute. lia.
  - exists w', o. split; [exact Hf|]. split; [exact Hp|exact Ho].
Defined.
End example.
